(* ===== verification/_CoqProject ===== *)
-Q . S2P
Prelude.v
Numbers.v
Base64.v
Transport.v
TransportInv.v
TransportSpec.v
Buffer.v
Uri.v
Utf8.v
Location.v
LocationSpec.v
Promise.v
PromiseSpec.v
Series.v
SeriesSpec.v
Metrics.v
DBus.v
DBusSpec.v
Events.v
Text.v
Locale.v
Process.v
Http.v
HttpSpec.v
File.v
FileSpec.v
Cache.v
CacheSpec.v
Machines.v
MachinesSpec.v
Journal.v
JournalSpec.v
KubeIndex.v
KubeLoader.v
KubeLoaderSpec.v
KubeSelect.v
KubeWatch.v
KubeMethods.v
KubeMethodsSpec.v
KubeConnect.v
NmUtils.v
NmUtilsSpec.v
NmSettings.v
NmSettingsSpec.v
NmModel.v
NmModelSpec.v
NmLinks.v
Kdump.v
KdumpSpec.v
VmState.v
VmXml.v
VmLibvirt.v
VmSpec.v
VmWorld.v
VmDummies.v
VmListing.v
ShellState.v
Shell.v
ShellSimple.v
ShellKeeps.v
ShellSpec.v
ShellNavigate.v
ShellPages.v
Loader.v
LoaderMachines.v
LoaderSpec.v
LoaderSettle.v
LoaderNested.v
LoaderEvents.v
LoaderLive.v
LoaderRuns.v
Docker.v
DockerText.v
DockerSpec.v
DockerClient.v
DockerClientSpec.v
DockerClientTable.v
Storage.v
StorageSpec.v
StorageUsage.v
