(* ===== verification/Prelude.v ===== *)
(** * Cockpit: a verification development

    Cockpit is a web console for Linux servers.  Its user interface is
    JavaScript that runs in the browser and talks to a bridge on the server over
    one WebSocket; this development models the parts of that JavaScript which
    keep state or transform data, and proves what makes them correct.  The
    definitions are translated from the sources under src/ and keep their names;
    they are executable, and examples and witnesses evaluate them.

    ** How the program is put together

    src/src/base1/cockpit.js is the library that every page loads.  At its
    bottom is the transport: one WebSocket per page, over which channels are
    multiplexed.  On channels are built processes, HTTP clients, files, metrics
    and the D-Bus client; what they answer comes as promises.  The pages under
    src/pkg use that library; modelled of them are the shared libraries and the
    clients that hold the state of a page: the machines of the dashboard, the
    journal, the clients of Kubernetes, Docker and storaged, the virtual machines,
    the shell and the model of NetworkManager.

    In the definitions a channel is seen by what it receives and sends: each
    client takes the messages and close events of its channel as inputs and
    gives the commands it sends as effects, so it composes with the transport
    through the messages of both.  The base64 and UTF-8 codecs, the formatting
    of text and the catalog of translations are used by the other files as they
    are.

    ** Conventions

    JavaScript values that travel in messages are [jval]; an object is a finite
    map ([jobj]) or, where the order of enumeration shows, an association list.
    Bitwise operators are those of the language, on 32 bits ([js_and],
    [js_shl], ...); other numbers of the modelled code are integers.  Strings
    are bytes of UTF-8, or lists of code units where a file says so.  State is
    a record that operations take and return; effects are collected in a trace
    in their order; an operation that throws says so in its result.  Deferreds,
    channels, listeners and other shared objects are numbers that index a store,
    so that aliasing is as in the source.  Code outside of src/ (the bridge, the
    browser, servers) and callbacks of other code are parameters of a Section
    or inputs of a step.  Where such a callback runs while an operation is under
    way, and may call back into it, it is a transformer of the state: the listeners
    of channels ([Transport]'s [react]) and the providers of caches ([Cache]'s
    [provider]).  The language's own JSON is a parameter too, with the
    round trip as a named hypothesis where it matters.

    ** The files

    Library
    - [Prelude]: record update, the operators on 32 bits, values, strings,
      objects with an order, and their lemmas.
    - [Numbers]: decimal numbers as printed and parsed.

    The base library, src/src/base1/cockpit.js
    - [Base64]: [base64_encode], [base64_decode].  The encoder is the textbook
      one on bytes ([base64_encode_rfc]); decoding undoes it; the decoder fills
      the array it allocates and no more.
    - [Transport], [TransportInv], [TransportSpec]: [Transport], [Channel],
      [cockpit.transport].  The page as a transition system with an invariant,
      whatever programs the listeners of its channels run; a channel is told once
      that it is closed, and of nothing afterwards but the control events of ready
      messages under way; closing the transport closes all; what opening a channel
      sends; framing.
    - [Buffer]: [join_data], [Channel.buffer].  Nothing is lost or reordered where
      there are typed arrays.
    - [Uri], [Utf8]: the language's percent encoding; [utf8_encoder],
      [utf8_decoder].  Streaming in any chunks; fatal decoding accepts exactly
      what is well-formed.
    - [Location], [LocationSpec]: [resolve_path_dots], [Location], and the
      navigation states of src/pkg/shell/base_index.js.  Round trips.
    - [Promise], [PromiseSpec]: [cockpit.defer] and what is under it.  Promises
      settle once; no callback is lost.
    - [Series], [SeriesSpec]: [SeriesSink], [SeriesGrid].  Loads are served
      from the cache or fetched, exactly once; stashing keeps an index in order; an
      index is bounded by the limits of the sinks that share it; data fills the
      right cells.
    - [Metrics]: [MetricsChannel].  The compressed stream is decoded.
    - [DBus], [DBusSpec]: [DBusCache], [DBusProxies], [DBusClient].  Every call
      is answered; the proxies of an interface follow the cache, from when they are
      connected on.
    - [Events]: [event_mixin].  Dispatch while listeners come and go.
    - [Text], [Locale]: [cockpit.format], [format_units] and the like;
      [gettext], [ngettext], [cockpit.message], the errors.
    - [Process], [Http], [HttpSpec], [File], [FileSpec]: [cockpit.spawn],
      [cockpit.http], [cockpit.file].  All settle as they should; a file is
      only modified from the content that was read.
    - [Cache], [CacheSpec]: [StorageHelper], [StorageCache], [Permission].  The
      frames of a page agree on the data that they share, whatever providers do
      while they are called.

    Libraries of the pages, src/pkg/lib
    - [Machines], [MachinesSpec]: machines.js.  The machines of a frame are a
      function of the state that the frames share.
    - [Loader]: the loader of machines.js, which connects to the machines that are
      shown.  Its handlers change the overlay that they listen to.
    - [LoaderMachines]: what such a change does to the machines, property by
      property.  [LoaderSpec]: what is left to do for the machines, as a number.
      [LoaderSettle]: what the steps of the handlers do to it.  [LoaderNested]:
      connecting and disconnecting.  [LoaderEvents]: the events of a change made
      by a handler, and the fuel.  [LoaderLive]: any change from outside.
      [LoaderRuns]: any run, which ends with nothing left to do.
    - [Journal], [JournalSpec]: journal.js, and how src/pkg/systemd/logs.js feeds
      it.  The renderer refines an abstract journal; the reader does not depend on
      chunks.

    The Kubernetes client, src/pkg/kubernetes/scripts
    - [KubeIndex]: the hash index; lookups and the binary search with its
      bound.
    - [KubeLoader], [KubeLoaderSpec]: the loader; callbacks hold what they were
      told; the limit to namespaces is enforced.
    - [KubeSelect]: filters find what a scan would.
    - [KubeWatch]: watches deliver the stream.
    - [KubeMethods], [KubeMethodsSpec]: creation in order, checks of names.
    - [KubeConnect]: configuration and discovery.

    NetworkManager, src/pkg/networkmanager
    - [NmUtils], [NmUtilsSpec]: utils.js.  Addresses survive being shown and
      entered.
    - [NmSettings], [NmSettingsSpec]: [settings_from_nm], [settings_to_nm] of
      interfaces.js.  Unedited settings survive.
    - [NmModel], [NmModelSpec], [NmLinks]: [NetworkManagerModel] of
      interfaces.js, its objects, events and export.  Refreshes are counted and
      the promises of [synchronize] settled; the links of the export agree.

    The shell, src/pkg/shell
    - [ShellState], [Shell]: base_index.js: the frames, the router between them
      and the transport, jumps, the components of manifests.  The page's
      [navigate] is a parameter.
    - [ShellSimple]: the simple index of indexes.js, which has a [navigate].
    - [ShellKeeps]: what the router needs of any [navigate], as a class over a
      relation between the states of the transport, and that the simple index has
      it.
    - [ShellSpec]: the channels of a frame are its own; what frames open carries
      their name.  [ShellNavigate]: navigation ends.
    - [ShellPages]: active-pages.js and privileges.js.

    Other pages
    - [Kdump], [KdumpSpec]: src/pkg/kdump/config-client.es6.  Settings that are
      written read back, unless lines are deleted in the wrong order.
    - [VmState], [VmXml], [VmLibvirt]: src/pkg/machines/reducers.es6,
      libvirt.es6 and their helpers: the store of virtual machines, the reading
      of descriptions and of all that virsh says, and the machines that are
      being made.
    - [VmSpec], [VmWorld]: the store stays well formed.  [VmWorld] has all inputs
      of the page as one type, and a class of the properties that every step
      keeps.
    - [VmDummies], [VmListing]: machines that are being made have a timer that
      removes them; a listing shows the machines that it lists.
    - [Docker]: src/pkg/docker/docker.js: command lines, JSON values in a stream,
      pulling, the consoles of containers.  [DockerText]: command lines read back;
      a value is skipped exactly.  [DockerSpec]: what a console shows does not
      depend on how its bytes arrive.
    - [DockerClient]: src/pkg/docker/client.js: the tables of containers and images.
      [DockerClientSpec]: what waits has actions to wait for.  [DockerClientTable]:
      the table follows the lists, whatever the order of the answers.
    - [Storage]: src/pkg/storaged/utils.js and the indices of client.js: where a block
      belongs to, partitions, free space, uses and how they are torn down.
      [StorageSpec]: the free space is what no partition has.  [StorageUsage]: no use
      is missed; groups are deleted when all their volumes go.

    ** Fuel and bounds

    Loops that are not structural have fuel.  The inner loops of the base64
    decoder run at most 3 times, as their conditions say; its length computation
    uses 32 bits, and the round trip states the length it needs.  A replaced
    file is cut into at most as many batches as it has units.  The binary search
    of the hash index has its own termination theorem ([KubeIndex.search_ends])
    with the rounds it takes, and the intersection of buckets takes at most the
    sum of their lengths ([intersect_loop_spec]).  The navigation of the shell has
    three levels and one for every frame ([ShellNavigate.navigation_ends]).  The
    handlers of the loader nest at most twice as deep as there is left to do
    ([LoaderEvents.fuel_ends]), and [Loader.depth] is more than that; that it is never
    used up is part of [LoaderRuns.loader_settles].  Listeners and providers of
    caches nest at most as deep as there are caches ([CacheSpec.dispatch_enough]);
    the programs of the listeners of channels nest as deep as they are given
    ([TransportInv]), and the theorems are for every depth.  The path of a container URL
    is read in at most as many rounds as it has parts.  A group of an IPv6
    address has at most 5 hexadecimal digits, the fuel of [hex_digits] is 8.  The
    levels of partitions are two, as containers are not contained
    ([StorageSpec.free_space_exact]); what lies on a block is looked at as deep as
    objects are nested ([StorageUsage.active_usage_complete]).  The
    loop over the frames of logs goes back for sizes of 2 GiB and more
    ([DockerSpec.large_frame_hangs]); for others one round for each byte is enough.
    The theorems state what these loops return, so running out of fuel would
    falsify them.

    ** What is not modelled

    The C programs (bridge, web server, PAM and SSH), the tests and tools,
    packaging and translations; the pages proper, which build document
    elements; vendored and generated code.  Of cockpit.js: the window plumbing
    (ParentWebSocket, visibility, translation of the document) and
    [cockpit.user].  Timers are inputs without a clock, except
    where the code computes with times.  Thenables of other libraries and the
    [on<type>] members of event targets are left out.  Parts of the modelled
    files that are left out are named at the top of each.  Objects' inherited
    property names (like "constructor") are not keys, except in the router of the
    shell.  Of the shell, the index of many machines is left out. *)

From stdpp Require Export base tactics numbers list option strings gmap.
From stdpp Require Export pretty.
From Stdlib Require Export ZArith Lia Ascii.

#[global] Open Scope Z_scope.

(** ** Record update

    [r <| f := v |>] and [r <| f ::= g |>].  A record type declares how to
    rebuild a value from its projections ([Settable]); the setter of a field is
    found by abstracting that projection. *)

Class Settable (R : Type) := rebuild : R -> R.
Class SetField {R T : Type} (proj : R -> T) := set_field : (T -> T) -> R -> R.
#[global] Arguments set_field {R T} proj {_} f x.

Ltac build_setter R T proj :=
  let inst := constr:(ltac:(typeclasses eauto) : Settable R) in
  let eta := eval hnf in inst in
  exact (fun (f : T -> T) (x : R) => ltac:(
    let b := eval cbv beta in (eta x) in
    lazymatch eval pattern (proj x) in b with
    | ?g _ => let r := eval cbv beta in (g (f (proj x))) in exact r
    end)).

#[export] Hint Extern 1 (@SetField ?R ?T ?proj) => build_setter R T proj : typeclass_instances.

Declare Scope record_scope.
#[global] Open Scope record_scope.
Notation "x <| proj := v |>" := (set_field proj (fun _ => v) x)
  (at level 12, left associativity) : record_scope.
Notation "x <| proj ::= f |>" := (set_field proj f x)
  (at level 12, f at next level, left associativity) : record_scope.

(** ** JavaScript 32 bit integer operators

    The bitwise operators convert their operands with ToInt32 or ToUint32 and
    take the shift count modulo 32. *)

Definition to_uint32 (z : Z) : Z := z mod 2 ^ 32.

Definition to_int32 (z : Z) : Z :=
  let m := z mod 2 ^ 32 in if m <? 2 ^ 31 then m else m - 2 ^ 32.

Definition js_shl (a n : Z) : Z := to_int32 (Z.shiftl (to_int32 a) (n mod 32)).
Definition js_shr (a n : Z) : Z := Z.shiftr (to_int32 a) (n mod 32).
Definition js_ushr (a n : Z) : Z := Z.shiftr (to_uint32 a) (n mod 32).
Definition js_or (a b : Z) : Z := Z.lor (to_int32 a) (to_int32 b).
Definition js_and (a b : Z) : Z := Z.land (to_int32 a) (to_int32 b).

(** Lengths and indices are JavaScript numbers. *)
Definition zlen {A} (l : list A) : Z := Z.of_nat (length l).

(** [l[i]] on an array or a string: [undefined] ([None]) out of range,
    negative indices included. *)
Definition js_at {A} (l : list A) (i : Z) : option A :=
  if i <? 0 then None else l !! Z.to_nat i.

Ltac bdestruct_all :=
  repeat match goal with
    | |- context [?a <? ?b] => destruct (Z.ltb_spec a b)
    | |- context [?a <=? ?b] => destruct (Z.leb_spec a b)
    | |- context [?a =? ?b] => destruct (Z.eqb_spec a b)
    end.

Create Rewrite HintDb jsint.

Lemma to_int32_small z : 0 <= z < 2 ^ 31 -> to_int32 z = z.
Proof.
  intros Hz. unfold to_int32. rewrite Z.mod_small by lia.
  destruct (Z.ltb_spec z (2 ^ 31)); lia.
Qed.

Lemma to_uint32_small z : 0 <= z < 2 ^ 32 -> to_uint32 z = z.
Proof. intros. unfold to_uint32. apply Z.mod_small. lia. Qed.

Lemma js_shl_small a n :
  0 <= a -> 0 <= n < 32 -> a * 2 ^ n < 2 ^ 31 -> js_shl a n = a * 2 ^ n.
Proof.
  intros Ha Hn Hb. unfold js_shl.
  assert (1 <= 2 ^ n) by (pose proof (Z.pow_pos_nonneg 2 n); lia).
  rewrite (Z.mod_small n 32) by lia.
  rewrite (to_int32_small a) by nia.
  rewrite Z.shiftl_mul_pow2 by lia. apply to_int32_small. nia.
Qed.

Lemma js_ushr_small a n :
  0 <= a < 2 ^ 32 -> 0 <= n < 32 -> js_ushr a n = a / 2 ^ n.
Proof.
  intros. unfold js_ushr. rewrite Z.mod_small, to_uint32_small by lia.
  apply Z.shiftr_div_pow2. lia.
Qed.

Lemma js_shr_small a n :
  0 <= a < 2 ^ 31 -> 0 <= n < 32 -> js_shr a n = a / 2 ^ n.
Proof.
  intros. unfold js_shr. rewrite Z.mod_small, to_int32_small by lia.
  apply Z.shiftr_div_pow2. lia.
Qed.

Lemma to_int32_mod a k : 0 <= k <= 32 -> to_int32 a mod 2 ^ k = a mod 2 ^ k.
Proof.
  intros Hk. assert (2 ^ 32 = 2 ^ k * 2 ^ (32 - k)) as E.
  { rewrite <- Z.pow_add_r by lia. f_equal. lia. }
  assert (0 < 2 ^ k) by (apply Z.pow_pos_nonneg; lia).
  unfold to_int32. destruct (_ <? _).
  - rewrite E, Z.rem_mul_r by (try apply Z.pow_pos_nonneg; lia).
    rewrite Z.mul_comm, Z.mod_add, Z.mod_mod by lia. done.
  - rewrite E. rewrite Z.rem_mul_r at 1 by (try apply Z.pow_pos_nonneg; lia).
    replace (_ - _) with (a mod 2 ^ k + ((a / 2 ^ k) mod 2 ^ (32 - k) - 2 ^ (32 - k)) * 2 ^ k)
      by lia.
    rewrite Z.mod_add, Z.mod_mod by lia. done.
Qed.

(** Masking with [2^k - 1] is reduction modulo [2^k], for every number. *)
Lemma js_and_ones a k : 0 <= k < 31 -> js_and a (Z.ones k) = a mod 2 ^ k.
Proof.
  intros Hk. unfold js_and.
  assert (0 < 2 ^ k <= 2 ^ 30).
  { split; [apply Z.pow_pos_nonneg; lia | apply Z.pow_le_mono_r; lia]. }
  rewrite (to_int32_small (Z.ones k)) by (rewrite Z.ones_equiv; lia).
  rewrite Z.land_ones by lia. apply to_int32_mod. lia.
Qed.

(** Disjoint bit fields: [|] is addition. *)
Lemma lor_add_shift a b k :
  0 <= k -> 0 <= b < 2 ^ k -> Z.lor (a * 2 ^ k) b = a * 2 ^ k + b.
Proof.
  intros Hk Hb. rewrite <- Z.shiftl_mul_pow2 by lia. symmetry.
  rewrite Z.add_nocarry_lxor, Z.lxor_lor; auto.
  all: apply Z.bits_inj'; intros n Hn; rewrite Z.land_spec, Z.bits_0.
  all: destruct (Z.ltb_spec n k);
    [rewrite Z.shiftl_spec_low by lia; reflexivity|].
  all: rewrite <- (Z.mod_small b (2 ^ k)) by lia.
  all: rewrite Z.mod_pow2_bits_high by lia; apply andb_false_r.
Qed.

Lemma js_or_add a b k :
  0 <= k -> 0 <= a -> 0 <= b < 2 ^ k -> a * 2 ^ k + b < 2 ^ 31 ->
  js_or (a * 2 ^ k) b = a * 2 ^ k + b.
Proof.
  intros. unfold js_or. rewrite !to_int32_small by nia. by apply lor_add_shift.
Qed.

#[export] Hint Rewrite @length_app @length_cons @length_nil : jsint.

(** Induction on lists three elements at a time. *)
Lemma list3_ind {A} (P : list A -> Prop) :
  P [] -> (forall a, P [a]) -> (forall a b, P [a; b]) ->
  (forall a b c l, P l -> P (a :: b :: c :: l)) -> forall l, P l.
Proof.
  intros H0 H1 H2 H3. fix IH 1. intros [|a [|b [|c l]]];
    [exact H0 | apply H1 | apply H2 | apply H3, IH].
Qed.

(** Split a [Forall] over a literal list without simplifying the goal. *)
Ltac split_Forall :=
  repeat match goal with
    | H : Forall _ (_ :: _) |- _ =>
        let H' := fresh H in apply Forall_cons_1 in H as [H' H]
    end.

(** ** JavaScript values

    The values that travel in cockpit messages: JSON values and [undefined].
    An object is a finite map from property names to values. *)

Inductive jval :=
  | JUndef | JNull | JBool (b : bool) | JNum (z : Z) | JStr (s : string)
  | JArr (l : list jval) | JObj (fields : list (string * jval)).

Abbreviation jobj := (gmap string jval).

(** [ToBoolean]. *)
Definition truthy (v : jval) : bool :=
  match v with
  | JUndef | JNull => false
  | JBool b => b
  | JNum z => negb (z =? 0)
  | JStr s => negb (String.eqb s "")
  | JArr _ | JObj _ => true
  end.

(** Property access on an object: [undefined] when the property is missing. *)
Definition prop (o : jobj) (k : string) : jval := default JUndef (o !! k).

Lemma prop_insert k k' v (o : jobj) :
  prop (<[k := v]> o) k' = if String.eqb k k' then v else prop o k'.
Proof.
  unfold prop. destruct (String.eqb_spec k k') as [<-|].
  - by rewrite lookup_insert_eq.
  - by rewrite lookup_insert_ne.
Qed.

Lemma prop_delete k k' (o : jobj) :
  prop (delete k o) k' = if String.eqb k k' then JUndef else prop o k'.
Proof.
  unfold prop. destruct (String.eqb_spec k k') as [<-|].
  - by rewrite lookup_delete_eq.
  - by rewrite lookup_delete_ne.
Qed.

(** [extend(to, from)]: properties that are undefined are not copied. *)
Definition extend (to from : jobj) : jobj :=
  filter (fun p => negb (match snd p with JUndef => true | _ => false end) = true) from ∪ to.

Lemma prop_extend (to from : jobj) k :
  prop (extend to from) k = match prop from k with JUndef => prop to k | v => v end.
Proof.
  unfold prop, extend. rewrite lookup_union, map_lookup_filter.
  destruct (from !! k) as [v|] eqn:E; cbn; [|by rewrite (left_id_L None _)].
  destruct v; cbn; repeat case_guard; cbn in *; try done;
    rewrite ?union_Some_l, ?(left_id_L None _); try done; by destruct (to !! k).
Qed.

(** [a == "literal"] and [a === "literal"] for a string literal. *)
Definition is_str (v : jval) (s : string) : bool :=
  match v with JStr s' => String.eqb s' s | _ => false end.

(** [===] on values that are not objects. *)
Definition strict_eq (a b : jval) : bool :=
  match a, b with
  | JStr x, JStr y => String.eqb x y
  | JNum x, JNum y => x =? y
  | JBool x, JBool y => Bool.eqb x y
  | JNull, JNull | JUndef, JUndef => true
  | _, _ => false
  end.

Lemma strict_eq_eq a b : strict_eq a b = true -> a = b.
Proof.
  destruct a, b; cbn; try done.
  - intros H%Bool.eqb_prop. by subst.
  - intros H%Z.eqb_eq. by subst.
  - intros H%String.eqb_eq. by subst.
Qed.

(** [a == b] on values that are not objects. *)
Definition loose_eq (a b : jval) : bool :=
  match a, b with
  | JUndef, JNull | JNull, JUndef => true
  | _, _ => strict_eq a b
  end.

(** [Array.prototype.join]. *)
Fixpoint str_join (sep : string) (l : list string) : string :=
  match l with
  | [] => ""
  | [s] => s
  | s :: rest => s +:+ sep +:+ str_join sep rest
  end.

(** [String(v)].  Array elements that are null or undefined print as empty. *)
Fixpoint js_String (v : jval) : string :=
  match v with
  | JUndef => "undefined" | JNull => "null"
  | JBool b => if b then "true" else "false"
  | JNum z => pretty z
  | JStr s => s
  | JArr l => str_join "," (map (fun x => match x with
                                  | JUndef | JNull => "" | _ => js_String x end) l)
  | JObj _ => "[object Object]"
  end.

#[global] Arguments Ascii.eqb : simpl never.
#[global] Arguments String.eqb : simpl never.
#[global] Arguments String.append : simpl nomatch.

(** The newline character. *)
Definition nl_char : Ascii.ascii := "010"%char.
Definition nl : string := String nl_char "".

(** The double quote, as a string. *)
Definition dquote : string := String "034"%char "".

(** Split a string at the first occurrence of a character. *)
Fixpoint str_cut (c : Ascii.ascii) (s : string) : option (string * string) :=
  match s with
  | EmptyString => None
  | String a s' =>
      if Ascii.eqb a c then Some (EmptyString, s')
      else match str_cut c s' with
           | Some (x, y) => Some (String a x, y)
           | None => None
           end
  end.

Fixpoint str_mem (c : Ascii.ascii) (s : string) : bool :=
  match s with
  | EmptyString => false
  | String a s' => Ascii.eqb a c || str_mem c s'
  end.

Lemma str_cut_app c x y :
  str_mem c x = false -> str_cut c (x +:+ String c y) = Some (x, y).
Proof.
  induction x as [|a x IH]; cbn; intros H.
  - by rewrite Ascii.eqb_refl.
  - apply orb_false_iff in H as [-> H]. by rewrite IH.
Qed.

Lemma str_cut_inv c s x y :
  str_cut c s = Some (x, y) -> s = x +:+ String c y /\ str_mem c x = false.
Proof.
  revert x. induction s as [|a s IH]; cbn; intros x H; [done|].
  destruct (Ascii.eqb_spec a c) as [->|Hne].
  - by inversion H; subst.
  - destruct (str_cut c s) as [[x' y']|] eqn:E; [|done]. inversion H; subst.
    destruct (IH x' eq_refl) as [-> Hm]. cbn. rewrite Hm, orb_false_r.
    split; [done|]. by apply Ascii.eqb_neq.
Qed.

Lemma str_mem_app c x y : str_mem c (x +:+ y) = str_mem c x || str_mem c y.
Proof. induction x as [|a x IH]; cbn; [done|]. by rewrite IH, orb_assoc. Qed.

Lemma str_app_length a b : String.length (a +:+ b) = (String.length a + String.length b)%nat.
Proof. induction a as [|c a IH]; cbn; [done|]. by rewrite IH. Qed.

Lemma str_app_nil_r x : x +:+ "" = x.
Proof. induction x as [|c x IH]; [done|]. cbn. by f_equal. Qed.

Lemma str_app_assoc a b c : (a +:+ b) +:+ c = a +:+ (b +:+ c).
Proof. induction a as [|x a IH]; cbn; [done|]. by rewrite IH. Qed.

(** ** Numbers in strings *)

(** ASCII white space. *)
Definition is_space (c : Ascii.ascii) : bool :=
  let n := Z.of_nat (Ascii.nat_of_ascii c) in (n =? 32) || ((9 <=? n) && (n <=? 13)).

Fixpoint trim_left (s : string) : string :=
  match s with String c s' => if is_space c then trim_left s' else s | EmptyString => "" end.

(** [String.prototype.trim], of ASCII white space. *)
Fixpoint trim_right (s : string) : string :=
  match s with
  | EmptyString => ""
  | String c s' =>
      match trim_right s' with
      | EmptyString => if is_space c then "" else String c ""
      | s'' => String c s''
      end
  end.

Definition trim (s : string) : string := trim_right (trim_left s).

(** [parseInt(s, 10)]: leading digits, [None] is NaN. *)
Fixpoint leading_digits (s : string) (acc : option Z) : option Z :=
  match s with
  | EmptyString => acc
  | String c s =>
      let d := Z.of_nat (Ascii.nat_of_ascii c) - 48 in
      if (0 <=? d) && (d <=? 9) then leading_digits s (Some (10 * default 0 acc + d)) else acc
  end.

Definition parseInt (v : jval) : option Z :=
  match trim_left (js_String v) with
  | String c s as t =>
      if Ascii.eqb c "-" then Z.opp <$> leading_digits s None
      else if Ascii.eqb c "+" then leading_digits s None
      else leading_digits t None
  | EmptyString => None
  end.

(** ** Objects whose enumeration order matters

    A JavaScript object used as a dictionary is enumerated in insertion order;
    assigning to an existing property keeps its place. *)

Section Assoc.
Context {A : Type}.
Implicit Types (l : list (string * A)) (k : string).

Fixpoint assoc_get k l : option A :=
  match l with
  | [] => None
  | (k', x) :: l => if String.eqb k' k then Some x else assoc_get k l
  end.

Fixpoint assoc_set k (x : A) l : list (string * A) :=
  match l with
  | [] => [(k, x)]
  | (k', x') :: l => if String.eqb k' k then (k', x) :: l else (k', x') :: assoc_set k x l
  end.

Fixpoint assoc_del k l : list (string * A) :=
  match l with
  | [] => []
  | (k', x) :: l => if String.eqb k' k then assoc_del k l else (k', x) :: assoc_del k l
  end.

Lemma assoc_get_set k k' x l :
  assoc_get k (assoc_set k' x l) = if String.eqb k' k then Some x else assoc_get k l.
Proof.
  induction l as [|[k1 x1] l IH]; cbn; [done|].
  destruct (String.eqb_spec k1 k') as [->|Hne]; cbn.
  - by destruct (String.eqb_spec k' k).
  - rewrite IH. destruct (String.eqb_spec k1 k), (String.eqb_spec k' k); congruence.
Qed.

Lemma assoc_get_del k k' l :
  assoc_get k (assoc_del k' l) = if String.eqb k' k then None else assoc_get k l.
Proof.
  induction l as [|[k1 x1] l IH]; cbn; [by destruct (_ =? _)%string|].
  destruct (String.eqb_spec k1 k') as [->|Hne]; cbn; rewrite IH.
  - by destruct (String.eqb_spec k' k).
  - destruct (String.eqb_spec k1 k), (String.eqb_spec k' k); congruence.
Qed.

Lemma assoc_get_elem k x l : assoc_get k l = Some x -> (k, x) ∈ l.
Proof.
  induction l as [|[k1 x1] l IH]; cbn; [done|].
  destruct (String.eqb_spec k1 k) as [->|]; intros; simplify_eq; set_solver.
Qed.

Lemma assoc_get_None k l : assoc_get k l = None <-> k ∉ l.*1.
Proof.
  induction l as [|[k1 x1] l IH]; cbn; [set_solver|].
  destruct (String.eqb_spec k1 k) as [->|]; set_solver.
Qed.

Lemma assoc_elem_get k x l : NoDup l.*1 -> (k, x) ∈ l -> assoc_get k l = Some x.
Proof.
  induction l as [|[k1 x1] l IH]; cbn; [set_solver|].
  rewrite NoDup_cons, elem_of_cons. intros [Hk Hn] [?|Hin]; simplify_eq.
  - by rewrite String.eqb_refl.
  - destruct (String.eqb_spec k1 k) as [->|]; [|auto].
    destruct Hk. apply list_elem_of_fmap. by exists (k, x).
Qed.

Lemma assoc_set_keys k x l :
  (assoc_set k x l).*1 = if bool_decide (k ∈ l.*1) then l.*1 else l.*1 ++ [k].
Proof.
  induction l as [|[k1 x1] l IH]; cbn; [done|].
  destruct (String.eqb_spec k1 k) as [->|Hne]; cbn.
  - by rewrite bool_decide_eq_true_2 by set_solver.
  - rewrite IH. repeat case_bool_decide; set_solver.
Qed.

Lemma assoc_set_nodup k x l : NoDup l.*1 -> NoDup (assoc_set k x l).*1.
Proof.
  rewrite assoc_set_keys. case_bool_decide; [done|]. intros.
  apply NoDup_app. split_and!; [done|set_solver|apply NoDup_singleton].
Qed.

Lemma assoc_del_keys k l : (assoc_del k l).*1 = filter (fun k' => k' <> k) l.*1.
Proof.
  induction l as [|[k1 x1] l IH]; [done|]. cbn [assoc_del].
  rewrite fmap_cons, filter_cons.
  destruct (String.eqb_spec k1 k) as [->|Hne]; rewrite ?fmap_cons, IH;
    case_decide; cbn in *; congruence.
Qed.

Lemma assoc_del_nodup k l : NoDup l.*1 -> NoDup (assoc_del k l).*1.
Proof. rewrite assoc_del_keys. apply NoDup_filter. Qed.

Lemma assoc_set_new k x l : assoc_get k l = None -> assoc_set k x l = l ++ [(k, x)].
Proof.
  induction l as [|[k1 x1] l IH]; cbn; [done|].
  destruct (k1 =? k)%string; [done|]. intros. by rewrite IH.
Qed.

Lemma assoc_set_elem k k' (x x' : A) l :
  (k', x') ∈ assoc_set k x l -> (k' = k /\ x' = x) \/ (k', x') ∈ l.
Proof.
  induction l as [|[k1 x1] l IH]; cbn; [intros [= -> ->]%list_elem_of_singleton; by left|].
  destruct (String.eqb_spec k1 k) as [->|Hne]; rewrite !elem_of_cons; naive_solver.
Qed.

Lemma assoc_del_elem k k' (x : A) l : (k', x) ∈ assoc_del k l -> k' <> k /\ (k', x) ∈ l.
Proof.
  induction l as [|[k1 x1] l IH]; cbn; [by intros ?%not_elem_of_nil|].
  destruct (String.eqb_spec k1 k) as [->|Hne]; rewrite ?elem_of_cons; naive_solver.
Qed.
End Assoc.

(** Property access, on anything but null and undefined. *)
Definition jget (v : jval) (k : string) : jval :=
  match v with JObj fields => default JUndef (assoc_get k fields) | _ => JUndef end.

(** ** Lists *)

Lemma filter_agree {A} (P Q : A -> Prop) `{!forall x, Decision (P x), !forall x, Decision (Q x)} (l : list A) :
  (forall x, x ∈ l -> P x <-> Q x) -> filter P l = filter Q l.
Proof.
  induction l as [|a l IH]; intros He; [done|]. rewrite !filter_cons, IH by (intros x Hx; apply He; by right).
  assert (P a <-> Q a) by (apply He; by left). repeat case_decide; tauto.
Qed.
