(* ===== verification/Numbers.v ===== *)
(** * Numbers in strings

    Decimal numbers as the language prints and parses them: what is printed for
    a number are digits, and is read back. *)

From S2P Require Import Prelude.

Definition is_digit (c : Ascii.ascii) : bool :=
  let d := Z.of_nat (Ascii.nat_of_ascii c) - 48 in (0 <=? d) && (d <=? 9).

Fixpoint str_forall (p : Ascii.ascii -> bool) (s : string) : bool :=
  match s with EmptyString => true | String c s => p c && str_forall p s end.

(** [/^[0-9]+$/]. *)
Definition digits_only (s : string) : bool := negb (String.eqb s "") && str_forall is_digit s.

Lemma digit_char n : (n < 10)%N ->
  let c := pretty_N_char n in
  Z.of_nat (Ascii.nat_of_ascii c) - 48 = Z.of_N n /\ is_digit c = true.
Proof.
  intros Hn. assert (n ∈ [0; 1; 2; 3; 4; 5; 6; 7; 8; 9]%N) as H by (rewrite !elem_of_cons; lia).
  clear Hn. repeat (apply elem_of_cons in H as [->|H]; [vm_compute; repeat split; congruence|]).
  by inversion H.
Qed.

(** Digits are neither signs nor space nor anything else. *)
Lemma is_digit_not c d : is_digit c = true -> is_digit d = false -> Ascii.eqb c d = false.
Proof. intros Hc Hd. apply Ascii.eqb_neq. intros ->. congruence. Qed.

Lemma is_digit_space c : is_digit c = true -> is_space c = false.
Proof.
  unfold is_digit, is_space. intros [H1%Z.leb_le H2%Z.leb_le]%andb_true_iff.
  apply orb_false_iff. split; [apply Z.eqb_neq; lia|]. apply andb_false_iff. right. apply Z.leb_gt. lia.
Qed.

Lemma str_forall_mem p s c : str_forall p s = true -> p c = false -> str_mem c s = false.
Proof.
  induction s as [|a s IH]; [done|]. cbn. intros [Ha Hs]%andb_true_iff Hc. rewrite IH by done.
  rewrite orb_false_r. apply Ascii.eqb_neq. intros ->. congruence.
Qed.

Lemma digits_go x : forall s, str_forall is_digit s = true ->
  leading_digits (pretty_N_go x s) None = leading_digits s (if decide (x = 0)%N then None else Some (Z.of_N x)) /\
  str_forall is_digit (pretty_N_go x s) = true /\ (x <> 0%N -> pretty_N_go x s <> "").
Proof.
  induction (N.lt_wf_0 x) as [x _ IH]. intros s Hs. destruct (decide (x = 0)%N) as [->|Hx].
  { by rewrite pretty_N_go_0. }
  rewrite pretty_N_go_step by lia. destruct (digit_char (x `mod` 10) (N.mod_lt x 10 ltac:(lia))) as [Hd Hi].
  assert (Z.of_N x = 10 * Z.of_N (x `div` 10) + Z.of_N (x `mod` 10)) as Hx10.
  { rewrite (N.div_mod x 10) at 1 by lia. generalize (x `div` 10)%N, (x `mod` 10)%N. intros. lia. }
  set (c := pretty_N_char (x `mod` 10)) in *.
  destruct (IH (x `div` 10)%N (N.div_lt x 10 ltac:(lia) eq_refl) (String c s)) as (H1 & H2 & H3);
    [cbn; by rewrite Hi|].
  assert (forall acc, leading_digits (String c s) acc =
    leading_digits s (Some (10 * default 0 acc + Z.of_N (x `mod` 10)))) as Hstep.
  { intros acc. cbn [leading_digits]. unfold is_digit in Hi. rewrite Hd in *. by rewrite Hi. }
  rewrite H1, Hstep. split; [|split; [done|]].
  - f_equal. destruct (decide (x `div` 10 = 0)%N) as [E|E]; cbn [default]; [|by rewrite Hx10].
    unfold id. rewrite Hx10, E. done.
  - intros _. destruct (decide (x `div` 10 = 0)%N) as [E|E]; [|by apply H3]. by rewrite E, pretty_N_go_0.
Qed.

(** What is printed for a number that is not negative. *)
Lemma pretty_number z : 0 <= z ->
  leading_digits (pretty z) None = Some z /\ digits_only (pretty z) = true.
Proof.
  intros Hz. destruct z as [|p|p]; [done| |lia].
  change (pretty (Z.pos p)) with (pretty (N.pos p)).
  assert (pretty (N.pos p) = pretty_N_go (N.pos p) "") as -> by done.
  destruct (digits_go (N.pos p) "" eq_refl) as (H1 & H2 & H3). rewrite H1. split; [done|].
  unfold digits_only. rewrite H2, andb_true_r. apply negb_true_iff, String.eqb_neq. by apply H3.
Qed.

Lemma parse_pretty z : 0 <= z -> parseInt (JStr (pretty z)) = Some z.
Proof.
  intros Hz. destruct (pretty_number z Hz) as [H1 H2]. unfold parseInt. cbn [js_String].
  unfold digits_only in H2. apply andb_true_iff in H2 as [Hne Hd].
  destruct (pretty z) as [|c s]; [done|]. cbn in Hd. apply andb_true_iff in Hd as [Hc _].
  cbn [trim_left]. rewrite (is_digit_space c Hc). by rewrite !is_digit_not by done.
Qed.

Lemma pretty_digits_only z : 0 <= z -> digits_only (pretty z) = true.
Proof. intros Hz. by destruct (pretty_number z Hz). Qed.

Lemma pretty_no_char z c : 0 <= z -> is_digit c = false -> str_mem c (pretty z) = false.
Proof.
  intros Hz Hc. pose proof (pretty_digits_only z Hz) as H. unfold digits_only in H.
  apply andb_true_iff in H as [_ H]. by eapply str_forall_mem.
Qed.

(** Trimming leaves alone what has no space. *)
Lemma trim_no_space s : str_forall (fun c => negb (is_space c)) s = true -> trim s = s.
Proof.
  unfold trim. intros H. assert (trim_left s = s) as ->.
  { destruct s as [|c s]; [done|]. cbn in *. by destruct (is_space c). }
  induction s as [|c s IH]; [done|]. cbn in *. apply andb_true_iff in H as [Hc Hs]. rewrite IH by done.
  destruct s; [by destruct (is_space c)|done].
Qed.

Lemma trim_digits s : digits_only s = true -> trim s = s.
Proof.
  intros [_ H]%andb_true_iff. apply trim_no_space. induction s as [|c s IH]; [done|]. cbn in *.
  apply andb_true_iff in H as [Hc Hs]. by rewrite is_digit_space, IH.
Qed.
