(* ===== verification/Base64.v ===== *)
(** * Base64 (src/src/base1/cockpit.js, [base64_encode] and [base64_decode])

    The bit-twiddling encoder and decoder of cockpit.js, their equivalence
    with the textbook definition of base64 on three-byte groups, and the round
    trip.  Strings are lists of UTF-16 code units, byte arrays are lists of
    integers. *)

From S2P Require Import Prelude.

Definition uint6_to_b64 (x : Z) : Z :=
  if x <? 26 then x + 65 else if x <? 52 then x + 71
  else if x <? 62 then x - 4 else if x =? 62 then 43
  else if x =? 63 then 47 else 65.

Definition b64_to_uint6 (x : Z) : Z :=
  if (64 <? x) && (x <? 91) then x - 65
  else if (96 <? x) && (x <? 123) then x - 71
  else if (47 <? x) && (x <? 58) then x + 4
  else if x =? 43 then 62 else if x =? 47 then 63 else 0.

(** The [for] loop of the encoder; the accumulators are [uint24], [mod3] and
    [str], which the code reads after the loop. *)
Fixpoint encode_loop (len : Z) (data : list Z) (i mod3 uint24 : Z)
    (str : list Z) : list Z * Z :=
  match data with
  | [] => (str, mod3)
  | d :: rest =>
      let mod3 := i mod 3 in
      let uint24 := js_or uint24 (js_shl d (js_and (js_ushr 16 mod3) 24)) in
      if (mod3 =? 2) || (len - i =? 1) then
        encode_loop len rest (i + 1) mod3 0
          (str ++ [uint6_to_b64 (js_and (js_ushr uint24 18) 63);
                   uint6_to_b64 (js_and (js_ushr uint24 12) 63);
                   uint6_to_b64 (js_and (js_ushr uint24 6) 63);
                   uint6_to_b64 (js_and uint24 63)])
      else encode_loop len rest (i + 1) mod3 uint24 str
  end.

(** [base64_encode] on an array (or a [Uint8Array] view of a buffer). *)
Definition base64_encode (data : list Z) : list Z :=
  let '(str, mod3) := encode_loop (zlen data) data 0 2 0 [] in
  take (Z.to_nat (zlen str - 2 + mod3)) str ++
  (if mod3 =? 2 then [] else if mod3 =? 1 then [61] else [61; 61]).

(** The first loop of the decoder: trailing padding characters, at most 3. *)
Fixpoint count_eq (fuel : nat) (str : list Z) (eq : Z) : Z :=
  match fuel with
  | O => eq
  | S fuel =>
      if eq <? 3 then
        if bool_decide (js_at str (zlen str - (eq + 1)) = Some 61)
        then count_eq fuel str (eq + 1) else eq
      else eq
  end.

(** The inner loop: [oi] is the number of slots already written. *)
Fixpoint emit (fuel : nat) (mod3 olen uint24 : Z) (data : list Z) : list Z :=
  match fuel with
  | O => data
  | S fuel =>
      if (mod3 <? 3) && (zlen data <? olen) then
        emit fuel (mod3 + 1) olen uint24
          (data ++ [js_and (js_ushr uint24 (js_and (js_ushr 16 mod3) 24)) 255])
      else data
  end.

Fixpoint decode_loop (ilen olen : Z) (str : list Z) (ii uint24 : Z)
    (data : list Z) : list Z :=
  match str with
  | [] => data
  | c :: rest =>
      let mod4 := js_and ii 3 in
      let uint24 := js_or uint24 (js_shl (b64_to_uint6 c) (18 - 6 * mod4)) in
      if (mod4 =? 3) || (ilen - ii =? 1) then
        decode_loop ilen olen rest (ii + 1) 0 (emit 3 0 olen uint24 data)
      else decode_loop ilen olen rest (ii + 1) uint24 data
  end.

Definition decoded_length (str : list Z) : Z :=
  js_shr (zlen str * 3 + 1) 2 - count_eq 3 str 0.

(** [base64_decode] with an array constructor.  [None] is the RangeError of
    allocating an array of negative length. *)
Definition base64_decode (str : list Z) : option (list Z) :=
  let olen := decoded_length str in
  if olen <? 0 then None
  else Some (decode_loop (zlen str) olen str 0 0 []).

(** ** Textbook base64 (RFC 4648), the specification *)

Definition is_byte (b : Z) : Prop := 0 <= b < 256.

Definition b64char (n : Z) : Z := uint6_to_b64 n.

Definition group3 (a b c : Z) : list Z :=
  [b64char (a / 4); b64char ((a mod 4) * 16 + b / 16);
   b64char ((b mod 16) * 4 + c / 64); b64char (c mod 64)].

Fixpoint rfc_encode (l : list Z) : list Z :=
  match l with
  | [] => []
  | [a] => [b64char (a / 4); b64char ((a mod 4) * 16); 61; 61]
  | [a; b] => [b64char (a / 4); b64char ((a mod 4) * 16 + b / 16);
               b64char ((b mod 16) * 4); 61]
  | a :: b :: c :: rest => group3 a b c ++ rfc_encode rest
  end.

Example encode_man : base64_encode [77; 97; 110; 33] = [84; 87; 70; 117; 73; 81; 61; 61].
Proof. vm_compute. reflexivity. Qed.
Example decode_man : base64_decode [84; 87; 70; 117; 73; 81; 61; 61] = Some [77; 97; 110; 33].
Proof. vm_compute. reflexivity. Qed.
Example decode_neg : base64_decode [61; 61] = None.
Proof. vm_compute. reflexivity. Qed.

(** ** Bit fields of a 24 bit group *)

Ltac euclid := Z.to_euclidean_division_equations; lia.

Lemma sextet u k :
  0 <= u < 2 ^ 24 -> 0 <= k < 24 ->
  js_and (js_ushr u k) 63 = (u / 2 ^ k) mod 64.
Proof.
  intros Hu Hk. change 63 with (Z.ones 6). rewrite js_ushr_small by lia.
  apply js_and_ones. lia.
Qed.

Lemma octet u k :
  0 <= u < 2 ^ 24 -> 0 <= k < 24 ->
  js_and (js_ushr u k) 255 = (u / 2 ^ k) mod 256.
Proof.
  intros Hu Hk. change 255 with (Z.ones 8). rewrite js_ushr_small by lia.
  apply js_and_ones. lia.
Qed.

Lemma js_or_0 b : 0 <= b < 2 ^ 31 -> js_or 0 b = b.
Proof. intros. unfold js_or. rewrite (to_int32_small b) by lia. reflexivity. Qed.

(** Shifting the three bytes of a group into place. *)
Lemma shift_byte m a :
  0 <= m < 3 -> is_byte a ->
  js_shl a (js_and (js_ushr 16 m) 24) = a * 2 ^ (16 - 8 * m).
Proof.
  unfold is_byte. intros Hm Ha.
  assert (m = 0 \/ m = 1 \/ m = 2) as [-> | [-> | ->]] by lia;
    match goal with |- js_shl a ?n = _ => let v := eval vm_compute in n in change n with v end;
    rewrite js_shl_small by lia; lia.
Qed.

Definition word3 (a b c : Z) : Z := a * 65536 + b * 256 + c.

Lemma pack2 a b : is_byte a -> is_byte b -> js_or (a * 65536) (b * 256) = word3 a b 0.
Proof.
  unfold is_byte, word3. intros.
  replace 65536 with (2 ^ 16) by lia. rewrite js_or_add; lia.
Qed.

Lemma pack3 a b c :
  is_byte a -> is_byte b -> is_byte c -> js_or (word3 a b 0) c = word3 a b c.
Proof.
  unfold is_byte, word3. intros.
  replace (a * 65536 + b * 256 + 0) with ((a * 256 + b) * 2 ^ 8) by lia.
  rewrite js_or_add; lia.
Qed.

Lemma word3_range a b c :
  is_byte a -> is_byte b -> is_byte c -> 0 <= word3 a b c < 2 ^ 24.
Proof. unfold is_byte, word3. intros. lia. Qed.

Definition quad (u : Z) : list Z :=
  [uint6_to_b64 (js_and (js_ushr u 18) 63); uint6_to_b64 (js_and (js_ushr u 12) 63);
   uint6_to_b64 (js_and (js_ushr u 6) 63); uint6_to_b64 (js_and u 63)].

Lemma quad_word3 a b c :
  is_byte a -> is_byte b -> is_byte c -> quad (word3 a b c) = group3 a b c.
Proof.
  intros Ha Hb Hc. pose proof (word3_range a b c Ha Hb Hc).
  unfold quad, group3, b64char. rewrite !sextet by lia.
  change 63 with (Z.ones 6). rewrite js_and_ones by lia.
  unfold word3, is_byte in *.
  do 4 (apply (f_equal2 cons); [apply f_equal; euclid|]). reflexivity.
Qed.

Lemma encode_loop_step len d rest i m u str :
  encode_loop len (d :: rest) i m u str =
  if (i mod 3 =? 2) || (len - i =? 1)
  then encode_loop len rest (i + 1) (i mod 3) 0
         (str ++ quad (js_or u (js_shl d (js_and (js_ushr 16 (i mod 3)) 24))))
  else encode_loop len rest (i + 1) (i mod 3)
         (js_or u (js_shl d (js_and (js_ushr 16 (i mod 3)) 24))) str.
Proof. reflexivity. Qed.

Lemma encode_phase i :
  i mod 3 = 0 -> (i + 1) mod 3 = 1 /\ (i + 1 + 1) mod 3 = 2 /\ (i + 1 + 1 + 1) mod 3 = 0.
Proof. intros. euclid. Qed.

Lemma encode_loop3 len a b c rest i m str :
  is_byte a -> is_byte b -> is_byte c -> i mod 3 = 0 -> len - i = 3 + zlen rest ->
  encode_loop len (a :: b :: c :: rest) i m 0 str =
  encode_loop len rest (i + 3) 2 0 (str ++ group3 a b c).
Proof.
  intros Ha Hb Hc Hi Hl. unfold zlen in Hl. destruct (encode_phase i Hi) as (H1 & H2 & _).
  rewrite !encode_loop_step. rewrite Hi, H1, H2.
  rewrite !shift_byte by (lia || done).
  unfold is_byte in *.
  replace (len - i =? 1) with false by (symmetry; apply Z.eqb_neq; lia).
  replace (len - (i + 1) =? 1) with false by (symmetry; apply Z.eqb_neq; lia).
  change ((0 =? 2) || false) with false. change ((1 =? 2) || false) with false.
  change (2 =? 2) with true. rewrite orb_true_l. cbv iota.
  rewrite js_or_0 by lia.
  change (2 ^ (16 - 8 * 0)) with 65536. change (2 ^ (16 - 8 * 1)) with 256.
  change (2 ^ (16 - 8 * 2)) with 1. rewrite Z.mul_1_r.
  rewrite pack2, pack3, quad_word3 by done.
  f_equal. lia.
Qed.

Lemma encode_loop_one len a i m str :
  is_byte a -> i mod 3 = 0 -> len - i = 1 ->
  encode_loop len [a] i m 0 str = (str ++ group3 a 0 0, 0).
Proof.
  intros Ha Hi Hl. rewrite encode_loop_step. rewrite Hi, Hl.
  rewrite shift_byte by (lia || done). rewrite orb_true_r.
  unfold is_byte in *. rewrite js_or_0 by lia.
  replace (a * 2 ^ (16 - 8 * 0)) with (word3 a 0 0) by (unfold word3; lia).
  rewrite quad_word3 by (unfold is_byte; lia). reflexivity.
Qed.

Lemma encode_loop_two len a b i m str :
  is_byte a -> is_byte b -> i mod 3 = 0 -> len - i = 2 ->
  encode_loop len [a; b] i m 0 str = (str ++ group3 a b 0, 1).
Proof.
  intros Ha Hb Hi Hl. destruct (encode_phase i Hi) as (H1 & _ & _).
  rewrite !encode_loop_step. rewrite Hi, H1, Hl.
  replace (len - (i + 1)) with 1 by lia.
  rewrite !shift_byte by (lia || done).
  change ((0 =? 2) || (2 =? 1)) with false. change ((1 =? 2) || (1 =? 1)) with true.
  cbv iota. unfold is_byte in *. rewrite js_or_0 by lia.
  change (2 ^ (16 - 8 * 0)) with 65536. change (2 ^ (16 - 8 * 1)) with 256.
  rewrite pack2, quad_word3 by (unfold is_byte; lia). reflexivity.
Qed.

(** What [base64_encode] does with the result of the loop. *)
Definition encode_finish (r : list Z * Z) : list Z :=
  take (Z.to_nat (zlen (fst r) - 2 + snd r)) (fst r) ++
  (if snd r =? 2 then [] else if snd r =? 1 then [61] else [61; 61]).

Lemma encode_finish_drop str k m :
  length k = 4%nat -> 0 <= m <= 2 ->
  encode_finish (str ++ k, m) =
  str ++ take (Z.to_nat (2 + m)) k ++
  (if m =? 2 then [] else if m =? 1 then [61] else [61; 61]).
Proof.
  intros Hk Hm. unfold encode_finish, zlen. cbn [fst snd].
  rewrite length_app, Hk, take_app_ge by lia. rewrite <- app_assoc.
  do 3 f_equal. lia.
Qed.

Lemma encode_loop_rfc len l :
  Forall is_byte l -> forall i str, i mod 3 = 0 -> len - i = zlen l ->
  encode_finish (encode_loop len l i 2 0 str) = str ++ rfc_encode l.
Proof.
  induction l as [|a|a b|a b c l IH] using list3_ind; intros Hl i str Hi Hn;
    unfold zlen in Hn; cbn [length] in Hn; split_Forall.
  - cbn [encode_loop]. unfold encode_finish, zlen. cbn [fst snd rfc_encode].
    rewrite take_ge by lia. reflexivity.
  - rewrite encode_loop_one by (done || lia). rewrite encode_finish_drop by (done || lia).
    cbn [rfc_encode]. unfold group3. simpl. by rewrite Z.add_0_r.
  - rewrite encode_loop_two by (done || lia). rewrite encode_finish_drop by (done || lia).
    cbn [rfc_encode]. unfold group3. simpl. by rewrite Z.add_0_r.
  - rewrite encode_loop3 by (unfold zlen; done || lia).
    rewrite IH; [|done| |unfold zlen; lia].
    + cbn [rfc_encode]. by rewrite <- app_assoc.
    + rewrite <- Z.add_mod_idemp_l, Hi by lia. reflexivity.
Qed.

Lemma encode_is_rfc l :
  Forall is_byte l -> base64_encode l = rfc_encode l.
Proof.
  intros Hl. transitivity (encode_finish (encode_loop (zlen l) l 0 2 0 [])).
  - unfold base64_encode, encode_finish. by destruct (encode_loop _ _ _ _ _ _).
  - apply encode_loop_rfc; [done|reflexivity|lia].
Qed.

(** On byte arrays the shift-and-mask encoder computes textbook base64. *)
Theorem base64_encode_rfc l :
  Forall is_byte l -> base64_encode l = rfc_encode l.
Proof. apply encode_is_rfc. Qed.

(** ** The decoder *)

Lemma b64_to_uint6_range c : 0 <= b64_to_uint6 c < 64.
Proof.
  unfold b64_to_uint6.
  repeat match goal with
    | |- context [?a <? ?b] => destruct (Z.ltb_spec a b)
    | |- context [?a =? ?b] => destruct (Z.eqb_spec a b)
    end; simpl; lia.
Qed.

Lemma b64_to_uint6_char s : 0 <= s < 64 -> b64_to_uint6 (b64char s) = s.
Proof.
  intros Hs. unfold b64char, uint6_to_b64, b64_to_uint6.
  repeat (case_match || match goal with
    | H : (_ <? _) = true |- _ => apply Z.ltb_lt in H
    | H : (_ <? _) = false |- _ => apply Z.ltb_ge in H
    | H : (_ =? _) = true |- _ => apply Z.eqb_eq in H
    | H : (_ =? _) = false |- _ => apply Z.eqb_neq in H
    | H : (_ && _) = true |- _ => apply andb_true_iff in H as [??]
    | H : (_ && _) = false |- _ => apply andb_false_iff in H as [?|?]
    end); lia.
Qed.

Lemma b64char_not_pad s : 0 <= s < 64 -> b64char s <> 61.
Proof.
  intros Hs. unfold b64char, uint6_to_b64. repeat case_match; lia.
Qed.

Definition octets (u : Z) : list Z :=
  [js_and (js_ushr u 16) 255; js_and (js_ushr u 8) 255; js_and (js_ushr u 0) 255].

Lemma emit_octets olen u data :
  emit 3 0 olen u data = data ++ take (Z.to_nat (olen - zlen data)) (octets u).
Proof.
  unfold octets. cbn [emit].
  change (js_and (js_ushr 16 0) 24) with 16. change (js_and (js_ushr 16 (0 + 1)) 24) with 8.
  change (js_and (js_ushr 16 (0 + 1 + 1)) 24) with 0.
  change (0 <? 3) with true. change (0 + 1 <? 3) with true. change (0 + 1 + 1 <? 3) with true.
  rewrite !andb_true_l. unfold zlen. rewrite !length_app. cbn [length].
  destruct (Z.ltb_spec (Z.of_nat (length data)) olen).
  2: { replace (Z.to_nat _) with 0%nat by lia. by rewrite app_nil_r. }
  destruct (Z.ltb_spec (Z.of_nat (length data + 1)) olen).
  2: { replace (Z.to_nat _) with 1%nat by lia. done. }
  destruct (Z.ltb_spec (Z.of_nat (length data + 1 + 1)) olen).
  2: { replace (Z.to_nat _) with 2%nat by lia. by rewrite <- app_assoc. }
  replace (Z.to_nat _) with (3 + (Z.to_nat (olen - Z.of_nat (length data)) - 3))%nat by lia.
  rewrite <- !app_assoc. f_equal. cbn [take Nat.add app]. by rewrite take_nil.
Qed.

Lemma emit_length olen u data :
  zlen data <= olen -> zlen (emit 3 0 olen u data) = Z.min olen (zlen data + 3).
Proof.
  intros. rewrite emit_octets. unfold zlen in *. rewrite length_app, length_take.
  cbn [octets length]. lia.
Qed.

Lemma octets_bytes u : Forall is_byte (octets u).
Proof.
  unfold octets, is_byte. change 255 with (Z.ones 8).
  repeat constructor; rewrite js_and_ones by lia;
    apply Z.mod_pos_bound; lia.
Qed.

Lemma emit_bytes olen u data :
  Forall is_byte data -> Forall is_byte (emit 3 0 olen u data).
Proof.
  intros. rewrite emit_octets. apply Forall_app. split; [done|].
  apply Forall_take, octets_bytes.
Qed.

Lemma js_and_3 ii : js_and ii 3 = ii mod 4.
Proof. change 3 with (Z.ones 2). apply js_and_ones. lia. Qed.

(** How many slots the loop fills from any intermediate state. *)
Lemma decode_loop_length ilen olen str : forall ii u data,
  zlen data <= olen -> ilen - ii = zlen str ->
  zlen (decode_loop ilen olen str ii u data) =
  if zlen str =? 0 then zlen data
  else Z.min olen (zlen data + 3 * ((ii mod 4 + zlen str + 3) / 4)).
Proof.
  induction str as [|c str IH]; intros ii u data Hd Hl; [reflexivity|].
  unfold zlen in Hl. cbn [length] in Hl.
  cbn [decode_loop]. cbv zeta. rewrite js_and_3.
  replace (zlen (c :: str) =? 0) with false
    by (symmetry; apply Z.eqb_neq; unfold zlen; cbn [length]; lia).
  assert (zlen (c :: str) = zlen str + 1) as -> by (unfold zlen; cbn [length]; lia).
  destruct (_ || _) eqn:E.
  - apply orb_true_iff in E. rewrite !Z.eqb_eq in E.
    rewrite IH by (rewrite ?emit_length by done; unfold zlen; lia).
    rewrite emit_length by done.
    destruct (Z.eqb_spec (zlen str) 0); unfold zlen in *; euclid.
  - apply orb_false_iff in E as [E1 E2]. rewrite Z.eqb_neq in E1, E2.
    rewrite IH by (unfold zlen in *; lia).
    destruct (Z.eqb_spec (zlen str) 0); unfold zlen in *; euclid.
Qed.

Lemma decode_loop_bytes ilen olen str : forall ii u data,
  Forall is_byte data -> Forall is_byte (decode_loop ilen olen str ii u data).
Proof.
  induction str as [|c str IH]; intros; cbn [decode_loop]; [done|].
  cbv zeta. destruct (_ || _); auto using emit_bytes.
Qed.

Lemma count_eq_range fuel str : forall eq, 0 <= eq <= 3 -> 0 <= count_eq fuel str eq <= 3.
Proof.
  induction fuel as [|fuel IH]; intros eq Heq; cbn [count_eq]; [done|].
  destruct (Z.ltb_spec eq 3); [|lia]. case_bool_decide; [apply IH|]; lia.
Qed.

(** Whatever the input string, a result of [base64_decode] has exactly the
    length the array was allocated with (no slot is left unset) and holds only
    bytes.  The bound keeps [ilen * 3 + 1] inside the signed 32 bit range of
    the [>>] operator. *)
Theorem base64_decode_fills str data :
  zlen str * 3 + 1 < 2 ^ 31 -> base64_decode str = Some data ->
  zlen data = decoded_length str /\ Forall is_byte data.
Proof.
  unfold base64_decode. intros Hb.
  destruct (Z.ltb_spec (decoded_length str) 0); [done|]. intros [= <-].
  split; [|by apply decode_loop_bytes].
  rewrite decode_loop_length; [|done|lia]. change (zlen []) with 0.
  assert (0 <= zlen str) by (unfold zlen; lia).
  unfold decoded_length in *. rewrite js_shr_small in * by lia.
  pose proof (count_eq_range 3 str 0 ltac:(lia)).
  destruct (Z.eqb_spec (zlen str) 0) as [E|E]; [rewrite E in *|]; euclid.
Qed.

Lemma base64_decode_fills_witness :
  exists data, base64_decode [84; 87; 70; 117; 73; 81; 61; 61] = Some data /\
    zlen data = decoded_length [84; 87; 70; 117; 73; 81; 61; 61] /\ Forall is_byte data.
Proof.
  eexists. split; [vm_compute; reflexivity|].
  apply base64_decode_fills; vm_compute; reflexivity.
Defined.

(** ** Round trip *)

Definition word4 (s0 s1 s2 s3 : Z) : Z := s0 * 2 ^ 18 + s1 * 2 ^ 12 + s2 * 2 ^ 6 + s3.

Definition is_sextet (s : Z) : Prop := 0 <= s < 64.

Lemma decode_phase i :
  i mod 4 = 0 ->
  (i + 1) mod 4 = 1 /\ (i + 1 + 1) mod 4 = 2 /\ (i + 1 + 1 + 1) mod 4 = 3.
Proof. intros. euclid. Qed.

Lemma pack4 s0 s1 s2 s3 :
  is_sextet s0 -> is_sextet s1 -> is_sextet s2 -> is_sextet s3 ->
  js_or (js_or (js_or (js_or 0 (js_shl s0 (18 - 6 * 0))) (js_shl s1 (18 - 6 * 1)))
    (js_shl s2 (18 - 6 * 2))) (js_shl s3 (18 - 6 * 3)) = word4 s0 s1 s2 s3.
Proof.
  unfold is_sextet, word4. intros. rewrite !js_shl_small by lia.
  rewrite js_or_0 by lia. change (18 - 6 * 0) with 18. change (18 - 6 * 1) with 12.
  change (18 - 6 * 2) with 6. change (2 ^ (18 - 6 * 3)) with 1.
  rewrite (js_or_add s0 (s1 * 2 ^ 12) 18) by lia.
  replace (s0 * 2 ^ 18 + s1 * 2 ^ 12) with ((s0 * 2 ^ 6 + s1) * 2 ^ 12) by lia.
  rewrite js_or_add by lia.
  replace ((s0 * 2 ^ 6 + s1) * 2 ^ 12 + s2 * 2 ^ 6)
    with (((s0 * 2 ^ 6 + s1) * 2 ^ 6 + s2) * 2 ^ 6) by lia.
  rewrite js_or_add by lia. lia.
Qed.

(** Four characters decode to (at most) three bytes. *)
Lemma decode_loop4 ilen olen c0 c1 c2 c3 rest ii data :
  ii mod 4 = 0 -> ilen - ii = 4 + zlen rest ->
  decode_loop ilen olen (c0 :: c1 :: c2 :: c3 :: rest) ii 0 data =
  decode_loop ilen olen rest (ii + 4) 0
    (data ++ take (Z.to_nat (olen - zlen data))
       (octets (word4 (b64_to_uint6 c0) (b64_to_uint6 c1) (b64_to_uint6 c2) (b64_to_uint6 c3)))).
Proof.
  intros Hi Hl. unfold zlen in Hl. destruct (decode_phase ii Hi) as (H1 & H2 & H3).
  cbn [decode_loop]. cbv zeta. rewrite !js_and_3, Hi, H1, H2, H3.
  change (0 =? 3) with false. change (1 =? 3) with false. change (2 =? 3) with false.
  change (3 =? 3) with true. rewrite !orb_false_l, orb_true_l.
  replace (ilen - ii =? 1) with false by (symmetry; apply Z.eqb_neq; lia).
  replace (ilen - (ii + 1) =? 1) with false by (symmetry; apply Z.eqb_neq; lia).
  replace (ilen - (ii + 1 + 1) =? 1) with false by (symmetry; apply Z.eqb_neq; lia).
  cbv iota. rewrite pack4 by apply b64_to_uint6_range. rewrite emit_octets.
  f_equal. lia.
Qed.

Lemma octets_word4 a b c :
  is_byte a -> is_byte b -> is_byte c ->
  octets (word4 (a / 4) ((a mod 4) * 16 + b / 16) ((b mod 16) * 4 + c / 64) (c mod 64))
  = [a; b; c].
Proof.
  unfold is_byte. intros Ha Hb Hc.
  replace (word4 _ _ _ _) with (word3 a b c) by (unfold word3, word4; euclid).
  pose proof (word3_range a b c Ha Hb Hc). unfold octets. rewrite !octet by lia.
  unfold word3. do 3 (apply (f_equal2 cons); [euclid|]). reflexivity.
Qed.

Lemma group3_sextets a b c :
  is_byte a -> is_byte b -> is_byte c ->
  is_sextet (a / 4) /\ is_sextet ((a mod 4) * 16 + b / 16) /\
  is_sextet ((b mod 16) * 4 + c / 64) /\ is_sextet (c mod 64).
Proof. unfold is_byte, is_sextet. intros. repeat split; euclid. Qed.

Lemma rfc_encode_length l : zlen (rfc_encode l) = 4 * ((zlen l + 2) / 3).
Proof.
  induction l as [|a|a b|a b c l IH] using list3_ind; [reflexivity..|].
  cbn [rfc_encode group3 app]. unfold zlen in *. cbn [length].
  rewrite !Nat2Z.inj_succ. euclid.
Qed.

Lemma decode_loop_rfc ilen olen l :
  Forall is_byte l -> forall ii data,
  ii mod 4 = 0 -> ilen - ii = zlen (rfc_encode l) -> olen = zlen data + zlen l ->
  decode_loop ilen olen (rfc_encode l) ii 0 data = data ++ l.
Proof.
  induction l as [|a|a b|a b c l IH] using list3_ind; intros Hl ii data Hi Hn Ho;
    split_Forall; unfold zlen in Ho; cbn [length] in Ho; cbn [rfc_encode].
  - cbn [decode_loop]. by rewrite app_nil_r.
  - destruct (group3_sextets a 0 0) as (S0 & S1 & S2 & S3); try (unfold is_byte; lia); [done|].
    rewrite decode_loop4 by (done || rewrite Hn; reflexivity).
    cbn [decode_loop]. f_equal.
    rewrite (b64_to_uint6_char (a / 4)) by apply S0.
    rewrite (b64_to_uint6_char (a mod 4 * 16)) by (unfold is_byte in *; euclid).
    change (b64_to_uint6 61) with 0.
    pose proof (octets_word4 a 0 0 ltac:(done) ltac:(unfold is_byte; lia)
      ltac:(unfold is_byte; lia)) as E.
    replace (Z.to_nat _) with 1%nat by (unfold zlen; lia).
    change (0 / 16) with 0 in E. rewrite Z.add_0_r in E.
    change (0 mod 16 * 4 + 0 / 64) with 0 in E. change (0 mod 64) with 0 in E.
    rewrite E. reflexivity.
  - destruct (group3_sextets a b 0) as (S0 & S1 & S2 & S3); try (unfold is_byte; lia); [done..|].
    rewrite decode_loop4 by (done || rewrite Hn; reflexivity).
    cbn [decode_loop]. f_equal.
    rewrite (b64_to_uint6_char (a / 4)) by apply S0.
    rewrite (b64_to_uint6_char (a mod 4 * 16 + b / 16)) by apply S1.
    rewrite (b64_to_uint6_char (b mod 16 * 4)) by (unfold is_byte in *; euclid).
    change (b64_to_uint6 61) with 0.
    pose proof (octets_word4 a b 0 ltac:(done) ltac:(done) ltac:(unfold is_byte; lia)) as E.
    replace (Z.to_nat _) with 2%nat by (unfold zlen; lia).
    change (0 / 64) with 0 in E. change (0 mod 64) with 0 in E.
    rewrite Z.add_0_r in E. rewrite E. reflexivity.
  - destruct (group3_sextets a b c) as (S0 & S1 & S2 & S3); [done..|].
    cbn [group3 app]. rewrite decode_loop4.
    2: done.
    2: { rewrite Hn. cbn [rfc_encode group3 app]. unfold zlen. cbn [length]. lia. }
    rewrite !b64_to_uint6_char by assumption.
    rewrite octets_word4 by done. rewrite take_ge by (cbn [length]; unfold zlen; lia).
    rewrite IH; [by rewrite <- app_assoc| done | | |].
    + rewrite <- Z.add_mod_idemp_l, Hi by lia. reflexivity.
    + revert Hn. cbn [rfc_encode group3 app]. unfold zlen. cbn [length]. lia.
    + unfold zlen. rewrite length_app. cbn [length]. lia.
Qed.

(** The number of padding characters the decoder sees. *)
Lemma count_eq_pad pre x n :
  x <> 61 -> (n <= 2)%nat ->
  count_eq 3 (pre ++ x :: replicate n 61) 0 = Z.of_nat n.
Proof.
  intros Hx Hn.
  assert (forall k, (k <= n)%nat ->
    js_at (pre ++ x :: replicate n 61) (zlen (pre ++ x :: replicate n 61) - (Z.of_nat k + 1))
    = Some (if decide (k = n) then x else 61)) as Hat.
  { intros k Hk. unfold js_at, zlen. rewrite length_app. cbn [length].
    rewrite length_replicate.
    destruct (Z.ltb_spec (Z.of_nat (length pre + S n) - (Z.of_nat k + 1)) 0); [lia|].
    replace (Z.to_nat _) with (length pre + (n - k))%nat by lia.
    rewrite lookup_app_r by lia. replace (_ + _ - _)%nat with (n - k)%nat by lia.
    case_decide; [subst; by rewrite Nat.sub_diag|].
    destruct (n - k)%nat eqn:E; [lia|]. simpl. apply lookup_replicate. lia. }
  set (str := pre ++ x :: replicate n 61) in *.
  assert (forall fuel k, (k <= n)%nat -> (fuel + k = 3)%nat ->
    count_eq fuel str (Z.of_nat k) = Z.of_nat n) as Hgo.
  { induction fuel as [|fuel IH]; intros k Hk Hf; [lia|]. cbn [count_eq].
    destruct (Z.ltb_spec (Z.of_nat k) 3); [|lia]. rewrite Hat by done.
    case_decide.
    - subst k. rewrite bool_decide_eq_false_2 by congruence. done.
    - rewrite bool_decide_eq_true_2 by done.
      rewrite <- (IH (S k)) by lia. f_equal. lia. }
  apply (Hgo 3%nat 0%nat); lia.
Qed.

Lemma rfc_encode_shape l :
  Forall is_byte l -> l <> [] -> exists pre x,
    x <> 61 /\ rfc_encode l = pre ++ x :: replicate (Z.to_nat ((- zlen l) mod 3)) 61.
Proof.
  induction l as [|a|a b|a b c l IH] using list3_ind; intros Hl Hne; split_Forall; [done|..].
  - exists [b64char (a / 4)], (b64char (a mod 4 * 16)). split; [|reflexivity].
    apply b64char_not_pad. unfold is_byte in *. euclid.
  - exists [b64char (a / 4); b64char (a mod 4 * 16 + b / 16)], (b64char (b mod 16 * 4)).
    split; [|reflexivity]. apply b64char_not_pad. unfold is_byte in *. euclid.
  - destruct (group3_sextets a b c) as (S0 & S1 & S2 & S3); [done..|].
    destruct (decide (l = [])) as [-> | Hl'].
    + exists [b64char (a / 4); b64char (a mod 4 * 16 + b / 16); b64char (b mod 16 * 4 + c / 64)],
        (b64char (c mod 64)). split; [by apply b64char_not_pad | reflexivity].
    + destruct IH as (pre & x & Hx & E); [done..|].
      exists (group3 a b c ++ pre), x. split; [done|].
      cbn [rfc_encode]. rewrite E, <- app_assoc. do 4 f_equal.
      unfold zlen. cbn [length]. rewrite !Nat2Z.inj_succ. f_equal. euclid.
Qed.

Lemma decode_encode l :
  Forall is_byte l -> zlen (base64_encode l) * 3 + 1 < 2 ^ 31 ->
  base64_decode (base64_encode l) = Some l.
Proof.
  intros Hl Hb. rewrite encode_is_rfc in * by done.
  destruct (decide (l = [])) as [-> | Hne]; [reflexivity|].
  destruct (rfc_encode_shape l Hl Hne) as (pre & x & Hx & E).
  pose proof (rfc_encode_length l) as Hlen.
  assert (0 <= (- zlen l) mod 3 < 3) as Hm by (apply Z.mod_pos_bound; lia).
  assert (decoded_length (rfc_encode l) = zlen l) as Ho.
  { unfold decoded_length. rewrite js_shr_small by (unfold zlen in *; lia).
    rewrite E at 2. rewrite count_eq_pad by (done || lia). rewrite Z2Nat.id, Hlen by lia.
    euclid. }
  unfold base64_decode. rewrite Ho.
  destruct (Z.ltb_spec (zlen l) 0); [unfold zlen in *; lia|].
  rewrite decode_loop_rfc; [done|done|reflexivity|lia|reflexivity].
Qed.

(** C1. Decoding an encoded byte array gives the array back, as long as the
    encoded string is short enough for the 32 bit length computation of the
    decoder. *)
Theorem base64_roundtrip l :
  Forall is_byte l -> zlen (base64_encode l) * 3 + 1 < 2 ^ 31 ->
  base64_decode (base64_encode l) = Some l.
Proof. apply decode_encode. Qed.

Lemma base64_roundtrip_witness :
  Forall is_byte [0; 255; 16; 7] /\ base64_decode (base64_encode [0; 255; 16; 7]) = Some [0; 255; 16; 7].
Proof.
  assert (Forall is_byte [0; 255; 16; 7]) as H by (unfold is_byte; repeat constructor; lia).
  split; [exact H|]. apply base64_roundtrip; [exact H|vm_compute; reflexivity].
Defined.
Lemma base64_encode_rfc_witness :
  base64_encode [72; 105] = rfc_encode [72; 105].
Proof. apply base64_encode_rfc. unfold is_byte. repeat constructor; lia. Defined.
