(* ===== verification/Transport.v ===== *)
(** * Transport and channels (src/src/base1/cockpit.js)

    The client side of the cockpit wire protocol: the [Transport] object that
    owns the WebSocket, the [Channel] objects multiplexed over it, and the
    public [cockpit.transport] entry points.  The state of the page is one
    record; every callback of the source is one function on it, and the
    observable effects (frames sent, events dispatched on channels, hints,
    page reloads) are appended to a trace.

    The listeners of a channel run inside [dispatchEvent] and may call back into
    the page: they may close the channel that is being dispatched on, open
    others or inject messages, and the callback that dispatched goes on
    afterwards with whatever they left.  They are the parameter [react], a state
    transformer that every dispatch applies; TransportInv builds it from the
    listeners' programs.  Filters are the parameters [in_filter] and
    [out_filter], which only answer.  Listeners and filters do not throw. *)

From S2P Require Import Prelude.

(** ** Data *)

(** A WebSocket frame. *)
Inductive wire := WText (s : string) | WBinary (b : list Z).

(** What callers pass to [channel.send]: a string, a plain array or a
    [Uint8Array]. *)
Inductive payload := PStr (s : string) | PArray (l : list Z) | PTyped (l : list Z).

Inductive chan_event :=
  | CMessage (p : payload) | CReady (data : jobj)
  | CControl (data : jobj) | CClose (data : jobj).

Inductive effect :=
  | EWsSend (m : wire)                  (* ws.send *)
  | EWsClose                            (* ws.close *)
  | EReload                             (* window.location.reload *)
  | EChannel (h : nat) (e : chan_event) (* channel.dispatchEvent *)
  | EHint (data : jobj)                 (* process_hints *)
  | EInit (options : jobj).             (* init_callback *)

(** The socket object: a browser WebSocket, whose close event arrives later,
    or the [ParentWebSocket], which calls [onclose] from [close]. *)
Inductive socket := BrowserSocket | ParentSocket.

(** State of the Deferred behind [channel.wait]. *)
Inductive wait_state := WaitPending | WaitResolved (data : jobj) | WaitRejected (data : jobj).

Inductive queue_item := QControl (options : jobj) | QPayload (p : payload).

(** Closure variables of [Channel]. *)
Record channel := mk_channel {
  c_options : jobj;
  c_binary : bool;
  c_ready : option jobj;
  c_closed : option jobj;
  c_waiting : option wait_state;
  c_received_done : bool;
  c_sent_done : bool;
  c_id : option string;
  c_transport : bool;
  c_valid : bool;
  c_queue : list queue_item }.

#[export] Instance channel_settable : Settable channel := fun c =>
  mk_channel (c_options c) (c_binary c) (c_ready c) (c_closed c) (c_waiting c)
    (c_received_done c) (c_sent_done c) (c_id c) (c_transport c) (c_valid c) (c_queue c).

(** Closure variables of [Transport].  [t_cbs] is [control_cbs] and
    [message_cbs], which are always filled and emptied together; a callback
    pair is the channel it belongs to.  [t_timer] is [check_health_timer],
    which stays set after [clearInterval]; [t_ticking] says whether the
    interval still runs. *)
Record transport := mk_transport {
  t_ws : option socket;
  t_ready : bool;
  t_waiting_for_init : bool;
  t_got_message : bool;
  t_ignore_health : bool;
  t_timer : bool;
  t_ticking : bool;
  t_last_channel : Z;
  t_seed : string;
  t_cbs : list (string * nat) }.

#[export] Instance transport_settable : Settable transport := fun t =>
  mk_transport (t_ws t) (t_ready t) (t_waiting_for_init t) (t_got_message t)
    (t_ignore_health t) (t_timer t) (t_ticking t) (t_last_channel t) (t_seed t) (t_cbs t).

(** Callbacks given to [ensure_transport]. *)
Inductive ready_cb := OpenChannel (h : nat) | SendControl (data : jobj) | Logout.

Record world := mk_world {
  w_tr : option transport;            (* default_transport *)
  w_chans : gmap nat channel;
  w_next : nat;
  w_ready_cbs : list ready_cb;        (* listeners of the "ready" event *)
  w_default_host : jval;
  w_expect_disconnect : bool;
  w_reload_after_disconnect : bool;
  w_in_filters : list nat;
  w_out_filters : list nat;
  w_public_options : jobj;            (* cockpit.transport.options *)
  w_public_csrf : jval;
  w_public_host : jval;
  w_trace : list effect }.

#[export] Instance world_settable : Settable world := fun w =>
  mk_world (w_tr w) (w_chans w) (w_next w) (w_ready_cbs w) (w_default_host w)
    (w_expect_disconnect w) (w_reload_after_disconnect w) (w_in_filters w) (w_out_filters w)
    (w_public_options w) (w_public_csrf w) (w_public_host w) (w_trace w).

Definition initial_world : world :=
  mk_world None ∅ 0 [] JNull false false [] [] ∅ JUndef JUndef [].

Definition emit (e : effect) (w : world) : world := w <| w_trace ::= (fun t => t ++ [e]) |>.

Definition upd_tr (f : transport -> transport) (w : world) : world :=
  w <| w_tr ::= fmap f |>.

Definition upd_chan (h : nat) (f : channel -> channel) (w : world) : world :=
  w <| w_chans ::= alter f h |>.

Definition ws_of (w : world) : option socket := t ← w_tr w; t_ws t.

(** ** Frames *)

Definition string_bytes (s : string) : list Z :=
  map (fun a => Z.of_N (Ascii.N_of_ascii a)) (String.list_ascii_of_string s).

Definition string_of_bytes (l : list Z) : string :=
  String.string_of_list_ascii (map (fun b => Ascii.ascii_of_N (Z.to_N b)) l).

Definition array_from_raw_string (str : string) : list Z :=
  map (fun c => js_and c 255) (string_bytes str).

(** Split a byte list at the first newline. *)
Fixpoint bytes_cut (b : list Z) : option (list Z * list Z) :=
  match b with
  | [] => None
  | x :: b' =>
      if x =? 10 then Some ([], b')
      else match bytes_cut b' with
           | Some (p, q) => Some (x :: p, q)
           | None => None
           end
  end.

(** [parse_channel]: [None] is [null]. *)
Definition parse_channel (data : wire) : option string :=
  match data with
  | WBinary b =>
      match bytes_cut b with
      | None => None                      (* binary message without channel *)
      | Some ([], _) => None              (* binary control message *)
      | Some (p, _) => Some (string_of_bytes p)
      end
  | WText s => fst <$> str_cut nl_char s  (* None: text message without channel *)
  end.

(** [String(payload)]. *)
Definition payload_String (p : payload) : string :=
  match p with
  | PStr s => s
  | PArray l | PTyped l => str_join "," (map pretty l)
  end.

(** The frame [send_message] builds for a channel. *)
Definition frame_of (p : payload) (chan : string) : wire :=
  match p with
  | PArray l | PTyped ((_ :: _) as l) =>
      WBinary (array_from_raw_string chan ++ [10] ++ map (fun b => b mod 256) l)
  | PStr _ | PTyped [] => WText (chan +:+ nl +:+ payload_String p)
  end.

Section Transport.

(** JSON of the language's standard library on objects ([None] is the
    SyntaxError), and the page's filters: [true] when the filter callback
    returned [false]. *)
Context (JSON_stringify : jobj -> string) (JSON_parse : string -> option jobj).
Context (in_filter : nat -> wire -> string -> option jobj -> bool).
Context (out_filter : nat -> wire -> option string -> option jobj -> bool).

(** What the listeners of a channel do when an event is dispatched on it.  The
    pending Deferred of [wait] has listeners of its own for "ready" and
    "close"; the flag tells the page's listeners that were added before those
    ([false], and all listeners of the other events) from the ones added
    later. *)
Context (react : bool -> nat -> chan_event -> world -> world).

(** ** Sending *)

(** The filter loop of [send_data].  [channel] is [None] when undefined and
    [Some None] when null; the result is [None] when [JSON.parse] throws and
    [Some false] when a filter stops the message. *)
Fixpoint run_out_filters (fs : list nat) (data : wire)
    (channel : option (option string)) (control : option jobj) : option bool :=
  match fs with
  | [] => Some true
  | f :: fs =>
      let ch := match channel with None => parse_channel data | Some c => c end in
      let falsy := match ch with None | Some EmptyString => true | _ => false end in
      let control' :=
        if falsy && bool_decide (control = None) then
          match data with WText s => Some <$> JSON_parse s | WBinary _ => None end
        else Some control in
      match control' with
      | None => None
      | Some control =>
          if out_filter f data ch control then Some false
          else run_out_filters fs data (Some ch) control
      end
  end.

(** The value a sending function returns. *)
Inductive ret := RUndefined | RBool (b : bool) | RThrow.

Definition send_data (data : wire) (channel : option (option string))
    (control : option jobj) (w : world) : world * ret :=
  match ws_of w with
  | None => (w, RBool false)              (* transport closed, dropped message *)
  | Some _ =>
      match run_out_filters (w_out_filters w) data channel control with
      | None => (w, RThrow)
      | Some false => (w, RBool false)
      | Some true => (emit (EWsSend data) w, RBool true)
      end
  end.

Definition send_message (p : payload) (chan : string) (control : option jobj)
    (w : world) : world * ret :=
  send_data (frame_of p chan) (Some (Some chan)) control w.

Definition send_control (data : jobj) (w : world) : world * ret :=
  match w_tr w with
  | None => (w, RUndefined)
  | Some t =>
      if bool_decide (t_ws t = None) &&
         (is_str (prop data "command") "close" || is_str (prop data "command") "kill")
      then (w, RUndefined)
      else if t_timer t && is_str (prop data "command") "hint" &&
              is_str (prop data "hint") "ignore_transport_health_check"
      then (upd_tr (fun t => t <| t_ignore_health := truthy (prop data "data") |>) w, RUndefined)
      else send_message (PStr (JSON_stringify data)) "" (Some data) w
  end.

Definition register (id : string) (h : nat) (w : world) : world :=
  upd_tr (fun t => t <| t_cbs ::= assoc_set id h |>) w.

Definition unregister (id : string) (w : world) : world :=
  upd_tr (fun t => t <| t_cbs ::= assoc_del id |>) w.

Definition lookup_cb (id : string) (w : world) : option nat :=
  match w_tr w with Some t => assoc_get id (t_cbs t) | None => None end.

(** [next_channel]. *)
Definition next_channel (t : transport) : transport * string :=
  let n := t_last_channel t + 1 in
  (t <| t_last_channel := n |>, t_seed t +:+ pretty n).

(** ** Channels *)

Definition settle (r : wait_state) (s : option wait_state) : option wait_state :=
  match s with Some WaitPending => Some r | s => s end.

(** [self.dispatchEvent] for an event [wait] does not listen to. *)
Definition dispatch (h : nat) (e : chan_event) (w : world) : world :=
  react false h e (emit (EChannel h e) w).

(** [self.dispatchEvent] for "ready" and "close": the listener [wait] has
    installed settles the pending Deferred in its turn. *)
Definition dispatch_settling (h : nat) (e : chan_event) (r : wait_state) (w : world) : world :=
  react true h e (upd_chan h (fun c => c <| c_waiting ::= settle r |>) (dispatch h e w)).

(** [on_close]: the "close" listener installed by [wait] rejects the pending
    Deferred, after which the final [waiting.resolve] has no effect. *)
Definition on_close (h : nat) (data : jobj) (w : world) : world :=
  match w_chans w !! h with
  | None => w
  | Some c =>
      let w := upd_chan h (fun c => c <| c_closed := Some data |> <| c_valid := false |>) w in
      let w := match c_transport c, c_id c with
               | true, Some id => unregister id w
               | _, _ => w
               end in
      dispatch_settling h (CClose data) (WaitRejected data) w
  end.

Definition on_ready (h : nat) (data : jobj) (w : world) : world :=
  dispatch_settling h (CReady data) (WaitResolved data)
    (upd_chan h (fun c => c <| c_ready := Some data |>) w).

Definition send_payload (h : nat) (p : payload) (w : world) : world :=
  match w_chans w !! h with
  | None => w
  | Some c =>
      let p := if c_binary c then p else PStr (payload_String p) in
      fst (send_message p (default "null" (c_id c)) None w)
  end.

Definition with_channel (c : channel) (o : jobj) : jobj :=
  <["channel" := match c_id c with Some id => JStr id | None => JNull end]> o.

(** The argument of [channel.close]: nothing, a problem string or an object. *)
Inductive close_arg := CloseNone | CloseProblem (problem : string) | CloseOptions (o : jobj).

Definition chan_close (h : nat) (arg : close_arg) (w : world) : world :=
  match w_chans w !! h with
  | None => w
  | Some c =>
      match c_closed c with
      | Some _ => w
      | None =>
          let options : jobj := match arg with
            | CloseNone => ∅
            | CloseProblem p => if String.eqb p "" then ∅ else {["problem" := JStr p]}
            | CloseOptions o => o
            end in
          let options := with_channel c (<["command" := JStr "close"]> options) in
          let w := if c_transport c then fst (send_control options w)
                   else upd_chan h (fun c => c <| c_queue ::= (fun q => q ++ [QControl options]) |>) w in
          on_close h options w
      end
  end.

Definition on_message (h : nat) (p : payload) (w : world) : world :=
  match w_chans w !! h with
  | None => w
  | Some c =>
      if c_received_done c then chan_close h (CloseProblem "protocol-error") w
      else dispatch h (CMessage p) w
  end.

(** [on_control]: the control event follows a "ready" whatever its listeners
    did, [closed] is not looked at again. *)
Definition on_control (h : nat) (data : jobj) (w : world) : world :=
  let command := prop data "command" in
  if is_str command "close" then on_close h data w
  else
    let w := if is_str command "ready" then on_ready h data w else w in
    let done := is_str command "done" in
    match w_chans w !! h with
    | None => w
    | Some c =>
        if done && c_received_done c then chan_close h (CloseProblem "protocol-error") w
        else
          let w := if done then upd_chan h (fun c => c <| c_received_done := true |>) w else w in
          dispatch h (CControl data) w
    end.

(** The [while] loop that drains the queue once the channel is open. *)
Fixpoint drain (h : nat) (id : string) (q : list queue_item) (w : world) : world :=
  match q with
  | [] => w
  | QControl o :: q => drain h id q (fst (send_control (<["channel" := JStr id]> o) w))
  | QPayload p :: q => drain h id q (send_payload h p w)
  end.

(** The "open" command of a channel. *)
Definition open_command (c : channel) (id : string) (default_host : jval) : jobj :=
  let command := <["channel" := JStr id]> (<["command" := JStr "open"]> (c_options c)) in
  let command :=
    if negb (truthy (prop command "host")) && truthy default_host
    then <["host" := default_host]> command else command in
  if c_binary c then <["binary" := JStr "raw"]> command else delete "binary" command.

(** The callback [Channel] gives to [ensure_transport]. *)
Definition open_channel (h : nat) (w : world) : world :=
  match w_chans w !! h, w_tr w with
  | Some c, Some t =>
      let w := upd_chan h (fun c => c <| c_transport := true |>) w in
      match c_closed c with
      | Some _ => w
      | None =>
          let '(t', id) := next_channel t in
          let w := w <| w_tr := Some t' |> in
          let w := upd_chan h (fun c => c <| c_id := Some id |>) w in
          let w := register id h w in
          let w := fst (send_control (open_command c id (w_default_host w)) w) in
          let w := upd_chan h (fun c => c <| c_queue := [] |>) w in
          drain h id (c_queue c) w
      end
  | _, _ => w
  end.

(** ** Transport events *)

(** One listener of the transport's "ready" event. *)
Definition run_ready_cb (cb : ready_cb) (w : world) : world :=
  match cb with
  | OpenChannel h => open_channel h w
  | SendControl data => fst (send_control data w)
  | Logout =>
      let '(w, r) := send_control
        {["command" := JStr "logout"; "disconnect" := JBool true]} w in
      match r with RBool true => w | _ => emit EReload w end
  end.

Definition ready_for_channels (w : world) : world :=
  match w_tr w with
  | None => w
  | Some t =>
      if t_ready t then w
      else foldl (fun w cb => run_ready_cb cb w)
             (upd_tr (fun t => t <| t_ready := true |>) w) (w_ready_cbs w)
  end.

(** The broadcast loop of [close]: every channel still registered when its
    turn comes gets the options as a control message. *)
Definition broadcast (options : jobj) (w : world) : world :=
  match w_tr w with
  | None => w
  | Some t =>
      foldl (fun w p => match lookup_cb p w with
                        | Some h => on_control h options w
                        | None => w
                        end) w (map fst (t_cbs t))
  end.

Definition disconnected : jobj := {["problem" := JStr "disconnected"]}.

(** [close] after the socket has been dropped. *)
Definition close_rest (options : jobj) (w : world) : world :=
  if w_expect_disconnect w then w
  else broadcast options (ready_for_channels w).

(** [self.close] when [ws] is already null. *)
Definition close_without_ws (arg : option jobj) (w : world) : world :=
  let options := <["command" := JStr "close"]> (default disconnected arg) in
  close_rest options (upd_tr (fun t => t <| t_ticking := false |>) w).

(** [ws.onclose]. *)
Definition ws_onclose (w : world) : world :=
  let w := upd_tr (fun t => t <| t_ws := None |>) w in
  let w := if w_reload_after_disconnect w
           then emit EReload (w <| w_expect_disconnect := true |>) else w in
  close_without_ws None w.

(** [self.close]: the parent socket runs [onclose] inside [ows.close()], a
    browser socket delivers it later. *)
Definition transport_close (arg : option jobj) (w : world) : world :=
  match ws_of w with
  | None => close_without_ws arg w
  | Some ows =>
      let options := <["command" := JStr "close"]> (default disconnected arg) in
      let w := upd_tr (fun t => t <| t_ticking := false |> <| t_ws := None |>) w in
      let w := emit EWsClose w in
      let w := match ows with ParentSocket => ws_onclose w | BrowserSocket => w end in
      close_rest options w
  end.

Definition process_init (options : jobj) (w : world) : world :=
  if truthy (prop options "problem") then
    transport_close (Some {["problem" := prop options "problem"]}) w
  else if negb (match prop options "version" with JNum 1 => true | _ => false end) then
    transport_close (Some {["problem" := JStr "not-supported"]}) w
  else
    let seed := prop options "channel-seed" in
    let w := if truthy seed then upd_tr (fun t => t <| t_seed := js_String seed |>) w else w in
    let host := prop options "host" in
    let w := if truthy host then w <| w_default_host := host |> else w in
    let w := w <| w_public_options := options |>
               <| w_public_csrf := prop options "csrf-token" |>
               <| w_public_host := w_default_host w |> in
    let w := emit (EInit options) w in
    match w_tr w with
    | Some t =>
        if t_waiting_for_init t then
          ready_for_channels (upd_tr (fun t => t <| t_waiting_for_init := false |>) w)
        else w
    | None => w
    end.

Definition process_control (data : jobj) (w : world) : world :=
  match w_tr w with
  | None => w
  | Some t =>
      let command := prop data "command" in
      let chan := prop data "channel" in
      if is_str command "init" then process_init data w
      else if t_waiting_for_init t then
        let w := upd_tr (fun t => t <| t_waiting_for_init := false |>) w in
        let data := if negb (is_str command "close") || truthy chan
                    then {["problem" := JStr "protocol-error"]} else data in
        transport_close (Some data) w
      else if is_str command "ping" then w
      else if is_str command "hint" then emit (EHint data) w
      else match chan with
           | JUndef => w
           | _ => match lookup_cb (js_String chan) w with
                  | Some h => on_control h data w
                  | None => w
                  end
           end
  end.

Definition process_message (chan : string) (p : payload) (w : world) : world :=
  match lookup_cb chan w with
  | Some h => on_message h p w
  | None => w
  end.

(** The payload part of a frame, after the channel and the newline. *)
Definition frame_payload (m : wire) (chan : string) : payload :=
  match m with
  | WText s => PStr (String.substring (String.length chan + 1)
                      (String.length s - (String.length chan + 1)) s)
  | WBinary b => PTyped (drop (String.length chan + 1) b)
  end.

(** [dispatch_data]. *)
Definition dispatch_data (m : wire) (w : world) : world * ret :=
  let w := upd_tr (fun t => t <| t_got_message := true |>) w in
  match parse_channel m with
  | None => (w, RBool false)
  | Some chan =>
      let p := frame_payload m chan in
      let control := if String.eqb chan "" then JSON_parse (payload_String p) else None in
      if String.eqb chan "" && bool_decide (control = None) then (w, RThrow)
      else if existsb (fun f => in_filter f m chan control) (w_in_filters w)
      then (w, RBool false)
      else match control with
           | Some control => (process_control control w, RBool true)
           | None => (process_message chan p w, RBool true)
           end
  end.

(** The health check interval. *)
Definition health_tick (w : world) : world :=
  match w_tr w with
  | None => w
  | Some t =>
      if t_ticking t then
        let w := if t_got_message t || t_ignore_health t then w
                 else transport_close (Some {["problem" := JStr "timeout"]}) w in
        upd_tr (fun t => t <| t_got_message := false |>) w
      else w
  end.

(** [ws.onopen] sends the client's init message. *)
Definition init_message : string :=
  nl +:+ "{ " +:+ dquote +:+ "command" +:+ dquote +:+ ": " +:+ dquote +:+ "init" +:+
  dquote +:+ ", " +:+ dquote +:+ "version" +:+ dquote +:+ ": 1 }".

Definition ws_onopen (w : world) : world :=
  match ws_of w with
  | Some _ => emit (EWsSend (WText init_message)) w
  | None => w
  end.

(** ** Entry points *)

(** A fresh [Transport]; the health check only runs on a browser socket. *)
Definition new_transport (s : socket) : transport :=
  let timer := match s with BrowserSocket => true | ParentSocket => false end in
  mk_transport (Some s) false true false false timer timer 0 "" [].

Definition ensure_transport (s : socket) (cb : ready_cb) (w : world) : world :=
  let w := match w_tr w with
           | None => w <| w_tr := Some (new_transport s) |>
           | Some _ => w
           end in
  match w_tr w with
  | Some t => if t_ready t then run_ready_cb cb w else w <| w_ready_cbs ::= (fun l => l ++ [cb]) |>
  | None => w
  end.

(** [new Channel(options)]; the channel is the value of [w_next]. *)
Definition new_channel (s : socket) (options : jobj) (w : world) : world :=
  let h := w_next w in
  let binary := match prop options "binary" with JBool true => true | _ => false end in
  let c := mk_channel options binary None None None false false None false true [] in
  ensure_transport s (OpenChannel h)
    (w <| w_chans ::= <[h := c]> |> <| w_next ::= S |>).

Definition chan_send (h : nat) (p : payload) (w : world) : world :=
  match w_chans w !! h with
  | None => w
  | Some c =>
      match c_closed c with
      | Some _ => w                       (* sending message on closed channel *)
      | None =>
          if c_sent_done c then w         (* sending message after done *)
          else if c_transport c then send_payload h p w
          else upd_chan h (fun c => c <| c_queue ::= (fun q => q ++ [QPayload p]) |>) w
      end
  end.

Definition chan_control (h : nat) (arg : option jobj) (w : world) : world :=
  match w_chans w !! h with
  | None => w
  | Some c =>
      let options := default ∅ arg in
      let options := if truthy (prop options "command") then options
                     else <["command" := JStr "options"]> options in
      let w := if is_str (prop options "command") "done"
               then upd_chan h (fun c => c <| c_sent_done := true |>) w else w in
      let options := with_channel c options in
      if c_transport c then fst (send_control options w)
      else upd_chan h (fun c => c <| c_queue ::= (fun q => q ++ [QControl options]) |>) w
  end.

Definition chan_wait (h : nat) (w : world) : world :=
  upd_chan h (fun c =>
    match c_waiting c with
    | Some _ => c
    | None =>
        c <| c_waiting := Some (match c_closed c, c_ready c with
                                | Some d, _ => WaitRejected d
                                | None, Some d => WaitResolved d
                                | None, None => WaitPending
                                end) |>
    end) w.

(** [cockpit.transport.filter]. *)
Definition add_filter (f : nat) (out : bool) (w : world) : world :=
  if out then w <| w_out_filters ::= (fun l => l ++ [f]) |>
  else w <| w_in_filters ::= (fun l => l ++ [f]) |>.

(** [cockpit.transport.inject]. *)
Definition inject (m : wire) (out : bool) (w : world) : world * ret :=
  match w_tr w with
  | None => (w, RBool false)
  | Some _ => if out then send_data m None None w else dispatch_data m w
  end.

(** [cockpit.transport.control]. *)
Definition public_control (s : socket) (command : string) (options : jobj) (w : world) : world :=
  ensure_transport s (SendControl (<["command" := JStr command]> options)) w.

(** [cockpit.logout], after the storage areas have been cleared; [reload] is
    [reload !== false]. *)
Definition logout (s : socket) (reload : bool) (w : world) : world :=
  ensure_transport s Logout (if reload then w <| w_reload_after_disconnect := true |> else w).

(** [cockpit.kill]. *)
Definition kill (s : socket) (host group : jval) (w : world) : world :=
  let o : jobj := ∅ in
  let o := if truthy host then <["host" := host]> o else o in
  let o := if truthy group then <["group" := group]> o else o in
  public_control s "kill" o w.

End Transport.

(** A page whose listeners only look at the events. *)
Definition passive (_ : bool) (_ : nat) (_ : chan_event) (w : world) : world := w.
