(* ===== verification/TransportInv.v ===== *)
(** * Transport invariants

    The page of [Transport.v] as a transition system, with the programs of the
    listeners as functions that say which calls a listener makes and react to
    any depth; the invariant every reachable state satisfies, and what it says
    about channels: the close event is dispatched exactly when a channel is
    closed, once, and all that can follow it on the channel is the control half
    of a ready message whose listeners closed the channel. *)

From S2P Require Import Prelude.
From S2P Require Import Transport.

(** ** The transition system of a page *)

Section System.
Context (JSON_stringify : jobj -> string) (JSON_parse : string -> option jobj).
Context (in_filter : nat -> wire -> string -> option jobj -> bool).
Context (out_filter : nat -> wire -> option string -> option jobj -> bool).
Context (sock : socket).
Context (react : bool -> nat -> chan_event -> world -> world).

Abbreviation send_control := (send_control JSON_stringify JSON_parse out_filter).
Abbreviation send_payload := (send_payload JSON_parse out_filter).
Abbreviation dispatch := (dispatch react).
Abbreviation dispatch_settling := (dispatch_settling react).
Abbreviation on_close := (on_close react).
Abbreviation on_ready := (on_ready react).
Abbreviation chan_close := (chan_close JSON_stringify JSON_parse out_filter react).
Abbreviation on_control := (on_control JSON_stringify JSON_parse out_filter react).
Abbreviation on_message := (on_message JSON_stringify JSON_parse out_filter react).
Abbreviation open_channel := (open_channel JSON_stringify JSON_parse out_filter).
Abbreviation run_ready_cb := (run_ready_cb JSON_stringify JSON_parse out_filter).
Abbreviation ready_for_channels := (ready_for_channels JSON_stringify JSON_parse out_filter).
Abbreviation broadcast := (broadcast JSON_stringify JSON_parse out_filter react).
Abbreviation close_rest := (close_rest JSON_stringify JSON_parse out_filter react).
Abbreviation close_without_ws := (close_without_ws JSON_stringify JSON_parse out_filter react).
Abbreviation transport_close := (transport_close JSON_stringify JSON_parse out_filter react).
Abbreviation ws_onclose := (ws_onclose JSON_stringify JSON_parse out_filter react).
Abbreviation process_init := (process_init JSON_stringify JSON_parse out_filter react).
Abbreviation process_control := (process_control JSON_stringify JSON_parse out_filter react).
Abbreviation process_message := (process_message JSON_stringify JSON_parse out_filter react).
Abbreviation dispatch_data := (dispatch_data JSON_stringify JSON_parse in_filter out_filter react).
Abbreviation health_tick := (health_tick JSON_stringify JSON_parse out_filter react).
Abbreviation ensure_transport := (ensure_transport JSON_stringify JSON_parse out_filter).
Abbreviation new_channel := (new_channel JSON_stringify JSON_parse out_filter).
Abbreviation chan_send := (chan_send JSON_parse out_filter).
Abbreviation chan_control := (chan_control JSON_stringify JSON_parse out_filter).
Abbreviation inject := (inject JSON_stringify JSON_parse in_filter out_filter react).
Abbreviation public_control := (public_control JSON_stringify JSON_parse out_filter).

(** Everything the page's scripts, the user and the socket can do. *)
Inductive action :=
  | ANew (options : jobj) | ASend (h : nat) (p : payload) | AControl (h : nat) (o : option jobj)
  | AClose (h : nat) (a : close_arg) | AWait (h : nat)
  | AFilter (f : nat) (out : bool) | AInject (m : wire) (out : bool)
  | APublicControl (command : string) (o : jobj) | ALogout (reload : bool)
  | AOnOpen | AMessage (m : wire) | AOnClose | ATick
  | ABeforeUnload | AUnload.

Definition act (a : action) (w : world) : world :=
  match a with
  | ANew o => new_channel sock o w
  | ASend h p => chan_send h p w
  | AControl h o => chan_control h o w
  | AClose h a => chan_close h a w
  | AWait h => chan_wait h w
  | AFilter f out => add_filter f out w
  | AInject m out => fst (inject m out w)
  | APublicControl c o => public_control sock c o w
  | ALogout reload => logout JSON_stringify JSON_parse out_filter sock reload w
  | AOnOpen => ws_onopen w
  | AMessage m => fst (dispatch_data m w)
  | AOnClose => ws_onclose w
  | ATick => health_tick w
  | ABeforeUnload => w <| w_expect_disconnect := true |>
  | AUnload => match w_tr w with Some _ => transport_close None w | None => w end
  end.

(** ** The invariant *)

Definition cbs (w : world) : list (string * nat) :=
  match w_tr w with Some t => t_cbs t | None => [] end.

Definition is_ready (w : world) : bool :=
  match w_tr w with Some t => t_ready t | None => false end.

Definition is_close (e : chan_event) : bool := match e with CClose _ => true | _ => false end.

(** The events dispatched on one channel, in order. *)
Definition events (h : nat) (w : world) : list chan_event :=
  omap (fun e => match e with
                 | EChannel h' e => if bool_decide (h' = h) then Some e else None
                 | _ => None
                 end) (w_trace w).

(** The control half of a ready message: [on_control] dispatches it after the
    ready event, whatever the listeners of that did. *)
Definition echoed (before : list chan_event) (e : chan_event) : Prop :=
  exists data, e = CControl data /\ is_str (prop data "command") "ready" = true /\ CReady data ∈ before.

(** The close event is dispatched once, when the channel is closed, and only
    the control halves of ready messages dispatched before it can follow. *)
Definition events_ok (closed : option jobj) (es : list chan_event) : Prop :=
  match closed with
  | None => forallb (fun e => negb (is_close e)) es = true
  | Some d => exists pre post, es = pre ++ CClose d :: post /\
      forallb (fun e => negb (is_close e)) pre = true /\ Forall (echoed pre) post
  end.

Definition opening (cb : ready_cb) : option nat :=
  match cb with OpenChannel h => Some h | _ => None end.

Record inv (w : world) : Prop := {
  inv_cbs : forall id h, (id, h) ∈ cbs w -> exists c,
    w_chans w !! h = Some c /\ c_id c = Some id /\ c_transport c = true /\ c_closed c = None;
  inv_next : forall h c, w_chans w !! h = Some c -> (h < w_next w)%nat;
  inv_events : forall h c, w_chans w !! h = Some c -> events_ok (c_closed c) (events h w);
  inv_fresh : forall h, w_chans w !! h = None -> events h w = [];
  inv_pending : is_ready w = false -> NoDup (omap opening (w_ready_cbs w)) /\
    forall h, h ∈ omap opening (w_ready_cbs w) -> exists c,
      w_chans w !! h = Some c /\ c_transport c = false }.

(** Two states that agree on what the invariant looks at. *)
Definition chan_core (c : channel) : option string * bool * option jobj :=
  (c_id c, c_transport c, c_closed c).

Record same_core (w w' : world) : Prop := {
  sc_cbs : cbs w' = cbs w;
  sc_ready : is_ready w' = is_ready w;
  sc_next : w_next w' = w_next w;
  sc_rcbs : w_ready_cbs w' = w_ready_cbs w;
  sc_chans : forall h, chan_core <$> w_chans w' !! h = chan_core <$> w_chans w !! h;
  sc_events : forall h, events h w' = events h w }.

#[local] Instance same_core_preorder : PreOrder same_core.
Proof.
  split.
  - intros w. by split.
  - intros w1 w2 w3 [a1 a2 a3 a4 a5 a6] [b1 b2 b3 b4 b5 b6]. split; intros;
      rewrite ?b1, ?b2, ?b3, ?b4, ?b5, ?b6; auto.
Qed.

Lemma inv_same_core w w' : same_core w w' -> inv w -> inv w'.
Proof.
  intros [Ec Er En Eb Eh Ee] [I1 I2 I3 I4 I5].
  assert (forall h c, w_chans w' !! h = Some c ->
    exists c0, w_chans w !! h = Some c0 /\ chan_core c0 = chan_core c) as Hc.
  { intros h c Hc. specialize (Eh h). rewrite Hc in Eh. cbn in Eh.
    symmetry in Eh. apply fmap_Some in Eh as (c0 & ? & ?). eauto. }
  assert (forall h c0, w_chans w !! h = Some c0 ->
    exists c, w_chans w' !! h = Some c /\ chan_core c = chan_core c0) as Hc'.
  { intros h c Hc0. specialize (Eh h). rewrite Hc0 in Eh. cbn in Eh.
    apply fmap_Some in Eh as (c0 & ? & ?). eauto. }
  unfold chan_core in *. split.
  - rewrite Ec. intros id h Hin. destruct (I1 id h Hin) as (c0 & Hw & ? & ? & ?).
    destruct (Hc' h c0 Hw) as (c & ? & ?). exists c. split_and!; congruence.
  - rewrite En. intros h c Hw. destruct (Hc h c Hw) as (c0 & ? & ?). eauto.
  - intros h c Hw. rewrite Ee. destruct (Hc h c Hw) as (c0 & Hw0 & E).
    assert (c_closed c = c_closed c0) as -> by congruence. eauto.
  - intros h Hw. rewrite Ee. apply I4. specialize (Eh h). rewrite Hw in Eh. cbn in Eh.
    symmetry in Eh. by apply fmap_None in Eh.
  - rewrite Er, Eb. intros Hr. destruct (I5 Hr) as [? Hp]. split; [done|].
    intros h Hin. destruct (Hp h Hin) as (c0 & Hw & ?).
    destruct (Hc' h c0 Hw) as (c & ? & ?). exists c. split; congruence.
Qed.

(** Events are only added, and a step is good when it keeps the invariant and
    forgets no event. *)
Definition extends (w w' : world) : Prop := forall h, exists es, events h w' = events h w ++ es.

Definition good (w w' : world) : Prop := inv w' /\ extends w w'.

Lemma extends_refl w : extends w w.
Proof. intros h. exists []. by rewrite app_nil_r. Qed.

Lemma extends_trace w w' : w_trace w' = w_trace w -> extends w w'.
Proof. intros E h. exists []. unfold events. by rewrite E, app_nil_r. Qed.

Lemma extends_trans w1 w2 w3 : extends w1 w2 -> extends w2 w3 -> extends w1 w3.
Proof.
  intros H1 H2 h. destruct (H1 h) as [es1 E1], (H2 h) as [es2 E2].
  exists (es1 ++ es2). by rewrite E2, E1, app_assoc.
Qed.

Lemma extends_elem h e w w' : extends w w' -> e ∈ events h w -> e ∈ events h w'.
Proof. intros H Hin. destruct (H h) as [es ->]. apply elem_of_app. by left. Qed.

Lemma good_refl w : inv w -> good w w.
Proof. intros H. split; [done|apply extends_refl]. Qed.

Lemma good_trans w1 w2 w3 : good w1 w2 -> (inv w2 -> good w2 w3) -> good w1 w3.
Proof.
  intros [H1 E1] H. destruct (H H1) as [H2 E2]. split; [done|by eapply extends_trans].
Qed.

Lemma good_core w w' : same_core w w' -> inv w -> good w w'.
Proof.
  intros E H. split; [by eapply inv_same_core|]. intros h. exists [].
  by rewrite (sc_events _ _ E), app_nil_r.
Qed.

Lemma good_foldl {A} (f : world -> A -> world) l :
  (forall a w, inv w -> good w (f w a)) -> forall w, inv w -> good w (foldl f w l).
Proof.
  intros Hf. induction l as [|a l IH]; intros w H; cbn [foldl]; [by apply good_refl|].
  eapply good_trans; [by apply Hf|apply IH].
Qed.

(** What is assumed of the listeners of a page here, and proved below of
    listeners that are programs. *)
Context (react_good : forall b h e w, inv w -> good w (react b h e w)).

(** ** Primitive updates *)

Lemma events_app h w e :
  events h (emit e w) = events h w ++
    match e with
    | EChannel h' e => if bool_decide (h' = h) then [e] else []
    | _ => []
    end.
Proof.
  unfold events, emit. cbn. rewrite omap_app. f_equal. destruct e; cbn; try done.
  by case_bool_decide.
Qed.

Definition off_channel (e : effect) : Prop :=
  match e with EChannel _ _ => False | _ => True end.

Lemma emit_core e w : off_channel e -> same_core w (emit e w).
Proof.
  intros He. split; try reflexivity. intros h. rewrite events_app.
  destruct e; try done; by rewrite app_nil_r.
Qed.

Lemma upd_tr_core f w :
  (forall t, t_cbs (f t) = t_cbs t) -> (forall t, t_ready (f t) = t_ready t) ->
  same_core w (upd_tr f w).
Proof.
  intros Hc Hr. split; try reflexivity; unfold upd_tr, cbs, is_ready; cbn.
  - destruct (w_tr w); cbn; auto.
  - destruct (w_tr w); cbn; auto.
Qed.

Lemma upd_chan_core h f w :
  (forall c, chan_core (f c) = chan_core c) -> same_core w (upd_chan h f w).
Proof.
  intros Hf. split; try reflexivity. intros h'. unfold upd_chan. cbn.
  rewrite lookup_alter. case_decide; subst; [|done].
  destruct (w_chans w !! h') as [c|]; cbn; [by rewrite Hf|done].
Qed.

Lemma send_data_core d ch co w : same_core w (fst (send_data JSON_parse out_filter d ch co w)).
Proof.
  unfold send_data. destruct (ws_of w); [|reflexivity].
  destruct (run_out_filters _ _ _ _ _ _) as [[]|]; cbn; [|reflexivity..].
  by apply emit_core.
Qed.

Lemma send_control_core o w : same_core w (fst (send_control o w)).
Proof.
  unfold Transport.send_control. destruct (w_tr w) as [t|]; [|reflexivity].
  destruct (_ && _); [reflexivity|]. destruct (_ && _); cbn.
  - apply upd_tr_core; reflexivity.
  - apply send_data_core.
Qed.

Lemma send_payload_core h p w : same_core w (send_payload h p w).
Proof.
  unfold Transport.send_payload. destruct (w_chans w !! h); [|reflexivity].
  apply send_data_core.
Qed.

Lemma drain_core h id q : forall w,
  same_core w (drain JSON_stringify JSON_parse out_filter h id q w).
Proof.
  induction q as [|[o|p] q IH]; intros w; cbn [drain]; [reflexivity|..].
  - etransitivity; [apply send_control_core|apply IH].
  - etransitivity; [apply send_payload_core|apply IH].
Qed.

(** A channel that is known and not closed. *)
Definition is_open (h : nat) (w : world) : Prop :=
  exists c, w_chans w !! h = Some c /\ c_closed c = None.

Lemma is_open_core h w w' : same_core w w' -> is_open h w -> is_open h w'.
Proof.
  intros [_ _ _ _ Eh _] (c & Hc & Hn). specialize (Eh h). rewrite Hc in Eh. cbn in Eh.
  apply fmap_Some in Eh as (c' & Hc' & E). exists c'. unfold chan_core in E.
  split; [done|]. congruence.
Qed.

Lemma lookup_cb_open id h w : inv w -> lookup_cb id w = Some h -> is_open h w.
Proof.
  intros Hi Hl. unfold lookup_cb in Hl. destruct (w_tr w) as [t|] eqn:Ht; [|done].
  destruct (inv_cbs w Hi id h) as (c & ? & ? & ? & ?).
  - unfold cbs. rewrite Ht. by apply assoc_get_elem.
  - by exists c.
Qed.

Lemma extends_emit e w : extends w (emit e w).
Proof. intros h. rewrite events_app. by eexists. Qed.

(** Dispatching an event other than close on an open channel, or the control
    half of a ready message on any. *)
Definition may_see (h : nat) (e : chan_event) (w : world) : Prop :=
  is_open h w /\ is_close e = false \/
  is_Some (w_chans w !! h) /\ echoed (events h w) e.

Lemma emit_event_inv h e w : inv w -> may_see h e w -> inv (emit (EChannel h e) w).
Proof.
  intros [I1 I2 I3 I4 I5] He.
  assert (is_Some (w_chans w !! h)) as [c Hc] by (destruct He as [[(c & ? & _) _]|[? _]]; eauto).
  split; try done.
  - intros h' c' Hc'. rewrite events_app. case_bool_decide as Hh; [subst h'|].
    + assert (c' = c) as -> by (cbn in Hc'; congruence).
      specialize (I3 h c Hc). unfold events_ok in *.
      assert (c_closed c = None -> is_close e = false) as He'.
      { destruct He as [[_ ?]|[_ (? & -> & _)]]; done. }
      destruct (c_closed c) as [d|] eqn:Hn.
      * destruct He as [[(c2 & ? & ?) _]|[_ (data & -> & Hr & Hin)]]; [congruence|].
        destruct I3 as (pre & post & E & Hp & Hq). exists pre, (post ++ [CControl data]).
        rewrite E, <- app_assoc. split; [done|split; [done|]].
        apply Forall_app. split; [done|]. apply Forall_singleton. exists data.
        split; [done|split; [done|]]. rewrite E in Hin.
        apply elem_of_app in Hin as [|Hin]; [done|]. apply elem_of_cons in Hin as [|Hin]; [done|].
        rewrite Forall_forall in Hq. destruct (Hq _ Hin) as (? & ? & _). done.
      * rewrite forallb_app, I3. cbn. by rewrite He'.
    + rewrite app_nil_r. by apply I3.
  - intros h' Hc'. rewrite events_app. case_bool_decide; [cbn in Hc'; congruence|].
    rewrite app_nil_r. by apply I4.
Qed.

Lemma dispatch_good h e w : inv (emit (EChannel h e) w) -> good w (dispatch h e w).
Proof.
  intros Hi. eapply good_trans; [split; [exact Hi|apply extends_emit]|]. apply react_good.
Qed.

Lemma dispatch_settling_good h e r w :
  inv (emit (EChannel h e) w) -> good w (dispatch_settling h e r w).
Proof.
  intros Hi. unfold Transport.dispatch_settling.
  eapply good_trans; [by apply dispatch_good|]. intros H1. set (w1 := dispatch h e w) in *.
  set (w2 := upd_chan h _ w1). assert (same_core w1 w2) as E by by apply upd_chan_core.
  apply (good_trans _ w2); [by apply good_core|apply react_good].
Qed.

Lemma dispatch_settling_event h e r w : e ∈ events h (emit (EChannel h e) w) -> inv (emit (EChannel h e) w) ->
  e ∈ events h (dispatch_settling h e r w).
Proof.
  intros He Hi. unfold Transport.dispatch_settling, Transport.dispatch.
  destruct (react_good false h e _ Hi) as [H1 E1]. set (w1 := react false h e _) in *.
  set (w2 := upd_chan h _ w1). assert (same_core w1 w2) as E by by apply upd_chan_core.
  destruct (good_core _ _ E H1) as [H2 E2]. destruct (react_good true h e _ H2) as [_ E3].
  eapply extends_elem; [exact E3|]. eapply extends_elem; [exact E2|]. exact (extends_elem _ _ _ _ E1 He).
Qed.

Lemma emit_is_open h e w : is_open h w -> is_open h (emit e w).
Proof. done. Qed.

(** ** Closing a channel *)

Lemma cbs_unregister id w : cbs (unregister id w) = assoc_del id (cbs w).
Proof. unfold unregister, upd_tr, cbs. cbn. by destruct (w_tr w). Qed.

Lemma is_ready_unregister id w : is_ready (unregister id w) = is_ready w.
Proof. unfold unregister, upd_tr, is_ready. cbn. by destruct (w_tr w). Qed.

(** The state right before the close event is dispatched. *)
Definition closing (h : nat) (data : jobj) (c : channel) (w : world) : world :=
  let w1 := upd_chan h (fun c => c <| c_closed := Some data |> <| c_valid := false |>) w in
  match c_transport c, c_id c with
  | true, Some id => unregister id w1
  | _, _ => w1
  end.

Lemma on_close_closing h data c w :
  w_chans w !! h = Some c ->
  on_close h data w = dispatch_settling h (CClose data) (WaitRejected data) (closing h data c w).
Proof. intros Hc. unfold Transport.on_close. by rewrite Hc. Qed.

Lemma closing_chans h data c w h' :
  w_chans (closing h data c w) !! h' =
  if decide (h' = h)
  then (fun c => c <| c_closed := Some data |> <| c_valid := false |>) <$> w_chans w !! h
  else w_chans w !! h'.
Proof.
  unfold closing.
  assert (forall id w, w_chans (unregister id w) = w_chans w) as Hu by done.
  destruct (c_transport c), (c_id c); rewrite ?Hu; unfold upd_chan; cbn;
    rewrite lookup_alter; repeat case_decide; by subst.
Qed.

Lemma closing_events h data c w h' : events h' (closing h data c w) = events h' w.
Proof. unfold closing. by destruct (c_transport c), (c_id c). Qed.

Lemma closing_cbs h data c w id' h' :
  inv w -> w_chans w !! h = Some c -> (id', h') ∈ cbs (closing h data c w) ->
  h' <> h /\ (id', h') ∈ cbs w.
Proof.
  intros Hi Hc Hin. unfold closing in Hin.
  destruct (c_transport c) eqn:Ht; [destruct (c_id c) as [id|] eqn:Hid|].
  - rewrite cbs_unregister in Hin. apply assoc_del_elem in Hin as [Hne Hin].
    split; [|done]. intros ->. destruct (inv_cbs w Hi _ _ Hin) as (c' & ? & ? & _).
    congruence.
  - split; [|done]. intros ->. destruct (inv_cbs w Hi _ _ Hin) as (c' & ? & ? & _).
    congruence.
  - split; [|done]. intros ->. destruct (inv_cbs w Hi _ _ Hin) as (c' & ? & ? & ? & _).
    congruence.
Qed.

Lemma closing_frame h data c w :
  is_ready (closing h data c w) = is_ready w /\
  w_ready_cbs (closing h data c w) = w_ready_cbs w /\ w_next (closing h data c w) = w_next w.
Proof.
  unfold closing. destruct (c_transport c), (c_id c); rewrite ?is_ready_unregister; done.
Qed.

Lemma closing_inv h data c w :
  inv w -> w_chans w !! h = Some c -> c_closed c = None ->
  inv (emit (EChannel h (CClose data)) (closing h data c w)).
Proof.
  intros Hi Hc Hn.
  destruct (closing_frame h data c w) as (Er & Eb & En).
  pose proof (closing_chans h data c w) as Hch.
  pose proof Hi as [I1 I2 I3 I4 I5].
  split; change (cbs (emit ?e ?w)) with (cbs w); change (w_chans (emit ?e ?w)) with (w_chans w);
    change (is_ready (emit ?e ?w)) with (is_ready w);
    change (w_ready_cbs (emit ?e ?w)) with (w_ready_cbs w);
    change (w_next (emit ?e ?w)) with (w_next w).
  - intros id h' Hin. apply closing_cbs in Hin as [Hne Hin]; [|done..].
    destruct (I1 id h' Hin) as (c' & ? & ?). exists c'. rewrite Hch.
    by rewrite decide_False by done.
  - intros h' c' Hc'. rewrite Hch in Hc'. rewrite En.
    case_decide; [subst; eauto|eauto].
  - intros h' c' Hc'. rewrite Hch in Hc'. rewrite events_app, closing_events.
    case_decide as Hh.
    + subst h'. rewrite Hc in Hc'. cbn in Hc'. simplify_eq. cbn.
      rewrite bool_decide_eq_true_2 by done. exists (events h w), []. split; [done|].
      specialize (I3 h c Hc). rewrite Hn in I3. by split.
    + rewrite bool_decide_eq_false_2, app_nil_r by done. by apply I3.
  - intros h' Hc'. rewrite Hch in Hc'. rewrite events_app, closing_events.
    case_decide as Hh.
    + subst h'. rewrite Hc in Hc'. done.
    + rewrite bool_decide_eq_false_2, app_nil_r by done. by apply I4.
  - rewrite Er, Eb. intros Hr. destruct (I5 Hr) as [? Hp]. split; [done|].
    intros h' Hin. destruct (Hp h' Hin) as (c' & Hc' & ?). rewrite Hch.
    case_decide; [subst h'; rewrite Hc'; cbn; eauto|eauto].
Qed.

Lemma on_close_good h data w : inv w -> is_open h w -> good w (on_close h data w).
Proof.
  intros Hi (c & Hc & Hn). rewrite (on_close_closing _ _ c) by done.
  destruct (dispatch_settling_good h (CClose data) (WaitRejected data) (closing h data c w))
    as [H E]; [by apply closing_inv|]. split; [done|]. intros h'. destruct (E h') as [es ->].
  rewrite closing_events. by eexists.
Qed.

Lemma chan_close_good h a w : inv w -> good w (chan_close h a w).
Proof.
  intros Hi. unfold Transport.chan_close.
  destruct (w_chans w !! h) as [c|] eqn:Hc; [|by apply good_refl].
  destruct (c_closed c) eqn:Hn; [by apply good_refl|]. cbv zeta.
  set (o := with_channel _ _).
  assert (same_core w (if c_transport c then fst (send_control o w)
    else upd_chan h (fun c => c <| c_queue ::= (fun q => q ++ [QControl o]) |>) w)) as E.
  { destruct (c_transport c); [apply send_control_core|by apply upd_chan_core]. }
  eapply good_trans; [by apply good_core|]. intros H. apply on_close_good; [done|].
  eapply is_open_core; [done|]. by exists c.
Qed.

Lemma on_message_good h p w : inv w -> is_open h w -> good w (on_message h p w).
Proof.
  intros Hi Ho. unfold Transport.on_message.
  destruct (w_chans w !! h) as [c|]; [|by apply good_refl].
  destruct (c_received_done c); [by apply chan_close_good|].
  apply dispatch_good, emit_event_inv; [done|by left].
Qed.

Lemma on_ready_good h d w :
  inv w -> is_open h w -> good w (on_ready h d w) /\ CReady d ∈ events h (on_ready h d w).
Proof.
  intros Hi Ho. unfold Transport.on_ready.
  set (w1 := upd_chan h _ w). assert (same_core w w1) as E1 by by apply upd_chan_core.
  assert (inv (emit (EChannel h (CReady d)) w1)) as H1.
  { apply emit_event_inv; [by eapply inv_same_core|]. left. split; [|done]. by eapply is_open_core. }
  split.
  - eapply good_trans; [by apply good_core|]. intros _. by apply dispatch_settling_good.
  - apply dispatch_settling_event; [|done]. rewrite events_app, bool_decide_eq_true_2 by done.
    apply elem_of_app. right. by apply list_elem_of_singleton.
Qed.

Lemma on_control_good h d w : inv w -> is_open h w -> good w (on_control h d w).
Proof.
  intros Hi Ho. unfold Transport.on_control.
  destruct (is_str _ "close"); [by apply on_close_good|]. cbv zeta.
  set (w1 := if is_str _ "ready" then _ else w).
  assert (good w w1 /\ (is_open h w1 \/
    is_str (prop d "command") "ready" = true /\ CReady d ∈ events h w1)) as [G1 Ho1].
  { unfold w1. destruct (is_str _ "ready") eqn:Hr; [|by split; [apply good_refl|left]].
    destruct (on_ready_good h d w) as [??]; [done..|]. split; [done|by right]. }
  eapply good_trans; [exact G1|]. intros Hi1.
  destruct (w_chans w1 !! h) as [c|] eqn:Hc; [|by apply good_refl].
  destruct (_ && _); [by apply chan_close_good|].
  set (w2 := if is_str _ "done" then _ else w1). assert (same_core w1 w2) as E.
  { unfold w2. destruct (is_str _ "done"); [by apply upd_chan_core|reflexivity]. }
  eapply good_trans; [by apply good_core|]. intros Hi2. apply dispatch_good, emit_event_inv; [done|].
  destruct Ho1 as [Ho1|[Hr Hin]]; [left; split; [by eapply is_open_core|done]|right]. split.
  - pose proof (sc_chans _ _ E h) as Eh. rewrite Hc in Eh. cbn in Eh.
    apply fmap_Some in Eh as (? & ? & _). eauto.
  - exists d. by rewrite (sc_events _ _ E).
Qed.

(** ** Opening channels *)

(** Marking a channel as attached and, when it is still open, giving it an id
    and registering it. *)
Definition attached (h : nat) (id : option string) (t' : transport) (w : world) : world :=
  let w := upd_chan h (fun c => c <| c_transport := true |>) w in
  match id with
  | None => w
  | Some id => register id h (upd_chan h (fun c => c <| c_id := Some id |>) (w <| w_tr := Some t' |>))
  end.

Lemma attached_inv h id t t' c w :
  inv w -> is_ready w = true -> w_tr w = Some t -> t_cbs t' = t_cbs t -> t_ready t' = t_ready t ->
  w_chans w !! h = Some c -> c_transport c = false ->
  (is_Some id -> c_closed c = None) -> inv (attached h id t' w).
Proof.
  intros [I1 I2 I3 I4 I5] Hr Ht Hcbs Hrd Hc Htr Hcl.
  assert (forall h', w_chans (attached h id t' w) !! h' =
    if decide (h' = h) then
      Some (match id with Some id => (c <| c_transport := true |>) <| c_id := Some id |>
            | None => c <| c_transport := true |> end)
    else w_chans w !! h') as Hch.
  { intros h'. unfold attached. destruct id; unfold register, upd_tr, upd_chan; cbn;
      rewrite ?lookup_alter; repeat case_decide; subst; rewrite ?lookup_alter, ?Hc;
      repeat case_decide; done. }
  assert (forall h', events h' (attached h id t' w) = events h' w) as Hev by by destruct id.
  assert (w_next (attached h id t' w) = w_next w) as En by by destruct id.
  assert (is_ready (attached h id t' w) = true) as Er.
  { unfold attached, is_ready in *. destruct id; cbn; rewrite Ht in *; cbn; congruence. }
  split.
  - intros id' h' Hin.
    assert ((id = Some id' /\ h' = h) \/ (id', h') ∈ cbs w) as [[-> ->]|Hin'].
    { unfold attached, register, cbs in *. destruct id as [id|]; cbn in Hin; rewrite Ht.
      - rewrite Hcbs in Hin. apply assoc_set_elem in Hin as [[-> ->]|]; auto.
      - rewrite Ht in Hin. by right. }
    + rewrite Hch, decide_True by done. eexists; split; [done|]. cbn. eauto.
    + destruct (I1 id' h' Hin') as (c' & Hc' & ? & ? & ?). rewrite Hch.
      rewrite decide_False; [eauto|]. intros ->. congruence.
  - intros h' c' Hc'. rewrite Hch in Hc'. rewrite En. case_decide; subst; eauto.
  - intros h' c' Hc'. rewrite Hch in Hc'. rewrite Hev. case_decide; subst; [|eauto].
    specialize (I3 h c Hc). destruct id; simplify_eq; exact I3.
  - intros h' Hc'. rewrite Hch in Hc'. rewrite Hev. case_decide; [done|eauto].
  - by rewrite Er.
Qed.

Definition attachable (h : nat) (w : world) : Prop :=
  exists c, w_chans w !! h = Some c /\ c_transport c = false.

Lemma open_channel_attached h c t w :
  w_chans w !! h = Some c -> w_tr w = Some t -> exists id t',
    t_cbs t' = t_cbs t /\ t_ready t' = t_ready t /\ (is_Some id -> c_closed c = None) /\
    same_core (attached h id t' w) (open_channel h w).
Proof.
  intros Hc Ht. unfold Transport.open_channel. rewrite Hc, Ht.
  destruct (c_closed c) eqn:Hcl.
  - exists None, t. by split_and!.
  - exists (Some (snd (next_channel t))), (fst (next_channel t)).
    split; [done|split; [done|split; [done|]]]. unfold next_channel. cbn beta iota zeta.
    { etransitivity; [|apply drain_core].
         etransitivity; [|by apply upd_chan_core].
         etransitivity; [|apply send_control_core]. reflexivity. }
Qed.

Lemma open_channel_inv h w :
  inv w -> is_ready w = true -> attachable h w ->
  inv (open_channel h w) /\ is_ready (open_channel h w) = true /\
  forall h', h' <> h -> attachable h' w -> attachable h' (open_channel h w).
Proof.
  intros Hi Hr (c & Hc & Htr).
  assert (exists t, w_tr w = Some t) as [t Ht].
  { unfold is_ready in Hr. destruct (w_tr w); eauto. done. }
  destruct (open_channel_attached h c t w Hc Ht) as (id & t' & Ecb & Erd & Hid & E).
  assert (inv (attached h id t' w)) as Hi' by by eapply attached_inv.
  split; [by eapply inv_same_core|]. destruct E as [_ Er _ _ Eh _]. split.
  - rewrite Er. unfold attached, is_ready in *. destruct id; cbn; rewrite Ht in *; cbn; congruence.
  - intros h' Hne (c' & Hc' & Ht'). specialize (Eh h').
    assert (w_chans (attached h id t' w) !! h' = Some c') as Ha.
    { rewrite <- Hc'. unfold attached, register, upd_tr, upd_chan.
      destruct id; cbn; by rewrite ?lookup_alter_ne by done. }
    rewrite Ha in Eh. cbn in Eh. apply fmap_Some in Eh as (c2 & ? & E2).
    unfold chan_core in E2. exists c2. split; [done|]. congruence.
Qed.

Lemma is_ready_core w w' : same_core w w' -> is_ready w' = is_ready w.
Proof. by intros []. Qed.

Lemma attachable_core h w w' : same_core w w' -> attachable h w -> attachable h w'.
Proof.
  intros [_ _ _ _ Eh _] (c & Hc & Hn). specialize (Eh h). rewrite Hc in Eh. cbn in Eh.
  apply fmap_Some in Eh as (c' & Hc' & E). exists c'. unfold chan_core in E.
  split; [done|]. congruence.
Qed.

Lemma run_ready_cb_inv cb w :
  inv w -> is_ready w = true -> (forall h, opening cb = Some h -> attachable h w) ->
  inv (run_ready_cb cb w) /\ is_ready (run_ready_cb cb w) = true /\
  forall h', opening cb <> Some h' -> attachable h' w -> attachable h' (run_ready_cb cb w).
Proof.
  intros Hi Hr Ha. destruct cb as [h|data|]; cbn [Transport.run_ready_cb].
  - destruct (open_channel_inv h w) as (? & ? & Hk); [done..|by apply Ha|].
    split_and!; [done..|]. intros h' Hne. apply Hk. cbn in Hne. congruence.
  - pose proof (send_control_core data w) as E. split_and!.
    + by eapply inv_same_core.
    + by rewrite (is_ready_core _ _ E).
    + intros h' _. by apply attachable_core.
  - set (d := {["command" := _; "disconnect" := _]} : jobj).
    assert (same_core w (let '(w, r) := send_control d w in
      match r with RBool true => w | _ => emit EReload w end)) as E.
    { pose proof (send_control_core d w) as E. destruct (send_control d w) as [w1 r].
      cbn in E. destruct r as [|[]|]; try done; (etransitivity; [done|by apply emit_core]). }
    split_and!.
    + by eapply inv_same_core.
    + by rewrite (is_ready_core _ _ E).
    + intros h' _. by apply attachable_core.
Qed.

Lemma run_ready_cbs_inv l : forall w,
  inv w -> is_ready w = true -> NoDup (omap opening l) ->
  (forall h, h ∈ omap opening l -> attachable h w) ->
  inv (foldl (fun w cb => run_ready_cb cb w) w l).
Proof.
  induction l as [|cb l IH]; intros w Hi Hr Hnd Ha; cbn [foldl]; [done|].
  destruct (run_ready_cb_inv cb w) as (Hi' & Hr' & Hk); [done..| |].
  { intros h Hh. apply Ha. cbn. rewrite Hh. apply elem_of_cons. by left. }
  apply IH; [done..| |].
  - cbn in Hnd. destruct (opening cb); [|done]. by apply NoDup_cons in Hnd as [_ ?].
  - intros h Hh. apply Hk.
    + intros Hop. cbn in Hnd. rewrite Hop in Hnd. by apply NoDup_cons in Hnd as [? _].
    + apply Ha. cbn. destruct (opening cb); [apply elem_of_cons; by right|done].
Qed.

Lemma open_channel_events h h' w : events h' (open_channel h w) = events h' w.
Proof.
  destruct (w_chans w !! h) as [c|] eqn:Hc; [|unfold Transport.open_channel; by rewrite Hc].
  destruct (w_tr w) as [t|] eqn:Ht; [|unfold Transport.open_channel; by rewrite Hc, Ht].
  destruct (open_channel_attached h c t w Hc Ht) as (id & t' & _ & _ & _ & E).
  rewrite (sc_events _ _ E). by destruct id.
Qed.

Lemma run_ready_cb_extends cb w : extends w (run_ready_cb cb w).
Proof.
  intros h. exists []. rewrite app_nil_r. destruct cb as [h'|data|]; cbn [Transport.run_ready_cb].
  - apply open_channel_events.
  - apply (sc_events _ _ (send_control_core data w)).
  - set (d := {["command" := _; "disconnect" := _]} : jobj).
    pose proof (send_control_core d w) as E. destruct (send_control d w) as [w1 r].
    rewrite <- (sc_events _ _ E). destruct r as [|[]|]; try done;
      apply (sc_events w1); by apply emit_core.
Qed.

Lemma run_ready_cbs_extends l : forall w, extends w (foldl (fun w cb => run_ready_cb cb w) w l).
Proof.
  induction l as [|cb l IH]; intros w; cbn [foldl]; [apply extends_refl|].
  eapply extends_trans; [apply run_ready_cb_extends|apply IH].
Qed.

Lemma ready_for_channels_inv w : inv w -> inv (ready_for_channels w).
Proof.
  intros Hi. unfold Transport.ready_for_channels. destruct (w_tr w) as [t|] eqn:Ht; [|done].
  destruct (t_ready t) eqn:Hr; [done|].
  pose proof Hi as [I1 I2 I3 I4 I5].
  destruct I5 as [Hnd Hp]; [unfold is_ready; by rewrite Ht|].
  apply run_ready_cbs_inv; [|unfold is_ready, upd_tr; cbn; by rewrite Ht|done|done].
  assert (cbs (upd_tr (fun t => t <| t_ready := true |>) w) = cbs w) as Ec.
  { unfold cbs, upd_tr. cbn. by rewrite Ht. }
  split; rewrite ?Ec; done.
Qed.

Lemma ready_for_channels_good w : inv w -> good w (ready_for_channels w).
Proof.
  intros Hi. split; [by apply ready_for_channels_inv|]. unfold Transport.ready_for_channels.
  destruct (w_tr w) as [t|]; [|apply extends_refl]. destruct (t_ready t); [apply extends_refl|].
  apply (run_ready_cbs_extends (w_ready_cbs w) (upd_tr _ w)).
Qed.

(** ** Closing the transport *)

Lemma broadcast_good o w : inv w -> good w (broadcast o w).
Proof.
  unfold Transport.broadcast. destruct (w_tr w) as [t|]; [|apply good_refl].
  revert w. apply good_foldl. intros id w Hi.
  destruct (lookup_cb id w) as [h|] eqn:Hl; [|by apply good_refl].
  apply on_control_good; [done|]. by eapply lookup_cb_open.
Qed.

Lemma close_rest_good o w : inv w -> good w (close_rest o w).
Proof.
  intros Hi. unfold Transport.close_rest. destruct (w_expect_disconnect w); [by apply good_refl|].
  eapply good_trans; [by apply ready_for_channels_good|apply broadcast_good].
Qed.

Lemma close_without_ws_good a w : inv w -> good w (close_without_ws a w).
Proof.
  intros Hi. eapply good_trans; [|apply close_rest_good]. apply good_core; [|done].
  by apply upd_tr_core.
Qed.

Lemma ws_onclose_good w : inv w -> good w (ws_onclose w).
Proof.
  intros Hi. unfold Transport.ws_onclose. cbv zeta.
  eapply good_trans; [|apply close_without_ws_good]. apply good_core; [|done].
  set (w1 := upd_tr _ w). assert (same_core w w1) as E1 by by apply upd_tr_core.
  destruct (w_reload_after_disconnect w1); [|done].
  etransitivity; [exact E1|]. by etransitivity; [|by apply emit_core].
Qed.

Lemma transport_close_good a w : inv w -> good w (transport_close a w).
Proof.
  intros Hi. unfold Transport.transport_close.
  destruct (ws_of w) as [ows|]; [|by apply close_without_ws_good]. cbv zeta.
  set (w1 := emit EWsClose _). assert (same_core w w1) as E1.
  { etransitivity; [|by apply emit_core]. by apply upd_tr_core. }
  eapply good_trans; [by apply good_core|]. intros Hi1.
  eapply good_trans; [|apply close_rest_good].
  destruct ows; [by apply good_refl|by apply ws_onclose_good].
Qed.

(** ** Incoming messages *)

Lemma process_init_good o w : inv w -> good w (process_init o w).
Proof.
  intros Hi. unfold Transport.process_init.
  destruct (truthy _); [by apply transport_close_good|].
  destruct (negb _); [by apply transport_close_good|]. cbv zeta.
  set (w1 := if truthy (prop o "channel-seed") then _ else w).
  assert (same_core w w1) as E1.
  { unfold w1. destruct (truthy (prop o "channel-seed")); [by apply upd_tr_core|reflexivity]. }
  set (w2 := if truthy (prop o "host") then _ else w1).
  assert (same_core w1 w2) as E2.
  { unfold w2. by destruct (truthy (prop o "host")). }
  set (w3 := emit (EInit o) _).
  assert (same_core w2 w3) as E3.
  { etransitivity; [|by apply emit_core]. by split. }
  assert (same_core w w3) as E by by etransitivity; [|etransitivity].
  destruct (w_tr w3) as [t|]; [|by apply good_core].
  destruct (t_waiting_for_init t); [|by apply good_core].
  eapply good_trans; [|apply ready_for_channels_good]. apply good_core; [|done].
  etransitivity; [exact E|]. by apply upd_tr_core.
Qed.

Lemma process_control_good o w : inv w -> good w (process_control o w).
Proof.
  intros Hi. unfold Transport.process_control. destruct (w_tr w) as [t|]; [|by apply good_refl].
  cbv zeta. destruct (is_str _ "init"); [by apply process_init_good|].
  destruct (t_waiting_for_init t).
  { eapply good_trans; [|apply transport_close_good]. apply good_core; [|done]. by apply upd_tr_core. }
  destruct (is_str _ "ping"); [by apply good_refl|].
  destruct (is_str _ "hint"). { apply good_core; [|done]. by apply emit_core. }
  assert (good w (match lookup_cb (js_String (prop o "channel")) w with
    | Some h => on_control h o w | None => w end)) as H.
  { destruct (lookup_cb _ w) eqn:Hl; [|by apply good_refl]. apply on_control_good; [done|].
    by eapply lookup_cb_open. }
  destruct (prop o "channel"); [by apply good_refl|done..].
Qed.

Lemma process_message_good c p w : inv w -> good w (process_message c p w).
Proof.
  intros Hi. unfold Transport.process_message. destruct (lookup_cb c w) eqn:Hl; [|by apply good_refl].
  apply on_message_good; [done|]. by eapply lookup_cb_open.
Qed.

Lemma dispatch_data_good m w : inv w -> good w (fst (dispatch_data m w)).
Proof.
  intros Hi. unfold Transport.dispatch_data. cbv zeta. set (w1 := upd_tr _ w).
  assert (same_core w w1) as E by by apply upd_tr_core.
  eapply good_trans; [by apply good_core|]. intros Hi1.
  destruct (parse_channel m) as [chan|]; [|by apply good_refl].
  destruct (_ && _); [by apply good_refl|]. destruct (existsb _ _); [by apply good_refl|].
  destruct (if (chan =? "")%string then _ else None); cbn [fst];
    [by apply process_control_good|by apply process_message_good].
Qed.

Lemma health_tick_good w : inv w -> good w (health_tick w).
Proof.
  intros Hi. unfold Transport.health_tick. destruct (w_tr w) as [t|]; [|by apply good_refl].
  destruct (t_ticking t); [|by apply good_refl]. cbv zeta.
  set (w1 := if _ || _ then w else _).
  assert (good w w1) as G.
  { unfold w1; destruct (_ || _); [by apply good_refl|by apply transport_close_good]. }
  eapply good_trans; [exact G|]. apply good_core. by apply upd_tr_core.
Qed.

(** ** Actions *)

Lemma ensure_transport_inv cb w :
  inv w ->
  (is_ready w = true -> forall h, opening cb = Some h -> attachable h w) ->
  (is_ready w = false -> NoDup (omap opening (w_ready_cbs w ++ [cb])) /\
    forall h, opening cb = Some h -> attachable h w) ->
  inv (ensure_transport sock cb w).
Proof.
  intros Hi Hrdy Hpend. unfold Transport.ensure_transport. cbv zeta.
  set (w1 := match w_tr w with Some _ => w | None => _ end).
  assert (same_core w w1) as E.
  { unfold w1. destruct (w_tr w) eqn:Ht; [reflexivity|].
    split; try reflexivity; unfold cbs, is_ready; cbn; by rewrite Ht. }
  assert (inv w1) as Hi1 by by eapply inv_same_core.
  destruct (w_tr w1) as [t|] eqn:Ht; [|done].
  assert (is_ready w1 = t_ready t) as Hr1 by (unfold is_ready; by rewrite Ht).
  rewrite (is_ready_core _ _ E) in Hr1.
  destruct (t_ready t).
  - apply run_ready_cb_inv; [done|by rewrite (is_ready_core _ _ E)|].
    intros h Hh. eapply attachable_core; [done|eauto].
  - destruct (Hpend Hr1) as [Hnd Ha]. destruct Hi1 as [I1 I2 I3 I4 I5]. split; try done.
    intros Hr. destruct (I5 Hr) as [_ Hp]. cbn. destruct E as [_ _ _ Eb Eh _].
    rewrite Eb in *. split; [done|]. intros h. rewrite omap_app. rewrite elem_of_app.
    intros [Hin|Hin]; [by apply Hp|]. cbn in Hin.
    destruct (opening cb) as [h0|] eqn:Ho; [|by apply not_elem_of_nil in Hin].
    apply list_elem_of_singleton in Hin as ->.
    destruct (Ha h0 eq_refl) as (c & Hc & Htr). specialize (Eh h0). rewrite Hc in Eh.
    cbn in Eh. apply fmap_Some in Eh as (c' & ? & E'). exists c'. unfold chan_core in E'.
    split; [done|congruence].
Qed.

Lemma ensure_transport_extends cb w : extends w (ensure_transport sock cb w).
Proof.
  unfold Transport.ensure_transport. cbv zeta.
  set (w1 := match w_tr w with Some _ => w | None => _ end).
  assert (extends w w1) as E by (unfold w1; destruct (w_tr w); by apply extends_trace).
  destruct (w_tr w1) as [t|]; [|done]. destruct (t_ready t).
  - eapply extends_trans; [exact E|apply run_ready_cb_extends].
  - eapply extends_trans; [exact E|by apply extends_trace].
Qed.

Lemma ensure_transport_plain_good cb w :
  inv w -> opening cb = None -> good w (ensure_transport sock cb w).
Proof.
  intros Hi Ho. split; [|apply ensure_transport_extends]. apply ensure_transport_inv; [done|by rewrite Ho|]. intros Hr.
  split; [|by rewrite Ho]. rewrite omap_app. cbn. rewrite Ho, app_nil_r.
  by apply (inv_pending w Hi).
Qed.

Lemma new_channel_extends o w : extends w (new_channel sock o w).
Proof.
  unfold Transport.new_channel. cbv zeta. eapply extends_trans; [|apply ensure_transport_extends].
  by apply extends_trace.
Qed.

Lemma new_channel_inv o w : inv w -> inv (new_channel sock o w).
Proof.
  intros Hi. pose proof Hi as [I1 I2 I3 I4 I5]. unfold Transport.new_channel. cbv zeta.
  set (c := mk_channel _ _ _ _ _ _ _ _ _ _ _).
  set (w1 := w <| w_chans ::= _ |> <| w_next ::= S |>).
  assert (forall h, w_chans w1 !! h = if decide (h = w_next w) then Some c else w_chans w !! h)
    as Hch. { intros h. cbn. rewrite lookup_insert. by repeat case_decide. }
  assert (w_chans w !! w_next w = None) as Hnone.
  { destruct (w_chans w !! w_next w) eqn:E; [|done]. apply I2 in E. lia. }
  assert (forall h c', w_chans w !! h = Some c' -> h <> w_next w) as Hne by congruence.
  assert (attachable (w_next w) w1) as Hatt.
  { exists c. by rewrite Hch, decide_True by done. }
  assert (inv w1) as Hi1.
  { split.
    - intros id h Hin. destruct (I1 id h Hin) as (c' & Hc' & ?). exists c'.
      rewrite Hch, decide_False by eauto. done.
    - intros h c'. rewrite Hch. cbn. case_decide; [lia|]. intros Hc'. apply I2 in Hc'. lia.
    - intros h c'. rewrite Hch. change (events h w1) with (events h w).
      case_decide; [|eauto]. intros [= <-]. subst. by rewrite I4.
    - intros h. rewrite Hch. case_decide; [done|]. apply I4.
    - intros Hr. destruct (I5 Hr) as [Hnd Hp]. split; [done|]. intros h Hin.
      destruct (Hp h Hin) as (c' & Hc' & ?). exists c'.
      rewrite Hch, decide_False by eauto. done. }
  apply ensure_transport_inv; [done|intros _ h [= <-]; done|].
  intros Hr. split; [|intros h [= <-]; done].
  destruct (I5 Hr) as [Hnd Hp]. change (w_ready_cbs w1) with (w_ready_cbs w).
  rewrite omap_app. cbn. apply NoDup_app. split_and!; [done| |apply NoDup_singleton].
  intros h Hin. rewrite list_elem_of_singleton. intros ->.
  destruct (Hp _ Hin) as (c' & ? & _). congruence.
Qed.

Lemma act_good a w : inv w -> good w (act a w).
Proof.
  intros Hi. destruct a as [o|h p|h o|h a|h|f out|m out|c o|reload| |m| | | |]; cbn [act].
  - split; [by apply new_channel_inv|apply new_channel_extends].
  - apply good_core; [|done].
    unfold Transport.chan_send. destruct (w_chans w !! h) as [c|]; [|done].
    destruct (c_closed c); [done|]. destruct (c_sent_done c); [done|].
    destruct (c_transport c); [apply send_payload_core|]. by apply upd_chan_core.
  - apply good_core; [|done].
    unfold Transport.chan_control. destruct (w_chans w !! h) as [c|]; [|done]. cbv zeta.
    set (o' := if truthy _ then _ else _). set (w1 := if is_str _ "done" then _ else w).
    assert (same_core w w1) as E.
    { unfold w1. destruct (is_str _ _); [by apply upd_chan_core|reflexivity]. }
    etransitivity; [done|].
    destruct (c_transport c); [apply send_control_core|by apply upd_chan_core].
  - by apply chan_close_good.
  - apply good_core; [|done]. apply upd_chan_core. intros c. by destruct (c_waiting c).
  - apply good_core; [|done]. unfold add_filter. destruct out; by split.
  - unfold Transport.inject. destruct (w_tr w); [|by apply good_refl].
    destruct out; [|by apply dispatch_data_good].
    apply good_core; [apply send_data_core|done].
  - by apply ensure_transport_plain_good.
  - unfold logout. destruct reload; [|by apply ensure_transport_plain_good].
    eapply good_trans; [|intros H; by apply ensure_transport_plain_good].
    apply good_core; [by split|done].
  - unfold ws_onopen. destruct (ws_of w); [|by apply good_refl].
    apply good_core; [by apply emit_core|done].
  - by apply dispatch_data_good.
  - by apply ws_onclose_good.
  - by apply health_tick_good.
  - apply good_core; [by split|done].
  - destruct (w_tr w); [by apply transport_close_good|by apply good_refl].
Qed.

Lemma initial_inv : inv initial_world.
Proof.
  split; cbn; try done.
  - intros id h. by rewrite elem_of_nil.
  - intros _. split; [constructor|]. intros h. by rewrite elem_of_nil.
Qed.

End System.

#[export] Existing Instance same_core_preorder.

(** ** Pages whose listeners are programs *)

Section Programs.
Context (JSON_stringify : jobj -> string) (JSON_parse : string -> option jobj).
Context (in_filter : nat -> wire -> string -> option jobj -> bool).
Context (out_filter : nat -> wire -> option string -> option jobj -> bool).
Context (sock : socket).

(** The listeners' program: the calls they make, one after the other, when an
    event is dispatched on a channel in a state of the page. *)
Context (script : bool -> nat -> chan_event -> world -> list action).

(** What a script can do inside a listener; the rest is done by the socket, the
    clock and the browser, between two callbacks. *)
Definition is_call (a : action) : bool :=
  match a with
  | ANew _ | ASend _ _ | AControl _ _ | AClose _ _ | AWait _ | AFilter _ _ | AInject _ _
  | APublicControl _ _ | ALogout _ => true
  | AOnOpen | AMessage _ | AOnClose | ATick | ABeforeUnload | AUnload => false
  end.

(** Listeners that dispatch events whose listeners dispatch events, and so on,
    [depth] levels deep; below that nobody listens. *)
Fixpoint listeners (depth : nat) (late : bool) (h : nat) (e : chan_event) (w : world) : world :=
  match depth with
  | O => w
  | S depth =>
      foldl (fun w a =>
          if is_call a then act JSON_stringify JSON_parse in_filter out_filter sock (listeners depth) a w
          else w)
        w (script late h e w)
  end.

Abbreviation act depth :=
  (act JSON_stringify JSON_parse in_filter out_filter sock (listeners depth)).

Lemma listeners_good depth late h e w : inv w -> good w (listeners depth late h e w).
Proof.
  revert late h e w. induction depth as [|depth IH]; intros late h e w Hi; cbn [listeners].
  - by apply good_refl.
  - apply good_foldl; [|done]. intros a w' Hi'. destruct (is_call a); [|by apply good_refl].
    by apply act_good.
Qed.

(** One step of the page: a script, the user or the socket does something, and
    listeners react to the depth the step needs. *)
Inductive step : world -> world -> Prop :=
  | step_act depth a w : step w (act depth a w).

Definition reachable : world -> Prop := rtc step initial_world.

Definition run (depth : nat) (l : list action) : world :=
  foldl (fun w a => act depth a w) initial_world l.

Lemma run_reachable depth l : reachable (run depth l).
Proof.
  unfold run, reachable. generalize initial_world as w.
  induction l as [|a l IH]; intros w; cbn; [constructor|].
  eapply rtc_l; [constructor|apply IH].
Qed.

Lemma reachable_inv w : reachable w -> inv w.
Proof.
  unfold reachable. intros Hr. pose proof initial_inv as Hi.
  induction Hr as [|w1 w2 w3 Hs _ IH]; [done|]. apply IH. destruct Hs as [depth a w].
  apply act_good; [|done]. apply listeners_good.
Qed.

End Programs.
