(* ===== verification/TransportSpec.v ===== *)
(** * What the transport promises

    Theorems on the page of [Transport.v], from the invariant of
    [TransportInv.v]: when channels are closed and what they see, whatever their
    listeners do; and, for listeners that only look ([passive]), what closing a
    transport does, the frames an opening channel sends, and the framing round
    trip between the two sides of the protocol. *)

From S2P Require Import Prelude.
From S2P Require Import Transport.
From S2P Require Import TransportInv.

Section Spec.
Context (JSON_stringify : jobj -> string) (JSON_parse : string -> option jobj).
Context (in_filter : nat -> wire -> string -> option jobj -> bool).
Context (out_filter : nat -> wire -> option string -> option jobj -> bool).
Context (sock : socket).
Context (script : bool -> nat -> chan_event -> world -> list action).

Abbreviation on_close := (on_close passive).
Abbreviation on_control := (on_control JSON_stringify JSON_parse out_filter passive).
Abbreviation broadcast := (broadcast JSON_stringify JSON_parse out_filter passive).
Abbreviation transport_close := (transport_close JSON_stringify JSON_parse out_filter passive).
Abbreviation reachable := (reachable JSON_stringify JSON_parse in_filter out_filter sock script).

(** ** Closing *)

(** C2. In every state the page can reach, for any programs of the channel
    listeners that call back into the page to any depth (and do not throw; the
    filters only answer): the close event of a channel has been dispatched
    exactly when the channel is closed, carries the closing options, and happens
    once.  Nothing follows it on the channel, no message, ready or close event,
    except the control halves of ready messages whose ready event was dispatched
    before the close, which is when a listener closed the channel from inside a
    ready event. *)
Theorem close_event_once w :
  reachable w -> forall h c, w_chans w !! h = Some c ->
  match c_closed c with
  | None => forall d, CClose d ∉ events h w
  | Some d => exists before after, events h w = before ++ CClose d :: after /\
      (forall d', CClose d' ∉ before ++ after) /\
      forall e, e ∈ after -> exists data,
        e = CControl data /\ is_str (prop data "command") "ready" = true /\ CReady data ∈ before
  end.
Proof.
  intros Hr h c Hc. apply reachable_inv in Hr. pose proof (inv_events w Hr h c Hc) as He.
  assert (forall es, forallb (fun e => negb (is_close e)) es = true -> forall d, CClose d ∉ es)
    as Hno.
  { intros es Hes d Hin. rewrite forallb_forall in Hes.
    apply list_elem_of_In in Hin. by apply Hes in Hin. }
  unfold events_ok in He. destruct (c_closed c); [|eauto].
  destruct He as (pre & post & E & Hpre & Hpost). rewrite Forall_forall in Hpost.
  exists pre, post. split; [done|split; [|exact Hpost]].
  intros d' Hin. apply elem_of_app in Hin as [Hin|Hin]; [by eapply Hno|].
  destruct (Hpost _ Hin) as (? & ? & _). done.
Qed.

Lemma passive_good b h e w : inv w -> good w (passive b h e w).
Proof. apply good_refl. Qed.

Definition closed_with (h : nat) (d : jobj) (w : world) : Prop :=
  exists c, w_chans w !! h = Some c /\ c_closed c = Some d /\ c_valid c = false.

Lemma on_close_other h h' d w : h' <> h -> w_chans (on_close h d w) !! h' = w_chans w !! h'.
Proof.
  intros Hne. destruct (w_chans w !! h) as [c|] eqn:Hc; [|unfold on_close; by rewrite Hc].
  unfold on_close. rewrite Hc. unfold upd_chan, unregister, upd_tr.
  destruct (c_transport c), (c_id c); cbn; by rewrite !lookup_alter_ne by done.
Qed.

Lemma on_close_closed h d w c :
  w_chans w !! h = Some c -> closed_with h d (on_close h d w).
Proof.
  intros Hc. unfold on_close. rewrite Hc. unfold upd_chan, unregister, upd_tr, closed_with.
  destruct (c_transport c), (c_id c); cbn; rewrite !lookup_alter, !decide_True, Hc by done;
    cbn; by eexists.
Qed.

(** One round of the broadcast closes the channel registered under [id],
    removes that id and leaves the others alone. *)
Lemma on_close_cbs id h d w c :
  w_chans w !! h = Some c -> c_id c = Some id -> c_transport c = true ->
  cbs (on_close h d w) = assoc_del id (cbs w).
Proof.
  intros Hc Hid Ht. unfold on_close. rewrite Hc, Hid, Ht. unfold cbs, upd_chan, unregister, upd_tr.
  cbn. by destruct (w_tr w).
Qed.

Lemma lookup_cb_cbs id w : lookup_cb id w = assoc_get id (cbs w).
Proof. unfold lookup_cb, cbs. by destruct (w_tr w). Qed.

Definition close_one (o : jobj) (w : world) (id : string) : world :=
  match lookup_cb id w with Some h => on_control h o w | None => w end.

Lemma close_one_spec o w id :
  inv w -> prop o "command" = JStr "close" ->
  inv (close_one o w id) /\
  (forall h, lookup_cb id w = Some h -> closed_with h o (close_one o w id)) /\
  (forall id', lookup_cb id' (close_one o w id) =
    if String.eqb id id' then None else lookup_cb id' w) /\
  (forall h d, closed_with h d w -> closed_with h d (close_one o w id)).
Proof.
  intros Hi Ho. unfold close_one. destruct (lookup_cb id w) as [h|] eqn:Hl.
  - assert (on_control h o w = on_close h o w) as ->.
    { unfold Transport.on_control. by rewrite Ho. }
    pose proof Hl as Hl'. rewrite lookup_cb_cbs in Hl'. apply assoc_get_elem in Hl'.
    destruct (inv_cbs w Hi _ _ Hl') as (c & Hc & Hid & Ht & Hn). split_and!.
    + apply (on_close_good passive passive_good); [done|]. by exists c.
    + intros h' [= <-]. by eapply on_close_closed.
    + intros id'. rewrite !lookup_cb_cbs, (on_close_cbs id _ _ _ c), assoc_get_del by done.
      done.
    + intros h' d (c' & Hc' & ? & ?). exists c'. rewrite on_close_other; [done|]. congruence.
  - split; [done|split; [done|split; [|done]]].
    intros id'. by destruct (String.eqb_spec id id') as [<-|].
Qed.

Lemma close_all_spec o : prop o "command" = JStr "close" -> forall l w, inv w ->
  (forall id h, lookup_cb id w = Some h -> id ∈ l -> closed_with h o (foldl (close_one o) w l)) /\
  (forall id, id ∈ l -> lookup_cb id (foldl (close_one o) w l) = None) /\
  (forall id, lookup_cb id w = None -> lookup_cb id (foldl (close_one o) w l) = None) /\
  (forall h d, closed_with h d w -> closed_with h d (foldl (close_one o) w l)).
Proof.
  intros Ho. induction l as [|id l IH]; intros w Hi; cbn [foldl].
  - split; [|split; [|done]].
    + intros id h _ Hin. by apply not_elem_of_nil in Hin.
    + intros id Hin. by apply not_elem_of_nil in Hin.
  - destruct (close_one_spec o w id) as (Hi1 & Hc1 & Hl1 & Hk1); [done..|].
    destruct (IH _ Hi1) as (Ha & Hb & Hc & Hd). split; [|split; [|split]]; [| | |eauto].
    + intros id' h Hl Hin. destruct (String.eqb_spec id id') as [<-|Hne]; [eauto|].
      apply elem_of_cons in Hin as [->|Hin]; [done|]. apply (Ha id'); [|done].
      rewrite Hl1. by destruct (String.eqb_spec id id').
    + intros id' Hin. destruct (String.eqb_spec id id') as [<-|Hne].
      * apply Hc. rewrite Hl1. by rewrite String.eqb_refl.
      * apply elem_of_cons in Hin as [->|Hin]; [done|auto].
    + intros id' Hl. apply Hc. rewrite Hl1. by destruct (id =? id')%string.
Qed.

Lemma broadcast_closes o w :
  inv w -> prop o "command" = JStr "close" ->
  (forall id h, lookup_cb id w = Some h -> closed_with h o (broadcast o w)) /\
  (forall id, lookup_cb id (broadcast o w) = None) /\
  (forall h d, closed_with h d w -> closed_with h d (broadcast o w)).
Proof.
  intros Hi Ho. unfold Transport.broadcast. destruct (w_tr w) as [t|] eqn:Ht.
  2: { unfold lookup_cb. rewrite Ht. split_and!; done. }
  change (fun w p => match lookup_cb p w with
    | Some h => on_control h o w | None => w end) with (close_one o).
  destruct (close_all_spec o Ho (map fst (t_cbs t)) w Hi) as (Ha & Hb & Hc & Hd).
  assert (forall id h, lookup_cb id w = Some h -> id ∈ map fst (t_cbs t)) as Hin.
  { intros id h Hl. unfold lookup_cb in Hl. rewrite Ht in Hl. apply assoc_get_elem in Hl.
    apply list_elem_of_fmap. by exists (id, h). }
  split_and!; [eauto| |done]. intros id. destruct (lookup_cb id w) eqn:Hl; eauto.
Qed.

(** The parts of the page a broadcast does not touch. *)
Definition page_frame (w : world) : bool * bool * option socket :=
  (is_ready w, w_expect_disconnect w, ws_of w).

Lemma on_close_frame h d w : page_frame (on_close h d w) = page_frame w.
Proof.
  unfold on_close. destruct (w_chans w !! h) as [c|]; [|done].
  unfold page_frame, upd_chan, unregister, upd_tr, is_ready, ws_of.
  destruct (c_transport c), (c_id c); try done. cbn. by destruct (w_tr w).
Qed.

Lemma broadcast_frame o w :
  prop o "command" = JStr "close" -> page_frame (broadcast o w) = page_frame w.
Proof.
  intros Ho. unfold Transport.broadcast. destruct (w_tr w) as [t|]; [|done].
  generalize (map fst (t_cbs t)) as l. intros l. revert w.
  induction l as [|id l IH]; intros w; cbn [foldl]; [done|]. rewrite IH.
  destruct (lookup_cb id w); [|done]. unfold Transport.on_control. rewrite Ho.
  apply on_close_frame.
Qed.

Lemma close_rest_ready o w :
  is_ready w = true -> w_expect_disconnect w = false ->
  close_rest JSON_stringify JSON_parse out_filter passive o w = broadcast o w.
Proof.
  intros Hr He. unfold close_rest. rewrite He. f_equal. unfold ready_for_channels.
  unfold is_ready in Hr. destruct (w_tr w) as [t|]; [|done]. by rewrite Hr.
Qed.

(** What the channels of a transport see when it is closed with [arg]. *)
Definition close_reason (s : socket) (arg : option jobj) : jobj :=
  <["command" := JStr "close"]> match s with
    | BrowserSocket => default disconnected arg
    | ParentSocket => disconnected
    end.

Lemma close_command (o : jobj) : prop (<["command" := JStr "close"]> o) "command" = JStr "close".
Proof. unfold prop. by rewrite lookup_insert_eq. Qed.

(** No callback is left in [w'] and the channels of [w] are closed with [o]. *)
Definition all_closed (w w' : world) (o : jobj) : Prop :=
  ws_of w' = None /\ (forall id, lookup_cb id w' = None) /\
  forall id h, lookup_cb id w = Some h -> closed_with h o w'.

Definition ready_no_ws (w : world) : Prop :=
  inv w /\ page_frame w = (true, false, None).

(** [close_rest] on a ready transport closes what is registered and keeps what
    is closed. *)
Lemma close_rest_closes (o : jobj) w :
  ready_no_ws w -> let w' := close_rest JSON_stringify JSON_parse out_filter passive
    (<["command" := JStr "close"]> o) w in
  ready_no_ws w' /\ all_closed w w' (<["command" := JStr "close"]> o) /\
  forall h d, closed_with h d w -> closed_with h d w'.
Proof.
  intros [Hi F] w'. injection F as F1 F2 F3. subst w'. rewrite close_rest_ready by done.
  pose proof (broadcast_frame _ w (close_command o)) as F4.
  destruct (broadcast_closes _ w Hi (close_command o)) as (Ha & Hb & Hk).
  split; [|split; [|done]].
  - split; [by apply (broadcast_good _ _ _ passive passive_good)|]. rewrite F4. unfold page_frame. by rewrite F1, F2, F3.
  - split; [|done]. etransitivity; [exact (f_equal snd F4)|done].
Qed.

Lemma drop_socket_ready w w' :
  same_core w w' -> ready_no_ws w \/ inv w /\ page_frame w = (true, false, ws_of w) ->
  ws_of w' = None -> w_expect_disconnect w' = w_expect_disconnect w ->
  ready_no_ws w' /\ forall id, lookup_cb id w' = lookup_cb id w.
Proof.
  intros E Hw Hs Hx. assert (inv w /\ is_ready w = true /\ w_expect_disconnect w = false)
    as (Hi & Hr & He) by (destruct Hw as [[? F]|[? F]]; by injection F).
  split; [split|].
  - by eapply inv_same_core.
  - unfold page_frame. by rewrite Hs, Hx, (is_ready_core _ _ E), Hr, He.
  - intros id. by rewrite !lookup_cb_cbs, (sc_cbs _ _ E).
Qed.

(** Closing a connected transport drops the socket, empties the callback
    tables and closes every registered channel with one reason: the given
    problem on a browser socket, but always "disconnected" on the socket of an
    embedded frame, whose [onclose] runs inside [close]. *)
Theorem transport_close_closes arg s w :
  reachable w -> ws_of w = Some s -> is_ready w = true ->
  w_expect_disconnect w = false -> w_reload_after_disconnect w = false ->
  all_closed w (transport_close arg w) (close_reason s arg).
Proof.
  intros Hr Hs Hrdy He Hl. apply reachable_inv in Hr.
  unfold Transport.transport_close. rewrite Hs. cbv zeta. set (w1 := emit EWsClose _).
  destruct (drop_socket_ready w w1) as [R1 El1].
  { etransitivity; [|by apply emit_core]. by apply upd_tr_core. }
  { right. split; [done|]. unfold page_frame. by rewrite Hrdy, He. }
  { unfold w1, ws_of. cbn. by destruct (w_tr w). }
  { done. }
  destruct s; cbn [close_reason].
  - destruct (close_rest_closes (default disconnected arg) w1 R1) as (_ & (? & ? & Ha) & _).
    split; [done|split; [done|]]. intros id h. rewrite <- El1. apply Ha.
  - unfold ws_onclose.
    change (w_reload_after_disconnect (upd_tr _ w1)) with (w_reload_after_disconnect w).
    rewrite Hl. cbv zeta. unfold close_without_ws. set (w2 := upd_tr _ (upd_tr _ w1)).
    destruct (drop_socket_ready w1 w2) as [R2 El2].
    { etransitivity; by apply upd_tr_core. } { by left. }
    { unfold w2, ws_of. cbn. by destruct (w_tr w). } { done. }
    destruct (close_rest_closes disconnected w2 R2) as (R3 & (_ & _ & Ha) & _).
    destruct (close_rest_closes (default disconnected arg) _ R3) as (_ & (? & ? & _) & Hk).
    split; [done|split; [done|]]. intros id h. rewrite <- El1, <- El2. intros Hlk.
    eapply Hk, Ha, Hlk.
Qed.

(** ** Opening *)

(** The frames the page has put on the wire. *)
Definition sent (w : world) : list wire :=
  omap (fun e => match e with EWsSend m => Some m | _ => None end) (w_trace w).

Definition control_frame (o : jobj) : wire := WText (nl +:+ JSON_stringify o).

(** The one control command the transport keeps to itself. *)
Definition health_hint (t : transport) (o : jobj) : bool :=
  t_timer t && is_str (prop o "command") "hint" &&
  is_str (prop o "hint") "ignore_transport_health_check".

(** The frames of one queued item of channel [id]. *)
Definition item_frames (t : transport) (binary : bool) (id : string) (i : queue_item) : list wire :=
  match i with
  | QControl o =>
      let o := <["channel" := JStr id]> o in if health_hint t o then [] else [control_frame o]
  | QPayload p => [frame_of (if binary then p else PStr (payload_String p)) id]
  end.

(** A connected page without outgoing filters, whose channel [h] has [id]. *)
Definition connected (timer : bool) (h : nat) (id : string) (binary : bool) (w : world) : Prop :=
  (exists t s, w_tr w = Some t /\ t_ws t = Some s /\ t_timer t = timer) /\
  w_out_filters w = [] /\
  exists c, w_chans w !! h = Some c /\ c_id c = Some id /\ c_binary c = binary.

Lemma send_message_sent p ch co w s :
  ws_of w = Some s -> w_out_filters w = [] ->
  fst (send_message JSON_parse out_filter p ch co w) = emit (EWsSend (frame_of p ch)) w.
Proof. intros Hs Hf. unfold send_message, send_data. by rewrite Hs, Hf. Qed.

Lemma sent_emit m w : sent (emit (EWsSend m) w) = sent w ++ [m].
Proof. unfold sent, emit. cbn. by rewrite omap_app. Qed.

Lemma send_control_sent timer h id b o w :
  connected timer h id b w ->
  let w' := fst (send_control JSON_stringify JSON_parse out_filter o w) in
  connected timer h id b w' /\
  sent w' = sent w ++ (if timer && is_str (prop o "command") "hint" &&
    is_str (prop o "hint") "ignore_transport_health_check" then [] else [control_frame o]).
Proof.
  intros ((t & s & Ht & Hs & Htm) & Hf & Hc) w'. subst w'. unfold send_control.
  rewrite Ht, Hs, Htm. rewrite bool_decide_eq_false_2 by done. cbn [andb].
  destruct (timer && _ && _); cbn [fst].
  - rewrite app_nil_r. split; [|done]. split; [|done]. cbn. rewrite Ht. cbn.
    by eexists _, s.
  - rewrite (send_message_sent _ _ _ _ s); [|unfold ws_of; by rewrite Ht|done].
    rewrite sent_emit. split; [|done]. split; [eauto|done].
Qed.

Lemma drain_sent timer t h id b q : t_timer t = timer -> forall w,
  connected timer h id b w ->
  sent (drain JSON_stringify JSON_parse out_filter h id q w) =
  sent w ++ concat (map (item_frames t b id) q).
Proof.
  intros Htm. induction q as [|[o|p] q IH]; intros w Hw; cbn [drain map concat].
  - by rewrite app_nil_r.
  - destruct (send_control_sent timer h id b (<["channel" := JStr id]> o) w Hw) as [Hw' E].
    rewrite IH by done. rewrite E. unfold item_frames, health_hint. rewrite Htm.
    by rewrite <- app_assoc.
  - rewrite IH.
    + pose proof Hw as ((t' & s & Ht & Hs & _) & Hf & c & Hc & Hid & Hb).
      unfold send_payload. rewrite Hc, Hid, Hb. cbn [default].
      rewrite (send_message_sent _ _ _ _ s), sent_emit;
        [|unfold ws_of; by rewrite Ht|done]. by rewrite <- app_assoc.
    + pose proof Hw as ((t' & s & Ht & Hs & _) & Hf & c & Hc & Hid & Hb).
      unfold send_payload. rewrite Hc. erewrite send_message_sent; [done| |done].
      unfold ws_of. by rewrite Ht.
Qed.

Lemma open_command_open c id v : prop (open_command c id v) "command" = JStr "open".
Proof.
  unfold open_command. set (o1 := if _ && _ then _ else _).
  assert (prop o1 "command" = JStr "open") as Ho1.
  { unfold o1. destruct (negb _ && truthy _); by rewrite !prop_insert. }
  destruct (c_binary c); [by rewrite prop_insert|by rewrite prop_delete].
Qed.

(** Without a socket an "open" command is dropped. *)
Lemma send_control_dropped o w :
  ws_of w = None -> prop o "command" = JStr "open" ->
  fst (send_control JSON_stringify JSON_parse out_filter o w) = w.
Proof.
  intros Hs Ho. unfold send_control, send_message, send_data. rewrite Ho, Hs.
  destruct (w_tr w); [|done]. change (is_str (JStr "open") _) with false.
  by rewrite !andb_false_r.
Qed.

(** When the transport lets an open channel through, the channel gets a
    fresh id and is registered under it, and the wire carries its "open"
    command first and then everything queued while it waited, in the order the
    page asked for it. *)
Theorem open_channel_sends h w c t s :
  w_chans w !! h = Some c -> c_closed c = None -> w_tr w = Some t -> t_ws t = Some s ->
  w_out_filters w = [] ->
  let id := t_seed t +:+ pretty (t_last_channel t + 1) in
  let w' := open_channel JSON_stringify JSON_parse out_filter h w in
  sent w' = sent w ++ control_frame (open_command c id (w_default_host w)) ::
    concat (map (item_frames t (c_binary c) id) (c_queue c)) /\
  lookup_cb id w' = Some h.
Proof.
  intros Hc Hcl Ht Hs Hf id w'. subst w'. unfold open_channel, next_channel.
  rewrite Hc, Ht, Hcl. cbv zeta. fold id. set (t' := t <| t_last_channel := _ |>).
  set (w1 := register id h _). set (o := open_command c id _).
  assert (connected (t_timer t) h id (c_binary c) w1) as Hw1.
  { split; [|split; [done|]].
    - unfold w1, register, upd_tr, upd_chan. cbn. by eexists _, s.
    - unfold w1, register, upd_tr, upd_chan. cbn.
      rewrite !lookup_alter, !decide_True, Hc by done. cbn. eauto. }
  destruct (send_control_sent _ h id _ o w1 Hw1) as [Hw2 E2].
  set (w2 := fst (send_control _ _ _ o w1)) in *.
  pose proof (open_command_open c id (w_default_host w1) : prop o "command" = _) as Hop.
  rewrite Hop in E2. change (is_str (JStr "open") "hint") with false in E2.
  rewrite andb_false_r in E2. cbn [andb] in E2.
  split.
  - rewrite (drain_sent (t_timer t) t h id (c_binary c)); [|done|].
    + change (sent (upd_chan h _ w2)) with (sent w2). rewrite E2. by rewrite <- app_assoc.
    + destruct Hw2 as (? & ? & c2 & Hc2 & ? & ?). split; [done|split; [done|]].
      unfold upd_chan. cbn. rewrite lookup_alter, decide_True, Hc2 by done. cbn. eauto.
  - rewrite lookup_cb_cbs, (sc_cbs _ _ (drain_core _ _ _ _ _ _ _)).
    change (cbs (upd_chan h _ w2)) with (cbs w2).
    unfold w2. rewrite (sc_cbs _ _ (send_control_core _ _ _ _ _)). unfold w1, register, upd_tr, cbs.
    cbn. by rewrite assoc_get_set, String.eqb_refl.
Qed.

(** A channel created after the transport has lost its socket is
    registered and reports itself valid, but nothing is sent for it and it is
    never told that it is closed: with no socket left there is no further
    close event to broadcast. *)
Theorem late_channel_unnoticed o w t :
  reachable w -> w_tr w = Some t -> t_ready t = true -> t_ws t = None ->
  let h := w_next w in
  let w' := new_channel JSON_stringify JSON_parse out_filter sock o w in
  events h w' = [] /\ sent w' = sent w /\
  exists c, w_chans w' !! h = Some c /\ c_valid c = true /\ c_closed c = None /\
    c_transport c = true /\ is_Some (c_id c).
Proof.
  intros Hr Ht Hrd Hs h w'. apply reachable_inv in Hr. subst w'.
  unfold new_channel, ensure_transport. cbv zeta. fold h.
  set (c := mk_channel _ _ _ _ _ _ _ _ _ _ _). set (w1 := w <| w_chans ::= _ |> <| w_next ::= S |>).
  change (w_tr w1) with (w_tr w). rewrite Ht. change (w_tr w1) with (w_tr w).
  rewrite Ht, Hrd. cbn [run_ready_cb]. unfold open_channel.
  assert (w_chans w1 !! h = Some c) as -> by (cbn; by rewrite lookup_insert_eq).
  change (w_tr w1) with (w_tr w). rewrite Ht. cbn [c c_closed]. unfold next_channel. cbv zeta.
  assert (events h w = []) as Hev.
  { apply (inv_fresh w Hr). destruct (w_chans w !! h) eqn:E; [|done].
    apply (inv_next w Hr) in E. unfold h in E. lia. }
  set (id := t_seed t +:+ _). set (w2 := register id h _).
  rewrite send_control_dropped; [|unfold w2, ws_of; cbn; by rewrite Hs|apply open_command_open].
  change (events h (upd_chan h _ w2)) with (events h w).
  change (sent (upd_chan h _ w2)) with (sent w). split; [done|split; [done|]].
  unfold w2, register, upd_tr, upd_chan. cbn.
  rewrite !lookup_alter, !decide_True, lookup_insert_eq by done. cbn. eauto 10.
Qed.

(** ** Frames *)

Lemma substring_0_length s : String.substring 0 (String.length s) s = s.
Proof. induction s as [|a s IH]; cbn; [done|]. by rewrite IH. Qed.

Lemma substring_skip x y n :
  String.substring (String.length x) n (x +:+ y) = String.substring 0 n y.
Proof. induction x as [|a x IH]; cbn; [done|]. exact IH. Qed.

Lemma length_append x y : String.length (x +:+ y) = (String.length x + String.length y)%nat.
Proof. induction x as [|a x IH]; cbn; [done|]. by rewrite IH. Qed.

Lemma frame_payload_text chan s : frame_payload (WText (chan +:+ nl +:+ s)) chan = PStr s.
Proof.
  cbn [frame_payload]. f_equal.
  assert (chan +:+ nl +:+ s = (chan +:+ nl) +:+ s) as ->.
  { clear. induction chan as [|a c IH]; cbn; [done|]. f_equal; exact IH. }
  rewrite !length_append. change (String.length nl) with 1%nat.
  assert (String.length chan + 1 = String.length (chan +:+ nl))%nat as ->.
  { by rewrite length_append. }
  rewrite substring_skip.
  replace (_ - _)%nat with (String.length s) by lia. apply substring_0_length.
Qed.

Lemma raw_byte a : js_and (Z.of_N (Ascii.N_of_ascii a)) 255 = Z.of_N (Ascii.N_of_ascii a).
Proof. by destruct a as [[] [] [] [] [] [] [] []]. Qed.

Lemma raw_bytes_cut chan r :
  str_mem nl_char chan = false ->
  bytes_cut (array_from_raw_string chan ++ 10 :: r) = Some (array_from_raw_string chan, r).
Proof.
  unfold array_from_raw_string, string_bytes.
  induction chan as [|a c IH]; cbn [String.list_ascii_of_string map app bytes_cut str_mem]; [done|].
  intros H. apply orb_false_iff in H as [Ha Hc]. rewrite raw_byte, IH by done.
  assert (Z.of_N (Ascii.N_of_ascii a) =? 10 = false) as ->; [|done].
  revert Ha. by destruct a as [[] [] [] [] [] [] [] []].
Qed.

Lemma raw_bytes_string chan : string_of_bytes (array_from_raw_string chan) = chan.
Proof.
  unfold string_of_bytes, array_from_raw_string, string_bytes.
  induction chan as [|a c IH]; cbn; [done|]. rewrite raw_byte.
  rewrite N2Z.id, Ascii.ascii_N_embedding. f_equal. exact IH.
Qed.

Lemma raw_bytes_length chan : length (array_from_raw_string chan) = String.length chan.
Proof.
  unfold array_from_raw_string, string_bytes. rewrite !length_map.
  induction chan; cbn; congruence.
Qed.

Lemma binary_frame_roundtrip chan l :
  str_mem nl_char chan = false -> chan <> "" ->
  parse_channel (WBinary (array_from_raw_string chan ++ [10] ++ l)) = Some chan /\
  frame_payload (WBinary (array_from_raw_string chan ++ [10] ++ l)) chan = PTyped l.
Proof.
  intros Hn He. cbn [parse_channel frame_payload app]. rewrite raw_bytes_cut by done. split.
  - destruct (array_from_raw_string chan) eqn:E.
    + pose proof (raw_bytes_length chan) as Hl. rewrite E in Hl. by destruct chan.
    + by rewrite <- E, raw_bytes_string.
  - f_equal. rewrite <- raw_bytes_length, Nat.add_1_r.
    replace (S (length _)) with (length (array_from_raw_string chan ++ [10]))
      by (rewrite length_app; cbn; lia).
    change (10 :: l) with ([10] ++ l). rewrite app_assoc. by rewrite drop_app_length.
Qed.

(** A frame built for a channel is parsed back to that channel and payload:
    text as text, a plain array as its bytes, and a non-empty typed array as
    itself.  Channel ids never contain a newline. *)
Lemma frame_roundtrip_core p chan :
  str_mem nl_char chan = false -> chan <> "" ->
  parse_channel (frame_of p chan) = Some chan /\
  frame_payload (frame_of p chan) chan = match p with
    | PStr s => PStr s
    | PTyped [] => PStr ""
    | PTyped l | PArray l => PTyped (map (fun b => b mod 256) l)
    end.
Proof.
  intros Hn He.
  assert (forall s, parse_channel (WText (chan +:+ nl +:+ s)) = Some chan) as Ht.
  { intros s. cbn [parse_channel]. change (nl +:+ s) with (String nl_char s).
    by rewrite str_cut_app. }
  destruct p as [s|l|[|x l]]; cbn [frame_of payload_String map str_join].
  - split; [apply Ht|apply frame_payload_text].
  - by apply binary_frame_roundtrip.
  - split; [apply Ht|apply frame_payload_text].
  - by apply (binary_frame_roundtrip chan (map (fun b => b mod 256) (x :: l))).
Qed.

(** ** Routing and the protocol handshake *)

(** A data frame for a registered channel that has not been told "done" is
    dispatched as one message event on that channel, and only there. *)
Lemma dispatch_message m chan h c w :
  parse_channel m = Some chan -> chan <> "" ->
  existsb (fun f => in_filter f m chan None) (w_in_filters w) = false ->
  lookup_cb chan w = Some h -> w_chans w !! h = Some c -> c_received_done c = false ->
  fst (dispatch_data JSON_stringify JSON_parse in_filter out_filter passive m w) =
  emit (EChannel h (CMessage (frame_payload m chan)))
    (upd_tr (fun t => t <| t_got_message := true |>) w).
Proof.
  intros Hp Hne Hf Hl Hc Hd. unfold dispatch_data. cbv zeta. rewrite Hp.
  destruct (String.eqb_spec chan "") as [|_]; [done|]. cbn [andb].
  change (w_in_filters (upd_tr _ w)) with (w_in_filters w). rewrite Hf. cbn [fst].
  unfold process_message. rewrite lookup_cb_cbs.
  rewrite (sc_cbs w) by by apply upd_tr_core. rewrite <- lookup_cb_cbs, Hl.
  unfold on_message. change (w_chans (upd_tr _ w)) with (w_chans w). by rewrite Hc, Hd.
Qed.

(** What one side frames for a channel arrives on that channel: the frame
    is dispatched as exactly one message event, with the payload that was
    sent, on the channel registered under that id and on no other. *)
Theorem framed_message_delivered p chan h c w :
  str_mem nl_char chan = false -> chan <> "" ->
  existsb (fun f => in_filter f (frame_of p chan) chan None) (w_in_filters w) = false ->
  lookup_cb chan w = Some h -> w_chans w !! h = Some c -> c_received_done c = false ->
  let w' := fst (dispatch_data JSON_stringify JSON_parse in_filter out_filter passive
    (frame_of p chan) w) in
  events h w' = events h w ++ [CMessage (match p with
    | PStr s => PStr s
    | PTyped [] => PStr ""
    | PTyped l | PArray l => PTyped (map (fun b => b mod 256) l)
    end)] /\
  (forall h', h' <> h -> events h' w' = events h' w) /\ w_chans w' = w_chans w.
Proof.
  intros Hn He Hf Hl Hc Hd w'. subst w'.
  destruct (frame_roundtrip_core p chan Hn He) as [Hp Hq].
  rewrite (dispatch_message _ chan h c) by done. rewrite Hq.
  split; [|split; [|done]].
  - rewrite events_app, bool_decide_eq_true_2 by done. done.
  - intros h' Hne. rewrite events_app, bool_decide_eq_false_2 by done. by rewrite app_nil_r.
Qed.

(** Until the peer's init message has arrived, any other control message
    is answered by closing the transport: with the peer's own reason when it
    is a close of the whole transport, and as a protocol error otherwise. *)
Theorem control_before_init o w t :
  w_tr w = Some t -> t_waiting_for_init t = true -> is_str (prop o "command") "init" = false ->
  process_control JSON_stringify JSON_parse out_filter passive o w =
  transport_close
    (Some (if is_str (prop o "command") "close" && negb (truthy (prop o "channel")) then o
           else {["problem" := JStr "protocol-error"]}))
    (upd_tr (fun t => t <| t_waiting_for_init := false |>) w).
Proof.
  intros Ht Hw Hi. unfold process_control. rewrite Ht, Hi, Hw. cbv zeta.
  by destruct (is_str _ "close"), (truthy _).
Qed.

End Spec.

(** ** Witnesses *)

Section Witness.

Definition ex_stringify (_ : jobj) : string := "{}".
Definition ex_init : jobj := {["command" := JStr "init"; "version" := JNum 1]}.
Definition ex_parse (_ : string) : option jobj := Some ex_init.
Definition ex_in (_ : nat) (_ : wire) (_ : string) (_ : option jobj) : bool := false.
Definition ex_out (_ : nat) (_ : wire) (_ : option string) (_ : option jobj) : bool := false.
(** Nobody calls back. *)
Definition ex_script (_ : bool) (_ : nat) (_ : chan_event) (_ : world) : list action := [].
Definition ex_run (s : socket) (l : list action) : world :=
  run ex_stringify ex_parse ex_in ex_out s ex_script 1 l.

(** A page with one channel on a connected transport. *)
Definition ex_open (s : socket) : world :=
  ex_run s [ANew {["payload" := JStr "echo"]}; ASend 0 (PStr "hi");
            AMessage (WText (nl +:+ "{}"))].

(** Every ready listener closes its channel, the control listeners send. *)
Definition ex_closer (late : bool) (h : nat) (e : chan_event) (_ : world) : list action :=
  match e with
  | CReady _ => if late then [] else [AClose h CloseNone]
  | CControl _ => [ASend h (PStr "hi")]
  | _ => []
  end.

Definition ex_ready : jobj := {["command" := JStr "ready"; "channel" := JStr "1"]}.
Definition ex_parse_ready (s : string) : option jobj :=
  Some (if String.eqb s "{}" then ex_init else ex_ready).

(** A channel whose listener closes it from inside its ready event. *)
Definition ex_closed_in_ready : world :=
  run ex_stringify ex_parse_ready ex_in ex_out BrowserSocket ex_closer 2
    [ANew ∅; AMessage (WText (nl +:+ "{}")); AMessage (WText (nl +:+ "{r}"))].

(** The listeners of a channel that is closed inside its ready event still see
    a control event after the close event. *)
Example control_after_close :
  events 0 ex_closed_in_ready =
  [CReady ex_ready; CClose {["command" := JStr "close"; "channel" := JStr "1"]}; CControl ex_ready].
Proof. vm_compute. reflexivity. Qed.

Lemma close_event_once_witness :
  match w_chans ex_closed_in_ready !! 0%nat with
  | Some c => is_Some (c_closed c) /\ match c_closed c with
    | None => forall d, CClose d ∉ events 0 ex_closed_in_ready
    | Some d => exists before after, events 0 ex_closed_in_ready = before ++ CClose d :: after /\
        (forall d', CClose d' ∉ before ++ after) /\
        forall e, e ∈ after -> exists data,
          e = CControl data /\ is_str (prop data "command") "ready" = true /\ CReady data ∈ before
    end
  | None => False
  end.
Proof.
  pose proof (close_event_once ex_stringify ex_parse_ready ex_in ex_out BrowserSocket ex_closer
    ex_closed_in_ready (run_reachable _ _ _ _ _ _ _ _) 0%nat) as H.
  assert (option_map (fun c => bool_decide (c_closed c = None)) (w_chans ex_closed_in_ready !! 0%nat) =
    Some false) as Hc by (vm_compute; reflexivity).
  destruct (w_chans ex_closed_in_ready !! 0%nat) as [c|]; [|done]. split; [|by apply H].
  injection Hc as Hc. apply bool_decide_eq_false in Hc. by apply not_eq_None_Some.
Defined.

Lemma transport_close_closes_witness :
  let w := ex_open ParentSocket in
  lookup_cb "1" w = Some 0%nat /\
  all_closed w (transport_close ex_stringify ex_parse ex_out passive
    (Some {["problem" := JStr "timeout"]}) w) (close_reason ParentSocket None).
Proof.
  split; [vm_compute; reflexivity|].
  refine (transport_close_closes ex_stringify ex_parse ex_in ex_out ParentSocket ex_script
    (Some {["problem" := JStr "timeout"]}) ParentSocket (ex_open ParentSocket) _ _ _ _ _);
    [apply run_reachable|vm_compute; reflexivity..].
Defined.

(** The channel of [ex_open] before the init message lets it through. *)
Definition ex_waiting : world := ex_run BrowserSocket [ANew ∅; ASend 0 (PStr "hi")].

Lemma open_channel_sends_witness :
  exists c t, w_chans ex_waiting !! 0%nat = Some c /\ w_tr ex_waiting = Some t /\
  sent (open_channel ex_stringify ex_parse ex_out 0 ex_waiting) =
  [WText (nl +:+ "{}"); WText ("1" +:+ nl +:+ "hi")].
Proof.
  do 2 eexists. split; [reflexivity|split; [reflexivity|]].
  etransitivity; [refine (proj1 (open_channel_sends ex_stringify ex_parse ex_out 0
    ex_waiting _ _ BrowserSocket eq_refl eq_refl eq_refl eq_refl eq_refl))|].
  vm_compute. reflexivity.
Defined.

Definition ex_lost : world :=
  ex_run BrowserSocket [ANew ∅; AMessage (WText (nl +:+ "{}")); AOnClose].

Lemma late_channel_unnoticed_witness :
  events (w_next ex_lost) (new_channel ex_stringify ex_parse ex_out BrowserSocket ∅ ex_lost) = [].
Proof.
  refine (proj1 (late_channel_unnoticed ex_stringify ex_parse ex_in ex_out BrowserSocket ex_script ∅
    ex_lost _ _ eq_refl eq_refl eq_refl)).
  apply run_reachable.
Defined.

Lemma framed_message_delivered_witness :
  events 0 (fst (dispatch_data ex_stringify ex_parse ex_in ex_out passive
    (frame_of (PArray [1; 258]) "1") (ex_open BrowserSocket))) = [CMessage (PTyped [1; 2])].
Proof.
  etransitivity; [refine (proj1 (framed_message_delivered ex_stringify ex_parse ex_in ex_out
    (PArray [1; 258]) "1" 0 _ (ex_open BrowserSocket) eq_refl _ eq_refl eq_refl eq_refl eq_refl));
    discriminate|].
  vm_compute. reflexivity.
Defined.

Lemma control_before_init_witness :
  let w := ex_run BrowserSocket [ANew ∅] in
  process_control ex_stringify ex_parse ex_out passive {["command" := JStr "ping"]} w =
  transport_close ex_stringify ex_parse ex_out passive (Some {["problem" := JStr "protocol-error"]})
    (upd_tr (fun t => t <| t_waiting_for_init := false |>) w).
Proof.
  cbv zeta. refine (control_before_init ex_stringify ex_parse ex_out {["command" := JStr "ping"]}
    (ex_run BrowserSocket [ANew ∅]) _ eq_refl eq_refl eq_refl).
Defined.

End Witness.

