(* ===== verification/Buffer.v ===== *)
(** * Channel buffers (src/src/base1/cockpit.js, [join_data], [Channel.buffer])

    A buffer collects the messages of a channel for a callback that consumes
    as much of the joined block as it can use.  A block is the list of its
    bytes, or of its code units on a text channel; -1 stands for [undefined], what
    is read from an array where nothing has been put.  The parameter [Uint8Array]
    says whether the browser has typed arrays: without them [join_data] has a
    loop of its own.  The other files are about browsers that have them. *)

From S2P Require Import Prelude.

(** ** join_data *)

(** [data.set(block, j)] on a typed array. *)
Definition array_set (data : list Z) (j : nat) (block : list Z) : list Z :=
  take j data ++ block ++ drop (j + length block) data.

(** The copying loop: [j] is the offset of the next block. *)
Fixpoint copy_loop (buffers : list (list Z)) (j : nat) (data : list Z) : list Z :=
  match buffers with
  | [] => data
  | b :: bs => copy_loop bs (j + length b) (array_set data j b)
  end.

Definition total_length (buffers : list (list Z)) : nat :=
  foldl (fun n b => (n + length b)%nat) 0%nat buffers.

Definition undefined : Z := -1.

(** [data[i] = v] on a plain array, which grows to hold the index. *)
Definition array_put (data : list Z) (i : nat) (v : Z) : list Z :=
  if (i <? length data)%nat then <[i := v]> data
  else data ++ replicate (i - length data) undefined ++ [v].

(** The loops of the other branch, which put every element of block [i] at
    [i + j]. *)
Fixpoint put_loop (buffers : list (list Z)) (i j : nat) (data : list Z) : list Z :=
  match buffers with
  | [] => data
  | b :: bs => put_loop bs (S i) (j + length b) (foldl (fun data v => array_put data (i + j) v) data b)
  end.

Definition join_data (Uint8Array : bool) (buffers : list (list Z)) (binary : bool) : list Z :=
  if negb binary then concat buffers
  else
    let total := total_length buffers in
    if Uint8Array then copy_loop buffers 0 (replicate total 0)
    else put_loop buffers 0 0 (replicate total undefined).

(** ** Channel.buffer *)

(** [b_callback] says whether a callback is set; [b_open] whether the listeners
    are still installed. *)
Record buffer := mk_buffer {
  b_binary : bool; b_callback : bool; b_blocks : list (list Z); b_open : bool }.

#[export] Instance buffer_settable : Settable buffer := fun b =>
  mk_buffer (b_binary b) (b_callback b) (b_blocks b) (b_open b).

(** The part of a block after the consumed one: [subarray] counts negative
    offsets from the end, and so does [slice], which a plain array has;
    [substring] takes them as 0. *)
Definition rest_from (binary : bool) (consumed : Z) (block : list Z) : list Z :=
  if consumed <? 0 then
    if binary then drop (length block - Z.to_nat (- consumed)) block else block
  else drop (Z.to_nat consumed) block.

Section Buffer.
Context (Uint8Array : bool).

(** The callback with the state its closure keeps; the result is the number it
    returns, [None] for anything that is not a number. *)
Context {S : Type} (callback : S -> list Z -> S * option Z).

Definition on_message (data : list Z) (b : buffer) (s : S) : buffer * S :=
  let b := b <| b_blocks ::= (fun l => l ++ [data]) |> in
  if b_callback b then
    let block := join_data Uint8Array (b_blocks b) (b_binary b) in
    match block with
    | [] => (b, s)
    | _ =>
        let '(s, consumed) := callback s block in
        match consumed with
        | None => (b <| b_blocks := [] |>, s)
        | Some n =>
            if n =? zlen block then (b <| b_blocks := [] |>, s)
            else if n =? 0 then (b <| b_blocks := [block] |>, s)
            else (b <| b_blocks := [rest_from (b_binary b) n block] |>, s)
        end
    end
  else (b, s).

Definition on_close (b : buffer) : buffer := b <| b_open := false |>.

Definition squash (b : buffer) : list Z := join_data Uint8Array (b_blocks b) (b_binary b).

(** A message event reaches the buffer only while its listeners are there. *)
Definition deliver (b : buffer) (s : S) (data : list Z) : buffer * S :=
  if b_open b then on_message data b s else (b, s).

Definition deliver_all (msgs : list (list Z)) (b : buffer) (s : S) : buffer * S :=
  foldl (fun p m => deliver (fst p) (snd p) m) (b, s) msgs.

End Buffer.

(** ** Joining *)

Lemma array_set_prefix pre n block :
  (length block <= n)%nat ->
  array_set (pre ++ replicate n 0) (length pre) block =
  (pre ++ block) ++ replicate (n - length block) 0.
Proof.
  intros Hn. unfold array_set. rewrite take_app_length.
  rewrite drop_app_add. rewrite drop_replicate. by rewrite <- app_assoc.
Qed.

Lemma total_length_acc bs : forall n,
  foldl (fun n b => (n + length b)%nat) n bs = (n + length (concat (bs : list (list Z))))%nat.
Proof.
  induction bs as [|b bs IH]; intros n; cbn; [lia|]. rewrite IH, length_app. lia.
Qed.

Lemma copy_loop_concat bs : forall pre,
  copy_loop bs (length pre) (pre ++ replicate (length (concat bs)) 0) = pre ++ concat bs.
Proof.
  induction bs as [|b bs IH]; intros pre; cbn [copy_loop concat]; [done|].
  rewrite length_app, array_set_prefix by lia. rewrite <- length_app.
  replace (length b + length (concat bs) - length b)%nat with (length (concat bs)) by lia.
  by rewrite IH, <- app_assoc.
Qed.

(** The copying loop of [join_data] is concatenation: the array it
    allocates is exactly filled, whatever the sizes of the blocks. *)
Theorem join_data_concat u bs binary : u = true \/ binary = false -> join_data u bs binary = concat bs.
Proof.
  unfold join_data. destruct binary; cbn [negb]; [|done]. intros [->|]; [|done]. unfold total_length.
  rewrite total_length_acc. exact (copy_loop_concat bs []).
Qed.

(** Without typed arrays the elements of a block overwrite each other: two blocks
    of two bytes make four elements, of which two are bytes. *)
Lemma join_without_typed_arrays :
  join_data false [[1; 2]; [3; 4]] true = [2; undefined; undefined; 4] /\
  join_data true [[1; 2]; [3; 4]] true = [1; 2; 3; 4].
Proof. done. Qed.

(** ** Conservation *)

Section Conservation.
Context (Uint8Array : bool) {S : Type} (callback : S -> list Z -> S * option Z).

(** The callback never claims to have consumed more than it was given, and
    records what it consumed. *)
Context (eaten : S -> list Z).
Context (callback_ok : forall s block, let '(s', r) := callback s block in
  match r with
  | None => eaten s' = eaten s ++ block
  | Some n => 0 <= n <= zlen block /\ eaten s' = eaten s ++ take (Z.to_nat n) block
  end).

Lemma on_message_conserves data b s : Uint8Array = true \/ b_binary b = false ->
  let '(b', s') := on_message Uint8Array callback data b s in
  eaten s' ++ concat (b_blocks b') = eaten s ++ concat (b_blocks b) ++ data /\
  b_open b' = b_open b /\ b_binary b' = b_binary b.
Proof.
  intros Hu. unfold on_message. cbn [b_callback b_blocks b_binary].
  pose proof (fun bl => join_data_concat Uint8Array bl (b_binary b) Hu) as Hj.
  destruct (b_callback _); cbn; [|by rewrite concat_app; cbn; rewrite app_nil_r].
  rewrite Hj, concat_app. cbn [concat]. rewrite app_nil_r.
  destruct (concat (b_blocks b) ++ data) as [|x l] eqn:E.
  - cbn. by rewrite concat_app; cbn; rewrite app_nil_r, E.
  - rewrite <- E. clear x l E. set (block := concat (b_blocks b) ++ data).
    pose proof (callback_ok s block) as Hok. destruct (callback s block) as [s' [n|]].
    + destruct Hok as [Hn He]. destruct (Z.eqb_spec n (zlen block)) as [->|Hne].
      * cbn. rewrite He. unfold zlen. by rewrite Nat2Z.id, firstn_all, app_nil_r.
      * destruct (Z.eqb_spec n 0) as [->|H0]; cbn; rewrite He, app_nil_r; [by rewrite app_nil_r|].
        unfold rest_from. rewrite (proj2 (Z.ltb_ge n 0)) by lia.
        by rewrite <- app_assoc, take_drop.
    + cbn. by rewrite Hok, app_nil_r.
Qed.

(** C5. No data is lost, duplicated or reordered, on a text channel and, in a
    browser with typed arrays, on a binary one ([join_without_typed_arrays] shows
    the other case): with a callback that takes no more than it is given, and
    records in [eaten] what it takes, after any sequence of messages that come
    while the buffer listens, what the callback has consumed followed by what the
    buffer still holds is what the buffer held before followed by the messages. *)
Theorem buffer_conserves msgs : forall b s,
  Uint8Array = true \/ b_binary b = false -> b_open b = true ->
  let '(b', s') := deliver_all Uint8Array callback msgs b s in
  eaten s' ++ squash Uint8Array b' = eaten s ++ concat (b_blocks b) ++ concat msgs.
Proof.
  induction msgs as [|m msgs IH]; intros b s Hu Ho.
  - cbn. unfold squash. by rewrite join_data_concat, app_nil_r.
  - unfold deliver_all in *. cbn [foldl]. unfold deliver at 2. cbn [fst snd]. rewrite Ho.
    pose proof (on_message_conserves m b s Hu) as Hm.
    destruct (on_message Uint8Array callback m b s) as [b1 s1]. destruct Hm as (Hm & Ho1 & Hb1).
    specialize (IH b1 s1 ltac:(by rewrite Hb1) ltac:(congruence)).
    destruct (foldl _ (b1, s1) msgs) as [b' s']. rewrite IH. cbn [concat].
    by rewrite app_assoc, Hm, <- !app_assoc.
Qed.

End Conservation.

(** A line reader: it consumes up to the last newline and keeps what it ate. *)
Fixpoint upto_newline (l : list Z) : nat :=
  match l with
  | [] => 0
  | x :: l' => match upto_newline l' with
               | O => if x =? 10 then 1%nat else 0%nat
               | S n => S (S n)
               end
  end.

Definition line_reader (s : list Z) (block : list Z) : list Z * option Z :=
  (s ++ take (upto_newline block) block, Some (Z.of_nat (upto_newline block))).

Lemma upto_newline_le l : (upto_newline l <= length l)%nat.
Proof. induction l as [|x l IH]; cbn; [lia|]. repeat case_match; lia. Qed.

Lemma buffer_conserves_witness :
  let '(b, s) := deliver_all true line_reader [[97; 10; 98]; []; [99; 10; 100]]
                   (mk_buffer true true [] true) [] in
  s ++ squash true b = [97; 10; 98; 99; 10; 100].
Proof.
  refine (buffer_conserves true line_reader (fun s => s) _ [[97; 10; 98]; []; [99; 10; 100]]
    (mk_buffer true true [] true) [] (or_introl eq_refl) eq_refl).
  intros s block. unfold line_reader. rewrite Nat2Z.id. split; [|done].
  pose proof (upto_newline_le block). unfold zlen. lia.
Defined.
