(* ===== verification/Uri.v ===== *)
(** * Percent encoding and UTF-8

    The language's [encodeURIComponent], [decodeURIComponent], [escape] and
    [unescape], which cockpit.js builds its text codecs and locations on, and
    the [TextEncoder]/[TextDecoder] substitutes of src/src/base1/cockpit.js.

    A JavaScript string is represented by its UTF-8 bytes, and a "raw" string
    (one code unit per byte) by the list of its bytes. *)

From S2P Require Import Prelude.

(** ** Bytes of a string *)

Definition ord (a : Ascii.ascii) : Z := Z.of_N (Ascii.N_of_ascii a).
Definition chr (z : Z) : Ascii.ascii := Ascii.ascii_of_N (Z.to_N z).

Fixpoint bytes_of (s : string) : list Z :=
  match s with EmptyString => [] | String a s => ord a :: bytes_of s end.

Fixpoint of_bytes (l : list Z) : string :=
  match l with [] => EmptyString | z :: l => String (chr z) (of_bytes l) end.

Definition is_byte (z : Z) : Prop := 0 <= z < 256.

Lemma chr_ord a : chr (ord a) = a.
Proof. unfold chr, ord. by rewrite N2Z.id, Ascii.ascii_N_embedding. Qed.

Lemma ord_chr z : is_byte z -> ord (chr z) = z.
Proof. unfold chr, ord, is_byte. intros. rewrite Ascii.N_ascii_embedding; lia. Qed.

Lemma ord_byte a : is_byte (ord a).
Proof. unfold ord, is_byte. pose proof (Ascii.N_ascii_bounded a). lia. Qed.

Lemma ord_inj a b : ord a = ord b -> a = b.
Proof. intros H. by rewrite <- (chr_ord a), H, chr_ord. Qed.

Lemma of_bytes_of s : of_bytes (bytes_of s) = s.
Proof. induction s as [|a s IH]; cbn; [done|]. by rewrite chr_ord, IH. Qed.

Lemma bytes_of_of l : Forall is_byte l -> bytes_of (of_bytes l) = l.
Proof. induction 1; cbn; [done|]. by rewrite ord_chr, IHForall. Qed.

Lemma bytes_of_app x y : bytes_of (x +:+ y) = bytes_of x ++ bytes_of y.
Proof. induction x as [|a x IH]; cbn; [done|]. by rewrite IH. Qed.

Lemma of_bytes_app x y : of_bytes (x ++ y) = of_bytes x +:+ of_bytes y.
Proof. induction x as [|a x IH]; cbn; [done|]. by rewrite IH. Qed.

Lemma bytes_of_byte s : Forall is_byte (bytes_of s).
Proof. induction s; cbn; constructor; auto using ord_byte. Qed.

(** ** UTF-8 sequences *)

(** Length announced by a leading byte: its leading one bits, 0 when no
    sequence of at most four bytes can start with it. *)
Definition seq_len (b : Z) : nat :=
  if b <? 128 then 1 else if b <? 192 then 0 else if b <? 224 then 2
  else if b <? 240 then 3 else if b <? 248 then 4 else 0.

Definition is_cont (b : Z) : bool := (128 <=? b) && (b <? 192).

(** A well-formed sequence: no overlong form, no surrogate, at most U+10FFFF. *)
Definition seq_ok (l : list Z) : bool :=
  match l with
  | [a] => (0 <=? a) && (a <? 128)
  | [a; b] => (194 <=? a) && (a <? 224) && is_cont b
  | [a; b; c] =>
      (224 <=? a) && (a <? 240) && is_cont b && is_cont c &&
      (if a =? 224 then 160 <=? b else if a =? 237 then b <? 160 else true)
  | [a; b; c; d] =>
      (240 <=? a) && (a <? 245) && is_cont b && is_cont c && is_cont d &&
      (if a =? 240 then 144 <=? b else if a =? 244 then b <? 144 else true)
  | _ => false
  end.

Inductive utf8_valid : list Z -> Prop :=
  | utf8_nil : utf8_valid []
  | utf8_seq c l : seq_ok c = true -> utf8_valid l -> utf8_valid (c ++ l).

(** ** Percent tokens *)

(** A character of the text, or a percent escape. *)
Inductive tok := Raw (b : Z) | Esc (b : Z).

#[export] Instance tok_eq_dec : EqDecision tok.
Proof. solve_decision. Defined.

Definition tok_val (t : tok) : Z := match t with Raw b | Esc b => b end.

(** Decode a token list: escapes above 127 must spell well-formed UTF-8
    sequences.  [pend] holds the [need]-more-bytes sequence being read. *)
Fixpoint scan (pend : list Z) (need : nat) (l : list tok) : option (list Z) :=
  match l, need with
  | [], O => Some []
  | [], S _ => None
  | Raw b :: l, O => cons b <$> scan [] 0 l
  | Raw _ :: _, S _ => None
  | Esc b :: l, O =>
      match seq_len b with
      | O => None
      | 1%nat => cons b <$> scan [] 0 l
      | S k => scan [b] k l
      end
  | Esc b :: l, S k =>
      if is_cont b then
        match k with
        | O => if seq_ok (pend ++ [b]) then app (pend ++ [b]) <$> scan [] 0 l else None
        | _ => scan (pend ++ [b]) k l
        end
      else None
  end.

Definition hex_digit (n : Z) : Z := if n <? 10 then 48 + n else 55 + n.

Definition hex_val (b : Z) : option Z :=
  if (48 <=? b) && (b <? 58) then Some (b - 48)
  else if (65 <=? b) && (b <? 71) then Some (b - 55)
  else if (97 <=? b) && (b <? 103) then Some (b - 87)
  else None.

(** Tokens of a text; [None] when a percent sign is not followed by two hex
    digits. *)
Fixpoint tokens (l : list Z) : option (list tok) :=
  match l with
  | [] => Some []
  | b :: l1 =>
      if b =? 37 then
        match l1 with
        | h :: d :: l3 =>
            match hex_val h, hex_val d with
            | Some x, Some y => cons (Esc (16 * x + y)) <$> tokens l3
            | _, _ => None
            end
        | _ => None
        end
      else cons (Raw b) <$> tokens l1
  end.

Definition render_tok (t : tok) : list Z :=
  match t with
  | Raw b => [b]
  | Esc b => [37; hex_digit (b / 16); hex_digit (b mod 16)]
  end.

Definition render (l : list tok) : list Z := concat (map render_tok l).

(** ** The language's functions *)

Definition alnum (b : Z) : bool :=
  ((48 <=? b) && (b <? 58)) || ((65 <=? b) && (b <? 91)) || ((97 <=? b) && (b <? 123)).

(** Characters [encodeURIComponent] leaves alone: letters, digits and
    [-_.!~*'()]. *)
Definition uri_unreserved (b : Z) : bool :=
  alnum b || existsb (Z.eqb b) [45; 95; 46; 33; 126; 42; 39; 40; 41].

Definition enc_tok (b : Z) : tok := if uri_unreserved b then Raw b else Esc b.

Definition encodeURIComponent (s : string) : string :=
  of_bytes (render (map enc_tok (bytes_of s))).

(** [None] is the URIError. *)
Definition decodeURIComponent (s : string) : option string :=
  of_bytes <$> (tokens (bytes_of s) ≫= scan [] 0).

(** Characters [escape] leaves alone: letters, digits and [@*_+-./]. *)
Definition escape_plain (b : Z) : bool :=
  alnum b || existsb (Z.eqb b) [64; 42; 95; 43; 45; 46; 47].

Definition escape (raw : list Z) : string :=
  of_bytes (render (map (fun b => if escape_plain b then Raw b else Esc b) raw)).

(** [unescape] on text without %u escapes: an incomplete escape stays. *)
Fixpoint unescape_bytes (l : list Z) : list Z :=
  match l with
  | [] => []
  | b :: l1 =>
      match l1 with
      | h :: d :: l3 =>
          match b =? 37, hex_val h, hex_val d with
          | true, Some x, Some y => (16 * x + y) :: unescape_bytes l3
          | _, _, _ => b :: unescape_bytes l1
          end
      | _ => b :: unescape_bytes l1
      end
  end.

Definition unescape (s : string) : list Z := unescape_bytes (bytes_of s).

(** ** Lemmas on tokens *)

Definition tok_ok (t : tok) : Prop :=
  match t with Raw b => is_byte b /\ b <> 37 | Esc b => is_byte b end.

Lemma hex_val_digit n : 0 <= n < 16 -> hex_val (hex_digit n) = Some n.
Proof.
  intros H. assert (Hn : n ∈ seqZ 0 16) by (apply elem_of_seqZ; lia).
  clear H. revert n Hn. apply Forall_forall.
  by repeat (constructor; [reflexivity|]); constructor.
Qed.

Lemma tokens_render l : Forall tok_ok l -> tokens (render l) = Some l.
Proof.
  induction 1 as [|t l Ht _ IH]; [done|]. unfold render in *. cbn [map concat].
  destruct t as [b|b]; cbn [render_tok app tokens].
  - destruct Ht as [_ Hb]. apply Z.eqb_neq in Hb. by rewrite Hb, IH.
  - cbn in Ht. unfold is_byte in Ht.
    rewrite !hex_val_digit by (Z.to_euclidean_division_equations; lia). rewrite IH.
    cbn. do 2 f_equal. f_equal. Z.to_euclidean_division_equations; lia.
Qed.

Lemma hex_digit_byte n : 0 <= n < 16 -> is_byte (hex_digit n).
Proof. unfold hex_digit, is_byte. intros. case_match; lia. Qed.

Lemma render_byte l : Forall tok_ok l -> Forall is_byte (render l).
Proof.
  induction 1 as [|t l Ht _ IH]; [constructor|]. unfold render in *. cbn [map concat].
  apply Forall_app; split; [|done]. destruct t as [b|b]; cbn in *.
  - apply Forall_singleton. by destruct Ht.
  - unfold is_byte in Ht. repeat apply Forall_cons_2; try constructor;
      try (unfold is_byte; lia); apply hex_digit_byte; Z.to_euclidean_division_equations; lia.
Qed.

Lemma render_app x y : render (x ++ y) = render x ++ render y.
Proof. unfold render. by rewrite map_app, concat_app. Qed.

(** Decoding is the identity on bytes. *)
Lemma scan_id l : forall pend need r,
  scan pend need l = Some r -> r = (match need with O => [] | _ => pend end) ++ map tok_val l.
Proof.
  induction l as [|[b|b] l IH]; intros pend need r; cbn.
  - destruct need; [|done]. by intros [= <-].
  - destruct need; [|done]. intros H. apply fmap_Some in H as (r' & Hs & ->).
    by apply IH in Hs as ->.
  - destruct need as [|k].
    + destruct (seq_len b) as [|[|n]]; [done| |].
      * intros H. apply fmap_Some in H as (r' & Hs & ->). by apply IH in Hs as ->.
      * intros Hs. by apply IH in Hs as ->.
    + destruct (is_cont b); [|done]. destruct k as [|k].
      * destruct (seq_ok _); [|done]. intros H. apply fmap_Some in H as (r' & Hs & ->).
        apply IH in Hs as ->. by rewrite <- app_assoc.
      * intros Hs. apply IH in Hs as ->. by rewrite <- app_assoc.
Qed.

(** Whether an ASCII character is escaped does not matter. *)
Definition tok_sim (t u : tok) : Prop :=
  tok_val t = tok_val u /\ (t = u \/ 0 <= tok_val t < 128).

Lemma seq_len_ascii b : 0 <= b < 128 -> seq_len b = 1%nat.
Proof. unfold seq_len. intros. case_match; [done|lia]. Qed.

Lemma is_cont_ascii b : 0 <= b < 128 -> is_cont b = false.
Proof. unfold is_cont. intros. apply andb_false_iff. left. lia. Qed.

Lemma scan_sim l l' : Forall2 tok_sim l l' -> forall pend need, scan pend need l = scan pend need l'.
Proof.
  induction 1 as [|t u l l' [Hv Hs] _ IH]; intros pend need; [done|].
  destruct Hs as [->|Ha].
  - destruct u as [b|b]; cbn.
    + destruct need; [by rewrite IH|done].
    + repeat case_match; by rewrite ?IH.
  - pose proof (seq_len_ascii _ Ha) as El. pose proof (is_cont_ascii _ Ha) as Ec.
    destruct t as [b|b], u as [c|c]; cbn in Hv, El, Ec; subst c; cbn;
      destruct need; rewrite ?El, ?Ec, ?IH; done.
Qed.

(** Reading one well-formed sequence. *)
Lemma scan_seq c l : seq_ok c = true -> scan [] 0 (map Esc c ++ l) = app c <$> scan [] 0 l.
Proof.
  intros Hc.
  destruct c as [|x1 [|x2 [|x3 [|x4 [|x5 c]]]]]; try discriminate Hc; pose proof Hc as Hok;
    cbn [seq_ok] in Hc; rewrite ?andb_true_iff in Hc; destruct_and?; cbn [map app scan].
  - rewrite seq_len_ascii by lia. done.
  - assert (seq_len x1 = 2%nat) as -> by (unfold seq_len; repeat (case_match; try lia)).
    cbn [app]. replace (is_cont x2) with true by done. by rewrite Hok.
  - assert (seq_len x1 = 3%nat) as -> by (unfold seq_len; repeat (case_match; try lia)).
    cbn [app]. replace (is_cont x2) with true by done. replace (is_cont x3) with true by done.
    by rewrite Hok.
  - assert (seq_len x1 = 4%nat) as -> by (unfold seq_len; repeat (case_match; try lia)).
    cbn [app]. replace (is_cont x2) with true by done. replace (is_cont x3) with true by done.
    replace (is_cont x4) with true by done. by rewrite Hok.
Qed.

Lemma scan_valid l : utf8_valid l -> scan [] 0 (map Esc l) = Some l.
Proof.
  induction 1 as [|c l Hc _ IH]; [done|]. rewrite map_app, scan_seq, IH by done. done.
Qed.

(** What the scanner accepts is well-formed. *)
Lemma scan_valid_inv l : Forall is_byte l -> forall pend need r,
  scan pend need (map Esc l) = Some r ->
  utf8_valid (match need with O => l | _ => pend ++ l end).
Proof.
  induction 1 as [|b l Hb _ IH]; intros pend need r; cbn [map scan].
  - destruct need; [constructor|done].
  - destruct need as [|k].
    + destruct (seq_len b) as [|[|n]] eqn:El; [done| |].
      * intros H. apply fmap_Some in H as (r' & Hs & _). apply IH in Hs.
        apply (utf8_seq [b]); [|done]. unfold seq_len in El. unfold is_byte in Hb.
        cbn. repeat case_match; lia.
      * intros Hs. by apply IH in Hs.
    + destruct (is_cont b); [|done]. destruct k as [|k].
      * destruct (seq_ok _) eqn:Hok; [|done]. intros H. apply fmap_Some in H as (r' & Hs & _).
        apply IH in Hs. change (b :: l) with ([b] ++ l). rewrite app_assoc. by apply utf8_seq.
      * intros Hs. apply IH in Hs. change (b :: l) with ([b] ++ l). by rewrite app_assoc.
Qed.

Lemma utf8_app x y : utf8_valid x -> utf8_valid y -> utf8_valid (x ++ y).
Proof. induction 1; intros; [done|]. rewrite <- app_assoc. constructor; auto. Qed.

(** ** Round trips of the language's functions *)

Lemma enc_tok_ok b : is_byte b -> tok_ok (enc_tok b).
Proof.
  unfold enc_tok. destruct (uri_unreserved b) eqn:E; [|done]. intros Hb. split; [done|].
  intros ->. done.
Qed.

Lemma unreserved_ascii b : uri_unreserved b = true -> 0 <= b < 128.
Proof.
  unfold uri_unreserved, alnum. cbn [existsb]. intros H.
  repeat (apply orb_true_iff in H as [H|H]); rewrite ?andb_true_iff in H;
    destruct_and?; try lia; done.
Qed.

Lemma enc_tok_sim b : tok_sim (enc_tok b) (Esc b).
Proof.
  unfold enc_tok, tok_sim. destruct (uri_unreserved b) eqn:E; cbn; [|auto].
  split; [done|]. right. by apply unreserved_ascii.
Qed.

Lemma enc_toks_sim l : Forall2 tok_sim (map enc_tok l) (map Esc l).
Proof. induction l; cbn; constructor; auto using enc_tok_sim. Qed.

Lemma enc_toks_ok l : Forall is_byte l -> Forall tok_ok (map enc_tok l).
Proof. induction 1; cbn; constructor; auto using enc_tok_ok. Qed.

Lemma decode_render l :
  Forall tok_ok l -> decodeURIComponent (of_bytes (render l)) = of_bytes <$> scan [] 0 l.
Proof.
  intros H. unfold decodeURIComponent.
  rewrite bytes_of_of by by apply render_byte. by rewrite tokens_render.
Qed.

Lemma uri_roundtrip s :
  utf8_valid (bytes_of s) -> decodeURIComponent (encodeURIComponent s) = Some s.
Proof.
  intros Hv. unfold encodeURIComponent.
  rewrite decode_render by apply enc_toks_ok, bytes_of_byte.
  rewrite (scan_sim _ _ (enc_toks_sim _)), scan_valid by done. cbn. by rewrite of_bytes_of.
Qed.

Lemma escape_tok_sim l : Forall2 tok_sim
  (map (fun b => if escape_plain b then Raw b else Esc b) l) (map Esc l).
Proof.
  induction l as [|b l IH]; cbn; constructor; [|done]. unfold tok_sim.
  destruct (escape_plain b) eqn:E; cbn; [|auto]. split; [done|]. right.
  unfold escape_plain, alnum in E. cbn [existsb] in E.
  repeat (apply orb_true_iff in E as [E|E]); rewrite ?andb_true_iff in E;
    destruct_and?; try lia; done.
Qed.

(** [decodeURIComponent(escape(raw))] reads raw bytes as UTF-8. *)
Definition utf8_decode (raw : list Z) : option string := decodeURIComponent (escape raw).

Lemma utf8_decode_scan raw :
  Forall is_byte raw -> utf8_decode raw = of_bytes <$> scan [] 0 (map Esc raw).
Proof.
  intros Hb. unfold utf8_decode, escape. rewrite decode_render.
  - by rewrite (scan_sim _ _ (escape_tok_sim _)).
  - clear -Hb. induction Hb as [|b l Hb _ IH]; cbn; constructor; [|done].
    destruct (escape_plain b) eqn:E; [|done]. split; [done|]. intros ->. done.
Qed.

Lemma utf8_decode_valid raw :
  Forall is_byte raw -> utf8_valid raw -> utf8_decode raw = Some (of_bytes raw).
Proof. intros Hb Hv. by rewrite utf8_decode_scan, scan_valid. Qed.

Lemma utf8_decode_some raw s :
  Forall is_byte raw -> utf8_decode raw = Some s -> utf8_valid raw /\ s = of_bytes raw.
Proof.
  intros Hb. rewrite utf8_decode_scan by done. intros H.
  apply fmap_Some in H as (r & Hs & ->). split; [by apply (scan_valid_inv raw Hb [] 0 r)|].
  apply scan_id in Hs. cbn in Hs. rewrite map_map in Hs. cbn in Hs. rewrite map_id in Hs.
  by subst.
Qed.

Lemma unescape_render l : Forall tok_ok l -> unescape_bytes (render l) = map tok_val l.
Proof.
  induction 1 as [|t l Ht _ IH]; [done|]. unfold render in *. cbn [map concat].
  destruct t as [b|b]; cbn [render_tok app tok_val].
  - destruct Ht as [_ Hb]. apply Z.eqb_neq in Hb. cbn [unescape_bytes]. rewrite Hb, IH.
    destruct (concat (map render_tok l)) as [|h [|d l3]]; done.
  - cbn [unescape_bytes]. cbn in Ht. unfold is_byte in Ht.
    rewrite !hex_val_digit by (Z.to_euclidean_division_equations; lia). rewrite IH.
    change (37 =? 37) with true. f_equal. Z.to_euclidean_division_equations; lia.
Qed.
