(* ===== verification/Utf8.v ===== *)
(** * Text encoding (src/src/base1/cockpit.js)

    [cockpit.utf8_encoder] and [cockpit.utf8_decoder]: the streaming decoder
    scans the raw bytes for sequence boundaries and lets
    [decodeURIComponent(escape(...))] do the decoding.  Input is a raw string
    or array of bytes; text is represented by its UTF-8 bytes. *)

From S2P Require Import Prelude.
From S2P Require Import Uri.

(** ** The encoder *)

Definition utf8_encode (s : string) : list Z := unescape (encodeURIComponent s).

(** ** The decoder *)

Record decoder := mk_decoder { d_fatal : bool; d_buffer : option (list Z) }.

(** Sequence length the scanner derives from a leading byte. *)
Definition scan_len (p : Z) : nat :=
  if p =? 255 then 0
  else if (251 <? p) && (p <? 254) then 6
  else if (247 <? p) && (p <? 252) then 5
  else if (239 <? p) && (p <? 248) then 4
  else if (223 <? p) && (p <? 240) then 3
  else if (191 <? p) && (p <? 224) then 2
  else if p <? 128 then 1 else 0.

(** U+FFFD. *)
Definition replacement : string := of_bytes [239; 191; 189].

(** The scanning loop: [pre] is data[beg..i), [rest] is data[i..], [str] the
    text so far.  The result is the new buffer and the text, [None] when
    [decodeURIComponent] throws. *)
Fixpoint scan_loop (fuel : nat) (fatal stream : bool) (pre rest : list Z) (str : string)
    : option (list Z) * option string :=
  let flush (beg : list Z) := (s ← utf8_decode beg; Some (str +:+ s)) in
  match fuel, rest with
  | O, _ | _, [] => (None, flush pre)
  | S fuel, p :: tail =>
      let x := scan_len p in
      let fits := Nat.leb x (length rest) in
      if negb fits && stream then (Some rest, flush pre)
      else
        let ok := fits && negb (Nat.eqb x 0) &&
                  forallb (fun b => negb (Z.land b 128 =? 0)) (take (x - 1) tail) in
        if negb ok then
          if fatal then (None, flush (pre ++ rest))
          else
            match utf8_decode pre with
            | None => (None, None)
            | Some s => scan_loop fuel fatal stream [] tail (str +:+ s +:+ replacement)
            end
        else scan_loop fuel fatal stream (pre ++ take x rest) (drop x rest) str
  end.

(** [decode(data, { stream })]. *)
Definition decode (stream : bool) (data : list Z) (d : decoder) : decoder * option string :=
  let data := match d_buffer d with Some b => b ++ data | None => data end in
  let '(buffer, r) := scan_loop (S (length data)) (d_fatal d) stream [] data "" in
  (mk_decoder (d_fatal d) buffer, r).

(** A caller that decodes chunks as they arrive and finishes with an empty,
    non-streaming call; [None] as soon as one call throws. *)
Fixpoint decode_chunks (chunks : list (list Z)) (d : decoder) : option string :=
  match chunks with
  | [] => snd (decode false [] d)
  | c :: cs =>
      let '(d, r) := decode true c d in
      s ← r; t ← decode_chunks cs d; Some (s +:+ t)
  end.

(** ** Lemmas *)

Lemma utf8_encode_bytes s : utf8_encode s = bytes_of s.
Proof.
  unfold utf8_encode, unescape, encodeURIComponent.
  pose proof (enc_toks_ok _ (bytes_of_byte s)) as Hok.
  rewrite bytes_of_of by by apply render_byte. rewrite unescape_render by done.
  rewrite map_map, <- map_id. apply map_ext. intros b. unfold enc_tok. by case_match.
Qed.

Lemma high_bit b : 128 <= b < 256 -> Z.land b 128 =? 0 = false.
Proof.
  intros H. apply Z.eqb_neq. intros E.
  assert (Z.testbit (Z.land b 128) 7 = true) as Hb.
  { rewrite Z.land_spec. change (Z.testbit 128 7) with true. rewrite andb_true_r.
    rewrite Z.testbit_true by lia. change (2 ^ 7) with 128.
    Z.to_euclidean_division_equations; lia. }
  rewrite E in Hb. done.
Qed.

Lemma seq_ok_byte c : seq_ok c = true -> Forall is_byte c.
Proof.
  intros Hc. unfold is_byte.
  destruct c as [|x1 [|x2 [|x3 [|x4 [|x5 c]]]]]; try discriminate Hc;
    cbn [seq_ok] in Hc; unfold is_cont in Hc; rewrite ?andb_true_iff in Hc; destruct_and?;
    repeat constructor; lia.
Qed.

Lemma utf8_valid_byte l : utf8_valid l -> Forall is_byte l.
Proof. induction 1; [constructor|]. apply Forall_app; auto using seq_ok_byte. Qed.

(** What the scanner sees of one well-formed sequence. *)
Lemma seq_scan c : seq_ok c = true -> exists p tail,
  c = p :: tail /\ scan_len p = length c /\
  forallb (fun b => negb (Z.land b 128 =? 0)) tail = true.
Proof.
  intros Hc. destruct c as [|p tail]; [done|]. exists p, tail. split; [done|].
  destruct tail as [|x2 [|x3 [|x4 [|x5 c]]]]; try discriminate Hc;
    cbn [seq_ok] in Hc; unfold is_cont in Hc; rewrite ?andb_true_iff in Hc; destruct_and?;
    (split; [unfold scan_len; repeat (case_match; try lia); done|]);
    cbn [forallb]; rewrite ?high_bit by lia; done.
Qed.

Lemma forallb_take {A} (f : A -> bool) n l : forallb f l = true -> forallb f (take n l) = true.
Proof.
  revert l. induction n as [|n IH]; intros [|x l]; cbn; [done..|].
  intros H. apply andb_true_iff in H as [-> H]. by apply IH.
Qed.

(** The scanner steps over a well-formed sequence. *)
Lemma scan_loop_seq fuel fatal stream pre c rest str :
  seq_ok c = true ->
  scan_loop (S fuel) fatal stream pre (c ++ rest) str =
  scan_loop fuel fatal stream (pre ++ c) rest str.
Proof.
  intros Hc. destruct (seq_scan c Hc) as (p & tail & -> & Hx & Hhi).
  cbn [scan_loop app]. rewrite Hx. cbn [length] in *.
  rewrite (proj2 (Nat.leb_le _ _)) by (rewrite length_app; lia). cbn [negb andb Nat.eqb].
  replace (S (length tail) - 1)%nat with (length tail) by lia.
  rewrite take_app_length, Hhi. cbn [negb andb].
  cbn [take drop]. by rewrite take_app_length, drop_app_length.
Qed.

(** A non-empty strict prefix of a well-formed sequence. *)
Definition partial (p : list Z) : Prop :=
  exists q, q <> [] /\ seq_ok (p ++ q) = true.

Lemma scan_loop_partial fuel fatal pre p str :
  partial p -> p <> [] ->
  scan_loop (S fuel) fatal true pre p str = (Some p, (s ← utf8_decode pre; Some (str +:+ s))).
Proof.
  intros (q & Hq & Hok) Hp. destruct p as [|b p]; [done|].
  destruct (seq_scan _ Hok) as (b' & t & E & Hx & _). cbn [app] in E. injection E as <- <-.
  cbn [scan_loop]. rewrite Hx. cbn [length app]. rewrite length_app.
  destruct q; [done|]. rewrite (proj2 (Nat.leb_gt _ _)) by (cbn; lia). done.
Qed.

Lemma scan_loop_valid fatal stream v : utf8_valid v -> forall k fuel pre p str,
  (length v + k <= fuel)%nat -> exists fuel', (k <= fuel')%nat /\
  scan_loop fuel fatal stream pre (v ++ p) str = scan_loop fuel' fatal stream (pre ++ v) p str.
Proof.
  induction 1 as [|c v Hc _ IH]; intros k fuel pre p str Hf.
  - exists fuel. rewrite app_nil_r. split; [cbn in Hf; lia|done].
  - assert (0 < length c)%nat by (destruct c; [done|cbn; lia]).
    rewrite length_app in Hf. destruct fuel as [|fuel]; [lia|].
    rewrite <- app_assoc, scan_loop_seq by done.
    destruct (IH k fuel (pre ++ c) p str) as (f' & ? & E); [lia|].
    exists f'. split; [done|]. by rewrite E, <- app_assoc.
Qed.

Lemma split_valid l : utf8_valid l -> forall d r, l = d ++ r -> exists v p,
  d = v ++ p /\ utf8_valid v /\ (p = [] \/ p <> [] /\ partial p) /\ utf8_valid (p ++ r).
Proof.
  induction 1 as [|c l Hc Hl IH]; intros d r E.
  - symmetry in E. apply app_eq_nil in E as [-> ->]. exists [], []. repeat constructor; auto.
  - apply app_eq_inv in E as [(k & Ec & Er)|(k & Ed & El)].
    + destruct (decide (d = [])) as [->|Hd].
      { exists [], []. split; [done|split; [constructor|split; [by left|]]].
        cbn in *. subst. by constructor. }
      destruct (decide (k = [])) as [->|Hk].
      { exists d, []. rewrite app_nil_r in *. subst. cbn. split; [done|].
        split; [|split; [by left|done]].
        rewrite <- (app_nil_r d). apply utf8_seq; [done|constructor]. }
      exists [], d. split; [done|split; [constructor|split]].
      * right. split; [done|]. exists k. split; [done|]. by rewrite <- Ec.
      * subst r. rewrite app_assoc, <- Ec. by constructor.
    + destruct (IH k r El) as (v & p & -> & Hv & Hp & Hpr).
      exists (c ++ v), p. rewrite <- app_assoc. repeat (split; [done|]).
      split; [by constructor|done].
Qed.

(** One call on input that ends inside a sequence keeps the partial sequence
    and decodes what precedes it. *)
Lemma decode_prefix fatal stream v p :
  utf8_valid v -> p = [] \/ stream = true /\ p <> [] /\ partial p ->
  scan_loop (S (length (v ++ p))) fatal stream [] (v ++ p) "" =
  (match p with [] => None | _ => Some p end, Some (of_bytes v)).
Proof.
  intros Hv Hp.
  destruct (scan_loop_valid fatal stream v Hv 1 (S (length (v ++ p))) [] p "")
    as (f' & Hf & ->); [rewrite length_app; lia|].
  destruct f' as [|f']; [lia|]. cbn [app].
  pose proof (utf8_decode_valid v (utf8_valid_byte v Hv) Hv) as Hd.
  destruct Hp as [->|(-> & Hne & Hpart)].
  - cbn [scan_loop]. by rewrite Hd.
  - rewrite scan_loop_partial by done. rewrite Hd. by destruct p.
Qed.

Lemma decode_chunks_partial fatal chunks : forall p,
  p = [] \/ p <> [] /\ partial p -> utf8_valid (p ++ concat chunks) ->
  decode_chunks chunks (mk_decoder fatal (match p with [] => None | _ => Some p end)) =
  Some (of_bytes (p ++ concat chunks)).
Proof.
  assert (forall (p c : list Z), match match p with [] => None | _ => Some p end with
    | Some b => b ++ c | None => c end = p ++ c) as Hb by by intros [].
  induction chunks as [|c chunks IH]; intros p Hp Hv; cbn [decode_chunks concat] in *.
  - unfold decode. cbn [d_buffer d_fatal]. rewrite Hb. rewrite app_nil_r in *.
    rewrite <- (app_nil_r p) at 1 2. rewrite decode_prefix by auto. done.
  - rewrite app_assoc in Hv.
    destruct (split_valid _ Hv (p ++ c) (concat chunks)) as (v & q & E & Hvv & Hq & Hvr);
      [done|].
    unfold decode. cbn [d_buffer d_fatal]. rewrite Hb, E.
    rewrite decode_prefix; [|done|naive_solver].
    cbn [mbind option_bind]. rewrite IH by done. cbn. f_equal.
    rewrite <- of_bytes_app. f_equal. rewrite (app_assoc p), E. by rewrite <- app_assoc.
Qed.

(** ** Properties *)

(** C3. Streaming is transparent: however well-formed UTF-8 text is cut into
    chunks, even inside a character, decoding the chunks one by one and
    finishing with an empty call yields exactly the text, fatal mode or not. *)
Theorem decode_stream fatal chunks :
  utf8_valid (concat chunks) ->
  decode_chunks chunks (mk_decoder fatal None) = Some (of_bytes (concat chunks)).
Proof. intros Hv. by apply (decode_chunks_partial fatal chunks []); [left|]. Qed.

Lemma decode_stream_witness :
  decode_chunks [[226]; [130; 172; 120]; []; [195]; [169]] (mk_decoder true None) =
  Some (of_bytes [226; 130; 172; 120; 195; 169]).
Proof.
  apply (decode_stream true [[226]; [130; 172; 120]; []; [195]; [169]]). cbn.
  apply (utf8_seq [226; 130; 172]); [reflexivity|].
  apply (utf8_seq [120]); [reflexivity|].
  apply (utf8_seq [195; 169]); [reflexivity|constructor].
Defined.

Lemma scan_loop_fatal fuel : forall pre rest,
  (length rest < fuel)%nat ->
  snd (scan_loop fuel true false pre rest "") = utf8_decode (pre ++ rest).
Proof.
  assert (forall (o : option string), (s ← o; Some ("" +:+ s)) = o) as Hid by by intros [].
  induction fuel as [|fuel IH]; intros pre rest Hf; [lia|].
  destruct rest as [|p tail]; cbn [scan_loop].
  - cbn [snd]. by rewrite Hid, app_nil_r.
  - rewrite andb_false_r. destruct (negb _) eqn:Hok; [cbn [snd]; by rewrite Hid|].
    apply negb_false_iff in Hok. rewrite !andb_true_iff in Hok. destruct Hok as [[Hl Hx] _].
    rewrite IH.
    + by rewrite <- app_assoc, take_drop.
    + apply Nat.leb_le in Hl. apply negb_true_iff, Nat.eqb_neq in Hx.
      rewrite length_drop. lia.
Qed.

(** C4. A fatal decoder given everything at once accepts exactly well-formed
    UTF-8 and returns it unchanged; anything else throws. *)
Theorem decode_fatal data s :
  Forall is_byte data ->
  snd (decode false data (mk_decoder true None)) = Some s <->
  utf8_valid data /\ s = of_bytes data.
Proof.
  intros Hb. unfold decode. cbn [d_buffer d_fatal].
  pose proof (scan_loop_fatal (S (length data)) [] data (Nat.lt_succ_diag_r _)) as E.
  destruct (scan_loop _ _ _ _ _ _) as [b r]. cbn [snd app] in *. subst r. split.
  - by apply utf8_decode_some.
  - intros [Hv ->]. by apply utf8_decode_valid.
Qed.

Lemma decode_fatal_witness :
  snd (decode false [195; 195] (mk_decoder true None)) = Some "x" <->
  utf8_valid [195; 195] /\ "x" = of_bytes [195; 195].
Proof. apply (decode_fatal [195; 195] "x"). repeat constructor; discriminate. Defined.

(** A decoder that is not fatal still throws on some malformed input: the
    scanner accepts any byte above 127 as a continuation byte, and the lead
    byte of a second sequence then reaches [decodeURIComponent]. *)
Example decode_nonfatal_throws : snd (decode false [195; 195] (mk_decoder false None)) = None.
Proof. reflexivity. Qed.

Example decode_nonfatal_replaces :
  snd (decode false [120; 255; 121] (mk_decoder false None)) =
  Some ("x" +:+ replacement +:+ "y").
Proof. reflexivity. Qed.
