(* ===== verification/Location.v ===== *)
(** * Locations (src/src/base1/cockpit.js, [resolve_path_dots], [Location])

    A location is encoded in the hash of the window: percent-encoded path
    components and a query of options.  Paths may be relative to the current
    one and live under the url root.  The shell (src/pkg/shell/base_index.js)
    encodes its navigation state through the same functions. *)

From S2P Require Import Prelude.
From S2P Require Import Uri.

(** ** String operations *)

(** [s.split(c)] on bytes; never empty. *)
Fixpoint split_on (c : Z) (l : list Z) : list (list Z) :=
  match l with
  | [] => [[]]
  | x :: l =>
      if x =? c then [] :: split_on c l
      else match split_on c l with
           | p :: ps => (x :: p) :: ps
           | [] => [[x]]
           end
  end.

Fixpoint join_on (c : Z) (ps : list (list Z)) : list Z :=
  match ps with
  | [] => []
  | [p] => p
  | p :: ps => p ++ c :: join_on c ps
  end.

Definition str_split (c : Ascii.ascii) (s : string) : list string :=
  map of_bytes (split_on (ord c) (bytes_of s)).

(** *** Lines that may end in a carriage return *)

Definition cr_char : Ascii.ascii := "013"%char.

Fixpoint strip_cr (s : string) : string :=
  match s with
  | EmptyString => ""
  | String c EmptyString => if Ascii.eqb c cr_char then "" else s
  | String c s => String c (strip_cr s)
  end.

(** All elements but the last. *)
Fixpoint map_front {A} (f : A -> A) (l : list A) : list A :=
  match l with
  | [] => []
  | x :: l' => match l' with [] => [x] | _ => f x :: map_front f l' end
  end.

(** [split(/\r?\n/)]. *)
Definition split_crlf (s : string) : list string := map_front strip_cr (str_split nl_char s).

Fixpoint is_prefix (p l : list Z) : bool :=
  match p, l with
  | [], _ => true
  | _, [] => false
  | x :: p, y :: l => (x =? y) && is_prefix p l
  end.

(** [s.replace(pat, rep)] with a string pattern: the first occurrence. *)
Fixpoint replace_first (pat rep l : list Z) : list Z :=
  if is_prefix pat l then rep ++ drop (length pat) l
  else match l with [] => [] | x :: l => x :: replace_first pat rep l end.

(** [s.replace(/pat/g, rep)]; [skip] counts the rest of a replaced match. *)
Fixpoint replace_all (pat rep : list Z) (skip : nat) (l : list Z) : list Z :=
  match l with
  | [] => []
  | x :: l' =>
      match skip with
      | S k => replace_all pat rep k l'
      | O => if is_prefix pat l then rep ++ replace_all pat rep (length pat - 1) l'
             else x :: replace_all pat rep 0 l'
      end
  end.

(** [s.indexOf(pat)]; -1 when it is missing. *)
Fixpoint index_of (pat l : list Z) : Z :=
  if is_prefix pat l then 0
  else match l with
       | [] => -1
       | _ :: l => let i := index_of pat l in if i <? 0 then -1 else 1 + i
       end.

(** ** Paths *)

(** [resolve_path_dots]: [None] is [null]. *)
Fixpoint resolve_loop (parts out : list string) : option (list string) :=
  match parts with
  | [] => Some out
  | part :: parts =>
      if String.eqb part "" || String.eqb part "." then resolve_loop parts out
      else if String.eqb part ".." then
        match out with [] => None | _ => resolve_loop parts (removelast out) end
      else resolve_loop parts (out ++ [part])
  end.

Definition resolve_path_dots (parts : list string) : option (list string) := resolve_loop parts [].

(** ** Location *)

Abbreviation options := (list (string * jval)).

(** [map(decodeURIComponent)]: [None] when one of them throws. *)
Definition decode_all (l : list string) : option (list string) := mapM decodeURIComponent l.

(** How many leading elements of [pre] agree with [result]. *)
Fixpoint common (pre result : list string) : nat :=
  match pre, result with
  | x :: pre, y :: result => if String.eqb x y then S (common pre result) else O
  | _, _ => O
  end.

(** [decode_path]; [root] is [url_root], [path] the current path.  [None] is
    an exception: a malformed escape, or leaving the root. *)
Definition decode_path (root : string) (path : list string) (input : string)
    : option (list string) :=
  parts ← decode_all (str_split "/" input);
  pre_parts ← (if String.eqb root "" then Some [] else decode_all (str_split "/" root));
  let result :=
    match input with
    | String c _ => if Ascii.eqb c "/" then parts else removelast path ++ parts
    | EmptyString => parts
    end in
  result ← resolve_path_dots result;
  Some (if Nat.eqb (common pre_parts result) (length pre_parts)
        then drop (length pre_parts) result else result).

(** The argument of [encode]: a string is decoded first. *)
Inductive path_arg := PathString (s : string) | PathList (l : list string).

Definition undo_encoding (href : string) : string :=
  let l := bytes_of href in
  let l := replace_first (bytes_of "%40") (bytes_of "@") l in
  let l := replace_first (bytes_of "%3D") (bytes_of "=") l in
  of_bytes (replace_all (bytes_of "%2B") (bytes_of "+") 0 l).

(** The query entries of one option. *)
Definition option_entries (o : string * jval) : list string :=
  let '(opt, value) := o in
  map (fun v => encodeURIComponent opt +:+ "=" +:+ encodeURIComponent (js_String v))
      (match value with JArr l => l | v => [v] end).

Definition path_href (path : list string) : string :=
  "/" +:+ str_join "/" (map encodeURIComponent path).

Definition encode (root : string) (cur : list string) (path : path_arg)
    (opts : option options) (with_root : bool) : option string :=
  path ← (match path with PathString s => decode_path root cur s | PathList l => Some l end);
  let href := path_href path in
  (* href.indexOf("/" + self.url_root + "/" !== 0): the comparison is inside
     the call, so the argument is the text of [true] *)
  let href :=
    if with_root && negb (String.eqb root "") &&
       negb (index_of (bytes_of "true") (bytes_of href) =? 0)
    then "/" +:+ root +:+ href else href in
  let href := undo_encoding href in
  let query := match opts with None => [] | Some o => concat (map option_entries o) end in
  Some (match query with [] => href | _ => href +:+ "?" +:+ str_join "&" query end).

(** One entry of the query. *)
Definition decode_option (o : options) (opt : string) : option options :=
  let parts := str_split "=" opt in
  name ← decodeURIComponent (default "undefined" (parts !! 0%nat));
  value ← decodeURIComponent (default "undefined" (parts !! 1%nat));
  Some (match assoc_get name o with
        | Some last => assoc_set name (JArr [last; JStr value]) o
        | None => assoc_set name (JStr value) o
        end).

Fixpoint decode_options (o : options) (opts : list string) : option options :=
  match opts with
  | [] => Some o
  | opt :: opts => o ← decode_option o opt; decode_options o opts
  end.

(** [decode(href, options)]: the path and the options with the query's entries
    added to [opts]; [None] options when none were passed. *)
Definition decode (root : string) (cur : list string) (href : string) (opts : option options)
    : option (list string * option options) :=
  let href := match href with String c s => if Ascii.eqb c "#" then s else href | _ => href end in
  match str_cut "?" href with
  | None => path ← decode_path root cur href; Some (path, opts)
  | Some (first, query) =>
      path ← decode_path root cur first;
      match opts with
      | None => Some (path, None)
      | Some o => o ← decode_options o (str_split "&" query); Some (path, Some o)
      end
  end.

Record location := mk_location {
  l_root : string; l_path : list string; l_options : options; l_href : string }.

(** The constructor; [application] is [cockpit.transport.application()], which
    adds to the url root when it names a cockpit+= application. *)
Definition location_root (url_root application : string) : string :=
  if is_prefix (bytes_of "cockpit+=") (bytes_of application) then
    (if String.eqb url_root "" then "" else url_root +:+ "/") +:+
    of_bytes (replace_first (bytes_of "cockpit+") [] (bytes_of application))
  else url_root.

Definition new_location (url_root application hash : string) : option location :=
  let root := location_root url_root application in
  r ← decode root [] hash (Some []);
  Some (mk_location root (fst r) (default [] (snd r)) hash).

(** *** Navigation: the window hash and the cached location *)

Record nav := mk_nav {
  n_hash : string; n_last : option (nat * location); n_next : nat; n_url_root : string;
  n_application : string }.

#[export] Instance nav_settable : Settable nav := fun n =>
  mk_nav (n_hash n) (n_last n) (n_next n) (n_url_root n) (n_application n).

(** [cockpit.location]: a new object when the hash has changed. *)
Definition get_location (n : nav) : option (nav * (nat * location)) :=
  let fresh :=
    l ← new_location (n_url_root n) (n_application n) (n_hash n);
    Some (n <| n_last := Some (n_next n, l) |> <| n_next ::= S |>, (n_next n, l)) in
  match n_last n with
  | Some (i, l) => if String.eqb (l_href l) (n_hash n) then Some (n, (i, l)) else fresh
  | None => fresh
  end.

Inductive go_arg :=
  | GoLocation (l : location)
  | GoString (s : string) (opts : options)
  | GoPath (p : list string) (opts : option options) (with_root : bool).

Definition href_for_go_or_replace (self : location) (a : go_arg) : option string :=
  match a with
  | GoLocation l => Some (l_href l)
  | GoString s o =>
      r ← decode (l_root self) (l_path self) s (Some o);
      encode (l_root self) (l_path self) (PathList (fst r)) (snd r) false
  | GoPath p o r => encode (l_root self) (l_path self) (PathList p) o r
  end.

(** [go] and [replace] of a location that is no longer the current one do
    nothing; both set the hash. *)
Definition go (self : nat * location) (a : go_arg) (n : nav) : option nav :=
  match n_last n with
  | Some (i, _) =>
      if Nat.eqb i (fst self)
      then h ← href_for_go_or_replace (snd self) a; Some (n <| n_hash := h |>)
      else Some n
  | None => Some n
  end.

(** The hashchange event. *)
Definition on_hashchange (n : nav) : nav := n <| n_last := None |>.

(** *** The shell's navigation state *)

Record nav_state := mk_state {
  s_host : string; s_component : string; s_hash : string; s_sidebar : bool }.

Definition encode_state (root : string) (cur : list string) (s : nav_state)
    (sidebar with_root : bool) : option string :=
  let path :=
    (if negb (String.eqb (s_host s) "") && (sidebar || negb (String.eqb (s_host s) "localhost"))
     then ["@" +:+ s_host s] else []) ++
    (if String.eqb (s_component s) "" then [] else str_split "/" (s_component s)) in
  string ← encode root cur (PathList path) None with_root;
  Some (if negb (String.eqb (s_hash s) "") && negb (String.eqb (s_hash s) "/")
        then string +:+ "#" +:+ s_hash s else string).

Definition decode_state (root : string) (cur : list string) (str : string) : option nav_state :=
  let '(str, hash) := match str_cut "#" str with
                      | Some (a, b) => (a, b)
                      | None => (str, "")
                      end in
  let str := match str with
             | String c _ => if Ascii.eqb c "/" then str else "/" +:+ str
             | EmptyString => "/"
             end in
  r ← decode root cur str None;
  let path := fst r in
  let '(host, sidebar, path) :=
    match path with
    | String c h :: rest => if Ascii.eqb c "@" then (h, true, rest) else ("localhost", false, path)
    | _ => ("localhost", false, path)
    end in
  let path := match last path with
              | Some p => if String.eqb p "index" then removelast path else path
              | None => path
              end in
  Some (mk_state host (str_join "/" path) hash sidebar).
