(* ===== verification/LocationSpec.v ===== *)
(** * Round trips of locations

    What [Location.encode] writes, [Location.decode] reads back: proved on
    token lists, where a percent escape is one element, and carried over to
    strings by [render]. *)

From S2P Require Import Prelude.
From S2P Require Import Uri.
From S2P Require Import Location.

(** ** Splitting *)

Lemma split_on_nonempty c l : split_on c l <> [].
Proof. destruct l as [|x l]; cbn; [done|]. repeat case_match; done. Qed.

Lemma split_on_plain c p : c ∉ p -> split_on c p = [p].
Proof.
  induction p as [|x p IH]; cbn; [done|]. intros Hn. apply not_elem_of_cons in Hn as [Hx Hp].
  rewrite (proj2 (Z.eqb_neq x c)) by congruence. by rewrite IH.
Qed.

Lemma split_on_cons c p l : c ∉ p -> split_on c (p ++ c :: l) = p :: split_on c l.
Proof.
  induction p as [|x p IH]; cbn; intros Hn; [by rewrite Z.eqb_refl|].
  apply not_elem_of_cons in Hn as [Hx Hp].
  rewrite (proj2 (Z.eqb_neq x c)) by congruence. by rewrite IH.
Qed.

Lemma split_join c ps : ps <> [] -> Forall (fun p => c ∉ p) ps -> split_on c (join_on c ps) = ps.
Proof.
  intros Hne H. induction H as [|p ps Hp Hps IH]; [done|].
  destruct ps as [|q ps]; [by apply split_on_plain|].
  change (join_on c (p :: q :: ps)) with (p ++ c :: join_on c (q :: ps)).
  rewrite split_on_cons by done. by rewrite IH.
Qed.

Lemma bytes_of_join (c : Ascii.ascii) (l : list string) :
  bytes_of (str_join (String c "") l) = join_on (ord c) (map bytes_of l).
Proof.
  induction l as [|s [|s' l] IH]; [done..|].
  change (str_join (String c "") (s :: s' :: l))
    with (s +:+ String c "" +:+ str_join (String c "") (s' :: l)).
  rewrite !bytes_of_app, IH. done.
Qed.

Lemma map_of_bytes l : map of_bytes (map bytes_of l) = l.
Proof. rewrite map_map, <- map_id. apply map_ext, of_bytes_of. Qed.

(** Splitting a joined list at a separator none of the parts contains. *)
Lemma str_split_join (c : Ascii.ascii) l :
  l <> [] -> Forall (fun s => ord c ∉ bytes_of s) l ->
  str_split c (str_join (String c "") l) = l.
Proof.
  intros Hne H. unfold str_split. rewrite bytes_of_join, split_join.
  - apply map_of_bytes.
  - by destruct l.
  - by apply Forall_map.
Qed.

Lemma str_mem_bytes c s : str_mem c s = true <-> ord c ∈ bytes_of s.
Proof.
  induction s as [|a s IH]; cbn; [by rewrite elem_of_nil|].
  rewrite orb_true_iff, elem_of_cons, IH, Ascii.eqb_eq. split.
  - intros [->|]; auto.
  - intros [H|]; [left; symmetry; by apply ord_inj|auto].
Qed.

Lemma str_mem_not c s : ord c ∉ bytes_of s -> str_mem c s = false.
Proof. intros H. destruct (str_mem c s) eqn:E; [by apply str_mem_bytes in E|done]. Qed.

(** The part before the first separator comes first. *)
Lemma split_first c line rest : str_mem c line = false ->
  exists y l, str_split c (line +:+ String c rest) = line :: y :: l.
Proof.
  intros H. unfold str_split. rewrite bytes_of_app. cbn [bytes_of]. rewrite split_on_cons.
  - destruct (split_on (ord c) (bytes_of rest)) as [|y l] eqn:E; [by apply split_on_nonempty in E|].
    cbn. rewrite of_bytes_of. by eexists _, _.
  - intros Hin%str_mem_bytes. congruence.
Qed.

Lemma str_cut_none c s : str_mem c s = false -> str_cut c s = None.
Proof.
  induction s as [|a s IH]; cbn; [done|]. intros H. apply orb_false_iff in H as [-> H].
  by rewrite IH.
Qed.

(** ** Tokens of a location *)

(** Replacing an escape by the character it stands for. *)
Definition undone (t u : tok) : Prop :=
  t = u \/ exists b, (b = 64 \/ b = 61 \/ b = 43) /\ t = Raw b /\ u = Esc b.

Lemma undone_sim l l' : Forall2 undone l l' -> Forall2 tok_sim l l'.
Proof.
  induction 1 as [|t u l l' H _ IH]; constructor; [|done]. unfold tok_sim.
  destruct H as [->|(b & Hb & -> & ->)]; cbn; [auto|]. split; [done|]. right. lia.
Qed.

Lemma undone_ok l l' : Forall2 undone l l' -> Forall tok_ok l' -> Forall tok_ok l.
Proof.
  induction 1 as [|t u l l' H _ IH]; [done|]. intros Hok.
  apply Forall_cons in Hok as [Hu Hok]. constructor; [|auto].
  destruct H as [->|(b & Hb & -> & ->)]; [done|]. cbn. unfold is_byte. lia.
Qed.

Lemma undone_trans x y z : Forall2 undone x y -> Forall2 undone y z -> Forall2 undone x z.
Proof.
  intros H. revert z. induction H as [|t u l l' Hu _ IH]; intros z Hz;
    inversion Hz as [|? v ? z' Hv Hz']; subst; constructor; [|auto].
  destruct Hu as [->|(b & ? & -> & ->)]; [done|].
  destruct Hv as [<-|(b' & ? & ? & ?)]; [|done]. right. eauto.
Qed.

Lemma undone_refl l : Forall2 undone l l.
Proof. induction l; constructor; [by left|done]. Qed.

Lemma hex_not_pct n : 0 <= n < 16 -> hex_digit n <> 37.
Proof. unfold hex_digit. intros. case_match; lia. Qed.

Lemma hex_inj m n : 0 <= m < 16 -> 0 <= n < 16 -> hex_digit m = hex_digit n -> m = n.
Proof. unfold hex_digit. intros. repeat case_match; lia. Qed.

Lemma hex_parts b : is_byte b -> 0 <= b / 16 < 16 /\ 0 <= b mod 16 < 16.
Proof. unfold is_byte. intros. Z.to_euclidean_division_equations; lia. Qed.

(** An escape is where its rendering occurs. *)
Lemma prefix_esc e t l :
  is_byte e -> tok_ok t ->
  is_prefix (render_tok (Esc e)) (render_tok t ++ l) = bool_decide (t = Esc e).
Proof.
  intros He Ht. destruct t as [b|b]; cbn [render_tok app is_prefix].
  - rewrite bool_decide_eq_false_2 by done. destruct Ht as [_ Hb].
    by rewrite (proj2 (Z.eqb_neq 37 b)) by congruence.
  - cbn in Ht. destruct (hex_parts e He), (hex_parts b Ht). rewrite Z.eqb_refl. cbn [andb].
    rewrite andb_true_r. apply eq_bool_prop_intro. rewrite Is_true_true, Is_true_true.
    rewrite andb_true_iff, !Z.eqb_eq, bool_decide_eq_true. split.
    + intros [Hx Hy]. apply hex_inj in Hx; [|done..]. apply hex_inj in Hy; [|done..]. f_equal.
      unfold is_byte in *. Z.to_euclidean_division_equations; lia.
    + intros [= ->]. done.
Qed.

Lemma prefix_pct_ne e x l : x <> 37 -> is_prefix (render_tok (Esc e)) (x :: l) = false.
Proof. intros H. cbn [render_tok is_prefix]. by rewrite (proj2 (Z.eqb_neq 37 x)) by congruence. Qed.

Lemma replace_first_cons pat rep x l :
  replace_first pat rep (x :: l) =
  if is_prefix pat (x :: l) then rep ++ drop (length pat) (x :: l)
  else x :: replace_first pat rep l.
Proof. done. Qed.

Lemma replace_first_skip e rep x l :
  x <> 37 -> replace_first (render_tok (Esc e)) rep (x :: l) =
  x :: replace_first (render_tok (Esc e)) rep l.
Proof. intros H. cbn [replace_first]. by rewrite prefix_pct_ne. Qed.

Definition undoable (e : Z) : Prop := e = 64 \/ e = 61 \/ e = 43.

Lemma undoable_byte e : undoable e -> is_byte e.
Proof. unfold undoable, is_byte. lia. Qed.

Lemma replace_first_render e l :
  undoable e -> Forall tok_ok l -> exists l',
  replace_first (render_tok (Esc e)) [e] (render l) = render l' /\ Forall2 undone l' l.
Proof.
  intros He. pose proof (undoable_byte e He) as Hb.
  induction 1 as [|t l Ht Hl (l' & IH & Hu)].
  - exists []. split; [done|constructor].
  - unfold render in *. cbn [map concat].
    destruct (decide (t = Esc e)) as [->|Hne].
    + exists (Raw e :: l). split; [|constructor; [right; eauto|apply undone_refl]].
      pose proof (prefix_esc e (Esc e) (concat (map render_tok l)) Hb Ht) as Hp.
      rewrite bool_decide_eq_true_2 in Hp by done. cbn [render_tok app] in *.
      rewrite replace_first_cons, Hp. done.
    + exists (t :: l'). split; [|constructor; [by left|done]]. cbn [map concat]. rewrite <- IH.
      pose proof (prefix_esc e t (concat (map render_tok l)) Hb Ht) as Hp.
      rewrite bool_decide_eq_false_2 in Hp by done.
      destruct t as [b|b]; cbn [render_tok app] in *.
      * by rewrite (replace_first_skip e) by by destruct Ht.
      * cbn in Ht. destruct (hex_parts b Ht). rewrite replace_first_cons, Hp.
        f_equal. rewrite !(replace_first_skip e) by by apply hex_not_pct. done.
Qed.

Lemma replace_all_cons pat rep x l :
  replace_all pat rep 0 (x :: l) =
  if is_prefix pat (x :: l) then rep ++ replace_all pat rep (length pat - 1) l
  else x :: replace_all pat rep 0 l.
Proof. done. Qed.

Lemma replace_all_skip e rep x l :
  x <> 37 -> replace_all (render_tok (Esc e)) rep 0 (x :: l) =
  x :: replace_all (render_tok (Esc e)) rep 0 l.
Proof. intros H. cbn [replace_all]. by rewrite prefix_pct_ne. Qed.

Lemma replace_all_render e l :
  undoable e -> Forall tok_ok l -> exists l',
  replace_all (render_tok (Esc e)) [e] 0 (render l) = render l' /\ Forall2 undone l' l.
Proof.
  intros He. pose proof (undoable_byte e He) as Hb.
  induction 1 as [|t l Ht Hl (l' & IH & Hu)].
  - exists []. split; [done|constructor].
  - unfold render in *. cbn [map concat].
    pose proof (prefix_esc e t (concat (map render_tok l)) Hb Ht) as Hp.
    destruct (decide (t = Esc e)) as [->|Hne].
    + exists (Raw e :: l'). split; [|constructor; [right; eauto|done]].
      rewrite bool_decide_eq_true_2 in Hp by done. cbn [map concat]. rewrite <- IH.
      cbn [render_tok app] in *. rewrite replace_all_cons, Hp. done.
    + exists (t :: l'). split; [|constructor; [by left|done]]. cbn [map concat]. rewrite <- IH.
      rewrite bool_decide_eq_false_2 in Hp by done.
      destruct t as [b|b]; cbn [render_tok app] in *.
      * by rewrite (replace_all_skip e) by by destruct Ht.
      * cbn in Ht. destruct (hex_parts b Ht). rewrite replace_all_cons, Hp.
        f_equal. rewrite !(replace_all_skip e) by by apply hex_not_pct. done.
Qed.

(** The three replacements only turn escapes into characters. *)
Lemma undo_encoding_render l :
  Forall tok_ok l -> exists l',
  undo_encoding (of_bytes (render l)) = of_bytes (render l') /\ Forall2 undone l' l.
Proof.
  intros Hl. unfold undo_encoding. rewrite bytes_of_of by by apply render_byte.
  change (bytes_of "%40") with (render_tok (Esc 64)).
  change (bytes_of "%3D") with (render_tok (Esc 61)).
  change (bytes_of "%2B") with (render_tok (Esc 43)).
  change (bytes_of "@") with [64]. change (bytes_of "=") with [61].
  change (bytes_of "+") with [43].
  destruct (replace_first_render 64 l) as (l1 & -> & U1); [unfold undoable; lia|done|].
  assert (Forall tok_ok l1) by by eapply undone_ok.
  destruct (replace_first_render 61 l1) as (l2 & -> & U2); [unfold undoable; lia|done|].
  assert (Forall tok_ok l2) by by eapply undone_ok.
  destruct (replace_all_render 43 l2) as (l3 & -> & U3); [unfold undoable; lia|done|].
  exists l3. split; [done|]. eauto using undone_trans.
Qed.

(** ** Splitting tokens *)

Fixpoint tsplit (c : Z) (l : list tok) : list (list tok) :=
  match l with
  | [] => [[]]
  | t :: l =>
      if bool_decide (t = Raw c) then [] :: tsplit c l
      else match tsplit c l with
           | p :: ps => (t :: p) :: ps
           | [] => [[t]]
           end
  end.

(** Separators that no escape contains. *)
Definition separator (c : Z) : Prop := c <> 37 /\ forall n, 0 <= n < 16 -> hex_digit n <> c.

Lemma separator_47 : separator 47.
Proof. split; [lia|]. intros n. unfold hex_digit. case_match; lia. Qed.
Lemma separator_63 : separator 63.
Proof. split; [lia|]. intros n. unfold hex_digit. case_match; lia. Qed.
Lemma separator_35 : separator 35.
Proof. split; [lia|]. intros n. unfold hex_digit. case_match; lia. Qed.

Lemma split_render c l :
  separator c -> Forall tok_ok l -> split_on c (render l) = map render (tsplit c l).
Proof.
  intros [H37 Hh]. induction 1 as [|t l Ht _ IH]; [done|].
  unfold render in *. cbn [map concat tsplit].
  destruct t as [b|b]; cbn [render_tok app split_on].
  - case_bool_decide as E.
    + injection E as ->. rewrite Z.eqb_refl. cbn. by rewrite IH.
    + rewrite (proj2 (Z.eqb_neq b c)) by congruence. rewrite IH.
      destruct (tsplit c l) eqn:Es; [|done].
      by pose proof (split_on_nonempty c (concat (map render_tok l))) as Hn; rewrite IH in Hn.
  - cbn in Ht. destruct (hex_parts b Ht). rewrite bool_decide_eq_false_2 by done.
    rewrite (proj2 (Z.eqb_neq 37 c)), !(proj2 (Z.eqb_neq (hex_digit _) c))
      by (congruence || by apply Hh). rewrite IH.
    destruct (tsplit c l) eqn:Es; [|done].
    by pose proof (split_on_nonempty c (concat (map render_tok l))) as Hn; rewrite IH in Hn.
Qed.

Lemma render_sep c l :
  separator c -> Forall tok_ok l -> Raw c ∉ l -> c ∉ render l.
Proof.
  intros [H37 Hh] H Hn. unfold render. induction H as [|t l Ht _ IH]; cbn; [apply not_elem_of_nil|].
  apply not_elem_of_cons in Hn as [Hne Hn]. rewrite elem_of_app. intros [Hin|Hin]; [|by apply IH].
  destruct t as [b|b]; cbn in Hin.
  - apply list_elem_of_singleton in Hin. congruence.
  - cbn in Ht. destruct (hex_parts b Ht) as [Ha Hb]. rewrite !elem_of_cons, elem_of_nil in Hin.
    destruct Hin as [->|[E|[E|[]]]];
      [done|exact (Hh _ Ha (eq_sym E))|exact (Hh _ Hb (eq_sym E))].
Qed.

Lemma tsplit_undone c l l' :
  c <> 64 -> c <> 61 -> c <> 43 -> Forall2 undone l l' ->
  Forall2 (Forall2 undone) (tsplit c l) (tsplit c l').
Proof.
  intros H1 H2 H3. induction 1 as [|t u l l' Hu Hl IH]; cbn [tsplit].
  - repeat constructor.
  - destruct Hu as [->|(b & Hb & -> & ->)].
    + case_bool_decide; [constructor; [constructor|done]|].
      destruct IH; (constructor; [constructor; [by left|try done; constructor]|try done; constructor]).
    + rewrite !bool_decide_eq_false_2 by (intros [=]; lia).
      destruct IH; (constructor; [constructor; [right; by exists b|try done; constructor]|
        try done; constructor]).
Qed.

Lemma undone_raw c l l' :
  c <> 64 -> c <> 61 -> c <> 43 -> Forall2 undone l l' -> Raw c ∉ l' -> Raw c ∉ l.
Proof.
  intros H1 H2 H3. induction 1 as [|t u l l' Hu Hl IH]; [done|].
  rewrite !not_elem_of_cons. intros [Hu' Hn]. split; [|auto].
  destruct Hu as [->|(b & Hb & -> & ->)]; [done|]. intros [= ->]. lia.
Qed.

Lemma tsplit_cons c p l : Raw c ∉ p -> tsplit c (p ++ Raw c :: l) = p :: tsplit c l.
Proof.
  induction p as [|t p IH]; cbn [app tsplit]; intros Hn.
  - by rewrite bool_decide_eq_true_2.
  - apply not_elem_of_cons in Hn as [Ht Hn]. rewrite bool_decide_eq_false_2 by congruence.
    by rewrite IH.
Qed.

Lemma tsplit_plain c p : Raw c ∉ p -> tsplit c p = [p].
Proof.
  induction p as [|t p IH]; cbn [tsplit]; intros Hn; [done|].
  apply not_elem_of_cons in Hn as [Ht Hn]. rewrite bool_decide_eq_false_2 by congruence.
  by rewrite IH.
Qed.

(** ** Encoded paths *)

Definition enc_toks (s : string) : list tok := map enc_tok (bytes_of s).

Fixpoint tjoin (ps : list (list tok)) : list tok :=
  match ps with
  | [] => []
  | [p] => p
  | p :: ps => p ++ Raw 47 :: tjoin ps
  end.

Definition path_toks (path : list string) : list tok := Raw 47 :: tjoin (map enc_toks path).

Lemma enc_toks_raw c s : uri_unreserved c = false -> Raw c ∉ enc_toks s.
Proof.
  intros Hc Hin. apply list_elem_of_fmap in Hin as (b & E & _). unfold enc_tok in E.
  destruct (uri_unreserved b) eqn:Eb; [|done]. injection E as ->. congruence.
Qed.

Lemma path_toks_ok path : Forall tok_ok (path_toks path).
Proof.
  constructor; [cbn; unfold is_byte; lia|].
  assert (forall s, Forall tok_ok (enc_toks s)) as He.
  { intros s. apply enc_toks_ok, bytes_of_byte. }
  induction path as [|p [|q path] IH]; cbn [map tjoin]; [constructor|done|].
  apply Forall_app. split; [done|]. constructor; [cbn; unfold is_byte; lia|done].
Qed.

Lemma path_toks_raw c path : uri_unreserved c = false -> c <> 47 -> Raw c ∉ path_toks path.
Proof.
  intros Hc H47. unfold path_toks. apply not_elem_of_cons. split; [congruence|].
  induction path as [|p [|q path] IH]; cbn [map tjoin].
  - apply not_elem_of_nil.
  - by apply enc_toks_raw.
  - rewrite elem_of_app, elem_of_cons. intros [H|[H|H]]; [|congruence|by apply IH].
    by eapply enc_toks_raw.
Qed.

Lemma path_toks_split path : tsplit 47 (path_toks path) =
  [] :: match path with [] => [[]] | _ => map enc_toks path end.
Proof.
  unfold path_toks. etransitivity; [apply (tsplit_cons 47 []), not_elem_of_nil|]. f_equal.
  induction path as [|p [|q path] IH]; [done|..].
  - cbn. apply tsplit_plain. by apply enc_toks_raw.
  - change (tjoin (map enc_toks (p :: q :: path)))
      with (enc_toks p ++ Raw 47 :: tjoin (map enc_toks (q :: path))).
    rewrite tsplit_cons by by apply enc_toks_raw. by rewrite IH.
Qed.

Lemma path_href_render path : path_href path = of_bytes (render (path_toks path)).
Proof.
  unfold path_href, path_toks.
  change (render (Raw 47 :: tjoin (map enc_toks path)))
    with ([47] ++ render (tjoin (map enc_toks path))).
  rewrite of_bytes_app. f_equal.
  induction path as [|p [|q path] IH]; [done|done|].
  change (tjoin (map enc_toks (p :: q :: path)))
    with (enc_toks p ++ Raw 47 :: tjoin (map enc_toks (q :: path))).
  rewrite render_app, of_bytes_app.
  change (render (Raw 47 :: tjoin (map enc_toks (q :: path))))
    with ([47] ++ render (tjoin (map enc_toks (q :: path)))).
  rewrite of_bytes_app, <- IH. done.
Qed.

(** A path component that survives: not empty, not a dot, and real text. *)
Definition component (s : string) : Prop :=
  s <> "" /\ s <> "." /\ s <> ".." /\ utf8_valid (bytes_of s).

Lemma resolve_components path : Forall component path -> forall out,
  resolve_loop path out = Some (out ++ path).
Proof.
  induction 1 as [|s path (H1 & H2 & H3 & _) _ IH]; intros out; cbn [resolve_loop].
  - by rewrite app_nil_r.
  - rewrite !(proj2 (String.eqb_neq _ _)) by done. cbn [orb]. by rewrite IH, <- app_assoc.
Qed.

Lemma decode_undone l s :
  Forall2 undone l (enc_toks s) -> utf8_valid (bytes_of s) ->
  decodeURIComponent (of_bytes (render l)) = Some s.
Proof.
  intros Hu Hv.
  assert (Forall tok_ok (enc_toks s)) by apply enc_toks_ok, bytes_of_byte.
  rewrite decode_render by by eapply undone_ok.
  rewrite (scan_sim _ _ (undone_sim _ _ Hu)).
  unfold enc_toks. rewrite (scan_sim _ _ (enc_toks_sim _)), scan_valid by done. cbn.
  by rewrite of_bytes_of.
Qed.

Lemma decode_components l path :
  Forall2 (Forall2 undone) l (map enc_toks path) ->
  Forall (fun s => utf8_valid (bytes_of s)) path ->
  decode_all (map of_bytes (map render l)) = Some path.
Proof.
  revert l. induction path as [|s path IH]; intros l Hl Hv; cbn in Hl;
    inversion Hl; subst; [done|].
  apply Forall_cons in Hv as [Hs Hv]. unfold decode_all. cbn.
  rewrite (decode_undone _ s) by done. cbn.
  match goal with H : Forall2 _ ?l0 _ |- _ => specialize (IH _ H Hv) end.
  unfold decode_all in IH. by rewrite IH.
Qed.

(** The path part of an encoded location, and what it decodes to. *)
Lemma encoded_path path :
  Forall component path -> exists l,
  undo_encoding (path_href path) = of_bytes (render (Raw 47 :: l)) /\
  (forall c, separator c -> uri_unreserved c = false -> c <> 47 -> c <> 64 -> c <> 61 -> c <> 43 ->
    c ∉ render (Raw 47 :: l)) /\ Forall is_byte (render (Raw 47 :: l)) /\
  forall cur, decode_path "" cur (undo_encoding (path_href path)) = Some path.
Proof.
  intros Hc. rewrite path_href_render.
  destruct (undo_encoding_render _ (path_toks_ok path)) as (l' & -> & Hu).
  pose proof (undone_ok _ _ Hu (path_toks_ok path)) as Hok.
  inversion Hu as [|t u l l2 Ht Hl]; subst.
  assert (t = Raw 47) as -> by (destruct Ht as [|(b & ? & ? & ?)]; [done|congruence]).
  exists l. split; [done|]. split; [|split; [by apply render_byte|]].
  - intros c Hs Hr H1 H2 H3 H4. apply render_sep; [done|done|].
    eapply undone_raw; [done..|]. by apply path_toks_raw.
  - intros cur. unfold decode_path. unfold str_split.
    rewrite bytes_of_of by by apply render_byte.
    change (ord "/") with 47. rewrite split_render by (done || apply separator_47).
    assert (decode_all (map of_bytes (map render (tsplit 47 (Raw 47 :: l)))) =
      Some ("" :: match path with [] => [""] | _ => path end)) as ->.
    { apply decode_components.
      - pose proof (tsplit_undone 47 (Raw 47 :: l) (path_toks path)) as Hsp.
        rewrite path_toks_split in Hsp. assert (map enc_toks
          ("" :: match path with [] => [""] | _ :: _ => path end) =
          [] :: match path with [] => [[]] | _ :: _ => map enc_toks path end) as ->
          by by destruct path.
        apply Hsp; done.
      - constructor; [constructor|]. destruct path as [|p path]; [repeat constructor|].
        eapply Forall_impl; [done|]. by intros s (_ & _ & _ & ?). }
    cbn [mbind option_bind String.eqb]. change (of_bytes (render (Raw 47 :: l)))
      with (String "/" (of_bytes (render l))). cbv iota beta.
    change (Ascii.eqb "/" "/") with true. cbv iota.
    assert (resolve_path_dots ("" :: match path with [] => [""] | _ => path end) = Some path) as ->.
    { unfold resolve_path_dots. cbn [resolve_loop].
      change (("" =? "")%string) with true. cbn [orb]. destruct path as [|p path]; [done|].
      by rewrite resolve_components. }
    done.
Qed.

(** ** Encoded options *)

Definition option_entry (o : string * string) : string :=
  encodeURIComponent o.1 +:+ "=" +:+ encodeURIComponent o.2.

Definition string_options (o : list (string * string)) : options :=
  map (fun o => (o.1, JStr o.2)) o.

Lemma string_entries o : concat (map option_entries (string_options o)) = map option_entry o.
Proof. induction o as [|[k v] o IH]; cbn; [done|]. f_equal; exact IH. Qed.

Lemma separator_61 : separator 61.
Proof. split; [lia|]. intros n. unfold hex_digit. case_match; lia. Qed.
Lemma separator_38 : separator 38.
Proof. split; [lia|]. intros n. unfold hex_digit. case_match; lia. Qed.

Lemma encoded_sep c s : separator c -> uri_unreserved c = false ->
  c ∉ bytes_of (encodeURIComponent s).
Proof.
  intros Hs Hu. unfold encodeURIComponent.
  pose proof (enc_toks_ok _ (bytes_of_byte s)) as Hok.
  rewrite bytes_of_of by by apply render_byte. apply render_sep; [done..|].
  by apply (enc_toks_raw c s).
Qed.

Lemma entry_split o : str_split "=" (option_entry o) =
  [encodeURIComponent o.1; encodeURIComponent o.2].
Proof.
  change (option_entry o) with
    (str_join "=" [encodeURIComponent o.1; encodeURIComponent o.2]).
  apply str_split_join; [done|].
  repeat constructor; by apply (encoded_sep 61); [apply separator_61|].
Qed.

Lemma entry_no_amp o : 38 ∉ bytes_of (option_entry o).
Proof.
  unfold option_entry. rewrite !bytes_of_app, !elem_of_app. intros [H|[H|H]].
  - by apply (encoded_sep 38) in H; [|apply separator_38|].
  - by apply list_elem_of_singleton in H.
  - by apply (encoded_sep 38) in H; [|apply separator_38|].
Qed.

Definition valid_option (o : string * string) : Prop :=
  utf8_valid (bytes_of o.1) /\ utf8_valid (bytes_of o.2).

Lemma decode_entries o : Forall valid_option o -> forall acc,
  NoDup (acc.*1 ++ o.*1) ->
  decode_options acc (map option_entry o) = Some (acc ++ string_options o).
Proof.
  induction 1 as [|[k v] o [Hk Hv] _ IH]; intros acc Hnd; cbn [map decode_options].
  - by rewrite app_nil_r.
  - unfold decode_option. rewrite entry_split. cbn [fst snd] in *.
    change (default "undefined" (_ !! 0%nat)) with (encodeURIComponent k).
    change (default "undefined" (_ !! 1%nat)) with (encodeURIComponent v).
    rewrite !uri_roundtrip by done. cbn [mbind option_bind].
    rewrite (proj2 (assoc_get_None k acc)).
    2: { intros Hin. apply NoDup_app in Hnd as (_ & Hd & _). apply (Hd k Hin).
         cbn. apply elem_of_cons. by left. }
    rewrite assoc_set_new.
    2: { apply assoc_get_None. intros Hin. apply NoDup_app in Hnd as (_ & Hd & _).
         apply (Hd k Hin). cbn. apply elem_of_cons. by left. }
    cbn [mbind option_bind]. rewrite IH.
    + cbn. by rewrite <- app_assoc.
    + rewrite fmap_app. cbn. by rewrite <- app_assoc.
Qed.

(** ** Properties *)

Lemma decode_no_query cur s path :
  str_mem "?" s = false -> (exists s', s = String "/" s') ->
  decode_path "" cur s = Some path -> forall o, decode "" cur s o = Some (path, o).
Proof.
  intros Hq [s' ->] Hd o. unfold decode. change (Ascii.eqb "/" "#") with false. cbv iota.
  by rewrite str_cut_none, Hd.
Qed.

(** C6. Encoding a path and options and decoding the result gives them back,
    with no url root: for path components that are not empty or dots and for
    distinct option names with string values, whatever characters they hold
    (slashes, question marks, percent signs, text outside ASCII). *)
Theorem location_roundtrip cur cur' path opts with_root :
  Forall component path -> Forall valid_option opts -> NoDup (opts.*1) ->
  (href ← encode "" cur (PathList path) (Some (string_options opts)) with_root;
   decode "" cur' href (Some [])) = Some (path, Some (string_options opts)).
Proof.
  intros Hp Ho Hnd. destruct (encoded_path path Hp) as (l & El & Hsep & Hb & Hd).
  unfold encode. cbn [mbind option_bind]. rewrite andb_false_r. cbn [andb].
  rewrite string_entries.
  assert (str_mem "?" (undo_encoding (path_href path)) = false) as Hq.
  { apply str_mem_not. rewrite El, bytes_of_of by done.
    by apply (Hsep 63); [apply separator_63|..]. }
  assert (exists s, undo_encoding (path_href path) = String "/" s) as [s Es].
  { rewrite El. cbn. by eexists. }
  destruct opts as [|o opts].
  - cbn [map]. apply decode_no_query; eauto.
  - cbn [map]. unfold decode. rewrite Es at 1. cbn [String.append].
    change (Ascii.eqb "/" "#") with false. cbv iota.
    set (query := str_join _ _).
    rewrite (str_cut_app "?" (undo_encoding (path_href path)) query) by done.
    rewrite Hd. cbn [mbind option_bind]. unfold query.
    rewrite str_split_join.
    + change (option_entry o :: map option_entry opts) with (map option_entry (o :: opts)).
      by rewrite decode_entries.
    + done.
    + change (option_entry o :: map option_entry opts) with (map option_entry (o :: opts)).
      apply Forall_map, Forall_true. apply entry_no_amp.
Qed.

Lemma location_roundtrip_witness :
  (href ← encode "" [] (PathList ["a/b"; "user@host"; "50%"]) (Some [("q", JStr "x=y&z")]) false;
   decode "" ["other"] href (Some [])) =
  Some (["a/b"; "user@host"; "50%"], Some [("q", JStr "x=y&z")]).
Proof.
  assert (forall s, Forall (fun z => 0 <= z < 128) (bytes_of s) -> utf8_valid (bytes_of s)) as Ha.
  { intros s. generalize (bytes_of s) as l. induction 1 as [|z l Hz _ IH]; [constructor|].
    apply (utf8_seq [z]); [|done]. cbn. apply andb_true_iff. lia. }
  apply (location_roundtrip [] ["other"] ["a/b"; "user@host"; "50%"] [("q", "x=y&z")] false).
  - repeat constructor; try discriminate; apply Ha; cbn; repeat constructor; done.
  - repeat constructor; apply Ha; cbn; repeat constructor; done.
  - repeat constructor. apply not_elem_of_nil.
Defined.

(** With a url root, [encode] always adds the root, even to a path that is
    already under it: the comparison that should have tested for the prefix
    is inside the call of [indexOf]. *)
Theorem encode_root_always root cur path :
  root <> "" ->
  encode root cur (PathList path) None true =
  Some (undo_encoding ("/" +:+ root +:+ path_href path)).
Proof.
  intros Hr. unfold encode. cbn [mbind option_bind].
  rewrite (proj2 (String.eqb_neq root "")) by done. cbn [negb andb].
  assert (index_of (bytes_of "true") (bytes_of (path_href path)) =? 0 = false) as ->; [|done].
  unfold path_href. rewrite bytes_of_app. generalize (bytes_of (str_join "/"
    (map encodeURIComponent path))) as l. intros l.
  change (bytes_of "/" ++ l) with (47 :: l). cbn [index_of].
  change (is_prefix (bytes_of "true") (47 :: l)) with false. cbv iota. cbv zeta.
  destruct (Z.ltb_spec (index_of (bytes_of "true") l) 0); [done|]. apply Z.eqb_neq. lia.
Qed.

Lemma encode_root_always_witness :
  encode "cockpit" [] (PathList ["cockpit"; "system"]) None true =
  Some (undo_encoding "/cockpit/cockpit/system").
Proof.
  etransitivity; [apply (encode_root_always "cockpit" [] ["cockpit"; "system"]); discriminate|].
  vm_compute. reflexivity.
Defined.

(** A third value of the same option nests the first two. *)
Example decode_three_values :
  decode "" [] "/p?a=1&a=2&a=3" (Some []) =
  Some (["p"], Some [("a", JArr [JArr [JStr "1"; JStr "2"]; JStr "3"])]).
Proof. vm_compute. reflexivity. Qed.

(** A state of the shell that its encoding can represent. *)
Definition plain_state (s : nav_state) (parts : list string) : Prop :=
  s_host s <> "" /\ utf8_valid (bytes_of (s_host s)) /\
  s_component s = str_join "/" parts /\ Forall component parts /\
  Forall (fun p => 47 ∉ bytes_of p) parts /\ last parts <> Some "index" /\
  (s_host s = "localhost" -> forall p, head parts = Some p -> forall r, p <> String "@" r) /\
  s_hash s <> "/".

(** The path components [encode_state] builds. *)
Lemma plain_component s parts :
  plain_state s parts ->
  (if String.eqb (s_component s) "" then [] else str_split "/" (s_component s)) = parts.
Proof.
  intros (_ & _ & -> & Hc & Hs & _). destruct parts as [|p parts]; [done|].
  rewrite (proj2 (String.eqb_neq _ _)).
  - by apply str_split_join.
  - apply Forall_cons in Hc as [[Hne _] _]. destruct p as [|a p]; [done|].
    by destruct parts.
Qed.

Lemma removelast_not_index parts :
  last parts <> Some "index" ->
  match last parts with
  | Some p => if String.eqb p "index" then removelast parts else parts
  | None => parts
  end = parts.
Proof.
  destruct (last parts) as [p|]; [|done]. intros H.
  by rewrite (proj2 (String.eqb_neq _ _)) by congruence.
Qed.

Definition with_at (h : string) : string := String "@" h.

Lemma with_at_component h : utf8_valid (bytes_of h) -> h <> "" -> component (with_at h).
Proof.
  intros Hv Hne. unfold with_at, component. split_and!; [done..|].
  change (bytes_of (String "@" h)) with ([64] ++ bytes_of h). by constructor.
Qed.

Lemma decode_state_path cur path str hash :
  decode_path "" cur str = Some path -> (exists s, str = String "/" s) ->
  str_mem "?" str = false -> str_mem "#" str = false ->
  decode_state "" cur (if negb (String.eqb hash "") && negb (String.eqb hash "/")
    then str +:+ "#" +:+ hash else str) =
  let '(host, sidebar, path) :=
    match path with
    | String c h :: rest => if Ascii.eqb c "@" then (h, true, rest) else ("localhost", false, path)
    | _ => ("localhost", false, path)
    end in
  Some (mk_state host (str_join "/" match last path with
    | Some p => if String.eqb p "index" then removelast path else path
    | None => path end)
    (if negb (String.eqb hash "") && negb (String.eqb hash "/") then hash else "") sidebar).
Proof.
  intros Hd [s Es] Hq Hh. unfold decode_state.
  assert (match str_cut "#" (if negb (hash =? "")%string && negb (hash =? "/")%string
      then str +:+ "#" +:+ hash else str) with Some (a, b) => (a, b)
      | None => (if negb (hash =? "")%string && negb (hash =? "/")%string
      then str +:+ "#" +:+ hash else str, "") end =
    (str, if negb (hash =? "")%string && negb (hash =? "/")%string then hash else "")) as ->.
  { destruct (_ && _); [|by rewrite str_cut_none].
    change ("#" +:+ hash) with (String "#" hash). by rewrite (str_cut_app "#" str hash). }
  rewrite Es at 1. change (Ascii.eqb "/" "/") with true. cbv iota.
  rewrite (decode_no_query cur str path) by eauto. cbn [mbind option_bind fst].
  destruct path as [|[|c h] rest]; [done|done|]. by destruct (Ascii.eqb c "@").
Qed.

(** The shell's navigation state survives the address bar: decoding the
    encoding of a state gives back its host, component and hash, and marks the
    sidebar exactly when a host was written. *)
Theorem nav_state_roundtrip cur cur' s parts sidebar with_root :
  plain_state s parts ->
  (str ← encode_state "" cur s sidebar with_root; decode_state "" cur' str) =
  Some (mk_state (s_host s) (s_component s) (s_hash s)
          (sidebar || negb (String.eqb (s_host s) "localhost"))).
Proof.
  intros Hs. pose proof (plain_component s parts Hs) as Ec.
  destruct Hs as (Hh & Hhv & Ecomp & Hc & _ & Hlast & Hat & Hhash).
  unfold encode_state. rewrite Ec. rewrite (proj2 (String.eqb_neq (s_host s) "")) by done.
  cbn [negb andb]. set (shown := sidebar || _).
  set (path := (if shown then ["@" +:+ s_host s] else []) ++ parts).
  assert (Forall component path) as Hp.
  { unfold path. destruct shown; [constructor; [by apply with_at_component|done]|done]. }
  destruct (encoded_path path Hp) as (l & El & Hsep & Hb & Hd).
  unfold encode. cbn [mbind option_bind]. rewrite andb_false_r. cbn [andb].
  assert (forall c, separator (ord c) -> uri_unreserved (ord c) = false -> ord c <> 47 ->
    ord c <> 64 -> ord c <> 61 -> ord c <> 43 ->
    str_mem c (undo_encoding (path_href path)) = false) as Hm.
  { intros c ??????. apply str_mem_not. rewrite El, bytes_of_of by done. by apply Hsep. }
  rewrite (decode_state_path cur' path); [|done|rewrite El; cbn; by eexists
    |by apply Hm; [apply separator_63|..]|by apply Hm; [apply separator_35|..]].
  assert ((if negb (s_hash s =? "")%string && negb (s_hash s =? "/")%string
    then s_hash s else "") = s_hash s) as ->.
  { rewrite (proj2 (String.eqb_neq (s_hash s) "/")) by done.
    destruct (String.eqb_spec (s_hash s) "") as [->|]; done. }
  unfold path. destruct shown eqn:Esh; cbn [app].
  - change ("@" +:+ s_host s) with (String "@" (s_host s)).
    lazy beta iota zeta delta [Ascii.eqb Bool.eqb]. by rewrite removelast_not_index, Ecomp.
  - apply orb_false_iff in Esh as [_ Eh]. apply negb_false_iff, String.eqb_eq in Eh.
    specialize (Hat Eh). rewrite Eh, Ecomp. destruct parts as [|[|c p] parts]; [done| |].
    + cbv beta iota zeta. by rewrite removelast_not_index.
    + destruct (Ascii.eqb_spec c "@") as [->|Hne]; [by edestruct Hat|].
      cbv beta iota zeta. by rewrite removelast_not_index.
Qed.

Lemma nav_state_roundtrip_witness :
  let s := mk_state "server" "system/terminal" "/x?y" false in
  (str ← encode_state "" [] s true true; decode_state "" [] str) =
  Some (mk_state "server" "system/terminal" "/x?y" true).
Proof.
  cbv zeta.
  assert (forall s, Forall (fun z => 0 <= z < 128) (bytes_of s) -> utf8_valid (bytes_of s)) as Ha.
  { intros s. generalize (bytes_of s) as l. induction 1 as [|z l Hz _ IH]; [constructor|].
    apply (utf8_seq [z]); [|done]. cbn. apply andb_true_iff. lia. }
  apply (nav_state_roundtrip [] [] (mk_state "server" "system/terminal" "/x?y" false)
    ["system"; "terminal"] true true).
  split; [discriminate|]. split; [apply Ha; cbn; repeat constructor; done|].
  split; [reflexivity|]. split.
  { repeat constructor; try discriminate; apply Ha; cbn; repeat constructor; done. }
  split.
  { repeat constructor; cbn; rewrite !not_elem_of_cons; repeat split; try discriminate;
      apply not_elem_of_nil. }
  split; [discriminate|]. split; discriminate.
Defined.
