(* ===== verification/Promise.v ===== *)
(** * Promises (src/src/base1/cockpit.js, [later_invoke] to [cockpit.defer])

    The Deferred objects of cockpit.js.  The states of all deferreds live in one
    store; a promise is the key of its state.  Handlers never run inside the
    call that settles a promise: they wait in [later_queue] until the browser
    runs [later_drain].

    Handlers are code of the page: the parameter [call] runs one on the store.
    Thenables other than cockpit's own promises are not modelled. *)

From S2P Require Import Prelude.

(** ** Data *)

Inductive val := VData (j : jval) | VPromise (d : nat).

(** The functions that can be waiting in a promise: a page's handler, and the
    closures of [deferred_resolve], [finally] and [cockpit.all]. *)
Inductive fn :=
  | FUser (f : nat)
  | FAdoptResolve (flag : nat) | FAdoptReject (flag : nat) | FAdoptNotify (d : nat)
  | FFinally (resolved : bool) (callback : option nat)
  | FPrep (values : list val) (resolved : bool)
  | FPrepArguments
  | FAllValue (a : nat) (key : nat) | FAllFail (a : nat).

(** A handler argument: undefined, null, or a function. *)
Inductive harg := HUndef | HNull | HFn (f : fn).

Record entry := mk_entry { e_result : nat; e_fulfilled : harg; e_rejected : harg; e_updated : harg }.

(** [d_pending] is the array of pending callbacks, by its identity: a
    notification that is waiting to run shares the array. *)
Record dstate := mk_dstate {
  d_status : Z; d_values : list val; d_pending : option nat; d_scheduled : bool }.

#[export] Instance dstate_settable : Settable dstate := fun d =>
  mk_dstate (d_status d) (d_values d) (d_pending d) (d_scheduled d).

(** Functions in [later_queue]. *)
Inductive task := TProcess (d : nat) | TNotify (callbacks : nat) (values : list val).

(** The closure variables of one [cockpit.all]. *)
Record all_state := mk_all { a_deferred : nat; a_counter : Z; a_results : list (option val) }.

(** [p_flags] holds the [done] variable of each [deferred_resolve] that follows
    another promise, with the deferred it will settle.  [p_draining] is the
    local queue of [later_drain], [p_uncaught] counts exceptions that left it. *)
Record page := mk_page {
  p_defs : gmap nat dstate; p_next : nat; p_arrays : gmap nat (list entry); p_next_array : nat;
  p_flags : gmap nat (nat * bool); p_next_flag : nat;
  p_alls : gmap nat all_state; p_queue : list task; p_timeout : bool; p_draining : list task;
  p_uncaught : nat }.

#[export] Instance page_settable : Settable page := fun p =>
  mk_page (p_defs p) (p_next p) (p_arrays p) (p_next_array p) (p_flags p) (p_next_flag p) (p_alls p) (p_queue p)
    (p_timeout p) (p_draining p) (p_uncaught p).

Definition initial_page : page := mk_page ∅ 0 ∅ 0 ∅ 0 ∅ [] false [] 0.

(** What a call returns. *)
Inductive result := Return (v : val) | Throw.

Definition undefined : val := VData JUndef.

Definition upd_def (d : nat) (f : dstate -> dstate) (w : page) : page := w <| p_defs ::= alter f d |>.

(** ** The later queue *)

Definition later_invoke (t : task) (w : page) : page :=
  w <| p_queue ::= (fun q => q ++ [t]) |> <| p_timeout := true |>.

(** ** States *)

Definition schedule_process_queue (d : nat) (w : page) : page :=
  match p_defs w !! d with
  | None => w
  | Some s =>
      if d_scheduled s || bool_decide (d_pending s = None) then w
      else later_invoke (TProcess d) (upd_def d (fun s => s <| d_scheduled := true |>) w)
  end.

(** [new Deferred()]. *)
Definition defer (w : page) : page * nat :=
  let d := p_next w in
  (w <| p_defs ::= <[d := mk_dstate 0 [] None false]> |> <| p_next ::= S |>, d).

Definition array (a : nat) (w : page) : list entry := default [] (p_arrays w !! a).

(** [state.pending = state.pending || []; state.pending.push(e)]. *)
Definition push_pending (d : nat) (e : entry) (w : page) : page :=
  match p_defs w !! d with
  | None => w
  | Some s =>
      match d_pending s with
      | Some a => w <| p_arrays ::= <[a := array a w ++ [e]]> |>
      | None =>
          let a := p_next_array w in
          upd_def d (fun s => s <| d_pending := Some a |>)
            (w <| p_arrays ::= <[a := [e]]> |> <| p_next_array ::= S |>)
      end
  end.

(** [promise_then]; [None] is null: nothing to wait for. *)
Definition promise_then (d : nat) (fulfilled rejected updated : harg) (w : page)
    : page * option nat :=
  match fulfilled, rejected, updated with
  | HUndef, HUndef, HUndef => (w, None)
  | _, _, _ =>
      let '(w, r) := defer w in
      let w := push_pending d (mk_entry r fulfilled rejected updated) w in
      match p_defs w !! d with
      | Some s => (if 0 <? d_status s then schedule_process_queue d w else w, Some r)
      | None => (w, Some r)
      end
  end.

Definition deferred_reject (d : nat) (values : list val) (w : page) : page :=
  schedule_process_queue d (upd_def d (fun s => s <| d_values := values |> <| d_status := 2 |>) w).

(** [deferred_resolve]: a promise as first value is followed. *)
Definition deferred_resolve (d : nat) (values : list val) (w : page) : page :=
  match values with
  | VPromise other :: _ =>
      let w := upd_def d (fun s => s <| d_status := -1 |>) w in
      let flag := p_next_flag w in
      let w := w <| p_flags ::= <[flag := (d, false)]> |> <| p_next_flag ::= S |> in
      fst (promise_then other (HFn (FAdoptResolve flag)) (HFn (FAdoptReject flag))
             (HFn (FAdoptNotify d)) w)
  | _ =>
      schedule_process_queue d
        (upd_def d (fun s => s <| d_values := values |> <| d_status := 1 |>) w)
  end.

Definition deferred_notify (d : nat) (values : list val) (w : page) : page :=
  match p_defs w !! d with
  | None => w
  | Some s =>
      match d_pending s with
      | Some a =>
          if (d_status s <=? 0) && negb (match array a w with [] => true | _ => false end)
          then later_invoke (TNotify a values) w else w
      | None => w
      end
  end.

(** [Deferred.resolve], [reject] and [notify]. *)
Definition resolve (d : nat) (values : list val) (w : page) : page * bool :=
  let own := match values with VPromise d' :: _ => Nat.eqb d' d | _ => false end in
  if own then (w, false)       (* Expected promise to be resolved with other value *)
  else match p_defs w !! d with
       | Some s => (if d_status s =? 0 then deferred_resolve d values w else w, true)
       | None => (w, true)
       end.

Definition reject (d : nat) (values : list val) (w : page) : page :=
  match p_defs w !! d with
  | Some s => if d_status s =? 0 then deferred_reject d values w else w
  | None => w
  end.

Definition notify (d : nat) (values : list val) (w : page) : page := deferred_notify d values w.

(** [then] and its jQuery relatives; the result is the promise returned. *)
Definition then_ (d : nat) (f r u : harg) (w : page) : page * nat :=
  let '(w, p) := promise_then d f r u w in (w, default d p).

Definition catch (d : nat) (callback : harg) : page -> page * nat := then_ d HNull callback HUndef.

Definition finally (d : nat) (callback : option nat) (updated : harg) : page -> page * nat :=
  then_ d (HFn (FFinally true callback)) (HFn (FFinally false callback)) updated.

Definition done (d : nat) (f : harg) (w : page) : page := fst (promise_then d f HUndef HUndef w).
Definition fail (d : nat) (r : harg) (w : page) : page := fst (promise_then d HNull r HUndef w).
Definition always (d : nat) (c : harg) (w : page) : page := fst (promise_then d c c HUndef w).
Definition progress (d : nat) (u : harg) (w : page) : page := fst (promise_then d HNull HNull u w).

Definition state_name (s : dstate) : string :=
  if d_status s =? 1 then "resolved" else if d_status s =? 2 then "rejected" else "pending".

(** [cockpit.resolve], [cockpit.reject] and [cockpit.when]. *)
Definition resolved (v : val) (w : page) : page * nat :=
  let '(w, d) := defer w in (fst (resolve d [v] w), d).

Definition rejected (v : val) (w : page) : page * nat :=
  let '(w, d) := defer w in (reject d [v] w, d).

Definition when (value : val) (f r u : harg) (w : page) : page * nat :=
  let '(w, d) := defer w in then_ d f r u (fst (resolve d [value] w)).

(** [cockpit.all] on an array. *)
Fixpoint all_loop (a key : nat) (promises : list val) (w : page) : page :=
  match promises with
  | [] => w
  | p :: ps =>
      let w := w <| p_alls ::= alter (fun s =>
        mk_all (a_deferred s) (a_counter s + 1) (a_results s)) a |> in
      let w := fst (when p (HFn (FAllValue a key)) (HFn (FAllFail a)) HUndef w) in
      all_loop a (S key) ps w
  end.

Definition all (promises : list val) (w : page) : page * nat :=
  let '(w, d) := defer w in
  let w := w <| p_alls ::= <[d := mk_all d 0 []]> |> in
  let w := all_loop d 0 promises w in
  (match promises with [] => fst (resolve d [VData (JArr [])] w) | _ => w end, d).

(** [results[key] = value] on a JavaScript array. *)
Fixpoint set_result (key : nat) (v : val) (l : list (option val)) : list (option val) :=
  match key, l with
  | O, [] => [Some v]
  | O, _ :: l => Some v :: l
  | S k, [] => None :: set_result k v []
  | S k, x :: l => x :: set_result k v l
  end.

(** [prep_promise]. *)
Definition prep_promise (values : list val) (is_resolved : bool) (w : page) : page * nat :=
  let '(w, d) := defer w in
  (if is_resolved then fst (resolve d values w) else reject d values w, d).

Section Run.
Context (call : nat -> list val -> page -> page * result).

(** The functions [then] handlers may be. *)
Definition apply_fn (f : fn) (args : list val) (w : page) : page * result :=
  let returns (r : page * nat) := (fst r, Return (VPromise (snd r))) in
  match f with
  | FUser f => call f args w
  | FAdoptResolve flag =>
      match p_flags w !! flag with
      | Some (d, false) =>
          (deferred_resolve d args (w <| p_flags ::= <[flag := (d, true)]> |>), Return undefined)
      | _ => (w, Return undefined)
      end
  | FAdoptReject flag =>
      match p_flags w !! flag with
      | Some (d, false) =>
          (deferred_reject d args (w <| p_flags ::= <[flag := (d, true)]> |>), Return undefined)
      | _ => (w, Return undefined)
      end
  | FAdoptNotify d => (deferred_notify d args w, Return undefined)
  | FFinally is_resolved callback =>
      let '(w, r) := match callback with
                     | Some f => call f [] w
                     | None => (w, Return (VData JNull))
                     end in
      match r with
      | Throw => (w, Throw)
      | Return (VPromise p) =>
          returns (then_ p (HFn (FPrep args is_resolved)) (HFn FPrepArguments) HUndef w)
      | Return _ => returns (prep_promise args is_resolved w)
      end
  | FPrep values is_resolved => returns (prep_promise values is_resolved w)
  | FPrepArguments => returns (prep_promise args false w)
  | FAllValue a key =>
      match p_alls w !! a with
      | None => (w, Return undefined)
      | Some s =>
          let results := set_result key (default undefined (head args)) (a_results s) in
          let counter := a_counter s - 1 in
          let w := w <| p_alls ::= <[a := mk_all (a_deferred s) counter results]> |> in
          if counter =? 0 then
            let '(w, ok) := resolve (a_deferred s) (map (default undefined) results) w in
            (w, if ok then Return undefined else Throw)
          else (w, Return undefined)
      end
  | FAllFail a =>
      match p_alls w !! a with
      | None => (w, Return undefined)
      | Some s => (reject (a_deferred s) args w, Return undefined)
      end
  end.

(** The loop of [process_queue]; the result tells whether it ran to its end. *)
Fixpoint process_loop (d : nat) (pending : list entry) (w : page) : page * bool :=
  match pending with
  | [] => (w, true)
  | e :: pending =>
      match p_defs w !! d with
      | None => (w, false)
      | Some s =>
          match (if d_status s =? 1 then e_fulfilled e else e_rejected e) with
          | HFn f =>
              let '(w, r) := apply_fn f (d_values s) w in
              match r with
              | Throw => (w, false)
              | Return v =>
                  let '(w, ok) := resolve (e_result e) [v] w in
                  if ok then process_loop d pending w else (w, false)
              end
          | _ =>
              if d_status s =? 1 then
                let '(w, ok) := resolve (e_result e) (d_values s) w in
                if ok then process_loop d pending w else (w, false)
              else process_loop d pending (reject (e_result e) (d_values s) w)
          end
      end
  end.

Definition process_queue (d : nat) (w : page) : page * bool :=
  match p_defs w !! d with
  | None => (w, false)
  | Some s =>
      let w := upd_def d (fun s => s <| d_scheduled := false |> <| d_pending := None |>) w in
      match d_pending s with
      | None => (w, false)             (* pending.length of undefined *)
      | Some a => process_loop d (array a w) w
      end
  end.

(** The function [deferred_notify] leaves for later. *)
Fixpoint notify_loop (callbacks : list entry) (values : list val) (w : page) : page * bool :=
  match callbacks with
  | [] => (w, true)
  | e :: callbacks =>
      match e_updated e with
      | HFn f =>
          let '(w, r) := apply_fn f values w in
          match r with
          | Throw => (w, false)
          | Return v => notify_loop callbacks values (notify (e_result e) [v] w)
          end
      | _ => notify_loop callbacks values (notify (e_result e) values w)
      end
  end.

Definition run_task (t : task) (w : page) : page * bool :=
  match t with
  | TProcess d => process_queue d w
  | TNotify a values => notify_loop (array a w) values w
  end.

(** The loop of [later_drain]: an exception ends it, and the local queue with
    it. *)
Fixpoint drain_loop (queue : list task) (w : page) : page :=
  match queue with
  | [] => w <| p_draining := [] |>
  | t :: queue =>
      let '(w, ok) := run_task t (w <| p_draining := queue |>) in
      if ok then drain_loop queue w
      else w <| p_draining := [] |> <| p_uncaught ::= S |>
  end.

Definition later_drain (w : page) : page :=
  drain_loop (p_queue w) (w <| p_timeout := false |> <| p_queue := [] |> <| p_draining := p_queue w |>).

End Run.
