(* ===== verification/PromiseSpec.v ===== *)
(** * Promises settle once and lose no callback

    The invariant of the deferred store of [Promise.v], preserved by every call
    of the promise API, by the handlers that make such calls, and by
    [later_drain]. *)

From S2P Require Import Prelude.
From S2P Require Import Promise.

(** ** The invariant *)

Definition tasks (w : page) : list task := p_draining w ++ p_queue w.

Definition procs (l : list task) : list nat :=
  omap (fun t => match t with TProcess d => Some d | TNotify _ _ => None end) l.

Definition scheduled (d : nat) (w : page) : Prop :=
  exists s, p_defs w !! d = Some s /\ d_scheduled s = true.

(** What holds of one deferred: it is scheduled exactly when it is settled and
    has callbacks. *)
Definition def_ok (s : dstate) : Prop :=
  (d_scheduled s = true -> is_Some (d_pending s) /\ 0 < d_status s) /\
  (0 < d_status s -> is_Some (d_pending s) -> d_scheduled s = true).

Record inv (w : page) : Prop := {
  i_next : forall d s, p_defs w !! d = Some s -> (d < p_next w)%nat;
  i_defs : forall d s, p_defs w !! d = Some s -> def_ok s;
  i_flag_next : forall g x, p_flags w !! g = Some x -> (g < p_next_flag w)%nat;
  i_flag : forall g d, p_flags w !! g = Some (d, false) ->
    exists s, p_defs w !! d = Some s /\ d_status s = -1;
  i_flag_unique : forall g g' d,
    p_flags w !! g = Some (d, false) -> p_flags w !! g' = Some (d, false) -> g = g';
  i_nodup : NoDup (procs (tasks w));
  i_procs : forall d, d ∈ procs (tasks w) -> scheduled d w;
  i_sched : p_uncaught w = 0%nat -> forall d, scheduled d w -> d ∈ procs (tasks w);
  i_timer : p_queue w <> [] -> p_timeout w = true }.

(** A settled deferred keeps its state and its values. *)
Definition mono (w w' : page) : Prop :=
  (p_uncaught w <= p_uncaught w')%nat /\
  forall d s, p_defs w !! d = Some s -> 0 < d_status s ->
  exists s', p_defs w' !! d = Some s' /\ d_status s' = d_status s /\ d_values s' = d_values s.

#[export] Instance mono_preorder : PreOrder mono.
Proof.
  split.
  - intros w. split; [done|]. eauto.
  - intros w1 w2 w3 [U1 H1] [U2 H2]. split; [lia|]. intros d s Hs Hp.
    destruct (H1 d s Hs Hp) as (s2 & Hs2 & E2 & V2).
    destruct (H2 d s2 Hs2) as (s3 & Hs3 & E3 & V3); [lia|].
    exists s3. split; [done|]. split; congruence.
Qed.

Lemma mono_same w w' : p_defs w' = p_defs w -> p_uncaught w' = p_uncaught w -> mono w w'.
Proof. intros Ed Eu. split; [by rewrite Eu|]. rewrite Ed. eauto. Qed.

(** A step the store accepts.  The local queue of a running drain is not
    touched by anything but the drain itself. *)
Definition good (w w' : page) : Prop :=
  inv w -> inv w' /\ mono w w' /\ p_draining w' = p_draining w.

#[export] Instance good_preorder : PreOrder good.
Proof.
  split.
  - by intros w Hi.
  - intros w1 w2 w3 H1 H2 Hi. destruct (H1 Hi) as (Hi2 & M1 & D1).
    destruct (H2 Hi2) as (Hi3 & M2 & D2). split; [done|]. split; [by etransitivity|congruence].
Qed.

(** ** Updating one deferred *)

Definition set_def (d : nat) (s : dstate) (add : bool) (w : page) : page :=
  let w := w <| p_defs ::= <[d := s]> |> in
  if add then later_invoke (TProcess d) w else w.

Lemma upd_def_eq d f w s :
  p_defs w !! d = Some s -> upd_def d f w = w <| p_defs ::= <[d := f s]> |>.
Proof.
  intros Hs. assert (alter f d (p_defs w) = <[d := f s]> (p_defs w)) as E.
  { apply map_eq. intros i. rewrite lookup_alter, lookup_insert.
    case_decide; [subst|done]. by rewrite Hs. }
  unfold upd_def, set_field. by rewrite E.
Qed.

Lemma procs_app x y : procs (x ++ y) = procs x ++ procs y.
Proof. apply omap_app. Qed.

Lemma set_def_lookup d s add w d' :
  p_defs (set_def d s add w) !! d' = if decide (d = d') then Some s else p_defs w !! d'.
Proof. unfold set_def. destruct add; cbn; by rewrite lookup_insert. Qed.

Lemma set_def_procs d s add w :
  procs (tasks (set_def d s add w)) = procs (tasks w) ++ (if add then [d] else []).
Proof.
  unfold set_def, tasks. destruct add; cbn.
  - by rewrite app_assoc, procs_app.
  - by rewrite app_nil_r.
Qed.

Lemma set_def_frame d s add w :
  p_next (set_def d s add w) = p_next w /\ p_flags (set_def d s add w) = p_flags w /\
  p_next_flag (set_def d s add w) = p_next_flag w /\
  p_uncaught (set_def d s add w) = p_uncaught w /\ p_draining (set_def d s add w) = p_draining w.
Proof. unfold set_def. by destruct add. Qed.

Lemma set_def_good d s s' add w :
  p_defs w !! d = Some s ->
  d_scheduled s' = (d_scheduled s || add) -> (add = true -> d_scheduled s = false) ->
  def_ok s' -> (0 < d_status s -> d_status s' = d_status s /\ d_values s' = d_values s) ->
  (forall g, p_flags w !! g = Some (d, false) -> d_status s' = -1) ->
  good w (set_def d s' add w).
Proof.
  intros Hs Hsch Hadd Hok Hmono Hfl Hi.
  destruct (set_def_frame d s' add w) as (En & Ef & Eg & Eu & Ed).
  assert (forall d', scheduled d' (set_def d s' add w) <->
    scheduled d' w \/ (add = true /\ d' = d)) as Hsc.
  { intros d'. unfold scheduled. rewrite set_def_lookup. case_decide as E.
    - subst d'. rewrite Hs. split.
      + intros (? & [= <-] & E'). rewrite Hsch in E'. apply orb_true_iff in E' as [?|?]; eauto.
      + intros [(? & [= <-] & E')|[E' _]]; exists s'; split; try done; rewrite Hsch, E';
          [done|by rewrite orb_true_r].
    - split; [intros (x & ? & ?); left; eauto|]. intros [(x & ? & ?)|[_ ->]]; [eauto|done]. }
  split; [|split; [|done]].
  - split.
    + intros d' x. rewrite set_def_lookup, En. case_decide; [subst; intros _; by eapply i_next|].
      by apply i_next.
    + intros d' x. rewrite set_def_lookup. case_decide; [by intros [= <-]|by apply i_defs].
    + rewrite Ef, Eg. by apply i_flag_next.
    + rewrite Ef. intros g d' Hg. rewrite set_def_lookup. case_decide.
      * subst. eauto.
      * by eapply i_flag.
    + rewrite Ef. by apply i_flag_unique.
    + rewrite set_def_procs. destruct add; [|rewrite app_nil_r; by apply i_nodup].
      apply NoDup_app. split; [by apply i_nodup|]. split; [|apply NoDup_singleton].
      intros x Hx Hx'. apply list_elem_of_singleton in Hx' as ->.
      apply (i_procs w Hi) in Hx as (x' & Hx' & Hsx). specialize (Hadd eq_refl). congruence.
    + intros d'. rewrite set_def_procs, elem_of_app, Hsc. intros [Hin|Hin].
      * left. by apply i_procs.
      * destruct add; [|by apply not_elem_of_nil in Hin].
        apply list_elem_of_singleton in Hin. by right.
    + rewrite Eu. intros Hu d'. rewrite set_def_procs, elem_of_app, Hsc.
      intros [?|[-> ->]]; [left; by apply i_sched|right; by apply list_elem_of_singleton].
    + unfold set_def. destruct add; cbn; [done|by apply i_timer].
  - split; [by rewrite Eu|]. intros d' x Hx Hp. rewrite set_def_lookup. case_decide; [|eauto].
    subst d'. assert (x = s) as -> by congruence. exists s'. split; [done|auto].
Qed.

(** ** The operations *)

(** The state of a deferred once it has been scheduled if need be. *)
Definition scheduled_state (s : dstate) : dstate :=
  if d_scheduled s || bool_decide (d_pending s = None) then s else s <| d_scheduled := true |>.

Definition newly (s : dstate) : bool := negb (d_scheduled s || bool_decide (d_pending s = None)).

Lemma schedule_set_def d s w :
  p_defs w !! d = Some s -> schedule_process_queue d w = set_def d (scheduled_state s) (newly s) w.
Proof.
  intros Hs. unfold schedule_process_queue, scheduled_state, newly, set_def. rewrite Hs.
  destruct (_ || _); cbn [negb].
  - destruct w. unfold set_field. cbn in *. by rewrite insert_id.
  - by rewrite (upd_def_eq d _ w s).
Qed.

Lemma settle_set_def d s f w :
  p_defs w !! d = Some s ->
  schedule_process_queue d (upd_def d f w) = set_def d (scheduled_state (f s)) (newly (f s)) w.
Proof.
  intros Hs. rewrite (upd_def_eq d f w s) by done.
  rewrite (schedule_set_def d (f s)) by (cbn; by rewrite lookup_insert_eq).
  unfold set_def, set_field. cbn. by rewrite insert_insert_eq.
Qed.

Lemma scheduled_state_frame s :
  d_status (scheduled_state s) = d_status s /\ d_values (scheduled_state s) = d_values s /\
  d_pending (scheduled_state s) = d_pending s /\
  d_scheduled (scheduled_state s) = (d_scheduled s || newly s) /\
  (newly s = true -> d_scheduled s = false).
Proof.
  unfold scheduled_state, newly. destruct (d_scheduled s) eqn:E, (bool_decide _) eqn:Ep; cbn;
    rewrite ?E; done.
Qed.

Lemma scheduled_state_ok s :
  0 < d_status s -> (d_scheduled s = true -> is_Some (d_pending s)) -> def_ok (scheduled_state s).
Proof.
  intros Hp Hs. destruct (scheduled_state_frame s) as (Es & _ & Ep & Ec & _).
  split; rewrite Ep, Es, Ec; unfold newly.
  - destruct (d_scheduled s); cbn; [auto|]. case_bool_decide as H; cbn; [done|].
    intros _. split; [|done]. by destruct (d_pending s).
  - intros _ [a ->]. destruct (d_scheduled s); [done|]. by rewrite bool_decide_eq_false_2.
Qed.

(** A deferred nobody has settled and nobody is about to settle. *)
Definition free (d : nat) (w : page) : Prop :=
  (exists s, p_defs w !! d = Some s /\ d_status s <= 0) /\
  forall g, p_flags w !! g <> Some (d, false).

Lemma settle_good d st vs w :
  0 < st -> free d w ->
  good w (schedule_process_queue d (upd_def d (fun s => s <| d_values := vs |> <| d_status := st |>) w)).
Proof.
  intros Hst [(s & Hs & Hf) Hg].
  rewrite (settle_set_def d s) by done. set (s1 := s <| d_values := vs |> <| d_status := st |>).
  destruct (scheduled_state_frame s1) as (Es & Ev & Ep & Ec & Hn).
  intros Hi. pose proof (i_defs w Hi d s Hs) as [Hd1 Hd2].
  assert (d_scheduled s = false) as Hns.
  { destruct (d_scheduled s); [|done]. destruct Hd1; [done|lia]. }
  apply (set_def_good d s); try done.
  - apply scheduled_state_ok; [done|]. cbn. congruence.
  - lia.
  - intros g Hgd. by apply Hg in Hgd.
Qed.

Lemma defer_good w : good w (fst (defer w)).
Proof.
  intros Hi. assert (p_defs w !! p_next w = None) as Hnone.
  { destruct (p_defs w !! p_next w) eqn:E; [|done]. apply (i_next w Hi) in E. lia. }
  assert (forall d, scheduled d (fst (defer w)) <-> scheduled d w) as Hsc.
  { intros d. unfold scheduled, defer. cbn. rewrite lookup_insert. case_decide; [|done].
    subst. rewrite Hnone. split; [intros (? & [= <-] & ?)|intros (? & ? & ?)]; done. }
  split; [|split; [|done]].
  - split; try apply Hi.
    + intros d s. unfold defer. cbn. rewrite lookup_insert. case_decide; [lia|].
      intros H'. apply (i_next w Hi) in H'. lia.
    + intros d s. unfold defer. cbn. rewrite lookup_insert. case_decide; [|by apply i_defs].
      intros [= <-]. split; cbn; [done|lia].
    + intros g d Hg. destruct (i_flag w Hi g d Hg) as (s & Hs & ?). exists s.
      unfold defer. cbn. rewrite lookup_insert_ne by congruence. done.
    + intros d Hd. rewrite Hsc. by apply i_procs.
    + intros Hu d. rewrite Hsc. by apply i_sched.
  - split; [done|]. intros d s Hs _. exists s. split; [|done]. cbn.
    rewrite lookup_insert_ne by congruence. done.
Qed.

(** Appending to the pending callbacks of a deferred and scheduling it. *)
Lemma push_pending_lookup d e w s :
  p_defs w !! d = Some s -> exists a w1,
  w1 = w <| p_arrays := p_arrays w1 |> <| p_next_array := p_next_array w1 |> /\
  push_pending d e w = w1 <| p_defs ::= <[d := s <| d_pending := Some a |>]> |> /\
  (forall x, d_pending s = Some x -> a = x).
Proof.
  intros Hs. unfold push_pending. rewrite Hs. destruct (d_pending s) as [a|] eqn:Ep.
  - exists a, (w <| p_arrays ::= <[a := array a w ++ [e]]> |>). split; [by destruct w|].
    split; [|naive_solver].
    unfold set_field. cbn. f_equal. symmetry. apply insert_id. rewrite Hs. destruct s. cbn in *.
    by subst.
  - exists (p_next_array w), (w <| p_arrays ::= <[p_next_array w := [e]]> |> <| p_next_array ::= S |>).
    split; [by destruct w|]. split; [|done]. by rewrite (upd_def_eq d _ _ s).
Qed.

Lemma arrays_good w f n : good w (w <| p_arrays := f |> <| p_next_array := n |>).
Proof. intros Hi. split; [|split; [by apply mono_same|done]]. destruct Hi. by split. Qed.

Lemma push_schedule_good d e w :
  good w (let w2 := push_pending d e w in
    match p_defs w2 !! d with
    | Some s => if 0 <? d_status s then schedule_process_queue d w2 else w2
    | None => w2
    end).
Proof.
  cbv zeta. destruct (p_defs w !! d) as [s|] eqn:Hs; [|unfold push_pending; by rewrite Hs, Hs].
  destruct (push_pending_lookup d e w s Hs) as (a & w2 & E2 & -> & Ha).
  cbn. rewrite lookup_insert_eq. cbn.
  set (s1 := s <| d_pending := Some a |>).
  assert (good w w2) as G by (rewrite E2; apply arrays_good).
  assert (p_defs w2 !! d = Some s) as Hs2 by (rewrite E2; done).
  intros Hi. pose proof (G Hi) as (Hi2 & _). pose proof (i_defs w2 Hi2 d s Hs2) as [Hd1 Hd2].
  assert (forall g, p_flags w2 !! g = Some (d, false) -> d_status s = -1) as Hfl.
  { intros g Hg. destruct (i_flag w2 Hi2 g d Hg) as (x & ? & ?). by simplify_eq. }
  revert Hi. change (good w (if 0 <? d_status s
    then schedule_process_queue d (w2 <| p_defs ::= <[d := s1]> |>)
    else w2 <| p_defs ::= <[d := s1]> |>)). etransitivity; [exact G|].
  destruct (Z.ltb_spec 0 (d_status s)).
  - rewrite (schedule_set_def d s1) by (cbn; by rewrite lookup_insert_eq).
    destruct (scheduled_state_frame s1) as (Es & Ev & Ep & Ec & Hn).
    assert (set_def d (scheduled_state s1) (newly s1) (w2 <| p_defs ::= <[d := s1]> |>) =
      set_def d (scheduled_state s1) (newly s1) w2) as ->.
    { unfold set_def, set_field. cbn. by rewrite insert_insert_eq. }
    apply (set_def_good d s); try done.
    + apply scheduled_state_ok; [done|]. cbn. eauto.
    + intros g Hg. apply Hfl in Hg. lia.
  - change (good w2 (set_def d s1 false w2)). apply (set_def_good d s); try done.
    + cbn. by rewrite orb_false_r.
    + split; cbn; [|lia]. intros E. apply Hd1 in E. naive_solver.
Qed.

Lemma promise_then_good d f r u w : good w (fst (promise_then d f r u w)).
Proof.
  unfold promise_then.
  assert (good w (fst (let '(w, r0) := defer w in
    let w := push_pending d (mk_entry r0 f r u) w in
    match p_defs w !! d with
    | Some s => (if 0 <? d_status s then schedule_process_queue d w else w, Some r0)
    | None => (w, Some r0) end))) as Hg.
  { etransitivity; [apply defer_good|]. cbn.
    etransitivity; [apply (push_schedule_good d (mk_entry (p_next w) f r u))|].
    cbv zeta. by destruct (p_defs _ !! d). }
  by destruct f, r, u.
Qed.

Lemma deferred_reject_good d vs w : free d w -> good w (deferred_reject d vs w).
Proof. intros Hf. by apply settle_good. Qed.

(** Following another promise. *)
Lemma adopt_good d w :
  free d w ->
  good w (upd_def d (fun s => s <| d_status := -1 |>) w
    <| p_flags ::= <[p_next_flag w := (d, false)]> |> <| p_next_flag ::= S |>).
Proof.
  intros [(s & Hs & Hle) Hfree] Hi. rewrite (upd_def_eq d _ w s) by done.
  set (s1 := s <| d_status := -1 |>).
  pose proof (i_defs w Hi d s Hs) as [Hd1 _].
  assert (d_scheduled s = false) as Hns.
  { destruct (d_scheduled s); [|done]. destruct Hd1; [done|lia]. }
  assert (good w (set_def d s1 false w)) as G.
  { apply (set_def_good d s); try done.
    - cbn. by rewrite orb_false_r.
    - split; cbn; [congruence|lia].
    - lia. }
  destruct (G Hi) as (Hi1 & M1 & _). unfold set_def in *. cbv zeta in *.
  set (w1 := w <| p_defs ::= <[d := s1]> |>) in *.
  split; [|split; [done|done]]. split; try apply Hi1.
  - cbn. intros g x. rewrite lookup_insert. case_decide; [lia|].
    intros Hx. apply (i_flag_next w Hi) in Hx. lia.
  - cbn. intros g d'. rewrite lookup_insert. case_decide.
    + intros [= <-]. exists s1. by rewrite lookup_insert_eq.
    + by apply (i_flag w1 Hi1).
  - cbn. intros g g' d'. rewrite !lookup_insert. intros E1 E2.
    repeat case_decide; simplify_eq; try done;
      first [by apply Hfree in E1|by apply Hfree in E2|by eapply (i_flag_unique w Hi)].
Qed.

Lemma deferred_resolve_good d vs w : free d w -> good w (deferred_resolve d vs w).
Proof.
  intros Hf. unfold deferred_resolve. destruct vs as [|[j|other] vs]; [by apply settle_good..|].
  cbv zeta. etransitivity; [by apply (adopt_good d)|]. apply promise_then_good.
Qed.

Lemma later_notify_good a vs w : good w (later_invoke (TNotify a vs) w).
Proof.
  intros Hi. assert (procs (tasks (later_invoke (TNotify a vs) w)) = procs (tasks w)) as E.
  { unfold tasks. cbn. rewrite app_assoc, procs_app. cbn. by rewrite app_nil_r. }
  split; [|split; [by apply mono_same|done]]. split; rewrite ?E; try done; apply Hi.
Qed.

Lemma deferred_notify_good d vs w : good w (deferred_notify d vs w).
Proof.
  unfold deferred_notify. destruct (p_defs w !! d) as [s|]; [|done].
  destruct (d_pending s) as [a|]; [|done].
  destruct (_ && _); [apply later_notify_good|done].
Qed.

(** A pending deferred is free: nothing follows on its behalf yet. *)
Lemma pending_free d s w : inv w -> p_defs w !! d = Some s -> d_status s = 0 -> free d w.
Proof.
  intros Hi Hs H0. split; [exists s; split; [done|lia]|].
  intros g Hg. destruct (i_flag w Hi g d Hg) as (x & ? & ?). simplify_eq. lia.
Qed.

Lemma resolve_good d vs w : good w (fst (resolve d vs w)).
Proof.
  unfold resolve. destruct (match vs with VPromise d' :: _ => _ | _ => _ end); [done|].
  destruct (p_defs w !! d) as [s|] eqn:Hs; [|done]. cbn [fst].
  destruct (Z.eqb_spec (d_status s) 0); [|done].
  intros Hi. apply deferred_resolve_good; [by eapply pending_free|done].
Qed.

Lemma reject_good d vs w : good w (reject d vs w).
Proof.
  unfold reject. destruct (p_defs w !! d) as [s|] eqn:Hs; [|done].
  destruct (Z.eqb_spec (d_status s) 0); [|done].
  intros Hi. apply deferred_reject_good; [by eapply pending_free|done].
Qed.

Lemma then_good d f r u w : good w (fst (then_ d f r u w)).
Proof.
  pose proof (promise_then_good d f r u w) as G. unfold then_.
  by destruct (promise_then d f r u w).
Qed.

Lemma when_good v f r u w : good w (fst (when v f r u w)).
Proof.
  unfold when. pose proof (defer_good w) as G. destruct (defer w) as [w1 d]. cbn in *.
  etransitivity; [done|]. etransitivity; [apply resolve_good|apply then_good].
Qed.

Lemma prep_promise_good vs b w : good w (fst (prep_promise vs b w)).
Proof.
  unfold prep_promise. pose proof (defer_good w) as G. destruct (defer w) as [w1 d]. cbn in *.
  etransitivity; [done|]. destruct b; [apply resolve_good|apply reject_good].
Qed.

Lemma alls_good w f : good w (w <| p_alls ::= f |>).
Proof. intros Hi. split; [|split; [by apply mono_same|done]]. destruct Hi. by split. Qed.

Lemma all_loop_good a ps : forall key w, good w (all_loop a key ps w).
Proof.
  induction ps as [|p ps IH]; intros key w; cbn [all_loop]; [done|]. cbv zeta.
  etransitivity; [apply alls_good|]. etransitivity; [apply when_good|apply IH].
Qed.

Lemma all_good ps w : good w (fst (all ps w)).
Proof.
  unfold all. pose proof (defer_good w) as G. destruct (defer w) as [w1 d]. cbn [fst] in *.
  etransitivity; [exact G|]. cbv zeta. etransitivity; [apply alls_good|].
  etransitivity; [apply all_loop_good|]. destruct ps; [apply resolve_good|done].
Qed.

(** ** Pages *)

(** The promise API, as the code of a page may use it. *)
Inductive api : page -> page -> Prop :=
  | api_defer w : api w (fst (defer w))
  | api_resolve d vs w : api w (fst (resolve d vs w))
  | api_reject d vs w : api w (reject d vs w)
  | api_notify d vs w : api w (notify d vs w)
  | api_then d f r u w : api w (fst (then_ d f r u w))
  | api_when v f r u w : api w (fst (when v f r u w))
  | api_all ps w : api w (fst (all ps w)).

Lemma api_good w w' : api w w' -> good w w'.
Proof.
  destruct 1; [apply defer_good|apply resolve_good|apply reject_good|apply deferred_notify_good
    |apply then_good|apply when_good|apply all_good].
Qed.

Lemma apis_good w w' : rtc api w w' -> good w w'.
Proof. induction 1; [done|]. etransitivity; [by apply api_good|done]. Qed.

Section Pages.

(** Handlers do nothing to the store but call the API. *)
Context (call : nat -> list val -> page -> page * result).
Context (call_api : forall f vs w, rtc api w (fst (call f vs w))).

Lemma call_good f vs w : good w (fst (call f vs w)).
Proof. apply apis_good, call_api. Qed.

(** Marking the [done] variable of a followed promise frees its deferred. *)
Lemma flag_done_free g d w :
  inv w -> p_flags w !! g = Some (d, false) ->
  free d (w <| p_flags ::= <[g := (d, true)]> |>) /\
  good w (w <| p_flags ::= <[g := (d, true)]> |>).
Proof.
  intros Hi Hg. split.
  - destruct (i_flag w Hi g d Hg) as (s & Hs & ?). split; [exists s; split; [done|lia]|].
    intros g'. cbn. rewrite lookup_insert. case_decide as Hne; [by intros [=]|].
    intros Hg'. by pose proof (i_flag_unique w Hi g g' d Hg Hg').
  - intros _. split; [|split; [by apply mono_same|done]]. split; try apply Hi; cbn.
    + intros g' x. rewrite lookup_insert. case_decide; [|by apply i_flag_next].
      subst. intros _. by eapply i_flag_next.
    + intros g' d'. rewrite lookup_insert. case_decide; [by intros [=]|by apply i_flag].
    + intros g1 g2 d'. rewrite !lookup_insert. repeat case_decide; try done.
      by apply i_flag_unique.
Qed.

Lemma all_value_good a key args w :
  good w (fst (apply_fn call (FAllValue a key) args w)).
Proof.
  cbn [apply_fn]. destruct (p_alls w !! a) as [s|]; [|done].
  destruct (_ =? 0); [|apply alls_good].
  set (w1 := w <| p_alls ::= _ |>). pose proof (resolve_good (a_deferred s)
    (map (default undefined) (set_result key (default undefined (head args)) (a_results s))) w1) as G.
  destruct (resolve _ _ w1) as [w2 ok]. cbn in *. etransitivity; [|exact G]. apply alls_good.
Qed.

Lemma apply_fn_good f args w : good w (fst (apply_fn call f args w)).
Proof.
  destruct f as [f|g|g|d|b cb|vs b| |a key|a]; try apply all_value_good; cbn [apply_fn].
  - apply call_good.
  - destruct (p_flags w !! g) as [[d []]|] eqn:Hg; try done. cbn [fst]. intros Hi.
    destruct (flag_done_free g d w Hi Hg) as [Hf G].
    apply (transitivity G (deferred_resolve_good d args _ Hf)). done.
  - destruct (p_flags w !! g) as [[d []]|] eqn:Hg; try done. cbn [fst]. intros Hi.
    destruct (flag_done_free g d w Hi Hg) as [Hf G].
    apply (transitivity G (deferred_reject_good d args _ Hf)). done.
  - apply deferred_notify_good.
  - assert (good w (fst (match cb with Some f => call f [] w
      | None => (w, Return (VData JNull)) end))) as G by (destruct cb; [apply call_good|done]).
    destruct (match cb with Some f => _ | None => _ end) as [w1 r]. cbn in G.
    destruct r as [[j|p]|]; cbn [fst]; [|etransitivity; [exact G|apply then_good]|done].
    etransitivity; [exact G|apply prep_promise_good].
  - apply prep_promise_good.
  - apply prep_promise_good.
  - destruct (p_alls w !! a); [apply reject_good|done].
Qed.

Lemma process_loop_good d pending : forall w, good w (fst (process_loop call d pending w)).
Proof.
  induction pending as [|e pending IH]; intros w; cbn [process_loop]; [done|].
  destruct (p_defs w !! d) as [s|]; [|done].
  assert (forall r vs w1, good w1 (fst (let '(w2, ok) := resolve r vs w1 in
    if ok : bool then process_loop call d pending w2 else (w2, false)))) as Hr.
  { intros r vs w1. pose proof (resolve_good r vs w1) as G. destruct (resolve r vs w1) as [w2 []].
    - etransitivity; [exact G|apply IH].
    - exact G. }
  destruct (if d_status s =? 1 then _ else _) as [| |f].
  3: { pose proof (apply_fn_good f (d_values s) w) as G.
       destruct (apply_fn call f (d_values s) w) as [w1 [v|]]; [|exact G].
       etransitivity; [exact G|apply Hr]. }
  all: destruct (d_status s =? 1); [apply Hr|].
  all: etransitivity; [apply reject_good|apply IH].
Qed.

Lemma notify_loop_good cbs vs : forall w, good w (fst (notify_loop call cbs vs w)).
Proof.
  induction cbs as [|e cbs IH]; intros w; cbn [notify_loop]; [done|].
  destruct (e_updated e) as [| |f].
  3: { pose proof (apply_fn_good f vs w) as G. destruct (apply_fn call f vs w) as [w1 [v|]];
         [|exact G]. etransitivity; [exact G|].
       etransitivity; [apply deferred_notify_good|apply IH]. }
  all: etransitivity; [apply deferred_notify_good|apply IH].
Qed.

(** Taking the first task off the local queue and running it. *)
Lemma run_task_inv t queue w :
  inv w -> p_draining w = t :: queue ->
  let '(w', ok) := run_task call t (w <| p_draining := queue |>) in
  inv w' /\ mono w w' /\ p_draining w' = queue.
Proof.
  intros Hi Hq. set (w1 := w <| p_draining := queue |>). destruct t as [d|a vs]; cbn [run_task].
  - assert (d ∈ procs (tasks w)) as Hin.
    { unfold tasks. rewrite Hq. cbn. apply elem_of_cons. by left. }
    destruct (i_procs w Hi d Hin) as (s & Hs & Hsc).
    assert (tasks w = TProcess d :: tasks w1) as Et by (unfold tasks; by rewrite Hq).
    pose proof (i_nodup w Hi) as Hnd. rewrite Et in Hnd. cbn in Hnd.
    apply NoDup_cons in Hnd as [Hnin Hnd].
    unfold process_queue. change (p_defs w1) with (p_defs w). rewrite Hs.
    pose proof (i_defs w Hi d s Hs) as [Hd1 _]. destruct (Hd1 Hsc) as [[pending Ep] Hpos].
    rewrite Ep. rewrite (upd_def_eq d _ w1 s) by done.
    set (s1 := s <| d_scheduled := false |> <| d_pending := None |>).
    set (w2 := w1 <| p_defs ::= <[d := s1]> |>).
    assert (forall d', scheduled d' w2 <-> scheduled d' w /\ d' <> d) as Hsc2.
    { intros d'. unfold scheduled. cbn. rewrite lookup_insert. case_decide as E.
      - subst d'. split; [by intros (? & [= <-] & ?)|]. by intros [_ ?].
      - split; [intros (x & ? & ?); split; eauto|intros [(x & ? & ?) _]; eauto]. }
    assert (inv w2) as Hi2.
    { split; try apply Hi.
      - intros d' x. cbn. rewrite lookup_insert. case_decide; [|by apply i_next].
        subst. intros _. by eapply i_next.
      - intros d' x. cbn. rewrite lookup_insert. case_decide; [|by apply i_defs].
        intros [= <-]. split; cbn; [done|]. intros _ [? ?]. done.
      - intros g d' Hg. destruct (i_flag w Hi g d' Hg) as (x & Hx & ?). cbn.
        rewrite lookup_insert. case_decide; [|eauto]. subst. exists s1. split; [done|].
        assert (x = s) as -> by congruence. done.
      - done.
      - intros d' Hd'. change (tasks w2) with (tasks w1) in Hd'. apply Hsc2. split.
        + apply i_procs; [done|]. rewrite Et. cbn. apply elem_of_cons. by right.
        + by intros ->.
      - intros Hu d' [Hs' Hne]%Hsc2. apply (i_sched w Hi Hu) in Hs'. rewrite Et in Hs'. cbn in Hs'.
        apply elem_of_cons in Hs' as [|]; done. }
    assert (mono w w2) as Hm.
    { split; [done|]. intros d' x Hx Hp. cbn. rewrite lookup_insert. case_decide; [|eauto].
      subst. exists s1. assert (x = s) as -> by congruence. done. }
    pose proof (process_loop_good d (array pending w2) w2 Hi2) as G.
    destruct (process_loop call d _ w2) as [w3 ok]. cbn in G. destruct G as (? & ? & ?).
    split; [done|]. split; [by etransitivity|done].
  - assert (procs (tasks w1) = procs (tasks w)) as E.
    { unfold tasks. rewrite Hq. done. }
    assert (inv w1) as Hi1 by (split; rewrite ?E; try done; apply Hi).
    pose proof (notify_loop_good (array a w1) vs w1 Hi1) as G.
    destruct (notify_loop call _ vs w1) as [w3 ok]. cbn in G. by destruct G as (? & ? & ?).
Qed.

Lemma stop_drain_inv w : inv w -> inv (w <| p_draining := [] |> <| p_uncaught ::= S |>).
Proof.
  intros Hi. pose proof (i_nodup w Hi) as Hnd. unfold tasks in Hnd.
  rewrite procs_app in Hnd. apply NoDup_app in Hnd as (_ & _ & Hnd).
  split; try apply Hi; try done.
  intros d Hd. apply (i_procs w Hi). unfold tasks. rewrite procs_app. apply elem_of_app. by right.
Qed.

Lemma drain_loop_inv queue : forall w,
  inv w -> p_draining w = queue ->
  inv (drain_loop call queue w) /\ mono w (drain_loop call queue w) /\
  p_draining (drain_loop call queue w) = [].
Proof.
  induction queue as [|t queue IH]; intros w Hi Hq; cbn [drain_loop].
  - assert (w <| p_draining := [] |> = w) as -> by (destruct w; cbn in *; by subst). done.
  - pose proof (run_task_inv t queue w Hi Hq) as H.
    destruct (run_task call t _) as [w1 ok]. destruct H as (Hi1 & Hm1 & Hq1).
    destruct ok.
    + destruct (IH w1 Hi1 Hq1) as (? & ? & ?). split; [done|]. split; [by etransitivity|done].
    + split; [by apply stop_drain_inv|]. split; [|done].
      destruct Hm1 as [Hu Hk]. split; [cbn; lia|]. done.
Qed.

Lemma later_drain_inv w :
  inv w -> p_draining w = [] ->
  inv (later_drain call w) /\ mono w (later_drain call w) /\ p_draining (later_drain call w) = [].
Proof.
  intros Hi Hd. unfold later_drain. set (w1 := w <| p_timeout := false |> <| p_queue := [] |> <| p_draining := p_queue w |>).
  assert (tasks w1 = tasks w) as E by (unfold tasks; cbn; rewrite Hd; by rewrite app_nil_r).
  assert (inv w1) as Hi1 by (split; rewrite ?E; try done; apply Hi).
  destruct (drain_loop_inv (p_queue w) w1 Hi1 eq_refl) as (? & ? & ?). split; [done|].
  split; [|done]. etransitivity; [by apply (mono_same w w1)|done].
Qed.

(** What happens to a page: its scripts call the API, and the browser runs the
    timeout. *)
Inductive step : page -> page -> Prop :=
  | step_api w w' : api w w' -> step w w'
  | step_drain w : p_timeout w = true -> step w (later_drain call w).

Definition reachable : page -> Prop := rtc step initial_page.

Definition stable (w : page) : Prop := inv w /\ p_draining w = [].

Lemma step_stable w w' : step w w' -> stable w -> stable w' /\ mono w w'.
Proof.
  intros Hs [Hi Hd]. destruct Hs as [w w' Ha|w Ht].
  - destruct (api_good w w' Ha Hi) as (? & ? & ?). split; [split; [done|congruence]|done].
  - destruct (later_drain_inv w Hi Hd) as (? & ? & ?). by split.
Qed.

Lemma steps_stable w w' : rtc step w w' -> stable w -> stable w' /\ mono w w'.
Proof.
  induction 1 as [|w1 w2 w3 Hs _ IH]; intros Hw; [done|].
  destruct (step_stable w1 w2 Hs Hw) as [H2 M2]. destruct (IH H2) as [H3 M3].
  split; [done|]. by etransitivity.
Qed.

Lemma initial_stable : stable initial_page.
Proof. split; [|done]. split; try done. constructor. intros d Hd. by apply not_elem_of_nil in Hd.
  intros _ d (s & Hs & _). done.
Qed.

(** C7. A promise settles once: whatever the page and its handlers do from a
    reachable state on, even with exceptions in handlers and promises that
    follow each other, a resolved promise stays resolved and a rejected one
    rejected, with the same values. *)
Theorem settled_once w w' d s :
  reachable w -> rtc step w w' -> p_defs w !! d = Some s -> 0 < d_status s ->
  exists s', p_defs w' !! d = Some s' /\ d_status s' = d_status s /\ d_values s' = d_values s.
Proof.
  intros Hr Hs Hd Hp. destruct (steps_stable _ _ Hr initial_stable) as [Hw _].
  destruct (steps_stable _ _ Hs Hw) as [_ [_ Hm]]. by apply Hm.
Qed.

(** C8. No callback is forgotten: in a reachable state in which no exception
    has escaped a handler, a settled promise with pending callbacks has its
    queue processing waiting in the later queue, exactly once, and the timeout
    that will run it is set. *)
Theorem callbacks_scheduled w d s :
  reachable w -> p_uncaught w = 0%nat -> p_defs w !! d = Some s ->
  0 < d_status s -> is_Some (d_pending s) ->
  d ∈ procs (p_queue w) /\ NoDup (procs (p_queue w)) /\ p_timeout w = true.
Proof.
  intros Hr Hu Hs Hp Hpend. destruct (steps_stable _ _ Hr initial_stable) as [[Hi Hd] _].
  assert (tasks w = p_queue w) as Et by (unfold tasks; by rewrite Hd).
  destruct (i_defs w Hi d s Hs) as [_ H2].
  assert (d ∈ procs (p_queue w)) as Hin.
  { rewrite <- Et. apply (i_sched w Hi Hu). exists s. auto. }
  split; [done|]. split; [rewrite <- Et; by apply i_nodup|].
  apply (i_timer w Hi). intros E. rewrite E in Hin. by apply not_elem_of_nil in Hin.
Qed.

End Pages.

(** ** Examples *)

(** A page whose handler 0 throws; the others return undefined. *)
Definition ex_call (f : nat) (_ : list val) (w : page) : page * result :=
  (w, match f with O => Throw | _ => Return undefined end).

Lemma ex_call_api f vs w : rtc api w (fst (ex_call f vs w)).
Proof. constructor. Qed.

Definition ex_resolved : page :=
  fst (resolve 0 [VData (JNum 7)] (fst (then_ 0 (HFn (FUser 1)) HNull HUndef (fst (defer initial_page))))).

Lemma ex_resolved_reachable : reachable ex_call ex_resolved.
Proof.
  eapply rtc_l; [apply step_api, api_defer|]. eapply rtc_l; [apply step_api, api_then|].
  eapply rtc_l; [apply step_api, api_resolve|]. constructor.
Qed.

Lemma settled_once_witness :
  let w := later_drain ex_call (reject 0 [VData JNull] ex_resolved) in
  exists s', p_defs w !! 0%nat = Some s' /\ d_status s' = 1 /\ d_values s' = [VData (JNum 7)].
Proof.
  cbv zeta.
  refine (settled_once ex_call ex_call_api ex_resolved _ 0
    (mk_dstate 1 [VData (JNum 7)] (Some 0%nat) true) ex_resolved_reachable _ eq_refl eq_refl).
  eapply rtc_l; [apply step_api, api_reject|]. eapply rtc_l; [apply (step_drain ex_call (reject 0 [VData JNull] ex_resolved)); reflexivity|].
  constructor.
Defined.

Lemma callbacks_scheduled_witness :
  0%nat ∈ procs (p_queue ex_resolved) /\ NoDup (procs (p_queue ex_resolved)) /\
  p_timeout ex_resolved = true.
Proof.
  refine (callbacks_scheduled ex_call ex_call_api ex_resolved 0 _ ex_resolved_reachable
    eq_refl eq_refl eq_refl (mk_is_Some _ _ eq_refl)).
Defined.

(** Two unrelated promises with a callback each; the callback of the first
    throws. *)
Definition ex_two : page :=
  let w := fst (defer (fst (defer initial_page))) in
  let w := done 0 (HFn (FUser 0)) w in
  let w := done 1 (HFn (FUser 1)) w in
  fst (resolve 1 [] (fst (resolve 0 [] w))).

(** After the drain the second promise is resolved and has its callback, but
    nothing is left that would run it, and a later [then] does not help: it
    counts as scheduled for ever. *)
Example exception_drops_others :
  let w := later_drain ex_call ex_two in
  let w' := done 1 (HFn (FUser 2)) w in
  p_uncaught w = 1%nat /\ p_queue w' = [] /\ p_timeout w' = false /\
  exists s, p_defs w' !! 1%nat = Some s /\ d_status s = 1 /\ d_scheduled s = true /\
    option_map (fun a => length (array a w')) (d_pending s) = Some 2%nat.
Proof. repeat split. eexists. repeat split. Qed.
