(* ===== verification/Series.v ===== *)
(** * Series and grids (src/src/base1/cockpit.js, [SeriesSink] and [SeriesGrid])

    A sink caches time series data in an index of entries and fills the rows of
    the grids registered with it; a grid is a window onto its sinks' data.

    Entries, indices, rows, link lists, sinks and grids are shared objects and live
    in stores.  Sinks with the same identifier share one index, which they find in
    the storage that [lookup_storage] picks (one for all windows here); each counts
    and expires on its own what it has put there.  The data provider ([fetch_callback]) is a parameter: it may call
    [input] before it returns.  Callbacks of a grid are seen in the trace. *)

From S2P Require Import Prelude.

(** ** Data *)

Record entry := mk_entry { en_beg : Z; en_items : list jval; en_mapping : jval }.

#[export] Instance entry_settable : Settable entry := fun e =>
  mk_entry (en_beg e) (en_items e) (en_mapping e).

(** An index: the array of entries, which are objects in [ix_entries]. *)
Record index := mk_index { ix_entries : gmap nat entry; ix_next : nat; ix_list : list nat }.

#[export] Instance index_settable : Settable index := fun x =>
  mk_index (ix_entries x) (ix_next x) (ix_list x).

Definition empty_index : index := mk_index ∅ 0 [].

(** The closure of [SeriesSink].  [si_home] is the index, [si_queue] the linked
    list from [head] to [tail]; [si_registered] maps grid ids to link lists. *)
Record sink := mk_sink {
  si_interval : Z; si_limit : Z; si_home : nat; si_count : Z; si_queue : list nat;
  si_registered : list (nat * nat) }.

#[export] Instance sink_settable : Settable sink := fun s =>
  mk_sink (si_interval s) (si_limit s) (si_home s) (si_count s) (si_queue s) (si_registered s).

(** What the functions on the cache work on: the variables of a sink and the
    index it uses. *)
Record cache := mk_cache {
  k_limit : Z; k_entries : gmap nat entry; k_next : nat; k_index : list nat;
  k_count : Z; k_queue : list nat }.

#[export] Instance cache_settable : Settable cache := fun k =>
  mk_cache (k_limit k) (k_entries k) (k_next k) (k_index k) (k_count k) (k_queue k).

Definition view (s : sink) (x : index) : cache :=
  mk_cache (si_limit s) (ix_entries x) (ix_next x) (ix_list x) (si_count s) (si_queue s).

Record grid := mk_grid {
  g_interval : Z; g_beg : Z; g_end : Z; g_rows : list nat; g_sinks : list (nat * nat);
  g_callbacks : list (nat * nat); g_suppress : Z; g_walking : option Z }.

#[export] Instance grid_settable : Settable grid := fun g =>
  mk_grid (g_interval g) (g_beg g) (g_end g) (g_rows g) (g_sinks g) (g_callbacks g)
    (g_suppress g) (g_walking g).

Inductive series_event :=
  | ENotify (g : nat) (x n : Z)        (* callbacks and the notify event *)
  | EFetch (k : nat) (beg end_ : Z) (for_walking : bool).

Record world := mk_world {
  w_sinks : gmap nat sink; w_indexes : gmap nat index; w_storage : list (string * nat);
  w_grids : gmap nat grid;
  w_links : gmap nat (list (list string * nat)); w_rows : gmap nat (list jval);
  w_next : nat; w_trace : list series_event }.

#[export] Instance world_settable : Settable world := fun w =>
  mk_world (w_sinks w) (w_indexes w) (w_storage w) (w_grids w) (w_links w) (w_rows w) (w_next w) (w_trace w).

Definition upd_sink (k : nat) (f : sink -> sink) (w : world) : world := w <| w_sinks ::= alter f k |>.
Definition upd_grid (g : nat) (f : grid -> grid) (w : world) : world := w <| w_grids ::= alter f g |>.
Definition log (e : series_event) (w : world) : world := w <| w_trace ::= (fun t => t ++ [e]) |>.

Definition empty_world : world := mk_world ∅ ∅ [] ∅ ∅ ∅ 0 [].

(** [setup_index]: [storage[id]], or a new array. *)
Definition setup_index (id : string) (w : world) : world * nat :=
  let fresh := w_next w in
  let made := w <| w_indexes ::= <[fresh := empty_index]> |> <| w_next ::= S |> in
  if String.eqb id "" then (made, fresh)
  else match assoc_get id (w_storage w) with
       | Some x => (w, x)
       | None => (made <| w_storage ::= assoc_set id fresh |>, fresh)
       end.

(** [new SeriesSink(interval, identifier, fetch)]; no identifier is the empty
    string, and the sink is the result. *)
Definition new_sink (interval : Z) (identifier : string) (w : world) : world * nat :=
  let limit := if String.eqb identifier "" then 1024 else 64 * 1024 in
  let '(w, home) := setup_index identifier w in
  let k := w_next w in
  (w <| w_sinks ::= <[k := mk_sink interval limit home 0 [] []]> |> <| w_next ::= S |>, k).

(** ** The index *)

(** The loop of [search] on the [beg]s of the index. *)
Fixpoint search_loop (fuel : nat) (idx : list Z) (beg low high : Z) : Z :=
  match fuel with
  | O => low
  | S fuel =>
      if low <=? high then
        let mid := (low + high) / 2 in
        let val := default 0 (idx !! Z.to_nat mid) in
        if val <? beg then search_loop fuel idx beg (mid + 1) high
        else if beg <? val then search_loop fuel idx beg low (mid - 1)
        else mid
      else low
  end.

Definition search (idx : list Z) (beg : Z) : nat :=
  Z.to_nat (search_loop (S (length idx)) idx beg 0 (zlen idx - 1)).

Definition get_entry (k : cache) (i : nat) : entry :=
  default (mk_entry 0 [] JNull) (k_entries k !! i).

Definition entries (k : cache) : list entry := map (get_entry k) (k_index k).

Definition en_len (e : entry) : Z := zlen (en_items e).
Definition en_end (e : entry) : Z := en_beg e + en_len e.

(** Positions the two loops visit start one before the insertion point. *)
Definition loop_start (at_ : nat) : nat := if Nat.ltb 0 at_ then at_ - 1 else at_.

Definition slice (f t : Z) (l : list jval) : list jval :=
  take (Z.to_nat (t - f)) (drop (Z.to_nat f) l).

(** ** Loading *)

Record seg := mk_seg { s_beg : Z; s_items : list jval; s_mapping : jval }.

(** The walk of [load]: what is processed from the cache, what must be fetched
    in between, and where the cached data ends. *)
Fixpoint load_loop (es : list entry) (i at_ : nat) (beg end_ last : Z)
    : list seg * list (Z * Z) * Z :=
  match es with
  | [] => ([], [], last)
  | entry :: es =>
      if en_len entry =? 0 then load_loop es (S i) at_ beg end_ last
      else
        let eb := en_beg entry in
        let b := Z.max eb beg in
        let e := Z.min (en_end entry) end_ in
        if b <? e then
          let '(segs, fetches, last') := load_loop es (S i) at_ beg end_ e in
          (mk_seg b (slice (b - eb) (e - eb) (en_items entry)) (en_mapping entry) :: segs,
           (if last <? b then [(last, b)] else []) ++ fetches, last')
        else if Nat.leb at_ i then ([], [], last)
        else load_loop es (S i) at_ beg end_ last
  end.

Definition load_plan (es : list entry) (beg end_ : Z) : list seg * list (Z * Z) :=
  let at_ := search (map en_beg es) beg in
  let i := loop_start at_ in
  let '(segs, fetches, last) := load_loop (drop i es) i at_ beg end_ beg in
  (segs, fetches ++ (if last =? end_ then [] else [(last, end_)])).

(** ** Stashing *)

(** [items.splice(at, num)]. *)
Definition splice_out {A} (at_ num : Z) (l : list A) : list A :=
  take (Z.to_nat at_) l ++ drop (Z.to_nat at_ + Z.to_nat num) l.

(** The first loop of [stash]: truncate the entries that intersect. *)
Fixpoint truncate_loop (ids : list nat) (i at_ : nat) (beg end_ : Z) (k : cache) : cache * nat :=
  match ids with
  | [] => (k, i)
  | id :: ids =>
      let entry := get_entry k id in
      if en_len entry =? 0 then truncate_loop ids (S i) at_ beg end_ k
      else
        let eb := en_beg entry in
        let b := Z.max eb beg in
        let e := Z.min (en_end entry) end_ in
        if b <? e then
          let num := e - b in
          let entry := entry <| en_items ::= splice_out (b - eb) num |> in
          let entry := if b - eb =? 0 then entry <| en_beg := eb + (e - eb) |> else entry in
          truncate_loop ids (S i) at_ beg end_
            (k <| k_entries ::= <[id := entry]> |> <| k_count := k_count k - num |>)
        else if Nat.leb at_ i then (k, i)
        else truncate_loop ids (S i) at_ beg end_ k
  end.

(** The clean-up loop [for (at--; at <= i; at++)]: a removal shortens the index
    and stays in place, so each round either advances or removes. *)
Fixpoint cleanup_loop (fuel : nat) (at_ i : nat) (k : cache) (index : list nat) : list nat :=
  match fuel with
  | O => index
  | S fuel =>
      if Nat.leb at_ i then
        match index !! at_ with
        | Some id =>
            if en_len (get_entry k id) =? 0
            then cleanup_loop fuel at_ i k (take at_ index ++ drop (S at_) index)
            else cleanup_loop fuel (S at_) i k index
        | None => cleanup_loop fuel (S at_) i k index
        end
      else index
  end.

(** [while (head && count > limit)]. *)
Fixpoint expire_loop (queue : list nat) (k : cache) : cache :=
  match queue with
  | [] => k <| k_queue := [] |>
  | head :: queue =>
      if k_limit k <? k_count k then
        let e := get_entry k head in
        expire_loop queue
          (k <| k_count := k_count k - en_len e |>
             <| k_entries ::= <[head := mk_entry (en_beg e) [] JNull]> |>)
      else k <| k_queue := head :: queue |>
  end.

(** Remove empty entries at the beginning. *)
Fixpoint drop_empty (k : cache) (index : list nat) : list nat :=
  match index with
  | [] => []
  | id :: rest => if 0 <? en_len (get_entry k id) then index else drop_empty k rest
  end.

(** Insert the new entry into the index and at the end of the list. *)
Definition insert_entry (at_ : nat) (beg : Z) (items : list jval) (mapping : jval) (k : cache) : cache :=
  let id := k_next k in
  k <| k_entries ::= <[id := mk_entry beg items mapping]> |> <| k_next ::= S |>
    <| k_queue ::= (fun q => q ++ [id]) |>
    <| k_count := k_count k + zlen items |>
    <| k_index := take at_ (k_index k) ++ id :: drop at_ (k_index k) |>.

Definition stash (beg : Z) (items : list jval) (mapping : jval) (k : cache) : cache :=
  match items with
  | [] => k
  | _ =>
      let at_ := search (map en_beg (entries k)) beg in
      let end_ := beg + zlen items in
      let start := loop_start at_ in
      let '(k, i) := truncate_loop (drop start (k_index k)) start at_ beg end_ k in
      let k := insert_entry at_ beg items mapping k in
      (* from at_ - 1, where position -1 is no entry *)
      let k := k <| k_index :=
        cleanup_loop (S i + length (k_index k)) (at_ - 1) i k (k_index k) |> in
      let k := expire_loop (k_queue k) k in
      k <| k_index := drop_empty k (k_index k) |>
  end.

(** [stash] of a sink: its own count and list change, and the index it shares. *)
Definition stash_in (k : nat) (beg : Z) (items : list jval) (mapping : jval) (w : world) : world :=
  match w_sinks w !! k with
  | None => w
  | Some s =>
      let x := default empty_index (w_indexes w !! si_home s) in
      let c := stash beg items mapping (view s x) in
      upd_sink k (fun s => s <| si_count := k_count c |> <| si_queue := k_queue c |>)
        (w <| w_indexes ::= <[si_home s := mk_index (k_entries c) (k_next c) (k_index c)]> |>)
  end.

(** ** Processing *)

(** Property access on a value: [data[key]]. *)
Definition js_get (v key : jval) : jval :=
  match v with
  | JObj fields => default JUndef (assoc_get (js_String key) fields)
  | JArr l =>
      let fix nth (l : list jval) (n : Z) := match l with
        | [] => JUndef
        | x :: l => if String.eqb (pretty n) (js_String key) then x else nth l (n + 1)
        end in
      if String.eqb (js_String key) "length" then JNum (zlen l) else nth l 0
  | _ => JUndef
  end.

(** The value of one item at a path, through the mapping. *)
Fixpoint field (data map : jval) (path : list string) : jval :=
  match path with
  | [] => data
  | p :: path =>
      match data with
      | JUndef => JUndef
      | _ =>
          if negb (truthy data) then JUndef
          else match map with
               | JUndef | JNull => field (js_get data (JStr p)) map path
               | _ =>
                   let map := js_get map (JStr p) in
                   if truthy map then field (js_get data (js_get map (JStr ""))) map path
                   else field (js_get data (JStr p)) map path
               end
      end
  end.

(** [row[i] = v] on a JavaScript array. *)
Definition row_set (i : nat) (v : jval) (row : list jval) : list jval :=
  <[i := v]> (row ++ replicate (S i - length row) JUndef).

(** The loop over the positions of one link; [items] starts at the first item
    to take and [t] is where to place it. *)
Fixpoint fill_row (n : nat) (t : nat) (items : list jval) (mapping : jval) (path : list string)
    (row : list jval) : list jval :=
  match n, items with
  | S n, x :: items => fill_row n (S t) items mapping path (row_set t (field x mapping path) row)
  | _, _ => row
  end.

(** All links of one grid; each link is [(path, row)].  A row belongs to one
    link, so filling row by row is the same as item by item. *)
Definition fill_links (links : list (list string * nat)) (n t : nat) (items : list jval)
    (mapping : jval) (rows : gmap nat (list jval)) : gmap nat (list jval) :=
  foldl (fun rows link =>
    alter (fill_row n t items mapping (fst link)) (snd link) rows) rows links.

(** ** Grids *)

Definition notify (g : nat) (x n : Z) (w : world) : world :=
  match w_grids w !! g with
  | None => w
  | Some gr =>
      if negb (g_suppress gr =? 0) then w
      else
        let width := g_end gr - g_beg gr in
        let n := if width <? x + n then width - x else n in
        if n <=? 0 then w else log (ENotify g x n) w
  end.

Definition process_grid (beg : Z) (items : list jval) (mapping : jval) (p : nat * nat) (w : world)
    : world :=
  let '(g, l) := p in
  match w_grids w !! g with
  | None => w
  | Some gr =>
      let end_ := beg + zlen items in
      let b := Z.max beg (g_beg gr) in
      let e := Z.min end_ (g_end gr) in
      if b <? e then
        let f := b - beg in
        let t := b - g_beg gr in
        let n := e - b in
        let links := default [] (w_links w !! l) in
        notify g t n
          (w <| w_rows ::= fill_links links (Z.to_nat n) (Z.to_nat t)
                  (drop (Z.to_nat f) items) mapping |>)
      else w
  end.

Definition process (k : nat) (beg : Z) (items : list jval) (mapping : jval) (w : world) : world :=
  match w_sinks w !! k with
  | None => w
  | Some s => foldl (fun w p => process_grid beg items mapping p w) w (si_registered s)
  end.

(** [SeriesSink.input]. *)
Definition input (k : nat) (beg : Z) (items : list jval) (mapping : jval) (w : world) : world :=
  stash_in k beg items mapping (process k beg items mapping w).

Section Fetching.

(** [None] when no [fetch_callback] was given; otherwise the calls of [input]
    it makes before it returns. *)
Context (fetch_callback : nat -> option (Z -> Z -> bool -> list (Z * list jval * jval))).

Definition fetch (k : nat) (beg end_ : Z) (for_walking : bool) (w : world) : world :=
  match fetch_callback k with
  | None => w
  | Some cb =>
      let w := if for_walking then w
               else stash_in k beg (replicate (Z.to_nat (end_ - beg)) JUndef) (JObj []) w in
      let w := log (EFetch k beg end_ for_walking) w in
      foldl (fun w i => let '(b, items, m) := i in input k b items m w) w (cb beg end_ for_walking)
  end.

Definition load (k : nat) (beg end_ : Z) (for_walking : bool) (w : world) : world :=
  match w_sinks w !! k with
  | None => w
  | Some s =>
      if end_ <=? beg then w
      else
        let x := default empty_index (w_indexes w !! si_home s) in
        let '(segs, fetches) := load_plan (entries (view s x)) beg end_ in
        let w := foldl (fun w g => process k (s_beg g) (s_items g) (s_mapping g) w) w segs in
        foldl (fun w r => fetch k (fst r) (snd r) for_walking w) w fetches
  end.

(** [SeriesGrid.sync]. *)
Definition sync (g : nat) (for_walking : bool) (w : world) : world :=
  match w_grids w !! g with
  | None => w
  | Some gr =>
      let w := upd_grid g (fun gr => gr <| g_suppress := g_suppress gr + 1 |>) w in
      let w := foldl (fun w p => load (fst p) (g_beg gr) (g_end gr) for_walking w) w (g_sinks gr) in
      let w := upd_grid g (fun gr => gr <| g_suppress := g_suppress gr - 1 |>) w in
      notify g 0 (g_end gr - g_beg gr) w
  end.

Definition move_internal (g : nat) (beg : Z) (end_ : option Z) (for_walking : bool) (w : world)
    : world :=
  match w_grids w !! g with
  | None => w
  | Some gr =>
      let end_ := default (beg + (g_end gr - g_beg gr)) end_ in
      let beg := if end_ <? beg then end_ else beg in
      let w := upd_grid g (fun gr => gr <| g_beg := beg |> <| g_end := end_ |>) w in
      match g_rows gr with
      | [] => w
      | rows =>
          sync g for_walking
            (w <| w_rows ::= (fun m => foldl (fun m r => alter (fun _ => []) r m) m rows) |>)
      end
  end.

(** [SeriesGrid.move]; [now] is [Date.now()]. *)
Definition move (g : nat) (beg end_ : option Z) (now : Z) (w : world) : world :=
  match w_grids w !! g with
  | None => w
  | Some gr =>
      let w := upd_grid g (fun gr => gr <| g_walking := None |>) w in
      let relative (x : Z) := if x <? 0 then now / g_interval gr + x else x in
      move_internal g (relative (default 0 beg)) (relative <$> end_) false w
  end.

(** [SeriesGrid.walk] keeps the offset; each tick of its interval moves the
    grid along. *)
Definition walk (g : nat) (now : Z) (w : world) : world :=
  upd_grid g (fun gr =>
    if 2000000000 <? g_interval gr then gr
    else gr <| g_walking := Some (now - g_beg gr * g_interval gr) |>) w.

Definition walk_tick (g : nat) (now : Z) (w : world) : world :=
  match w_grids w !! g with
  | Some gr =>
      match g_walking gr with
      | Some offset => move_internal g ((now - offset) / g_interval gr) None true w
      | None => w
      end
  | None => w
  end.

(** [new SeriesGrid(interval, beg, end)]; the grid is [w_next]. *)
Definition new_grid (interval : Z) (beg end_ : option Z) (now : Z) (w : world) : world :=
  let g := w_next w in
  move g beg end_ now
    (w <| w_grids ::= <[g := mk_grid interval 0 0 [] [] [] 0 None]> |> <| w_next ::= S |>).

End Fetching.

(** [SeriesSink._register]: [None] is the exception for a mismatched interval;
    the result names the link list. *)
Definition register (k g : nat) (w : world) : option (world * nat) :=
  match w_sinks w !! k, w_grids w !! g with
  | Some s, Some gr =>
      if negb (g_interval gr =? si_interval s) then None
      else
        match list_find (fun p => fst p = g) (si_registered s) with
        | Some (_, (_, l)) => Some (w, l)
        | None =>
            let l := w_next w in
            Some (upd_sink k (fun s => s <| si_registered ::= (fun r => r ++ [(g, l)]) |>)
                    (w <| w_links ::= <[l := []]> |> <| w_next ::= S |>), l)
        end
  | _, _ => None
  end.

(** [SeriesGrid.add(sink, path)]: the new row, or the exception. *)
Definition add (g k : nat) (path : list string) (w : world) : option (world * nat) :=
  let row := w_next w in
  let w := upd_grid g (fun gr => gr <| g_rows ::= (fun r => r ++ [row]) |>)
             (w <| w_rows ::= <[row := []]> |> <| w_next ::= S |>) in
  p ← register k g w;
  let '(w, l) := p in
  let w := match default [] (w_links w !! l) with
           | [] => upd_grid g (fun gr => gr <| g_sinks ::= (fun s => s ++ [(k, l)]) |>) w
           | _ => w
           end in
  Some (w <| w_links ::= alter (fun ls => ls ++ [(path, row)]) l |>, row).

(** [SeriesGrid.add(callback, early)]. *)
Definition add_callback (g cb : nat) (early : bool) (w : world) : world * nat :=
  let row := w_next w in
  (upd_grid g (fun gr => gr <| g_rows ::= (fun r => r ++ [row]) |>
     <| g_callbacks ::= (fun c => if early then (cb, row) :: c else c ++ [(cb, row)]) |>)
     (w <| w_rows ::= <[row := []]> |> <| w_next ::= S |>), row).

(** Drop the first element that satisfies the test. *)
Fixpoint remove_first {A} (f : A -> bool) (l : list A) : list A :=
  match l with
  | [] => []
  | x :: l => if f x then l else x :: remove_first f l
  end.

(** [SeriesGrid.remove(row)]. *)
Definition remove (g row : nat) (w : world) : world :=
  match w_grids w !! g with
  | None => w
  | Some gr =>
      let links := foldl (fun m p => alter (remove_first (fun l => Nat.eqb (snd l) row)) (snd p) m)
                     (w_links w) (g_sinks gr) in
      upd_grid g (fun gr => gr <| g_rows ::= remove_first (Nat.eqb row) |>)
        (w <| w_links := links |>)
  end.

(** [links.remove()]. *)
Definition links_remove (k g : nat) (w : world) : world :=
  upd_sink k (fun s => s <| si_registered ::= remove_first (fun p => Nat.eqb (fst p) g) |>) w.

(** [SeriesGrid.remove_sink]. *)
Definition remove_sink (g k : nat) (w : world) : world :=
  match w_grids w !! g with
  | None => w
  | Some gr =>
      if existsb (fun p => Nat.eqb (fst p) k) (g_sinks gr)
      then upd_grid g (fun gr => gr <| g_sinks ::= remove_first (fun p => Nat.eqb (fst p) k) |>)
             (links_remove k g w)
      else w
  end.

(** [SeriesSink.close]: each grid still registered when its turn comes. *)
Definition close_sink (k : nat) (w : world) : world :=
  match w_sinks w !! k with
  | None => w
  | Some s =>
      foldl (fun w p =>
        let still := match w_sinks w !! k with
                     | Some s => existsb (fun q => Nat.eqb (fst q) (fst p)) (si_registered s)
                     | None => false
                     end in
        if still then remove_sink (fst p) k w else w) w (si_registered s)
  end.

(** [SeriesGrid.close]. *)
Definition close_grid (g : nat) (w : world) : world :=
  match w_grids w !! g with
  | None => w
  | Some gr =>
      let w := foldl (fun w p => links_remove (fst p) g w) w (rev (g_sinks gr)) in
      upd_grid g (fun gr => gr <| g_walking := None |> <| g_sinks := [] |>) w
  end.
