(* ===== verification/SeriesSpec.v ===== *)
(** * What a series sink promises

    [load] serves every position of the range it is asked for, from the cache
    exactly when it is cached and by one fetch otherwise; an index never holds
    more than the limits of the sinks that share it; processing data fills the
    right cells of a grid. *)

From S2P Require Import Prelude.
From S2P Require Import Series.
From Stdlib Require Import Sorted.

(** ** Binary search *)

Definition increasing (l : list Z) : Prop :=
  forall i j x y, (i <= j)%nat -> l !! i = Some x -> l !! j = Some y -> x <= y.

Lemma search_loop_spec fuel idx beg : increasing idx -> forall low high,
  0 <= low -> low <= high + 1 -> high < zlen idx -> high - low + 1 < Z.of_nat fuel ->
  (forall i v, idx !! i = Some v -> Z.of_nat i < low -> v < beg) ->
  (forall i v, idx !! i = Some v -> high < Z.of_nat i -> beg < v) ->
  let r := search_loop fuel idx beg low high in
  0 <= r <= zlen idx /\
  (forall i v, idx !! i = Some v -> Z.of_nat i < r -> v <= beg) /\
  (forall i v, idx !! i = Some v -> r <= Z.of_nat i -> beg <= v).
Proof.
  intros Hinc. induction fuel as [|fuel IH]; intros low high H0 Hle Hh Hf Hlo Hhi; [lia|].
  cbn [search_loop]. destruct (Z.leb_spec low high) as [Hlh|Hlh].
  2: { cbv zeta. split; [lia|]. split; intros i v Hv Hi.
       - specialize (Hlo i v Hv Hi). lia.
       - assert (beg < v) by (apply (Hhi i); [done|lia]). lia. }
  set (mid := (low + high) / 2).
  assert (low <= mid <= high) as Hm by (unfold mid; Z.to_euclidean_division_equations; lia).
  unfold zlen in *. destruct (idx !! Z.to_nat mid) as [val|] eqn:Ev.
  2: { apply lookup_ge_None in Ev. lia. }
  cbn [default]. cbv zeta. cbn [id]. destruct (Z.ltb_spec val beg); [|destruct (Z.ltb_spec beg val)].
  - apply IH; try lia; [|done]. intros i v Hv Hi.
    assert (v <= val) by (eapply (Hinc i (Z.to_nat mid)); [lia|done..]). lia.
  - apply IH; try lia; [done|]. intros i v Hv Hi.
    assert (val <= v) by (eapply (Hinc (Z.to_nat mid) i); [lia|done..]). lia.
  - assert (val = beg) as -> by lia. split; [lia|]. split; intros i v Hv Hi.
    + eapply (Hinc i (Z.to_nat mid)); [lia|done..].
    + eapply (Hinc (Z.to_nat mid) i); [lia|done..].
Qed.

Lemma search_spec idx beg :
  increasing idx ->
  let at_ := search idx beg in
  (at_ <= length idx)%nat /\
  (forall i v, idx !! i = Some v -> (i < at_)%nat -> v <= beg) /\
  (forall i v, idx !! i = Some v -> (at_ <= i)%nat -> beg <= v).
Proof.
  intros Hinc. unfold search.
  destruct (search_loop_spec (S (length idx)) idx beg Hinc 0 (zlen idx - 1)) as (Hr & Ha & Hb);
    unfold zlen in *; try lia.
  - intros i v Hv Hi. apply lookup_lt_Some in Hv. lia.
  - split; [lia|]. split; intros i v Hv Hi; [eapply Ha; [done|lia]|eapply Hb; [done|lia]].
Qed.

(** ** Loading *)

Definition before (e e' : entry) : Prop := en_end e <= en_beg e'.

(** Entries in order that do not overlap; expiry leaves empty ones among them. *)
Definition index_ok (es : list entry) : Prop := StronglySorted before es.

Lemma en_len_nonneg e : 0 <= en_len e.
Proof. unfold en_len, zlen. lia. Qed.

(** Position [x] of an entry or segment holds [v]. *)
Definition holds (beg : Z) (items : list jval) (x : Z) (v : jval) : Prop :=
  beg <= x /\ items !! Z.to_nat (x - beg) = Some v.

Definition cached (es : list entry) (x : Z) (v : jval) : Prop :=
  exists e, e ∈ es /\ holds (en_beg e) (en_items e) x v.

Definition served (segs : list seg) (x : Z) (v : jval) : Prop :=
  exists g, g ∈ segs /\ holds (s_beg g) (s_items g) x v.

Definition fetched (fetches : list (Z * Z)) (x : Z) : Prop :=
  exists r, r ∈ fetches /\ fst r <= x < snd r.

(** How often position [x] is processed or fetched. *)
Definition within (lo hi x : Z) : nat := if (lo <=? x) && (x <? hi) then 1%nat else 0%nat.

Definition times (segs : list seg) (fetches : list (Z * Z)) (x : Z) : nat :=
  (sum_list_with (fun g => within (s_beg g) (s_beg g + zlen (s_items g)) x) segs +
   sum_list_with (fun r => within (fst r) (snd r) x) fetches)%nat.

Lemma within_spec lo hi x : within lo hi x = 1%nat /\ lo <= x < hi \/ within lo hi x = 0%nat /\ ~ lo <= x < hi.
Proof. unfold within. destruct (Z.leb_spec lo x), (Z.ltb_spec x hi); cbn; (left; lia) || (right; lia). Qed.

Lemma holds_range b l x v : holds b l x v -> b <= x < b + zlen l.
Proof. intros [Hb Hv]. apply lookup_lt_Some in Hv. unfold zlen. lia. Qed.

Lemma range_holds b l x : b <= x < b + zlen l -> exists v, holds b l x v.
Proof.
  intros H. unfold zlen in H. destruct (lookup_lt_is_Some_2 l (Z.to_nat (x - b))) as [v Hv]; [lia|].
  exists v. split; [lia|done].
Qed.

Lemma slice_holds f t l b x v :
  0 <= f -> t <= zlen l -> b + f <= x ->
  holds (b + f) (slice f t l) x v <-> holds b l x v /\ x < b + t.
Proof.
  intros Hf Ht Hx. unfold holds, slice. rewrite lookup_take, lookup_drop.
  replace (Z.to_nat f + Z.to_nat (x - (b + f)))%nat with (Z.to_nat (x - b)) by lia.
  case_decide; split; try naive_solver lia.
Qed.

Lemma slice_len f t l : 0 <= f <= t -> t <= zlen l -> zlen (slice f t l) = t - f.
Proof. intros H1 H2. unfold slice, zlen in *. rewrite length_take, length_drop. lia. Qed.

Lemma times_rest last end_ x : last <= end_ ->
  times [] (if last =? end_ then [] else [(last, end_)]) x = within last end_ x.
Proof.
  intros H. unfold times. destruct (Z.eqb_spec last end_) as [->|]; cbn; [|lia].
  destruct (within_spec end_ end_ x) as [[_ ?]|[-> _]]; lia.
Qed.

Lemma times_step g segs last b all x :
  times (g :: segs) ((if last <? b then [(last, b)] else []) ++ all) x =
  (within (s_beg g) (s_beg g + zlen (s_items g)) x + within last b x + times segs all x)%nat.
Proof.
  unfold times. destruct (Z.ltb_spec last b); cbn; [lia|].
  destruct (within_spec last b x) as [[_ ?]|[-> _]]; lia.
Qed.

(** The walk from position [last] on, over the entries from index [i]. *)
Lemma load_loop_spec at_ beg end_ es : index_ok es -> forall i last,
  beg <= last <= end_ ->
  (forall e, e ∈ es -> last <= Z.max (en_beg e) beg) ->
  (forall j e, es !! j = Some e -> (at_ <= i + j)%nat -> beg <= en_beg e) ->
  let '(segs, fetches, last') := load_loop es i at_ beg end_ last in
  let all := fetches ++ (if last' =? end_ then [] else [(last', end_)]) in
  (forall x, last <= x < end_ -> (exists v, served segs x v) \/ fetched all x) /\
  (forall x v, served segs x v -> cached es x v /\ last <= x < end_) /\
  (forall x, fetched all x -> last <= x < end_ /\ forall v, ~ cached es x v) /\
  (forall x, times segs all x = within last end_ x).
Proof.
  intros Hss. induction Hss as [|e es Hss IH Hall]; intros i last Hl Hlast Hat.
  - cbn. split; [|split; [|split]].
    + intros x Hx. right. destruct (Z.eqb_spec last end_); [lia|]. exists (last, end_).
      split; [by apply list_elem_of_singleton|done].
    + intros x v (g & Hg & _). by apply not_elem_of_nil in Hg.
    + intros x (r & Hr & Hx). destruct (Z.eqb_spec last end_).
      { by apply not_elem_of_nil in Hr. }
      apply list_elem_of_singleton in Hr as ->. cbn in Hx. split; [done|].
      intros v (g & Hg & _). by apply not_elem_of_nil in Hg.
    + intros x. apply times_rest. lia.
  - cbn [load_loop]. rewrite Forall_forall in Hall.
    assert (forall j e', es !! j = Some e' -> (at_ <= S i + j)%nat -> beg <= en_beg e') as Hat'.
    { intros j e' He' Hj. apply (Hat (S j)); [done|lia]. }
    set (b := Z.max (en_beg e) beg). set (en := Z.min (en_end e) end_).
    assert (last <= b) as Hlb by (apply Hlast, elem_of_cons; by left).
    assert (forall x v, cached (e :: es) x v <-> holds (en_beg e) (en_items e) x v \/ cached es x v)
      as Hcons.
    { intros x v. unfold cached. setoid_rewrite elem_of_cons. naive_solver. }
    assert (forall e', e' ∈ es -> en_end e <= en_beg e') as Hafter by (intros e' He'; by apply Hall).
    destruct (Z.eqb_spec (en_len e) 0) as [Hz|Hz].
    { specialize (IH (S i) last Hl).
      assert (forall e', e' ∈ es -> last <= Z.max (en_beg e') beg) as Hlast'.
      { intros e' He'. apply Hlast, elem_of_cons. by right. }
      specialize (IH Hlast' Hat').
      destruct (load_loop es (S i) at_ beg end_ last) as [[segs fetches] last'].
      destruct IH as (Ia & Ib & Ic & Id).
      assert (forall x v, ~ holds (en_beg e) (en_items e) x v) as Hno.
      { intros x v Hh. apply holds_range in Hh. unfold en_len in *. lia. }
      split; [done|split; [|split; [|done]]].
      - intros x v Hx. apply Ib in Hx as [? ?]. split; [|done]. apply Hcons. by right.
      - intros x Hx. destruct (Ic x Hx) as [Hr Hn]. split; [done|]. intros v.
        rewrite Hcons. intros [Hh|Hh]; [by eapply Hno|by eapply Hn]. }
    pose proof (en_len_nonneg e) as Hpos. assert (0 < en_len e) by lia. clear Hpos Hz.
    destruct (Z.ltb_spec b en) as [Hbe|Hbe].
    + specialize (IH (S i) en ltac:(unfold b, en in *; lia)).
      assert (forall e', e' ∈ es -> en <= Z.max (en_beg e') beg) as Hlast'.
      { intros e' He'. apply Hafter in He'. unfold en, en_end in *. lia. }
      specialize (IH Hlast' Hat').
      destruct (load_loop es (S i) at_ beg end_ en) as [[segs fetches] last'].
      destruct IH as (Ia & Ib & Ic & Id). rewrite <- app_assoc.
      set (g := mk_seg b (slice (b - en_beg e) (en - en_beg e) (en_items e)) (en_mapping e)).
      assert (0 <= b - en_beg e /\ en - en_beg e <= zlen (en_items e)) as [Hs0 Hs1].
      { unfold b, en, en_end, en_len. lia. }
      assert (forall x v, holds (s_beg g) (s_items g) x v <->
        holds (en_beg e) (en_items e) x v /\ b <= x < en) as Hg.
      { intros x v. cbn [g s_beg s_items]. replace b with (en_beg e + (b - en_beg e)) at 1 by lia.
        split.
        - intros Hx. pose proof (proj1 Hx). apply slice_holds in Hx; [|lia..]. intuition lia.
        - intros [Hx Hr]. apply slice_holds; [lia..|]. split; [done|lia]. }
      set (all := fetches ++ _) in *.
      assert (forall x, fetched ((if last <? b then [(last, b)] else []) ++ all) x <->
        last <= x < b \/ fetched all x) as Hf.
      { intros x. unfold fetched. setoid_rewrite elem_of_app. split.
        - intros (r & [Hr|Hr] & Hx); [|eauto]. destruct (Z.ltb_spec last b).
          + apply list_elem_of_singleton in Hr as ->. by left.
          + by apply not_elem_of_nil in Hr.
        - intros [Hx|(r & ? & ?)]; [|eauto]. exists (last, b).
          rewrite (proj2 (Z.ltb_lt last b)) by lia. split; [left; by apply list_elem_of_singleton|done]. }
      assert (forall x v, served (g :: segs) x v <->
        holds (s_beg g) (s_items g) x v \/ served segs x v) as Hsv.
      { intros x v. unfold served. setoid_rewrite elem_of_cons. naive_solver. }
      split; [|split; [|split]].
      * intros x Hx. setoid_rewrite Hsv. rewrite Hf. setoid_rewrite Hg.
        destruct (decide (x < b)); [right; left; lia|]. destruct (decide (x < en)).
        -- left. destruct (range_holds (en_beg e) (en_items e) x) as [v Hv].
           { unfold b, en, en_end, en_len in *. lia. }
           exists v. left. split; [done|lia].
        -- destruct (Ia x ltac:(lia)) as [[v Hv]|]; [left; eauto|auto].
      * intros x v. rewrite Hsv, Hg, Hcons. intros [[Hx Hr]|Hx].
        -- split; [auto|]. unfold b, en in *. lia.
        -- apply Ib in Hx as [? ?]. split; [auto|]. unfold b, en in *. lia.
      * intros x. rewrite Hf. intros [Hx|Hx].
        -- split; [unfold b, en in *; lia|]. intros v. rewrite Hcons. intros [Hh|(e' & He' & Hh)].
           ++ apply holds_range in Hh. unfold b in *. lia.
           ++ apply holds_range in Hh. apply Hafter in He'. unfold b, en, en_end, en_len in *. lia.
        -- destruct (Ic x Hx) as [Hr Hn]. split; [unfold b, en in *; lia|]. intros v. rewrite Hcons.
           intros [Hh|Hh]; [|by eapply Hn]. apply holds_range in Hh.
           unfold en, en_end, en_len in *. lia.
      * intros x. rewrite times_step, Id. cbn [g s_beg s_items].
        rewrite (slice_len (b - en_beg e) (en - en_beg e)) by (unfold b, en in *; lia).
        replace (b + (en - en_beg e - (b - en_beg e))) with en by lia.
        destruct (within_spec b en x) as [[-> ?]|[-> ?]], (within_spec en end_ x) as [[-> ?]|[-> ?]],
          (within_spec last end_ x) as [[-> ?]|[-> ?]], (within_spec last b x) as [[-> ?]|[-> ?]];
          unfold b, en in *; lia.
    + assert (forall x v, holds (en_beg e) (en_items e) x v -> last <= x < end_ -> False) as Hno.
      { intros x v Hh Hx. apply holds_range in Hh. unfold b, en, en_end, en_len in *. lia. }
      destruct (Nat.leb_spec at_ i) as [Hai|Hai].
      * assert (beg <= en_beg e) as Hge by (apply (Hat 0%nat); [done|lia]).
        assert (end_ <= en_beg e) as Hend by (unfold b, en, en_end in *; lia).
        cbn. split; [|split; [|split; [|intros x; apply times_rest; lia]]].
        -- intros x Hx. right. rewrite (proj2 (Z.eqb_neq last end_)) by lia.
           exists (last, end_). split; [by apply list_elem_of_singleton|done].
        -- intros x v (g & Hg & _). by apply not_elem_of_nil in Hg.
        -- intros x (r & Hr & Hx). destruct (Z.eqb_spec last end_); [by apply not_elem_of_nil in Hr|].
           apply list_elem_of_singleton in Hr as ->. cbn in Hx. split; [done|]. intros v.
           rewrite Hcons. intros [Hh|(e' & He' & Hh)]; [by eapply Hno|].
           apply holds_range in Hh. apply Hafter in He'. unfold en_end in *. lia.
      * specialize (IH (S i) last Hl).
        assert (forall e', e' ∈ es -> last <= Z.max (en_beg e') beg) as Hlast'.
        { intros e' He'. apply Hlast, elem_of_cons. by right. }
        specialize (IH Hlast' Hat').
        destruct (load_loop es (S i) at_ beg end_ last) as [[segs fetches] last'].
        destruct IH as (Ia & Ib & Ic & Id). split; [done|]. split; [|split; [|done]].
        -- intros x v Hx. apply Ib in Hx as [? ?]. split; [|done]. apply Hcons. by right.
        -- intros x Hx. destruct (Ic x Hx) as [Hr Hn]. split; [done|]. intros v.
           rewrite Hcons. intros [Hh|Hh]; [by eapply Hno|by eapply Hn].
Qed.

Lemma sorted_lookup es : StronglySorted before es -> forall i j e e',
  (i < j)%nat -> es !! i = Some e -> es !! j = Some e' -> before e e'.
Proof.
  induction 1 as [|e0 es Hss IH Hall]; intros i j e e' Hij Hi Hj; [done|].
  destruct j as [|j]; [lia|]. destruct i as [|i]; cbn in *.
  - simplify_eq. rewrite Forall_forall in Hall. apply Hall.
    apply list_elem_of_lookup. eauto.
  - apply (IH i j); [lia|done..].
Qed.

Lemma index_ok_increasing es : index_ok es -> increasing (map en_beg es).
Proof.
  intros Hss i j x y Hij Hi Hj.
  rewrite list_lookup_fmap in Hi, Hj. apply fmap_Some in Hi as (e & He & ->).
  apply fmap_Some in Hj as (e' & He' & ->).
  destruct (decide (i = j)) as [->|Hne]; [replace e' with e by congruence; lia|].
  assert (before e e') as Hb by (eapply (sorted_lookup es Hss i j); [lia|done..]).
  pose proof (en_len_nonneg e). unfold before, en_end in Hb. lia.
Qed.

Lemma index_ok_drop n es : index_ok es -> index_ok (drop n es).
Proof.
  unfold index_ok. intros Hss. revert n.
  induction Hss as [|e es Hss IH Hall]; intros [|n]; cbn; try constructor; auto.
Qed.

Lemma cached_unique es x v v' : index_ok es -> cached es x v -> cached es x v' -> v = v'.
Proof.
  intros Hss (e & He & Hh) (e' & He' & Hh').
  apply list_elem_of_lookup in He as [i Hi]. apply list_elem_of_lookup in He' as [j Hj].
  destruct (Nat.lt_trichotomy i j) as [Hij|[->|Hij]].
  - pose proof (sorted_lookup es Hss i j e e' Hij Hi Hj) as Hb.
    apply holds_range in Hh, Hh'. unfold before, en_end, en_len in Hb. lia.
  - assert (e = e') as -> by congruence. destruct Hh as [_ Hh], Hh' as [_ Hh']. congruence.
  - pose proof (sorted_lookup es Hss j i e' e Hij Hj Hi) as Hb.
    apply holds_range in Hh, Hh'. unfold before, en_end, en_len in Hb. lia.
Qed.

(** Entries before the starting position of the loops end before [beg]. *)
Lemma start_covers es beg x v :
  index_ok es -> beg <= x -> cached es x v ->
  cached (drop (loop_start (search (map en_beg es) beg)) es) x v.
Proof.
  intros Hok Hx (e & He & Hh). exists e. split; [|done].
  destruct (search_spec (map en_beg es) beg (index_ok_increasing es Hok)) as (Hle & Hlt & Hge).
  set (at_ := search (map en_beg es) beg) in *.
  apply list_elem_of_lookup in He as [i Hi].
  assert (loop_start at_ <= i)%nat as Hs.
  { unfold loop_start. destruct (Nat.ltb_spec 0 at_) as [Hpos|]; [|lia].
    destruct (decide (i < at_ - 1)%nat) as [Hlt'|]; [|lia].
    destruct (lookup_lt_is_Some_2 es (at_ - 1)) as [e' He']; [rewrite length_map in Hle; lia|].
    pose proof (sorted_lookup es Hok i _ e e' Hlt' Hi He') as Hb.
    assert (en_beg e' <= beg) as Hb'.
    { apply (Hlt (at_ - 1)%nat); [by rewrite list_lookup_fmap, He'|lia]. }
    apply holds_range in Hh. unfold before, en_end, en_len in Hb. lia. }
  apply list_elem_of_lookup. exists (i - loop_start at_)%nat. rewrite lookup_drop.
  by replace (loop_start at_ + (i - loop_start at_))%nat with i by lia.
Qed.

(** ** Stashing keeps the order *)

(** Entries become shorter only. *)
Definition shrinks (e e' : entry) : Prop := en_beg e <= en_beg e' /\ en_end e' <= en_end e.

Definition ordered (f : nat -> entry) (ids : list nat) : Prop := StronglySorted (fun i j => before (f i) (f j)) ids.

Lemma ordered_index f ids : ordered f ids <-> index_ok (map f ids).
Proof.
  unfold ordered, index_ok. induction ids as [|i ids IH]; [by split; constructor|]. cbn.
  split; intros H; inversion_clear H as [|? ? Hs Ha]; constructor; try by apply IH.
  - rewrite Forall_map. done.
  - by rewrite Forall_map in Ha.
Qed.

Lemma ordered_shrinks f g ids : ordered f ids -> (forall i, i ∈ ids -> shrinks (f i) (g i)) -> ordered g ids.
Proof.
  unfold ordered. induction 1 as [|i ids Hs IH Ha]; intros Hg; constructor.
  - apply IH. intros j Hj. apply Hg. by right.
  - rewrite Forall_forall in *. intros j Hj. specialize (Ha j Hj).
    destruct (Hg i ltac:(by left)), (Hg j ltac:(by right)). unfold before in *. lia.
Qed.

Lemma ordered_sublist f l l' : l `sublist_of` l' -> ordered f l' -> ordered f l.
Proof.
  unfold ordered. induction 1 as [|x l l' Hl IH|x l l' Hl IH]; [done|..]; inversion_clear 1 as [|? ? Hs Ha]; [|auto].
  constructor; [auto|]. rewrite Forall_forall in *. intros y Hy. apply Ha. by eapply elem_of_sublist.
Qed.

Lemma ordered_insert f x A B : ordered f (A ++ B) -> (forall i, i ∈ A -> before (f i) (f x)) ->
  (forall i, i ∈ B -> before (f x) (f i)) -> ordered f (A ++ x :: B).
Proof.
  unfold ordered. intros H HA HB. induction A as [|a A IH]; cbn in *.
  - constructor; [done|]. rewrite Forall_forall. exact HB.
  - inversion_clear H as [|? ? Hs Ha]. constructor.
    + apply IH; [done|]. intros i Hi. apply HA. by right.
    + rewrite Forall_forall in *. intros y. rewrite elem_of_app, elem_of_cons. intros [Hy|[->|Hy]].
      * apply Ha, elem_of_app. by left.
      * apply HA. by left.
      * apply Ha, elem_of_app. by right.
Qed.

(** What the first loop makes of an entry. *)
Definition cut (beg end_ : Z) (e : entry) : entry :=
  let b := Z.max (en_beg e) beg in
  let en := Z.min (en_end e) end_ in
  if (en_len e =? 0) || negb (b <? en) then e
  else
    let e' := e <| en_items ::= splice_out (b - en_beg e) (en - b) |> in
    if b - en_beg e =? 0 then e' <| en_beg := en_beg e + (en - en_beg e) |> else e'.

Lemma splice_len at_ num (l : list jval) : 0 <= at_ -> 0 <= num -> at_ + num <= zlen l -> zlen (splice_out at_ num l) = zlen l - num.
Proof. intros. unfold splice_out, zlen in *. rewrite length_app, length_take, length_drop. lia. Qed.

(** Of an entry that is not cut in its middle. *)
Lemma cut_range beg end_ e : beg < end_ ->
  let e' := cut beg end_ e in
  shrinks e e' /\
  (en_beg e < beg -> ~ end_ < en_end e -> en_end e' <= beg) /\
  (beg <= en_beg e -> 0 < en_len e' -> end_ <= en_beg e').
Proof.
  intros Hbe. unfold cut. pose proof (en_len_nonneg e) as Hp. destruct (Z.eqb_spec (en_len e) 0) as [H0|H0]; cbn [orb].
  { unfold shrinks, en_end in *. lia. }
  set (b := Z.max (en_beg e) beg). set (en := Z.min (en_end e) end_). destruct (Z.ltb_spec b en) as [Hb|Hb]; cbn [negb].
  2: { unfold shrinks, b, en, en_end in *. lia. }
  assert (zlen (splice_out (b - en_beg e) (en - b) (en_items e)) = en_len e - (en - b)) as Hlen.
  { apply splice_len; unfold b, en, en_end, en_len in *; lia. }
  destruct (Z.eqb_spec (b - en_beg e) 0) as [E|E]; unfold shrinks, en_end, en_len in *; cbn in *; rewrite ?Hlen; unfold b, en in *; lia.
Qed.

(** The first loop cuts the entries up to where it stops: at the end, or at one
    behind the data. *)
Lemma truncate_cuts at_ beg end_ ids : NoDup ids -> forall i k,
  let r := truncate_loop ids i at_ beg end_ k in
  k_index r.1 = k_index k /\ k_next r.1 = k_next k /\ (i <= r.2)%nat /\
  (forall id, id ∉ ids -> get_entry r.1 id = get_entry k id) /\
  (forall j id, ids !! j = Some id ->
    get_entry r.1 id = if decide (i + j < r.2)%nat then cut beg end_ (get_entry k id) else get_entry k id) /\
  (r.2 = (i + length ids)%nat \/
   exists id, (at_ <= r.2)%nat /\ ids !! (r.2 - i)%nat = Some id /\ 0 < en_len (get_entry k id) /\
     ~ Z.max (en_beg (get_entry k id)) beg < Z.min (en_end (get_entry k id)) end_).
Proof.
  induction 1 as [|id ids Hid Hn IH]; intros i k.
  { cbn. split_and!; try done. left. lia. }
  assert (forall k1, k_index k1 = k_index k -> k_next k1 = k_next k ->
    (forall id', get_entry k1 id' = if decide (id = id') then cut beg end_ (get_entry k id) else get_entry k id') ->
    let r := truncate_loop ids (S i) at_ beg end_ k1 in
    k_index r.1 = k_index k /\ k_next r.1 = k_next k /\ (i <= r.2)%nat /\
    (forall id', id' ∉ id :: ids -> get_entry r.1 id' = get_entry k id') /\
    (forall j id', (id :: ids) !! j = Some id' ->
      get_entry r.1 id' = if decide (i + j < r.2)%nat then cut beg end_ (get_entry k id') else get_entry k id') /\
    (r.2 = (i + length (id :: ids))%nat \/
     exists id', (at_ <= r.2)%nat /\ (id :: ids) !! (r.2 - i)%nat = Some id' /\ 0 < en_len (get_entry k id') /\
       ~ Z.max (en_beg (get_entry k id')) beg < Z.min (en_end (get_entry k id')) end_)) as Hgo.
  { intros k1 E1 E2 Eg. destruct (IH (S i) k1) as (I1 & I2 & I3 & I4 & I5 & I6).
    set (r := truncate_loop ids (S i) at_ beg end_ k1) in *. cbv zeta. split; [congruence|]. split; [congruence|]. split; [lia|].
    split; [|split].
    - intros id' [Hne Hin]%not_elem_of_cons. by rewrite I4, Eg, decide_False by done.
    - intros [|j] id'; cbn [lookup list_lookup].
      + intros [= <-]. by rewrite I4, Eg, decide_True, decide_True by (done || lia).
      + intros Hj. rewrite (I5 j id' Hj), Eg. assert (id <> id') as Hne by (intros ->; apply Hid; by eapply list_elem_of_lookup_2).
        rewrite (decide_False _ _ Hne). replace (S i + j)%nat with (i + S j)%nat by lia. done.
    - destruct I6 as [I6|(id' & H1 & H2 & H3 & H4)]; [left; cbn [length]; lia|right]. exists id'.
      assert (r.2 - i = S (r.2 - S i))%nat as -> by lia. cbn [lookup list_lookup].
      assert (id <> id') as Hne by (intros ->; apply Hid; by eapply list_elem_of_lookup_2).
      rewrite Eg, (decide_False _ _ Hne) in H3, H4. done. }
  cbn [truncate_loop]. set (e := get_entry k id) in *.
  assert (forall id', get_entry k id' = if decide (id = id') then e else get_entry k id') as Hsame.
  { intros id'. case_decide; [by subst|done]. }
  destruct (Z.eqb_spec (en_len e) 0) as [E0|E0].
  { apply Hgo; [done..|]. unfold cut. by rewrite (proj2 (Z.eqb_eq _ _) E0). }
  destruct (Z.ltb_spec (Z.max (en_beg e) beg) (Z.min (en_end e) end_)) as [Hb|Hb].
  - apply Hgo; [done..|]. intros id'. unfold cut. rewrite (proj2 (Z.eqb_neq _ _) E0), (proj2 (Z.ltb_lt _ _) Hb). cbn [orb negb].
    unfold get_entry. cbn. rewrite lookup_insert. by case_decide.
  - destruct (Nat.leb_spec at_ i) as [Ha|Ha].
    + cbn [fst snd]. split_and!; try done.
      * intros j id' _. by rewrite decide_False by lia.
      * right. exists id. rewrite Nat.sub_diag. pose proof (en_len_nonneg e). cbn. split_and!; [done|done|subst e; lia|subst e; lia].
    + apply Hgo; [done..|]. unfold cut. rewrite (proj2 (Z.eqb_neq _ _) E0), (proj2 (Z.ltb_ge _ _) Hb). done.
Qed.

(** The clean-up removes the empty entries from [at_] to [i], and perhaps some
    more. *)
Definition nonempty (k : cache) (id : nat) : bool := negb (en_len (get_entry k id) =? 0).

Lemma cleanup_end fuel k i : forall at_ index, (length index <= at_)%nat -> cleanup_loop fuel at_ i k index = index.
Proof.
  induction fuel as [|fuel IH]; intros at_ index Hl; [done|]. cbn. destruct (Nat.leb at_ i); [|done].
  rewrite lookup_ge_None_2 by done. apply IH. lia.
Qed.

Lemma cleanup_filters fuel k i : forall pre rest, (i + 1 - length pre + length rest <= fuel)%nat ->
  exists n, (i + 1 - length pre <= n)%nat /\
    cleanup_loop fuel (length pre) i k (pre ++ rest) = pre ++ List.filter (nonempty k) (take n rest) ++ drop n rest.
Proof.
  induction fuel as [|fuel IH]; intros pre rest Hf.
  { exists 0%nat. destruct rest; [|cbn in Hf; lia]. split; [lia|done]. }
  cbn [cleanup_loop]. destruct (Nat.leb_spec (length pre) i) as [Hi|Hi]; [|exists 0%nat; split; [lia|done]].
  destruct rest as [|id rest].
  { exists (i + 1)%nat. rewrite app_nil_r, lookup_ge_None_2 by done. rewrite cleanup_end by lia.
    split; [lia|]. rewrite take_nil, drop_nil. cbn. by rewrite app_nil_r. }
  rewrite lookup_app_r, Nat.sub_diag by done. cbn [lookup list_lookup]. cbn [length] in Hf.
  destruct (Z.eqb_spec (en_len (get_entry k id)) 0) as [E|E].
  - rewrite take_app_length, drop_app_ge by lia. replace (S (length pre) - length pre)%nat with 1%nat by lia. cbn [drop]. rewrite drop_0.
    destruct (IH pre rest) as (n & Hn & ->); [lia|]. exists (S n). split; [lia|]. cbn. unfold nonempty at 2.
    by rewrite (proj2 (Z.eqb_eq _ _) E).
  - destruct (IH (pre ++ [id]) rest) as (n & Hn & H); [rewrite length_app; cbn; lia|]. rewrite length_app in Hn, H. cbn in Hn, H.
    exists (S n). split; [lia|]. rewrite Nat.add_1_r, <- app_assoc in H. cbn in H. rewrite H. cbn. unfold nonempty at 2.
    rewrite (proj2 (Z.eqb_neq _ _) E). cbn. by rewrite <- !app_assoc.
Qed.

Lemma expire_shrinks queue : forall k, k_index (expire_loop queue k) = k_index k /\
  forall id, shrinks (get_entry k id) (get_entry (expire_loop queue k) id).
Proof.
  assert (forall e, shrinks e e) as Hr by (unfold shrinks; intros; lia).
  induction queue as [|q queue IH]; intros k; [done|]. cbn [expire_loop]. destruct (k_limit k <? k_count k); [|done].
  match goal with |- context [expire_loop queue ?k1] => destruct (IH k1) as [I1 I2]; set (k2 := k1) in * end.
  split; [by rewrite I1|]. intros id. specialize (I2 id).
  assert (shrinks (get_entry k id) (get_entry k2 id)) as H.
  { unfold k2, get_entry. cbn. rewrite lookup_insert. case_decide as E; [|done]. subst id. unfold shrinks, en_end, en_len. cbn.
    unfold zlen. cbn. lia. }
  unfold shrinks in *. lia.
Qed.

Lemma drop_empty_sublist k index : drop_empty k index `sublist_of` index.
Proof. induction index as [|id index IH]; [done|]. cbn. destruct (0 <? _); [done|]. by constructor. Qed.

(** Either every position before the one that [search] finds is less, or it is
    the position of an equal one. *)
Lemma search_loop_exact fuel idx beg : increasing idx -> forall low high,
  0 <= low -> low <= high + 1 -> high < zlen idx -> high - low + 1 < Z.of_nat fuel ->
  (forall i v, idx !! i = Some v -> Z.of_nat i < low -> v < beg) ->
  let r := search_loop fuel idx beg low high in
  idx !! Z.to_nat r = Some beg \/ (forall i v, idx !! i = Some v -> Z.of_nat i < r -> v < beg).
Proof.
  intros Hinc. induction fuel as [|fuel IH]; intros low high H0 Hle Hh Hf Hlo; [lia|].
  cbn [search_loop]. destruct (Z.leb_spec low high) as [Hlh|Hlh]; [|by right].
  set (mid := (low + high) / 2).
  assert (low <= mid <= high) as Hm by (unfold mid; Z.to_euclidean_division_equations; lia).
  unfold zlen in *. destruct (idx !! Z.to_nat mid) as [val|] eqn:Ev; [|apply lookup_ge_None in Ev; lia].
  cbn [default]. cbv zeta. cbn [id]. destruct (Z.ltb_spec val beg); [|destruct (Z.ltb_spec beg val)].
  - apply IH; try lia. intros i v Hv Hi. assert (v <= val) by (eapply (Hinc i (Z.to_nat mid)); [lia|done..]). lia.
  - apply IH; try lia. done.
  - left. rewrite Ev. f_equal. lia.
Qed.

Lemma search_exact idx beg : increasing idx ->
  idx !! search idx beg = Some beg \/ (forall i v, idx !! i = Some v -> (i < search idx beg)%nat -> v < beg).
Proof.
  intros Hinc. unfold search. pose proof (search_loop_exact (S (length idx)) idx beg Hinc 0 (zlen idx - 1)) as H.
  unfold zlen in *. destruct H as [H|H]; [lia..|intros; lia|by left|]. right. intros i v Hv Hi. apply (H i v Hv). lia.
Qed.

Lemma stash_eq beg items mapping k : items <> [] ->
  let at_ := search (map en_beg (entries k)) beg in
  let r := truncate_loop (drop (loop_start at_) (k_index k)) (loop_start at_) at_ beg (beg + zlen items) k in
  let k2 := insert_entry at_ beg items mapping r.1 in
  let k3 := k2 <| k_index := cleanup_loop (S r.2 + length (k_index k2)) (at_ - 1) r.2 k2 (k_index k2) |> in
  let k4 := expire_loop (k_queue k3) k3 in
  stash beg items mapping k = k4 <| k_index := drop_empty k4 (k_index k4) |>.
Proof. intros Hi. unfold stash. destruct items as [|x l]; [done|]. cbv zeta. by destruct (truncate_loop _ _ _ _ _ _) as [k1 i]. Qed.

Section Order.
Context (k : cache) (beg : Z) (items : list jval) (mapping : jval).
Context (Hok : index_ok (entries k)) (Hnd : NoDup (k_index k)) (Hnext : forall id, id ∈ k_index k -> (id < k_next k)%nat).
Context (Hitems : items <> []).
(** The data do not lie strictly inside an entry. *)
Context (Hinside : forall e, e ∈ entries k -> ~ (en_beg e < beg /\ beg + zlen items < en_end e)).

Let at_ := search (map en_beg (entries k)) beg.
Let end_ := beg + zlen items.
Let start := loop_start at_.
Let r := truncate_loop (drop start (k_index k)) start at_ beg end_ k.
Let k2 := insert_entry at_ beg items mapping r.1.

Local Lemma some_data : beg < end_.
Proof. unfold end_, zlen. destruct items; [done|]. cbn. lia. Qed.

Local Lemma entries_lookup p id : k_index k !! p = Some id -> entries k !! p = Some (get_entry k id).
Proof. intros H. unfold entries. by rewrite list_lookup_fmap, H. Qed.

Local Lemma around p id : k_index k !! p = Some id ->
  ((p < at_)%nat -> en_beg (get_entry k id) <= beg) /\ ((at_ <= p)%nat -> beg <= en_beg (get_entry k id)).
Proof.
  intros H. destruct (search_spec (map en_beg (entries k)) beg (index_ok_increasing _ Hok)) as (_ & H1 & H2).
  apply entries_lookup in H. assert (map en_beg (entries k) !! p = Some (en_beg (get_entry k id))) as Hp by by rewrite list_lookup_fmap, H.
  split; [by apply (H1 p)|by apply (H2 p)].
Qed.

(** The first loop goes by position in the index. *)
Local Lemma cut_at : k_index r.1 = k_index k /\ k_next r.1 = k_next k /\
  (forall p id, k_index k !! p = Some id -> get_entry r.1 id =
    if decide (start <= p < r.2)%nat then cut beg end_ (get_entry k id) else get_entry k id) /\
  (r.2 = Nat.max start (length (k_index k)) \/ exists id, (at_ <= r.2)%nat /\ k_index k !! r.2 = Some id /\
     0 < en_len (get_entry k id) /\ ~ Z.max (en_beg (get_entry k id)) beg < Z.min (en_end (get_entry k id)) end_).
Proof.
  assert (NoDup (drop start (k_index k))) as Hn by (eapply sublist_NoDup, sublist_drop; done).
  destruct (truncate_cuts at_ beg end_ _ Hn start k) as (I1 & I2 & I3 & I4 & I5 & I6). fold r in I1, I2, I3, I4, I5, I6.
  split; [done|]. split; [done|]. split.
  - intros p id Hp. destruct (decide (start <= p)%nat) as [Hs|Hs].
    + rewrite (I5 (p - start)%nat id) by (rewrite lookup_drop; by replace (start + (p - start))%nat with p by lia).
      replace (start + (p - start))%nat with p by lia. destruct (decide (p < r.2)%nat), (decide (start <= p < r.2)%nat); done || lia.
    + rewrite decide_False by lia. apply I4. intros (j & Hj)%list_elem_of_lookup. rewrite lookup_drop in Hj.
      pose proof (NoDup_lookup _ _ _ _ Hnd Hp Hj). lia.
  - destruct I6 as [I6|(id & H1 & H2 & H3)]; [left; rewrite length_drop in I6; lia|right]. exists id. split; [done|].
    rewrite lookup_drop in H2. by replace (start + (r.2 - start))%nat with r.2 in H2 by lia.
Qed.

Local Lemma inserted id : get_entry k2 id = if decide (k_next k = id) then mk_entry beg items mapping else get_entry r.1 id.
Proof.
  destruct cut_at as (_ & E & _). unfold k2, insert_entry, get_entry. cbn. rewrite E, lookup_insert. by case_decide.
Qed.

Local Lemma inserted_old id : id ∈ k_index k -> get_entry k2 id = get_entry r.1 id.
Proof. intros Hin. rewrite inserted, decide_False; [done|]. intros <-. apply Hnext in Hin. lia. Qed.

Local Lemma old_shrinks id : id ∈ k_index k -> shrinks (get_entry k id) (get_entry k2 id).
Proof.
  intros Hin. rewrite inserted_old by done. apply list_elem_of_lookup in Hin as [p Hp]. destruct cut_at as (_ & _ & Hc & _).
  rewrite (Hc p id Hp). case_decide; [apply cut_range, some_data|unfold shrinks; lia].
Qed.

(** Entries before the new one end before it. *)
Local Lemma left_of_new p id : k_index k !! p = Some id -> (p < at_)%nat -> en_end (get_entry k2 id) <= beg.
Proof.
  intros Hp Hlt. assert (id ∈ k_index k) as Hin by by eapply list_elem_of_lookup_2. destruct (around p id Hp) as [Hle _]. specialize (Hle Hlt).
  destruct (old_shrinks id Hin) as [_ Hsh].
  destruct (decide (S p < at_)%nat) as [Hp1|Hp1].
  - destruct (lookup_lt_is_Some_2 (k_index k) (S p)) as [id' Hp'].
    { destruct (search_spec (map en_beg (entries k)) beg (index_ok_increasing _ Hok)) as (Hl & _). fold at_ in Hl.
      unfold entries in Hl. rewrite !length_map in Hl. lia. }
    destruct (around _ _ Hp') as [Hle' _]. specialize (Hle' Hp1).
    pose proof (sorted_lookup _ Hok p (S p) _ _ ltac:(lia) (entries_lookup _ _ Hp) (entries_lookup _ _ Hp')) as Hb. unfold before in Hb. lia.
  - assert (at_ = S p) as Ea by lia. destruct (decide (en_len (get_entry k id) = 0)) as [E0|E0]; [unfold en_end in *; lia|].
    pose proof (en_len_nonneg (get_entry k id)).
    assert (en_beg (get_entry k id) < beg) as Hlt'.
    { destruct (search_exact (map en_beg (entries k)) beg (index_ok_increasing _ Hok)) as [Hx|Hx]; fold at_ in Hx.
      - rewrite list_lookup_fmap in Hx. apply fmap_Some in Hx as (e' & He' & Eb).
        pose proof (sorted_lookup _ Hok p at_ _ _ Hlt (entries_lookup _ _ Hp) He') as Hb. unfold before, en_end in Hb. lia.
      - apply (Hx p); [|done]. by rewrite list_lookup_fmap, (entries_lookup _ _ Hp). }
    rewrite inserted_old by done. destruct cut_at as (_ & _ & Hc & Hr). rewrite (Hc p id Hp).
    assert (start = p) as Es by (unfold start, loop_start; rewrite Ea; cbn; lia).
    pose proof (lookup_lt_Some _ _ _ Hp). rewrite decide_True by (split; [lia|destruct Hr as [->|(? & ? & _)]; lia]).
    apply (cut_range beg end_ (get_entry k id) some_data); [done|]. intros Hgt. apply (Hinside (get_entry k id)); [|done].
    eapply list_elem_of_lookup_2. by apply entries_lookup.
Qed.

(** Entries behind it that are not removed begin behind it. *)
Local Lemma right_of_new p id : k_index k !! p = Some id -> (at_ <= p)%nat -> nonempty k2 id = true \/ (r.2 <= p)%nat ->
  end_ <= en_beg (get_entry k2 id).
Proof.
  intros Hp Hge Hkeep. assert (id ∈ k_index k) as Hin by by eapply list_elem_of_lookup_2. destruct (around p id Hp) as [_ Hle]. specialize (Hle Hge).
  unfold nonempty in Hkeep. rewrite inserted_old in * by done. destruct cut_at as (_ & _ & Hc & Hr). rewrite (Hc p id Hp) in *.
  assert (start <= p)%nat by (unfold start, loop_start; destruct (Nat.ltb 0 at_); lia).
  case_decide as Hd.
  - apply (cut_range beg end_ (get_entry k id) some_data); [done|]. destruct Hkeep as [Hkeep|Hkeep]; [|lia].
    apply negb_true_iff, Z.eqb_neq in Hkeep. pose proof (en_len_nonneg (cut beg end_ (get_entry k id))). lia.
  - destruct Hr as [Hr|(id' & H1 & H2 & H3 & H4)]; [apply lookup_lt_Some in Hp; lia|].
    destruct (around _ _ H2) as [_ Hle']. specialize (Hle' H1). assert (end_ <= en_beg (get_entry k id')) as He.
    { pose proof some_data. unfold en_end in H4. lia. }
    destruct (decide (p = r.2)) as [->|Hne]; [by simplify_eq|].
    pose proof (sorted_lookup _ Hok r.2 p _ _ ltac:(lia) (entries_lookup _ _ H2) (entries_lookup _ _ Hp)) as Hb.
    unfold before, en_end in Hb. lia.
Qed.

(** The index that the clean-up leaves. *)
Local Lemma cleaned : exists A m, A `sublist_of` take at_ (k_index k) /\ (r.2 - at_ <= m)%nat /\
  cleanup_loop (S r.2 + length (k_index k2)) (at_ - 1) r.2 k2 (k_index k2) =
    A ++ k_next k :: List.filter (nonempty k2) (take m (drop at_ (k_index k))) ++ drop m (drop at_ (k_index k)).
Proof.
  destruct cut_at as (E1 & E2 & _ & Hr).
  assert (k_index k2 = take at_ (k_index k) ++ k_next k :: drop at_ (k_index k)) as Ei by (unfold k2; cbn; by rewrite E1, E2).
  assert (nonempty k2 (k_next k) = true) as Hnew.
  { unfold nonempty. rewrite inserted, decide_True by done. apply negb_true_iff, Z.eqb_neq. unfold en_len, zlen. cbn. by destruct items. }
  destruct (search_spec (map en_beg (entries k)) beg (index_ok_increasing _ Hok)) as (Hl & _). fold at_ in Hl.
  unfold entries in Hl. rewrite !length_map in Hl.
  destruct (decide (at_ = 0%nat)) as [E0|E0].
  - destruct (cleanup_filters (S r.2 + length (k_index k2)) k2 r.2 [] (k_index k2)) as (n & Hn & H); [cbn; lia|].
    cbn [length app] in H, Hn. exists [], (n - 1)%nat. split; [apply sublist_nil_l|]. split; [lia|].
    replace (at_ - 1)%nat with 0%nat by lia. rewrite H, Ei, E0, take_0, !drop_0. destruct n as [|n]; [lia|]. cbn [take drop List.filter app].
    rewrite Hnew. replace (S n - 1)%nat with n by lia. done.
  - destruct (lookup_lt_is_Some_2 (k_index k) (at_ - 1)) as [id Hid]; [lia|].
    assert (take at_ (k_index k) = take (at_ - 1) (k_index k) ++ [id]) as Et.
    { replace at_ with (S (at_ - 1)) at 1 by lia. by apply take_S_r. }
    assert (length (take (at_ - 1) (k_index k)) = (at_ - 1)%nat) as Hlt by (rewrite length_take; lia).
    destruct (cleanup_filters (S r.2 + length (k_index k2)) k2 r.2 (take (at_ - 1) (k_index k)) (id :: k_next k :: drop at_ (k_index k))) as (n & Hn & H).
    { assert (length (k_index k2) = (at_ - 1 + 1 + S (length (drop at_ (k_index k))))%nat) as -> by (rewrite Ei, Et, !length_app, Hlt; done).
      rewrite Hlt. cbn [length]. lia. }
    rewrite Hlt in H, Hn. rewrite Ei, Et, <- app_assoc. cbn [app].
    rewrite Ei, Et, <- app_assoc in H. cbn [app] in H. rewrite H.
    assert (at_ <= r.2)%nat by (destruct Hr as [->|(? & ? & _)]; lia). destruct n as [|[|n]]; [lia|lia|].
    exists (take (at_ - 1) (k_index k) ++ if nonempty k2 id then [id] else []), n. split; [|split; [lia|]].
    + apply sublist_app; [done|]. destruct (nonempty k2 id); [done|apply sublist_nil_l].
    + cbn [take drop List.filter]. rewrite Hnew. destruct (nonempty k2 id); cbn [app]; by rewrite <- !app_assoc.
Qed.

Local Lemma filter_sub {A} (f : A -> bool) (l : list A) : List.filter f l `sublist_of` l.
Proof. induction l as [|x l IH]; [done|]. cbn. destruct (f x); by constructor. Qed.

Local Lemma stash_parts : stash beg items mapping k =
  let k3 := k2 <| k_index := cleanup_loop (S r.2 + length (k_index k2)) (at_ - 1) r.2 k2 (k_index k2) |> in
  let k4 := expire_loop (k_queue k3) k3 in k4 <| k_index := drop_empty k4 (k_index k4) |>.
Proof. exact (stash_eq beg items mapping k Hitems). Qed.

Lemma stash_ordered : index_ok (entries (stash beg items mapping k)).
Proof.
  destruct cleaned as (A & m & HA & Hm & HR). set (B := List.filter (nonempty k2) _ ++ _) in HR.
  assert (B `sublist_of` drop at_ (k_index k)) as HB.
  { rewrite <- (take_drop m (drop at_ (k_index k))) at 1. apply sublist_app; [apply filter_sub|done]. }
  assert (A ++ B `sublist_of` k_index k) as HAB by (rewrite <- (take_drop at_ (k_index k)); by apply sublist_app).
  assert (ordered (get_entry k2) (A ++ k_next k :: B)) as Hord.
  { apply ordered_insert.
    - apply (ordered_shrinks (get_entry k)).
      + eapply ordered_sublist; [exact HAB|]. by apply ordered_index.
      + intros id Hid. apply old_shrinks. by eapply elem_of_sublist.
    - intros id Hid. unfold before. rewrite (inserted (k_next k)), decide_True by done. cbn.
      eapply elem_of_sublist in Hid as (p & Hp)%list_elem_of_lookup; [|exact HA].
      apply lookup_take_Some in Hp as [Hp Hlt]. by eapply left_of_new.
    - intros id Hid. unfold before. rewrite (inserted (k_next k)), decide_True by done. change (end_ <= en_beg (get_entry k2 id)).
      apply elem_of_app in Hid as [Hid|Hid].
      + apply list_elem_of_In, filter_In in Hid as [Hid Hne]. apply list_elem_of_In, list_elem_of_lookup in Hid as (j & Hj).
        apply lookup_take_Some in Hj as [Hj _]. rewrite lookup_drop in Hj. eapply right_of_new; [exact Hj|lia|by left].
      + apply list_elem_of_lookup in Hid as (j & Hj). rewrite !lookup_drop in Hj. eapply right_of_new; [exact Hj|lia|right; lia]. }
  set (k3 := k2 <| k_index := cleanup_loop (S r.2 + length (k_index k2)) (at_ - 1) r.2 k2 (k_index k2) |>).
  set (k4 := expire_loop (k_queue k3) k3). rewrite stash_parts. fold k3. fold k4.
  destruct (expire_shrinks (k_queue k3) k3) as [I1 I2]. fold k4 in I1, I2. change (k_index k3) with (cleanup_loop (S r.2 + length (k_index k2)) (at_ - 1) r.2 k2 (k_index k2)) in I1.
  change (entries _) with (map (get_entry k4) (drop_empty k4 (k_index k4))). apply ordered_index.
  apply (ordered_sublist _ _ (k_index k4)); [apply drop_empty_sublist|]. rewrite I1, HR.
  apply (ordered_shrinks (get_entry k2)); [exact Hord|]. intros id _. exact (I2 id).
Qed.
End Order.

(** ** What loading promises *)

(** C9. Loading a range from an index whose entries are in order and do not
    overlap serves every position of the range exactly once, either with one
    segment of cached data or by one fetch, and no other position; a cached
    position is processed with its cached value, one that is not is fetched.  An
    empty index is in order, and [stash] keeps it so ([stash_ordered]) unless the
    data lie strictly inside an older entry: then the entry is cut in its middle and
    overlaps, [stash_inside_shifts]. *)
Theorem load_plan_serves es beg end_ :
  index_ok es -> beg < end_ ->
  let '(segs, fetches) := load_plan es beg end_ in
  (forall x, times segs fetches x = if (beg <=? x) && (x <? end_) then 1%nat else 0%nat) /\
  (forall x, beg <= x < end_ -> forall v, cached es x v -> served segs x v /\ ~ fetched fetches x) /\
  (forall x, beg <= x < end_ -> (forall v, ~ cached es x v) ->
    fetched fetches x /\ forall v, ~ served segs x v) /\
  (forall x, (exists v, served segs x v) \/ fetched fetches x -> beg <= x < end_).
Proof.
  intros Hok Hbe. unfold load_plan. pose proof (start_covers es beg) as Hstart.
  destruct (search_spec (map en_beg es) beg (index_ok_increasing es Hok)) as (Hle & Hlt & Hge).
  set (at_ := search (map en_beg es) beg) in *. set (start := loop_start at_) in *.
  pose proof (load_loop_spec at_ beg end_ (drop start es) (index_ok_drop _ _ Hok) start beg) as H.
  assert (forall x v, cached (drop start es) x v -> cached es x v) as Hsub.
  { intros x v (e & He & Hh). exists e. split; [|done]. apply list_elem_of_lookup in He as [i Hi].
    rewrite lookup_drop in Hi. apply list_elem_of_lookup. eauto. }
  destruct (load_loop (drop start es) start at_ beg end_ beg) as [[segs fetches] last'].
  destruct H as (Ha & Hb & Hc & Hd); [lia|intros; lia| |].
  { intros j e Hj Hat. rewrite lookup_drop in Hj.
    apply (Hge (start + j)%nat); [by rewrite list_lookup_fmap, Hj|done]. }
  split; [exact Hd|split; [|split]].
  - intros x Hx v Hv. pose proof (Hstart x v Hok ltac:(lia) Hv) as Hv'.
    assert (~ fetched (fetches ++ (if last' =? end_ then [] else [(last', end_)])) x) as Hnf.
    { intros Hf. apply Hc in Hf as [_ Hn]. by eapply Hn. }
    split; [|done]. destruct (Ha x Hx) as [[v' Hs]|]; [|done].
    pose proof Hs as Hs'. apply Hb in Hs' as [Hs' _]. apply Hsub in Hs'.
    by rewrite (cached_unique es x v v' Hok Hv Hs').
  - intros x Hx Hn. assert (forall v, ~ served segs x v) as Hns.
    { intros v Hs. apply Hb in Hs as [Hs _]. apply Hsub in Hs. by eapply Hn. }
    split; [|done]. destruct (Ha x Hx) as [[v Hs]|]; [|done]. by apply Hns in Hs.
  - intros x [[v Hs]|Hf]; [by apply Hb in Hs as [_ ?]|by apply Hc in Hf as [? _]].
Qed.

Definition ex_index : list entry :=
  [mk_entry 0 [JNum 1; JNum 2] JNull; mk_entry 4 [JNum 5] JNull].

Lemma load_plan_serves_witness :
  let '(segs, fetches) := load_plan ex_index 1 6 in
  served segs 4 (JNum 5) /\ ~ fetched fetches 4.
Proof.
  refine (proj1 (proj2 (load_plan_serves ex_index 1 6 _ eq_refl)) 4 _ (JNum 5) _).
  - repeat constructor; done.
  - done.
  - exists (mk_entry 4 [JNum 5] JNull). split; [|done].
    unfold ex_index. rewrite !elem_of_cons. auto.
Defined.

(** ** The size of the cache *)

Fixpoint total (k : cache) (ids : list nat) : Z :=
  match ids with
  | [] => 0
  | i :: ids => en_len (get_entry k i) + total k ids
  end.

(** A sink and the index it uses, when the other sinks that use the index count
    [others] and have the entries [theirs] in their lists.  An item that one sink
    cuts out of the entry of another is still counted by that one, but then the
    counts are right together. *)
Record cache_ok (others : Z) (theirs : list nat) (k : cache) : Prop := {
  ok_count : k_count k + others = total k (k_queue k ++ theirs);
  ok_nodup : NoDup (k_queue k ++ theirs);
  ok_index_nodup : NoDup (k_index k);
  ok_index : forall i, i ∈ k_index k -> 0 < en_len (get_entry k i) -> i ∈ k_queue k ++ theirs;
  ok_next : forall i, i ∈ k_queue k ++ theirs \/ i ∈ k_index k -> (i < k_next k)%nat }.

(** What a sink counts beyond the items in its own entries. *)
Definition slack (k : cache) : Z := k_count k - total k (k_queue k).

Section Size.
Context (others : Z) (theirs : list nat).

#[local] Notation sink_ok := (cache_ok others theirs).
#[local] Notation ok_count := (ok_count others theirs).
#[local] Notation ok_nodup := (ok_nodup others theirs).
#[local] Notation ok_index_nodup := (ok_index_nodup others theirs).
#[local] Notation ok_index := (ok_index others theirs).

Lemma total_nonneg k ids : 0 <= total k ids.
Proof. induction ids as [|i ids IH]; cbn; [lia|]. pose proof (en_len_nonneg (get_entry k i)). lia. Qed.

Lemma get_entry_insert id e k i :
  get_entry (k <| k_entries ::= <[id := e]> |>) i = if decide (id = i) then e else get_entry k i.
Proof. unfold get_entry. cbn. rewrite lookup_insert. by case_decide. Qed.

Lemma total_ext k k' ids :
  (forall i, i ∈ ids -> en_len (get_entry k' i) = en_len (get_entry k i)) ->
  total k' ids = total k ids.
Proof.
  induction ids as [|i ids IH]; intros H; [done|]. cbn. rewrite IH.
  - rewrite H; [done|]. apply elem_of_cons. by left.
  - intros j Hj. apply H, elem_of_cons. by right.
Qed.

(** Changing one entry changes the total by the difference. *)
Lemma total_update id e k ids :
  NoDup ids -> id ∈ ids ->
  total (k <| k_entries ::= <[id := e]> |>) ids =
  total k ids - en_len (get_entry k id) + en_len e.
Proof.
  intros Hnd Hin. induction ids as [|i ids IH]; [by apply not_elem_of_nil in Hin|].
  apply NoDup_cons in Hnd as [Hni Hnd]. cbn. rewrite get_entry_insert.
  apply elem_of_cons in Hin as [->|Hin].
  - rewrite decide_True by done. rewrite (total_ext k).
    + lia.
    + intros j Hj. rewrite get_entry_insert. by rewrite decide_False by congruence.
  - rewrite decide_False by congruence. rewrite IH by done. lia.
Qed.

Lemma total_cons_le k i ids : i ∈ ids -> NoDup ids -> en_len (get_entry k i) <= total k ids.
Proof.
  intros Hin _. induction ids as [|j ids IH]; [by apply not_elem_of_nil in Hin|]. cbn.
  pose proof (en_len_nonneg (get_entry k j)). pose proof (total_nonneg k ids).
  apply elem_of_cons in Hin as [->|Hin]; [lia|]. specialize (IH Hin). lia.
Qed.

(** Non-empty distinct members of the queue weigh at most as much as the queue. *)
Lemma total_sub k ids q :
  NoDup ids -> NoDup q ->
  (forall i, i ∈ ids -> 0 < en_len (get_entry k i) -> i ∈ q) -> total k ids <= total k q.
Proof.
  revert q. induction ids as [|i ids IH]; intros q Hnd Hq Hsub; cbn; [apply total_nonneg|].
  apply NoDup_cons in Hnd as [Hni Hnd].
  pose proof (en_len_nonneg (get_entry k i)).
  destruct (decide (0 < en_len (get_entry k i))) as [Hp|Hz].
  - assert (i ∈ q) as Hin by (apply Hsub; [apply elem_of_cons; by left|done]).
    apply list_elem_of_split in Hin as (q1 & q2 & ->).
    assert (total k (q1 ++ i :: q2) = en_len (get_entry k i) + total k (q1 ++ q2)) as ->.
    { clear. induction q1 as [|j q1 IH]; cbn; [done|]. rewrite IH. lia. }
    apply NoDup_app in Hq as (Hq1 & Hq12 & Hq2). apply NoDup_cons in Hq2 as [Hq2 Hq2'].
    enough (total k ids <= total k (q1 ++ q2)) by lia. apply IH; [done| |].
    + apply NoDup_app. split; [done|]. split; [|done]. intros x Hx Hx2. apply (Hq12 x Hx).
      apply elem_of_cons. by right.
    + intros j Hj Hjp. assert (j ∈ q1 ++ i :: q2) as Hjq by (apply Hsub; [apply elem_of_cons; by right|done]).
      apply elem_of_app in Hjq as [?|Hjq]; [apply elem_of_app; by left|].
      apply elem_of_cons in Hjq as [->|?]; [done|]. apply elem_of_app. by right.
  - enough (total k ids <= total k q) by lia. apply IH; [done..|].
    intros j Hj. apply Hsub, elem_of_cons. by right.
Qed.

Lemma splice_out_len {A} f n (l : list A) :
  0 <= f -> 0 <= n -> f + n <= zlen l -> zlen (splice_out f n l) = zlen l - n.
Proof.
  intros. unfold splice_out, zlen in *. rewrite length_app, length_take, length_drop. lia.
Qed.

Lemma truncate_ok at_ beg end_ ids : forall i k,
  sink_ok k -> (forall j, j ∈ ids -> j ∈ k_index k) ->
  let '(k', i') := truncate_loop ids i at_ beg end_ k in
  sink_ok k' /\ k_index k' = k_index k /\ k_next k' = k_next k /\ k_limit k' = k_limit k /\
  slack k' <= slack k.
Proof.
  induction ids as [|id ids IH]; intros i k Hk Hids; cbn [truncate_loop]; [split_and!; done || lia|].
  assert (forall j, j ∈ ids -> j ∈ k_index k) as Hids' by (intros j Hj; apply Hids, elem_of_cons; by right).
  pose proof (en_len_nonneg (get_entry k id)) as Hn.
  destruct (Z.eqb_spec (en_len (get_entry k id)) 0); [by apply IH|].
  set (e := get_entry k id) in *. set (b := Z.max (en_beg e) beg).
  set (en := Z.min (en_end e) end_). destruct (Z.ltb_spec b en).
  2: { destruct (Nat.leb at_ i); [split_and!; done || lia|by apply IH]. }
  set (e1 := if b - en_beg e =? 0 then _ else _).
  assert (en_len e1 = en_len e - (en - b)) as El.
  { transitivity (zlen (splice_out (b - en_beg e) (en - b) (en_items e))).
    - unfold e1. by destruct (b - en_beg e =? 0).
    - rewrite splice_out_len; [done|unfold b, en, en_end, en_len in *; lia..]. }
  set (k1 := k <| k_entries ::= _ |> <| k_count := _ |>).
  assert (id ∈ k_queue k ++ theirs) as Hq.
  { apply (ok_index k Hk); [apply Hids, elem_of_cons; by left|fold e; lia]. }
  assert (sink_ok k1) as Hk1.
  { destruct Hk as [K1 K2 K3 K4 K5]. split; try done.
    - change (k_count k - (en - b) + others = total k1 (k_queue k ++ theirs)).
      rewrite (total_ext (k <| k_entries ::= <[id := e1]> |>) k1) by done.
      rewrite total_update by done. fold e. rewrite El. lia.
    - intros j Hj Hp. apply K4; [done|].
      change (get_entry k1 j) with (get_entry (k <| k_entries ::= <[id := e1]> |>) j) in Hp.
      rewrite get_entry_insert in Hp. case_decide; [subst; fold e; lia|done]. }
  assert (slack k1 <= slack k) as Hs.
  { unfold slack. change (k_count k - (en - b) - total k1 (k_queue k) <= k_count k - total k (k_queue k)).
    rewrite (total_ext (k <| k_entries ::= <[id := e1]> |>) k1) by done.
    destruct (decide (id ∈ k_queue k)) as [Hin|Hni].
    - rewrite total_update; [fold e; lia| |done]. pose proof (ok_nodup k Hk) as Hnd.
      by apply NoDup_app in Hnd as [? _].
    - rewrite (total_ext k); [lia|]. intros j Hj. rewrite get_entry_insert, decide_False; [done|congruence]. }
  specialize (IH (S i) k1 Hk1 Hids'). destruct (truncate_loop ids (S i) at_ beg end_ k1).
  destruct IH as (? & -> & -> & -> & ?). split_and!; done || lia.
Qed.

(** The clean-up only removes entries from the index. *)
Lemma cleanup_sub fuel k : forall at_ i index,
  NoDup index -> NoDup (cleanup_loop fuel at_ i k index) /\
  forall j, j ∈ cleanup_loop fuel at_ i k index -> j ∈ index.
Proof.
  induction fuel as [|fuel IH]; intros at_ i index Hnd; cbn [cleanup_loop]; [done|].
  destruct (Nat.leb at_ i); [|done]. destruct (index !! at_) as [id|] eqn:E; [|by apply IH].
  destruct (_ =? 0); [|by apply IH].
  assert (index = take at_ index ++ id :: drop (S at_) index) as Ei.
  { symmetry. by apply take_drop_middle. }
  assert (NoDup (take at_ index ++ drop (S at_) index)) as Hnd'.
  { rewrite Ei in Hnd. apply NoDup_app in Hnd as (? & Hd & Hnd). apply NoDup_cons in Hnd as [_ ?].
    apply NoDup_app. split; [done|]. split; [|done]. intros x Hx Hx'. apply (Hd x Hx).
    apply elem_of_cons. by right. }
  destruct (IH at_ i _ Hnd') as [? Hsub]. split; [done|]. intros j Hj. apply Hsub in Hj.
  rewrite Ei. rewrite elem_of_app in *. rewrite elem_of_cons. naive_solver.
Qed.

Lemma drop_empty_sub k index :
  NoDup index -> NoDup (drop_empty k index) /\ forall j, j ∈ drop_empty k index -> j ∈ index.
Proof.
  induction index as [|i index IH]; intros Hnd; cbn [drop_empty]; [done|].
  destruct (0 <? _); [done|]. apply NoDup_cons in Hnd as [_ Hnd].
  destruct (IH Hnd) as [? Hs]. split; [done|]. intros j Hj. apply elem_of_cons. right. auto.
Qed.

Lemma expire_queue q : forall k q', expire_loop q k = expire_loop q (k <| k_queue := q' |>).
Proof.
  induction q as [|h q IH]; intros k q'; cbn [expire_loop]; [done|].
  change (k_limit (k <| k_queue := q' |>)) with (k_limit k).
  change (k_count (k <| k_queue := q' |>)) with (k_count k).
  destruct (_ <? _); [|done]. by rewrite (IH _ q').
Qed.

Lemma expire_next queue : forall k, k_next (expire_loop queue k) = k_next k.
Proof.
  induction queue as [|h q IH]; intros k; cbn [expire_loop]; [done|].
  destruct (_ <? _); [|done]. by rewrite IH.
Qed.

Lemma expire_ok queue : forall k,
  k_queue k = queue -> sink_ok k ->
  sink_ok (expire_loop queue k) /\
  k_count (expire_loop queue k) <= Z.max (slack k) (k_limit k) /\
  k_limit (expire_loop queue k) = k_limit k /\ k_index (expire_loop queue k) = k_index k.
Proof.
  induction queue as [|hd queue IH]; intros k Hq Hk; cbn [expire_loop].
  - assert (k_count k = slack k) as Hc by (unfold slack; rewrite Hq; cbn; lia).
    split; [|split; [cbn; lia|done]]. assert (k <| k_queue := [] |> = k) as ->; [|done].
    destruct k; cbn in *. by subst.
  - destruct (Z.ltb_spec (k_limit k) (k_count k)).
    2: { assert (k <| k_queue := hd :: queue |> = k) as -> by (destruct k; cbn in *; by subst).
         split; [done|]. split; [lia|done]. }
    set (e := get_entry k hd).
    set (k1 := k <| k_count := _ |> <| k_entries ::= _ |>).
    (* the head leaves the queue together with its items *)
    pose proof (ok_nodup k Hk) as Hnd. rewrite Hq in Hnd. cbn [app] in Hnd.
    apply NoDup_cons in Hnd as [Hni Hnd].
    assert (forall i, get_entry (k1 <| k_queue := queue |>) i =
      if decide (hd = i) then mk_entry (en_beg e) [] JNull else get_entry k i) as Hg.
    { intros i. unfold get_entry. cbn. rewrite lookup_insert. by case_decide. }
    assert (forall ids, (forall i, i ∈ ids -> i ∈ queue ++ theirs) ->
      total (k1 <| k_queue := queue |>) ids = total k ids) as Htot.
    { intros ids Hids. apply total_ext. intros i Hi. rewrite Hg, decide_False; [done|].
      intros ->. by apply Hni, Hids. }
    assert (slack (k1 <| k_queue := queue |>) = slack k) as Hs.
    { unfold slack. change (k_count k - en_len e - total (k1 <| k_queue := queue |>) queue =
        k_count k - total k (k_queue k)).
      rewrite Htot, Hq by (intros i Hi; apply elem_of_app; by left). cbn [total]. fold e. lia. }
    assert (sink_ok (k1 <| k_queue := queue |>)) as Hk1.
    { destruct Hk as [K1 K2 K3 K4 K5]. rewrite Hq in *. cbn [app] in *. split; try done.
      - change (k_count k - en_len e + others = total (k1 <| k_queue := queue |>) (queue ++ theirs)).
        rewrite Htot by done. cbn in K1. fold e in K1. lia.
      - intros i Hi. rewrite Hg. case_decide; [intros Hp; unfold en_len, zlen in Hp; cbn in Hp; lia|]. intros Hp.
        specialize (K4 i Hi Hp). change (i ∈ queue ++ theirs). apply elem_of_cons in K4 as [|]; congruence.
      - intros i Hi. apply K5. destruct Hi; [left; apply elem_of_cons; by right|by right]. }
    rewrite (expire_queue queue k1 queue). rewrite <- Hs.
    destruct (IH (k1 <| k_queue := queue |>)) as (? & ? & ? & ?); [reflexivity|exact Hk1|done].
Qed.

Lemma insert_ok at_ beg items mapping k :
  sink_ok k -> sink_ok (insert_entry at_ beg items mapping k) /\
  slack (insert_entry at_ beg items mapping k) = slack k.
Proof.
  intros [K1 K2 K3 K4 K5]. set (k2 := insert_entry at_ beg items mapping k).
  assert (forall j, get_entry k2 j =
    if decide (k_next k = j) then mk_entry beg items mapping else get_entry k j) as Hg.
  { intros j. unfold get_entry. cbn. rewrite lookup_insert. by case_decide. }
  assert (forall j, j ∈ k_index k2 <-> j = k_next k \/ j ∈ k_index k) as Hidx.
  { intros j. change (k_index k2) with (take at_ (k_index k) ++ k_next k :: drop at_ (k_index k)).
    rewrite <- (take_drop at_ (k_index k)) at 3. rewrite !elem_of_app, elem_of_cons. naive_solver. }
  assert (forall j, j ∈ k_queue k2 ++ theirs <-> j = k_next k \/ j ∈ k_queue k ++ theirs) as Hq.
  { intros j. change (k_queue k2) with (k_queue k ++ [k_next k]).
    rewrite !elem_of_app, list_elem_of_singleton. naive_solver. }
  assert (forall j, j ∈ k_queue k ++ theirs \/ j ∈ k_index k -> k_next k <> j) as Hne.
  { intros j Hj E. apply K5 in Hj. lia. }
  assert (forall ids, (forall i, i ∈ ids -> i ∈ k_queue k ++ theirs) -> total k2 ids = total k ids) as Htot.
  { intros ids Hids. apply total_ext. intros j Hj. rewrite Hg, decide_False; auto. }
  assert (forall a b, total k2 (a ++ b) = total k2 a + total k2 b) as Happ.
  { intros a b. induction a as [|j a IHa]; cbn [app total]; lia. }
  assert (total k2 [k_next k] = zlen items) as Hone.
  { cbn [total]. rewrite Hg, decide_True by done. unfold en_len. cbn [en_items]. lia. }
  assert (total k2 (k_queue k2) = total k (k_queue k) + zlen items) as Hown.
  { change (k_queue k2) with (k_queue k ++ [k_next k]). rewrite Happ, Hone, Htot; [done|].
    intros i Hi. apply elem_of_app. by left. }
  split; [|unfold slack; rewrite Hown; change (k_count k2) with (k_count k + zlen items); lia].
  split.
  - change (k_count k2) with (k_count k + zlen items). rewrite Happ, Hown.
    rewrite (Htot theirs) by (intros i Hi; apply elem_of_app; by right).
    assert (total k (k_queue k ++ theirs) = total k (k_queue k) + total k theirs) as E.
    { generalize (k_queue k). intros q. induction q as [|j q IHq]; cbn [app total]; lia. }
    lia.
  - change (NoDup ((k_queue k ++ [k_next k]) ++ theirs)). rewrite <- app_assoc. cbn [app].
    rewrite <- Permutation_middle. apply NoDup_cons. split; [|done].
    intros Hin. by apply (Hne (k_next k)); [left|].
  - change (NoDup (take at_ (k_index k) ++ k_next k :: drop at_ (k_index k))).
    rewrite <- Permutation_middle, take_drop. apply NoDup_cons. split; [|done].
    intros Hin. by apply (Hne (k_next k)); [right|].
  - intros j. rewrite Hidx, Hq, Hg. case_decide; [auto|]. intros [?|?]; [auto|]. auto.
  - intros j. rewrite Hidx, Hq. change (k_next k2) with (S (k_next k)). specialize (K5 j).
    intros H. destruct (decide (j = k_next k)) as [->|]; [lia|].
    enough (j < k_next k)%nat by lia. apply K5. naive_solver.
Qed.

Lemma stash_ok beg items mapping k :
  sink_ok k -> 0 <= k_limit k -> k_count k <= k_limit k ->
  sink_ok (stash beg items mapping k) /\
  k_count (stash beg items mapping k) <= k_limit k /\ (k_next k <= k_next (stash beg items mapping k))%nat.
Proof.
  intros Hk Hpos Hc. unfold stash. destruct items as [|x items]; [done|]. cbv zeta.
  set (l := x :: items). set (at_ := search _ beg). set (start := loop_start at_).
  pose proof (truncate_ok at_ beg (beg + zlen l) (drop start (k_index k)) start k Hk) as Ht.
  destruct (truncate_loop _ _ _ _ _ _) as [k1 i].
  destruct Ht as (Hk1 & Ei & En & El & Es1).
  { intros j Hj. apply list_elem_of_lookup in Hj as [n Hn]. rewrite lookup_drop in Hn.
    apply list_elem_of_lookup. eauto. }
  set (k2 := insert_entry at_ beg l mapping k1).
  assert (sink_ok k2 /\ slack k2 = slack k1) as [Hk2 Es2] by by apply insert_ok.
  set (k3 := k2 <| k_index := cleanup_loop _ _ _ _ _ |>).
  assert (forall k0 index', sink_ok k0 -> NoDup index' -> (forall j, j ∈ index' -> j ∈ k_index k0) ->
    sink_ok (k0 <| k_index := index' |>)) as Hshrink.
  { intros k0 index' [K1 K2 K3 K4 K5] Hnd Hsub. split; [|done|done|..].
    - change (k_count k0 + others = total (k0 <| k_index := index' |>) (k_queue k0 ++ theirs)).
      by rewrite (total_ext k0).
    - intros j Hj. apply K4. by apply Hsub.
    - intros j [Hj|Hj]; apply K5; [by left|right; by apply Hsub]. }
  assert (sink_ok k3) as Hk3.
  { destruct (cleanup_sub (S i + length (k_index k2)) k2 (at_ - 1) i (k_index k2)
      (ok_index_nodup k2 Hk2)). by apply Hshrink. }
  assert (slack k3 <= k_limit k) as Hs3.
  { assert (slack k3 = slack k2) as -> by (unfold slack; by rewrite (total_ext k2 k3)).
    pose proof (total_nonneg k (k_queue k)). unfold slack in *. lia. }
  destruct (expire_ok (k_queue k3) k3 eq_refl Hk3) as (Hk4 & Hc4 & Hl4 & Hi4).
  pose proof (expire_next (k_queue k3) k3) as Hn4.
  set (k4 := expire_loop (k_queue k3) k3) in *.
  destruct (drop_empty_sub k4 (k_index k4) (ok_index_nodup k4 Hk4)).
  change (k_limit k3) with (k_limit k1) in *. rewrite El in *.
  split; [by apply Hshrink|]. change (k_count k4 <= k_limit k /\ (k_next k <= k_next k4)%nat).
  rewrite Hn4. change (k_next k3) with (S (k_next k1)). rewrite En. split; lia.
Qed.

End Size.

(** *** The sinks of a page *)

Definition sumz {A} (f : A -> Z) (l : list A) : Z := foldr (fun a n => f a + n) 0 l.

Lemma sumz_perm {A} (f : A -> Z) l l' : l ≡ₚ l' -> sumz f l = sumz f l'.
Proof. unfold sumz. induction 1; cbn in *; lia. Qed.

(** The items kept in an index, and the sinks that use it. *)
Definition opened (x : index) : cache := mk_cache 0 (ix_entries x) (ix_next x) (ix_list x) 0 [].

Definition stored (x : index) : Z := total (opened x) (ix_list x).

Definition all_sinks (w : world) : list sink := map snd (map_to_list (w_sinks w)).

Definition users (h : nat) (w : world) : list sink := filter (fun s => si_home s = h) (all_sinks w).

Record index_inv (ss : list sink) (x : index) : Prop := {
  ii_count : sumz si_count ss = total (opened x) (concat (map si_queue ss));
  ii_nodup : NoDup (concat (map si_queue ss));
  ii_index_nodup : NoDup (ix_list x);
  ii_index : forall i, i ∈ ix_list x -> 0 < en_len (get_entry (opened x) i) -> i ∈ concat (map si_queue ss);
  ii_next : forall i, i ∈ concat (map si_queue ss) \/ i ∈ ix_list x -> (i < ix_next x)%nat;
  ii_limit : forall s, s ∈ ss -> 0 <= si_limit s /\ si_count s <= si_limit s }.

Lemma concat_perm (ss ss' : list sink) : ss ≡ₚ ss' -> concat (map si_queue ss) ≡ₚ concat (map si_queue ss').
Proof.
  induction 1; cbn; [done|by f_equiv| |by etrans].
  rewrite !app_assoc. by rewrite (Permutation_app_comm (si_queue y)).
Qed.

Lemma total_perm k l l' : l ≡ₚ l' -> total k l = total k l'.
Proof. induction 1; cbn [total]; lia. Qed.

Lemma index_inv_perm ss ss' x : ss ≡ₚ ss' -> index_inv ss x -> index_inv ss' x.
Proof.
  intros Hp [I1 I2 I3 I4 I5 I6]. pose proof (concat_perm _ _ Hp) as Hc. split; [| |done|..].
  - by rewrite <- (sumz_perm _ _ _ Hp), <- (total_perm _ _ _ Hc).
  - by rewrite <- Hc.
  - intros i. rewrite <- Hc. apply I4.
  - intros i. rewrite <- Hc. apply I5.
  - intros s. rewrite <- Hp. apply I6.
Qed.

(** The view of one of the users of an index. *)
Lemma index_inv_view s ss x :
  index_inv (s :: ss) x <->
  cache_ok (sumz si_count ss) (concat (map si_queue ss)) (view s x) /\
  forall s', s' ∈ s :: ss -> 0 <= si_limit s' /\ si_count s' <= si_limit s'.
Proof.
  assert (forall ids, total (view s x) ids = total (opened x) ids) as E by (intros ids; by apply total_ext).
  split.
  - intros [I1 I2 I3 I4 I5 I6]. split; [|done]. split; try done. by rewrite E.
  - intros [[I1 I2 I3 I4 I5] I6]. split; try done. by rewrite <- E.
Qed.

(** A stash keeps the counts of all that share the index right. *)
Lemma stash_index_inv s ss x beg items mapping :
  index_inv (s :: ss) x ->
  let c := stash beg items mapping (view s x) in
  index_inv (s <| si_count := k_count c |> <| si_queue := k_queue c |> :: ss)
    (mk_index (k_entries c) (k_next c) (k_index c)).
Proof.
  intros [Hc Hl]%index_inv_view. cbv zeta. destruct (Hl s) as [H0 H1]; [apply elem_of_cons; by left|].
  destruct (stash_ok _ _ beg items mapping _ Hc H0 H1) as (Hc' & Hn & _).
  apply index_inv_view. split.
  - destruct Hc' as [C1 C2 C3 C4 C5]. split; try done. cbn. rewrite C1. by apply total_ext.
  - intros s' [->|Hs']%elem_of_cons; [by split|]. apply Hl, elem_of_cons. by right.
Qed.

(** An index never holds more than the limits of its users together. *)
Lemma index_inv_bound ss x : index_inv ss x -> stored x <= sumz si_limit ss.
Proof.
  intros [I1 I2 I3 I4 I5 I6]. unfold stored.
  pose proof (total_sub (opened x) (ix_list x) _ I3 I2 I4) as H. rewrite <- I1 in H.
  enough (sumz si_count ss <= sumz si_limit ss) by lia. clear - I6.
  induction ss as [|s ss IH]; cbn; [lia|]. destruct (I6 s); [apply elem_of_cons; by left|].
  unfold sumz in *. enough (foldr (fun a n => si_count a + n) 0 ss <= foldr (fun a n => si_limit a + n) 0 ss) by lia.
  apply IH. intros s' Hs'. apply I6, elem_of_cons. by right.
Qed.

Lemma all_sinks_insert k s s' (m : gmap nat sink) : m !! k = Some s -> exists rest,
  map snd (map_to_list m) ≡ₚ s :: rest /\ map snd (map_to_list (<[k := s']> m)) ≡ₚ s' :: rest.
Proof.
  intros Hk. exists (map snd (map_to_list (delete k m))). split.
  - by rewrite <- (map_to_list_delete m k s Hk).
  - rewrite <- insert_delete_eq. rewrite map_to_list_insert by apply lookup_delete_eq. done.
Qed.

(** Every index is as it should be for its users; indices and sinks are what has
    been made; an index without a name has one user. *)
Record page_inv (w : world) : Prop := {
  pi_index : forall h x, w_indexes w !! h = Some x -> index_inv (users h w) x;
  pi_home : forall k s, w_sinks w !! k = Some s -> is_Some (w_indexes w !! si_home s);
  pi_made : forall h, is_Some (w_indexes w !! h) \/ is_Some (w_sinks w !! h) -> (h < w_next w)%nat;
  pi_named : forall id h, (id, h) ∈ w_storage w -> is_Some (w_indexes w !! h);
  pi_private : forall k s, w_sinks w !! k = Some s -> si_limit s = 1024 ->
    (forall k' s', w_sinks w !! k' = Some s' -> si_home s' = si_home s -> k' = k) /\
    forall id, (id, si_home s) ∉ w_storage w }.

(** What the invariant looks at. *)
Definition caches (w : world) := (w_sinks w, w_indexes w, w_storage w, w_next w).

Lemma page_inv_caches w w' : caches w' = caches w -> page_inv w -> page_inv w'.
Proof.
  intros [= E1 E2 E3 E4] [P1 P2 P3 P4 P5].
  assert (all_sinks w' = all_sinks w) as Ea by (unfold all_sinks; by rewrite E1).
  assert (forall h, users h w' = users h w) as Eu by (intros h; unfold users; by rewrite Ea).
  split; rewrite ?E1, ?E2, ?E3, ?E4, ?Ea; try done.
  intros h x. rewrite Eu. apply P1.
Qed.

(** Changing a sink, but not which index it uses, changes the users of that index
    by it, and of no other. *)
Lemma users_insert w k s s' h :
  w_sinks w !! k = Some s -> si_home s' = si_home s ->
  exists rest, users h w ≡ₚ (if decide (si_home s = h) then s :: rest else rest) /\
    users h (w <| w_sinks ::= <[k := s']> |>) ≡ₚ (if decide (si_home s = h) then s' :: rest else rest).
Proof.
  intros Hk Hh. destruct (all_sinks_insert k s s' (w_sinks w) Hk) as (rest & E1 & E2).
  exists (filter (fun s => si_home s = h) rest). unfold users, all_sinks. cbn. rewrite E1, E2, !filter_cons, Hh.
  by destruct (decide (si_home s = h)).
Qed.

Lemma all_sinks_elem w s : s ∈ all_sinks w <-> exists k, w_sinks w !! k = Some s.
Proof.
  unfold all_sinks. rewrite list_elem_of_fmap. split.
  - intros ([k s'] & -> & H). exists k. by apply elem_of_map_to_list in H.
  - intros [k H]. exists (k, s). split; [done|]. by apply elem_of_map_to_list.
Qed.

Lemma stash_in_inv k beg items mapping w : page_inv w -> page_inv (stash_in k beg items mapping w).
Proof.
  intros Hw. pose proof Hw as [P1 P2 P3 P4 P5]. unfold stash_in. destruct (w_sinks w !! k) as [s|] eqn:Hk; [|done].
  destruct (P2 k s Hk) as [x Hx]. rewrite Hx. cbn [default]. set (c := stash beg items mapping (view s x)).
  set (s' := s <| si_count := k_count c |> <| si_queue := k_queue c |>).
  set (x' := mk_index (k_entries c) (k_next c) (k_index c)).
  apply (page_inv_caches ((w <| w_sinks ::= <[k := s']> |>) <| w_indexes ::= <[si_home s := x']> |>)).
  { unfold caches, upd_sink. cbn. repeat f_equal. apply map_eq. intros j.
    rewrite lookup_alter, lookup_insert. case_decide; [|done]. subst. by rewrite Hk. }
  pose proof (users_insert w k s s') as Hu.
  assert (forall h, is_Some (w_indexes w !! h) -> is_Some (<[si_home s := x']> (w_indexes w) !! h)) as Hsome.
  { intros h Hh. rewrite lookup_insert. by case_decide. }
  split; cbn.
  - intros h y Hy. rewrite lookup_insert in Hy. destruct (Hu h Hk eq_refl) as (rest & E1 & E2).
    change (users h _) with (users h (w <| w_sinks ::= <[k := s']> |>)).
    apply (index_inv_perm _ _ _ (symmetry E2)). case_decide as Hd.
    + injection Hy as <-. apply stash_index_inv. rewrite Hd in Hx. apply (index_inv_perm _ _ _ E1). by apply P1.
    + apply (index_inv_perm _ _ _ E1). by apply P1.
  - intros j t. rewrite lookup_insert. case_decide; [intros [= <-]; apply Hsome; by exists x|].
    intros Hj. by apply Hsome, (P2 j).
  - intros h Hh. apply P3. revert Hh. rewrite !lookup_insert.
    repeat case_decide; subst; rewrite ?Hk, ?Hx; intros [?|?]; eauto.
  - intros id h Hin. by apply Hsome, (P4 id).
  - intros j t Ht Hl. rewrite lookup_insert in Ht. change (w_storage (w <| w_sinks ::= _ |> <| w_indexes ::= _ |>)) with (w_storage w).
    assert (exists t0, w_sinks w !! j = Some t0 /\ si_limit t0 = 1024 /\ si_home t0 = si_home t) as (t0 & Ht0 & Hl0 & <-).
    { case_decide; [injection Ht as <-; exists s; by subst|by exists t]. }
    destruct (P5 j t0 Ht0 Hl0) as [Hone Hid]. split; [|done]. intros k' s2 Hk' Hh. rewrite lookup_insert in Hk'.
    case_decide; [injection Hk' as <-|]; subst; eauto.
Qed.

Lemma foldl_keeps {A} (P : world -> Prop) (f : world -> A -> world) l :
  (forall a w, P w -> P (f w a)) -> forall w, P w -> P (foldl f w l).
Proof. intros Hf. induction l as [|a l IH]; intros w H; cbn [foldl]; [done|]. by apply IH, Hf. Qed.

Lemma process_caches k beg items mapping w : caches (process k beg items mapping w) = caches w.
Proof.
  unfold process. destruct (w_sinks w !! k) as [s|]; [|done].
  apply (foldl_keeps (fun w' => caches w' = caches w)); [|done]. intros [g l] w' <-. unfold process_grid.
  destruct (w_grids w' !! g); [|done]. cbv zeta. destruct (_ <? _); [|done].
  unfold notify. destruct (w_grids _ !! g); [|done]. destruct (negb _); [done|]. cbv zeta. by destruct (_ <=? 0).
Qed.

Lemma process_inv k beg items mapping w : page_inv w -> page_inv (process k beg items mapping w).
Proof. apply page_inv_caches, process_caches. Qed.

Lemma input_inv k beg items mapping w : page_inv w -> page_inv (input k beg items mapping w).
Proof. intros H. by apply stash_in_inv, process_inv. Qed.

(** What the page does with its caches: it makes sinks, data comes in, and ranges
    are loaded, which is what grids do when they move.  The provider may answer a
    fetch at once. *)
Inductive op :=
  | NewSink (interval : Z) (identifier : string)
  | Input (k : nat) (beg : Z) (items : list jval) (mapping : jval)
  | Load (k : nat) (beg end_ : Z) (for_walking : bool).

(** The only user of an index. *)
Lemma only_user k s w : w_sinks w !! k = Some s ->
  (forall k' s', w_sinks w !! k' = Some s' -> si_home s' = si_home s -> k' = k) -> users (si_home s) w = [s].
Proof.
  intros Hk Hone. apply Permutation_singleton_r. unfold users, all_sinks.
  rewrite <- (map_to_list_delete _ _ _ Hk). cbn [map snd]. rewrite filter_cons, decide_True by done.
  destruct (filter _ (map snd (map_to_list (delete k (w_sinks w))))) as [|t l] eqn:E; [done|]. exfalso.
  assert (t ∈ t :: l) as Ht by (apply elem_of_cons; by left). rewrite <- E in Ht.
  apply list_elem_of_filter in Ht as [Hh Ht]. apply list_elem_of_fmap in Ht as ([j t'] & -> & Hj).
  apply elem_of_map_to_list in Hj. cbn in Hh. apply lookup_delete_Some in Hj as [Hjk Hj]. apply Hjk. symmetry. eauto.
Qed.

Section Provider.
Context (fetch_callback : nat -> option (Z -> Z -> bool -> list (Z * list jval * jval))).

Definition perform (w : world) (o : op) : world :=
  match o with
  | NewSink interval identifier => fst (new_sink interval identifier w)
  | Input k beg items mapping => input k beg items mapping w
  | Load k beg end_ for_walking => load fetch_callback k beg end_ for_walking w
  end.

Lemma fetch_inv k beg end_ fw w : page_inv w -> page_inv (fetch fetch_callback k beg end_ fw w).
Proof.
  intros Hw. unfold fetch. destruct (fetch_callback k) as [cb|]; [|done].
  apply foldl_keeps; [intros [[b items] m] w' H; by apply input_inv|].
  apply (page_inv_caches (if fw then w else stash_in k beg (replicate (Z.to_nat (end_ - beg)) JUndef) (JObj []) w));
    [by destruct fw|]. destruct fw; [done|by apply stash_in_inv].
Qed.

Lemma load_inv k beg end_ fw w : page_inv w -> page_inv (load fetch_callback k beg end_ fw w).
Proof.
  intros Hw. unfold load. destruct (w_sinks w !! k) as [s|]; [|done]. destruct (end_ <=? beg); [done|].
  cbv zeta. destruct (load_plan _ beg end_) as [segs fetches].
  apply foldl_keeps; [intros r w' H; by apply fetch_inv|].
  apply foldl_keeps; [intros g w' H; by apply process_inv|done].
Qed.

Lemma users_new w k s h : w_sinks w !! k = None ->
  users h (w <| w_sinks ::= <[k := s]> |>) ≡ₚ (if decide (si_home s = h) then s :: users h w else users h w).
Proof.
  intros Hk. unfold users, all_sinks. cbn. rewrite (map_to_list_insert _ _ _ Hk). cbn [map snd]. rewrite filter_cons.
  by destruct (decide (si_home s = h)).
Qed.

Lemma no_users w h : page_inv w -> w_indexes w !! h = None ->
  users h w = [] /\ forall k s, w_sinks w !! k = Some s -> si_home s <> h.
Proof.
  intros Hw Hh. assert (forall k s, w_sinks w !! k = Some s -> si_home s <> h) as H.
  { intros k s Hk <-. destruct (pi_home w Hw k s Hk) as [x Hx]. congruence. }
  split; [|exact H]. destruct (users h w) as [|s l] eqn:E; [done|]. exfalso.
  assert (s ∈ users h w) as Hs by (rewrite E; apply elem_of_cons; by left).
  unfold users in Hs. apply list_elem_of_filter in Hs as [Hs Hin]. apply all_sinks_elem in Hin as [k Hk].
  by apply (H k s).
Qed.

Lemma fresh_index_inv w : page_inv w ->
  w_indexes w !! w_next w = None /\
  page_inv (w <| w_indexes ::= <[w_next w := empty_index]> |> <| w_next ::= S |>).
Proof.
  intros Hw. assert (w_indexes w !! w_next w = None) as Hnone.
  { destruct (w_indexes w !! w_next w) eqn:E; [|done]. enough (w_next w < w_next w)%nat by lia.
    apply (pi_made w Hw). left. eauto. }
  split; [done|]. pose proof Hw as [P1 P2 P3 P4 P5].
  assert (forall h, is_Some (w_indexes w !! h) -> is_Some (<[w_next w := empty_index]> (w_indexes w) !! h)) as Hsome.
  { intros h Hh. rewrite lookup_insert. by case_decide. }
  split; cbn.
  - intros h y. rewrite lookup_insert. change (users h _) with (users h w).
    case_decide as Hd; [|apply P1]. intros [= <-]. subst h. rewrite (proj1 (no_users w (w_next w) Hw Hnone)).
    split; cbn; [done|constructor|constructor|..].
    + intros i Hi. by apply not_elem_of_nil in Hi.
    + intros i [Hi|Hi]; by apply not_elem_of_nil in Hi.
    + intros s Hs. by apply not_elem_of_nil in Hs.
  - intros k s Hk. by apply Hsome, (P2 k).
  - intros h. rewrite lookup_insert. case_decide; [lia|]. intros Hh. apply P3 in Hh. lia.
  - intros id h Hin. by apply Hsome, (P4 id).
  - exact P5.
Qed.

(** What [setup_index] promises to [new_sink]. *)
Lemma setup_index_inv id w : page_inv w ->
  let '(w', h) := setup_index id w in
  page_inv w' /\ is_Some (w_indexes w' !! h) /\
  (id = "" -> (forall k s, w_sinks w' !! k = Some s -> si_home s <> h) /\ forall id, (id, h) ∉ w_storage w') /\
  (id <> "" -> exists id, (id, h) ∈ w_storage w').
Proof.
  intros Hw. unfold setup_index. destruct (fresh_index_inv w Hw) as [Hnone Hf].
  destruct (no_users w _ Hw Hnone) as [_ Hno].
  assert (forall id, (id, w_next w) ∉ w_storage w) as Hid.
  { intros i Hin. apply (pi_named w Hw) in Hin as [x Hx]. congruence. }
  destruct (String.eqb_spec id "") as [->|Hne].
  - split; [done|]. split; [cbn; by rewrite lookup_insert_eq|]. done.
  - destruct (assoc_get id (w_storage w)) as [h|] eqn:E.
    + apply assoc_get_elem in E. split; [done|]. split; [by apply (pi_named w Hw id)|]. split; [done|eauto].
    + split; [|split; [cbn; by rewrite lookup_insert_eq|]].
      * destruct Hf as [P1 P2 P3 P4 P5]. cbn in *. split; cbn; try done.
        -- intros i h Hin. apply assoc_set_elem in Hin as [[-> ->]|Hin]; [by rewrite lookup_insert_eq|by apply (P4 i)].
        -- intros k s Hk Hl. destruct (P5 k s Hk Hl) as [? Hs]. split; [done|]. intros i Hin.
           apply assoc_set_elem in Hin as [[-> Hh]|Hin]; [by apply (Hno k s)|by apply (Hs i)].
      * split; [done|]. intros _. exists id. cbn. apply assoc_get_elem. by rewrite assoc_get_set, String.eqb_refl.
Qed.

Lemma new_sink_inv interval id w : page_inv w -> page_inv (fst (new_sink interval id w)).
Proof.
  intros Hw. unfold new_sink. pose proof (setup_index_inv id w Hw) as H.
  destruct (setup_index id w) as [w' h]. destruct H as (Hw' & [x Hx] & Hp & Hn). cbn [fst].
  set (k := w_next w'). set (s := mk_sink _ _ _ _ _ _).
  pose proof Hw' as [P1 P2 P3 P4 P5].
  assert (w_sinks w' !! k = None) as Hk.
  { destruct (w_sinks w' !! k) eqn:E; [|done]. enough (k < k)%nat by lia. apply P3. right. eauto. }
  assert (0 <= si_limit s) as Hl by (unfold s; cbn; by destruct (String.eqb id "")).
  split; cbn.
  - intros h' y Hy. change (users h' _) with (users h' (w' <| w_sinks ::= <[k := s]> |>)).
    apply (index_inv_perm _ _ _ (symmetry (users_new w' k s h' Hk))).
    case_decide as Hd; [|by apply P1]. destruct (P1 h' y Hy) as [I1 I2 I3 I4 I5 I6]. split; try done.
    intros t [->|Ht]%elem_of_cons; [by split|by apply I6].
  - intros j t. rewrite lookup_insert. case_decide; [intros [= <-]; by exists x|apply P2].
  - intros h'. rewrite lookup_insert. case_decide; [unfold k in *; lia|]. intros Hh. apply P3 in Hh. lia.
  - done.
  - intros j t. rewrite lookup_insert. case_decide as Hj.
    + intros [= <-] Hlim. destruct (String.eqb_spec id "") as [Hid|]; [|done]. destruct (Hp Hid) as [Hno Hs].
      split; [|done]. intros j' t'. rewrite lookup_insert. case_decide; [congruence|].
      intros Ht' Hh. by apply Hno in Ht'.
    + intros Ht Hlim. destruct (P5 j t Ht Hlim) as [Hone Hs]. split; [|done]. intros j' t'.
      rewrite lookup_insert. case_decide; [|apply Hone]. intros [= <-] Hh. exfalso.
      destruct (decide (id = "")) as [Hid|Hid].
      * destruct (Hp Hid) as [Hno _]. apply (Hno j t Ht). by rewrite <- Hh.
      * destruct (Hn Hid) as [i Hi]. apply (Hs i). by rewrite <- Hh.
Qed.

Lemma perform_inv w o : page_inv w -> page_inv (perform w o).
Proof. destruct o; [apply new_sink_inv|apply input_inv|apply load_inv]. Qed.

Lemma empty_world_inv : page_inv empty_world.
Proof.
  split; cbn.
  - intros h x. by rewrite lookup_empty.
  - intros k s. by rewrite lookup_empty.
  - intros h [[? H]|[? H]]; by rewrite lookup_empty in H.
  - intros id h H. by apply not_elem_of_nil in H.
  - intros k s. by rewrite lookup_empty.
Qed.

(** C10. The cache is bounded.  Whatever sinks the page makes, whatever data comes
    in and whatever ranges are loaded, in whatever order and however they overlap,
    an index never holds more items than the limits of the sinks that use it add up
    to; an index of a sink without an identifier has no other user, and never holds
    more than that sink's limit of 1024.  (Sinks with the same identifier share an
    index, and one limit does not bound that: [shared_index_exceeds].) *)
Theorem cache_bounded ops h x :
  let w := foldl perform empty_world ops in
  w_indexes w !! h = Some x ->
  stored x <= sumz si_limit (users h w) /\
  forall k s, w_sinks w !! k = Some s -> si_home s = h -> si_limit s = 1024 ->
    users h w = [s] /\ stored x <= 1024.
Proof.
  cbv zeta. set (w := foldl _ _ _). intros Hx.
  assert (page_inv w) as Hw by (apply (foldl_keeps page_inv); [intros; by apply perform_inv|apply empty_world_inv]).
  pose proof (index_inv_bound _ x (pi_index w Hw h x Hx)) as Hb. split; [exact Hb|].
  intros k s Hk Hh Hl. destruct (pi_private w Hw k s Hk Hl) as [Hone _]. subst h. rewrite (only_user k s w Hk Hone) in *.
  split; [done|]. cbn in Hb. lia.
Qed.

End Provider.

(** A provider that answers with what it was asked for. *)
Definition ex_provider (k : nat) : option (Z -> Z -> bool -> list (Z * list jval * jval)) :=
  Some (fun beg end_ _ => [(beg, map JNum (map Z.of_nat (seq 0 (Z.to_nat (end_ - beg)))), JNull)]).

Definition ex_ops : list op := [NewSink 1000 ""; Load 1 0 5 false; Input 1 3 [JNum 7] JNull].

Lemma cache_bounded_witness :
  let w := foldl (perform ex_provider) empty_world ex_ops in
  match w_indexes w !! 0%nat with
  | Some x => stored x = 5 /\ stored x <= sumz si_limit (users 0 w)
  | None => False
  end.
Proof.
  cbv zeta. destruct (w_indexes _ !! 0%nat) as [x|] eqn:E; [|by vm_compute in E].
  split; [|by apply (cache_bounded ex_provider ex_ops 0 x)].
  vm_compute in E. injection E as <-. reflexivity.
Defined.

(** Two sinks with the same identifier put 120000 items into one index, although
    the limit of each is 65536. *)
Example shared_index_exceeds :
  let items := replicate 60000 JUndef in
  let w := foldl (perform (fun _ => None)) empty_world
    [NewSink 1000 "cpu"; NewSink 1000 "cpu"; Input 1 0 items JNull; Input 2 100000 items JNull] in
  option_map stored (w_indexes w !! 0%nat) = Some 120000 /\ map si_limit (users 0 w) = [65536; 65536].
Proof. split; vm_compute; reflexivity. Qed.

(** ** Filling rows *)

Lemma row_set_eq i v row : row_set i v row !! i = Some v.
Proof.
  unfold row_set. apply list_lookup_insert_eq. rewrite length_app, length_replicate. lia.
Qed.

Lemma row_set_ne i v row p : p <> i -> (p < length row)%nat -> row_set i v row !! p = row !! p.
Proof. intros Hne Hp. unfold row_set. rewrite list_lookup_insert_ne by done. by rewrite lookup_app_l. Qed.

Lemma row_set_length i v row : (length row <= length (row_set i v row))%nat.
Proof. unfold row_set. rewrite length_insert, length_app. lia. Qed.

Lemma fill_row_keeps n : forall t items m path row p,
  (p < t)%nat \/ (t + n <= p)%nat \/ (t + length items <= p)%nat -> (p < length row)%nat ->
  fill_row n t items m path row !! p = row !! p.
Proof.
  induction n as [|n IH]; intros t items m path row p Hp Hl; cbn [fill_row]; [done|].
  destruct items as [|x items]; [done|]. cbn in Hp. rewrite IH.
  - apply row_set_ne; [lia|done].
  - lia.
  - pose proof (row_set_length t (field x m path) row). lia.
Qed.

Lemma fill_row_fills n : forall t items m path row j x,
  (j < n)%nat -> items !! j = Some x ->
  fill_row n t items m path row !! (t + j)%nat = Some (field x m path).
Proof.
  induction n as [|n IH]; intros t items m path row j x Hj Hx; [lia|]. cbn [fill_row].
  destruct items as [|y items]; [done|]. destruct j as [|j]; cbn in Hx.
  - injection Hx as ->. rewrite Nat.add_0_r. rewrite fill_row_keeps; [apply row_set_eq|lia|].
    apply lookup_lt_Some with (field x m path). apply row_set_eq.
  - replace (t + S j)%nat with (S t + j)%nat by lia. apply IH; [lia|done].
Qed.

Lemma fill_links_row links n t items m path row rows r :
  NoDup (map snd links) -> (path, row) ∈ links -> rows !! row = Some r ->
  fill_links links n t items m rows !! row = Some (fill_row n t items m path r).
Proof.
  unfold fill_links. revert rows r. induction links as [|[p' r0] links IH]; intros rows r Hnd Hin Hr.
  { by apply not_elem_of_nil in Hin. }
  cbn [foldl fst snd]. cbn in Hnd. apply NoDup_cons in Hnd as [Hni Hnd].
  apply elem_of_cons in Hin as [E|Hin].
  - injection E as -> ->. clear IH. assert (forall rows' : gmap nat (list jval), rows' !! r0 = Some (fill_row n t items m p' r) ->
      foldl (fun rows link => alter (fill_row n t items m link.1) link.2 rows) rows' links !! r0 =
      Some (fill_row n t items m p' r)) as H.
    { clear Hr rows. induction links as [|[p2 r2] links IH]; intros rows' Hr'; cbn [foldl fst snd]; [done|].
      cbn in Hni, Hnd. apply not_elem_of_cons in Hni as [Hne Hni]. apply NoDup_cons in Hnd as [_ Hnd].
      apply IH; [done..|]. by rewrite lookup_alter_ne. }
    apply H. rewrite lookup_alter, decide_True, Hr by done. done.
  - assert (r0 <> row) as Hne.
    { intros ->. apply Hni. apply list_elem_of_fmap. by exists (path, row). }
    apply IH; [done..|]. by rewrite lookup_alter_ne.
Qed.

Lemma notify_rows g x n w : w_rows (notify g x n w) = w_rows w.
Proof.
  unfold notify. destruct (w_grids w !! g); [|done]. destruct (negb _); [done|]. cbv zeta.
  by destruct (_ <=? 0).
Qed.

(** Data reaching a grid lands in the right cells: in the row of every link
    the cell of each position covered by both the data and the grid gets the
    value of the data at that position, taken along the link's path, and cells
    outside the data keep their value. *)
Theorem process_fills g l gr links path row r beg items mapping w :
  w_grids w !! g = Some gr -> w_links w !! l = Some links -> NoDup (map snd links) ->
  (path, row) ∈ links -> w_rows w !! row = Some r ->
  exists r', w_rows (process_grid beg items mapping (g, l) w) !! row = Some r' /\
  (forall x v, g_beg gr <= x < g_end gr -> holds beg items x v ->
    r' !! Z.to_nat (x - g_beg gr) = Some (field v mapping path)) /\
  (forall p, (p < length r)%nat ->
    g_beg gr + Z.of_nat p < beg \/ beg + zlen items <= g_beg gr + Z.of_nat p -> r' !! p = r !! p).
Proof.
  intros Hg Hl Hnd Hin Hr. unfold process_grid. rewrite Hg. cbv zeta.
  set (b := Z.max beg (g_beg gr)). set (e := Z.min (beg + zlen items) (g_end gr)).
  destruct (Z.ltb_spec b e) as [Hbe|Hbe].
  - rewrite notify_rows. rewrite Hl. cbn [default]. eexists. split.
    + cbn. by apply (fill_links_row links _ _ _ _ path).
    + split.
      * intros x v Hx Hh. pose proof (holds_range _ _ _ _ Hh) as Hrange. destruct Hh as [Hbx Hv].
        replace (Z.to_nat (x - g_beg gr))
          with (Z.to_nat (b - g_beg gr) + Z.to_nat (x - b))%nat by (unfold b, e in *; lia).
        apply fill_row_fills; [unfold b, e in *; lia|]. rewrite lookup_drop.
        replace (Z.to_nat (b - beg) + Z.to_nat (x - b))%nat with (Z.to_nat (x - beg)); [done|].
        unfold b, e in *; lia.
      * intros p Hp Hout. apply fill_row_keeps; [|done]. unfold b, e in *. lia.
  - exists r. split; [done|]. split; [|done]. intros x v Hx Hh. apply holds_range in Hh.
    unfold b, e in *. lia.
Qed.

(** A grid over 10..20 with one row, fed the positions 8..12. *)
Definition ex_world : world :=
  let '(w, k) := new_sink 1000 "" empty_world in
  let w := new_grid (fun _ => None) 1000 (Some 10) (Some 20) 0 w in
  match add 2 k ["a"] w with Some (w, _) => w | None => w end.

Definition ex_items : list jval :=
  map (fun n => JObj [("a", JNum n)]) [8; 9; 10; 11; 12].

Lemma process_fills_witness :
  exists r', w_rows (process_grid 8 ex_items JUndef (2%nat, 4%nat) ex_world) !! 3%nat = Some r' /\
  r' !! 2%nat = Some (JNum 12).
Proof.
  destruct (process_fills 2 4 (mk_grid 1000 10 20 [3%nat] [(1%nat, 4%nat)] [] 0 None)
    [(["a"], 3%nat)] ["a"] 3 [] 8 ex_items JUndef ex_world) as (r' & Hr & Hx & _).
  - reflexivity.
  - reflexivity.
  - repeat constructor. apply not_elem_of_nil.
  - apply elem_of_cons. by left.
  - reflexivity.
  - exists r'. split; [exact Hr|]. apply (Hx 12 (JObj [("a", JNum 12)])); [done|]. split; [done|].
    reflexivity.
Defined.

(** Data that lands inside an older entry is cut out of its middle, and the
    items behind it move to earlier positions: position 5 held 5 and is then
    served as 7. *)
Example stash_inside_shifts :
  let k := stash 0 (map JNum [0; 1; 2; 3; 4; 5; 6; 7]) JNull (mk_cache 1024 ∅ 0 [] 0 []) in
  let k := stash 3 (map JNum [30; 40]) JNull k in
  map (fun e => (en_beg e, en_items e)) (entries k) =
  [(0, map JNum [0; 1; 2; 5; 6; 7]); (3, map JNum [30; 40])].
Proof. vm_compute. reflexivity. Qed.
