(* ===== verification/Metrics.v ===== *)
(** * Metrics channels (src/src/base1/cockpit.js, [MetricsChannel])

    A metrics channel turns the messages of "metrics1" channels into the input
    of a series: a meta message describes the data, later messages hold samples
    in which a null means "same as in the previous sample".

    Channels are numbered in the order they are opened; the series and the
    channel layer are seen through the effects in the trace. *)

From S2P Require Import Prelude.
From S2P Require Import Series.

(** ** Decompression *)

Definition nullish (v : jval) : bool := match v with JNull | JUndef => true | _ => false end.

(** The loops over [k]: nulls of an instance array are filled from the last
    sample, missing elements are appended. *)
Fixpoint fill_instances (dataj lastj : list jval) : list jval :=
  match dataj, lastj with
  | [], _ => lastj
  | x :: dataj, [] => (match x with JNull => JUndef | _ => x end) :: fill_instances dataj []
  | x :: dataj, y :: lastj => (match x with JNull => y | _ => x end) :: fill_instances dataj lastj
  end.

(** One element [data[j]] against [last[j]]; [None] is the TypeError of taking
    the length of a missing value. *)
Definition fill_element (dataj lastj : jval) : option jval :=
  if nullish dataj then Some lastj
  else match dataj with
       | JArr d =>
           match lastj with
           | JArr l => Some (JArr (fill_instances d l))
           | JNull | JUndef => None
           | _ => Some (JArr (fill_instances d []))
           end
       | v => Some v
       end.

(** The loop over [j]: it runs over the length of [last]. *)
Fixpoint fill_sample (data last : list jval) : option (list jval) :=
  match last with
  | [] => Some data
  | y :: last =>
      let x := default JUndef (head data) in
      v ← fill_element x y;
      rest ← fill_sample (tail data) last;
      Some (v :: rest)
  end.

(** The loop over the samples of a message, with the [last] it leaves. *)
Fixpoint decompress (last : option (list jval)) (message : list (list jval))
    : option (list (list jval) * option (list jval)) :=
  match message with
  | [] => Some ([], last)
  | data :: message =>
      data ← (match last with Some l => fill_sample data l | None => Some data end);
      r ← decompress (Some data) message;
      Some (data :: fst r, snd r)
  end.

(** ** The channel *)

Inductive metrics_effect :=
  | MOpen (ch : nat) (options : jobj)
  | MInput (beg : Z) (message : list (list jval)) (mapping : jval)
  | MChanged
  | MClose (ch : nat) (options : jobj)
  | MSeriesClose.

(** The closure of one [transfer]. *)
Record tchan := mk_tchan {
  t_options : list jobj; t_archive : bool; t_meta : option (list (string * jval));
  t_last : option (list jval); t_beg : Z }.

#[export] Instance tchan_settable : Settable tchan := fun t =>
  mk_tchan (t_options t) (t_archive t) (t_meta t) (t_last t) (t_beg t).

Record metrics := mk_metrics {
  m_interval : Z; m_options : list jobj; m_following : bool; m_archives : bool;
  m_channels : list tchan; m_meta : option (list (string * jval)); m_trace : list metrics_effect }.

#[export] Instance metrics_settable : Settable metrics := fun m =>
  mk_metrics (m_interval m) (m_options m) (m_following m) (m_archives m) (m_channels m)
    (m_meta m) (m_trace m).

Definition new_metrics (interval : Z) (options : list jobj) : metrics :=
  mk_metrics interval options false false [] None [].

Definition record (e : metrics_effect) (m : metrics) : metrics := m <| m_trace ::= (fun t => t ++ [e]) |>.

(** [extend({ payload, interval, source }, options)] without [archive_source]. *)
Definition channel_options (interval : Z) (options : jobj) : jobj :=
  delete "archive_source"
    (extend {["payload" := JStr "metrics1"; "interval" := JNum interval; "source" := JStr "internal"]} options).

Definition transfer (options_list : list jobj) (is_archive : bool) (m : metrics) : metrics :=
  match options_list with
  | [] => m
  | options :: _ =>
      if negb is_archive && m_following m then m
      else
        let m := if is_archive then m else m <| m_following := true |> in
        record (MOpen (length (m_channels m)) (channel_options (m_interval m) options))
          (m <| m_channels ::= (fun c => c ++ [mk_tchan options_list is_archive None None 0]) |>)
  end.

(** The close event of channel [ch]. *)
Definition on_close (ch : nat) (problem : jval) (m : metrics) : metrics :=
  match m_channels m !! ch with
  | None => m
  | Some t =>
      let m := if t_archive t then m else m <| m_following := false |> in
      match t_options t with
      | _ :: ((_ :: _) as rest) =>
          if is_str problem "not-supported" || is_str problem "not-found"
          then transfer rest false m          (* is_archive is not passed on *)
          else if truthy problem then m
          else if t_archive t && negb (m_archives m)
               then record MChanged (m <| m_archives := true |>) else m
      | _ =>
          if truthy problem then m
          else if t_archive t && negb (m_archives m)
               then record MChanged (m <| m_archives := true |>) else m
      end
  end.

(** ** The mapping of [drain] *)

Definition get (fields : list (string * jval)) (k : string) : jval := default JUndef (assoc_get k fields).

Definition arr (v : jval) : list jval := match v with JArr l => l | _ => [] end.

(** [map[instance] = { "": i }] for each instance. *)
Fixpoint instance_map (instances : list jval) (i : Z) (map : list (string * jval))
    : list (string * jval) :=
  match instances with
  | [] => map
  | x :: instances =>
      let name := js_String x in
      let name := if String.eqb name "" then "/" else name in
      instance_map instances (i + 1) (assoc_set name (JObj [("", JNum i)]) map)
  end.

Fixpoint metric_map (path_names : jval) (metrics : list jval) (i : Z) (mapping : list (string * jval))
    : list (string * jval) :=
  match metrics with
  | [] => mapping
  | metric :: metrics =>
      let name := if truthy path_names then js_get path_names (JNum i) else js_get metric (JStr "name") in
      let map := instance_map (arr (js_get metric (JStr "instances"))) 0 [("", JNum i)] in
      metric_map path_names metrics (i + 1) (assoc_set (js_String name) (JObj map) mapping)
  end.

Definition mapping_of (meta : list (string * jval)) (options : jobj) : jval :=
  if truthy (get meta "mapping") then get meta "mapping"
  else JObj (metric_map (prop options "metrics_path_names") (arr (get meta "metrics")) 0 []).

(** [drain]: the meta object keeps its mapping. *)
Definition drain (beg : Z) (meta : list (string * jval)) (message : option (list (list jval)))
    (options : jobj) (m : metrics) : metrics * list (string * jval) :=
  let mapping := mapping_of meta options in
  (match message with Some msg => record (MInput beg msg mapping) m | None => m end,
   assoc_set "mapping" mapping meta).

(** A message from channel [ch]: a meta object, or an array of samples. *)
Inductive metrics_message := MetaMessage (meta : list (string * jval)) | DataMessage (samples : list (list jval)).

Definition num (v : jval) : Z := match v with JNum z => z | _ => 0 end.

Definition upd_tchan (ch : nat) (f : tchan -> tchan) (m : metrics) : metrics :=
  m <| m_channels ::= alter f ch |>.

(** The message event; [now] is [Date.now()], [None] an exception. *)
Definition on_message (now : Z) (ch : nat) (msg : metrics_message) (m : metrics) : option metrics :=
  match m_channels m !! ch with
  | None => Some m
  | Some t =>
      let options := default ∅ (head (t_options t)) in
      match msg with
      | MetaMessage meta =>
          let timestamp := if truthy (get meta "now") && truthy (get meta "timestamp")
                           then num (get meta "timestamp") + (now - num (get meta "now")) else 0 in
          let beg := timestamp / m_interval m in
          let '(m, meta) := drain beg meta None options m in
          Some (record MChanged
            (upd_tchan ch (fun t => t <| t_meta := Some meta |> <| t_beg := beg |>) m
               <| m_meta := Some meta |>))
      | DataMessage samples =>
          match t_meta t with
          | None => Some m
          | Some meta =>
              r ← decompress (t_last t) samples;
              let '(samples, last) := r in
              let '(m, meta) := drain (t_beg t) meta (Some samples) options m in
              let meta := assoc_set "timestamp"
                (JNum (num (get meta "timestamp") + m_interval m * zlen samples)) meta in
              Some (upd_tchan ch (fun t => t <| t_meta := Some meta |> <| t_last := last |>
                      <| t_beg := t_beg t + zlen samples |>) m)
          end
      end
  end.

(** [MetricsChannel.fetch]. *)
Definition fetch_archive (now beg end_ : Z) (m : metrics) : metrics :=
  let timestamp := beg * m_interval m - now in
  let limit := end_ - beg in
  let archives := filter (fun o => truthy (prop o "archive_source") = true) (m_options m) in
  transfer (map (fun o => <["limit" := JNum limit]> (<["timestamp" := JNum timestamp]>
    (<["source" := prop o "archive_source"]> o))) archives) true m.

(** [MetricsChannel.follow]. *)
Definition follow (m : metrics) : metrics := transfer (m_options m) false m.

(** The fetch callback given to the series. *)
Definition fetch_for_series (now beg end_ : Z) (for_walking : bool) (m : metrics) : metrics :=
  if for_walking then follow m else fetch_archive now beg end_ m.

(** [MetricsChannel.close]. *)
Definition close_metrics (options : jobj) (m : metrics) : metrics :=
  foldl (fun m ch => record (MClose ch options) m) (record MSeriesClose m)
    (seq 0 (length (m_channels m))).

(** ** Delta encodings *)

(** [d] is an admissible encoding of an instance array [cur] after [prev]:
    element by element the value itself, or null where it is unchanged; a tail
    that is unchanged may be left out. *)
Inductive delta_instances : list jval -> list jval -> list jval -> Prop :=
  | di_rest prev : delta_instances prev prev []
  | di_same x prev cur d : delta_instances prev cur d ->
      delta_instances (x :: prev) (x :: cur) (JNull :: d)
  | di_value x y prev cur d : y <> JNull -> delta_instances prev cur d ->
      delta_instances (x :: prev) (y :: cur) (y :: d)
  | di_new y cur d : y <> JNull -> delta_instances [] cur d ->
      delta_instances [] (y :: cur) (y :: d).

Inductive delta_element : jval -> jval -> jval -> Prop :=
  | de_same x d : nullish d = true -> delta_element x x d
  | de_value x y : nullish y = false -> (forall l, y <> JArr l) -> delta_element x y y
  | de_array prev cur d : delta_instances prev cur d ->
      delta_element (JArr prev) (JArr cur) (JArr d).

(** Samples of one shape; trailing unchanged metrics may be left out. *)
Inductive delta_sample : list jval -> list jval -> list jval -> Prop :=
  | ds_nil : delta_sample [] [] []
  | ds_rest prev : delta_sample prev prev []
  | ds_cons x y prev cur d ds : delta_element x y d -> delta_sample prev cur ds ->
      delta_sample (x :: prev) (y :: cur) (d :: ds).

(** A stream of samples and its encoding. *)
Inductive delta_stream : option (list jval) -> list (list jval) -> list (list jval) -> Prop :=
  | dst_nil last : delta_stream last [] []
  | dst_first s ss ds : delta_stream (Some s) ss ds -> delta_stream None (s :: ss) (s :: ds)
  | dst_next last s d ss ds : delta_sample last s d -> delta_stream (Some s) ss ds ->
      delta_stream (Some last) (s :: ss) (d :: ds).

Lemma fill_instances_delta prev cur d : delta_instances prev cur d -> fill_instances d prev = cur.
Proof.
  induction 1 as [prev|x prev cur d _ IH|x y prev cur d Hy _ IH|y cur d Hy _ IH]; cbn.
  - done.
  - by rewrite IH.
  - rewrite IH. by destruct y.
  - rewrite IH. by destruct y.
Qed.

Lemma fill_element_delta x y d : delta_element x y d -> fill_element d x = Some y.
Proof.
  intros [x' d' Hd|x' y' Hy Hna|prev cur d' Hd]; unfold fill_element.
  - by rewrite Hd.
  - rewrite Hy. destruct y'; try done. by destruct (Hna l).
  - cbn. by rewrite (fill_instances_delta prev cur d').
Qed.

Lemma fill_sample_rest prev : fill_sample [] prev = Some prev.
Proof. induction prev as [|x prev IH]; cbn; [done|]. by rewrite IH. Qed.

Lemma fill_sample_delta prev cur d : delta_sample prev cur d -> fill_sample d prev = Some cur.
Proof.
  induction 1 as [|prev|x y prev cur d ds Hd _ IH]; [done|apply fill_sample_rest|].
  cbn [fill_sample head tail]. rewrite (fill_element_delta x y) by done. cbn. by rewrite IH.
Qed.

Lemma decompress_delta last ss ds :
  delta_stream last ss ds ->
  exists l, decompress last ds = Some (ss, l) /\
    l = match List.rev ss with [] => last | s :: _ => Some s end.
Proof.
  induction 1 as [last|s ss ds _ IH|last s d ss ds Hd _ IH].
  - by exists last.
  - destruct IH as (l & E & El). exists l. cbn. rewrite E. split; [done|]. rewrite El.
    destruct (rev ss) eqn:Er; [|done]. done.
  - destruct IH as (l & E & El). exists l. cbn. rewrite (fill_sample_delta last s) by done.
    cbn. rewrite E. split; [done|]. rewrite El. by destruct (rev ss).
Qed.

Lemma delta_stream_app last ss1 ds1 ss2 ds2 :
  length ss1 = length ds1 ->
  delta_stream last (ss1 ++ ss2) (ds1 ++ ds2) ->
  delta_stream last ss1 ds1 /\
  delta_stream (match List.rev ss1 with [] => last | s :: _ => Some s end) ss2 ds2.
Proof.
  revert last ds1. induction ss1 as [|s ss1 IH]; intros last [|d ds1] Hl H; try done.
  - split; [constructor|done].
  - cbn in Hl. injection Hl as Hl. inversion H; subst; clear H; cbn [rev];
      match goal with H' : delta_stream (Some ?x) _ _ |- _ =>
        destruct (IH (Some x) ds1 Hl H') as [Ha Hb] end;
      (split; [by econstructor|]); destruct (rev ss1); exact Hb.
Qed.

(** ** Data reaching the series *)

(** The inputs of a run of data messages. *)
Fixpoint feed (now : Z) (ch : nat) (msgs : list (list (list jval))) (m : metrics) : option metrics :=
  match msgs with
  | [] => Some m
  | msg :: msgs => m ← on_message now ch (DataMessage msg) m; feed now ch msgs m
  end.

Definition inputs (m : metrics) : list (Z * list (list jval)) :=
  omap (fun e => match e with MInput b s _ => Some (b, s) | _ => None end) (m_trace m).

(** Consecutive batches starting at [beg]. *)
Fixpoint batches (beg : Z) (l : list (list (list jval))) : list (Z * list (list jval)) :=
  match l with
  | [] => []
  | s :: l => (beg, s) :: batches (beg + zlen s) l
  end.

Lemma data_message now ch t meta m samples out last' :
  m_channels m !! ch = Some t -> t_meta t = Some meta ->
  decompress (t_last t) samples = Some (out, last') -> zlen out = zlen samples ->
  exists m' t' meta', on_message now ch (DataMessage samples) m = Some m' /\
    inputs m' = inputs m ++ [(t_beg t, out)] /\
    m_channels m' !! ch = Some t' /\ t_meta t' = Some meta' /\ t_last t' = last' /\
    t_beg t' = t_beg t + zlen samples.
Proof.
  intros Hc Hm Hd Hl. unfold on_message. rewrite Hc, Hm, Hd. cbn [mbind option_bind].
  unfold drain. do 3 eexists. split; [reflexivity|]. split.
  - unfold inputs, upd_tchan, record. cbn. by rewrite omap_app.
  - unfold upd_tchan, record. cbn. rewrite list_lookup_alter_eq, Hc. cbn.
    split; [reflexivity|]. cbn. rewrite Hl. done.
Qed.

Lemma decompress_length last message out l :
  decompress last message = Some (out, l) -> length out = length message.
Proof.
  revert last out l. induction message as [|d message IH]; intros last out l; cbn.
  - by intros [= <- <-].
  - destruct (match last with Some _ => _ | None => _ end) as [d'|]; [|done]. cbn.
    destruct (decompress (Some d') message) as [[o l']|] eqn:E; [|done]. cbn.
    intros [= <- <-]. cbn. f_equal. by eapply IH.
Qed.

(** C11. A delta-encoded stream reaches the series as it was sampled: however
    the encoded samples are cut into messages, each message is fed to the series as
    the full samples it stands for, at positions that follow each other
    without gap or overlap. *)
Theorem metrics_stream now ch msgs : forall samples t meta m,
  m_channels m !! ch = Some t -> t_meta t = Some meta ->
  Forall2 (fun s d => length s = length d) samples msgs ->
  delta_stream (t_last t) (concat samples) (concat msgs) ->
  exists m', feed now ch msgs m = Some m' /\ inputs m' = inputs m ++ batches (t_beg t) samples.
Proof.
  induction msgs as [|msg msgs IH]; intros samples t meta m Hc Hm Hl Hd.
  - inversion Hl; subst. exists m. by rewrite app_nil_r.
  - inversion Hl as [|s ? ss ? Hlen Hl']; subst. cbn [concat] in Hd.
    apply delta_stream_app in Hd as [Hd1 Hd2]; [|done].
    destruct (decompress_delta _ _ _ Hd1) as (l & Edec & El).
    pose proof (decompress_length _ _ _ _ Edec) as Hlen'.
    destruct (data_message now ch t meta m msg s l Hc Hm Edec) as (m1 & t1 & meta1 & E1 & I1 & C1 & M1 & L1 & B1).
    { unfold zlen. by rewrite Hlen'. }
    destruct (IH ss t1 meta1 m1 C1 M1 Hl') as (m' & Ef & If).
    { rewrite L1, El. done. }
    exists m'. cbn [feed]. rewrite E1. cbn [mbind option_bind]. split; [done|].
    rewrite If, I1, <- app_assoc, B1. cbn [batches app]. unfold zlen. by rewrite Hlen.
Qed.

Definition ex_started : metrics :=
  default (new_metrics 1000 []) (on_message 0 0
    (MetaMessage [("metrics", JArr [JObj [("name", JStr "cpu")]])])
    (follow (new_metrics 1000 [∅]))).

Lemma metrics_stream_witness :
  exists m', feed 0 0 [[[JNum 5; JArr [JNum 1; JNum 2]]; [JNull; JArr [JNull; JNum 3]]]; [[JNum 6]]]
    ex_started = Some m' /\
  inputs m' = [(0, [[JNum 5; JArr [JNum 1; JNum 2]]; [JNum 5; JArr [JNum 1; JNum 3]]]);
               (2, [[JNum 6; JArr [JNum 1; JNum 3]]])].
Proof.
  refine (metrics_stream 0 0
    [[[JNum 5; JArr [JNum 1; JNum 2]]; [JNull; JArr [JNull; JNum 3]]]; [[JNum 6]]]
    [[[JNum 5; JArr [JNum 1; JNum 2]]; [JNum 5; JArr [JNum 1; JNum 3]]];
     [[JNum 6; JArr [JNum 1; JNum 3]]]] _ _ ex_started eq_refl eq_refl _ _).
  - repeat constructor.
  - cbn. apply dst_first, dst_next.
    { apply ds_cons; [by apply de_same|]. apply ds_cons; [|constructor].
      apply de_array, di_same, di_value; [done|constructor]. }
    apply dst_next; [|constructor]. apply ds_cons; [by apply de_value|constructor].
Defined.

(** When the first of two archive sources is missing, the second is opened as
    if it were the live channel: the page then counts as following, and
    [follow] no longer opens anything. *)
Example archive_fallback_follows :
  let m := new_metrics 1000 [{["archive_source" := JStr "a"]}; {["archive_source" := JStr "b"]}] in
  let m := on_close 0 (JStr "not-found") (fetch_archive 0 0 10 m) in
  m_following m = true /\ length (m_channels m) = 2%nat /\
  m_trace (follow m) = m_trace m.
Proof. vm_compute. done. Qed.
