(* ===== verification/DBus.v ===== *)
(** * The D-Bus client (src/src/base1/cockpit.js, [DBusCache] to [DBusClient])

    The property cache with its callbacks, the proxies kept for a path
    namespace, and the client that multiplexes calls, watches, subscriptions
    and published objects over a "dbus-json3" channel.

    A deferred is a number; settling it, sending a message and calling a
    callback are effects in a trace.  The channel is valid until its close
    event, at which the client forgets it. *)

From S2P Require Import Prelude.

(** ** The cache *)

(** One registered callback, the array [[path, iface, callback]]: an element
    is [None] once it has been deleted, and for a path or interface that was
    not given. *)
Record callback := mk_callback {
  cb_path : option string; cb_iface : option string; cb_fn : option nat }.

#[export] Instance callback_settable : Settable callback := fun c =>
  mk_callback (cb_path c) (cb_iface c) (cb_fn c).

#[export] Instance callback_eq_dec : EqDecision callback.
Proof. solve_decision. Defined.

Abbreviation props := (gmap string jval).

Record cache := mk_cache {
  c_callbacks : list callback; c_data : gmap string (gmap string props); c_meta : gmap string jval }.

#[export] Instance cache_settable : Settable cache := fun c =>
  mk_cache (c_callbacks c) (c_data c) (c_meta c).

Definition empty_cache : cache := mk_cache [] ∅ ∅.

Definition connect (cb : callback) (first : bool) (c : cache) : cache :=
  c <| c_callbacks ::= (fun l => if first then cb :: l else l ++ [cb]) |>.

(** [delete cb[i]]: the element of the callback's own array at the position
    the callback has in the list. *)
Definition delete_element (i : nat) (cb : callback) : callback :=
  match i with
  | 0%nat => cb <| cb_path := None |>
  | 1%nat => cb <| cb_iface := None |>
  | 2%nat => cb <| cb_fn := None |>
  | _ => cb
  end.

(** The [remove] function [connect] returns. *)
Fixpoint remove_loop (i : nat) (cb : callback) (l : list callback) : list callback :=
  match l with
  | [] => []
  | x :: l => if bool_decide (x = cb) then delete_element i x :: l else x :: remove_loop (S i) cb l
  end.

Definition connect_remove (cb : callback) (c : cache) : cache :=
  c <| c_callbacks ::= remove_loop 0 cb |>.

(** A call of a callback with its arguments; [None] props are null. *)
Record cb_call := mk_call { cc_fn : nat; cc_props : option props; cc_path : string }.

Definition cb_matches (path iface : string) (cb : callback) : bool :=
  let ok (o : option string) (s : string) :=
    match o with None => true | Some p => String.eqb p "" || String.eqb p s end in
  ok (cb_path cb) path && ok (cb_iface cb) iface.

(** [emit]: [None] is the TypeError of calling a deleted function, after the
    calls made so far. *)
Fixpoint emit_loop (path iface : string) (p : option props) (l : list callback)
    : list cb_call * bool :=
  match l with
  | [] => ([], true)
  | cb :: l =>
      if cb_matches path iface cb then
        match cb_fn cb with
        | None => ([], false)
        | Some f => let '(calls, ok) := emit_loop path iface p l in (mk_call f p path :: calls, ok)
        end
      else emit_loop path iface p l
  end.

Definition emit (path iface : string) (p : option props) (c : cache) : list cb_call * bool :=
  emit_loop path iface p (c_callbacks c).

Definition lookup (path iface : string) (c : cache) : option props :=
  m ← c_data c !! path; m !! iface.

Definition update (path iface : string) (p : props) (c : cache) : cache * (list cb_call * bool) :=
  let ifaces := default ∅ (c_data c !! path) in
  let p := match ifaces !! iface with None => p | Some old => extend old p end in
  let c := c <| c_data ::= <[path := <[iface := p]> ifaces]> |> in
  (c, emit path iface (Some p) c).

Definition remove (path iface : string) (c : cache) : cache * (list cb_call * bool) :=
  match c_data c !! path with
  | None => (c, ([], true))
  | Some ifaces =>
      let c := c <| c_data ::= <[path := delete iface ifaces]> |> in
      (c, emit path iface None c)
  end.

(** [each]: the loop variable is [iface], the comparison is with the variable
    [ifa], which is never assigned. *)
Definition each (f : nat) (c : cache) : list cb_call :=
  let ifa : option string := None in
  concat (map (fun pi : string * gmap string props =>
    omap (fun ip : string * props =>
      if bool_decide (ifa = Some (fst ip)) then Some (mk_call f (Some (snd ip)) (fst pi)) else None)
      (map_to_list (snd pi))) (map_to_list (c_data c))).

(** [close]: the callbacks are arrays, so [copy[i].callback()] throws when
    there is one. *)
Definition close_cache (c : cache) : cache * bool :=
  (c <| c_data := ∅ |> <| c_callbacks := [] |>, match c_callbacks c with [] => true | _ => false end).

(** ** Proxies of a path namespace *)

Inductive proxy_event := PAdded (path : string) | PChanged (path : string) | PRemoved (path : string).

(** The proxies by path, and the events dispatched. *)
Record proxies := mk_proxies { x_paths : gset string; x_events : list proxy_event }.

#[export] Instance proxies_settable : Settable proxies := fun x => mk_proxies (x_paths x) (x_events x).

(** [DBusProxies.update]. *)
Definition proxies_update (p : option props) (path : string) (x : proxies) : proxies :=
  if String.eqb path "" then x
  else match p, bool_decide (path ∈ x_paths x) with
       | None, true => x <| x_paths ::= (fun s => s ∖ {[path]}) |> <| x_events ::= (fun e => e ++ [PRemoved path]) |>
       | None, false => x
       | Some _, true => x <| x_events ::= (fun e => e ++ [PChanged path]) |>
       | Some _, false =>
           x <| x_paths ::= (fun s => s ∪ {[path]}) |>
             <| x_events ::= (fun e => e ++ [PAdded path; PChanged path]) |>
       end.

(** A cache with the proxies of one namespace, and the next callback.  (What the
    namespace is plays no part after the constructor: [update] takes every path
    with the interface.) *)
Record page := mk_page { pg_cache : cache; pg_proxies : proxies; pg_fresh : nat }.

(** [update] when the cache calls it: [client.proxy] connects a new proxy to the
    cache, before the others. *)
Definition proxies_called (f : nat) (iface : string) (p : page) (call : cb_call) : page :=
  if Nat.eqb (cc_fn call) f then
    let path := cc_path call in
    let x := pg_proxies p in
    let made := negb (String.eqb path "") && bool_decide (is_Some (cc_props call)) &&
                negb (bool_decide (path ∈ x_paths x)) in
    let p := if made
             then mk_page (connect (mk_callback (Some path) (Some iface) (Some (pg_fresh p))) true (pg_cache p))
                    x (S (pg_fresh p))
             else p in
    mk_page (pg_cache p) (proxies_update (cc_props call) path x) (pg_fresh p)
  else p.

(** [new DBusProxies(client, cache, iface, path_namespace, options)]; [f] is its
    [update]. *)
Definition new_proxies (f : nat) (iface : string) (c : cache) (fresh : nat) : page :=
  let c := connect (mk_callback None (Some iface) (Some f)) false c in
  foldl (proxies_called f iface) (mk_page c (mk_proxies ∅ []) fresh) (each f c).

(** A change of the cache, of which it tells the callbacks it had before. *)
Definition page_change (f : nat) (iface : string) (r : cache * (list cb_call * bool)) (p : page) : page :=
  foldl (proxies_called f iface) (mk_page (fst r) (pg_proxies p) (pg_fresh p)) (fst (snd r)).

(** [DBusProxy]'s validity and data. *)
Record proxy := mk_proxy { y_valid : bool; y_defined : bool; y_data : props }.

Definition proxy_update (has_meta : bool) (p : option props) (y : proxy) : proxy :=
  match p with
  | Some p => mk_proxy true (y_defined y || has_meta) (extend (y_data y) p)
  | None => mk_proxy false (y_defined y) (y_data y)
  end.

(** ** The client *)

Record subscription := mk_subscription { s_match : jobj; s_callback : option nat }.

(** What is still to be dispatched by [later_invoke]. *)
Inductive effect :=
  | ESend (o : jobj)
  | EResolve (d : nat) (reply : jval) (options : jobj)
  | EReject (d : nat) (problem : jval)
  | ESignal (cb : nat) (signal : list jval)
  | ECached (call : cb_call)
  | EInvoke (key : string) (method : jval) (args : jval) (cookie : jval)
  | EInvokeFails (name message : string) (cookie : jval)  (* handle_error follows *)
  | EEvent (name : string) (data : jval)
  | EThrow.

Record client := mk_client {
  d_open : bool;                       (* channel is not null (and valid) *)
  d_track : bool; d_owner : jval; d_unique_name : jval;
  d_subscribers : list (string * subscription); d_published : gset string;
  d_calls : gmap string nat; d_cache : option cache; d_closed : jval; d_last_cookie : Z;
  d_later : list jobj; d_next : nat; d_trace : list effect }.

#[export] Instance client_settable : Settable client := fun d =>
  mk_client (d_open d) (d_track d) (d_owner d) (d_unique_name d) (d_subscribers d) (d_published d)
    (d_calls d) (d_cache d) (d_closed d) (d_last_cookie d) (d_later d) (d_next d) (d_trace d).

Definition new_client (track : bool) : client :=
  mk_client true track JNull JNull [] ∅ ∅ None JUndef 1 [] 0 [].

Definition log (e : effect) (d : client) : client := d <| d_trace ::= (fun t => t ++ [e]) |>.
Definition logs (es : list effect) (d : client) : client := d <| d_trace ::= (fun t => t ++ es) |>.

Definition ensure_cache (d : client) : client :=
  d <| d_cache ::= (fun c => Some (default empty_cache c)) |>.

Definition send (o : jobj) (d : client) : client * bool :=
  if d_open d then (log (ESend o) d, true) else (d, false).

(** [matches(signal, match)]; values are compared with [!==]. *)
Definition same_string (a b : jval) : bool :=
  match a, b with JStr x, JStr y => String.eqb x y | _, _ => false end.

Definition nth_val (l : list jval) (i : nat) : jval := default JUndef (l !! i).

Definition str_prefix (p s : jval) : bool :=
  match p, s with JStr p, JStr s => String.prefix p s | _, _ => false end.

Definition matches (signal : list jval) (m : jobj) : bool :=
  negb (truthy (prop m "path") && negb (same_string (nth_val signal 0) (prop m "path"))) &&
  negb (truthy (prop m "path_namespace") && negb (str_prefix (prop m "path_namespace") (nth_val signal 0))) &&
  negb (truthy (prop m "interface") && negb (same_string (nth_val signal 1) (prop m "interface"))) &&
  negb (truthy (prop m "member") && negb (same_string (nth_val signal 2) (prop m "member"))) &&
  negb (truthy (prop m "arg0") &&
        negb (match nth_val signal 3 with
              | JArr (a :: _) => same_string a (prop m "arg0")
              | _ => false
              end)).

Definition jobj_of (v : jval) : jobj := match v with JObj f => list_to_map f | _ => ∅ end.
Definition arr_of (v : jval) : list jval := match v with JArr l => l | _ => [] end.

(** ** Closing *)

Definition reject_all (problem : jval) (calls : list (string * nat)) : list effect :=
  map (fun c => EReject (snd c) problem) calls.

Definition close_perform (options : jobj) (d : client) : client :=
  let problem := if truthy (prop options "problem") then prop options "problem" else JStr "disconnected" in
  let d' := d <| d_closed := problem |> <| d_calls := ∅ |> in
  log (EEvent "close" (JObj (map_to_list options))) (logs (reject_all problem (map_to_list (d_calls d))) d').

(** The close event of the channel. *)
Definition on_close (options : jobj) (d : client) : client :=
  if d_open d then close_perform options (d <| d_open := false |>) else d.

(** [DBusClient.close]: closing the channel dispatches its close event before
    it returns.  The fields the channel adds to the options are left out. *)
Definition close (options : jobj) (d : client) : client :=
  if d_open d then on_close options d else close_perform options d.

Definition on_ready (message : jobj) (d : client) : client :=
  d <| d_unique_name := prop message "unique-name" |>.

(** ** Messages *)

(** [on_message]; [None] is JSON that does not parse.  What is not a reply is
    dispatched later. *)
Definition on_message (msg : option jobj) (d : client) : client :=
  if negb (d_open d) then d
  else match msg with
  | None => close {["problem" := JStr "protocol-error"]} d
  | Some msg =>
      let id := js_String (prop msg "id") in
      let dfd := match prop msg "id" with JUndef => None | _ => d_calls d !! id end in
      if truthy (prop msg "reply") then
        match dfd with
        | None => d
        | Some n =>
            let reply := nth_val (arr_of (prop msg "reply")) 0 in
            let reply := if truthy reply then reply else JArr [] in
            let o : jobj := if truthy (prop msg "flags") then {["flags" := prop msg "flags"]} else ∅ in
            let o := if truthy (prop msg "type") then <["type" := prop msg "type"]> o else o in
            log (EResolve n reply o) d <| d_calls ::= delete id |>
        end
      else if truthy (prop msg "error") then
        match dfd with
        | None => d
        | Some n => log (EReject n (prop msg "error")) d <| d_calls ::= delete id |>
        end
      else d <| d_later ::= (fun l => l ++ [msg]) |>
  end.

Definition meta (data : jval) (d : client) : client :=
  let d := ensure_cache d in
  log (EEvent "meta" data)
    (d <| d_cache ::= fmap (fun c => c <| c_meta ::= (fun m => extend m (jobj_of data)) |>) |>).

(** One interface of a notification; the result is false when a callback
    threw, which ends the notification. *)
Definition notify_one (path iface : string) (p : jval) (d : client) : client * bool :=
  match d_cache d with
  | None => (d, true)
  | Some c =>
      let '(c, (calls, ok)) := if truthy p then update path iface (jobj_of p) c else remove path iface c in
      (logs (map ECached calls ++ (if ok then [] else [EThrow])) (d <| d_cache := Some c |>), ok)
  end.

Definition fields_of (v : jval) : list (string * jval) := match v with JObj f => f | _ => [] end.

Fixpoint notify_loop (l : list (string * string * jval)) (d : client) : client * bool :=
  match l with
  | [] => (d, true)
  | (path, iface, p) :: l =>
      let '(d, ok) := notify_one path iface p d in
      if ok then notify_loop l d else (d, false)
  end.

(** The paths and interfaces of a notification, in the order of the message. *)
Definition notify_items (data : jval) : list (string * string * jval) :=
  concat (map (fun pi => map (fun ip => (fst pi, fst ip, snd ip)) (fields_of (snd pi))) (fields_of data)).

Definition notify (data : jval) (d : client) : client :=
  let '(d, ok) := notify_loop (notify_items data) (ensure_cache d) in
  if ok then log (EEvent "notify" data) d else d.

(** [invoke] and the part of [handle] before the result is known; the result
    itself arrives through a promise, see [handle_reply] and [handle_error].
    Whether the published object has the method is up to the object. *)
Definition handle (call : list jval) (cookie : jval) (d : client) : client :=
  let path := js_String (nth_val call 0) in
  let iface := js_String (nth_val call 1) in
  let method := nth_val call 2 in
  let key := path +:+ nl +:+ iface in
  match d_cache d with
  | None => log EThrow d               (* cache is undefined *)
  | Some c =>
      let info := jobj_of (prop (c_meta c) iface) in
      let fails (name message : string) (d : client) :=
        if truthy cookie then log (EInvokeFails name message cookie) d else d in
      if negb (bool_decide (key ∈ d_published d)) || negb (truthy (prop (c_meta c) iface))
      then fails "org.freedesktop.DBus.Error.UnknownInterface"
             ("DBus interface " +:+ iface +:+ " not available at " +:+ path) d
      else match prop info "methods" with
           | JObj ms =>
               match assoc_get (js_String method) ms with
               | Some _ => log (EInvoke key method (nth_val call 3) cookie) d
               | None => fails "org.freedesktop.DBus.Error.UnknownMethod"
                   ("DBus method " +:+ iface +:+ " " +:+ js_String method +:+ " not available at " +:+ path) d
               end
           | _ => fails "org.freedesktop.DBus.Error.UnknownMethod"
                   ("DBus method " +:+ iface +:+ " " +:+ js_String method +:+ " not available at " +:+ path) d
           end
  end.

(** The two continuations of [handle] once a method has its result. *)
Definition handle_reply (out : list jval) (cookie : jval) (d : client) : client :=
  let out := match out with [JUndef] => [] | _ => out end in
  fst (send {["reply" := JArr [JArr out]; "id" := cookie]} d).

Definition handle_error (name message : jval) (cookie : jval) (d : client) : client :=
  let name := if truthy name then name else JStr " org.freedesktop.DBus.Error.Failed" in
  let message := if truthy message then message else name in
  fst (send {["error" := JArr [name; JArr [message]]; "id" := cookie]} d).

(** The function given to [later_invoke]. *)
Definition dispatch (msg : jobj) (d : client) : client :=
  if truthy (prop msg "signal") then
    let signal := arr_of (prop msg "signal") in
    logs (omap (fun s => match s_callback (snd s) with
      | Some cb => if matches signal (s_match (snd s)) then Some (ESignal cb signal) else None
      | None => None
      end) (d_subscribers d)) d
  else if truthy (prop msg "call") then handle (arr_of (prop msg "call")) (prop msg "id") d
  else if truthy (prop msg "notify") then notify (prop msg "notify") d
  else if truthy (prop msg "meta") then meta (prop msg "meta") d
  else match prop msg "owner" with
       | JUndef => d
       | owner =>
           let d := log (EEvent "owner" owner) d in
           let d := if d_track d && truthy (d_owner d) then close ∅ d else d in
           d <| d_owner := owner |>
       end.

Definition run_later (d : client) : client :=
  match d_later d with
  | [] => d
  | msg :: later => dispatch msg (d <| d_later := later |>)
  end.

(** ** Calls *)

Definition take_cookie (d : client) : client * string :=
  (d <| d_last_cookie ::= Z.succ |>, pretty (d_last_cookie d)).

Definition take_deferred (d : client) : client * nat := (d <| d_next ::= S |>, d_next d).

(** Send a message that will be answered: the deferred waits under its id, or
    is rejected at once when the client is closed. *)
Definition send_call (id : string) (dfd : nat) (o : jobj) (d : client) : client :=
  let '(d, ok) := send o d in
  if ok then d <| d_calls ::= <[id := dfd]> |> else log (EReject dfd (d_closed d)) d.

Definition call (path iface method : string) (args : jval) (options : jobj) (d : client) : client :=
  let '(d, dfd) := take_deferred d in
  let '(d, id) := take_cookie d in
  let args := if truthy args then args else JArr [] in
  send_call id dfd
    (<["call" := JArr [JStr path; JStr iface; JStr method; args]]> (<["id" := JStr id]> options)) d.

Definition signal (path iface member : string) (args : jval) (options : jobj) (d : client) : client :=
  if d_open d then
    let args := if truthy args then args else JArr [] in
    fst (send (<["signal" := JArr [JStr path; JStr iface; JStr member; args]]> options) d)
  else d.

Definition public_meta (data : jval) (options : jobj) (d : client) : client :=
  if d_open d then meta data (fst (send (<["meta" := data]> options) d)) else d.

(** [subscribe]; the result is the id the returned [remove] holds, if any. *)
Definition subscribe (m : jobj) (cb : option nat) (rule : bool) (d : client) : client * option string :=
  let d := if rule then fst (send {["add-match" := JObj (map_to_list m)]} d) else d in
  match cb with
  | Some _ =>
      let '(d, id) := take_cookie d in
      (d <| d_subscribers ::= assoc_set id (mk_subscription m cb) |>, Some id)
  | None => (d, None)
  end.

Definition unsubscribe (id : option string) (rule : bool) (d : client) : client :=
  match id with
  | None => d                          (* prev stays undefined: no remove-match *)
  | Some id =>
      match assoc_get id (d_subscribers d) with
      | None => d
      | Some s =>
          let d := d <| d_subscribers ::= assoc_del id |> in
          if rule then fst (send {["remove-match" := JObj (map_to_list (s_match s))]} d) else d
      end
  end.

(** [watch]; the result is the id and deferred its [remove] holds. *)
Definition watch (m : jobj) (d : client) : client * (string * nat) :=
  let '(d, id) := take_cookie d in
  let '(d, dfd) := take_deferred d in
  (send_call id dfd {["watch" := JObj (map_to_list m); "id" := JStr id]} d, (id, dfd)).

Definition cancel (id : string) (dfd : nat) (d : client) : client :=
  match d_calls d !! id with
  | Some _ => log (EReject dfd (JStr "cancelled")) d <| d_calls ::= delete id |>
  | None => d
  end.

Definition unwatch (m : jobj) (id : string) (dfd : nat) (d : client) : client :=
  fst (send {["unwatch" := JObj (map_to_list m)]} (cancel id dfd d)).

(** [publish]: the deferred is entered before the message is sent, and stays
    there when sending fails. *)
Definition publish (path iface : string) (options : jobj) (d : client) : client * (string * nat) :=
  let '(d, id) := take_cookie d in
  let '(d, dfd) := take_deferred d in
  let d := d <| d_calls ::= <[id := dfd]> |> in
  (send_call id dfd (<["publish" := JArr [JStr path; JStr iface]]> (<["id" := JStr id]> options)) d,
   (id, dfd)).

(** The deferred of [publish] is resolved. *)
Definition published (path iface : string) (d : client) : client :=
  d <| d_published ::= (fun s => s ∪ {[path +:+ nl +:+ iface]}) |>.

Definition unpublish (path iface : string) (id : string) (dfd : nat) (d : client) : client :=
  let d := cancel id dfd d in
  fst (send {["unpublish" := JArr [JStr path; JStr iface]]}
    (d <| d_published ::= (fun s => s ∖ {[path +:+ nl +:+ iface]}) |>)).

(** ** Interface of the cache *)

(** The calls a change of [path] and [iface] makes: every matching callback
    once, in order. *)
Definition expected_calls (path iface : string) (p : option props) (l : list callback) : list cb_call :=
  omap (fun cb => if cb_matches path iface cb then (fun f => mk_call f p path) <$> cb_fn cb else None) l.

Lemma emit_loop_all path iface p l :
  Forall (fun cb => is_Some (cb_fn cb)) l ->
  emit_loop path iface p l = (expected_calls path iface p l, true).
Proof.
  induction 1 as [|cb l [f Hf] _ IH]; [done|]. cbn. rewrite Hf, IH.
  by destruct (cb_matches path iface cb).
Qed.

(** Updating a property set in the cache merges the new properties over the
    old, leaves every other path and interface alone, and calls every callback
    whose filter matches exactly once, in order, with the merged properties. *)
Theorem cache_update path iface p c :
  Forall (fun cb => is_Some (cb_fn cb)) (c_callbacks c) ->
  let '(c', (calls, ok)) := update path iface p c in
  let merged := match lookup path iface c with None => p | Some old => extend old p end in
  ok = true /\ calls = expected_calls path iface (Some merged) (c_callbacks c) /\
  lookup path iface c' = Some merged /\
  forall path' iface', (path', iface') <> (path, iface) -> lookup path' iface' c' = lookup path' iface' c.
Proof.
  intros Hcb. unfold update. cbv zeta.
  assert (match default ∅ (c_data c !! path) !! iface with None => p | Some old => extend old p end =
    match lookup path iface c with None => p | Some old => extend old p end) as ->.
  { unfold lookup. by destruct (c_data c !! path). }
  set (merged := match lookup path iface c with None => p | Some old => extend old p end).
  unfold emit. change (c_callbacks (c <| c_data ::= _ |>)) with (c_callbacks c).
  rewrite emit_loop_all by done. split; [done|]. split; [done|]. split.
  - unfold lookup. cbn. rewrite lookup_insert_eq. cbn. by rewrite lookup_insert_eq.
  - intros path' iface' Hne. unfold lookup. cbn. destruct (decide (path' = path)) as [->|Hp].
    + rewrite lookup_insert_eq. cbn. rewrite lookup_insert_ne by congruence.
      by destruct (c_data c !! path).
    + by rewrite lookup_insert_ne.
Qed.

Lemma cache_update_witness :
  let c := connect (mk_callback (Some "/a") None (Some 7%nat)) false
             (connect (mk_callback (Some "/b") None (Some 8%nat)) false empty_cache) in
  fst (snd (update "/a" "x.Y" {["P" := JNum 1]} c)) = [mk_call 7 (Some {["P" := JNum 1]}) "/a"].
Proof.
  cbv zeta. set (c := connect _ _ _).
  pose proof (cache_update "/a" "x.Y" {["P" := JNum 1]} c
    ltac:(repeat constructor; eexists; reflexivity)) as H.
  destruct (update _ _ _ _) as [c' [calls ok]]. destruct H as (_ & -> & _). reflexivity.
Defined.

Lemma remove_loop_length i cb l : length (remove_loop i cb l) = length l.
Proof.
  revert i. induction l as [|x l IH]; intros i; cbn; [done|].
  destruct (bool_decide _); cbn; [done|]. by rewrite IH.
Qed.

(** The [remove] function of a cache connection never disconnects the
    callback: the list keeps its length, and unless the callback is third in
    the list, every change that reached it before still does.  The first
    callback even becomes one for every path. *)
Theorem connect_remove_ineffective cb c path iface i :
  c_callbacks c !! i = Some cb -> (forall j, (j < i)%nat -> c_callbacks c !! j <> Some cb) ->
  cb_matches path iface cb = true -> i <> 2%nat ->
  exists cb', c_callbacks (connect_remove cb c) !! i = Some cb' /\ cb_fn cb' = cb_fn cb /\
    cb_matches path iface cb' = true /\
    length (c_callbacks (connect_remove cb c)) = length (c_callbacks c).
Proof.
  intros Hi Hfirst Hm H2. cbn.
  assert (forall k l, l !! i = Some cb -> (forall j, (j < i)%nat -> l !! j <> Some cb) ->
    remove_loop k cb l !! i = Some (delete_element (k + i) cb)) as H.
  { clear. revert i. induction i as [|i IH]; intros k [|x l] Hl Hf; try done; cbn in Hl.
    - injection Hl as ->. cbn. rewrite bool_decide_eq_true_2 by done. cbn. by rewrite Nat.add_0_r.
    - cbn. rewrite bool_decide_eq_false_2.
      + cbn. rewrite IH; [by rewrite Nat.add_succ_r|done|].
        intros j Hj. apply (Hf (S j)). lia.
      + intros ->. by apply (Hf 0%nat); [lia|]. }
  exists (delete_element i cb). split; [apply (H 0%nat); done|]. rewrite remove_loop_length.
  unfold cb_matches in *. apply andb_true_iff in Hm as [Hp Hf].
  destruct i as [|[|[|i]]]; cbn; rewrite ?Hp, ?Hf; done.
Qed.

Lemma connect_remove_ineffective_witness :
  let cb := mk_callback (Some "/a") (Some "x.Y") (Some 7%nat) in
  let c := connect_remove cb (connect cb false empty_cache) in
  exists cb', c_callbacks c !! 0%nat = Some cb' /\ cb_fn cb' = Some 7%nat.
Proof.
  cbv zeta. set (cb := mk_callback _ _ _).
  destruct (connect_remove_ineffective cb (connect cb false empty_cache) "/a" "x.Y" 0)
    as (cb' & H1 & H2 & _).
  - reflexivity.
  - intros j Hj. lia.
  - reflexivity.
  - discriminate.
  - exists cb'. split; [exact H1|exact H2].
Defined.

(** [each] never calls back, whatever the cache holds. *)
Lemma each_nothing f c : each f c = [].
Proof.
  unfold each. induction (map_to_list (c_data c)) as [|[path m] l IH]; [done|].
  cbn [map concat fst snd]. rewrite IH, app_nil_r. by induction (map_to_list m).
Qed.
