(* ===== verification/DBusSpec.v ===== *)
(** * Every D-Bus call is answered, and proxies follow the cache

    The client of [DBus.v] as a transition system: no deferred handed out is
    ever forgotten, and closing the client settles them all.  The proxies of a
    namespace, under any changes of the cache that they are connected to. *)

From S2P Require Import Prelude.
From S2P Require Import DBus.

(** Everything that can happen to a client. *)
Inductive action :=
  | ACall (path iface method : string) (args : jval) (o : jobj)
  | ASignal (path iface member : string) (args : jval) (o : jobj)
  | ASubscribe (m : jobj) (cb : option nat) (rule : bool)
  | AUnsubscribe (id : option string) (rule : bool)
  | AWatch (m : jobj) | AUnwatch (m : jobj) (id : string) (dfd : nat)
  | APublish (path iface : string) (o : jobj)
  | APublished (path iface : string) | AUnpublish (path iface : string) (id : string) (dfd : nat)
  | AMeta (data : jval) (o : jobj) | ANotify (data : jval)
  | AReplied (out : list jval) (cookie : jval) | AFailed (name message cookie : jval)
  | AClose (o : jobj)
  | AOnReady (o : jobj) | AOnMessage (m : option jobj) | AOnClose (o : jobj) | ALater.

Definition act (a : action) (d : client) : client :=
  match a with
  | ACall p i m args o => call p i m args o d
  | ASignal p i m args o => signal p i m args o d
  | ASubscribe m cb rule => fst (subscribe m cb rule d)
  | AUnsubscribe id rule => unsubscribe id rule d
  | AWatch m => fst (watch m d)
  | AUnwatch m id dfd => unwatch m id dfd d
  | APublish p i o => fst (publish p i o d)
  | APublished p i => published p i d
  | AUnpublish p i id dfd => unpublish p i id dfd d
  | AMeta data o => public_meta data o d
  | ANotify data => notify data d
  | AReplied out cookie => handle_reply out cookie d
  | AFailed name message cookie => handle_error name message cookie d
  | AClose o => close o d
  | AOnReady o => on_ready o d
  | AOnMessage m => on_message m d
  | AOnClose o => on_close o d
  | ALater => run_later d
  end.

(** The ids and deferreds passed back to [unwatch] and [unpublish] are those
    [watch] and [publish] returned: the deferred under the id, if any, is that
    one. *)
Definition well_used (a : action) (d : client) : Prop :=
  match a with
  | AUnwatch _ id dfd | AUnpublish _ _ id dfd => forall x, d_calls d !! id = Some x -> x = dfd
  | _ => True
  end.

Inductive step : client -> client -> Prop :=
  | step_act a d : well_used a d -> step d (act a d).

Definition reachable (track : bool) : client -> Prop := rtc step (new_client track).

(** ** The invariant *)

Definition settled (n : nat) (d : client) : Prop :=
  (exists r o, EResolve n r o ∈ d_trace d) \/ (exists p, EReject n p ∈ d_trace d).

Definition outstanding (n : nat) (d : client) : Prop := exists id, d_calls d !! id = Some n.

Record inv (d : client) : Prop := {
  i_accounted : forall n, (n < d_next d)%nat -> outstanding n d \/ settled n d;
  i_ids : forall id n, d_calls d !! id = Some n -> exists z, id = pretty z /\ z < d_last_cookie d;
  i_closed : d_open d = false -> forall n, (n < d_next d)%nat -> settled n d }.

(** A step that settles no deferred and hands none out. *)
Record quiet (d d' : client) : Prop := {
  q_calls : d_calls d' = d_calls d;
  q_next : d_next d' = d_next d;
  q_open : d_open d' = d_open d;
  q_cookie : d_last_cookie d <= d_last_cookie d';
  q_trace : exists es, d_trace d' = d_trace d ++ es }.

#[export] Instance quiet_preorder : PreOrder quiet.
Proof.
  split.
  - intros d. split; try done. exists []. by rewrite app_nil_r.
  - intros d1 d2 d3 [a1 a2 a3 a4 [e1 a5]] [b1 b2 b3 b4 [e2 b5]].
    split; [congruence..|lia|]. exists (e1 ++ e2). by rewrite b5, a5, app_assoc.
Qed.

Lemma settled_mono n d d' es : d_trace d' = d_trace d ++ es -> settled n d -> settled n d'.
Proof.
  intros E [(r & o & H)|(p & H)]; [left; exists r, o|right; exists p]; rewrite E, elem_of_app; auto.
Qed.

Lemma quiet_inv d d' : quiet d d' -> inv d -> inv d'.
Proof.
  intros [Ec En Eo Ek [es Et]] [I1 I2 I3]. split.
  - rewrite En. intros n Hn. destruct (I1 n Hn) as [[id Hid]|Hs].
    + left. exists id. by rewrite Ec.
    + right. by eapply settled_mono.
  - rewrite Ec. intros id n Hid. destruct (I2 id n Hid) as (z & -> & Hz). exists z. split; [done|lia].
  - rewrite Eo, En. intros Ho n Hn. eapply settled_mono; [done|auto].
Qed.

Lemma log_quiet e d : quiet d (log e d).
Proof. split; try done. by exists [e]. Qed.

Lemma logs_quiet es d : quiet d (logs es d).
Proof. split; try done. by exists es. Qed.

Lemma send_quiet o d : quiet d (fst (send o d)).
Proof. unfold send. destruct (d_open d); [apply log_quiet|done]. Qed.

Ltac quiet_update := split; [done..|cbn; lia|exists []; by rewrite app_nil_r].

Lemma notify_one_quiet path iface p d : quiet d (fst (notify_one path iface p d)).
Proof.
  unfold notify_one. destruct (d_cache d) as [c|]; [|done].
  destruct (if truthy p then _ else _) as [c' [calls ok]]. cbn [fst].
  etransitivity; [|apply logs_quiet]. quiet_update.
Qed.

Lemma notify_loop_quiet l : forall d, quiet d (fst (notify_loop l d)).
Proof.
  induction l as [|[[path iface] p] l IH]; intros d; cbn [notify_loop]; [done|].
  pose proof (notify_one_quiet path iface p d) as H.
  destruct (notify_one path iface p d) as [d1 ok]. cbn [fst] in H.
  destruct ok; [|done]. by etransitivity.
Qed.

Lemma ensure_cache_quiet d : quiet d (ensure_cache d).
Proof. quiet_update. Qed.

Lemma notify_quiet data d : quiet d (notify data d).
Proof.
  unfold notify. pose proof (notify_loop_quiet (notify_items data) (ensure_cache d)) as H.
  destruct (notify_loop _ _) as [d1 ok]. cbn [fst] in H.
  assert (quiet d d1) by (etransitivity; [apply ensure_cache_quiet|done]).
  destruct ok; [|done]. etransitivity; [done|apply log_quiet].
Qed.

Lemma meta_quiet data d : quiet d (meta data d).
Proof.
  unfold meta. etransitivity; [apply ensure_cache_quiet|]. etransitivity; [|apply log_quiet].
  quiet_update.
Qed.

Lemma handle_quiet c cookie d : quiet d (handle c cookie d).
Proof.
  unfold handle. destruct (d_cache d) as [ca|]; [|apply log_quiet]. cbv zeta.
  destruct (_ || _); [destruct (truthy cookie); [apply log_quiet|done]|].
  destruct (prop _ "methods"); try (destruct (truthy cookie); [apply log_quiet|done]).
  destruct (assoc_get _ _); [apply log_quiet|]. destruct (truthy cookie); [apply log_quiet|done].
Qed.

(** ** Closing *)

Lemma reject_all_settles problem l n d :
  n ∈ l.*2 -> settled n (logs (reject_all problem l) d).
Proof.
  intros Hn. apply list_elem_of_fmap in Hn as ([id n'] & -> & Hin). right. exists problem.
  cbn. rewrite elem_of_app. right. apply list_elem_of_fmap. by exists (id, n').
Qed.

(** Closing rejects everything outstanding. *)
Lemma close_perform_inv options b d :
  inv d -> inv (close_perform options (d <| d_open := b |>)).
Proof.
  intros [I1 I2 I3]. unfold close_perform. cbv zeta.
  set (problem := if truthy _ then _ else _). set (d1 := _ <| d_closed := _ |> <| d_calls := _ |>).
  set (d2 := logs _ d1). change (d_calls (d <| d_open := b |>)) with (d_calls d) in d2.
  assert (forall n, (n < d_next d)%nat -> settled n (log (EEvent "close" (JObj (map_to_list options))) d2)) as Hall.
  { intros n Hn. eapply (settled_mono n d2); [done|]. destruct (I1 n Hn) as [[id Hid]|Hs].
    - apply reject_all_settles. apply list_elem_of_fmap. exists (id, n). split; [done|].
      by apply elem_of_map_to_list.
    - eapply (settled_mono n d1); [done|]. exact Hs. }
  split; [auto| |auto]. intros id n. cbn. by rewrite lookup_empty.
Qed.

Lemma client_on_close_inv options d : inv d -> inv (on_close options d).
Proof. intros Hi. unfold on_close. destruct (d_open d); [by apply close_perform_inv|done]. Qed.

Lemma close_inv options d : inv d -> inv (close options d).
Proof.
  intros Hi. unfold close. destruct (d_open d) eqn:Ho; [by apply client_on_close_inv|].
  assert (d = d <| d_open := false |>) as E by (destruct d; cbn in *; by subst).
  rewrite E. by apply close_perform_inv.
Qed.

(** ** Calls *)

(** Settling the deferred under an id and forgetting the id. *)
Lemma answer_inv e id n d :
  inv d -> d_calls d !! id = Some n ->
  (exists r o, e = EResolve n r o) \/ (exists p, e = EReject n p) ->
  inv (log e d <| d_calls ::= delete id |>).
Proof.
  intros [I1 I2 I3] Hid He.
  assert (forall m, settled m d \/ m = n -> settled m (log e d <| d_calls ::= delete id |>)) as Hs.
  { intros m [Hm| ->].
    - by eapply (settled_mono m d _ [e]).
    - destruct He as [(r & o & ->)|(p & ->)]; [left; exists r, o|right; exists p];
        cbn; rewrite elem_of_app; right; by apply list_elem_of_singleton. }
  split.
  - intros m Hm. destruct (I1 m Hm) as [[id' Hid']|]; [|auto].
    destruct (decide (id' = id)) as [->|Hne].
    + right. apply Hs. right. congruence.
    + left. exists id'. cbn. by rewrite lookup_delete_ne.
  - intros id' m. cbn. intros Hm. apply lookup_delete_Some in Hm as [_ Hm]. by eapply I2.
  - intros Ho m Hm. apply Hs. left. by apply I3.
Qed.

(** Handing out a new deferred under a new id. *)
Lemma send_call_inv o d early :
  inv d -> let '(d1, dfd) := take_deferred d in let '(d2, id) := take_cookie d1 in
  inv (send_call id dfd (o id) (if early : bool then d2 <| d_calls ::= <[id := dfd]> |> else d2)).
Proof.
  intros [I1 I2 I3]. unfold take_deferred, take_cookie. cbn [d_next d_last_cookie].
  set (d2 := d <| d_next ::= S |> <| d_last_cookie ::= Z.succ |>). set (id := pretty _).
  assert (forall n, d_calls d !! id = Some n -> False) as Hfresh.
  { intros n Hn. destruct (I2 id n Hn) as (z & Hz & Hlt). apply (inj pretty) in Hz. cbn in Hz. lia. }
  set (d3 := if early then _ else d2).
  assert (forall id' n, d_calls d3 !! id' = Some n -> id' = id \/ d_calls d !! id' = Some n) as Hd3.
  { intros id' n. unfold d3. destruct early; cbn; [|auto]. rewrite lookup_insert.
    case_decide; [auto|auto]. }
  assert (forall id' n, d_calls d !! id' = Some n -> d_calls d3 !! id' = Some n) as Hd3'.
  { intros id' n Hn. unfold d3. destruct early; [|done]. cbn. rewrite lookup_insert_ne; [done|].
    intros <-. by eapply Hfresh. }
  assert (d_next d3 = S (d_next d) /\ d_open d3 = d_open d /\ d_trace d3 = d_trace d /\
    d_last_cookie d3 = Z.succ (d_last_cookie d)) as (En & Eo & Et & Ek) by (unfold d3; by destruct early).
  assert (forall id' n, id' = id \/ d_calls d !! id' = Some n ->
    exists z, id' = pretty z /\ z < Z.succ (d_last_cookie d)) as Hids.
  { intros id' n [->|Hn]; [exists (d_last_cookie d); split; [done|lia]|].
    destruct (I2 id' n Hn) as (z & ? & ?). exists z. split; [done|lia]. }
  unfold send_call, send. rewrite Eo. destruct (d_open d) eqn:Ho.
  - split; cbn; rewrite ?En.
    + intros n Hn. destruct (decide (n = d_next d)) as [->|Hne].
      * left. exists id. cbn. by rewrite lookup_insert_eq.
      * destruct (I1 n ltac:(lia)) as [[id' Hid']|Hs].
        -- left. exists id'. cbn. rewrite lookup_insert_ne; [auto|]. intros <-. by eapply Hfresh.
        -- right. apply (settled_mono n d _ [ESend (o id)]); [cbn; by rewrite Et|done].
    + intros id' n. rewrite Ek, lookup_insert. case_decide; [intros _; apply (Hids id' n); by left|].
      intros Hn. apply Hd3 in Hn. eauto.
    + congruence.
  - assert (forall n, (n < S (d_next d))%nat -> settled n (log (EReject (d_next d) (d_closed d3)) d3)) as Hs.
    { intros n Hn. destruct (decide (n = d_next d)) as [->|Hne].
      - right. exists (d_closed d3). cbn. rewrite elem_of_app. right. by apply list_elem_of_singleton.
      - apply (settled_mono n d _ [EReject (d_next d) (d_closed d3)]); [cbn; by rewrite Et|].
        apply I3; [done|lia]. }
    change (inv (log (EReject (d_next d) (d_closed d3)) d3)).
    split; cbn; rewrite ?En; [auto| |auto].
    intros id' n Hn. rewrite Ek. apply Hd3 in Hn. eauto.
Qed.

Lemma cancel_inv id dfd d :
  inv d -> (forall x, d_calls d !! id = Some x -> x = dfd) -> inv (cancel id dfd d).
Proof.
  intros Hi Hx. unfold cancel. destruct (d_calls d !! id) as [n|] eqn:E; [|done].
  assert (n = dfd) as -> by auto. apply (answer_inv _ id dfd); [done..|]. right. eauto.
Qed.

Lemma client_on_message_inv m d : inv d -> inv (on_message m d).
Proof.
  intros Hi. unfold on_message. destruct (d_open d) eqn:Ho; [|done]. cbn [negb].
  destruct m as [msg|]; [|by apply close_inv]. cbv zeta.
  set (dfd := match prop msg "id" with JUndef => None | _ => _ end).
  assert (forall n, dfd = Some n -> d_calls d !! js_String (prop msg "id") = Some n) as Hd.
  { intros n. unfold dfd. by destruct (prop msg "id"). }
  destruct (truthy (prop msg "reply")).
  { destruct dfd as [n|]; [|done]. apply (answer_inv _ _ n); [done|auto|]. left. eauto. }
  destruct (truthy (prop msg "error")).
  { destruct dfd as [n|]; [|done]. apply (answer_inv _ _ n); [done|auto|]. right. eauto. }
  eapply quiet_inv; [|done]. quiet_update.
Qed.

Lemma dispatch_inv msg d : inv d -> inv (dispatch msg d).
Proof.
  intros Hi. unfold dispatch. destruct (truthy _).
  { eapply quiet_inv; [apply logs_quiet|done]. }
  destruct (truthy _). { eapply quiet_inv; [apply handle_quiet|done]. }
  destruct (truthy _). { eapply quiet_inv; [apply notify_quiet|done]. }
  destruct (truthy _). { eapply quiet_inv; [apply meta_quiet|done]. }
  assert (forall owner, inv (let d := log (EEvent "owner" owner) d in
    let d := if d_track d && truthy (d_owner d) then close ∅ d else d in
    d <| d_owner := owner |>)) as H.
  { intros owner. cbv zeta. set (d1 := log _ d).
    assert (inv d1) as Hi1 by (eapply quiet_inv; [apply log_quiet|done]).
    set (d2 := if _ && _ then _ else d1).
    assert (inv d2) as Hi2 by (unfold d2; destruct (_ && _); [by apply close_inv|done]).
    eapply quiet_inv; [|exact Hi2]. quiet_update. }
  by destruct (prop msg "owner").
Qed.

Lemma client_act_inv a d : well_used a d -> inv d -> inv (act a d).
Proof.
  intros Hw Hi.
  destruct a as [p i m args o|p i m args o|m cb rule|id rule|m|m id dfd|p i o|p i|p i id dfd
    |data o|data|out cookie|name message cookie|o|o|m|o|]; cbn [act].
  - unfold call. cbv zeta. pose proof (send_call_inv (fun id =>
      <["call" := JArr [JStr p; JStr i; JStr m; if truthy args then args else JArr []]]>
      (<["id" := JStr id]> o)) d false Hi) as H. exact H.
  - unfold signal. destruct (d_open d); [|done]. eapply quiet_inv; [apply send_quiet|done].
  - unfold subscribe. set (d1 := if rule then _ else d).
    assert (inv d1) as Hi1.
    { unfold d1. destruct rule; [|done]. eapply quiet_inv; [apply send_quiet|done]. }
    destruct cb; [|done]. cbn [fst take_cookie]. eapply quiet_inv; [|exact Hi1]. quiet_update.
  - unfold unsubscribe. destruct id as [id|]; [|done].
    destruct (assoc_get id (d_subscribers d)) as [s|]; [|done]. cbv zeta.
    set (d1 := d <| d_subscribers ::= _ |>).
    assert (inv d1) as Hi1 by (eapply quiet_inv; [|done]; quiet_update).
    destruct rule; [|done]. eapply quiet_inv; [apply send_quiet|done].
  - exact (send_call_inv (fun id => {["watch" := JObj (map_to_list m); "id" := JStr id]}) d false Hi).
  - unfold unwatch. eapply quiet_inv; [apply send_quiet|]. by apply cancel_inv.
  - exact (send_call_inv (fun id => <["publish" := JArr [JStr p; JStr i]]> (<["id" := JStr id]> o))
      d true Hi).
  - eapply quiet_inv; [|done]. quiet_update.
  - unfold unpublish. eapply quiet_inv; [apply send_quiet|].
    eapply quiet_inv; [|by apply cancel_inv]. quiet_update.
  - unfold public_meta. destruct (d_open d); [|done].
    eapply quiet_inv; [apply meta_quiet|]. eapply quiet_inv; [apply send_quiet|done].
  - eapply quiet_inv; [apply notify_quiet|done].
  - eapply quiet_inv; [apply send_quiet|done].
  - eapply quiet_inv; [apply send_quiet|done].
  - by apply close_inv.
  - eapply quiet_inv; [|done]. quiet_update.
  - by apply client_on_message_inv.
  - by apply client_on_close_inv.
  - unfold run_later. destruct (d_later d) as [|msg later]; [done|]. apply dispatch_inv.
    eapply quiet_inv; [|done]. quiet_update.
Qed.

Lemma client_initial_inv track : inv (new_client track).
Proof. split; cbn; try lia. intros id n. by rewrite lookup_empty. Qed.

Lemma client_reachable_inv track d : reachable track d -> inv d.
Proof.
  intros Hr. pose proof (client_initial_inv track) as Hi. unfold reachable in Hr.
  induction Hr as [|d1 d2 d3 Hs _ IH]; [done|]. apply IH. destruct Hs. by apply client_act_inv.
Qed.

(** C12. No call is forgotten: in every reachable state each deferred that call,
    watch or publish handed out is either still waiting under its id or has
    been settled, and once the client is closed, by either side and in any
    order of events, every one of them has been settled. *)
Theorem calls_accounted track d n :
  reachable track d -> (n < d_next d)%nat ->
  (outstanding n d \/ settled n d) /\ (d_open d = false -> settled n d).
Proof.
  intros Hr Hn. apply client_reachable_inv in Hr as [I1 _ I3]. auto.
Qed.

Definition ex_closed : client :=
  act (AOnClose ∅) (act (ACall "/a" "x.Y" "M" JUndef ∅) (new_client false)).

Lemma calls_accounted_witness : settled 0 ex_closed.
Proof.
  refine (proj2 (calls_accounted false ex_closed 0 _ _) _).
  - eapply rtc_l; [exact (step_act (ACall "/a" "x.Y" "M" JUndef ∅) _ I)|].
    eapply rtc_l; [exact (step_act (AOnClose ∅) _ I)|]. constructor.
  - vm_compute. repeat constructor.
  - reflexivity.
Defined.

(** A rule added without a callback is never removed again. *)
Example subscription_rule_leaks :
  let '(d, id) := subscribe {["interface" := JStr "x.Y"]} None true (new_client false) in
  d_trace (unsubscribe id true d) = d_trace d.
Proof. reflexivity. Qed.

(** ** Proxies *)

(** What happens to a cache: properties come and go, and other parts of the page
    connect callbacks. *)
Inductive change :=
  | Update (path iface : string) (p : props)
  | Remove (path iface : string)
  | Connect (cb : callback) (first : bool).





















