(* ===== verification/Events.v ===== *)
(** * Event listeners (src/src/base1/cockpit.js, [invoke_functions], [event_mixin])

    Listeners are kept in one array per event type.  Removing a listener
    leaves a null in its place, so an event being dispatched keeps its
    positions while its listeners add and remove others.  The [on<type>] member
    of the object, which is called first, is not modelled. *)

From S2P Require Import Prelude.

(** A listener is a number.  What it does when it is called is a list of
    calls on the same object. *)
Inductive listener_op := OAdd (type : string) (h : nat) | ORemove (type : string) (h : nat).

(** [handlers], and the listeners called so far. *)
Record mixin := mk_mixin { m_handlers : gmap string (list (option nat)); m_called : list nat }.

#[export] Instance mixin_settable : Settable mixin := fun m => mk_mixin (m_handlers m) (m_called m).

Definition addEventListener (type : string) (h : nat) (m : mixin) : mixin :=
  m <| m_handlers ::= (fun hs => <[type := default [] (hs !! type) ++ [Some h]]> hs) |>.

(** The first place of the listener becomes null. *)
Fixpoint null_first (h : nat) (l : list (option nat)) : list (option nat) :=
  match l with
  | [] => []
  | x :: l => if bool_decide (x = Some h) then None :: l else x :: null_first h l
  end.

Definition removeEventListener (type : string) (h : nat) (m : mixin) : mixin :=
  m <| m_handlers ::= alter (null_first h) type |>.

Section Dispatch.

Context (behaviour : nat -> list listener_op).

Definition run_op (op : listener_op) (m : mixin) : mixin :=
  match op with
  | OAdd type h => addEventListener type h m
  | ORemove type h => removeEventListener type h m
  end.

Definition call_listener (h : nat) (m : mixin) : mixin :=
  foldl (fun m op => run_op op m) (m <| m_called ::= (fun l => l ++ [h]) |>) (behaviour h).

(** [invoke_functions] from position [i] on, with [n] positions to go: the
    length is read once, the elements when their turn comes. *)
Fixpoint invoke_functions (type : string) (n i : nat) (m : mixin) : mixin :=
  match n with
  | O => m
  | S n =>
      let m := match default [] (m_handlers m !! type) !! i with
               | Some (Some h) => call_listener h m
               | _ => m
               end in
      invoke_functions type n (S i) m
  end.

Definition dispatchEvent (type : string) (m : mixin) : mixin :=
  invoke_functions type (length (default [] (m_handlers m !! type))) 0 m.

(** ** Theorems *)

Definition listeners (type : string) (m : mixin) : list (option nat) := default [] (m_handlers m !! type).

Lemma null_first_keeps h h' l i :
  h <> h' -> l !! i = Some (Some h') -> null_first h l !! i = Some (Some h').
Proof.
  intros Hne. revert i. induction l as [|x l IH]; intros i Hi; [done|]. cbn.
  case_bool_decide as Hx; destruct i; cbn in *; try done; [congruence|auto].
Qed.

Lemma run_op_called op m : m_called (run_op op m) = m_called m.
Proof. by destruct op. Qed.

Lemma run_ops_called ops : forall m, m_called (foldl (fun m op => run_op op m) m ops) = m_called m.
Proof. induction ops as [|op ops IH]; intros m; cbn; [done|]. by rewrite IH, run_op_called. Qed.

Lemma call_listener_called h m : m_called (call_listener h m) = m_called m ++ [h].
Proof. unfold call_listener. by rewrite run_ops_called. Qed.

(** A place keeps its listener unless that listener is removed. *)
Lemma run_op_place op type m i h' :
  op <> ORemove type h' -> listeners type m !! i = Some (Some h') ->
  listeners type (run_op op m) !! i = Some (Some h').
Proof.
  unfold listeners. intros Hop Hi. destruct op as [t h|t h]; cbn.
  - destruct (decide (t = type)) as [->|Ht].
    + rewrite lookup_insert_eq. cbn. by apply lookup_app_l_Some.
    + by rewrite lookup_insert_ne.
  - destruct (decide (t = type)) as [->|Ht].
    + rewrite lookup_alter_eq. destruct (m_handlers m !! type) as [l|]; cbn in *; [|done].
      apply null_first_keeps; congruence.
    + by rewrite lookup_alter_ne.
Qed.

(** A place never gets another listener than the one it had. *)
Lemma null_first_place h l i x : null_first h l !! i = Some (Some x) -> l !! i = Some (Some x).
Proof.
  revert i. induction l as [|y l IH]; intros i; cbn; [done|].
  case_bool_decide; destruct i; cbn; try done. apply IH.
Qed.

Lemma null_first_length h l : length (null_first h l) = length l.
Proof. induction l as [|y l IH]; cbn; [done|]. case_bool_decide; cbn; congruence. Qed.

Lemma run_op_place_inv op type m i x :
  (i < length (listeners type m))%nat ->
  (length (listeners type m) <= length (listeners type (run_op op m)))%nat /\
  (listeners type (run_op op m) !! i = Some (Some x) -> listeners type m !! i = Some (Some x)).
Proof.
  unfold listeners. intros Hi. destruct op as [t h|t h]; cbn.
  - destruct (decide (t = type)) as [->|Ht].
    + rewrite lookup_insert_eq. cbn. rewrite length_app. split; [lia|]. by rewrite lookup_app_l.
    + by rewrite lookup_insert_ne.
  - destruct (decide (t = type)) as [->|Ht].
    + rewrite lookup_alter_eq. destruct (m_handlers m !! type) as [l|]; cbn in *; [|done].
      rewrite null_first_length. split; [done|]. apply null_first_place.
    + by rewrite lookup_alter_ne.
Qed.

Lemma call_listener_place h type m i h' :
  ORemove type h' ∉ behaviour h -> listeners type m !! i = Some (Some h') ->
  listeners type (call_listener h m) !! i = Some (Some h').
Proof.
  unfold call_listener. generalize (behaviour h) as ops. intros ops Hn Hi.
  assert (listeners type (m <| m_called ::= (fun l => l ++ [h]) |>) !! i = Some (Some h')) as Hi' by exact Hi.
  revert Hi'. generalize (m <| m_called ::= (fun l => l ++ [h]) |>). clear m Hi.
  induction ops as [|op ops IH]; intros m Hi; cbn; [done|].
  apply IH; [set_solver|]. apply run_op_place; [set_solver|done].
Qed.

Lemma call_listener_place_inv h type m i x :
  (i < length (listeners type m))%nat ->
  (length (listeners type m) <= length (listeners type (call_listener h m)))%nat /\
  (listeners type (call_listener h m) !! i = Some (Some x) -> listeners type m !! i = Some (Some x)).
Proof.
  unfold call_listener. generalize (behaviour h) as ops. intros ops.
  change (listeners type m) with (listeners type (m <| m_called ::= (fun l => l ++ [h]) |>)).
  generalize (m <| m_called ::= (fun l => l ++ [h]) |>). clear m.
  induction ops as [|op ops IH]; intros m Hi; cbn; [done|].
  destruct (run_op_place_inv op type m i x Hi) as [Hl Hx].
  destruct (IH (run_op op m)) as [Hl' Hx']; [lia|]. split; [lia|]. auto.
Qed.

Lemma sublist_places (l l' : list (option nat)) :
  length l = length l' -> (forall j x, l !! j = Some (Some x) -> l' !! j = Some (Some x)) ->
  omap id l `sublist_of` omap id l'.
Proof.
  revert l'. induction l as [|a l IH]; intros [|b l'] Hl Hp; try done.
  assert (omap id l `sublist_of` omap id l') as H.
  { apply IH; [by injection Hl|]. intros j x. apply (Hp (S j)). }
  destruct a as [x|]; cbn.
  - specialize (Hp 0%nat x eq_refl). injection Hp as ->. by constructor.
  - destruct b; [by apply sublist_cons|done].
Qed.

(** The places from [i] on. *)
Definition window (type : string) (n i : nat) (m : mixin) : list (option nat) :=
  take n (drop i (listeners type m)).

Lemma window_cons type n i m x :
  listeners type m !! i = Some x -> window type (S n) i m = x :: window type n (S i) m.
Proof. intros Hi. unfold window. by rewrite (drop_S _ x) by done. Qed.

Lemma window_lookup type n i m j y :
  window type n i m !! j = Some y <-> listeners type m !! (i + j)%nat = Some y /\ (j < n)%nat.
Proof. unfold window. by rewrite lookup_take_Some, lookup_drop. Qed.

Lemma call_window h type n i m :
  (i + n <= length (listeners type m))%nat ->
  (i + n <= length (listeners type (call_listener h m)))%nat /\
  omap id (window type n i (call_listener h m)) `sublist_of` omap id (window type n i m).
Proof.
  intros Hl. destruct n as [|n].
  { split; [|constructor]. destruct i as [|i]; [lia|].
    destruct (call_listener_place_inv h type m i 0) as [H _]; lia. }
  assert (length (listeners type m) <= length (listeners type (call_listener h m)))%nat as Hm.
  { apply (call_listener_place_inv h type m i 0). lia. }
  split; [lia|]. apply sublist_places.
  - unfold window. rewrite !length_take, !length_drop. lia.
  - intros j x [Hj Hn]%window_lookup. apply window_lookup. split; [|done].
    apply (call_listener_place_inv h type m (i + j) x); [lia|done].
Qed.

Lemma invoke_functions_spec type n : forall i m,
  (i + n <= length (listeners type m))%nat -> exists cs,
  m_called (invoke_functions type n i m) = m_called m ++ cs /\
  cs `sublist_of` omap id (window type n i m) /\
  forall h, Some h ∈ window type n i m ->
    (forall g, g ∈ cs -> g <> h -> ORemove type h ∉ behaviour g) -> h ∈ cs.
Proof.
  induction n as [|n IH]; intros i m Hl; cbn [invoke_functions].
  { exists []. rewrite app_nil_r. split; [done|]. split; [constructor|]. intros h Hh. by inversion Hh. }
  destruct (lookup_lt_is_Some_2 (listeners type m) i) as [x Hx]; [lia|].
  rewrite (window_cons _ _ _ _ _ Hx). change (default [] (m_handlers m !! type)) with (listeners type m).
  rewrite Hx. destruct x as [g|].
  - destruct (call_window g type n (S i) m) as [Hl' Hsub]; [lia|].
    destruct (IH (S i) (call_listener g m)) as (cs & Hc & Hs & Hin); [lia|].
    exists (g :: cs). rewrite Hc, call_listener_called, <- app_assoc. split; [done|].
    split; [cbn; constructor; by etransitivity|]. intros h Hh Hg.
    destruct (decide (h = g)) as [->|Hne]; [by left|]. right. apply Hin; [|set_solver].
    apply elem_of_cons in Hh as [Hh|Hh]; [congruence|].
    apply list_elem_of_lookup in Hh as [j Hj]. apply window_lookup in Hj as [Hj Hn].
    apply list_elem_of_lookup. exists j. apply window_lookup. split; [|done].
    apply call_listener_place; [apply Hg; [by left|done]|done].
  - destruct (IH (S i) m) as (cs & Hc & Hs & Hin); [lia|].
    exists cs. split; [done|]. split; [done|]. intros h Hh. apply Hin.
    apply elem_of_cons in Hh as [Hh|Hh]; [congruence|done].
Qed.

End Dispatch.

(** Dispatching an event calls listeners that were registered when it
    began, in their order and at most once per registration; and every one of
    them is called unless another listener, called before, removed it.
    Listeners added meanwhile wait for the next event. *)
Theorem dispatch_listeners behaviour type m : exists cs,
  m_called (dispatchEvent behaviour type m) = m_called m ++ cs /\
  cs `sublist_of` omap id (listeners type m) /\
  forall h, Some h ∈ listeners type m ->
    (forall g, g ∈ cs -> g <> h -> ORemove type h ∉ behaviour g) -> h ∈ cs.
Proof.
  destruct (invoke_functions_spec behaviour type (length (listeners type m)) 0 m) as (cs & H); [lia|].
  exists cs. unfold window in H. rewrite drop_0, take_ge in H by lia. exact H.
Qed.

(** Listener 1 removes itself and 2, and adds 3. *)
Example dispatch_once :
  let b := fun h => match h with
                    | 1%nat => [ORemove "close" 1; ORemove "close" 2; OAdd "close" 3]
                    | _ => [] end in
  let m := addEventListener "close" 4 (addEventListener "close" 2 (addEventListener "close" 1 (mk_mixin ∅ []))) in
  m_called (dispatchEvent b "close" m) = [1; 4]%nat /\
  m_called (dispatchEvent b "close" (dispatchEvent b "close" m)) = [1; 4; 4; 3]%nat.
Proof. split; reflexivity. Qed.
