(* ===== verification/Text.v ===== *)
(** * Text shown to the user (src/src/base1/cockpit.js, [cockpit.format],
    [format_number], [format_units])

    Substitution of arguments into a format, and numbers with their units. *)

From S2P Require Import Prelude.
From Stdlib Require Import QArith Qabs Qround Lqa.

#[local] Open Scope Z_scope.

(** ** cockpit.format *)

(** The arguments: an object, or an array (the array itself when the second
    argument is one).  Inherited properties other than the length of an array
    are not seen. *)
Inductive fmt_args := ArgsObj (o : jobj) | ArgsArr (l : list jval).

Definition digit_of (c : ascii) : option Z :=
  let n := Z.of_nat (nat_of_ascii c) in
  if (48 <=? n) && (n <=? 57) then Some (n - 48) else None.

Fixpoint parse_digits (acc : Z) (s : string) : option Z :=
  match s with
  | EmptyString => Some acc
  | String c s => d ← digit_of c; parse_digits (10 * acc + d) s
  end.

(** [args[key]]: an index of an array is written without leading zeros. *)
Definition args_get (args : fmt_args) (key : string) : jval :=
  match args with
  | ArgsObj o => prop o key
  | ArgsArr l =>
      if String.eqb key "length" then JNum (zlen l)
      else match parse_digits 0 key with
           | Some n => if String.eqb (pretty n) key then default JUndef (js_at l n) else JUndef
           | None => JUndef
           end
  end.

(** [replace]: zero is shown, other falsy values are not. *)
Definition fmt_value (v : jval) : string :=
  match v with
  | JNum 0 => "0"
  | _ => if truthy v then js_String v else ""
  end.

Definition is_word (c : ascii) : bool :=
  let n := Z.of_nat (nat_of_ascii c) in
  ((48 <=? n) && (n <=? 57)) || ((65 <=? n) && (n <=? 90)) || ((97 <=? n) && (n <=? 122)) || (n =? 95).

(** The longest prefix of characters with [p], and the rest. *)
Fixpoint span (p : ascii -> bool) (s : string) : string * string :=
  match s with
  | EmptyString => ("", "")
  | String c s' => if p c then let '(a, b) := span p s' in (String c a, b) else ("", s)
  end.

(** What [fmt_re] matches after a dollar sign: the name and the rest. *)
Definition match_var (s : string) : option (string * string) :=
  match s with
  | String "{" s' =>
      let '(name, rest) := span (fun c => negb (Ascii.eqb c "}")) s' in
      match name, rest with
      | String _ _, String _ rest => Some (name, rest)
      | _, _ => None
      end
  | _ =>
      let '(name, rest) := span is_word s in
      match name with EmptyString => None | _ => Some (name, rest) end
  end.

(** [fmt.replace(fmt_re, replace)]; the fuel bounds the length of the text. *)
Fixpoint format_loop (fuel : nat) (args : fmt_args) (s : string) : string :=
  match fuel, s with
  | S fuel, String c s' =>
      if Ascii.eqb c "$" then
        match match_var s' with
        | Some (name, rest) => fmt_value (args_get args name) +:+ format_loop fuel args rest
        | None => String c (format_loop fuel args s')
        end
      else String c (format_loop fuel args s')
  | _, _ => ""
  end.

Definition format (fmt : string) (args : fmt_args) : string :=
  format_loop (String.length fmt) args fmt.

(** [cockpit.format(fmt, args...)]: a single object is the arguments itself. *)
Definition format_call (fmt : string) (rest : list jval) : string :=
  match rest with
  | [JObj f] => format fmt (ArgsObj (list_to_map f))
  | [JArr l] => format fmt (ArgsArr l)
  | _ => format fmt (ArgsArr rest)
  end.

(** ** Formats as templates *)

Inductive piece := Lit (s : string) | Var (name : string) | Braced (name : string).

Definition piece_text (p : piece) : string :=
  match p with
  | Lit s => s
  | Var name => String "$" name
  | Braced name => "${" +:+ name +:+ "}"
  end.

Definition template_text (t : list piece) : string := foldr (fun p s => piece_text p +:+ s) "" t.

Definition piece_value (args : fmt_args) (p : piece) : string :=
  match p with Lit s => s | Var n | Braced n => fmt_value (args_get args n) end.

Definition template_value (args : fmt_args) (t : list piece) : string :=
  foldr (fun p s => piece_value args p +:+ s) "" t.

Fixpoint str_forall (p : ascii -> bool) (s : string) : bool :=
  match s with EmptyString => true | String c s => p c && str_forall p s end.

(** A bare name must not run into what follows it. *)
Definition not_word_start (s : string) : bool :=
  match s with EmptyString => true | String c _ => negb (is_word c) end.

Fixpoint template_ok (t : list piece) : bool :=
  match t with
  | [] => true
  | Lit s :: t => str_forall (fun c => negb (Ascii.eqb c "$")) s && template_ok t
  | Var n :: t =>
      negb (String.eqb n "") && str_forall is_word n && not_word_start (template_text t) && template_ok t
  | Braced n :: t =>
      negb (String.eqb n "") && str_forall (fun c => negb (Ascii.eqb c "}")) n && template_ok t
  end.

Lemma span_app p a s :
  str_forall p a = true -> match s with EmptyString => true | String c _ => negb (p c) end = true ->
  span p (a +:+ s) = (a, s).
Proof.
  intros Ha Hs. induction a as [|c a IH]; cbn in *.
  - destruct s as [|c s]; [done|]. cbn. by destruct (p c).
  - apply andb_true_iff in Ha as [-> Ha]. by rewrite IH.
Qed.

Lemma format_loop_lit args s : forall fuel t,
  str_forall (fun c => negb (Ascii.eqb c "$")) s = true ->
  format_loop (String.length s + fuel) args (s +:+ t) = s +:+ format_loop fuel args t.
Proof.
  induction s as [|c s IH]; intros fuel t Hs; [done|]. cbn in *.
  apply andb_true_iff in Hs as [Hc Hs]. apply negb_true_iff in Hc. rewrite Hc. by rewrite IH.
Qed.

Lemma match_var_word n s :
  n <> "" -> str_forall is_word n = true -> not_word_start s = true ->
  match_var (n +:+ s) = Some (n, s).
Proof.
  intros Hn Hw Hs. destruct n as [|c n]; [done|]. unfold match_var.
  pose proof (span_app is_word (String c n) s Hw) as H. cbn [String.append] in *.
  assert (c <> "{"%char) as Hc by (intros ->; cbn in Hw; done).
  destruct c as [b0 b1 b2 b3 b4 b5 b6 b7].
  destruct b0, b1, b2, b3, b4, b5, b6, b7; try (exfalso; by apply Hc); rewrite H; done.
Qed.

Lemma match_var_braced n s :
  n <> "" -> str_forall (fun c => negb (Ascii.eqb c "}")) n = true ->
  match_var (String "{" (n +:+ String "}" s)) = Some (n, s).
Proof.
  intros Hn Hw. destruct n as [|c n]; [done|]. unfold match_var.
  rewrite (span_app (fun c => negb (Ascii.eqb c "}")) (String c n) (String "}" s)); [done|done|].
  by rewrite Ascii.eqb_refl.
Qed.

(** Formatting a template puts the value of each named argument in the
    place of the name, bare or in braces, and keeps all other text: the result
    is the concatenation of the values of the pieces. *)
Theorem format_template t args :
  template_ok t = true -> format (template_text t) args = template_value args t.
Proof.
  intros Ht. unfold format.
  assert (forall fuel, (String.length (template_text t) <= fuel)%nat ->
    format_loop fuel args (template_text t) = template_value args t) as H; [|by apply H].
  induction t as [|p t IH]; intros fuel Hf; [by destruct fuel|].
  cbn [template_text template_value foldr] in *. rewrite str_app_length in Hf.
  destruct p as [s|n|n]; cbn [template_ok piece_text piece_value] in *.
  - apply andb_true_iff in Ht as [Hs Ht].
    replace fuel with (String.length s + (fuel - String.length s))%nat by lia.
    rewrite format_loop_lit by done. rewrite IH; [done|done|]. unfold template_text. lia.
  - rewrite !andb_true_iff in Ht. destruct Ht as [[[Hn Hw] Hs] Ht].
    cbn in Hf. destruct fuel as [|fuel]; [lia|]. cbn.
    rewrite Ascii.eqb_refl, match_var_word; [|by apply negb_true_iff, String.eqb_neq in Hn|done|done].
    rewrite IH; [done|done|]. unfold template_text. lia.
  - rewrite !andb_true_iff in Ht. destruct Ht as [[Hn Hw] Ht].
    rewrite !str_app_length in Hf. cbn in Hf. destruct fuel as [|fuel]; [lia|].
    rewrite !str_app_assoc. cbn [String.append format_loop]. rewrite Ascii.eqb_refl.
    rewrite match_var_braced; [|by apply negb_true_iff, String.eqb_neq in Hn|done].
    rewrite IH; [done|done|]. unfold template_text. lia.
Qed.

Lemma format_template_witness :
  format "$0 of ${1} in $2" (ArgsArr [JNum 0; JNum 10; JStr "x"]) = "0 of 10 in x".
Proof.
  refine (format_template [Var "0"; Lit " of "; Braced "1"; Lit " in "; Var "2"]
    (ArgsArr [JNum 0; JNum 10; JStr "x"]) _). vm_compute. reflexivity.
Defined.

(** ** Numbers

    Numbers are rationals: the rounding of the double divisions of the code is
    not modelled.  [point] is the decimal separator of the language, which
    writes Western digits; integers are below 10^21, where toString writes
    their decimal digits. *)

Definition is_int (x : Q) : bool := Qnum x mod Zpos (Qden x) =? 0.

(** Rounding half away from zero, of a number that is not negative. *)
Definition round_half_up (x : Q) : Z := Qfloor (x + (1 # 2)).

Definition digit_char (d : Z) : ascii := ascii_of_nat (Z.to_nat (48 + d)).

(** The [d] last decimal digits of [n]. *)
Fixpoint last_digits (d : nat) (n : Z) (acc : string) : string :=
  match d with
  | O => acc
  | S d => last_digits d (n / 10) (String (digit_char (n mod 10)) acc)
  end.

(** [n * 10^-d] in decimal notation. *)
Definition fixed (point : string) (n : Z) (d : nat) : string :=
  pretty (n / 10 ^ Z.of_nat d) +:+ match d with O => "" | _ => point +:+ last_digits d n "" end.

Definition pow10 (d : nat) : Q := inject_Z (10 ^ Z.of_nat d).

(** The digits after the point that leave three significant ones. *)
Definition decimals (x : Q) : nat :=
  if Qle_bool 100 x then 0 else if Qle_bool 10 x then 1 else if Qle_bool 1 x then 2
  else if Qle_bool (1 # 10) x then 3 else if Qle_bool (1 # 100) x then 4 else 5.

(** [toLocaleString] with three significant digits, for a number up to 999:
    digits and their place. *)
Definition three_digits (x : Q) : Z * nat :=
  let d := decimals x in
  let n := round_half_up (x * pow10 d) in
  if (n =? 1000) && (1 <=? Z.of_nat d) then (100, pred d) else (n, d).

Definition sign_of (x : Q) : string := if Qle_bool 0 x then "" else "-".

Definition format_number (point : string) (number : option Q) : string :=
  match number with
  | None => ""
  | Some x =>
      if is_int x then pretty (Qnum x / Zpos (Qden x))
      else if negb (Qle_bool x 0) && Qle_bool x (1 # 1000) then "0" +:+ point +:+ "001"
      else if negb (Qle_bool 0 x) && Qle_bool (- (1 # 1000)) x then "-0" +:+ point +:+ "001"
      else if negb (Qle_bool x 999) || negb (Qle_bool (- 999) x) then
        sign_of x +:+ pretty (round_half_up (Qabs x))
      else let '(n, d) := three_digits (Qabs x) in sign_of x +:+ fixed point n d
  end.

(** ** Units *)

(** Suffixes by factor; a null suffix shows none. *)
Abbreviation suffix_table := (list (Z * list (option string))).

Definition byte_suffixes : suffix_table :=
  [(1000, [None; Some "KB"; Some "MB"; Some "GB"; Some "TB"; Some "PB"; Some "EB"; Some "ZB"]);
   (1024, [None; Some "KiB"; Some "MiB"; Some "GiB"; Some "TiB"; Some "PiB"; Some "EiB"; Some "ZiB"])].

Definition byte_sec_suffixes : suffix_table :=
  [(1024, [Some "B/s"; Some "KiB/s"; Some "MiB/s"; Some "GiB/s"; Some "TiB/s"; Some "PiB/s"; Some "EiB/s"; Some "ZiB/s"])].

Definition bit_suffixes : suffix_table :=
  [(1000, [Some "bps"; Some "Kbps"; Some "Mbps"; Some "Gbps"; Some "Tbps"; Some "Pbps"; Some "Ebps"; Some "Zbps"])].

Definition table_get (factor : Z) (t : suffix_table) : option (list (option string)) :=
  (fun e => snd (snd e)) <$> list_find (fun e => fst e = factor) t.

(** Insertion into keys sorted as strings, the largest first: the order of
    [keys.sort().reverse()]. *)
Fixpoint insert_key (k : Z) (l : list Z) : list Z :=
  match l with
  | [] => [k]
  | k' :: l' => if String.leb (pretty k') (pretty k) then k :: l else k' :: insert_key k l'
  end.

Definition sorted_keys (t : suffix_table) : list Z := foldr insert_key [] (map fst t).

(** [factor == suffixes[key][x]]. *)
Fixpoint suffix_index (suffix : string) (x : nat) (l : list (option string)) : option nat :=
  match l with
  | [] => None
  | s :: l => if bool_decide (s = Some suffix) then Some x else suffix_index suffix (S x) l
  end.

Fixpoint find_suffix (suffix : string) (t : suffix_table) (keys : list Z) : option (Z * nat) :=
  match keys with
  | [] => None
  | key :: keys =>
      match suffix_index suffix 0 (default [] (table_get key t)) with
      | Some x => Some (key, x)
      | None => find_suffix suffix t keys
      end
  end.

(** The loop over the suffixes of a numeric factor. *)
Fixpoint scale_loop (factor : Z) (number divisor : Q) (l : list (option string)) : Q * option string :=
  match l with
  | [] => (number, None)
  | s :: l =>
      let quotient := (number / divisor)%Q in
      if negb (Qle_bool (inject_Z factor) quotient) then (quotient, s)
      else scale_loop factor number (divisor * inject_Z factor) l
  end.

Inductive unit_factor := FNum (factor : Z) | FSuffix (suffix : string).

Definition scale (number : option Q) (t : suffix_table) (factor : unit_factor) : option Q * option string :=
  match number with
  | None => (None, None)
  | Some x =>
      match factor with
      | FSuffix s =>
          match find_suffix s t (sorted_keys t) with
          | Some (key, i) => (Some (x / inject_Z (key ^ Z.of_nat i))%Q, Some s)
          | None => (Some x, None)
          end
      | FNum f =>
          match table_get f t with
          | Some l => let '(q, s) := scale_loop f x 1 l in (Some q, s)
          | None => (Some x, None)
          end
      end
  end.

(** [format_units] with [separate]; an empty suffix counts as none. *)
Definition format_units (point : string) (number : option Q) (t : suffix_table) (factor : unit_factor) : list string :=
  let '(number, suffix) := scale number t factor in
  let text := format_number point number in
  match suffix with
  | Some (String _ _ as s) => if String.eqb text "" then [text] else [text; s]
  | _ => [text]
  end.

(** Without [separate]. *)
Definition units_text (parts : list string) : string := str_join " " parts.

Definition format_bytes (point : string) (number : option Q) (factor : option unit_factor) : list string :=
  format_units point number byte_suffixes (default (FNum 1024) factor).

Definition format_bytes_per_sec (point : string) (number : option Q) (factor : option unit_factor) : list string :=
  format_units point number byte_sec_suffixes (default (FNum 1024) factor).

Definition format_bits_per_sec (point : string) (number : option Q) (factor : option unit_factor) : list string :=
  format_units point number bit_suffixes (default (FNum 1000) factor).

Record byte_unit := mk_unit { u_name : option string; u_factor : Z; u_selected : bool }.

Definition get_byte_units (guide : Q) (factor : option Z) : list byte_unit :=
  let factor := match factor with
                | Some f => if bool_decide (is_Some (table_get f byte_suffixes)) then f else 1024
                | None => 1024
                end in
  let names := default [] (table_get factor byte_suffixes) in
  let big i := Qle_bool 10 (guide / inject_Z (factor ^ i)) in
  let unit i selected := mk_unit (default None (names !! Z.to_nat i)) (factor ^ i) selected in
  [unit 2 (negb (big 4) && negb (big 3)); unit 3 (negb (big 4) && big 3); unit 4 (big 4)].

Example format_bytes_examples :
  map (fun x => units_text (format_bytes "." x None))
    [Some (999 # 1)%Q; Some (1536 # 1)%Q; Some (20000000 # 1)%Q; Some 0%Q; None; Some (1047000 # 1)%Q] =
    ["999"; "1.50 KiB"; "19.1 MiB"; "0"; ""; "1022 KiB"] /\
  units_text (format_bytes "." (Some (20000000 # 1)%Q) (Some (FSuffix "KB"))) = "20000 KB".
Proof. vm_compute. split; reflexivity. Qed.

(** *** Choosing a unit *)

Lemma inject_pow_pos f k : 0 < f -> (0 < inject_Z (f ^ Z.of_nat k))%Q.
Proof. intros Hf. rewrite <- (Zlt_Qlt 0). apply Z.pow_pos_nonneg; lia. Qed.

Lemma inject_pow_S f k :
  (inject_Z (f ^ Z.of_nat (S k)) == inject_Z (f ^ Z.of_nat k) * inject_Z f)%Q.
Proof. rewrite Nat2Z.inj_succ, Z.pow_succ_r, Z.mul_comm by lia. by rewrite inject_Z_mult. Qed.

Lemma Qle_bool_false x y : Qle_bool x y = false -> (y < x)%Q.
Proof. intros H. apply Qnot_le_lt. intros Hl. apply Qle_bool_iff in Hl. congruence. Qed.

(** A number of at least 0 is shown in the unit [i]: the quotient is below the
    factor, and not below 1 unless the unit is the smallest. *)
Definition in_unit (f : Z) (x q : Q) (i : nat) : Prop :=
  (q == x / inject_Z (f ^ Z.of_nat i) /\ q < inject_Z f)%Q /\ (i = 0%nat \/ (1 <= q)%Q).

Lemma scale_loop_spec f x l : forall k divisor,
  0 < f -> (divisor == inject_Z (f ^ Z.of_nat k))%Q ->
  (k = 0%nat \/ (inject_Z (f ^ Z.of_nat k) <= x)%Q) -> (0 < k + length l)%nat ->
  (x < inject_Z (f ^ Z.of_nat (k + length l)))%Q ->
  exists i s q, l !! i = Some s /\ scale_loop f x divisor l = (q, s) /\ in_unit f x q (k + i).
Proof.
  induction l as [|s l IH]; intros k divisor Hf Hd Hk H0 Hx; cbn [scale_loop length] in *.
  - exfalso. rewrite Nat.add_0_r in Hx, H0. destruct Hk as [->|Hk]; [lia|lra].
  - pose proof (inject_pow_pos f k Hf) as Hp.
    destruct (Qle_bool (inject_Z f) (x / divisor)) eqn:E; cbn [negb].
    + apply Qle_bool_iff in E. rewrite Hd in E.
      destruct (IH (S k) (divisor * inject_Z f)%Q) as (i & s' & q & Hi & Hs & Hu).
      * done.
      * rewrite inject_pow_S, Hd. reflexivity.
      * right. rewrite inject_pow_S. rewrite Qmult_comm.
        apply (Qmult_le_compat_r _ _ (inject_Z (f ^ Z.of_nat k))) in E; [|lra].
        rewrite (Qmult_comm (x / _)), Qmult_div_r in E by lra. lra.
      * lia.
      * by rewrite Nat.add_succ_comm.
      * exists (S i), s', q. rewrite Nat.add_succ_r. auto.
    + apply Qle_bool_false in E. exists 0%nat, s, (x / divisor)%Q. rewrite Nat.add_0_r.
      split; [done|]. split; [done|]. split; [split; [by rewrite Hd|done]|].
      destruct Hk as [->|Hk]; [by left|]. right. rewrite Hd.
      apply Qle_shift_div_l; [done|]. by rewrite Qmult_1_l.
Qed.

(** An amount below the limit of the table is shown in the largest unit in
    which it is at least 1, or in the smallest unit when there is none: the
    number is the amount divided by that power of the factor, and the suffix is
    the one of that power. *)
Theorem scale_picks_unit t f l x :
  table_get f t = Some l -> 0 < f -> l <> [] ->
  (x < inject_Z (f ^ Z.of_nat (length l)))%Q ->
  exists i s q, l !! i = Some s /\ scale (Some x) t (FNum f) = (Some q, s) /\ in_unit f x q i.
Proof.
  intros Ht Hf Hl Hx. cbn [scale]. rewrite Ht.
  destruct (scale_loop_spec f x l 0 1 Hf) as (i & s & q & Hi & Hs & Hu); auto.
  - reflexivity.
  - destruct l; [done|cbn; lia].
  - exists i, s, q. by rewrite Hs.
Qed.

Lemma scale_picks_unit_witness :
  exists i s q, default [] (table_get 1024 byte_suffixes) !! i = Some s /\
    scale (Some (20000000 # 1)%Q) byte_suffixes (FNum 1024) = (Some q, s) /\
    in_unit 1024 (20000000 # 1)%Q q i.
Proof.
  apply (scale_picks_unit byte_suffixes 1024 (default [] (table_get 1024 byte_suffixes)) (20000000 # 1)%Q);
    vm_compute; (reflexivity || discriminate).
Defined.

(** *** Three significant digits *)

Lemma round_half_up_close x :
  (inject_Z (round_half_up x) - (1 # 2) <= x /\ x < inject_Z (round_half_up x) + (1 # 2))%Q.
Proof.
  unfold round_half_up. pose proof (Qfloor_le (x + (1 # 2))) as H1.
  pose proof (Qlt_floor (x + (1 # 2))) as H2. rewrite inject_Z_plus in H2.
  change (inject_Z 1) with 1%Q in H2. lra.
Qed.

Lemma round_half_up_range x a b :
  (inject_Z a <= x)%Q -> (x <= inject_Z b)%Q -> a <= round_half_up x <= b.
Proof.
  intros Ha Hb. destruct (round_half_up_close x) as [H1 H2]. split.
  - assert (inject_Z a < inject_Z (round_half_up x + 1))%Q as H.
    { rewrite inject_Z_plus. change (inject_Z 1) with 1%Q. lra. }
    rewrite <- Zlt_Qlt in H. lia.
  - assert (inject_Z (round_half_up x) < inject_Z (b + 1))%Q as H.
    { rewrite inject_Z_plus. change (inject_Z 1) with 1%Q. lra. }
    rewrite <- Zlt_Qlt in H. lia.
Qed.

(** The number is scaled to three digits before the point. *)
Lemma decimals_scale x :
  ((1 # 1000) < x)%Q -> (x <= 999)%Q ->
  (100 <= x * pow10 (decimals x) /\ x * pow10 (decimals x) <= 1000)%Q /\
  (decimals x <= 5)%nat /\ (decimals x = 0%nat -> (x * pow10 0 <= 999)%Q).
Proof.
  intros H1 H2. unfold decimals.
  destruct (Qle_bool 100 x) eqn:E1.
  { apply Qle_bool_iff in E1. change (pow10 0) with 1%Q. split; [lra|]. split; [lia|]. lra. }
  apply Qle_bool_false in E1. destruct (Qle_bool 10 x) eqn:E2.
  { apply Qle_bool_iff in E2. change (pow10 1) with 10%Q. split; [lra|]. split; [lia|done]. }
  apply Qle_bool_false in E2. destruct (Qle_bool 1 x) eqn:E3.
  { apply Qle_bool_iff in E3. change (pow10 2) with 100%Q. split; [lra|]. split; [lia|done]. }
  apply Qle_bool_false in E3. destruct (Qle_bool (1 # 10) x) eqn:E4.
  { apply Qle_bool_iff in E4. change (pow10 3) with 1000%Q. split; [lra|]. split; [lia|done]. }
  apply Qle_bool_false in E4. destruct (Qle_bool (1 # 100) x) eqn:E5.
  { apply Qle_bool_iff in E5. change (pow10 4) with 10000%Q. split; [lra|]. split; [lia|done]. }
  apply Qle_bool_false in E5. change (pow10 5) with 100000%Q. split; [lra|]. split; [lia|done].
Qed.

Lemma pow10_S d : (pow10 (S d) == 10 * pow10 d)%Q.
Proof. unfold pow10. rewrite Nat2Z.inj_succ, Z.pow_succ_r by lia. by rewrite inject_Z_mult. Qed.

Lemma pow10_pos d : (0 < pow10 d)%Q.
Proof. unfold pow10. rewrite <- (Zlt_Qlt 0). apply Z.pow_pos_nonneg; lia. Qed.

(** [n * 10^-d] differs from [x] by at most half a unit of its last digit. *)
Definition nearest (x : Q) (n : Z) (d : nat) : Prop :=
  (inject_Z n - (1 # 2) <= x * pow10 d /\ x * pow10 d <= inject_Z n + (1 # 2))%Q.

Lemma three_digits_spec x n d :
  ((1 # 1000) < x)%Q -> (x <= 999)%Q -> three_digits x = (n, d) ->
  100 <= n <= 999 /\ (d <= 5)%nat /\ nearest x n d.
Proof.
  intros H1 H2. destruct (decimals_scale x H1 H2) as ([Ha Hb] & Hd & H0).
  unfold three_digits. destruct (round_half_up_close (x * pow10 (decimals x))) as [Hc1 Hc2].
  pose proof (round_half_up_range _ 100 1000 Ha Hb) as Hr.
  destruct ((_ =? 1000) && _) eqn:E; intros [= <- <-].
  - apply andb_true_iff in E as [E1 E2]. apply Z.eqb_eq in E1. apply Z.leb_le in E2.
    rewrite E1 in Hc1, Hc2. destruct (decimals x) as [|k]; [lia|]. cbn [pred].
    split; [lia|]. split; [lia|]. unfold nearest. pose proof (pow10_S k) as Hk.
    assert (x * pow10 (S k) == 10 * (x * pow10 k))%Q as Hx by (rewrite Hk; ring).
    rewrite Hx in Hc1, Hc2, Hb.
    change (inject_Z 1000) with 1000%Q in *. change (inject_Z 100) with 100%Q. lra.
  - split; [|split; [done|unfold nearest; lra]].
    apply andb_false_iff in E as [E|E].
    + apply Z.eqb_neq in E. lia.
    + apply Z.leb_gt in E. destruct (decimals x) as [|k]; [|lia].
      pose proof (round_half_up_range (x * pow10 0) 100 999 Ha (H0 eq_refl)). lia.
Qed.

Lemma digit_of_char d : 0 <= d <= 9 -> digit_of (digit_char d) = Some d.
Proof.
  intros Hd. assert (d ∈ [0; 1; 2; 3; 4; 5; 6; 7; 8; 9]) as H.
  { assert (d = 0 \/ d = 1 \/ d = 2 \/ d = 3 \/ d = 4 \/ d = 5 \/ d = 6 \/ d = 7 \/ d = 8 \/ d = 9) by lia.
    set_solver. }
  clear Hd. repeat (apply elem_of_cons in H as [->|H]; [reflexivity|]). by inversion H.
Qed.

Lemma parse_last_digits d : forall n acc a r,
  0 <= n -> parse_digits (10 ^ Z.of_nat 0 * a) acc = r ->
  parse_digits a (last_digits d n acc) = parse_digits (10 ^ Z.of_nat d * a + n mod 10 ^ Z.of_nat d) acc /\
  String.length (last_digits d n acc) = (d + String.length acc)%nat.
Proof.
  induction d as [|d IH]; intros n acc a r Hn Hr; cbn [last_digits].
  { rewrite Z.mod_1_r. split; [f_equal; lia|done]. }
  assert (0 <= n / 10) by (apply Z.div_pos; lia).
  destruct (IH (n / 10) (String (digit_char (n mod 10)) acc) a _ ltac:(done) eq_refl) as [H1 H2].
  rewrite H1, H2. split; [|cbn; lia]. cbn [parse_digits].
  pose proof (Z.mod_pos_bound n 10). rewrite digit_of_char by lia. cbn [mbind option_bind].
  f_equal. rewrite Nat2Z.inj_succ, Z.pow_succ_r by lia.
  assert (0 < 10 ^ Z.of_nat d) by (apply Z.pow_pos_nonneg; lia).
  rewrite (Z.rem_mul_r n 10 (10 ^ Z.of_nat d)) by lia. lia.
Qed.

Lemma parse_pretty_small w : 0 <= w <= 999 -> parse_digits 0 (pretty w) = Some w.
Proof.
  intros Hw.
  assert (Forall (fun w => parse_digits 0 (pretty w) = Some w) (seqZ 0 1000)) as H.
  { apply Forall_forall. intros x Hx. apply (bool_decide_unpack _).
    revert x Hx. apply Forall_forall, forallb_True, Is_true_true. vm_compute. reflexivity. }
  rewrite Forall_forall in H. apply H. apply elem_of_seqZ. lia.
Qed.

(** The decimal numeral [text]: whole part and digits after the point. *)
Definition numeral (point text : string) (n : Z) (d : nat) : Prop :=
  exists whole frac, text = whole +:+ (if (d =? 0)%nat then "" else point +:+ frac) /\
    String.length frac = d /\
    parse_digits 0 whole = Some (n / 10 ^ Z.of_nat d) /\
    parse_digits 0 frac = Some (n mod 10 ^ Z.of_nat d).

Lemma fixed_numeral point n d : 0 <= n <= 999 -> numeral point (fixed point n d) n d.
Proof.
  intros Hn. exists (pretty (n / 10 ^ Z.of_nat d)), (last_digits d n "").
  assert (0 < 10 ^ Z.of_nat d) as Hp by (apply Z.pow_pos_nonneg; lia).
  destruct (parse_last_digits d n "" 0 _ ltac:(lia) eq_refl) as [H1 H2].
  split; [by destruct d|]. split; [rewrite H2; cbn; lia|]. split.
  - apply parse_pretty_small. split; [apply Z.div_pos; lia|].
    etransitivity; [apply Z.div_le_upper_bound with (q := n); nia|lia].
  - rewrite H1. cbn. f_equal. lia.
Qed.

(** A number between a thousandth and 999 with a fraction is written with
    exactly three significant digits, and what is written is the number rounded
    to its last digit. *)
Theorem format_number_close point x :
  is_int x = false -> ((1 # 1000) < x)%Q -> (x <= 999)%Q ->
  exists n d, numeral point (format_number point (Some x)) n d /\
    100 <= n <= 999 /\ (d <= 5)%nat /\ nearest x n d.
Proof.
  intros Hi H1 H2. cbn [format_number]. rewrite Hi.
  assert (Qle_bool x (1 # 1000) = false) as ->.
  { apply not_true_iff_false. rewrite Qle_bool_iff. lra. }
  assert (Qle_bool 0 x = true) as E0 by (apply Qle_bool_iff; lra).
  assert (Qle_bool x 999 = true) as -> by (by apply Qle_bool_iff).
  assert (Qle_bool (- 999) x = true) as -> by (apply Qle_bool_iff; lra).
  unfold sign_of. rewrite E0, andb_false_r. cbn [negb andb orb].
  destruct (three_digits (Qabs x)) as [n d] eqn:E.
  assert (Qabs x == x)%Q as Hx by (apply Qabs_pos; lra).
  destruct (three_digits_spec (Qabs x) n d) as (Hn & Hd & Hr); [lra|lra|done|].
  exists n, d. split; [apply fixed_numeral; lia|]. split; [done|]. split; [done|].
  unfold nearest in *. by rewrite Hx in Hr.
Qed.

Lemma format_number_close_witness :
  exists n d, numeral "," (format_number "," (Some (1999 # 100)%Q)) n d /\
    100 <= n <= 999 /\ (d <= 5)%nat /\ nearest (1999 # 100)%Q n d.
Proof.
  apply (format_number_close "," (1999 # 100)%Q); vm_compute; (reflexivity || discriminate).
Defined.
