(* ===== verification/Locale.v ===== *)
(** * Translations and error messages (src/src/base1/cockpit.js,
    [cockpit.locale], [gettext], [ngettext], [message], the error objects)

    The catalog of translated strings, and the messages that tell the user why
    something failed. *)

From S2P Require Import Prelude Text.

(** ** The catalog *)

(** What a plural function returns, and the header of a catalog. *)
Inductive plural_result := PlBool (b : bool) | PlNum (z : Z).

Record po_header := mk_header {
  po_plural_forms : option (Z -> plural_result); po_language : option string }.

(** The [po] argument: the header is its entry for the empty string. *)
Inductive po_arg := PoUndef | PoNull | Po (header : option po_header) (strings : gmap string (list jval)).

Record locale_state := mk_locale {
  l_po_data : gmap string (list jval); l_po_plural : option (Z -> plural_result);
  l_language : option string }.

#[export] Instance locale_settable : Settable locale_state := fun l =>
  mk_locale (l_po_data l) (l_po_plural l) (l_language l).

Definition initial_locale : locale_state := mk_locale ∅ None None.

(** [a || b] on strings that may be missing. *)
Definition or_string (a : option string) (b : string) : string :=
  match a with Some (String _ _ as s) => s | _ => b end.

Definition locale (po : po_arg) (st : locale_state) : locale_state :=
  let lang := or_string (l_language st) "en" in
  let '(st, header) :=
    match po with
    | Po header strings => (st <| l_po_data ::= (fun d => strings ∪ d) |>, header)
    | PoNull => (st <| l_po_data := ∅ |>, None)
    | PoUndef => (st, None)
    end in
  match header with
  | None => st <| l_language := Some lang |>
  | Some h =>
      let st := match po_plural_forms h with Some f => st <| l_po_plural := Some f |> | None => st end in
      st <| l_language := Some (or_string (po_language h) lang) |>
  end.

(** The character that separates the context from the string. *)
Definition context_char : ascii := "004"%char.

Definition po_key (context : option string) (s : string) : string :=
  match context with
  | Some (String _ _ as c) => c +:+ String context_char s
  | _ => s
  end.

(** [translated[i]], when it is a string to show. *)
Definition translation (st : locale_state) (key : string) (i : nat) : option string :=
  l ← l_po_data st !! key; v ← l !! i; if truthy v then Some (js_String v) else None.

Definition gettext (st : locale_state) (context : option string) (s : string) : string :=
  default s (translation st (po_key context s) 1).

Definition imply (r : plural_result) : Z :=
  match r with PlBool b => if b then 1 else 0 | PlNum z => z end.

Definition ngettext (st : locale_state) (context : option string) (string1 stringN : string) (num : Z) : string :=
  let untranslated := if num =? 1 then string1 else stringN in
  match l_po_plural st with
  | None => untranslated
  | Some plural =>
      let i := imply (plural num) + 1 in
      if i <? 0 then untranslated
      else default untranslated (translation st (po_key context string1) (Z.to_nat i))
  end.

(** ** Messages *)

(** The texts of [cockpit.message], by problem code. *)
Definition problem_texts : list (string * string) :=
  [("terminated", "Your session has been terminated.");
   ("no-session", "Your session has expired. Please log in again.");
   ("access-denied", "Not permitted to perform this action.");
   ("authentication-failed", "Login failed");
   ("authentication-not-supported", "The server refused to authenticate using any supported methods.");
   ("unknown-hostkey", "Untrusted host");
   ("unknown-host", "Untrusted host");
   ("invalid-hostkey", "Host key is incorrect");
   ("internal-error", "Internal error");
   ("timeout", "Connection has timed out.");
   ("no-cockpit", "Cockpit is not installed on the system.");
   ("no-forwarding", "Cannot forward login credentials");
   ("disconnected", "Server has closed the connection.");
   ("not-supported", "Cockpit is not compatible with the software on the system.");
   ("no-host", "Cockpit could not contact the given host.");
   ("too-large", "Too much data")].

Definition problem_text (st : locale_state) (problem : string) : string :=
  match assoc_get problem problem_texts with
  | Some s => gettext st None s
  | None => problem
  end.

(** [cockpit.message(arg)] for an error object, a string or another value. *)
Definition message (st : locale_state) (arg : jval) : string :=
  match arg with
  | JObj f =>
      let o : jobj := list_to_map f in
      if truthy (prop o "message") then js_String (prop o "message")
      else if truthy (prop o "problem") then problem_text st (js_String (prop o "problem"))
      else problem_text st (js_String arg)
  | _ => problem_text st (js_String arg)
  end.

(** ** Error objects *)

Record error := mk_error {
  e_problem : jval; e_name : jval; e_exit_status : jval; e_exit_signal : jval;
  e_status : option Z; e_reason : jval; e_message : jval }.

Definition basic_error (st : locale_state) (problem message_ : jval) : error :=
  mk_error problem JUndef JUndef JUndef None JUndef
    (if truthy message_ then message_ else JStr (message st problem)).

(** [DBusError(arg, arg1)] with a problem code. *)
Definition dbus_problem (st : locale_state) (problem : string) (arg1 : jval) : error :=
  mk_error (JStr problem) JNull JUndef JUndef None JUndef
    (if truthy arg1 then arg1 else JStr (message st (JStr problem))).

(** With the name and arguments of a D-Bus error; arguments that are not an
    array throw. *)
Definition dbus_error (name : jval) (args : list jval) : error :=
  let first := default JUndef (args !! 0%nat) in
  mk_error JNull name JUndef JUndef None JUndef (if truthy first then first else name).

Definition http_error (status : option Z) (reason message_ : jval) : error :=
  mk_error JNull JUndef JUndef JUndef status reason (if truthy message_ then message_ else reason).

Definition or_null (v : jval) : jval := match v with JUndef => JNull | _ => v end.

(** [ProcessError(options, name)]: [exit_status] has been turned from undefined
    into null before it is compared with undefined. *)
Definition process_error (st : locale_state) (options : jobj) (name : string) : error :=
  let problem := if truthy (prop options "problem") then prop options "problem" else JNull in
  let status := or_null (prop options "exit-status") in
  let signal := or_null (prop options "exit-signal") in
  let text :=
    match prop options "message" with
    | JUndef =>
        if truthy problem then message st problem
        else match signal with
             | JNull =>
                 match status with
                 | JUndef => format_call (gettext st None "$0 failed") [JStr name]
                 | _ => format_call (gettext st None "$0 exited with code $1") [JStr name; status]
                 end
             | _ => format_call (gettext st None "$0 killed with signal $1") [JStr name; signal]
             end
    | m => trim (js_String m)
    end in
  mk_error problem JUndef status signal None JUndef (JStr text).

(** A process that failed without a status is said to have exited with no code. *)
Example process_failed_text :
  e_message (process_error initial_locale ∅ "cat") = JStr "cat exited with code ".
Proof. vm_compute. reflexivity. Qed.

Example process_messages :
  let text o := e_message (process_error initial_locale o "cat") in
  text {["exit-status" := JNum 1]} = JStr "cat exited with code 1" /\
  text {["exit-status" := JNum 0]} = JStr "cat exited with code 0" /\
  text {["exit-signal" := JStr "TERM"]} = JStr "cat killed with signal TERM" /\
  text {["problem" := JStr "access-denied"]} = JStr "Not permitted to perform this action." /\
  text {["message" := JStr " cat: x "]} = JStr "cat: x".
Proof. vm_compute. auto. Qed.

(** ** What the catalog shows *)

(** The entry for a key in the last catalog that has one since the catalog was
    last cleared. *)
Fixpoint last_entry (key : string) (pos : list po_arg) : option (list jval) :=
  match pos with
  | [] => None
  | po :: pos =>
      match last_entry key pos with
      | Some e => Some e
      | None => if existsb (fun p => match p with PoNull => true | _ => false end) pos then None
                else match po with Po _ strings => strings !! key | _ => None end
      end
  end.

Definition load_all (pos : list po_arg) (st : locale_state) : locale_state :=
  foldl (fun st po => locale po st) st pos.

Lemma locale_data po st :
  l_po_data (locale po st) =
  match po with Po _ strings => strings ∪ l_po_data st | PoNull => ∅ | PoUndef => l_po_data st end.
Proof. destruct po as [| |[[[f|] lang]|] strings]; reflexivity. Qed.

Lemma load_all_data key pos : forall st,
  l_po_data (load_all pos st) !! key =
  match last_entry key pos with
  | Some e => Some e
  | None => if existsb (fun p => match p with PoNull => true | _ => false end) pos then None
            else l_po_data st !! key
  end.
Proof.
  induction pos as [|po pos IH]; intros st; cbn [load_all foldl last_entry existsb]; [done|].
  change (foldl _ (locale po st) pos) with (load_all pos (locale po st)). rewrite IH, locale_data.
  destruct (last_entry key pos); [done|]. destruct (existsb _ pos) eqn:E.
  - by rewrite orb_true_r.
  - rewrite orb_false_r. destruct po as [| |h strings]; [done|done|].
    rewrite lookup_union. destruct (strings !! key), (l_po_data st !! key); reflexivity.
Qed.

(** After any sequence of loaded and cleared catalogs the user sees the
    translation of the last catalog that has an entry for the text in its
    context, and the text itself when there is none, or the entry's
    translation is empty: an older catalog is not asked then. *)
Theorem gettext_last_catalog pos context s :
  gettext (load_all pos initial_locale) context s =
  match last_entry (po_key context s) pos with
  | Some (_ :: v :: _) => if truthy v then js_String v else s
  | _ => s
  end.
Proof.
  unfold gettext, translation. rewrite load_all_data. cbn [l_po_data initial_locale].
  rewrite lookup_empty.
  destruct (last_entry _ pos) as [[|a [|v l]]|]; cbn; [done|done| |].
  - by destruct (truthy v).
  - by destruct (existsb _ pos).
Qed.

Example gettext_example :
  let fr := Po None {["Host" := [JNull; JStr "Hôte"]]} in
  gettext (load_all [fr] initial_locale) None "Host" = "Hôte" /\
  gettext (load_all [fr; Po None {["Host" := [JNull; JStr ""]]}] initial_locale) None "Host" = "Host".
Proof. split; reflexivity. Qed.
