(* ===== verification/Process.v ===== *)
(** * Processes (src/src/base1/cockpit.js, [cockpit.spawn], [cockpit.script])

    A process is a "stream" channel: its output goes through a channel buffer,
    to a callback as it comes or to the promise at the end, and its close
    message says how it ended. *)

From S2P Require Import Prelude Buffer Text Locale.

(** How a promise settles: output and warning, or error and output. *)
Inductive outcome :=
  | Resolved (data : list Z) (warning : option jval)
  | Rejected (ex : error) (data : option (list Z)).

Inductive process_effect := PSend (message : jval) | PDone | PClose (problem : string).

Record process := mk_process {
  p_name : string; p_valid : bool; p_buffer : buffer; p_result : option outcome;
  p_trace : list process_effect }.

#[export] Instance process_settable : Settable process := fun p =>
  mk_process (p_name p) (p_valid p) (p_buffer p) (p_result p) (p_trace p).

(** [String(command[i])] for each element, or of the command. *)
Definition spawn_command (command : jval) : list jval :=
  match command with
  | JArr l => map (fun v => JStr (js_String v)) l
  | v => [JStr (js_String v)]
  end.

(** The options of the channel. *)
Definition spawn_args (command : jval) (options : jobj) : jobj :=
  extend {["payload" := JStr "stream"; "spawn" := JArr (spawn_command command)]} options.

Definition spawn_name (args : jobj) : string :=
  match prop args "spawn" with
  | JArr (v :: _) => if truthy v then js_String v else "process"
  | _ => "process"
  end.

(** A process right after [cockpit.spawn]: the buffer has no callback yet.
    [binary] is how the channel carries its messages. *)
Definition spawn (command : jval) (options : jobj) (binary : bool) : process :=
  mk_process (spawn_name (spawn_args command options)) true (mk_buffer binary false [] true) None [].

(** [cockpit.script(script, args, options)]; the options may stand in the
    place of the arguments. *)
Definition script_command (script : string) (args : list string) : jval :=
  JArr (map JStr (["/bin/sh"; "-c"; script; "--"] ++ args)).

Definition script (text : string) (args : list string + jobj) (options : option jobj) (binary : bool) : process :=
  match args, options with
  | inr o, None => spawn (script_command text []) o binary
  | inl args, _ => spawn (script_command text args) (default ∅ options) binary
  | inr _, Some o => spawn (script_command text []) o binary
  end.

Section Process.

Context {S : Type} (st : locale_state) (callback : S -> list Z -> S * option Z).

(** The close listener of [spawn]; a promise that is settled stays so. *)
Definition on_close (options : jobj) (p : process) : process :=
  let data := squash true (p_buffer p) in
  let result :=
    if truthy (prop options "problem") then Rejected (process_error st options (p_name p)) None
    else if truthy (prop options "exit-status") || truthy (prop options "exit-signal")
    then Rejected (process_error st options (p_name p)) (Some data)
    else match prop options "message" with
         | JUndef => Resolved data None
         | m => Resolved data (Some m)
         end in
  p <| p_result ::= (fun r => Some (default result r)) |>.

(** What happens to a process: the caller's [stream], [input] and [close], and
    the message and close events of its channel.  Closing the channel
    dispatches its close event before it returns. *)
Inductive event :=
  | EvStream | EvInput (message : jval) (stream : bool) | EvClose (problem : string)
  | EvMessage (data : list Z) | EvClosed (options : jobj).

Definition stream (p : process) : process := p <| p_buffer ::= (fun b => b <| b_callback := true |>) |>.

Definition input (message : jval) (more : bool) (p : process) : process :=
  let p := match message with
           | JNull | JUndef => p
           | m => if p_valid p then p <| p_trace ::= (fun t => t ++ [PSend m]) |> else p
           end in
  if more then p else if p_valid p then p <| p_trace ::= (fun t => t ++ [PDone]) |> else p.

Definition closed (options : jobj) (p : process) : process :=
  if p_valid p then
    on_close options (p <| p_valid := false |> <| p_buffer ::= Buffer.on_close |>)
  else p.

Definition close (problem : string) (p : process) : process :=
  if p_valid p then
    closed (if String.eqb problem "" then ∅ else {["problem" := JStr problem]})
      (p <| p_trace ::= (fun t => t ++ [PClose problem]) |>)
  else p.

Definition step (e : event) (ps : process * S) : process * S :=
  let '(p, s) := ps in
  match e with
  | EvStream => (stream p, s)
  | EvInput m more => (input m more p, s)
  | EvClose problem => (close problem p, s)
  | EvMessage data =>
      if p_valid p then
        let '(b, s) := deliver true callback (p_buffer p) s data in (p <| p_buffer := b |>, s)
      else (p, s)
  | EvClosed options => (closed options p, s)
  end.

Definition run (es : list event) (ps : process * S) : process * S := foldl (fun ps e => step e ps) ps es.

End Process.

(** ** Output and exit of a process *)

(** Whether closing with these options is success. *)
Definition succeeds (options : jobj) : bool :=
  negb (truthy (prop options "problem")) && negb (truthy (prop options "exit-status")) &&
  negb (truthy (prop options "exit-signal")).

Definition outcome_data (o : outcome) : option (list Z) :=
  match o with Resolved data _ => Some data | Rejected _ data => data end.

Definition is_resolved (o : outcome) : bool := match o with Resolved _ _ => true | _ => false end.

(** The messages among some events, as far as the channel is open. *)
Fixpoint received (es : list event) : list Z :=
  match es with
  | [] => []
  | EvMessage data :: es => data ++ received es
  | _ :: es => received es
  end.

Definition is_end (e : event) : bool := match e with EvClose _ | EvClosed _ => true | _ => false end.

Section Outcome.

Context {S : Type} (st : locale_state) (callback : S -> list Z -> S * option Z) (eaten : S -> list Z).
Context (callback_ok : forall s block, let '(s', r) := callback s block in
  match r with
  | None => eaten s' = eaten s ++ block
  | Some n => 0 <= n <= zlen block /\ eaten s' = eaten s ++ take (Z.to_nat n) block
  end).

(** Before the end: what was received is what the callback took, and what
    waits in the buffer. *)
Record running (data : list Z) (p : process) (s : S) : Prop := {
  r_valid : p_valid p = true; r_open : b_open (p_buffer p) = true; r_result : p_result p = None;
  r_data : eaten s ++ concat (b_blocks (p_buffer p)) = data }.

Lemma running_step e data p s :
  is_end e = false -> running data p s ->
  let '(p', s') := step st callback e (p, s) in
  running (data ++ received [e]) p' s' /\ p_name p' = p_name p.
Proof.
  intros He [Hv Ho Hr Hd]. destruct e as [|m more|problem|d|options]; cbn in *; try done.
  - rewrite app_nil_r. split; [split|]; done.
  - rewrite app_nil_r. unfold input. destruct m, more; cbn; rewrite ?Hv; cbn; rewrite ?Hv; split; try split; done.
  - rewrite Hv. unfold deliver. rewrite Ho.
    pose proof (on_message_conserves true callback eaten callback_ok d (p_buffer p) s (or_introl eq_refl)) as H.
    destruct (Buffer.on_message true callback d (p_buffer p) s) as [b s'].
    destruct H as [H1 [H2 _]]. cbn. split; [|done]. split; cbn; [done|congruence|done|].
    by rewrite H1, app_nil_r, app_assoc, Hd.
Qed.

Lemma running_run es : forall data p s,
  forallb (fun e => negb (is_end e)) es = true -> running data p s ->
  let '(p', s') := run st callback es (p, s) in
  running (data ++ received es) p' s' /\ p_name p' = p_name p.
Proof.
  induction es as [|e es IH]; intros data p s He Hp; cbn [run foldl].
  { cbn. rewrite app_nil_r. split; [done|done]. }
  cbn in He. apply andb_true_iff in He as [He Hes]. apply negb_true_iff in He.
  pose proof (running_step e data p s He Hp) as Hs.
  destruct (step st callback e (p, s)) as [p1 s1]. destruct Hs as [Hs Hn].
  specialize (IH _ p1 s1 Hes Hs). unfold run in IH. destruct (foldl _ (p1, s1) es) as [p' s'].
  destruct IH as [IH Hn']. split; [|congruence].
  assert (received (e :: es) = received [e] ++ received es) as ->.
  { destruct e; cbn [received]; rewrite ?app_nil_r; reflexivity. }
  by rewrite app_assoc.
Qed.

(** Nothing happens to a process that has ended. *)
Lemma ended_step e p s :
  p_valid p = false ->
  let '(p', s') := step st callback e (p, s) in
  p_valid p' = false /\ p_result p' = p_result p /\ s' = s /\ p_trace p' = p_trace p.
Proof.
  intros Hv. destruct e as [|m more|problem|d|options]; cbn; try done.
  - unfold input. destruct m, more; rewrite ?Hv; cbn; rewrite ?Hv; done.
  - unfold close. rewrite Hv. done.
  - rewrite Hv. done.
  - unfold closed. rewrite Hv. done.
Qed.

Lemma ended_run es : forall p s,
  p_valid p = false ->
  let '(p', s') := run st callback es (p, s) in
  p_valid p' = false /\ p_result p' = p_result p /\ s' = s /\ p_trace p' = p_trace p.
Proof.
  induction es as [|e es IH]; intros p s Hv; cbn [run foldl]; [done|].
  pose proof (ended_step e p s Hv) as Hs.
  destruct (step st callback e (p, s)) as [p1 s1]. destruct Hs as (Hv1 & Hr1 & -> & Ht1).
  specialize (IH p1 s Hv1). unfold run in IH. destruct (foldl _ (p1, s) es) as [p' s'].
  destruct IH as (? & ? & ? & ?). repeat split; congruence.
Qed.

Lemma squash_concat b : squash true b = concat (b_blocks b).
Proof.
  unfold squash. by rewrite join_data_concat by (by left).
Qed.

(** A process settles its promise exactly when its channel closes, with
    success when the close message has neither a problem nor an exit status
    other than 0 nor a signal.  Nothing of the output is lost: what the stream
    callback took and the data of the promise are together all that was
    received (only a problem drops the data that was not streamed), and
    whatever happens afterwards changes neither. *)
Theorem spawn_settles command options binary es o rest s :
  forallb (fun e => negb (is_end e)) es = true -> eaten s = [] ->
  p_result (fst (run st callback es (spawn command options binary, s))) = None /\
  let '(p, s') := run st callback (es ++ EvClosed o :: rest) (spawn command options binary, s) in
  exists r, p_result p = Some r /\ is_resolved r = succeeds o /\
    match outcome_data r with
    | Some data => eaten s' ++ data = received es
    | None => truthy (prop o "problem") = true /\ eaten s' `prefix_of` received es
    end.
Proof.
  intros He Hs. set (p0 := spawn command options binary).
  assert (running [] p0 s) as H0 by (split; cbn; [done..|by rewrite Hs]).
  pose proof (running_run es [] p0 s He H0) as Hr. unfold run in *. rewrite foldl_app.
  destruct (foldl _ (p0, s) es) as [p1 s1]. destruct Hr as [[Hv Ho Hn Hd] _]. cbn [app] in Hd. split; [done|].
  cbn [foldl step]. set (p2 := closed st o p1).
  pose proof (ended_run rest p2 s1) as He2. unfold run in He2.
  destruct (foldl _ (p2, s1) rest) as [p3 s3].
  destruct He2 as (_ & -> & -> & _); [unfold p2, closed; by rewrite Hv|].
  unfold p2, closed. rewrite Hv. unfold on_close, succeeds. cbn. rewrite Hn. cbn.
  change (squash true (Buffer.on_close (p_buffer p1))) with (squash true (p_buffer p1)). rewrite squash_concat.
  eexists. split; [reflexivity|].
  destruct (truthy (prop o "problem")); cbn; [split; [done|]; split; [done|]|].
  { rewrite <- Hd. by apply prefix_app_r. }
  destruct (truthy (prop o "exit-status")); cbn; [done|].
  destruct (truthy (prop o "exit-signal")); cbn; [done|]. by destruct (prop o "message").
Qed.

End Outcome.

Lemma spawn_settles_witness :
  let '(p, _) := run initial_locale (fun (s : unit) block => (s, Some 0))
    [EvMessage [104; 105]; EvMessage [33]; EvClosed {["exit-status" := JNum 2]}]
    (spawn (JArr [JStr "cat"]) ∅ false, tt) in
  exists r, p_result p = Some r /\ is_resolved r = false /\ outcome_data r = Some [104; 105; 33].
Proof.
  destruct (spawn_settles initial_locale (fun (s : unit) block => (s, Some 0)) (fun _ => [])
    ltac:(intros s block; split; [unfold zlen; lia|reflexivity])
    (JArr [JStr "cat"]) ∅ false [EvMessage [104; 105]; EvMessage [33]]
    {["exit-status" := JNum 2]} [] tt eq_refl eq_refl) as [_ H].
  cbn [app] in H. destruct (run _ _ _ _) as [p s]. destruct H as (r & H1 & H2 & H3).
  exists r. split; [exact H1|]. split; [exact H2|].
  destruct (outcome_data r) as [data|].
  - cbn in H3. rewrite H3. reflexivity.
  - destruct H3 as [H3 _]. discriminate.
Defined.
