(* ===== verification/Http.v ===== *)
(** * HTTP clients (src/src/base1/cockpit.js, [find_header], [HttpClient])

    Each request is an "http-stream2" channel: a response control message with
    the status and headers, the body through a channel buffer, and a close. *)

From S2P Require Import Prelude Buffer Uri Location Locale.

(** ** Headers and parameters *)

Definition lower (c : ascii) : ascii :=
  let n := nat_of_ascii c in if Nat.leb 65 n && Nat.leb n 90 then ascii_of_nat (n + 32) else c.

Fixpoint toLowerCase (s : string) : string :=
  match s with EmptyString => "" | String c s => String (lower c) (toLowerCase s) end.

(** [for (var head in headers)], in the order of the object. *)
Fixpoint find_header_loop (headers : list (string * jval)) (name : string) : jval :=
  match headers with
  | [] => JUndef
  | (head, v) :: headers =>
      if String.eqb (toLowerCase head) name then v else find_header_loop headers name
  end.

Definition find_header (headers : jval) (name : string) : jval :=
  match headers with
  | JObj f => find_header_loop f (toLowerCase name)
  | _ => JUndef
  end.

(** [param(obj)]; a space is a plus sign. *)
Definition param (obj : list (string * jval)) : string :=
  of_bytes (replace_all (bytes_of "%20") (bytes_of "+") 0 (bytes_of
    (str_join "&" (map (fun kv => encodeURIComponent (fst kv) +:+ "=" +:+ encodeURIComponent (js_String (snd kv))) obj)))).

(** ** The client *)

(** The endpoint of [HttpClient]: a socket path, or a port; [None] throws. *)
Definition endpoint_options (endpoint : jval) (options : jobj) : option jobj :=
  match endpoint with
  | JUndef => Some options
  | JStr (String "/" _) => Some (<["unix" := endpoint]> options)
  | v => port ← parseInt v; Some (<["port" := JNum port]> options)
  end.

Definition add_capability (options : jobj) : jobj :=
  if truthy (prop options "address") then
    let old := match prop options "capabilities" with JArr l => l | _ => [] end in
    <["capabilities" := JArr (old ++ [JStr "address"])]> options
  else options.

Definition client_options (endpoint : jval) (options : jobj) : option jobj :=
  options ← endpoint_options endpoint (<["payload" := JStr "http-stream2"]> options);
  Some (add_capability options).

Definition fields_of (v : jval) : list (string * jval) := match v with JObj f => f | _ => [] end.
Definition jobj_of (v : jval) : jobj := list_to_map (fields_of v).

(** The combined headers of a request. *)
Definition combine_headers (options : jobj) (headers : jval) : jval :=
  if truthy (prop options "headers") && truthy headers
  then JObj (map_to_list (extend (extend ∅ (jobj_of (prop options "headers"))) (jobj_of headers)))
  else if truthy (prop options "headers") then prop options "headers"
  else headers.

(** Path and query of a request. *)
Definition request_path (req : jobj) : string :=
  let path := if truthy (prop req "path") then js_String (prop req "path") else "/" in
  if truthy (prop req "params") then
    path +:+ (if index_of (bytes_of "?") (bytes_of path) =? -1 then "?" else "&") +:+
    param (fields_of (prop req "params"))
  else path.

(** The options of the request's channel, and its body. *)
Definition request_options (options req : jobj) : jobj * jval :=
  let headers := prop req "headers" in
  let method := if truthy (prop req "method") then prop req "method" else JStr "GET" in
  let path := JStr (request_path req) in
  let r := extend (<["path" := path]> (<["method" := method]>
             (delete "params" (delete "body" (delete "headers" req))))) options in
  (<["headers" := combine_headers options headers]> r, prop req "body").

Section Http.

Context (JSON_stringify : jval -> string).

(** [self.get] and [self.post] as requests. *)
Definition get (path params headers : jval) : jobj :=
  {["method" := JStr "GET"; "params" := params; "path" := path; "body" := JStr ""; "headers" := headers]}.

Definition post_body (body headers : jval) : jval * jval :=
  match body with
  | JObj _ | JArr _ =>
      (JStr (JSON_stringify body),
       match find_header headers "Content-Type" with
       | JUndef => JObj (assoc_set "Content-Type" (JStr "application/json") (fields_of headers))
       | _ => headers
       end)
  | JUndef | JNull => (JStr "", headers)
  | JStr _ => (body, headers)
  | v => (JStr (js_String v), headers)
  end.

Definition post (path body headers : jval) : jobj :=
  let headers := if truthy headers then headers else JObj [] in
  let '(body, headers) := post_body body headers in
  {["method" := JStr "POST"; "path" := path; "body" := body; "headers" := headers]}.

(** ** Requests *)

Inductive http_outcome := HResolved (body : list Z) | HRejected (ex : error) (body : option (list Z)).

Inductive http_effect :=
  | HOpen (r : nat) (options : jobj) | HSend (r : nat) (data : jval) | HDone (r : nat)
  | HClose (r : nat) (problem : string) | HResponser (r f : nat) (status headers : jval)
  | HSettle (r : nat) (o : http_outcome).

(** A request: [r_open] while its channel is valid, the response, whether
    there is a streamer, the response callbacks, the body that waits. *)
Record request := mk_request {
  r_open : bool; r_binary : bool; r_resp : option jobj; r_streamer : bool;
  r_responsers : list nat; r_buffer : buffer }.

#[local] Instance request_settable : Settable request := fun r =>
  mk_request (r_open r) (r_binary r) (r_resp r) (r_streamer r) (r_responsers r) (r_buffer r).

Record http := mk_http {
  h_options : jobj; h_requests : gmap nat request; h_active : list nat; h_next : nat;
  h_trace : list http_effect }.

#[local] Instance http_settable : Settable http := fun h =>
  mk_http (h_options h) (h_requests h) (h_active h) (h_next h) (h_trace h).

Definition new_http (options : jobj) : http := mk_http options ∅ [] 0 [].

Definition emit (e : http_effect) (h : http) : http := h <| h_trace ::= (fun t => t ++ [e]) |>.

(** [self.request(req)].  The buffer's callback is always set. *)
Definition request_ (req : jobj) (binary : bool) (h : http) : http :=
  let '(options, input) := request_options (h_options h) req in
  let r := h_next h in
  let h := emit (HOpen r options) h in
  let h := match input with
           | JUndef => h
           | _ => emit (HDone r) (if is_str input "" then h else emit (HSend r input) h)
           end in
  h <| h_requests ::= <[r := mk_request true binary None false [] (mk_buffer binary true [] true)]> |>
    <| h_active ::= (fun l => l ++ [r]) |> <| h_next := S r |>.

Definition upd_request (r : nat) (f : request -> request) (h : http) : http :=
  h <| h_requests ::= alter f r |>.

(** [ret.stream], [ret.response], [ret.input]. *)
Definition set_streamer (r : nat) (h : http) : http := upd_request r (fun q => q <| r_streamer := true |>) h.

Definition add_responser (r f : nat) (h : http) : http :=
  upd_request r (fun q => q <| r_responsers ::= (fun l => l ++ [f]) |>) h.

Definition is_open (r : nat) (h : http) : bool :=
  match h_requests h !! r with Some q => r_open q | None => false end.

Definition input (r : nat) (message : jval) (more : bool) (h : http) : http :=
  if is_open r h then
    let h := match message with JNull | JUndef => h | m => emit (HSend r m) h end in
    if more then h else emit (HDone r) h
  else h.

(** Comparisons of a status with a number; what is not a number compares false. *)
Definition status_num (resp : jobj) : option Z := match prop resp "status" with JNum z => Some z | _ => None end.

Definition status_ok (resp : jobj) : bool :=
  match status_num resp with Some z => (200 <=? z) && (z <=? 299) | None => false end.

Definition status_bad (resp : jobj) : bool :=
  match status_num resp with Some z => (z <? 200) || (299 <? z) | None => false end.

(** [on_control]. *)
Definition on_control (r : nat) (options : jobj) (h : http) : http :=
  match h_requests h !! r with
  | None => h
  | Some q =>
      if r_open q && is_str (prop options "command") "response" then
        match r_responsers q with
        | [] => upd_request r (fun q => q <| r_resp := Some options |>) h
        | fs =>
            let headers := if truthy (prop options "headers") then prop options "headers" else JObj [] in
            let resp := <["headers" := headers]> options in
            upd_request r (fun q => q <| r_resp := Some resp |>)
              (h <| h_trace ::= (fun t => t ++ map (fun f => HResponser r f (prop resp "status") headers) fs) |>)
        end
      else h
  end.

(** [on_close]: how the promise settles. *)
Definition http_outcome_of (st : locale_state) (q : request) (options : jobj) : http_outcome :=
  if truthy (prop options "problem") then HRejected (basic_error st (prop options "problem") JUndef) None
  else
    let body := squash true (r_buffer q) in
    match r_resp q with
    | Some resp =>
        if status_bad resp then
          let type := find_header (prop resp "headers") "Content-Type" in
          let message :=
            match type with
            | JStr t => if negb (String.eqb t "") && negb (r_binary q) && String.prefix "text/plain" t
                        then JStr (of_bytes body) else JUndef
            | _ => JUndef
            end in
          HRejected (http_error (parseInt (prop resp "status")) (prop resp "reason") message) (Some body)
        else HResolved body
    | None => HResolved body
    end.

(** [active_requests.splice(pos, 1)]: the first occurrence. *)
Fixpoint remove_first (r : nat) (l : list nat) : list nat :=
  match l with
  | [] => []
  | x :: l => if Nat.eqb x r then l else x :: remove_first r l
  end.

Context (st : locale_state).

Definition on_close (r : nat) (options : jobj) (h : http) : http :=
  match h_requests h !! r with
  | None => h
  | Some q =>
      if r_open q then
        emit (HSettle r (http_outcome_of st q options))
          (upd_request r (fun q => q <| r_open := false |> <| r_buffer ::= Buffer.on_close |>) h
             <| h_active ::= remove_first r |>)
      else h
  end.

(** [ret.close(problem)]: the channel dispatches its close event at once. *)
Definition close_request (problem : string) (r : nat) (h : http) : http :=
  if is_open r h then
    on_close r (if String.eqb problem "" then ∅ else {["problem" := JStr problem]})
      (emit (HClose r problem) h)
  else h.

(** [self.close]: over a copy of the active requests. *)
Definition close (problem : string) (h : http) : http :=
  foldl (fun h r => close_request problem r h) h (h_active h).

End Http.

#[export] Existing Instances request_settable http_settable.

(** ** Messages and the streamer *)

Section Stream.

Context {S : Type} (streamer : S -> list Z -> S * option Z).

(** The callback of the request's buffer: until the response says success and
    there is a streamer nothing is consumed. *)
Definition http_callback (q : request) (s : S) (data : list Z) : S * option Z :=
  match r_resp q with
  | Some resp => if status_ok resp && r_streamer q then streamer s data else (s, Some 0)
  | None => (s, Some 0)
  end.

Definition on_message (r : nat) (data : list Z) (h : http) (s : S) : http * S :=
  match h_requests h !! r with
  | None => (h, s)
  | Some q =>
      if r_open q then
        let '(b, s) := deliver true (http_callback q) (r_buffer q) s data in
        (upd_request r (fun q => q <| r_buffer := b |>) h, s)
      else (h, s)
  end.

End Stream.
