(* ===== verification/HttpSpec.v ===== *)
(** * Requests are settled once, parameters survive

    Properties of [Http.v]: a server that decodes the query of a request gets
    the parameters back, and every request settles exactly once. *)

From S2P Require Import Prelude Buffer Uri Location LocationSpec Locale Http.

(** ** Parameters *)

(** How a server reads a query: "application/x-www-form-urlencoded". *)
Definition plus_to_space (s : string) : string :=
  of_bytes (map (fun b => if b =? 43 then 32 else b) (bytes_of s)).

Definition form_decode (query : string) : option (list (string * string)) :=
  mapM (fun entry => '(k, v) ← str_cut "=" entry;
          k ← decodeURIComponent (plus_to_space k);
          v ← decodeURIComponent (plus_to_space v); Some (k, v)) (str_split "&" query).

(** A space is written as a plus sign, in tokens. *)
Definition plus_tok (t : tok) : tok := if bool_decide (t = Esc 32) then Raw 43 else t.
Definition plus_toks (s : string) : list tok := map plus_tok (enc_toks s).

Lemma replace_space_render l :
  Forall tok_ok l ->
  replace_all (bytes_of "%20") (bytes_of "+") 0 (render l) = render (map plus_tok l).
Proof.
  change (bytes_of "%20") with (render_tok (Esc 32)). change (bytes_of "+") with [43].
  induction 1 as [|t l Ht Hl IH]; [done|].
  unfold render in *. cbn [map concat]. rewrite <- IH. unfold plus_tok.
  pose proof (prefix_esc 32 t (concat (map render_tok l)) ltac:(unfold is_byte; lia) Ht) as Hp.
  case_bool_decide as E.
  - subst t. cbn [render_tok app] in *. by rewrite replace_all_cons, Hp.
  - destruct t as [b|b]; cbn [render_tok app] in *.
    + by rewrite (replace_all_skip 32) by by destruct Ht.
    + cbn in Ht. destruct (hex_parts b Ht). rewrite replace_all_cons, Hp.
      f_equal. rewrite !(replace_all_skip 32) by by apply hex_not_pct. done.
Qed.

Lemma enc_toks_string_ok s : Forall tok_ok (enc_toks s).
Proof. apply enc_toks_ok, bytes_of_byte. Qed.

Lemma plus_toks_ok s : Forall tok_ok (plus_toks s).
Proof.
  apply Forall_fmap. eapply Forall_impl; [apply enc_toks_string_ok|].
  intros t Ht. cbn. unfold plus_tok. case_bool_decide; [cbn; unfold is_byte; lia|done].
Qed.

Lemma plus_toks_raw c s : uri_unreserved c = false -> c <> 43 -> Raw c ∉ plus_toks s.
Proof.
  intros Hc H43 (t & E & Hin)%list_elem_of_fmap. unfold plus_tok in E.
  case_bool_decide; [congruence|]. subst t. by apply (enc_toks_raw c s) in Hin.
Qed.

(** Undoing the plus signs leaves a text that decodes to the string. *)
Definition space_tok (t : tok) : tok := if bool_decide (t = Esc 32) then Raw 32 else t.

Lemma plus_to_space_render s :
  plus_to_space (of_bytes (render (plus_toks s))) = of_bytes (render (map space_tok (enc_toks s))).
Proof.
  unfold plus_to_space. rewrite bytes_of_of by apply render_byte, plus_toks_ok. f_equal.
  unfold plus_toks. pose proof (enc_toks_string_ok s) as Hok.
  assert (Raw 43 ∉ enc_toks s) as Hp by by apply enc_toks_raw.
  induction Hok as [|t l Ht _ IH]; [done|].
  apply not_elem_of_cons in Hp as [Hne Hp]. specialize (IH Hp).
  unfold render in *. cbn [map concat]. rewrite map_app, IH. f_equal.
  unfold plus_tok, space_tok. case_bool_decide; [done|].
  destruct t as [b|b]; cbn [render_tok map].
  - rewrite (proj2 (Z.eqb_neq b 43)); [done|congruence].
  - cbn in Ht. destruct (hex_parts b Ht).
    assert (forall n, 0 <= n < 16 -> (hex_digit n =? 43) = false) as Hh.
    { intros n Hn. apply Z.eqb_neq. unfold hex_digit. case_match; lia. }
    by rewrite !Hh by done.
Qed.

Lemma space_toks_sim l : Forall2 tok_sim (map space_tok (map enc_tok l)) (map Esc l).
Proof.
  induction l as [|b l IH]; cbn; constructor; [|done]. unfold space_tok.
  case_bool_decide as E; [|apply enc_tok_sim]. unfold enc_tok in E.
  destruct (uri_unreserved b); [done|]. injection E as ->. split; cbn; [done|lia].
Qed.

Lemma form_value_roundtrip s :
  utf8_valid (bytes_of s) ->
  decodeURIComponent (plus_to_space (of_bytes (render (plus_toks s)))) = Some s.
Proof.
  intros Hv. rewrite plus_to_space_render, decode_render.
  2: { apply Forall_fmap. eapply Forall_impl; [apply enc_toks_string_ok|].
       intros t Ht. cbn. unfold space_tok. case_bool_decide; [cbn; unfold is_byte; lia|done]. }
  rewrite (scan_sim _ _ (space_toks_sim (bytes_of s))), scan_valid by done. cbn. by rewrite of_bytes_of.
Qed.

(** One parameter, encoded. *)
Definition form_entry (kv : string * jval) : string :=
  of_bytes (render (plus_toks (fst kv))) +:+ "=" +:+ of_bytes (render (plus_toks (js_String (snd kv)))).

Definition entry_toks (kv : string * jval) : list tok :=
  enc_toks (fst kv) ++ Raw 61 :: enc_toks (js_String (snd kv)).

Fixpoint form_toks (obj : list (string * jval)) : list tok :=
  match obj with
  | [] => []
  | [kv] => entry_toks kv
  | kv :: obj => entry_toks kv ++ Raw 38 :: form_toks obj
  end.

Lemma entry_toks_ok kv : Forall tok_ok (entry_toks kv).
Proof.
  apply Forall_app. split; [apply enc_toks_string_ok|].
  constructor; [cbn; unfold is_byte; lia|apply enc_toks_string_ok].
Qed.

Lemma form_toks_ok obj : Forall tok_ok (form_toks obj).
Proof.
  induction obj as [|kv [|kv' obj] IH]; [constructor|apply entry_toks_ok|].
  change (form_toks (kv :: kv' :: obj)) with (entry_toks kv ++ Raw 38 :: form_toks (kv' :: obj)).
  apply Forall_app. split; [apply entry_toks_ok|]. constructor; [cbn; unfold is_byte; lia|done].
Qed.

Lemma encode_bytes s : bytes_of (encodeURIComponent s) = render (enc_toks s).
Proof. unfold encodeURIComponent. apply bytes_of_of, render_byte, enc_toks_string_ok. Qed.

Lemma entry_bytes kv :
  bytes_of (encodeURIComponent (fst kv) +:+ "=" +:+ encodeURIComponent (js_String (snd kv))) =
  render (entry_toks kv).
Proof. unfold entry_toks. by rewrite !bytes_of_app, !encode_bytes, render_app. Qed.

Lemma form_bytes obj :
  bytes_of (str_join "&" (map (fun kv => encodeURIComponent (fst kv) +:+ "=" +:+
    encodeURIComponent (js_String (snd kv))) obj)) = render (form_toks obj).
Proof.
  induction obj as [|kv [|kv' obj] IH]; [done|apply entry_bytes|].
  change (form_toks (kv :: kv' :: obj)) with (entry_toks kv ++ Raw 38 :: form_toks (kv' :: obj)).
  cbn [map str_join] in *. rewrite bytes_of_app, entry_bytes, bytes_of_app, render_app, IH. done.
Qed.

Lemma plus_entry kv :
  of_bytes (render (map plus_tok (entry_toks kv))) = form_entry kv.
Proof.
  unfold entry_toks, form_entry. by rewrite map_app, render_app, of_bytes_app.
Qed.

Lemma param_entries obj : param obj = str_join "&" (map form_entry obj).
Proof.
  unfold param. rewrite form_bytes, replace_space_render by apply form_toks_ok.
  induction obj as [|kv [|kv' obj] IH]; [done|apply plus_entry|].
  change (form_toks (kv :: kv' :: obj)) with (entry_toks kv ++ Raw 38 :: form_toks (kv' :: obj)).
  rewrite map_app, render_app, of_bytes_app, plus_entry.
  change (str_join "&" (map form_entry (kv :: kv' :: obj))) with
    (form_entry kv +:+ "&" +:+ str_join "&" (map form_entry (kv' :: obj))).
  f_equal. rewrite <- IH.
  change (render (map plus_tok (Raw 38 :: ?l))) with ([38] ++ render (map plus_tok l)).
  by rewrite of_bytes_app.
Qed.

Lemma plus_toks_sep c s : separator c -> uri_unreserved c = false -> c <> 43 ->
  c ∉ bytes_of (of_bytes (render (plus_toks s))).
Proof.
  intros Hs Hu H43. rewrite bytes_of_of by apply render_byte, plus_toks_ok.
  apply render_sep; [done|apply plus_toks_ok|by apply plus_toks_raw].
Qed.

Lemma form_entry_no_amp kv : 38 ∉ bytes_of (form_entry kv).
Proof.
  unfold form_entry. rewrite !bytes_of_app, !elem_of_app. intros [H|[H|H]].
  - by apply plus_toks_sep in H; [|apply separator_38|..].
  - by apply list_elem_of_singleton in H.
  - by apply plus_toks_sep in H; [|apply separator_38|..].
Qed.

Definition valid_param (kv : string * jval) : Prop :=
  utf8_valid (bytes_of (fst kv)) /\ utf8_valid (bytes_of (js_String (snd kv))).

Lemma form_entry_cut kv :
  str_cut "=" (form_entry kv) =
  Some (of_bytes (render (plus_toks (fst kv))), of_bytes (render (plus_toks (js_String (snd kv))))).
Proof. apply str_cut_app, str_mem_not, (plus_toks_sep 61); [apply separator_61|done|lia]. Qed.

(** The parameters of a request survive their encoding: whatever characters
    their names and values have, a server that reads the query as a form gets
    exactly the names and the values as strings, in order. *)
Theorem param_roundtrip obj :
  obj <> [] -> Forall valid_param obj ->
  form_decode (param obj) = Some (map (fun kv => (fst kv, js_String (snd kv))) obj).
Proof.
  intros Hne Hv. unfold form_decode. rewrite param_entries, str_split_join.
  - clear Hne. induction Hv as [|kv obj [Hk Hval] _ IH]; [done|].
    cbn [map mapM]. rewrite form_entry_cut. cbn [mbind option_bind]. rewrite !form_value_roundtrip by done. cbn [mbind option_bind].
    by rewrite IH.
  - by destruct obj.
  - apply Forall_forall. intros s (kv & -> & _)%list_elem_of_fmap. apply form_entry_no_amp.
Qed.

Lemma ascii_valid l : forallb (fun b => (0 <=? b) && (b <? 128)) l = true -> utf8_valid l.
Proof.
  induction l as [|b l IH]; cbn [forallb]; [constructor|]. intros [Hb Hl]%andb_true_iff.
  by apply (utf8_seq [b] l); [|apply IH].
Qed.

Lemma param_roundtrip_witness :
  form_decode (param [("q", JStr "a b+c&d=%20"); ("n", JNum 7)]) =
  Some [("q", "a b+c&d=%20"); ("n", "7")].
Proof.
  refine (param_roundtrip [("q", JStr "a b+c&d=%20"); ("n", JNum 7)] _ _); [discriminate|].
  apply Forall_cons_2; [|apply Forall_cons_2; [|apply Forall_nil_2]];
    split; apply ascii_valid; vm_compute; reflexivity.
Defined.

(** ** Every request settles once *)

(** Everything that can happen to a client with its requests. *)
Inductive action :=
  | ARequest (req : jobj) (binary : bool) | AStream (r : nat) | AResponse (r f : nat)
  | AInput (r : nat) (message : jval) (more : bool) | ACloseRequest (r : nat) (problem : string)
  | AClose (problem : string)
  | AOnControl (r : nat) (options : jobj) | AOnMessage (r : nat) (data : list Z)
  | AOnClose (r : nat) (options : jobj).

Section Accounting.

Context {S : Type} (st : locale_state) (streamer : S -> list Z -> S * option Z).

Definition act (a : action) (hs : http * S) : http * S :=
  let '(h, s) := hs in
  match a with
  | ARequest req binary => (request_ req binary h, s)
  | AStream r => (set_streamer r h, s)
  | AResponse r f => (add_responser r f h, s)
  | AInput r m more => (Http.input r m more h, s)
  | ACloseRequest r problem => (close_request st problem r h, s)
  | AClose problem => (Http.close st problem h, s)
  | AOnControl r o => (on_control r o h, s)
  | AOnMessage r data => on_message streamer r data h s
  | AOnClose r o => (Http.on_close st r o h, s)
  end.

Definition run (acts : list action) (hs : http * S) : http * S := foldl (fun hs a => act a hs) hs acts.

(** How often a request has settled. *)
Definition settles (r : nat) (e : http_effect) : bool :=
  match e with HSettle r' _ => Nat.eqb r' r | _ => false end.

Definition settled (r : nat) (h : http) : nat :=
  length (filter (fun e => settles r e = true) (h_trace h)).

Record inv (h : http) : Prop := {
  i_nodup : NoDup (h_active h);
  i_active : forall r, r ∈ h_active h <-> is_open r h = true;
  i_known : forall r, is_Some (h_requests h !! r) <-> (r < h_next h)%nat;
  i_settled : forall r, settled r h = if (r <? h_next h)%nat && negb (is_open r h) then 1%nat else 0%nat }.

(** What neither opens, closes nor settles anything. *)
Record same (h h' : http) : Prop := {
  s_active : h_active h' = h_active h; s_next : h_next h' = h_next h;
  s_known : forall r, is_Some (h_requests h' !! r) <-> is_Some (h_requests h !! r);
  s_open : forall r, is_open r h' = is_open r h; s_settled : forall r, settled r h' = settled r h }.

Lemma same_inv h h' : same h h' -> inv h -> inv h'.
Proof.
  intros [H1 H2 H3 H4 H5] [I1 I2 I3 I4]. split.
  - by rewrite H1.
  - intros r. by rewrite H1, H4.
  - intros r. by rewrite H2, H3.
  - intros r. by rewrite H2, H4, H5.
Qed.

Lemma same_refl h : same h h.
Proof. by split. Qed.

Lemma same_trans h1 h2 h3 : same h1 h2 -> same h2 h3 -> same h1 h3.
Proof.
  intros [A1 A2 A3 A4 A5] [B1 B2 B3 B4 B5]. split; [congruence|congruence|..]; intros r;
    rewrite ?B3, ?B4, ?B5; auto.
Qed.

Lemma trace_same h es :
  Forall (fun e => match e with HSettle _ _ => False | _ => True end) es ->
  same h (h <| h_trace ::= (fun t => t ++ es) |>).
Proof.
  intros Hes. split; try done. intros r. unfold settled. cbn. rewrite filter_app, length_app.
  replace (filter _ es) with (@nil http_effect); [cbn; lia|]. symmetry.
  induction Hes as [|e es He _ IH]; [done|]. rewrite filter_cons. by destruct e.
Qed.

Lemma emit_same e h : match e with HSettle _ _ => False | _ => True end -> same h (emit e h).
Proof. intros He. by apply (trace_same h [e]), Forall_singleton. Qed.

Lemma upd_same r f h : (forall q, r_open (f q) = r_open q) -> same h (upd_request r f h).
Proof.
  intros Hf. split; try done; intros r'; unfold is_open, upd_request; cbn.
  - by rewrite lookup_alter_is_Some.
  - destruct (decide (r = r')) as [->|]; [|by rewrite lookup_alter_ne].
    rewrite lookup_alter_eq. destruct (h_requests h !! r'); cbn; [apply Hf|done].
Qed.

Lemma input_same r m more h : same h (Http.input r m more h).
Proof.
  unfold Http.input. destruct (is_open r h); [|apply same_refl].
  eapply same_trans; [|destruct more; [apply same_refl|by apply emit_same]].
  destruct m; try (by apply emit_same); apply same_refl.
Qed.

Lemma on_control_same r o h : same h (on_control r o h).
Proof.
  unfold on_control. destruct (h_requests h !! r) as [q|]; [|apply same_refl].
  destruct (r_open q && _); [|apply same_refl].
  destruct (r_responsers q) as [|f fs]; [by apply upd_same|].
  eapply same_trans; [|by apply upd_same]. apply trace_same.
  apply Forall_forall. by intros e (x & -> & _)%list_elem_of_fmap.
Qed.

Lemma on_message_same r data h s : same h (fst (on_message streamer r data h s)).
Proof.
  unfold on_message. destruct (h_requests h !! r) as [q|]; [|apply same_refl].
  destruct (r_open q); [|apply same_refl].
  destruct (deliver _ _ _ _ _) as [b s']. by apply upd_same.
Qed.

Lemma request_inv req binary h : inv h -> inv (request_ req binary h).
Proof.
  unfold request_. destruct (request_options (h_options h) req) as [o input].
  set (h1 := emit (HOpen (h_next h) o) h).
  set (h2 := match input with JUndef => h1 | _ => emit (HDone (h_next h)) _ end).
  assert (same h h2) as Hs.
  { apply (same_trans h h1); [by apply emit_same|]. unfold h2. generalize (h_next h) as r. intros r.
    destruct input; try apply same_refl; (eapply same_trans; [|by apply emit_same]);
      case_match; first [apply same_refl|by apply emit_same]. }
  clearbody h2. clear h1. rewrite <- (s_next _ _ Hs). intros Hi%(same_inv _ _ Hs). clear Hs.
  destruct Hi as [I1 I2 I3 I4].
  assert (h_requests h2 !! h_next h2 = None) as Hnone.
  { destruct (h_requests h2 !! h_next h2) eqn:E; [|done]. specialize (I3 (h_next h2)).
    rewrite E in I3. assert (h_next h2 < h_next h2)%nat by (apply I3; eauto). lia. }
  split; cbn -[Nat.ltb].
  - apply NoDup_app. split; [done|]. split; [|apply NoDup_singleton].
    intros r Hr ->%list_elem_of_singleton. apply I2 in Hr. unfold is_open in Hr. by rewrite Hnone in Hr.
  - intros r. rewrite elem_of_app, list_elem_of_singleton, I2. unfold is_open. cbn -[Nat.ltb].
    destruct (decide (r = h_next h2)) as [->|Hne].
    + rewrite lookup_insert_eq, Hnone. cbn. naive_solver.
    + rewrite lookup_insert_ne by congruence. naive_solver.
  - intros r. destruct (decide (r = h_next h2)) as [->|Hne].
    + rewrite lookup_insert_eq. split; [lia|eauto].
    + rewrite lookup_insert_ne, I3 by congruence. lia.
  - intros r. etransitivity; [exact (I4 r)|]. unfold is_open. cbn -[Nat.ltb].
    destruct (decide (r = h_next h2)) as [->|Hne].
    + rewrite lookup_insert_eq. cbn [r_open negb]. rewrite andb_false_r.
      by rewrite (proj2 (Nat.ltb_ge (h_next h2) (h_next h2))) by lia.
    + rewrite lookup_insert_ne by congruence.
      destruct (Nat.ltb_spec r (h_next h2)), (Nat.ltb_spec r (Datatypes.S (h_next h2))); try done; lia.
Qed.

Lemma remove_first_elem r l : NoDup l -> NoDup (remove_first r l) /\
  forall x, x ∈ remove_first r l <-> x ∈ l /\ x <> r.
Proof.
  induction 1 as [|y l Hy Hl [IH1 IH2]]; cbn.
  { split; [constructor|]. intros x. split; [intros H; by inversion H|]. intros [H _]. by inversion H. }
  destruct (Nat.eqb_spec y r) as [->|Hne].
  - split; [done|]. intros x. rewrite elem_of_cons. split.
    + intros Hx. split; [by right|]. intros ->. done.
    + intros [[->|Hx] Hn]; done.
  - split; [constructor; [rewrite IH2; tauto|done]|].
    intros x. rewrite !elem_of_cons, IH2. split; [intros [->|[? ?]]; auto|naive_solver].
Qed.

Lemma settled_snoc r h e : settled r (emit e h) = (settled r h + if settles r e then 1 else 0)%nat.
Proof.
  unfold settled, emit. cbn -[filter]. rewrite filter_app, length_app, filter_cons, filter_nil.
  destruct (settles r e) eqn:E; case_decide; congruence || done.
Qed.

Lemma http_on_close_inv r o h : inv h -> inv (Http.on_close st r o h).
Proof.
  unfold Http.on_close. intros [I1 I2 I3 I4].
  destruct (h_requests h !! r) as [q|] eqn:Eq; [|by split].
  destruct (r_open q) eqn:Eo; [|by split].
  set (h1 := upd_request r _ h <| h_active ::= remove_first r |>).
  assert (forall r', is_open r' h1 = is_open r' h && negb (Nat.eqb r' r)) as Hopen.
  { intros r'. unfold is_open, h1. cbn. destruct (Nat.eqb_spec r' r) as [->|Hne].
    - rewrite lookup_alter_eq, Eq. cbn. by rewrite andb_false_r.
    - rewrite lookup_alter_ne by congruence. by rewrite andb_true_r. }
  assert (is_open r h = true) as Hr by (unfold is_open; by rewrite Eq).
  assert (r < h_next h)%nat as Hlt by (apply I3; rewrite Eq; eauto).
  destruct (remove_first_elem r (h_active h) I1) as [Hn He].
  split.
  - exact Hn.
  - intros r'. change (is_open r' (emit _ h1)) with (is_open r' h1). rewrite Hopen.
    change (h_active (emit _ h1)) with (remove_first r (h_active h)). rewrite He, I2.
    rewrite andb_true_iff, negb_true_iff, Nat.eqb_neq. done.
  - intros r'. change (h_requests (emit _ h1)) with (h_requests h1). unfold h1, upd_request. cbn.
    by rewrite lookup_alter_is_Some.
  - intros r'. rewrite settled_snoc. change (settled r' h1) with (settled r' h). rewrite I4.
    change (is_open r' (emit _ h1)) with (is_open r' h1). change (h_next (emit _ h1)) with (h_next h).
    rewrite Hopen. cbn [settles]. rewrite (Nat.eqb_sym r r').
    destruct (Nat.eqb_spec r' r) as [->|Hne]; [|by rewrite andb_true_r, Nat.add_0_r].
    rewrite Hr, (proj2 (Nat.ltb_lt _ _) Hlt). done.
Qed.

Lemma close_request_inv problem r h : inv h -> inv (close_request st problem r h).
Proof.
  unfold close_request. intros Hi. destruct (is_open r h); [|done].
  apply http_on_close_inv. eapply same_inv; [|exact Hi]. by apply emit_same.
Qed.

Lemma http_act_inv a h s : inv h -> inv (fst (act a (h, s))).
Proof.
  intros Hi. destruct a; cbn [act fst].
  - by apply request_inv.
  - eapply same_inv; [|exact Hi]. by apply upd_same.
  - eapply same_inv; [|exact Hi]. by apply upd_same.
  - eapply same_inv; [|exact Hi]. apply input_same.
  - by apply close_request_inv.
  - unfold Http.close. generalize (h_active h). intros l. revert h Hi.
    induction l as [|r l IH]; intros h Hi; cbn; [done|]. apply IH. by apply close_request_inv.
  - eapply same_inv; [|exact Hi]. apply on_control_same.
  - eapply same_inv; [|exact Hi]. apply on_message_same.
  - by apply http_on_close_inv.
Qed.

Lemma http_run_inv acts : forall h s, inv h -> inv (fst (run acts (h, s))).
Proof.
  induction acts as [|a acts IH]; intros h s Hi; cbn [run foldl]; [done|].
  pose proof (http_act_inv a h s Hi) as Ha. destruct (act a (h, s)) as [h1 s1]. by apply IH.
Qed.

Lemma new_http_inv options : inv (new_http options).
Proof.
  split; cbn.
  - constructor.
  - intros r. unfold is_open. cbn. split; [intros H; by inversion H|done].
  - intros r. split; [intros [x Hx]; done|lia].
  - done.
Qed.

(** Closing a request removes it and touches no other. *)
Lemma close_request_open problem r h r' :
  is_open r' (close_request st problem r h) = is_open r' h && negb (Nat.eqb r' r).
Proof.
  unfold close_request, Http.on_close. destruct (is_open r h) eqn:Eo.
  - change (h_requests (emit _ h)) with (h_requests h).
    unfold is_open in Eo. destruct (h_requests h !! r) as [q|] eqn:Eq; [|done]. rewrite Eo.
    unfold is_open. cbn. destruct (Nat.eqb_spec r' r) as [->|Hne].
    + rewrite lookup_alter_eq, Eq. cbn. by rewrite andb_false_r.
    + rewrite lookup_alter_ne by congruence. by rewrite andb_true_r.
  - destruct (Nat.eqb_spec r' r) as [->|Hne]; [by rewrite Eo|by rewrite andb_true_r].
Qed.

Lemma close_next problem h : h_next (Http.close st problem h) = h_next h.
Proof.
  unfold Http.close. generalize (h_active h). intros l. revert h.
  induction l as [|r l IH]; intros h; cbn; [done|]. rewrite IH.
  unfold close_request, Http.on_close. destruct (is_open r h); [|done]. cbn.
  destruct (h_requests h !! r) as [q|]; [|done]. by destruct (r_open q).
Qed.

Lemma close_open problem h : inv h -> forall r, is_open r (Http.close st problem h) = false.
Proof.
  intros [_ I2 _ _] r. unfold Http.close.
  assert (forall l h, is_open r (foldl (fun h r => close_request st problem r h) h l) =
    is_open r h && negb (bool_decide (r ∈ l))) as H.
  { clear. induction l as [|x l IH]; intros h; cbn [foldl].
    - rewrite bool_decide_eq_false_2 by apply not_elem_of_nil. by rewrite andb_true_r.
    - rewrite IH, close_request_open, <- andb_assoc. f_equal.
      destruct (Nat.eqb_spec r x) as [->|Hne]; cbn.
      + rewrite bool_decide_eq_true_2 by by left. done.
      + f_equal. apply bool_decide_ext. rewrite elem_of_cons. naive_solver. }
  rewrite H. destruct (is_open r h) eqn:E; [|done].
  apply I2 in E. by rewrite bool_decide_eq_true_2.
Qed.

End Accounting.

(** C14. Whatever happens to an HTTP client and its requests, in any order: a
    request is among the active ones exactly until it settles, it settles at
    most once, and closing the client settles all that are left. *)
Theorem requests_settle {S} st (streamer : S -> list Z -> S * option Z) options acts s :
  let h := fst (run st streamer acts (new_http options, s)) in
  (forall r, (r < h_next h)%nat ->
    settled r h = if bool_decide (r ∈ h_active h) then 0%nat else 1%nat) /\
  forall problem, let h' := Http.close st problem h in
    h_active h' = [] /\ forall r, (r < h_next h)%nat -> settled r h' = 1%nat.
Proof.
  intros h. assert (inv h) as Hi by apply http_run_inv, new_http_inv. split.
  - intros r Hr. destruct Hi as [_ I2 _ I4]. rewrite I4, (proj2 (Nat.ltb_lt _ _) Hr).
    destruct (is_open r h) eqn:E; cbn.
    + by rewrite bool_decide_eq_true_2 by by apply I2.
    + rewrite bool_decide_eq_false_2; [done|]. rewrite I2. congruence.
  - intros problem h'. pose proof (close_open st problem h Hi) as Ho.
    assert (inv h') as [_ I2 _ I4] by (apply (http_act_inv st streamer (AClose problem) h s Hi)).
    split.
    + destruct (h_active h') as [|r l] eqn:E; [done|].
      specialize (I2 r). rewrite Ho in I2. exfalso. assert (false = true); [|done].
      apply I2. by left.
    + intros r Hr. rewrite I4, Ho. unfold h'. rewrite close_next.
      by rewrite (proj2 (Nat.ltb_lt _ _) Hr).
Qed.

Example request_example :
  let h := fst (run initial_locale (fun (s : unit) b => (s, Some (zlen b)))
    [ARequest {["path" := JStr "/x"]} false; AOnControl 0 {["command" := JStr "response"; "status" := JNum 404; "reason" := JStr "Not Found"]};
     AOnMessage 0 [111]; AOnClose 0 ∅; AOnClose 0 ∅] (new_http ∅, tt)) in
  omap (fun e => match e with HSettle r (HRejected ex body) => Some (r, e_status ex, e_message ex, body) | _ => None end)
    (h_trace h) = [(0%nat, Some 404, JStr "Not Found", Some [111])].
Proof. vm_compute. reflexivity. Qed.
