(* ===== verification/File.v ===== *)
(** * Files (src/src/base1/cockpit.js, [cockpit.file])

    Reading, replacing, modifying and watching a file through the channels
    "fsread1", "fsreplace1" and "fswatch1".  A tag names a state of the file.

    Deferreds and channels are numbers; opening a channel, sending on it,
    calling a watch callback and settling a deferred are effects in a trace.
    The steps of [modify] run when the deferred they wait for has settled. *)

From S2P Require Import Prelude Buffer Locale.

(** What is written: the code units of a text, or a typed array, the part of
    [length] bytes of a buffer that begins at [offset]. *)
Inductive raw := RText (units : list Z) | RBinary (buffer : list Z) (offset len : nat).

Definition raw_content (r : raw) : list Z :=
  match r with RText u => u | RBinary b o n => take n (drop o b) end.

Definition batch : nat := 16 * 1024.

(** The loop over the batches; the fuel bounds their number. *)
Fixpoint batches (fuel i len : nat) (units : list Z) : list (list Z) :=
  match fuel with
  | O => []
  | S fuel =>
      if Nat.ltb i len then take (Nat.min (len - i) batch) (drop i units) :: batches fuel (i + batch) len units
      else []
  end.

(** The messages of [replace]: the positions of a typed array are taken in its
    buffer. *)
Definition messages (content : option raw) : list (list Z) :=
  match content with
  | None => []
  | Some (RText u) => batches (length u) 0 (length u) u
  | Some (RBinary b _ n) => batches n 0 n b
  end.

(** A failure: a problem from a channel, or an exception. *)
Inductive failure := FProblem (e : error) | FException (ex : jval).

Section File.

(** The content the user sees, and the options of the file. *)
Context {C : Type} (st : locale_state) (path : string) (options : jobj) (binary : bool).
Context (parse : list Z -> C + jval) (stringify : C -> raw + jval).

(** The callback of a [modify], by number; [None] is undefined, [Some None]
    is null. *)
Context (modifier : nat -> option C -> option (option C)).

Inductive result :=
  | RRead (content : option C) (tag : jval) | RReplaced (tag : jval)
  | RModified (content : option C) (tag : jval) | RFailed (f : failure).

Inductive file_effect :=
  | FOpen (chan : nat) (o : jobj) | FSend (chan : nat) (data : list Z) | FDone (chan : nat)
  | FClose (chan : nat) (problem : string)
  | FFire (callback : nat) (content : option C) (tag : jval) (error : option failure)
  | FSettle (dfd : nat) (r : result)
  | FReplace (dfd : nat) (content : option C) (expected_tag : jval)   (* a call of replace *)
  | FModify (dfd : nat) (callback : nat).                             (* a call of modify *)

(** What a [modify] waits for. *)
Inductive wait := WRead (dfd : nat) | WReplace (dfd : nat) (content : option C).

Record modify := mk_modify { m_callback : nat; m_dfd : nat; m_wait : wait }.

Record file := mk_file {
  f_read_promise : option nat; f_read_channel : option nat; f_parts : list (list Z);
  f_replace : option (nat * nat * option C);         (* channel, deferred, new content *)
  f_callbacks : list (option nat); f_n_watch : Z;
  f_watch_channel : option (nat * bool);             (* and whether it is open *)
  f_watch_tag : jval; f_modifies : gmap nat modify; f_results : gmap nat result;
  f_next_chan : nat; f_next_dfd : nat; f_trace : list file_effect }.

#[local] Instance file_settable : Settable file := fun f =>
  mk_file (f_read_promise f) (f_read_channel f) (f_parts f) (f_replace f) (f_callbacks f) (f_n_watch f)
    (f_watch_channel f) (f_watch_tag f) (f_modifies f) (f_results f) (f_next_chan f) (f_next_dfd f) (f_trace f).

Definition new_file : file := mk_file None None [] None [] 0 None JUndef ∅ ∅ 0 0 [].

Definition put (e : file_effect) (f : file) : file := f <| f_trace ::= (fun t => t ++ [e]) |>.

Definition settle (dfd : nat) (r : result) (f : file) : file :=
  put (FSettle dfd r) f <| f_results ::= (fun m => match m !! dfd with Some _ => m | None => <[dfd := r]> m end) |>.

Definition defer (f : file) : file * nat := (f <| f_next_dfd ::= S |>, f_next_dfd f).

Definition base_channel_options : jobj := delete "syntax" (extend ∅ options).

Definition open_channel (extra : jobj) (f : file) : file * nat :=
  let c := f_next_chan f in
  (put (FOpen c (extend base_channel_options extra)) (f <| f_next_chan ::= S |>), c).

(** [fire_watch_callbacks(content, tag, error)]: removed callbacks are null. *)
Definition fire_watch_callbacks (content : option C) (tag : jval) (e : option failure) (f : file) : file :=
  let f := f <| f_watch_tag := if truthy tag then tag else JNull |> in
  foldl (fun f cb => match cb with Some cb => put (FFire cb content tag e) f | None => f end) f (f_callbacks f).

(** ** Reading *)

Definition try_read (f : file) : file :=
  let '(f, c) := open_channel {["payload" := JStr "fsread1"; "path" := JStr path]} f in
  f <| f_read_channel := Some c |> <| f_parts := [] |>.

(** [read()]: the deferred whose promise it returns. *)
Definition read (f : file) : file * nat :=
  match f_read_promise f with
  | Some d => (f, d)
  | None =>
      let '(f, d) := defer f in
      (try_read f <| f_read_promise := Some d |>, d)
  end.

Definition on_read_message (data : list Z) (f : file) : file :=
  match f_read_channel f with
  | Some _ => f <| f_parts ::= (fun l => l ++ [data]) |>
  | None => f
  end.

Definition on_read_close (message : jobj) (f : file) : file :=
  match f_read_channel f, f_read_promise f with
  | Some _, Some d =>
      let parts := f_parts f in
      let f := f <| f_read_channel := None |> in
      if is_str (prop message "problem") "change-conflict" then try_read f
      else
        let f := f <| f_read_promise := None |> in
        if truthy (prop message "problem") then
          let e := FProblem (basic_error st (prop message "problem") (prop message "message")) in
          settle d (RFailed e) (fire_watch_callbacks None JNull (Some e) f)
        else
          let content := if is_str (prop message "tag") "-" then inl None
                         else match parse (join_data true parts binary) with
                              | inl c => inl (Some c)
                              | inr ex => inr ex
                              end in
          match content with
          | inr ex => settle d (RFailed (FException ex)) (fire_watch_callbacks None JNull (Some (FException ex)) f)
          | inl content =>
              settle d (RRead content (prop message "tag"))
                (fire_watch_callbacks content (prop message "tag") None f)
          end
  | _, _ => f
  end.

(** ** Replacing *)

Definition on_replace_close (message : jobj) (f : file) : file :=
  match f_replace f with
  | None => f
  | Some (_, d, new_content) =>
      let f := f <| f_replace := None |> in
      if truthy (prop message "problem") then
        settle d (RFailed (FProblem (basic_error st (prop message "problem") (prop message "message")))) f
      else settle d (RReplaced (prop message "tag")) (fire_watch_callbacks new_content (prop message "tag") None f)
  end.

(** Closing the channel dispatches its close event before it returns. *)
Definition abort_replace (problem : string) (f : file) : file :=
  match f_replace f with
  | Some (c, _, _) => on_replace_close {["problem" := JStr problem]} (put (FClose c problem) f)
  | None => f
  end.

Definition replace (new_content : option C) (expected_tag : jval) (f : file) : file * nat :=
  let '(f, d) := defer f in
  let f := put (FReplace d new_content expected_tag) f in
  let file_content := match new_content with
                      | None => inl None
                      | Some c => match stringify c with inl r => inl (Some r) | inr ex => inr ex end
                      end in
  match file_content with
  | inr ex => (settle d (RFailed (FException ex)) f, d)
  | inl content =>
      let f := abort_replace "abort" f in
      let '(f, c) := open_channel
        {["payload" := JStr "fsreplace1"; "path" := JStr path; "tag" := expected_tag]} f in
      let f := f <| f_replace := Some (c, d, new_content) |> in
      let f := foldl (fun f m => put (FSend c m) f) f (messages content) in
      (put (FDone c) f, d)
  end.

(** ** Modifying *)

Definition modify_update (m : nat) (callback : nat) (dfd : nat) (content : option C) (tag : jval) (f : file) : file :=
  let new_content := default content (modifier callback content) in
  let '(f, d) := replace new_content tag f in
  f <| f_modifies ::= <[m := mk_modify callback dfd (WReplace d new_content)]> |>.

Definition read_then_update (m : nat) (callback dfd : nat) (f : file) : file :=
  let '(f, d) := read f in
  f <| f_modifies ::= <[m := mk_modify callback dfd (WRead d)]> |>.

(** [modify(callback, initial_content, initial_tag)]; the initial content may
    be missing. *)
Definition modify_ (callback : nat) (initial : option (option C * jval)) (f : file) : file * nat :=
  let '(f, dfd) := defer f in
  let f := put (FModify dfd callback) f in
  (match initial with
   | None => read_then_update dfd callback dfd f
   | Some (content, tag) => modify_update dfd callback dfd content tag f
   end, dfd).

Definition modify_done (m dfd : nat) (r : result) (f : file) : file :=
  settle dfd r (f <| f_modifies ::= delete m |>).

Definition is_conflict (e : failure) : bool :=
  match e with FProblem e => is_str (e_problem e) "change-conflict" | FException _ => false end.

(** The [done] and [fail] callbacks of [modify], once they can run. *)
Definition modify_step (m : nat) (f : file) : file :=
  match f_modifies f !! m with
  | None => f
  | Some y =>
      match m_wait y with
      | WRead d =>
          match f_results f !! d with
          | Some (RRead content tag) => modify_update m (m_callback y) (m_dfd y) content tag f
          | Some (RFailed e) => modify_done m (m_dfd y) (RFailed e) f
          | _ => f
          end
      | WReplace d new_content =>
          match f_results f !! d with
          | Some (RReplaced tag) => modify_done m (m_dfd y) (RModified new_content tag) f
          | Some (RFailed e) =>
              if is_conflict e then read_then_update m (m_callback y) (m_dfd y) f
              else modify_done m (m_dfd y) (RFailed e) f
          | _ => f
          end
      end
  end.

(** ** Watching *)

Definition ensure_watch_channel (f : file) : file :=
  if 0 <? f_n_watch f then
    match f_watch_channel f with
    | Some _ => f
    | None =>
        let '(f, c) := open_channel {["payload" := JStr "fswatch1"; "path" := JStr path]} f in
        f <| f_watch_channel := Some (c, true) |>
    end
  else
    match f_watch_channel f with
    | Some (c, true) => put (FClose c "") f <| f_watch_channel := None |>
    | Some (_, false) => f <| f_watch_channel := None |>
    | None => f
    end.

(** The parsed message of the watch channel; [None] does not parse. *)
Definition on_watch_message (message : option jobj) (f : file) : file :=
  match f_watch_channel f, message with
  | Some (_, true), Some m =>
      if is_str (prop m "path") path && truthy (prop m "tag") &&
         negb (match prop m "tag", f_watch_tag f with
               | JStr a, JStr b => String.eqb a b
               | _, _ => false
               end)
      then fst (read f) else f
  | _, _ => f
  end.

Definition watch (callback : option nat) (f : file) : file :=
  let f := match callback with Some _ => f <| f_callbacks ::= (fun l => l ++ [callback]) |> | None => f end in
  let f := ensure_watch_channel (f <| f_n_watch ::= Z.succ |>) in
  fst (read (f <| f_watch_tag := JNull |>)).

Fixpoint null_first (cb : nat) (l : list (option nat)) : list (option nat) :=
  match l with
  | [] => []
  | x :: l => if bool_decide (x = Some cb) then None :: l else x :: null_first cb l
  end.

(** The [remove] function [watch] returns. *)
Definition unwatch (callback : option nat) (f : file) : file :=
  let f := match callback with Some cb => f <| f_callbacks ::= null_first cb |> | None => f end in
  ensure_watch_channel (f <| f_n_watch ::= Z.pred |>).

(** The watch channel's close event; nothing listens to it. *)
Definition on_watch_close (f : file) : file :=
  f <| f_watch_channel ::= fmap (fun c => (fst c, false)) |>.

Definition close (f : file) : file :=
  let f := match f_read_channel f with
           | Some c => on_read_close {["problem" := JStr "cancelled"]} (put (FClose c "cancelled") f)
           | None => f
           end in
  let f := abort_replace "cancelled" f in
  match f_watch_channel f with
  | Some (c, true) => on_watch_close (put (FClose c "cancelled") f)
  | _ => f
  end.

End File.

#[export] Existing Instance file_settable.
#[global] Arguments result : clear implicits.
#[global] Arguments file_effect : clear implicits.
#[global] Arguments file : clear implicits.
#[global] Arguments modify : clear implicits.
#[global] Arguments wait : clear implicits.
