(* ===== verification/FileSpec.v ===== *)
(** * What is written, and safe modification

    Properties of [File.v]: the messages of a replacement are its content, and
    [modify] only ever writes the answer of its callback to the content that
    the tag of the replacement stands for. *)

From S2P Require Import Prelude Buffer Locale File.

(** ** Batches *)

Lemma batches_spec units len : forall fuel i,
  (len <= length units)%nat -> (len <= i + fuel)%nat ->
  concat (batches fuel i len units) = take (len - i) (drop i units) /\
  Forall (fun m => m <> [] /\ (length m <= batch)%nat) (batches fuel i len units).
Proof.
  induction fuel as [|fuel IH]; intros i Hl Hf; cbn [batches].
  { replace (len - i)%nat with 0%nat by lia. split; [done|constructor]. }
  destruct (Nat.ltb_spec i len) as [Hi|Hi].
  2: { replace (len - i)%nat with 0%nat by lia. split; [done|constructor]. }
  assert (1 <= batch)%nat as Hb by (vm_compute; lia).
  destruct (IH (i + batch)%nat Hl ltac:(lia)) as [IH1 IH2]. cbn [concat]. split.
  - rewrite IH1, <- drop_drop. destruct (Nat.le_gt_cases (len - i) batch) as [Hs|Hs].
    + rewrite Nat.min_l by lia. replace (len - (i + batch))%nat with 0%nat by lia.
      cbn. by rewrite app_nil_r.
    + rewrite Nat.min_r by lia. rewrite take_take_drop. f_equal. lia.
  - constructor; [|done]. rewrite length_take, length_drop. split; [|lia].
    intros H%(f_equal length). rewrite length_take, length_drop in H. cbn in H. lia.
Qed.

(** What the messages make up: all of a text, but of a typed array the bytes
    at the beginning of its buffer. *)
Definition written (r : raw) : list Z :=
  match r with RText u => u | RBinary b _ n => take n b end.

Definition raw_ok (r : raw) : Prop :=
  match r with RText _ => True | RBinary b o n => (o + n <= length b)%nat end.

(** A replacement sends its content completely and in order, in messages of
    1 to 16384 units; a typed array must start where its buffer starts. *)
Theorem messages_content r :
  raw_ok r ->
  concat (messages (Some r)) = written r /\
  Forall (fun m => m <> [] /\ (length m <= 16384)%nat) (messages (Some r)) /\
  (match r with RBinary _ o _ => o = 0%nat | _ => True end -> written r = raw_content r).
Proof.
  intros Hr. destruct r as [u|b o n]; cbn [messages written raw_content raw_ok] in *.
  - destruct (batches_spec u (length u) (length u) 0) as [H1 H2]; [lia..|].
    rewrite drop_0, Nat.sub_0_r, take_ge in H1 by lia. auto.
  - destruct (batches_spec b n n 0) as [H1 H2]; [lia..|].
    rewrite drop_0, Nat.sub_0_r in H1. split; [done|]. split; [done|]. intros ->. by rewrite drop_0.
Qed.

Lemma messages_content_witness :
  concat (messages (Some (RText (replicate 20000 97)))) = replicate 20000 97 /\
  length (messages (Some (RText (replicate 20000 97)))) = 2%nat.
Proof.
  destruct (messages_content (RText (replicate 20000 97)) I) as [H _].
  split; [exact H|]. vm_compute. reflexivity.
Defined.

(** A typed array that is a part of its buffer is not sent as it is. *)
Example subarray_sends_buffer :
  messages (Some (RBinary [1; 2; 3; 4] 2 2)) = [[1; 2]] /\ raw_content (RBinary [1; 2; 3; 4] 2 2) = [3; 4].
Proof. split; reflexivity. Qed.

(** A character outside the basic plane can be cut in two. *)
Example batch_cuts_surrogates :
  map (fun m => (last m, head m)) (messages (Some (RText (replicate 16383 97 ++ [0xD83D; 0xDE00])))) =
  [(Some 0xD83D, Some 97); (Some 0xDE00, Some 0xDE00)].
Proof. vm_compute. reflexivity. Qed.

Section File.

Context {C : Type} (st : locale_state) (path : string) (options : jobj) (binary : bool).
Context (parse : list Z -> C + jval) (stringify : C -> raw + jval).
Context (modifier : nat -> option C -> option (option C)).

Lemma prop_singleton k (v : jval) : prop {[k := v]} k = v.
Proof. unfold prop. by rewrite lookup_singleton_eq. Qed.

(** Aborting a replacement fails it and closes its channel. *)
Definition aborted (problem : string) (f : file C) : list (file_effect C) :=
  match f_replace f with
  | Some (c, d, _) =>
      [FClose c problem; FSettle d (RFailed (FProblem (basic_error st (JStr problem) JUndef)))]
  | None => []
  end.

Lemma abort_replace_eq problem (f : file C) :
  problem <> "" -> exists results,
  abort_replace st problem f =
    f <| f_replace := None |> <| f_trace ::= (fun t => t ++ aborted problem f) |> <| f_results := results |>.
Proof.
  intros Hp. destruct f as [rp rc ps rpl cbs nw wc wt ms rs nc nd tr]. unfold abort_replace, aborted. cbn.
  destruct rpl as [[[c d] n]|]; [|exists rs; unfold set_field; cbn; by rewrite app_nil_r].
  unfold on_replace_close. cbn. rewrite prop_singleton. cbn.
  rewrite (proj2 (String.eqb_neq problem "")) by done. cbn.
  eexists. unfold settle, put, set_field. cbn. rewrite <- app_assoc. reflexivity.
Qed.

(** Replacing a file with empty content does the same as replacing it with
    null, which removes it: no message is sent in either case. *)
Theorem replace_empty_removes c tag (f : file C) :
  stringify c = inl (RText []) ->
  exists es, f_trace (fst (replace st path options stringify (Some c) tag f)) =
    f_trace f ++ FReplace (f_next_dfd f) (Some c) tag :: es /\
  f_trace (fst (replace st path options stringify None tag f)) =
    f_trace f ++ FReplace (f_next_dfd f) None tag :: es.
Proof.
  intros Hc. unfold replace, defer. rewrite Hc.
  destruct (abort_replace_eq "abort" (put (FReplace (f_next_dfd f) (Some c) tag)
    (f <| f_next_dfd ::= S |>))) as [rs1 ->]; [done|].
  destruct (abort_replace_eq "abort" (put (FReplace (f_next_dfd f) None tag)
    (f <| f_next_dfd ::= S |>))) as [rs2 ->]; [done|].
  unfold open_channel, put. cbn. eexists. rewrite <- !app_assoc. cbn. split; reflexivity.
Qed.

End File.

Lemma replace_empty_removes_witness :
  let f := new_file : file (list Z) in
  let r content := f_trace (fst (replace initial_locale "/f" ∅ (fun u => inl (RText u)) content JUndef f)) in
  exists es, r (Some []) = [FReplace 0 (Some []) JUndef] ++ es /\ r None = [FReplace 0 None JUndef] ++ es.
Proof.
  exact (replace_empty_removes initial_locale "/f" ∅ (fun u => inl (RText u)) [] JUndef new_file eq_refl).
Defined.

(** ** Safe modification *)

Section Modify.

Context {C : Type} (st : locale_state) (path : string) (options : jobj) (binary : bool).
Context (parse : list Z -> C + jval) (stringify : C -> raw + jval).
Context (modifier : nat -> option C -> option (option C)).

(** The content a tag stands for: what "fsread1" says with it. *)
Context (content_of : jval -> option C).

(** Everything that can happen to a file. *)
Inductive action :=
  | ARead | AReplace (content : option C) (tag : jval)
  | AModify (callback : nat) (initial : option (option C * jval)) | AModifyStep (m : nat)
  | AWatch (callback : option nat) | AUnwatch (callback : option nat) | AClose
  | AReadMessage (data : list Z) | AReadClose (message : jobj) | AReplaceClose (message : jobj)
  | AWatchMessage (message : option jobj) | AWatchClose.

Definition act (a : action) (f : file C) : file C :=
  match a with
  | ARead => fst (read path options f)
  | AReplace content tag => fst (replace st path options stringify content tag f)
  | AModify callback initial => fst (modify_ st path options stringify modifier callback initial f)
  | AModifyStep m => modify_step st path options stringify modifier m f
  | AWatch cb => watch path options cb f
  | AUnwatch cb => unwatch path options cb f
  | AClose => close st path options binary parse f
  | AReadMessage data => on_read_message data f
  | AReadClose message => on_read_close st path options binary parse message f
  | AReplaceClose message => on_replace_close st message f
  | AWatchMessage message => on_watch_message path options message f
  | AWatchClose => on_watch_close f
  end.

(** What is read with a tag is the content the tag stands for, and so is the
    initial content a caller of [modify] gives. *)
Definition truthful (a : action) (f : file C) : Prop :=
  match a with
  | AReadClose message =>
      truthy (prop message "problem") = false ->
      if is_str (prop message "tag") "-" then content_of (prop message "tag") = None
      else forall c, parse (join_data true (f_parts f) binary) = inl c -> content_of (prop message "tag") = Some c
  | AModify _ (Some (content, tag)) => content_of tag = content
  | _ => True
  end.

Inductive step : file C -> file C -> Prop :=
  | step_act a f : truthful a f -> step f (act a f).

Definition reachable : file C -> Prop := rtc step new_file.

(** What the callback of a modification makes of the content of a tag. *)
Definition answer (callback : nat) (tag : jval) : option C :=
  default (content_of tag) (modifier callback (content_of tag)).

Definition modified (e : file_effect C) : bool :=
  match e with FSettle _ (RModified _ _) => true | _ => false end.

(** Steps that touch no modification. *)
Record grows (f f' : file C) : Prop := {
  g_trace : exists es, f_trace f' = f_trace f ++ es /\ Forall (fun e => modified e = false) es;
  g_results : forall d r, f_results f !! d = Some r -> f_results f' !! d = Some r;
  g_reads : forall d c t, f_results f' !! d = Some (RRead c t) ->
    f_results f !! d = Some (RRead c t) \/ content_of t = c;
  g_modifies : f_modifies f' = f_modifies f }.

#[local] Instance grows_preorder : PreOrder grows.
Proof.
  split.
  - intros f. split; auto. exists []. by rewrite app_nil_r.
  - intros f1 f2 f3 [(e1 & T1 & F1) R1 D1 M1] [(e2 & T2 & F2) R2 D2 M2]. split; [|by auto| |congruence].
    + exists (e1 ++ e2). rewrite T2, T1, <- app_assoc. split; [done|]. by apply Forall_app.
    + intros d c t H. destruct (D2 d c t H) as [H'|]; auto.
Qed.

(** A change of the other fields. *)
Lemma same_grows f f' :
  f_trace f' = f_trace f -> f_results f' = f_results f -> f_modifies f' = f_modifies f -> grows f f'.
Proof.
  intros Ht Hr Hm. split; [|by rewrite Hr|rewrite Hr; auto|done].
  exists []. by rewrite app_nil_r.
Qed.

Lemma put_grows e f : modified e = false -> grows f (put e f).
Proof. intros He. split; auto. exists [e]. split; [done|]. by constructor. Qed.

Lemma settle_grows d r f :
  (forall c t, r <> RModified c t) -> (forall c t, r = RRead c t -> content_of t = c) ->
  grows f (settle d r f).
Proof.
  intros Hm Hr. split.
  - exists [FSettle d r]. split; [done|]. constructor; [|done]. destruct r; try done. by destruct (Hm content tag).
  - intros d' r'. unfold settle. cbn. destruct (f_results f !! d) eqn:E; [done|].
    intros H. rewrite lookup_insert_ne; [done|]. congruence.
  - intros d' c t. unfold settle. cbn. destruct (f_results f !! d) eqn:E; [by left|].
    destruct (decide (d = d')) as [->|]; [rewrite lookup_insert_eq|rewrite lookup_insert_ne by done; by left].
    intros [= ->]. right. by apply Hr.
  - done.
Qed.

Lemma fails_grows d e f : grows f (settle d (RFailed e) f).
Proof. by apply settle_grows. Qed.

Lemma open_channel_grows extra f : grows f (fst (open_channel options extra f)).
Proof.
  unfold open_channel. cbn [fst]. etransitivity; [|by apply put_grows]. by apply same_grows.
Qed.

Lemma fire_grows content tag e f : grows f (fire_watch_callbacks content tag e f).
Proof.
  unfold fire_watch_callbacks. set (f1 := f <| f_watch_tag := _ |>).
  transitivity f1; [by apply same_grows|]. clearbody f1.
  generalize (f_callbacks f1) as l. intros l. revert f1.
  induction l as [|[cb|] l IH]; intros f1; cbn [foldl]; [reflexivity| |apply IH].
  etransitivity; [by apply (put_grows (FFire cb content tag e))|]. apply IH.
Qed.

Lemma try_read_grows f : grows f (try_read path options f).
Proof.
  unfold try_read.
  pose proof (open_channel_grows {["payload" := JStr "fsread1"; "path" := JStr path]} f) as H.
  destruct (open_channel _ _ f) as [f1 c]. etransitivity; [exact H|]. by apply same_grows.
Qed.

Lemma read_grows f : grows f (fst (read path options f)).
Proof.
  unfold read. destruct (f_read_promise f); [done|]. cbn.
  transitivity (try_read path options (f <| f_next_dfd ::= S |>)).
  - etransitivity; [|apply try_read_grows]. by apply same_grows.
  - by apply same_grows.
Qed.

Lemma on_read_close_grows message f :
  truthful (AReadClose message) f -> grows f (on_read_close st path options binary parse message f).
Proof.
  intros Ht. cbn in Ht. unfold on_read_close.
  destruct (f_read_channel f) as [c|], (f_read_promise f) as [d|]; try done.
  destruct (is_str (prop message "problem") "change-conflict").
  { etransitivity; [|apply try_read_grows]. by apply same_grows. }
  set (f1 := _ <| f_read_promise := None |>). assert (grows f f1) as H1 by by apply same_grows.
  transitivity f1; [done|]. clearbody f1. clear H1.
  destruct (truthy (prop message "problem")).
  { etransitivity; [|apply fails_grows]. apply fire_grows. }
  specialize (Ht eq_refl). destruct (is_str (prop message "tag") "-").
  { etransitivity; [|apply settle_grows]; [apply fire_grows|done|]. by intros ?? [= <- <-]. }
  destruct (parse (join_data true (f_parts f) binary)) as [x|ex].
  - etransitivity; [|apply settle_grows]; [apply fire_grows|done|]. intros ?? [= <- <-]. auto.
  - etransitivity; [|apply fails_grows]. apply fire_grows.
Qed.

Lemma on_replace_close_grows message f : grows f (on_replace_close st message f).
Proof.
  unfold on_replace_close. destruct (f_replace f) as [[[c d] n]|]; [|done].
  set (f1 := f <| f_replace := None |>). transitivity f1; [by apply same_grows|]. clearbody f1.
  destruct (truthy _); [apply fails_grows|].
  etransitivity; [|by apply settle_grows]. apply fire_grows.
Qed.

Lemma abort_replace_grows problem f : grows f (abort_replace st problem f).
Proof.
  unfold abort_replace. destruct (f_replace f) as [[[c d] n]|]; [|done].
  etransitivity; [|apply on_replace_close_grows]. by apply put_grows.
Qed.

(** The call of [replace] is on record. *)
Lemma replace_grows content tag f :
  let '(f', d) := replace st path options stringify content tag f in
  grows f f' /\ FReplace d content tag ∈ f_trace f'.
Proof.
  unfold replace, defer. set (f1 := put _ _).
  assert (grows f f1) as H1.
  { unfold f1. etransitivity; [|by apply put_grows]. by apply same_grows. }
  assert (FReplace (f_next_dfd f) content tag ∈ f_trace f1) as Hin.
  { unfold f1, put. cbn. apply elem_of_app. right. by left. }
  clearbody f1. generalize dependent (f_next_dfd f). intros d Hin.
  assert (forall f2, grows f1 f2 -> grows f f2 /\ FReplace d content tag ∈ f_trace f2) as Hall.
  { intros f2 H2. split; [by etransitivity|]. destruct (g_trace _ _ H2) as (es & -> & _).
    apply elem_of_app. by left. }
  destruct (match content with None => inl None | Some c => _ end) as [raw|ex]; [|apply Hall, fails_grows].
  pose proof (abort_replace_grows "abort" f1) as H2. set (f2 := abort_replace st "abort" f1) in *. clearbody f2.
  pose proof (open_channel_grows {["payload" := JStr "fsreplace1"; "path" := JStr path; "tag" := tag]} f2) as H3.
  destruct (open_channel _ _ f2) as [f3 c]. apply Hall. cbn [fst] in H3.
  transitivity f2; [done|]. transitivity f3; [done|].
  etransitivity; [|by apply put_grows].
  set (f4 := f3 <| f_replace := _ |>). transitivity f4; [by apply same_grows|]. clearbody f4.
  generalize (messages raw) as l. intros l. revert f4.
  induction l as [|m l IH]; intros f4; cbn [foldl]; [reflexivity|].
  etransitivity; [by apply (put_grows (FSend c m))|]. apply IH.
Qed.

Lemma ensure_watch_grows f : grows f (ensure_watch_channel path options f).
Proof.
  unfold ensure_watch_channel. destruct (0 <? f_n_watch f).
  - destruct (f_watch_channel f) as [[c o]|]; [done|].
    pose proof (open_channel_grows {["payload" := JStr "fswatch1"; "path" := JStr path]} f) as H.
    destruct (open_channel _ _ f) as [f1 c]. etransitivity; [exact H|]. by apply same_grows.
  - destruct (f_watch_channel f) as [[c []]|]; [|by apply same_grows|done].
    etransitivity; [by apply (put_grows (FClose c ""))|]. by apply same_grows.
Qed.

Lemma close_grows f : grows f (close st path options binary parse f).
Proof.
  unfold close.
  set (f1 := match f_read_channel f with Some c => _ | None => f end).
  assert (grows f f1) as H1.
  { unfold f1. destruct (f_read_channel f) as [c|]; [|done].
    etransitivity; [|apply on_read_close_grows]; [by apply put_grows|]. cbn. by rewrite prop_singleton. }
  transitivity f1; [done|]. clearbody f1. set (f2 := abort_replace st "cancelled" f1).
  transitivity f2; [apply abort_replace_grows|]. clearbody f2.
  destruct (f_watch_channel f2) as [[c []]|]; try done.
  etransitivity; [by apply (put_grows (FClose c "cancelled"))|]. by apply same_grows.
Qed.

(** *** The invariant *)

Definition settled_right (f : file C) (dfd : nat) (c : option C) (t : jval) : Prop :=
  exists callback d tag, FModify dfd callback ∈ f_trace f /\ FReplace d c tag ∈ f_trace f /\
    f_results f !! d = Some (RReplaced t) /\ c = answer callback tag.

Definition waits_right (f : file C) (w : wait C) (callback : nat) : Prop :=
  match w with
  | WRead _ => True
  | WReplace d c => exists tag, FReplace d c tag ∈ f_trace f /\ c = answer callback tag
  end.

Record inv (f : file C) : Prop := {
  i_reads : forall d c t, f_results f !! d = Some (RRead c t) -> content_of t = c;
  i_modifies : forall m y, f_modifies f !! m = Some y ->
    FModify (m_dfd y) (m_callback y) ∈ f_trace f /\ waits_right f (m_wait y) (m_callback y);
  i_settled : forall dfd c t, FSettle dfd (RModified c t) ∈ f_trace f -> settled_right f dfd c t }.

Lemma grows_elem f f' e : grows f f' -> e ∈ f_trace f -> e ∈ f_trace f'.
Proof. intros [(es & -> & _) _ _ _] He. apply elem_of_app. by left. Qed.

Lemma grows_waits f f' w cb : grows f f' -> waits_right f w cb -> waits_right f' w cb.
Proof. intros Hg. destruct w; cbn; [done|]. intros (t & H1 & H2). eauto using grows_elem. Qed.

Lemma grows_settled f f' dfd c t : grows f f' -> settled_right f dfd c t -> settled_right f' dfd c t.
Proof.
  intros Hg (cb & d & tag & H1 & H2 & H3 & H4). exists cb, d, tag.
  repeat split; eauto using grows_elem, g_results.
Qed.

Lemma grows_inv f f' : grows f f' -> inv f -> inv f'.
Proof.
  intros Hg [I1 I2 I3]. split.
  - intros d c t H. destruct (g_reads _ _ Hg d c t H) as [H'|]; eauto.
  - intros m y. rewrite (g_modifies _ _ Hg). intros [H1 H2]%I2.
    split; [by eapply grows_elem|by eapply grows_waits].
  - intros dfd c t H. apply (grows_settled f f'); [done|]. apply I3.
    destruct Hg as [(es & Ht & Hes) _ _ _]. rewrite Ht in H. apply elem_of_app in H as [H|H]; [done|].
    rewrite Forall_forall in Hes. by specialize (Hes _ H).
Qed.

(** Entering or moving on a modification. *)
Lemma file_insert_modify_inv m y f :
  inv f -> FModify (m_dfd y) (m_callback y) ∈ f_trace f -> waits_right f (m_wait y) (m_callback y) ->
  inv (f <| f_modifies ::= <[m := y]> |>).
Proof.
  intros [I1 I2 I3] H1 H2. split; [exact I1| |exact I3].
  intros m' y'. cbn. destruct (decide (m = m')) as [->|].
  - rewrite lookup_insert_eq. by intros [= <-].
  - rewrite lookup_insert_ne by done. apply I2.
Qed.

Lemma modify_update_inv m cb dfd content tag f :
  inv f -> FModify dfd cb ∈ f_trace f -> content_of tag = content ->
  inv (modify_update st path options stringify modifier m cb dfd content tag f).
Proof.
  intros Hi Hm Hc. unfold modify_update.
  pose proof (replace_grows (default content (modifier cb content)) tag f) as Hr.
  destruct (replace _ _ _ _ _ _ f) as [f1 d]. destruct Hr as [Hg Hin].
  apply file_insert_modify_inv; cbn; [by eapply grows_inv|by eapply grows_elem|].
  exists tag. split; [done|]. unfold answer. by rewrite Hc.
Qed.

Lemma read_then_update_inv m cb dfd f :
  inv f -> FModify dfd cb ∈ f_trace f -> inv (read_then_update path options m cb dfd f).
Proof.
  intros Hi Hm. unfold read_then_update. pose proof (read_grows f) as Hg.
  destruct (read path options f) as [f1 d]. cbn [fst] in Hg.
  apply file_insert_modify_inv; cbn; [by eapply grows_inv|by eapply grows_elem|done].
Qed.

Lemma modify_done_inv m dfd r f :
  inv f -> (forall c t, r <> RRead c t) -> (forall c t, r = RModified c t -> settled_right f dfd c t) ->
  inv (modify_done m dfd r f).
Proof.
  intros [I1 I2 I3] Hr Hs. unfold modify_done.
  assert (forall d x, f_results f !! d = Some x -> f_results (settle dfd r (f <| f_modifies ::= delete m |>)) !! d = Some x) as Hres.
  { intros d x Hx. unfold settle. cbn. destruct (f_results f !! dfd) eqn:E; [done|].
    rewrite lookup_insert_ne; [done|]. congruence. }
  assert (forall dfd' c t, settled_right f dfd' c t ->
    settled_right (settle dfd r (f <| f_modifies ::= delete m |>)) dfd' c t) as Hset.
  { intros dfd' c t (cb & d & tag & H1 & H2 & H3 & H4). exists cb, d, tag.
    split; [apply elem_of_app; by left|]. split; [apply elem_of_app; by left|]. auto. }
  split.
  - intros d c t. unfold settle. cbn. destruct (f_results f !! dfd) eqn:E; [apply I1|].
    destruct (decide (dfd = d)) as [->|]; [rewrite lookup_insert_eq|rewrite lookup_insert_ne by done; apply I1].
    intros [= Heq]. by destruct (Hr c t).
  - intros m' y H'. change (delete m (f_modifies f) !! m' = Some y) in H'.
    apply lookup_delete_Some in H' as [_ H]. destruct (I2 m' y H) as [H1 H2].
    split; [apply elem_of_app; by left|]. destruct (m_wait y); cbn in *; [done|].
    destruct H2 as (tag & ? & ?). exists tag. split; [apply elem_of_app; by left|done].
  - intros dfd' c t [H|H]%elem_of_app; [by apply Hset, I3|].
    apply list_elem_of_singleton in H. injection H as <- Hr'. apply Hset. by apply Hs.
Qed.

Lemma modify_step_inv m f : inv f -> inv (modify_step st path options stringify modifier m f).
Proof.
  intros Hi. unfold modify_step. destruct (f_modifies f !! m) as [y|] eqn:Ey; [|done].
  destruct (i_modifies f Hi m y Ey) as [Hm Hw]. destruct (m_wait y) as [d|d content] eqn:Ew.
  - destruct (f_results f !! d) as [[c t|t|c t|e]|] eqn:Er; try done.
    + apply modify_update_inv; [done|done|]. by eapply i_reads.
    + by apply modify_done_inv.
  - destruct (f_results f !! d) as [[c t|t|c t|e]|] eqn:Er; try done.
    + apply modify_done_inv; [done|done|]. intros c t' [= <- <-].
      destruct Hw as (tag & H1 & H2). exists (m_callback y), d, tag. auto.
    + destruct (is_conflict e); [by apply read_then_update_inv|by apply modify_done_inv].
Qed.

Lemma file_act_inv a f : truthful a f -> inv f -> inv (act a f).
Proof.
  intros Ht Hi. destruct a as [|content tag|cb initial|m|cb|cb| |data|message|message|message|]; cbn [act].
  - eapply grows_inv; [apply read_grows|done].
  - pose proof (replace_grows content tag f) as H. destruct (replace _ _ _ _ _ _ f) as [f1 d].
    by eapply grows_inv; [apply H|].
  - unfold modify_, defer. cbn [fst]. set (f1 := put _ _).
    assert (inv f1 /\ FModify (f_next_dfd f) cb ∈ f_trace f1) as [H1 H2].
    { split.
      - eapply grows_inv; [|exact Hi]. unfold f1. etransitivity; [|by apply put_grows]. by apply same_grows.
      - unfold f1, put. cbn. apply elem_of_app. right. by left. }
    destruct initial as [[content tag]|]; [by apply modify_update_inv|by apply read_then_update_inv].
  - by apply modify_step_inv.
  - eapply grows_inv; [|exact Hi]. unfold watch. cbn [fst].
    set (f1 := match cb with Some _ => _ | None => f end). transitivity f1; [unfold f1; by destruct cb; apply same_grows|].
    clearbody f1. etransitivity; [|apply read_grows].
    transitivity (ensure_watch_channel path options (f1 <| f_n_watch ::= Z.succ |>)); [|by apply same_grows].
    etransitivity; [|apply ensure_watch_grows]. by apply same_grows.
  - eapply grows_inv; [|exact Hi]. unfold unwatch.
    set (f1 := match cb with Some _ => _ | None => f end). transitivity f1; [unfold f1; by destruct cb; apply same_grows|].
    clearbody f1. etransitivity; [|apply ensure_watch_grows]. by apply same_grows.
  - eapply grows_inv; [apply close_grows|done].
  - eapply grows_inv; [|exact Hi]. unfold on_read_message. destruct (f_read_channel f); [by apply same_grows|done].
  - eapply grows_inv; [|exact Hi]. by apply on_read_close_grows.
  - eapply grows_inv; [apply on_replace_close_grows|done].
  - eapply grows_inv; [|exact Hi]. unfold on_watch_message.
    destruct (f_watch_channel f) as [[c []]|], message as [o|]; try done.
    destruct (_ && _); [apply read_grows|done].
  - eapply grows_inv; [|exact Hi]. by apply same_grows.
Qed.

Lemma file_reachable_inv f : reachable f -> inv f.
Proof.
  intros Hr. assert (inv new_file) as Hi.
  { split; cbn.
    - intros d c t H. by rewrite lookup_empty in H.
    - intros m y H. by rewrite lookup_empty in H.
    - intros dfd c t H. by inversion H. }
  unfold reachable in Hr. induction Hr as [|f1 f2 f3 Hs _ IH]; [done|]. apply IH. destruct Hs. by apply file_act_inv.
Qed.

(** A run whose reads are truthful. *)
Fixpoint truthful_run (l : list action) (f : file C) : Prop :=
  match l with [] => True | a :: l => truthful a f /\ truthful_run l (act a f) end.

Lemma file_run_reachable l : forall f, reachable f -> truthful_run l f -> reachable (foldl (fun f a => act a f) f l).
Proof.
  induction l as [|a l IH]; intros f Hf; cbn; [done|]. intros [Ha Hl]. apply IH; [|done].
  eapply rtc_r; [exact Hf|by constructor].
Qed.

(** C15. Modification is safe: however reads, replacements, modifications and
    watches interleave, when [modify] succeeds with new content, that content is
    the answer of its callback to the very content that the tag stands for under
    which it was written, and that conditional replacement has succeeded.  So
    no change made by others in between is lost. *)
Theorem modify_safe f dfd c t :
  reachable f -> FSettle dfd (RModified c t) ∈ f_trace f ->
  exists callback d tag, FModify dfd callback ∈ f_trace f /\
    FReplace d c tag ∈ f_trace f /\ f_results f !! d = Some (RReplaced t) /\
    c = default (content_of tag) (modifier callback (content_of tag)).
Proof. intros Hr Hs. exact (i_settled f (file_reachable_inv f Hr) dfd c t Hs). Qed.

End Modify.

(** A modification whose first attempt meets a conflict. *)
Definition shout (cb : nat) (c : option (list Z)) : option (option (list Z)) :=
  match c with Some u => Some (Some (u ++ [33])) | None => None end.

Definition conflict_run : list (action (C := list Z)) :=
  [AModify 0 None; AReadMessage [97]; AReadClose {["tag" := JStr "t1"]}; AModifyStep 0;
   AReplaceClose {["problem" := JStr "change-conflict"]}; AModifyStep 0;
   AReadMessage [98]; AReadClose {["tag" := JStr "t2"]}; AModifyStep 0;
   AReplaceClose {["tag" := JStr "t3"]}; AModifyStep 0].

Definition act_text : action (C := list Z) -> file (list Z) -> file (list Z) :=
  act initial_locale "/f" ∅ false inl (fun u => inl (RText u)) shout.

Definition content_text (t : jval) : option (list Z) :=
  if is_str t "t1" then Some [97] else if is_str t "t2" then Some [98] else None.

Definition final_file : file (list Z) := foldl (fun f a => act_text a f) new_file conflict_run.

Lemma modify_safe_witness : exists d tag, f_results final_file !! d = Some (RReplaced (JStr "t3")) /\
  Some [98; 33] = default (content_text tag) (shout 0 (content_text tag)).
Proof.
  assert (FSettle 0 (RModified (Some [98; 33]) (JStr "t3")) ∈ f_trace final_file) as Hin.
  { apply list_elem_of_lookup. exists (pred (length (f_trace final_file))). vm_compute. reflexivity. }
  destruct (modify_safe initial_locale "/f" ∅ false inl (fun u => inl (RText u)) shout content_text
    final_file 0 (Some [98; 33]) (JStr "t3")) as (cb & d & tag & Hm & H1 & H2 & H3).
  - apply file_run_reachable; [constructor|]. unfold conflict_run. cbn [truthful_run truthful].
    repeat (split; [first [exact I|vm_compute; intros _ c [= <-]; reflexivity]|]). exact I.
  - exact Hin.
  - exists d, tag. split; [exact H2|exact H3].
Defined.
