(* ===== verification/Cache.v ===== *)
(** * Storage, shared data and permissions (src/src/base1/cockpit.js)

    [StorageHelper], the prefixed keys of the storage of the browser;
    [StorageCache], the data that the frames of a page share; [Permission].

    The browser's storage is a list in the order of its keys, which removing one
    keeps.  The frames share the objects [window["cv1-storage"]] and
    [sessionStorage]; a change of [sessionStorage] is an event for every other
    frame, which gets its events in order and later, while an event that is
    dispatched runs the listeners of its own frame at once.  What the providers do
    while they are called is a parameter, [provider], a record for each call: they
    may give values and close caches at once, and return something to close or
    nothing; what they give is not undefined, and they do nothing else to the
    caches then.  The versions that are drawn are a parameter, [random]; they are 1
    or more and so count as true.  Listeners
    and providers may so run inside of each other; the depth is bounded by the
    number of caches ([CacheSpec.dispatch_enough]). *)

From S2P Require Import Prelude.

(** ** Storage *)

Section Storage.
Context (application : string).

Definition prefixedKey (key : string) : string := application +:+ ":" +:+ key.

Definition getItem (key : string) (both : bool) (storage : list (string * string)) : option string :=
  match assoc_get (prefixedKey key) storage with
  | Some v => if String.eqb v "" && both then assoc_get key storage else Some v
  | None => if both then assoc_get key storage else None
  end.

Definition setItem (key value : string) (both : bool) (storage : list (string * string)) : list (string * string) :=
  let storage := assoc_set (prefixedKey key) value storage in
  if both then assoc_set key value storage else storage.

Definition removeItem (key : string) (both : bool) (storage : list (string * string)) : list (string * string) :=
  let storage := assoc_del (prefixedKey key) storage in
  if both then assoc_del key storage else storage.

Definition purged (full : bool) (k : string) : bool :=
  (full && negb (String.prefix "cockpit" k)) || String.prefix application k.

(** The loop: a key that is removed makes room for the next one. *)
Fixpoint clear_loop (fuel : nat) (full : bool) (i : nat) (storage : list (string * string)) : list (string * string) :=
  match fuel with
  | O => storage
  | S fuel =>
      match storage !! i with
      | None => storage
      | Some (k, _) => if purged full k then clear_loop fuel full i (assoc_del k storage) else clear_loop fuel full (S i) storage
      end
  end.

Definition clear (full : bool) (storage : list (string * string)) : list (string * string) :=
  clear_loop (S (length storage)) full 0 storage.
End Storage.

(** ** Shared data *)

Record event := mk_event { ev_old : option Z; ev_new : option Z; ev_self : option nat }.

(** [last] starts as undefined and may be null. *)
Inductive source := Claiming (call : nat) | Provided (call : nat).

#[export] Instance source_eq_dec : EqDecision source.
Proof. solve_decision. Defined.

(** No source is null or undefined. *)
Record cache := mk_cache {
  c_window : nat; c_last : option (option Z); c_claimed : bool; c_source : option source; c_listening : bool;
  c_pending : list jval; c_told : list jval }.

#[export] Instance cache_settable : Settable cache := fun c =>
  mk_cache (c_window c) (c_last c) (c_claimed c) (c_source c) (c_listening c) (c_pending c) (c_told c).

(** The calls of providers, the calls of [close] on what they returned, and such
    a call when they returned nothing, which throws. *)
Inductive provide := Provide (cache call : nat) | Release (call : nat) | Throws (call : nat).

(** What a provider does while it is called, and whether it returns something. *)
Inductive act := Gives (value : jval) | Closes (cache : nat).

Record provided := mk_provided { p_acts : list act; p_returns : bool }.

(** One key of the storage, with the caches for it in all the frames. *)
Record shared := mk_shared {
  caches : list cache; s_value : option jval; s_version : option Z; queues : list (list event); s_next : nat; s_drawn : nat;
  s_trace : list provide }.

#[export] Instance shared_settable : Settable shared := fun s =>
  mk_shared (caches s) (s_value s) (s_version s) (queues s) (s_next s) (s_drawn s) (s_trace s).

(** So many frames. *)
Definition no_caches (frames : nat) : shared := mk_shared [] None None (replicate frames []) 0 0 [].

Definition on_cache (i : nat) (f : cache -> cache) (s : shared) : shared := s <| caches ::= alter f i |>.

Definition callback (i : nat) (s : shared) : shared :=
  match s_value s with Some v => on_cache i (fun c => c <| c_pending ::= fun l => l ++ [v] |>) s | None => s end.

(** An event of the storage for all frames but one. *)
Definition storage_event (window : nat) (e : event) (s : shared) : shared :=
  s <| queues ::= imap (fun w q => if Nat.eqb w window then q else q ++ [e]) |>.

(** The end of [changed]: a new version. *)
Definition seen (i : nat) (new_value : option Z) (s : shared) : shared :=
  match caches s !! i with
  | Some c =>
      if bool_decide (c_last c = Some new_value) then s
      else callback i (on_cache i (fun c => c <| c_last := Some new_value |>) s)
  | None => s
  end.

(** Giving up the source and, when the data are one's own, the data; gives the
    event to dispatch.  Closing the source that stands in during a claim does
    nothing. *)
Definition withdraw (i : nat) (s : shared) : shared * option event :=
  match caches s !! i with
  | Some c =>
      let s := match c_source c with
               | Some (Provided n) => s <| s_trace ::= fun l => l ++ [Release n] |>
               | _ => s
               end in
      let s := on_cache i (fun c => c <| c_source := None |>) s in
      if c_claimed c then
        let s := on_cache i (fun c => c <| c_claimed := false |>) s in
        match s_version s with
        | Some v =>
            if bool_decide (c_last c = Some (Some v)) then
              (storage_event (c_window c) (mk_event (Some v) None None) (s <| s_value := None |> <| s_version := None |>),
               Some (mk_event (Some v) None (Some i)))
            else (s, None)
        | None => (s, None)
        end
      else (s, None)
  | None => (s, None)
  end.

Section Caches.
Context (random : nat -> Z) (provider : nat -> provided).

(** Listeners and providers call each other: what gives up or provides data
    dispatches an event. *)
Section Nested.
Context (dispatch : nat -> event -> shared -> shared).

Definition unclaim_by (i : nat) (s : shared) : shared :=
  match withdraw i s, caches s !! i with
  | (s, Some e), Some c => dispatch (c_window c) e s
  | (s, _), _ => s
  end.

Definition close_by (i : nat) (s : shared) : shared := unclaim_by i (on_cache i (fun c => c <| c_listening := false |>) s).

(** A provider gives a value. *)
Definition result_by (i : nat) (value : jval) (s : shared) : shared :=
  match caches s !! i with
  | Some c =>
      if c_claimed c || bool_decide (c_source c <> None) then
        let s := on_cache i (fun c => c <| c_claimed := true |>) s in
        let version := random (s_drawn s) in
        let s := storage_event (c_window c) (mk_event (s_version s) (Some version) None)
                   (s <| s_drawn ::= S |> <| s_value := Some value |> <| s_version := Some version |>) in
        dispatch (c_window c) (mk_event None (Some version) (Some i)) s
      else s
  | None => s
  end.

Definition do_act (i : nat) (s : shared) (a : act) : shared :=
  match a with Gives value => result_by i value s | Closes j => close_by j s end.

(** The end of a claim.  When the cache was closed meanwhile, what the provider
    returned is closed. *)
Definition claimed_by (i n : nat) (s : shared) : shared :=
  let returns := p_returns (provider n) in
  match caches s !! i with
  | Some c =>
      if bool_decide (c_source c = Some (Claiming n))
      then on_cache i (fun c => c <| c_source := if returns then Some (Provided n) else None |>) s
      else s <| s_trace ::= fun l => l ++ [if returns then Release n else Throws n] |>
  | None => s
  end.

Definition claim_by (i : nat) (s : shared) : shared :=
  match caches s !! i with
  | Some c =>
      match c_source c with
      | Some _ => s
      | None =>
          let n := s_next s in
          let s := on_cache i (fun c => c <| c_source := Some (Claiming n) |>)
                     (s <| s_next := S n |> <| s_trace ::= fun l => l ++ [Provide i n] |>) in
          claimed_by i n (foldl (do_act i) s (p_acts (provider n)))
      end
  | None => s
  end.

Definition changed (i : nat) (e : event) (s : shared) : shared :=
  match caches s !! i with
  | Some c =>
      if c_listening c then
        if bool_decide (ev_self e = Some i) then
          let s := if c_claimed c && bool_decide (ev_old e = None) && negb (bool_decide (ev_new e = s_version s))
                   then unclaim_by i s else s in
          seen i (ev_new e) s
        else
          match ev_new e with
          | None => if c_claimed c then seen i None s else claim_by i s
          | Some _ => seen i (ev_new e) s
          end
      else s
  | None => s
  end.

(** One of the listeners, if it is in the frame. *)
Definition listen (window : nat) (e : event) (s : shared) (i : nat) : shared :=
  match caches s !! i with
  | Some c => if Nat.eqb (c_window c) window then changed i e s else s
  | None => s
  end.
End Nested.

Fixpoint dispatch_event (fuel window : nat) (e : event) (s : shared) : shared :=
  foldl (listen (match fuel with O => fun _ _ s => s | S fuel => dispatch_event fuel end) window e) s (seq 0 (length (caches s))).

(** [window.dispatchEvent(ev)].  Listeners are called in the order in which they
    were added. *)
Definition dispatch (window : nat) (e : event) (s : shared) : shared := dispatch_event (S (length (caches s))) window e s.

Definition claim : nat -> shared -> shared := claim_by dispatch.
Definition unclaim : nat -> shared -> shared := unclaim_by dispatch.
Definition result : nat -> jval -> shared -> shared := result_by dispatch.
Definition close : nat -> shared -> shared := close_by dispatch.

(** [new StorageCache] in a frame. *)
Definition open (window : nat) (s : shared) : shared :=
  let i := length (caches s) in
  let s := s <| caches ::= fun l => l ++ [mk_cache window None false None true [] []] |> in
  match s_version s with Some _ => callback i s | None => claim i s end.

(** The next event of a frame. *)
Definition deliver (window : nat) (s : shared) : shared :=
  match queues s !! window with
  | Some (e :: q) => dispatch window e (s <| queues ::= <[window := q]> |>)
  | _ => s
  end.

(** The timeout that calls the consumer, which may want no more. *)
Definition consume (i : nat) (more : bool) (s : shared) : shared :=
  match caches s !! i with
  | Some c =>
      match c_pending c with
      | v :: rest =>
          let s := on_cache i (fun c => c <| c_pending := rest |> <| c_told ::= fun l => l ++ [v] |>) s in
          if more then s else close i s
      | [] => s
      end
  | None => s
  end.

Inductive cache_step :=
  | Open (window : nat)
  | Close (cache : nat)
  | Claim (cache : nat)
  | Result (cache : nat) (value : jval)
  | Deliver (window : nat)
  | Consume (cache : nat) (more : bool).

Definition run (s : shared) (x : cache_step) : shared :=
  match x with
  | Open w => open w s
  | Close i => close i s
  | Claim i => claim i s
  | Result i v => result i v s
  | Deliver w => deliver w s
  | Consume i more => consume i more s
  end.
End Caches.

(** ** Permissions *)

Record user := mk_user { u_id : option Z; u_groups : list string }.

Record permission := mk_permission { p_allowed : jval; p_user : option user; p_is_superuser : jval; p_changed : nat }.

(** The options, for the tests with a user and what to say of the privileges. *)
Record permission_options := mk_permission_options {
  po_group : string; po_admin : bool; po_user : option user; po_is_superuser : jval }.

Definition decide_user (group : string) (admin : bool) (is_superuser : jval) (u : user) : jval :=
  if bool_decide (u_id u = Some 0) then JBool true
  else if negb (String.eqb group "") then JBool (existsb (String.eqb group) (u_groups u))
  else if admin then is_superuser
  else match u_id u with None => JNull | Some _ => JBool false end.

Definition group_of (options : option permission_options) : string := match options with Some o => po_group o | None => "" end.
Definition admin_of (options : option permission_options) : bool := match options with Some o => po_admin o | None => false end.

(** With whether the user is asked for. *)
Definition new_permission (options : option permission_options) : permission * bool :=
  let u := options ≫= po_user in
  let is_superuser := match options with Some o => po_is_superuser o | None => JNull end in
  match u, is_superuser with
  | Some user, JNull => (mk_permission JNull u JNull 0, true)
  | Some user, _ => (mk_permission (decide_user (group_of options) (admin_of options) is_superuser user) u is_superuser 0, false)
  | None, _ => (mk_permission JNull u is_superuser 0, true)
  end.

(** The answers; a change is told. *)
Definition permission_known (options : option permission_options) (u : user) (is_superuser : bool) (p : permission) : permission :=
  let allowed := decide_user (group_of options) (admin_of options) (JBool is_superuser) u in
  mk_permission allowed (Some u) (JBool is_superuser) (if strict_eq (p_allowed p) allowed then p_changed p else S (p_changed p)).
