(* ===== verification/CacheSpec.v ===== *)
(** * Frames agree on what they share

    However the frames, their events and the providers interleave: a cache whose
    frame has had all its events has shown the current data, or when there are no
    data the next value of its provider is taken.  Listeners and providers call
    each other: what other calls leave of a cache is the relation [passes], the
    depth of the calls is bounded by the caches that are left to close, and the
    invariant counts the events that a cache has yet to hear, in its queue or from
    a dispatch that is under way.  And the loop of [clear] purges exactly the keys
    that it should. *)

From S2P Require Import Prelude Cache.

(** ** Purging *)

Lemma assoc_del_middle {A} (k : string) (x : A) a b : k ∉ a.*1 -> k ∉ b.*1 -> assoc_del k (a ++ (k, x) :: b) = a ++ b.
Proof.
  assert (forall l : list (string * A), k ∉ l.*1 -> assoc_del k l = l) as Hsame.
  { induction l as [|[k' y] l IH]; [done|]. cbn. intros [Hne Hl]%not_elem_of_cons.
    rewrite (proj2 (String.eqb_neq k' k)) by congruence. by rewrite IH. }
  induction a as [|[k' y] a IH]; cbn; intros Ha Hb; [rewrite String.eqb_refl; by apply Hsame|].
  apply not_elem_of_cons in Ha as [Hne Ha]. rewrite (proj2 (String.eqb_neq k' k)) by congruence. by rewrite IH.
Qed.

Lemma clear_loop_filter application full : forall b a fuel, NoDup (a ++ b).*1 -> (length b < fuel)%nat ->
  clear_loop application fuel full (length a) (a ++ b) = a ++ filter (fun kv => purged application full kv.1 = false) b.
Proof.
  induction b as [|[k x] b IH]; intros a [|fuel] Hn Hf; [cbn in Hf; lia| |cbn in Hf; lia|].
  - cbn. by rewrite app_nil_r, lookup_ge_None_2.
  - cbn [clear_loop length] in *. rewrite lookup_app_r, Nat.sub_diag by done. cbn [lookup list_lookup]. rewrite filter_cons. cbn [fst].
    rewrite fmap_app in Hn. cbn in Hn. pose proof Hn as (Ha & Hab & [Hk Hb]%NoDup_cons)%NoDup_app.
    destruct (purged application full k) eqn:E; cbn [decide].
    + rewrite decide_False by done. rewrite assoc_del_middle; [|intros Hin; eapply Hab; [exact Hin|by left]|done].
      apply IH; [|lia]. rewrite fmap_app. apply NoDup_app. split; [done|]. split; [|done]. intros y Hy Hy'. eapply Hab; [exact Hy|by right].
    + rewrite decide_True by done. specialize (IH (a ++ [(k, x)]) fuel). rewrite <- !app_assoc in IH. cbn in IH.
      rewrite length_app in IH. cbn in IH. rewrite Nat.add_1_r in IH. apply IH; [|lia]. by rewrite fmap_app.
Qed.

(** [clear] ends, and leaves exactly what it does not purge. *)
Lemma clear_filter application full storage : NoDup storage.*1 ->
  clear application full storage = filter (fun kv => purged application full kv.1 = false) storage.
Proof. intros Hn. unfold clear. by rewrite (clear_loop_filter application full storage [] _ Hn) by lia. Qed.

(** The keys of an application are those that start with its name, and so of
    applications whose name starts with it. *)
Lemma clear_other_application : clear "cockpit" false [("cockpit+work:key", "value")] = [].
Proof. vm_compute. reflexivity. Qed.

(** ** Caches that come after others *)

Section Spec.
Context (random : nat -> Z) (provider : nat -> provided).

(** The data that were given to the consumer last. *)
Definition shown (c : cache) : option jval := last (c_told c ++ c_pending c).

(** What a provider gives now is taken. *)
Definition accepts (c : cache) : Prop := c_claimed c = true \/ c_source c <> None.

(** Neither listening nor with anything to give up. *)
Definition active (c : cache) : bool := c_listening c || c_claimed c || bool_decide (c_source c <> None).

(** What other operations do to a cache while it is claimed or hears an event. *)
Record passes (c c' : cache) : Prop := {
  p_window : c_window c' = c_window c;
  p_listening : c_listening c' = true -> c_listening c = true;
  p_source : c_listening c' = true -> c_source c <> None -> c_source c' = c_source c;
  p_claimed : c_listening c' = true -> c_claimed c = true -> c_claimed c' = true;
  p_active : active c' = true -> active c = true }.

#[export] Instance passes_preorder : PreOrder passes.
Proof.
  split; [by split|]. intros c1 c2 c3 H12 H23. destruct H12 as [w1 l1 s1 k1 a1], H23 as [w2 l2 s2 k2 a2]. split.
  - congruence.
  - auto.
  - intros H Hs. rewrite s2; [by apply s1, Hs; apply l2|done|]. rewrite s1; auto.
  - intros H Hc. apply k2; [done|]. apply k1; auto.
  - auto.
Qed.

Record grows (s s' : shared) : Prop := {
  g_length : length (caches s') = length (caches s);
  g_drawn : (s_drawn s <= s_drawn s')%nat;
  g_trace : s_trace s `prefix_of` s_trace s';
  g_cache : forall j c, caches s !! j = Some c -> exists c', caches s' !! j = Some c' /\ passes c c' }.

#[export] Instance grows_preorder : PreOrder grows.
Proof.
  split.
  - intros s. split; try done. intros j c Hj. by exists c.
  - intros s1 s2 s3 [L1 D1 T1 C1] [L2 D2 T2 C2]. split; [congruence|lia|by etrans|]. intros j c Hj.
    destruct (C1 j c Hj) as (c' & Hj' & H1), (C2 j c' Hj') as (c'' & Hj'' & H2). exists c''. split; [done|]. by etrans.
Qed.

(** The caches that are left to close. *)
Definition count (l : list cache) : nat := length (List.filter active l).
Definition actives (s : shared) : nat := count (caches s).

Lemma count_le l : forall l', length l' = length l ->
  (forall (j : nat) c, l !! j = Some c -> exists c', l' !! j = Some c' /\ (active c' = true -> active c = true)) ->
  (count l' <= count l)%nat /\
  forall (j : nat) c c', l !! j = Some c -> l' !! j = Some c' -> active c = true -> active c' = false -> (count l' < count l)%nat.
Proof.
  unfold count. induction l as [|x l IH]; intros [|x' l'] Hl H; try discriminate.
  - split; [done|]. intros j c c' Hj. done.
  - destruct (IH l') as [Hle Hlt]; [cbn in Hl; lia|intros j; exact (H (S j))|].
    destruct (H 0%nat x eq_refl) as (c0 & [= <-] & H0). cbn [List.filter].
    split; [destruct (active x'); [rewrite H0 by done|destruct (active x)]; cbn [length]; lia|].
    intros [|j] c c' Hc Hc' Ha Ha'.
    + cbn in Hc, Hc'. injection Hc as <-. injection Hc' as <-. rewrite Ha, Ha'. cbn [length]. lia.
    + specialize (Hlt j c c' Hc Hc' Ha Ha'). destruct (active x'); [rewrite H0 by done|destruct (active x)]; cbn [length]; lia.
Qed.

Lemma grows_actives s s' : grows s s' -> (actives s' <= actives s)%nat.
Proof.
  intros [L _ _ C]. apply count_le; [done|]. intros j c Hj. destruct (C j c Hj) as (c' & H1 & H2). exists c'.
  split; [done|]. apply (p_active _ _ H2).
Qed.

Lemma grows_fewer s s' j c c' : grows s s' -> caches s !! j = Some c -> caches s' !! j = Some c' ->
  active c = true -> active c' = false -> (actives s' < actives s)%nat.
Proof.
  intros [L _ _ C]. apply count_le; [done|]. intros j' c0 Hj. destruct (C j' c0 Hj) as (c1 & H1 & H2). exists c1.
  split; [done|]. apply (p_active _ _ H2).
Qed.

Lemma actives_length s : (actives s <= length (caches s))%nat.
Proof. unfold actives, count. apply List.filter_length_le. Qed.

Lemma listening_active c : c_listening c = true -> active c = true.
Proof. unfold active. by intros ->. Qed.

Lemma active_actives s i c : caches s !! i = Some c -> active c = true -> (0 < actives s)%nat.
Proof.
  intros Hi Ha. unfold actives, count. apply list_elem_of_lookup_2, list_elem_of_In in Hi.
  assert (In c (List.filter active (caches s))) as H by (by apply filter_In). destruct (List.filter active (caches s)); [done|cbn; lia].
Qed.

(** ** Updates of one cache *)

Lemma alter_insert {A} (f : A -> A) (i : nat) (l : list A) x : l !! i = Some x -> alter f i l = <[i:=f x]> l.
Proof.
  intros Hi. apply list_eq. intros j. destruct (decide (i = j)) as [<-|Hne].
  - rewrite list_lookup_alter_eq, Hi. cbn. rewrite list_lookup_insert_eq; [done|]. by eapply lookup_lt_Some.
  - by rewrite list_lookup_alter_ne, list_lookup_insert_ne.
Qed.

Lemma alter_absent {A} (f : A -> A) (i : nat) (l : list A) : l !! i = None -> alter f i l = l.
Proof.
  intros Hi. apply list_eq. intros j. destruct (decide (i = j)) as [<-|Hne]; [by rewrite list_lookup_alter_eq, Hi|].
  by rewrite list_lookup_alter_ne.
Qed.

Lemma on_cache_absent i f s : caches s !! i = None -> on_cache i f s = s.
Proof. intros Hi. destruct s. cbv [set_field id on_cache] in *; cbn in *. by rewrite alter_absent. Qed.

(** Only this cache, and what was drawn and traced, differ. *)
Record updates (i : nat) (c c' : cache) (s s' : shared) : Prop := {
  u_before : caches s !! i = Some c;
  u_caches : caches s' = <[i:=c']> (caches s);
  u_value : s_value s' = s_value s;
  u_version : s_version s' = s_version s;
  u_queues : queues s' = queues s;
  u_drawn : s_drawn s' = s_drawn s;
  u_trace : s_trace s `prefix_of` s_trace s' }.

Lemma updates_after i c c' s s' : updates i c c' s s' -> caches s' !! i = Some c'.
Proof. intros U. rewrite (u_caches _ _ _ _ _ U). apply list_lookup_insert_eq. eapply lookup_lt_Some, (u_before _ _ _ _ _ U). Qed.

Lemma on_cache_updates i f c s : caches s !! i = Some c -> updates i c (f c) s (on_cache i f s).
Proof. intros Hi. split; try done. exact (alter_insert _ _ _ _ Hi). Qed.

Lemma insert_grows i c c' s s' : caches s !! i = Some c -> caches s' = <[i:=c']> (caches s) -> (s_drawn s <= s_drawn s')%nat ->
  s_trace s `prefix_of` s_trace s' -> passes c c' -> grows s s'.
Proof.
  intros Hi Hc Hd Ht Hp. split; [by rewrite Hc, length_insert|done|done|]. intros j cj Hj. rewrite Hc.
  destruct (decide (i = j)) as [<-|Hne].
  - assert (cj = c) as -> by congruence. exists c'. rewrite list_lookup_insert_eq; [done|]. by eapply lookup_lt_Some.
  - exists cj. by rewrite list_lookup_insert_ne.
Qed.

Lemma updates_grows i c c' s s' : updates i c c' s s' -> passes c c' -> grows s s'.
Proof. intros U. eapply insert_grows; [exact (u_before _ _ _ _ _ U)|exact (u_caches _ _ _ _ _ U)|by rewrite (u_drawn _ _ _ _ _ U)|exact (u_trace _ _ _ _ _ U)]. Qed.

Lemma shown_app c v : shown (c <| c_pending ::= fun l => l ++ [v] |>) = Some v.
Proof. destruct c as [w l cl so li pe to]. unfold shown. cbv [set_field id]; cbn. by rewrite app_assoc, last_snoc. Qed.

Lemma seen_updates i n s c : caches s !! i = Some c -> exists c', updates i c c' s (seen i n s) /\
  c_window c' = c_window c /\ c_listening c' = c_listening c /\ c_claimed c' = c_claimed c /\ c_source c' = c_source c /\
  c_last c' = Some n /\
  (c_last c = Some n /\ shown c' = shown c \/
   c_last c <> Some n /\ shown c' = match s_value s with Some x => Some x | None => shown c end).
Proof.
  intros Hi. unfold seen. rewrite Hi. case_bool_decide as E.
  - exists c. split; [split; try done; by rewrite list_insert_id|]. do 5 (split; [done|]). by left.
  - unfold callback. set (c1 := c <| c_last := Some n |>). set (s1 := on_cache i _ s).
    assert (updates i c c1 s s1) as U by (by apply (on_cache_updates i (fun c => c <| c_last := Some n |>))).
    change (s_value s1) with (s_value s). destruct (s_value s) as [x|] eqn:Ex.
    + exists (c1 <| c_pending ::= fun l => l ++ [x] |>). split.
      * pose proof (on_cache_updates i (fun c => c <| c_pending ::= fun l => l ++ [x] |>) c1 s1 (updates_after _ _ _ _ _ U)) as U2.
        destruct U, U2. split; try done. by rewrite u_caches1, u_caches0, list_insert_insert_eq.
      * destruct c. do 5 (split; [done|]). right. split; [done|]. apply shown_app.
    + exists c1. split; [done|]. destruct c. do 5 (split; [done|]). by right.
Qed.

Lemma seen_grows i n s : grows s (seen i n s).
Proof.
  destruct (caches s !! i) as [c|] eqn:Ei; [|unfold seen; by rewrite Ei].
  destruct (seen_updates i n s c Ei) as (c' & U & H1 & H2 & H3 & H4 & _). eapply updates_grows; [done|].
  split; unfold active; rewrite ?H2, ?H3, ?H4; done.
Qed.

Lemma withdraw_spec i s c : caches s !! i = Some c ->
  exists c', caches (withdraw i s).1 = <[i:=c']> (caches s) /\ c_window c' = c_window c /\ c_last c' = c_last c /\
    c_listening c' = c_listening c /\ c_claimed c' = false /\ c_source c' = None /\
    s_drawn (withdraw i s).1 = s_drawn s /\ s_trace s `prefix_of` s_trace (withdraw i s).1 /\
    match (withdraw i s).2 with
    | Some e => c_claimed c = true /\ exists v, e = mk_event (Some v) None (Some i) /\
        s_value (withdraw i s).1 = None /\ s_version (withdraw i s).1 = None /\
        queues (withdraw i s).1 = imap (fun w q => if Nat.eqb w (c_window c) then q else q ++ [mk_event (Some v) None None]) (queues s)
    | None => s_value (withdraw i s).1 = s_value s /\ s_version (withdraw i s).1 = s_version s /\ queues (withdraw i s).1 = queues s
    end.
Proof.
  intros Hi. unfold withdraw. rewrite Hi. destruct s as [cs va ve qs nx dr tr], c as [w l cl so li pe to].
  cbv [set_field id on_cache] in *; cbn in *. exists (mk_cache w l false None li pe to).
  destruct so as [[n|n]|], cl; cbn.
  all: try (destruct ve as [v|]; [case_bool_decide|]; cbn).
  all: rewrite ?list_alter_alter_eq, (alter_insert _ _ _ _ Hi); do 7 (split; [reflexivity|]); split;
    [try apply prefix_app_r; reflexivity|]; first [by repeat split|split; [done|]; by exists v].
Qed.

(** ** Events *)

(** An event of its own is about the version there is, or about data that were
    given up by a cache that does not listen any more. *)
Definition sound (e : event) (s : shared) : Prop :=
  ev_self e = None \/
  match ev_new e with
  | Some _ => ev_new e = s_version s
  | None => ev_old e <> None /\ forall j c, ev_self e = Some j -> caches s !! j = Some c -> c_listening c = false
  end.

Lemma sound_grows e s s' : grows s s' -> (ev_new e <> None -> s_version s' = s_version s) -> sound e s -> sound e s'.
Proof.
  intros G Hv [H|H]; [by left|right]. destruct (ev_new e); [by rewrite Hv|]. destruct H as [H1 H2]. split; [done|].
  intros j c' Hj Hc'. destruct (lookup_lt_is_Some_2 (caches s) j) as [c Hc].
  { rewrite <- (g_length _ _ G). by eapply lookup_lt_Some. }
  destruct (g_cache _ _ G j c Hc) as (c'' & H3 & H4). assert (c'' = c') as -> by congruence.
  specialize (H2 j c Hj Hc). destruct (c_listening c') eqn:E; [|done]. by rewrite (p_listening _ _ H4 E) in H2.
Qed.

(** What a cache does with such an event. *)
Lemma changed_eq D i e s c : sound e s -> caches s !! i = Some c ->
  changed random provider D i e s =
    if c_listening c then
      match ev_new e with
      | None => if c_claimed c then seen i None s else claim_by random provider D i s
      | Some _ => seen i (ev_new e) s
      end
    else s.
Proof.
  intros Hs Hi. unfold changed. rewrite Hi. destruct (c_listening c) eqn:El; [|done]. case_bool_decide as Hself; [|done].
  destruct Hs as [Hs|Hs]; [congruence|]. destruct (ev_new e) as [v|] eqn:En.
  - rewrite (bool_decide_eq_true_2 _ Hs), andb_false_r. done.
  - destruct Hs as [_ Hs]. rewrite (Hs i c Hself Hi) in El. done.
Qed.

(** *** Operations only take away listeners *)

Section Grows.
Context (D : nat -> event -> shared -> shared) (HD : forall w e s, sound e s -> grows s (D w e s)).

Lemma mute_updates i c s : caches s !! i = Some c ->
  updates i c (c <| c_listening := false |>) s (on_cache i (fun c => c <| c_listening := false |>) s).
Proof. exact (on_cache_updates i (fun c => c <| c_listening := false |>) c s). Qed.

Lemma mute_passes c : passes c (c <| c_listening := false |>).
Proof. split; try done. unfold active. destruct c as [w l cl so li pe to]. cbn. by destruct li. Qed.

(** Closing, in parts: the cache is muted, gives up, and the event is told. *)
Lemma close_parts i c s : caches s !! i = Some c ->
  exists s1 s2 c', updates i c (c <| c_listening := false |>) s s1 /\ withdraw i s1 = (s2, (withdraw i s1).2) /\
    grows s s1 /\ grows s1 s2 /\ caches s2 !! i = Some c' /\ active c' = false /\ c_listening c' = false /\
    close_by D i s = match (withdraw i s1).2 with Some e => D (c_window c) e s2 | None => s2 end.
Proof.
  intros Hi. pose proof (mute_updates i c s Hi) as U. set (s1 := on_cache i _ s) in *. set (c1 := c <| c_listening := false |>) in *.
  pose proof (updates_after _ _ _ _ _ U) as Hi1. destruct (withdraw_spec i s1 c1 Hi1) as (c' & W1 & W2 & W3 & W4 & W5 & W6 & W7 & W8 & _).
  exists s1, (withdraw i s1).1, c'. split; [done|]. split; [apply surjective_pairing|].
  split; [eapply updates_grows; [done|apply mute_passes]|]. split; [|split; [|split; [|split]]].
  - eapply insert_grows; [exact Hi1|exact W1|lia|done|]. assert (c_listening c' = false) as W4' by (by rewrite W4).
    split; [done|by rewrite W4'..|]. unfold active. by rewrite W4', W5, W6.
  - rewrite W1. apply list_lookup_insert_eq. by eapply lookup_lt_Some.
  - unfold active. rewrite W4, W5, W6. done.
  - by rewrite W4.
  - unfold close_by, unclaim_by. fold s1. rewrite Hi1. by destruct (withdraw i s1) as [s2 [e|]].
Qed.

Lemma close_event i s1 c1 e : caches s1 !! i = Some c1 -> (withdraw i s1).2 = Some e ->
  exists v, e = mk_event (Some v) None (Some i).
Proof. intros Hi He. destruct (withdraw_spec i s1 c1 Hi) as (c' & _ & _ & _ & _ & _ & _ & _ & _ & W). rewrite He in W. destruct W as (_ & v & W & _). by exists v. Qed.

Lemma close_sound i s1 s2 c c' e s : updates i c (c <| c_listening := false |>) s s1 -> (withdraw i s1).2 = Some e ->
  caches s2 !! i = Some c' -> c_listening c' = false -> sound e s2.
Proof.
  intros U He Hi' Hl. destruct (close_event i s1 _ e (updates_after _ _ _ _ _ U) He) as (v & ->). right. split; [done|].
  intros j cj [= <-] Hj. congruence.
Qed.

Lemma closing_grows i s : grows s (close_by D i s).
Proof.
  destruct (caches s !! i) as [c|] eqn:Ei.
  - destruct (close_parts i c s Ei) as (s1 & s2 & c' & U & W & G1 & G2 & H1 & H2 & H3 & ->).
    destruct ((withdraw i s1).2) as [e|] eqn:E; [|by etrans]. etrans; [exact G1|]. etrans; [exact G2|]. apply HD. by eapply close_sound.
  - unfold close_by, unclaim_by, withdraw. by rewrite on_cache_absent, !Ei.
Qed.

(** The value is taken, before it is told. *)
Definition taken (i : nat) (x : jval) (c : cache) (s : shared) : shared :=
  storage_event (c_window c) (mk_event (s_version s) (Some (random (s_drawn s))) None)
    (on_cache i (fun c => c <| c_claimed := true |>) s <| s_drawn ::= S |> <| s_value := Some x |>
       <| s_version := Some (random (s_drawn s)) |>).

Definition new_version (i : nat) (s : shared) : event := mk_event None (Some (random (s_drawn s))) (Some i).

Lemma result_eq i x s c : caches s !! i = Some c ->
  accepts c /\ result_by random D i x s = D (c_window c) (new_version i s) (taken i x c s) \/
  ~ accepts c /\ result_by random D i x s = s.
Proof.
  intros Hi. unfold result_by. rewrite Hi. unfold accepts. destruct (c_claimed c) eqn:Ec; [by left; split; [left|]|].
  case_bool_decide as Es; [left; split; [by right|done]|right]. split; [|done]. by intros [?|?].
Qed.

Lemma taken_sound i x c s : sound (new_version i s) (taken i x c s).
Proof. by right. Qed.

Lemma taken_grows i x c s : caches s !! i = Some c -> accepts c -> grows s (taken i x c s).
Proof.
  intros Hi Ha. eapply (insert_grows i c (c <| c_claimed := true |>)); [done| |cbn; lia|done|].
  - exact (alter_insert _ _ _ _ Hi).
  - split; try done. intros _. unfold active. destruct Ha as [->|Hs]; [by rewrite orb_true_r|].
    by rewrite (bool_decide_eq_true_2 _ Hs), orb_true_r.
Qed.

Lemma result_grows i x s : grows s (result_by random D i x s).
Proof.
  destruct (caches s !! i) as [c|] eqn:Ei; [|unfold result_by; by rewrite Ei].
  destruct (result_eq i x s c Ei) as [[Ha ->]|[_ ->]]; [|done]. etrans; [by apply (taken_grows i x c s)|]. apply HD, taken_sound.
Qed.

Lemma act_grows i a s : grows s (do_act random D i s a).
Proof. destruct a; [apply result_grows|apply closing_grows]. Qed.

Lemma acts_grow i l : forall s, grows s (foldl (do_act random D i) s l).
Proof. induction l as [|a l IH]; intros s; [done|]. cbn. etrans; [apply (act_grows i a s)|apply IH]. Qed.

(** A claim, in parts. *)
Definition claiming (i : nat) (s : shared) : shared :=
  on_cache i (fun c => c <| c_source := Some (Claiming (s_next s)) |>)
    (s <| s_next := S (s_next s) |> <| s_trace ::= fun l => l ++ [Provide i (s_next s)] |>).

Definition provided_to (i : nat) (s : shared) : shared :=
  foldl (do_act random D i) (claiming i s) (p_acts (provider (s_next s))).

Lemma claim_eq i s c : caches s !! i = Some c -> c_source c = None ->
  claim_by random provider D i s = claimed_by provider i (s_next s) (provided_to i s).
Proof. intros Hi Hs. unfold claim_by. by rewrite Hi, Hs. Qed.

Lemma claiming_caches i s c : caches s !! i = Some c ->
  caches (claiming i s) = <[i := c <| c_source := Some (Claiming (s_next s)) |>]> (caches s).
Proof. intros Hi. exact (alter_insert _ _ _ _ Hi). Qed.

Lemma claiming_grows i s c : caches s !! i = Some c -> c_source c = None -> active c = true -> grows s (claiming i s).
Proof.
  intros Hi Hs Ha. eapply insert_grows; [exact Hi|by apply claiming_caches|done|by apply prefix_app_r|]. by split.
Qed.

Lemma provided_grows i s : grows (claiming i s) (provided_to i s).
Proof. apply acts_grow. Qed.

Lemma claiming_active c n : active (c <| c_source := Some (Claiming n) |>) = true.
Proof. unfold active. cbn. by rewrite orb_true_r. Qed.

(** The end of a claim changes the source of the cache at most. *)
Lemma claimed_updates i n s c : caches s !! i = Some c ->
  exists c', updates i c c' s (claimed_by provider i n s) /\ c_window c' = c_window c /\ c_last c' = c_last c /\
    c_listening c' = c_listening c /\ c_claimed c' = c_claimed c /\ shown c' = shown c /\
    (c_source c' = c_source c \/ c_source c = Some (Claiming n) /\ c_source c' = if p_returns (provider n) then Some (Provided n) else None).
Proof.
  intros Hi. unfold claimed_by. rewrite Hi. case_bool_decide as Es.
  - eexists. split; [by apply (on_cache_updates i (fun c => c <| c_source := if p_returns (provider n) then Some (Provided n) else None |>))|].
    destruct c. do 5 (split; [done|]). by right.
  - exists c. split; [split; try done; [by rewrite list_insert_id|by apply prefix_app_r]|]. do 5 (split; [done|]). by left.
Qed.

Lemma claim_grows i s c : caches s !! i = Some c -> active c = true -> grows s (claim_by random provider D i s).
Proof.
  intros Hi Ha. destruct (c_source c) as [x|] eqn:Es; [unfold claim_by; by rewrite Hi, Es|]. rewrite (claim_eq i s c) by done.
  pose proof (claiming_grows i s c Hi Es Ha) as G1. pose proof (provided_grows i s) as G2.
  destruct (g_cache _ _ G1 i c Hi) as (c1 & Hi1 & P1), (g_cache _ _ G2 i c1 Hi1) as (c2 & Hi2 & P2).
  destruct (claimed_updates i (s_next s) (provided_to i s) c2 Hi2) as (c3 & U & F1 & F2 & F3 & F4 & F5 & F6).
  assert (passes c c2) as P by by etrans. assert (grows s (provided_to i s)) as G by by etrans.
  split.
  - rewrite (u_caches _ _ _ _ _ U), length_insert. apply (g_length _ _ G).
  - rewrite (u_drawn _ _ _ _ _ U). apply (g_drawn _ _ G).
  - etrans; [apply (g_trace _ _ G)|apply (u_trace _ _ _ _ _ U)].
  - intros j cj Hj. rewrite (u_caches _ _ _ _ _ U). destruct (decide (i = j)) as [<-|Hne].
    + exists c3. split; [apply list_lookup_insert_eq; by eapply lookup_lt_Some|]. assert (cj = c) as -> by congruence.
      destruct P as [Q1 Q2 Q3 Q4 Q5]. split; rewrite ?F1, ?F3, ?F4; auto. by rewrite Es.
    + rewrite list_lookup_insert_ne by done. by apply (g_cache _ _ G).
Qed.

Lemma changed_grows i e s : sound e s -> grows s (changed random provider D i e s).
Proof.
  intros Hs. destruct (caches s !! i) as [c|] eqn:Ei; [|unfold changed; by rewrite Ei]. rewrite (changed_eq D i e s c) by done.
  destruct (c_listening c) eqn:El; [|done]. destruct (ev_new e); [apply seen_grows|]. destruct (c_claimed c); [apply seen_grows|].
  eapply claim_grows; [done|by apply listening_active].
Qed.

Lemma changed_version i e s : sound e s -> ev_new e <> None -> s_version (changed random provider D i e s) = s_version s.
Proof.
  intros Hs He. destruct (caches s !! i) as [c|] eqn:Ei; [|unfold changed; by rewrite Ei]. rewrite (changed_eq D i e s c) by done.
  destruct (c_listening c); [|done]. destruct (ev_new e) as [v|]; [|done].
  destruct (seen_updates i (Some v) s c Ei) as (c' & U & _). apply (u_version _ _ _ _ _ U).
Qed.

Lemma listen_grows w e s i : sound e s -> grows s (listen random provider D w e s i).
Proof. intros Hs. unfold listen. destruct (caches s !! i); [|done]. destruct (Nat.eqb _ _); [by apply changed_grows|done]. Qed.

Lemma listen_sound w e s i : sound e s -> sound e (listen random provider D w e s i).
Proof.
  intros Hs. eapply sound_grows; [by apply listen_grows| |done]. intros He. unfold listen.
  destruct (caches s !! i); [|done]. destruct (Nat.eqb _ _); [by apply changed_version|done].
Qed.

Lemma listeners_grow w e l : forall s, sound e s -> grows s (foldl (listen random provider D w e) s l).
Proof.
  induction l as [|i l IH]; intros s Hs; [done|]. cbn. etrans; [by apply (listen_grows w e s i)|]. by apply IH, listen_sound.
Qed.
End Grows.

Lemma dispatch_event_grows fuel : forall w e s, sound e s -> grows s (dispatch_event random provider fuel w e s).
Proof.
  induction fuel as [|fuel IH]; intros w e s Hs; cbn [dispatch_event]; apply listeners_grow; try done.
Qed.

Lemma dispatch_grows w e s : sound e s -> grows s (dispatch random provider w e s).
Proof. apply dispatch_event_grows. Qed.

(** ** The depth of the calls *)

(** Dispatchers that are alike as long as there are no more caches than this to
    close when data are gone. *)
Definition agree (D D' : nat -> event -> shared -> shared) (m : nat) : Prop := forall w e s,
  sound e s -> (ev_new e = None -> (actives s <= m)%nat) -> D w e s = D' w e s.

Section Agree.
Context (D D' : nat -> event -> shared -> shared) (m : nat).
Context (HD : forall w e s, sound e s -> grows s (D w e s)) (HA : agree D D' m).

Lemma close_agree i s : (actives s <= S m)%nat -> close_by D i s = close_by D' i s.
Proof.
  intros Hm. unfold close_by, unclaim_by. set (s1 := on_cache i _ s).
  destruct (caches s !! i) as [c|] eqn:Ei.
  2: { unfold s1, withdraw. by rewrite on_cache_absent, Ei. }
  destruct (withdraw i s1) as [s2 [e|]] eqn:W; [|done].
  pose proof (mute_updates i c s Ei) as U. fold s1 in U. set (c1 := c <| c_listening := false |>) in *.
  pose proof (updates_after _ _ _ _ _ U) as Hi1. rewrite Hi1.
  destruct (withdraw_spec i s1 c1 Hi1) as (c' & W1 & W2 & W3 & W4 & W5 & W6 & W7 & W8 & W9). rewrite W in *. cbn [fst snd] in *.
  destruct W9 as (Hcl & v & -> & _).
  assert (caches s2 !! i = Some c') as Hi2 by (rewrite W1; apply list_lookup_insert_eq; by eapply lookup_lt_Some).
  assert (c_listening c' = false) as Hl by (by rewrite W4).
  assert (active c' = false) as Ha by (unfold active; by rewrite Hl, W5, W6).
  apply HA.
  - right. split; [done|]. intros j cj [= <-] Hj. congruence.
  - intros _. assert (grows s s2) as G.
    { etrans; [eapply updates_grows; [exact U|apply mute_passes]|]. eapply insert_grows; [exact Hi1|exact W1|lia|done|].
      split; [done|by rewrite Hl..|by rewrite Ha]. }
    assert (actives s2 < actives s)%nat; [|lia]. eapply grows_fewer; [exact G|exact Ei|exact Hi2| |exact Ha].
    unfold active. change (c_claimed c = true) in Hcl. by rewrite Hcl, orb_true_r.
Qed.

Lemma result_agree i x s : result_by random D i x s = result_by random D' i x s.
Proof.
  destruct (caches s !! i) as [c|] eqn:Ei; [|unfold result_by; by rewrite Ei].
  destruct (result_eq D i x s c Ei) as [[Ha ->]|[Hn ->]], (result_eq D' i x s c Ei) as [[Ha' ->]|[Hn' ->]]; try done.
  apply HA; [apply taken_sound|done].
Qed.

Lemma acts_agree i l : forall s, (actives s <= S m)%nat -> foldl (do_act random D i) s l = foldl (do_act random D' i) s l.
Proof.
  induction l as [|a l IH]; intros s Hm; [done|]. cbn [foldl].
  assert (do_act random D' i s a = do_act random D i s a) as -> by (destruct a; [symmetry; apply result_agree|symmetry; by apply close_agree]).
  apply IH. etrans; [|exact Hm]. by apply grows_actives, act_grows.
Qed.

Lemma claim_agree i s : (actives (claiming i s) <= S m)%nat -> claim_by random provider D i s = claim_by random provider D' i s.
Proof.
  intros Hm. destruct (caches s !! i) as [c|] eqn:Ei; [|unfold claim_by; by rewrite Ei].
  destruct (c_source c) as [x|] eqn:Es; [unfold claim_by; by rewrite Ei, Es|]. rewrite !(claim_eq _ i s c) by done.
  unfold provided_to. by rewrite acts_agree.
Qed.

Lemma changed_agree i e s : sound e s -> (ev_new e = None -> (actives s <= S m)%nat) ->
  changed random provider D i e s = changed random provider D' i e s.
Proof.
  intros Hs Hm. destruct (caches s !! i) as [c|] eqn:Ei; [|unfold changed; by rewrite Ei]. rewrite !(changed_eq _ i e s c) by done.
  destruct (c_listening c) eqn:El; [|done]. destruct (ev_new e); [done|]. destruct (c_claimed c); [done|].
  destruct (c_source c) as [x|] eqn:Es; [unfold claim_by; by rewrite Ei, Es|].
  apply claim_agree. etrans; [|by apply Hm]. apply grows_actives. eapply claiming_grows; [done..|by apply listening_active].
Qed.

Lemma listeners_agree w e l : forall s, sound e s -> (ev_new e = None -> (actives s <= S m)%nat) ->
  foldl (listen random provider D w e) s l = foldl (listen random provider D' w e) s l.
Proof.
  induction l as [|i l IH]; intros s Hs Hm; [done|]. cbn [foldl].
  assert (listen random provider D' w e s i = listen random provider D w e s i) as ->.
  { unfold listen. destruct (caches s !! i); [|done]. destruct (Nat.eqb _ _); [|done]. symmetry. by apply changed_agree. }
  apply IH; [by apply listen_sound|]. intros He. etrans; [|by apply Hm]. by apply grows_actives, listen_grows.
Qed.
End Agree.

(** Nobody listens when there is nothing to close. *)
Lemma listeners_idle D w e l s : sound e s -> actives s = 0%nat -> foldl (listen random provider D w e) s l = s.
Proof.
  intros Hs Hm. induction l as [|i l IH]; [done|]. cbn [foldl].
  assert (listen random provider D w e s i = s) as ->; [|done]. unfold listen. destruct (caches s !! i) as [c|] eqn:Ei; [|done].
  destruct (Nat.eqb _ _); [|done]. rewrite (changed_eq D i e s c) by done. destruct (c_listening c) eqn:El; [|done].
  pose proof (active_actives s i c Ei (listening_active c El)). lia.
Qed.

(** An event that tells of data goes no deeper. *)
Lemma listeners_flat D D' w e l : (forall w e s, sound e s -> grows s (D w e s)) -> ev_new e <> None -> forall s, sound e s ->
  foldl (listen random provider D w e) s l = foldl (listen random provider D' w e) s l.
Proof.
  intros HD He. induction l as [|i l IH]; intros s Hs; [done|]. cbn [foldl].
  assert (listen random provider D' w e s i = listen random provider D w e s i) as ->; [|by apply IH, listen_sound].
  unfold listen. destruct (caches s !! i) as [c|] eqn:Ei; [|done]. destruct (Nat.eqb _ _); [|done].
  rewrite !(changed_eq _ i e s c) by done. by destruct (ev_new e).
Qed.

(** More fuel than there are caches to close makes no difference; [dispatch] has
    more than there are caches. *)
Lemma dispatch_agree m : forall fuel fuel', (m <= fuel)%nat -> (m <= fuel')%nat ->
  agree (dispatch_event random provider fuel) (dispatch_event random provider fuel') m.
Proof.
  induction m as [|m IH]; intros fuel fuel' Hf Hf' w e s Hs Hm.
  - destruct (ev_new e) as [v|] eqn:En.
    + destruct fuel, fuel'; cbn [dispatch_event]; apply listeners_flat; try done; try congruence; intros; by apply dispatch_event_grows.
    + specialize (Hm eq_refl). destruct fuel, fuel'; cbn [dispatch_event]; rewrite !listeners_idle by (done || lia); done.
  - destruct fuel as [|fuel], fuel' as [|fuel']; try lia. cbn [dispatch_event].
    eapply (listeners_agree _ _ m); [intros; by apply dispatch_event_grows|apply IH; lia|done|done].
Qed.

Lemma dispatch_enough fuel w e s : sound e s -> (length (caches s) <= fuel)%nat ->
  dispatch_event random provider fuel w e s = dispatch random provider w e s.
Proof. intros Hs Hf. apply (dispatch_agree (length (caches s))); [lia|lia|done|]. intros _. apply actives_length. Qed.

(** ** The invariant *)

Definition announces (v : option Z) (q : list event) : Prop := exists e, e ∈ q /\ ev_new e = v.

Definition drawn (s : shared) (v : Z) : Prop := exists k, (k < s_drawn s)%nat /\ v = random k.

(** A provider of the cache was called, gave nothing while it was called and
    returned nothing: what it gives later is not taken. *)
Definition ignored (tr : list provide) (i : nat) : Prop := exists n,
  Provide i n ∈ tr /\ p_returns (provider n) = false /\ forall x, Gives x ∉ p_acts (provider n).

(** A listening cache of a frame with these events to come, in its queue or by a
    dispatch that is under way. *)
Definition good (s : shared) (q : list event) (due : option Z -> Prop) (i : nat) (c : cache) : Prop :=
  match s_version s with
  | Some v => shown c = s_value s \/ c_last c <> Some (Some v) /\ (announces (Some v) q \/ due (Some v))
  | None => accepts c \/ ignored (s_trace s) i \/ announces None q \/ due None
  end.

Section Invariant.
Context (Hrandom : forall j k, random j = random k -> j = k) (frames : nat).

(** [due i w v]: the cache with this number in this frame hears of the version. *)
Record inv (due : nat -> nat -> option Z -> Prop) (s : shared) : Prop := {
  in_frames : length (queues s) = frames;
  in_value : s_value s = None <-> s_version s = None;
  in_version : forall v, s_version s = Some v -> drawn s v;
  in_queues : forall w q e, queues s !! w = Some q -> e ∈ q -> ev_self e = None /\ forall v, ev_new e = Some v -> drawn s v;
  in_last : forall i c v, caches s !! i = Some c -> c_last c = Some (Some v) -> drawn s v;
  in_good : forall i c, caches s !! i = Some c -> exists q, queues s !! c_window c = Some q /\
    (c_listening c = true -> good s q (due i (c_window c)) i c) }.

Lemma drawn_more s s' v : (s_drawn s <= s_drawn s')%nat -> drawn s v -> drawn s' v.
Proof. intros H (k & Hk & ->). exists k. split; [lia|done]. Qed.

Lemma drawn_fresh s v : drawn s v -> v <> random (s_drawn s).
Proof. intros (k & Hk & ->) H%Hrandom. lia. Qed.

Lemma ignored_more tr tr' i : tr `prefix_of` tr' -> ignored tr i -> ignored tr' i.
Proof. intros [l ->] (n & H1 & H2). exists n. split; [|done]. apply elem_of_app. by left. Qed.

Lemma announces_first v e q : announces v (e :: q) -> ev_new e = v \/ announces v q.
Proof. intros (x & [->|Hx]%elem_of_cons & Hn); [by left|right; by exists x]. Qed.

Lemma good_more s s' q (due due' : option Z -> Prop) i c : s_version s' = s_version s -> s_value s' = s_value s ->
  s_trace s `prefix_of` s_trace s' -> (forall v, due v -> due' v) -> good s q due i c -> good s' q due' i c.
Proof.
  intros Ev Ex Ht Hd. unfold good. rewrite Ev, Ex. destruct (s_version s).
  - intros [H|(H1 & [H|H])]; [by left|right; split; [done|by left]|right; split; [done|right; auto]].
  - intros [H|[H|[H|H]]]; [by left|right; left; by eapply ignored_more|by right; right; left|right; right; right; auto].
Qed.

(** One cache changes. *)
Lemma updates_inv (due due' : nat -> nat -> option Z -> Prop) i c c' s s' : updates i c c' s s' ->
  c_window c' = c_window c -> (forall v, c_last c' = Some (Some v) -> drawn s v) ->
  (forall j w v, j <> i -> due j w v -> due' j w v) ->
  (forall q, (c_listening c = true -> good s q (due i (c_window c)) i c) -> c_listening c' = true -> good s' q (due' i (c_window c)) i c') ->
  inv due s -> inv due' s'.
Proof.
  intros [U1 U2 U3 U4 U5 U6 U7] Hw Hl Hd Hg [I1 I2 I3 I4 I5 I6].
  assert (forall v, drawn s v -> drawn s' v) as Hdr by (intros v; apply drawn_more; lia).
  split; rewrite ?U3, ?U4, ?U5; auto.
  - intros w q e Hq He. destruct (I4 w q e Hq He) as [H1 H2]. split; [done|]. auto.
  - intros j cj v. rewrite U2. destruct (decide (i = j)) as [<-|Hne].
    + rewrite list_lookup_insert_eq by (by eapply lookup_lt_Some). intros [= <-] H. auto.
    + rewrite list_lookup_insert_ne by done. eauto.
  - intros j cj. rewrite U2. destruct (decide (i = j)) as [<-|Hne].
    + rewrite list_lookup_insert_eq by (by eapply lookup_lt_Some). intros [= <-]. destruct (I6 i c U1) as (q & Hq & H).
      exists q. rewrite Hw. split; [done|]. by apply Hg.
    + rewrite list_lookup_insert_ne by done. intros Hj. destruct (I6 j cj Hj) as (q & Hq & H). exists q. split; [done|].
      intros Hlj. eapply good_more; [done|done|done| |by apply H]. intros v. by apply Hd.
Qed.

Lemma inv_less (due due' : nat -> nat -> option Z -> Prop) s :
  (forall i w v, (i < length (caches s))%nat -> due i w v -> due' i w v) -> inv due s -> inv due' s.
Proof.
  intros Hd [I1 I2 I3 I4 I5 I6]. split; try done. intros i c Hi. destruct (I6 i c Hi) as (q & Hq & H). exists q. split; [done|].
  intros Hl. eapply good_more; [done|done|done| |by apply H]. intros v. apply Hd. by eapply lookup_lt_Some.
Qed.

(** The cache [i] hears of the version [n], which it need not hear any more. *)
Definition hears (i : nat) (n : option Z) (due due' : nat -> nat -> option Z -> Prop) : Prop :=
  (forall j w v, j <> i -> due j w v -> due' j w v) /\ (forall w v, due i w v -> due' i w v \/ v = n).

Lemma seen_inv (due due' : nat -> nat -> option Z -> Prop) i n s c : hears i n due due' -> caches s !! i = Some c ->
  (forall v, n = Some v -> drawn s v) -> (n = None -> c_claimed c = true) -> inv due s -> inv due' (seen i n s).
Proof.
  intros [Hd Hdi] Hi Hn Hcl Hinv. destruct (seen_updates i n s c Hi) as (c' & U & F1 & F2 & F3 & F4 & F5 & F6).
  eapply updates_inv; [exact U|done|intros v Hv; rewrite F5 in Hv; injection Hv as Hv; by apply Hn|exact Hd| |done].
  intros q Hg. rewrite F2. intros Hl. specialize (Hg Hl). unfold good in *. rewrite (u_version _ _ _ _ _ U), (u_value _ _ _ _ _ U).
  destruct (s_version s) as [v|] eqn:Ev.
  - destruct (s_value s) as [x|] eqn:Ex; [|pose proof (proj1 (in_value _ _ Hinv) Ex); congruence].
    destruct Hg as [Hg|[Hne Hq]]; [left; destruct F6 as [[_ ->]|[_ ->]]; done|].
    destruct F6 as [[E ->]|[E ->]]; [|by left]. right. rewrite F5. split; [congruence|].
    destruct Hq as [Hq|Hq]; [by left|]. destruct (Hdi _ _ Hq) as [Hq'|<-]; [by right|congruence].
  - destruct Hg as [Hg|[Hg|[Hg|Hg]]]; [left; unfold accepts; by rewrite F3, F4|right; left; by eapply ignored_more, Hg; apply (u_trace _ _ _ _ _ U)|by right; right; left|].
    destruct (Hdi _ _ Hg) as [Hq'|<-]; [by right; right; right|]. left. left. rewrite F3. by apply Hcl.
Qed.

Definition and_due (w : nat) (e : event) (due : nat -> nat -> option Z -> Prop) : nat -> nat -> option Z -> Prop :=
  fun i w' v => due i w' v \/ w' = w /\ v = ev_new e.

Definition told (e : event) (s : shared) : Prop := forall v, ev_new e = Some v -> drawn s v.

(** What a dispatcher has to do, with so many caches to close. *)
Definition delivers (D : nat -> event -> shared -> shared) (m : nat) : Prop := forall w e s due,
  sound e s -> told e s -> (ev_new e = None -> (actives s <= m)%nat) -> inv (and_due w e due) s -> inv due (D w e s).

Section Nested.
Context (D : nat -> event -> shared -> shared) (m : nat).
Context (HD : forall w e s, sound e s -> grows s (D w e s)) (HI : delivers D m).

(** The data of a closed cache are given up: all others are to hear of it. *)
Lemma withdraw_inv due i s c : caches s !! i = Some c -> c_listening c = false -> inv due s ->
  match (withdraw i s).2 with
  | Some e => inv (and_due (c_window c) e due) (withdraw i s).1
  | None => inv due (withdraw i s).1
  end.
Proof.
  intros Hi Hl Hinv. destruct (withdraw_spec i s c Hi) as (c' & W1 & W2 & W3 & W4 & W5 & W6 & W7 & W8 & W9).
  destruct (withdraw i s) as [s2 [e|]]; cbn [fst snd] in *.
  - destruct W9 as (_ & v & -> & Hx & Hv & Hq). destruct Hinv as [I1 I2 I3 I4 I5 I6].
    assert (forall v, drawn s v -> drawn s2 v) as Hdr by (intros v'; apply drawn_more; lia).
    split; rewrite ?Hx, ?Hv, ?Hq; try done.
    + by rewrite length_imap.
    + intros w q x Hw Hin. rewrite list_lookup_imap in Hw. destruct (queues s !! w) as [q0|] eqn:E0; [|done]. injection Hw as <-.
      assert (x ∈ q0 \/ x = mk_event (Some v) None None) as [H| ->]; [|destruct (I4 w q0 x E0 H); split; [done|]; auto|done].
      destruct (Nat.eqb w (c_window c)); [by left|]. apply elem_of_app in Hin as [?|H]; [by left|right; by apply list_elem_of_singleton].
    + intros j cj v'. rewrite W1. destruct (decide (i = j)) as [<-|Hne].
      * rewrite list_lookup_insert_eq by (by eapply lookup_lt_Some). intros [= <-]. rewrite W3. eauto.
      * rewrite list_lookup_insert_ne by done. eauto.
    + intros j cj. rewrite W1. destruct (decide (i = j)) as [<-|Hne].
      * rewrite list_lookup_insert_eq by (by eapply lookup_lt_Some). intros [= <-]. destruct (I6 i c Hi) as (q & Hqw & _).
        rewrite list_lookup_imap, W2, Hqw. eexists. split; [reflexivity|]. congruence.
      * rewrite list_lookup_insert_ne by done. intros Hj. destruct (I6 j cj Hj) as (q & Hqw & _).
        rewrite list_lookup_imap, Hqw. eexists. split; [reflexivity|]. intros _. unfold good. rewrite Hv. right; right.
        destruct (Nat.eqb_spec (c_window cj) (c_window c)) as [E|E]; [right; right; by rewrite E|left].
        eexists. split; [apply elem_of_app; right; by left|done].
  - destruct W9 as (Hx & Hv & Hq). assert (updates i c c' s s2) as U by by split.
    eapply updates_inv; [exact U|done| |intros ? ? ? _; exact id| |done].
    + intros v. rewrite W3. by apply (in_last _ _ Hinv i).
    + intros q _. rewrite W4. congruence.
Qed.

Lemma closed_by_inv due i s : (actives s <= S m)%nat -> inv due s -> inv due (close_by D i s).
Proof.
  intros Hm Hinv. destruct (caches s !! i) as [c|] eqn:Ei.
  2: { unfold close_by, unclaim_by, withdraw. by rewrite on_cache_absent, Ei. }
  destruct (close_parts D i c s Ei) as (s1 & s2 & c' & U & W & G1 & G2 & H1 & H2 & H3 & ->).
  pose proof (updates_after _ _ _ _ _ U) as Hi1.
  assert (inv due s1) as Hinv1.
  { eapply updates_inv; [exact U|done| |intros ? ? ? _; exact id|done|done]. intros v. exact (in_last _ _ Hinv i c v Ei). }
  pose proof (withdraw_inv due i s1 _ Hi1 eq_refl Hinv1) as Hinv2. rewrite W in Hinv2. cbn [fst] in Hinv2.
  destruct ((withdraw i s1).2) as [e|] eqn:E; cbn [snd] in Hinv2; [|done]. change (c_window c) with (c_window (c <| c_listening := false |>)).
  destruct (close_event i s1 _ e Hi1 E) as (v & ->).
  apply HI; [by eapply close_sound|done| |done]. intros _.
  destruct (withdraw_spec i s1 _ Hi1) as (c'' & _ & _ & _ & _ & _ & _ & _ & _ & W9). rewrite E in W9. destruct W9 as [Hcl _].
  assert (actives s2 < actives s)%nat; [|lia]. eapply grows_fewer; [by etrans|exact Ei|exact H1| |done].
  unfold active. change (c_claimed c = true) in Hcl. by rewrite Hcl, orb_true_r.
Qed.

(** New data: all are to hear of them. *)
Lemma taken_inv due i x c s : caches s !! i = Some c -> accepts c -> inv due s ->
  inv (and_due (c_window c) (new_version i s) due) (taken i x c s).
Proof.
  intros Hi Ha Hinv. destruct Hinv as [I1 I2 I3 I4 I5 I6]. set (c' := c <| c_claimed := true |>). set (s' := taken i x c s).
  assert (caches s' = <[i:=c']> (caches s)) as Hc by exact (alter_insert _ _ _ _ Hi).
  assert (forall v, drawn s v -> drawn s' v) as Hdr by (intros v; apply drawn_more; cbn; lia).
  assert (drawn s' (random (s_drawn s))) as Hnew by (exists (s_drawn s); split; [cbn; lia|done]).
  set (e := mk_event (s_version s) (Some (random (s_drawn s))) None).
  assert (queues s' = imap (fun w q => if Nat.eqb w (c_window c) then q else q ++ [e]) (queues s)) as Hq by done.
  assert (forall (j : nat) cj, caches s' !! j = Some cj -> exists c0, caches s !! j = Some c0 /\ c_window cj = c_window c0 /\ c_last cj = c_last c0) as Hback.
  { intros j cj. rewrite Hc. destruct (decide (i = j)) as [<-|Hne].
    - rewrite list_lookup_insert_eq by (by eapply lookup_lt_Some). intros [= <-]. by exists c.
    - rewrite list_lookup_insert_ne by done. by exists cj. }
  split.
  - by rewrite Hq, length_imap.
  - done.
  - by intros v [= <-].
  - intros w q z Hw Hz. rewrite Hq, list_lookup_imap in Hw. destruct (queues s !! w) as [q0|] eqn:E0; [|done]. injection Hw as <-.
    assert (z ∈ q0 \/ z = e) as [H| ->]; [|destruct (I4 w q0 z E0 H); split; [done|]; auto|by split; [|intros v [= <-]]].
    destruct (Nat.eqb w (c_window c)); [by left|]. apply elem_of_app in Hz as [?|Hz]; [by left|right; by apply list_elem_of_singleton].
  - intros j cj v Hj Hv. destruct (Hback j cj Hj) as (c0 & H0 & _ & El). apply Hdr. eapply I5; [exact H0|congruence].
  - intros j cj Hj. destruct (Hback j cj Hj) as (c0 & H0 & Ew & El). destruct (I6 j c0 H0) as (q & Hqw & _).
    rewrite Hq, list_lookup_imap, Ew, Hqw. eexists. split; [reflexivity|]. intros _. right. split.
    + rewrite El. intros Hv. by apply (drawn_fresh s (random (s_drawn s))); [eapply I5|].
    + destruct (Nat.eqb_spec (c_window c0) (c_window c)) as [E|E]; [right; right; by rewrite E|left].
      exists e. split; [apply elem_of_app; right; by left|done].
Qed.

Lemma result_inv due i x s : inv due s -> inv due (result_by random D i x s).
Proof.
  intros Hinv. destruct (caches s !! i) as [c|] eqn:Ei; [|unfold result_by; by rewrite Ei].
  destruct (result_eq D i x s c Ei) as [[Ha ->]|[_ ->]]; [|done].
  apply HI; [apply taken_sound| |done|by apply taken_inv]. intros v [= <-]. exists (s_drawn s). split; [cbn; lia|done].
Qed.

Lemma acts_inv due i l : forall s, (actives s <= S m)%nat -> inv due s -> inv due (foldl (do_act random D i) s l).
Proof.
  induction l as [|a l IH]; intros s Hm Hinv; [done|]. cbn [foldl]. apply IH.
  - etrans; [by apply grows_actives, (act_grows D HD i a s)|done].
  - destruct a; [by apply result_inv|by apply closed_by_inv].
Qed.

(** A value that was given while a provider was called claims the data. *)
Lemma acts_claim i l : forall s c x, caches s !! i = Some c -> c_source c <> None -> Gives x ∈ l ->
  exists c', caches (foldl (do_act random D i) s l) !! i = Some c' /\ (c_listening c' = true -> c_claimed c' = true).
Proof.
  induction l as [|a l IH]; intros s c x Hi Hs Hx; [by apply not_elem_of_nil in Hx|]. cbn [foldl].
  pose proof (act_grows D HD i a s) as G. destruct (g_cache _ _ G i c Hi) as (c1 & Hi1 & P1).
  pose proof (acts_grow D HD i l (do_act random D i s a)) as G2. destruct (g_cache _ _ G2 i c1 Hi1) as (c2 & Hi2 & P2).
  apply elem_of_cons in Hx as [<-|Hx].
  - exists c2. split; [done|]. intros Hl. pose proof (p_listening _ _ P2 Hl) as Hl1. apply (p_claimed _ _ P2 Hl).
    cbn [do_act] in Hi1. destruct (result_eq D i x s c Hi) as [[Ha E]|[Hn _]]; [|by destruct Hn; right]. rewrite E in Hi1.
    pose proof (HD (c_window c) _ _ (taken_sound i x c s)) as G3.
    assert (caches (taken i x c s) !! i = Some (c <| c_claimed := true |>)) as Ht.
    { change (caches (taken i x c s)) with (alter (fun c => c <| c_claimed := true |>) i (caches s)). by rewrite list_lookup_alter_eq, Hi. }
    destruct (g_cache _ _ G3 i _ Ht) as (c3 & Hi3 & P3). assert (c3 = c1) as -> by congruence. by apply (p_claimed _ _ P3 Hl1).
  - destruct (decide (c_source c1 = None)) as [Hn|Hn]; [|by apply (IH _ c1 x)].
    exists c2. split; [done|]. intros Hl. pose proof (p_listening _ _ P2 Hl) as Hl1. by rewrite (p_source _ _ P1 Hl1 Hs) in Hn.
Qed.

Lemma claim_inv (due due' : nat -> nat -> option Z -> Prop) i s : hears i None due due' ->
  (forall c, caches s !! i = Some c -> c_source c = None -> (actives (claiming i s) <= S m)%nat) ->
  inv due s -> inv due' (claim_by random provider D i s).
Proof.
  intros [Hd Hdi] Hm Hinv. destruct (caches s !! i) as [c|] eqn:Ei.
  2: { unfold claim_by. rewrite Ei. revert Hinv. apply inv_less. intros j w v Hj. apply Hd. intros ->. by apply lookup_lt_is_Some_2 in Hj as [??]; congruence. }
  assert (forall s' c', updates i c c' s s' -> c_window c' = c_window c -> c_last c' = c_last c -> shown c' = shown c ->
    c_listening c' = c_listening c -> accepts c' -> inv due' s') as Hset.
  { intros s' c' U Ew El Es Ell Ha. eapply updates_inv; [exact U|done| |exact Hd| |exact Hinv].
    - intros v. rewrite El. by apply (in_last _ _ Hinv i).
    - intros q Hg. rewrite Ell. intros Hl. specialize (Hg Hl). unfold good in *.
      rewrite (u_version _ _ _ _ _ U), (u_value _ _ _ _ _ U), Es, El. destruct (s_version s); [|by left].
      destruct Hg as [Hg|[Hne [Hq|Hq]]]; [by left|right; split; [done|by left]|right; split; [done|right]].
      by destruct (Hdi _ _ Hq). }
  destruct (c_source c) as [x|] eqn:Es.
  { unfold claim_by. rewrite Ei, Es. eapply (Hset s c); try done; [by split; try done; rewrite list_insert_id|right; by rewrite Es]. }
  rewrite (claim_eq D i s c) by done. set (n := s_next s). set (c1 := c <| c_source := Some (Claiming n) |>).
  assert (updates i c c1 s (claiming i s)) as U1.
  { split; try done; [by apply claiming_caches|by apply prefix_app_r]. }
  assert (inv due' (claiming i s)) as Hinv1 by (eapply (Hset _ c1); [exact U1|done..|by right]).
  assert (caches (claiming i s) !! i = Some c1) as Hi1 by by eapply updates_after.
  assert (inv due' (provided_to D i s)) as Hinv2 by (apply acts_inv; [by apply (Hm c)|done]).
  pose proof (provided_grows D HD i s) as G. destruct (g_cache _ _ G i c1 Hi1) as (c2 & Hi2 & P2).
  destruct (claimed_updates i n (provided_to D i s) c2 Hi2) as (c3 & U & F1 & F2 & F3 & F4 & F5 & F6).
  eapply updates_inv; [exact U|done| |intros ? ? ? _; exact id| |exact Hinv2].
  - intros v. rewrite F2. by apply (in_last _ _ Hinv2 i).
  - intros q Hg. rewrite F3. intros Hl. specialize (Hg Hl). unfold good in *.
    rewrite (u_version _ _ _ _ _ U), (u_value _ _ _ _ _ U), F5, F2. destruct (s_version _); [done|].
    destruct Hg as [Hg|[Hg|Hg]]; [|right; left; by eapply ignored_more, Hg; apply (u_trace _ _ _ _ _ U)|by right; right].
    destruct (c_claimed c2) eqn:Ec; [by left; left; rewrite F4|]. destruct Hg as [Hg|Hg]; [congruence|].
    destruct F6 as [F6|[_ F6]]; [left; right; by rewrite F6|]. destruct (p_returns (provider n)) eqn:Er; [left; right; by rewrite F6|].
    right; left. exists n. split; [|split; [done|]].
    + eapply elem_of_prefix, (u_trace _ _ _ _ _ U). eapply elem_of_prefix, (g_trace _ _ G).
      cbn. apply elem_of_app. right. by left.
    + intros x Hx. destruct (acts_claim i (p_acts (provider n)) (claiming i s) c1 x Hi1 ltac:(done) Hx) as (c2' & Hi2' & Hcl).
      change (caches (provided_to D i s) !! i = Some c2') in Hi2'. assert (c2' = c2) as -> by congruence. by rewrite Hcl in Ec.
Qed.

End Nested.

Lemma stays_inv (due due' : nat -> nat -> option Z -> Prop) i s c : caches s !! i = Some c ->
  (forall j w v, j <> i -> due j w v -> due' j w v) ->
  (forall v, c_listening c = true -> due i (c_window c) v -> due' i (c_window c) v) -> inv due s -> inv due' s.
Proof.
  intros Hi Hd Hdi Hinv. eapply (updates_inv due due' i c c); [split; try done; by rewrite list_insert_id|done| |exact Hd| |done].
  - intros v. by apply (in_last _ _ Hinv i).
  - intros q Hg Hl. eapply good_more; [done|done|done| |by apply Hg]. intros v. by apply Hdi.
Qed.

Lemma absent_inv (due due' : nat -> nat -> option Z -> Prop) i s : caches s !! i = None ->
  (forall j w v, j <> i -> due j w v -> due' j w v) -> inv due s -> inv due' s.
Proof.
  intros Hi Hd. apply inv_less. intros j w v Hj. apply Hd. intros ->. apply lookup_lt_is_Some_2 in Hj as [??]. congruence.
Qed.

Section Listeners.
Context (D : nat -> event -> shared -> shared) (m : nat) (HD : forall w e s, sound e s -> grows s (D w e s)).
Context (w : nat) (e : event) (HI : ev_new e = None -> delivers D m).

Lemma changed_inv (due due' : nat -> nat -> option Z -> Prop) i s : sound e s -> told e s ->
  (ev_new e = None -> (actives s <= S m)%nat) -> hears i (ev_new e) due due' -> inv due s ->
  inv due' (changed random provider D i e s).
Proof.
  intros Hs Ht Hm Hh Hinv. destruct (caches s !! i) as [c|] eqn:Ei.
  2: { unfold changed. rewrite Ei. eapply absent_inv; [exact Ei|apply Hh|done]. }
  rewrite (changed_eq D i e s c) by done. destruct (c_listening c) eqn:El.
  - destruct (ev_new e) as [v|] eqn:En; [by eapply seen_inv; [exact Hh|exact Ei|rewrite <- En; exact Ht|done|]|].
    destruct (c_claimed c) eqn:Ec; [by eapply seen_inv|]. apply (claim_inv D m HD (HI eq_refl) due due'); [exact Hh| |done].
    intros c0 Hi0 Hs0. etrans; [|by apply Hm]. apply grows_actives. eapply claiming_grows; [done..|].
    assert (c0 = c) as -> by congruence. by apply listening_active.
  - eapply stays_inv; [exact Ei|apply Hh|congruence|done].
Qed.

(** The listeners from [k] on have yet to hear. *)
Definition from (k : nat) (due : nat -> nat -> option Z -> Prop) : nat -> nat -> option Z -> Prop :=
  fun j w' v => due j w' v \/ (k <= j)%nat /\ w' = w /\ v = ev_new e.

Lemma listen_inv due k s : sound e s -> told e s -> (ev_new e = None -> (actives s <= S m)%nat) ->
  inv (from k due) s -> inv (from (S k) due) (listen random provider D w e s k).
Proof.
  intros Hs Ht Hm Hinv. assert (forall j w' v, j <> k -> from k due j w' v -> from (S k) due j w' v) as Hd.
  { intros j w' v Hj [H|(Hk & H)]; [by left|right]. split; [lia|done]. }
  unfold listen. destruct (caches s !! k) as [c|] eqn:Ek; [|by eapply absent_inv].
  destruct (Nat.eqb_spec (c_window c) w) as [Hw|Hw].
  - eapply changed_inv; [done..| |exact Hinv]. split; [exact Hd|]. intros w' v [H|(_ & _ & H)]; [by left; left|by right].
  - eapply stays_inv; [exact Ek|exact Hd| |done]. intros v _ [H|(_ & H & _)]; [by left|done].
Qed.

Lemma listeners_inv due n : forall k s, sound e s -> told e s -> (ev_new e = None -> (actives s <= S m)%nat) ->
  (k + n = length (caches s))%nat -> inv (from k due) s -> inv due (foldl (listen random provider D w e) s (seq k n)).
Proof.
  induction n as [|n IH]; intros k s Hs Ht Hm Hk Hinv.
  - cbn. revert Hinv. apply inv_less. intros j w' v Hj [H|(H & _)]; [done|lia].
  - cbn [seq foldl]. pose proof (listen_grows D HD w e s k Hs) as G. apply IH.
    + by apply listen_sound.
    + intros v Hv. eapply drawn_more, Ht, Hv. apply (g_drawn _ _ G).
    + intros He. etrans; [by apply grows_actives|by apply Hm].
    + rewrite (g_length _ _ G). lia.
    + by apply listen_inv.
Qed.
End Listeners.

Lemma none_inv (due due' : nat -> nat -> option Z -> Prop) s : actives s = 0%nat -> inv due s -> inv due' s.
Proof.
  intros H0 [I1 I2 I3 I4 I5 I6]. split; try done. intros i c Hi. destruct (I6 i c Hi) as (q & Hq & _). exists q. split; [done|].
  intros Hl. pose proof (active_actives s i c Hi (listening_active c Hl)). lia.
Qed.

Lemma all_from w e due s : inv (and_due w e due) s -> inv (from w e 0 due) s.
Proof. apply inv_less. intros j w' v _ [H|[H1 H2]]; [by left|right]. split; [lia|done]. Qed.

Lemma dispatch_event_delivers m : forall fuel, (m <= fuel)%nat -> delivers (dispatch_event random provider fuel) m.
Proof.
  induction m as [|m IH]; intros fuel Hf w e s due Hs Ht Hm Hinv.
  - destruct (ev_new e) as [v|] eqn:En.
    + destruct fuel as [|fuel]; cbn [dispatch_event]; (eapply (listeners_inv _ 0); [intros; first [reflexivity|by apply dispatch_event_grows]|congruence|done|done|congruence|done|by apply all_from]).
    + specialize (Hm eq_refl). assert (actives s = 0%nat) as H0 by lia.
      destruct fuel as [|fuel]; cbn [dispatch_event]; rewrite listeners_idle by done; by eapply none_inv.
  - destruct fuel as [|fuel]; [lia|]. cbn [dispatch_event].
    eapply (listeners_inv _ m); [intros; by apply dispatch_event_grows|intros _; apply IH; lia|done|done|done|done|by apply all_from].
Qed.

Lemma dispatched_inv due w e s : sound e s -> told e s -> inv (and_due w e due) s -> inv due (dispatch random provider w e s).
Proof.
  intros Hs Ht Hinv. apply (dispatch_event_delivers (actives s)); try done. pose proof (actives_length s). lia.
Qed.

Lemma dispatch_delivers m : delivers (dispatch random provider) m.
Proof. intros w e s due Hs Ht _. by apply dispatched_inv. Qed.

(** ** Every step *)

Definition no_due : nat -> nat -> option Z -> Prop := fun _ _ _ => False.

Lemma hears_nothing i n : hears i n no_due no_due.
Proof. split; [intros j w v _; exact id|by intros w v ?]. Qed.

Lemma cache_close_inv i s : inv no_due s -> inv no_due (close random provider i s).
Proof. apply (closed_by_inv _ (actives s) (dispatch_delivers _)). lia. Qed.

Lemma cache_claim_inv i s : inv no_due s -> inv no_due (claim random provider i s).
Proof.
  apply (claim_inv _ (actives (claiming i s)) dispatch_grows (dispatch_delivers _)); [apply hears_nothing|]. intros. lia.
Qed.

Lemma cache_result_inv i x s : inv no_due s -> inv no_due (result random provider i x s).
Proof. apply (result_inv _ 0 (dispatch_delivers _)). Qed.

Lemma deliver_inv w s : inv no_due s -> inv no_due (deliver random provider w s).
Proof.
  intros Hinv. unfold deliver. destruct (queues s !! w) as [[|e q]|] eqn:Eq; try done. destruct Hinv as [I1 I2 I3 I4 I5 I6].
  destruct (I4 w (e :: q) e Eq ltac:(by left)) as [Hself Hnew]. set (s' := s <| queues ::= <[w := q]> |>).
  assert (queues s' = <[w := q]> (queues s)) as Eq' by done.
  assert (w < length (queues s))%nat as Hw by by eapply lookup_lt_Some.
  apply dispatched_inv; [by left|exact Hnew|]. split; try done.
  - by rewrite Eq', length_insert.
  - intros w' q' x. rewrite Eq'. destruct (decide (w = w')) as [<-|Hne].
    + rewrite list_lookup_insert_eq by done. intros [= <-] Hx. apply (I4 w (e :: q) x Eq). by right.
    + rewrite list_lookup_insert_ne by done. apply I4.
  - intros i c Hi. destruct (I6 i c Hi) as (q' & Hq & Hg). rewrite Eq'. destruct (decide (w = c_window c)) as [E|E].
    + exists q. rewrite <- E, list_lookup_insert_eq by done. split; [done|]. intros Hl. specialize (Hg Hl).
      assert (q' = e :: q) as -> by congruence. unfold good in *. change (s_version s') with (s_version s). destruct (s_version s).
      * destruct Hg as [Hg|[H1 [[H2|H2]%announces_first|[]]]]; [by left|right; split; [done|]..]; [right; by right|by left].
      * destruct Hg as [Hg|[Hg|[[H2|H2]%announces_first|[]]]]; [by left|by right; left|by right; right; right; right|by right; right; left].
    + exists q'. rewrite list_lookup_insert_ne by done. split; [done|]. intros Hl. eapply good_more; [done|done|done| |by apply Hg]. done.
Qed.

Lemma open_inv w s : (w < frames)%nat -> inv no_due s -> inv no_due (open random provider w s).
Proof.
  intros Hw Hinv. unfold open. set (c0 := mk_cache w None false None true [] []). set (s1 := s <| caches ::= _ |>).
  set (i := length (caches s)). destruct Hinv as [I1 I2 I3 I4 I5 I6].
  assert (caches s1 = caches s ++ [c0]) as E1 by done.
  destruct (lookup_lt_is_Some_2 (queues s) w) as [q0 Hq0]; [lia|].
  set (due := fun j (_ : nat) v => j = i /\ (v = None \/ v = s_version s)).
  assert (inv due s1) as Hinv1.
  { split; try done.
    - intros j c v. rewrite E1. intros [Hj|[_ Hj]]%lookup_app_Some; [by eapply I5|]. by apply list_lookup_singleton_Some in Hj as [_ <-].
    - intros j c. rewrite E1. intros [Hj|[Hlen Hj]]%lookup_app_Some.
      + destruct (I6 j c Hj) as (q & Hq & Hg). exists q. split; [done|]. intros Hl. eapply good_more; [done|done|done| |by apply Hg]. done.
      + apply list_lookup_singleton_Some in Hj as [Hj <-]. exists q0. split; [done|]. intros _. unfold good.
        assert (j = i) as Ej by (unfold i; lia). change (s_version s1) with (s_version s). unfold due.
        destruct (s_version s) as [v|]; [right; split; [done|]; right; auto|right; right; right; auto]. }
  assert (caches s1 !! i = Some c0) as Hi by (by rewrite E1, lookup_app_r, Nat.sub_diag).
  change (s_version s1) with (s_version s). destruct (s_version s) as [v|] eqn:Ev.
  - unfold callback. change (s_value s1) with (s_value s).
    destruct (s_value s) as [x|] eqn:Ex; [|discriminate (proj1 I2 eq_refl)].
    eapply updates_inv; [exact (on_cache_updates i (fun c => c <| c_pending ::= fun l => l ++ [x] |>) c0 s1 Hi)|done|done| | |exact Hinv1].
    + by intros j w' v' Hj [? _].
    + intros q _ _. unfold good. change (s_version (on_cache _ _ _)) with (s_version s). rewrite Ev. left. by rewrite shown_app.
  - apply (claim_inv _ (actives (claiming i s1)) dispatch_grows (dispatch_delivers _) due no_due); [|intros; lia|done].
    split; [by intros j w' v' Hj [? _]|]. intros w' v' [_ [?|?]]; right; congruence.
Qed.

Lemma consume_inv i more s : inv no_due s -> inv no_due (consume random provider i more s).
Proof.
  intros Hinv. unfold consume. destruct (caches s !! i) as [c|] eqn:Ei; [|done]. destruct (c_pending c) as [|x rest] eqn:Ep; [done|].
  set (f := fun c : cache => _). set (s1 := on_cache i f s).
  assert (inv no_due s1) as Hinv1; [|destruct more; [done|by apply cache_close_inv]].
  assert (shown (f c) = shown c) as Hs.
  { destruct c as [w l cl so li pe to]. cbn in Ep. subst pe. unfold f, shown. cbv [set_field id]; cbn. by rewrite <- app_assoc. }
  eapply updates_inv; [exact (on_cache_updates i f c s Ei)|done| |intros ? ? ? _; exact id| |exact Hinv].
  - intros v. exact (in_last _ _ Hinv i c v Ei).
  - intros q Hg Hl. specialize (Hg Hl). unfold good in *. rewrite Hs. exact Hg.
Qed.

Definition step_ok (x : cache_step) : Prop := match x with Open w => (w < frames)%nat | _ => True end.

Lemma no_caches_inv : inv no_due (no_caches frames).
Proof.
  split; cbn; try done.
  - by rewrite length_replicate.
  - intros w q e Hq He. apply lookup_replicate in Hq as [-> _]. by apply not_elem_of_nil in He.
Qed.

Lemma run_inv xs : forall s, Forall step_ok xs -> inv no_due s -> inv no_due (foldl (run random provider) s xs).
Proof.
  induction xs as [|x xs IH]; intros s Hok Hinv; [done|]. apply Forall_cons in Hok as [Hx Hok]. cbn [foldl]. apply IH; [done|].
  destruct x; [by apply open_inv|by apply cache_close_inv|by apply cache_claim_inv|by apply cache_result_inv|by apply deliver_inv|by apply consume_inv].
Qed.
End Invariant.
End Spec.

(** C30. However openings, closings, claims, values of providers, consumers and the
    delivery of events interleave, whatever the providers do while they are called
    (give values, close caches, return something or nothing), as long as no version
    is drawn twice: a cache that still listens, in a frame that has had all its
    events, has given the current data to its consumer last, and when there are no
    data, the next value of its provider is taken; or its provider gave nothing
    while it was called and returned nothing, see [value_ignored]. *)
Theorem cache_serves (random : nat -> Z) (provider : nat -> provided) (frames : nat) (xs : list cache_step) (i : nat) (c : cache) :
  (forall j k, random j = random k -> j = k) -> Forall (step_ok frames) xs ->
  let s := foldl (run random provider) (no_caches frames) xs in
  caches s !! i = Some c -> c_listening c = true -> queues s !! c_window c = Some [] ->
  match s_value s with
  | Some data => last (c_told c ++ c_pending c) = Some data
  | None => c_claimed c = true \/ c_source c <> None \/
      exists n, Provide i n ∈ s_trace s /\ p_returns (provider n) = false /\ forall x, Gives x ∉ p_acts (provider n)
  end.
Proof.
  intros Hr Hok s Hi Hl Hq. pose proof (run_inv random provider Hr frames xs _ Hok (no_caches_inv random provider frames)) as Hinv.
  fold s in Hinv. destruct (in_good _ _ _ _ _ Hinv i c Hi) as (q & Hq' & Hg). specialize (Hg Hl).
  assert (q = []) as -> by congruence. destruct (in_value _ _ _ _ _ Hinv) as [H1 H2].
  assert (forall v, ~ announces v []) as Hno by (by intros v (e & ?%not_elem_of_nil & _)).
  unfold good in Hg. destruct (s_value s) as [x|], (s_version s) as [v|]; [|discriminate (H2 eq_refl)|discriminate (H1 eq_refl)|].
  - destruct Hg as [Hg|[_ [Hg%Hno|[]]]]; done.
  - destruct Hg as [[Hg|Hg]|[Hg|[Hg%Hno|[]]]]; [by left|by right; left|by right; right|done].
Qed.

(** Versions: 1, 2, 3... *)
Definition counter (k : nat) : Z := Z.of_nat (S k).

(** The first provider gives a value at once and has something to close, the second
    gives one and returns nothing. *)
Definition some_providers (n : nat) : provided :=
  match n with
  | 0%nat => mk_provided [Gives (JStr "a")] true
  | 1%nat => mk_provided [Gives (JStr "b")] false
  | _ => mk_provided [] true
  end.

(** Two frames; the cache of the second one takes over when the first is closed. *)
Definition handover : list cache_step := [Open 0; Open 1; Deliver 1; Consume 1 true; Close 0; Deliver 1; Open 1].

Lemma cache_serves_witness :
  let s := foldl (run counter some_providers) (no_caches 2) handover in
  exists c, caches s !! 2%nat = Some c /\ s_value s = Some (JStr "b") /\
    s_trace s = [Provide 0 0; Release 0; Provide 1 1] /\
    match s_value s with
    | Some data => last (c_told c ++ c_pending c) = Some data
    | None => c_claimed c = true \/ c_source c <> None \/
        exists n, Provide 2 n ∈ s_trace s /\ p_returns (some_providers n) = false /\ forall x, Gives x ∉ p_acts (some_providers n)
    end.
Proof.
  assert (exists c, caches (foldl (run counter some_providers) (no_caches 2) handover) !! 2%nat = Some c /\ c_listening c = true /\
    queues (foldl (run counter some_providers) (no_caches 2) handover) !! c_window c = Some []) as (c & Hc & Hl & Hq).
  { eexists. split; [vm_compute; reflexivity|]. done. }
  exists c. split; [exact Hc|]. split; [vm_compute; reflexivity|]. split; [vm_compute; reflexivity|].
  apply (cache_serves counter some_providers 2 handover 2 c); [unfold counter; intros j k; lia|repeat constructor|done..].
Defined.

(** A provider that returns nothing and gives its value later is not heard; when
    the data of another are gone it is called again. *)
Example value_ignored : let s := foldl (run counter (fun _ => mk_provided [] false)) (no_caches 1)
    [Open 0; Result 0 (JStr "a")] in
  s_value s = None /\ (fun c => (c_listening c, c_claimed c, c_source c)) <$> caches s = [(true, false, None)].
Proof. vm_compute. done. Qed.

(** A provider that closes the cache while it is called: what it returns is closed
    at once, and when it returns nothing that throws. *)
Example closed_while_claiming :
  s_trace (foldl (run counter (fun n => mk_provided [Closes 0] (Nat.eqb n 0))) (no_caches 1) [Open 0; Claim 0])
    = [Provide 0 0; Release 0; Provide 0 1; Throws 1].
Proof. vm_compute. done. Qed.

(** Closing goes around: the second cache hears that the data of the first are
    gone, gives a value of its own at once and closes, and then the third. *)
Example claims_nest : let s := foldl (run counter (fun n => mk_provided (Gives (JNum (Z.of_nat n)) :: if Nat.eqb n 1 then [Closes 1] else []) true))
    (no_caches 1) [Open 0; Open 0; Open 0; Close 0] in
  s_trace s = [Provide 0 0; Release 0; Provide 1 1; Provide 2 2; Release 1] /\ s_value s = Some (JNum 2).
Proof. vm_compute. done. Qed.

Definition with_close : nat -> provided := fun _ => mk_provided [] true.

(** Two frames that both claimed, and close before they hear of each other: the
    data stay, and nobody provides them any more. *)
Lemma orphaned : let s := foldl (run counter with_close) (no_caches 3)
    [Open 0; Open 1; Result 0 (JStr "a"); Result 1 (JStr "b"); Deliver 1; Close 1; Close 0; Open 2; Deliver 2; Deliver 2] in
  s_value s = Some (JStr "b") /\ (fun c => (c_listening c, c_source c)) <$> caches s = [(false, None); (false, None); (true, None)].
Proof. vm_compute. done. Qed.

(** One of two frames that both claimed closes: the data of the other are gone
    until its provider has something new. *)
Lemma data_taken_away : let s := foldl (run counter with_close) (no_caches 2)
    [Open 0; Open 1; Result 0 (JStr "a"); Result 1 (JStr "b"); Deliver 0; Close 0] in
  s_value s = None /\ (fun c => (c_listening c, c_claimed c)) <$> caches s = [(false, false); (true, true)].
Proof. vm_compute. done. Qed.

(** ** Permissions *)

(** The root user may everything, others what their group or privileges say; the
    event tells that the answer is another one than before. *)
Lemma permission_decided options u is_superuser p :
  p_allowed (permission_known options u is_superuser p) =
    (if bool_decide (u_id u = Some 0) then JBool true
     else if negb (String.eqb (group_of options) "") then JBool (bool_decide (group_of options ∈ u_groups u))
     else if admin_of options then JBool is_superuser
     else if bool_decide (u_id u = None) then JNull else JBool false) /\
  (p_changed (permission_known options u is_superuser p) <> p_changed p <->
     strict_eq (p_allowed p) (p_allowed (permission_known options u is_superuser p)) = false).
Proof.
  split.
  - cbn. unfold decide_user. case_bool_decide; [done|]. destruct (negb _).
    + f_equal. apply eq_bool_prop_intro. rewrite bool_decide_spec. split.
      * intros Hx%Is_true_true. apply existsb_exists in Hx as (g & Hg & ->%String.eqb_eq). by apply list_elem_of_In.
      * intros Hx. apply Is_true_true, existsb_exists. exists (group_of options). split; [by apply list_elem_of_In|apply String.eqb_refl].
    + destruct (admin_of options); [done|]. by destruct (u_id u).
  - cbn. destruct (strict_eq _ _); split; try done; lia.
Qed.
