(* ===== verification/Machines.v ===== *)
(** * The machines of the dashboard (src/pkg/lib/machines.js, [Machines])

    The frames of the shell share what is known about the machines: the
    content read from disk and an overlay of what was learned since.  Each frame
    merges the two into one object per machine and tells what changed.  The file's
    [Loader], which connects to the machines, is in Loader.v. *)

From S2P Require Import Prelude.

(** ** Connection strings *)

(** [s.lastIndexOf(c)]: what is before and after the last occurrence. *)
Fixpoint cut_last (c : ascii) (s : string) : option (string * string) :=
  match s with
  | EmptyString => None
  | String a s' =>
      match cut_last c s' with
      | Some (x, y) => Some (String a x, y)
      | None => if Ascii.eqb a c then Some (EmptyString, s') else None
      end
  end.

Definition generate_connection_string (user port addr : jval) : string :=
  let address := js_String addr in
  let address := if truthy user then js_String user +:+ "@" +:+ address else address in
  if truthy port then address +:+ ":" +:+ js_String port else address.

(** The parts of a connection string. *)
Record conn_parts := mk_parts { c_user : option string; c_port : option Z; c_address : string }.

Definition split_connection_string (conn_to : string) : conn_parts :=
  let '(user, conn_to) :=
    match cut_last "@" conn_to with
    | Some (String _ _ as user, rest) => (Some user, rest)
    | _ => (None, conn_to)
    end in
  match cut_last ":" conn_to with
  | Some (address, rest) =>
      match parseInt (JStr rest) with
      | Some port => mk_parts user (Some port) address
      | None => mk_parts user None conn_to
      end
  | None => mk_parts user None conn_to
  end.

(** ** Shared state *)

Abbreviation machine_map := (list (string * jobj)).

Record shared := mk_shared { sh_content : option machine_map; sh_overlay : machine_map }.

Inductive machine_event :=
  | MAdded (host : string) (machine : jobj) (old_conns : jval)
  | MUpdated (host : string) (machine : jobj) (old_conns : jval)
  | MRemoved (host : string) (machine : jobj)
  | MReady.

(** Calls that leave the frame: the session storage, the bridge, hostnamed. *)
Inductive machine_effect :=
  | MEvent (e : machine_event)
  | MSession (host : string) (data : jobj)
  | MSave (host : string) (values : list (string * (string * jval)))
  | MSetHostname (conn_to : string) (label : jval).

Record machines := mk_machines {
  m_ready : bool; m_machines : machine_map; m_last : shared; m_push : bool;
  m_effects : list machine_effect }.

#[export] Instance machines_settable : Settable machines := fun m =>
  mk_machines (m_ready m) (m_machines m) (m_last m) (m_push m) (m_effects m).

Section Machines.

(** The application and host name of the window, the manifests of the page, and
    the browser's normal form of a color. *)
Context (application hostname : string) (manifests : jval) (parse_color : jval -> string).
Context (colors : list string).

Definition new_machines : machines :=
  mk_machines false []
    (mk_shared None [("localhost", <["visible" := JBool true]> {["manifests" := manifests]})]) false [].

(** [sync(machine, values, overlay)]: assign what is desired, then delete what
    is not. *)
Definition desired (values overlay : option jobj) : jobj :=
  extend (extend ∅ (default ∅ values)) (default ∅ overlay).

Definition sync (machine : jobj) (values overlay : option jobj) : jobj :=
  let d := desired values overlay in
  filter (fun kv => is_Some (d !! fst kv)) (d ∪ machine).

(** The defaults [refresh] fills in. *)
Definition fill_defaults (host : string) (machine : jobj) : jobj :=
  let m := <["key" := JStr host]> machine in
  let m := if truthy (prop m "address") then m else <["address" := JStr host]> m in
  let m := <["connection_string" :=
    JStr (generate_connection_string (prop m "user") (prop m "port") (prop m "address"))]> m in
  let m :=
    if truthy (prop m "label") then m
    else if String.eqb host "localhost" || String.eqb host "localhost.localdomain" then
      if String.prefix "cockpit+=" application
      then <["label" := JStr (String.substring 9 (String.length application) application)]> m
      else <["label" := JStr hostname]> m
    else <["label" := JStr host]> m in
  if truthy (prop m "avatar") then m else <["avatar" := JStr "../shell/images/server-small.png"]> m.

(** What is on disk decides the color. *)
Definition overlay_color (content : machine_map) (host : string) (overlay : machine_map) : machine_map :=
  match assoc_get host content, assoc_get host overlay with
  | Some c, Some o => if truthy (prop c "color") then assoc_set host (delete "color" o) overlay else overlay
  | _, _ => overlay
  end.

(** One host of the loop in [refresh]. *)
Definition refresh_host (content : machine_map) (host : string)
    (s : machine_map * machine_map * list machine_event) : machine_map * machine_map * list machine_event :=
  let '(ms, overlay, events) := s in
  let old := assoc_get host ms in
  let old_conns := prop (default ∅ old) "connection_string" in
  let overlay := overlay_color content host overlay in
  let machine := fill_defaults host
    (sync (default ∅ old) (assoc_get host content) (assoc_get host overlay)) in
  (assoc_set host machine ms, overlay,
   events ++ [match old with
              | Some _ => MUpdated host machine old_conns
              | None => MAdded host machine old_conns
              end]).

Definition all_hosts (content overlay : machine_map) : list string :=
  map fst content ++ filter (fun h => h ∉ map fst content) (map fst overlay).

(** The hosts that are gone. *)
Definition remove_lost (hosts : list string) (ms : machine_map) : machine_map * list machine_event :=
  (filter (fun m => fst m ∈ hosts) ms,
   map (fun m => MRemoved (fst m) (snd m)) (filter (fun m => fst m ∉ hosts) ms)).

(** [refresh(shared, push)]. *)
Definition refresh (sh : shared) (push : bool) (st : machines) : machines :=
  let content := default [] (sh_content sh) in
  let hosts := all_hosts content (sh_overlay sh) in
  let '(ms, overlay, events) :=
    foldl (fun s host => refresh_host content host s) (m_machines st, sh_overlay sh, []) hosts in
  let '(ms, removed) := remove_lost hosts ms in
  mk_machines true ms (mk_shared (sh_content sh) overlay) (m_push st || push)
    (m_effects st ++ map MEvent (events ++ removed ++ if m_ready st then [] else [MReady])).

(** [merge(item, values)]: null deletes. *)
Definition is_null (v : jval) : bool := match v with JNull => true | _ => false end.

Definition merge (item values : jobj) : jobj :=
  filter (fun kv => is_null (snd kv) = false) values ∪ filter (fun kv => values !! fst kv = None) item.

(** [$.extend({ }, last.overlay, changes)]. *)
Definition extend_hosts (overlay changes : machine_map) : machine_map :=
  foldl (fun o c => assoc_set (fst c) (snd c) o) overlay changes.

(** The overlay of a host with some values merged in. *)
Definition changed (st : machines) (host : string) (values : jobj) : string * jobj :=
  (host, merge (default ∅ (assoc_get host (sh_overlay (m_last st)))) values).

Definition data (content : machine_map) (st : machines) : machines :=
  let on_disk := map (fun c => changed st (fst c) {["on_disk" := JBool true]}) content in
  let gone := map (fun m => changed st (fst m) {["on_disk" := JNull]})
                (filter (fun m => assoc_get (fst m) content = None) (m_machines st)) in
  refresh (mk_shared (Some content) (extend_hosts (sh_overlay (m_last st)) (on_disk ++ gone))) true st.

Definition overlay (host : string) (values : jobj) (st : machines) : machines :=
  refresh (mk_shared (sh_content (m_last st)) (extend_hosts (sh_overlay (m_last st)) [changed st host values])) true st.

(** The storage event of the shared key, or its value at the start: null when
    there is none. *)
Definition storage (value : option shared) (st : machines) : machines :=
  match value with Some sh => refresh sh false st | None => st end.

(** [self.lookup(address)]. *)
Definition lookup (address : string) (st : machines) : option jobj :=
  let a := c_address (split_connection_string address) in
  assoc_get (if String.eqb a "" then "localhost" else a) (m_machines st).

(** The machines shown, before they are sorted by label. *)
Definition list_ (st : machines) : list jobj :=
  filter (fun m => truthy (prop m "visible") = true) (map snd (m_machines st)).

Definition addresses (st : machines) : list string := map fst (m_machines st).

(** ** Colors *)

Definition color_in_use (color : string) (st : machines) : bool :=
  existsb (fun m => truthy (prop (snd m) "color") &&
                    String.eqb (parse_color (prop (snd m) "color")) (parse_color (JStr color))) (m_machines st).

Definition unused_color (st : machines) : string :=
  default "gray" (head (filter (fun c => color_in_use c st = false) colors)).

(** ** Changes *)

Definition do_effect (e : machine_effect) (st : machines) : machines := st <| m_effects ::= (fun l => l ++ [e]) |>.

Definition update_session_machine (machine : jobj) (host : string) (values : jobj) (st : machines) : machines :=
  overlay host values (do_effect (MSession host (extend (extend ∅ machine) values)) st).

(** Values wrapped in variants; an undefined value would throw. *)
Definition update_saved_machine (host : string) (values : jobj) (st : machines) : machines :=
  let wrap kv := match snd kv with
                 | JNull => None
                 | v => Some (fst kv, if String.eqb (fst kv) "visible" then ("b", v) else ("s", JStr (js_String v)))
                 end in
  do_effect (MSave host (omap wrap (map_to_list values))) st.

Definition change (host : string) (values : jobj) (st : machines) : machines :=
  let machine := lookup host st in
  let st :=
    if truthy (prop values "label") then
      match machine with
      | None => do_effect (MSetHostname host (prop values "label")) st
      | Some m =>
          if bool_decide (js_String (prop m "label") = js_String (prop values "label")) then st
          else do_effect (MSetHostname (js_String (prop m "connection_string")) (prop values "label")) st
      end
    else st in
  match machine with
  | Some m => if truthy (prop m "on_disk") then update_saved_machine host values st
              else update_session_machine m host values st
  | None => update_saved_machine host values st
  end.

Definition parts_values (p : conn_parts) : jobj :=
  let o : jobj := {["address" := JStr (c_address p)]} in
  let o := match c_port p with Some z => <["port" := JNum z]> o | None => o end in
  match c_user p with Some u => <["user" := JStr u]> o | None => o end.

(** [self.add]: a machine that is known becomes one on disk. *)
Definition add (connection_string : string) (color : string) (st : machines) : machines :=
  let p := split_connection_string connection_string in
  let host := c_address p in
  let color := if String.eqb color "" then unused_color st else color in
  let values := extend {["visible" := JBool true; "color" := JStr color]} (parts_values p) in
  let key := let a := c_address (split_connection_string host) in if String.eqb a "" then "localhost" else a in
  let st := match lookup host st with
            | Some m => st <| m_machines ::= assoc_set key (<["on_disk" := JBool true]> m) |>
            | None => st
            end in
  change host values st.

End Machines.
