(* ===== verification/MachinesSpec.v ===== *)
(** * What is known about a machine

    Properties of [Machines.v]: connection strings come apart into the parts they
    were made of, and the machines of a frame are determined by the shared
    state. *)

From S2P Require Import Prelude Numbers Machines.

(** ** Connection strings *)

Lemma cut_last_none c s : str_mem c s = false -> cut_last c s = None.
Proof.
  induction s as [|a s IH]; cbn; [done|]. intros [Ha Hs]%orb_false_iff. by rewrite IH, Ha.
Qed.

Lemma cut_last_app c x y : str_mem c y = false -> cut_last c (x +:+ String c y) = Some (x, y).
Proof.
  intros Hy. induction x as [|a x IH]; cbn.
  - by rewrite cut_last_none, Ascii.eqb_refl.
  - by rewrite IH.
Qed.

Lemma cut_last_mem c s x y : cut_last c s = Some (x, y) -> s = x +:+ String c y.
Proof.
  revert x. induction s as [|a s IH]; cbn; intros x; [done|].
  destruct (cut_last c s) as [[x' y']|]; [intros [= <- <-]; by rewrite (IH x')|].
  destruct (Ascii.eqb_spec a c) as [->|]; [|done]. by intros [= <- <-].
Qed.

Lemma parse_pretty_port p : 0 < p ->
  parseInt (JStr (pretty p)) = Some p /\
  forall c, (c = "@"%char \/ c = ":"%char) -> str_mem c (pretty p) = false.
Proof.
  intros Hp. split; [apply parse_pretty; lia|]. intros c Hc. apply pretty_no_char; [lia|]. by destruct Hc as [->| ->].
Qed.

(** An address a connection string can carry: without a port it must not end
    in a colon and digits, as an IPv6 address does. *)
Definition address_ok (port : option Z) (addr : string) : Prop :=
  str_mem "@" addr = false /\
  match port with
  | Some p => 0 < p
  | None => match cut_last ":" addr with Some (_, rest) => parseInt (JStr rest) = None | None => True end
  end.

Definition opt_str (o : option string) : jval := match o with Some s => JStr s | None => JUndef end.
Definition opt_num (o : option Z) : jval := match o with Some z => JNum z | None => JUndef end.

Lemma str_mem_port p c addr : 0 < p -> (c = "@"%char \/ c = ":"%char) -> c <> ":"%char ->
  str_mem c (addr +:+ ":" +:+ pretty p) = str_mem c addr.
Proof.
  intros Hp Hc Hne. rewrite str_mem_app. change (":" +:+ pretty p) with (String ":" (pretty p)).
  cbn [str_mem]. rewrite (proj2 (parse_pretty_port p Hp) c Hc), orb_false_r.
  destruct (Ascii.eqb_spec ":" c) as [<-|]; [done|]. by rewrite orb_false_r.
Qed.

(** The address and port, once the user has been taken off. *)
Lemma split_port user port addr :
  address_ok port addr ->
  let s := match port with Some p => addr +:+ ":" +:+ pretty p | None => addr end in
  str_mem "@" s = false /\
  match cut_last ":" s with
  | Some (address, rest) =>
      match parseInt (JStr rest) with
      | Some p => mk_parts user (Some p) address
      | None => mk_parts user None s
      end
  | None => mk_parts user None s
  end = mk_parts user port addr.
Proof.
  intros [Hat Hp]. destruct port as [p|]; cbn zeta beta match.
  - destruct (parse_pretty_port p Hp) as [H1 H2]. split; [rewrite str_mem_port; auto|].
    change (":" +:+ pretty p) with (String ":" (pretty p)).
    rewrite cut_last_app by (apply H2; auto). by rewrite H1.
  - split; [done|]. destruct (cut_last ":" addr) as [[a rest]|]; [by rewrite Hp|done].
Qed.

(** A connection string comes apart into the user, port and address it was
    generated from, whatever characters the user name has. *)
Theorem connection_string_roundtrip user port addr :
  user <> Some "" -> address_ok port addr ->
  split_connection_string (generate_connection_string (opt_str user) (opt_num port) (JStr addr)) =
  mk_parts user port addr.
Proof.
  intros Hu Ha. pose proof (split_port user port addr Ha) as [Hat Hs].
  assert (truthy (opt_num port) = bool_decide (is_Some port)) as Et.
  { destruct port as [p|]; [|done]. destruct Ha as [_ Hp]. cbn. by rewrite (proj2 (Z.eqb_neq p 0)) by lia. }
  assert (forall x, (if truthy (opt_num port) then x +:+ ":" +:+ js_String (opt_num port) else x) =
    match port with Some p => x +:+ ":" +:+ pretty p | None => x end) as Eg.
  { intros x. rewrite Et. by destruct port. }
  unfold generate_connection_string, split_connection_string. cbn [js_String]. rewrite Eg.
  destruct user as [u|]; cbn [opt_str truthy js_String].
  - rewrite (proj2 (String.eqb_neq u "")) by congruence. cbn [negb].
    replace (match port with Some p => (u +:+ "@" +:+ addr) +:+ ":" +:+ pretty p | None => u +:+ "@" +:+ addr end)
      with (u +:+ String "@" (match port with Some p => addr +:+ ":" +:+ pretty p | None => addr end)).
    2: { destruct port; [|done]. change ("@" +:+ addr) with (String "@" addr).
         by rewrite str_app_assoc. }
    rewrite cut_last_app by exact Hat. destruct u as [|c u]; [congruence|]. exact Hs.
  - rewrite cut_last_none by exact Hat. exact Hs.
Qed.

Lemma connection_string_roundtrip_witness :
  split_connection_string (generate_connection_string (JStr "a@b") (JNum 2222) (JStr "fe80::1")) =
  mk_parts (Some "a@b") (Some 2222) "fe80::1".
Proof.
  refine (connection_string_roundtrip (Some "a@b") (Some 2222) "fe80::1" _ _).
  - discriminate.
  - split; [reflexivity|lia].
Defined.

(** Without a port the last group of an IPv6 address is taken for one. *)
Example ipv6_address_loses_group :
  split_connection_string (generate_connection_string JUndef JUndef (JStr "fe80::1")) =
  mk_parts None (Some 1) "fe80:".
Proof. reflexivity. Qed.

(** ** The merged machines *)

Lemma sync_desired machine values ov : sync machine values ov = desired values ov.
Proof.
  unfold sync. apply map_eq. intros k. rewrite map_lookup_filter, lookup_union.
  destruct (desired values ov !! k) as [v|] eqn:E; destruct (machine !! k) as [w|]; cbn;
    rewrite ?E; repeat case_guard; try done; exfalso; eauto using is_Some_None.
Qed.

(** The overlay of a host once the color on disk has its way. *)
Definition overlay_of (content overlay : machine_map) (host : string) : option jobj :=
  match assoc_get host overlay, assoc_get host content with
  | Some o, Some c => Some (if truthy (prop c "color") then delete "color" o else o)
  | o, _ => o
  end.

Lemma overlay_color_get content host overlay host' :
  assoc_get host' (overlay_color content host overlay) =
  if String.eqb host host' then overlay_of content overlay host else assoc_get host' overlay.
Proof.
  unfold overlay_color, overlay_of.
  destruct (String.eqb_spec host host') as [<-|Hne];
    destruct (assoc_get host content) as [c|], (assoc_get host overlay) as [o|] eqn:Eo; try done;
    destruct (truthy (prop c "color")); rewrite ?assoc_get_set, ?String.eqb_refl; try done.
  by rewrite (proj2 (String.eqb_neq host host')).
Qed.

Section Refresh.

Context (application hostname : string).

(** The object of a machine: a function of what is shared. *)
Definition machine_of (content overlay : machine_map) (host : string) : jobj :=
  fill_defaults application hostname host
    (desired (assoc_get host content) (overlay_of content overlay host)).

(** The event a host of the shared state causes. *)
Definition event_of (content overlay before : machine_map) (host : string) : machine_event :=
  match assoc_get host before with
  | Some old => MUpdated host (machine_of content overlay host) (prop old "connection_string")
  | None => MAdded host (machine_of content overlay host) JUndef
  end.

Lemma refresh_loop content overlay0 before hosts : NoDup hosts ->
  forall ms overlay events,
  (forall h, h ∈ hosts -> assoc_get h ms = assoc_get h before /\
                          assoc_get h overlay = assoc_get h overlay0) ->
  let '(ms', overlay', events') :=
    foldl (fun s host => refresh_host application hostname content host s) (ms, overlay, events) hosts in
  events' = events ++ map (event_of content overlay0 before) hosts /\
  (forall h, assoc_get h ms' =
    if bool_decide (h ∈ hosts) then Some (machine_of content overlay0 h) else assoc_get h ms) /\
  (forall h, assoc_get h overlay' =
    if bool_decide (h ∈ hosts) then overlay_of content overlay0 h else assoc_get h overlay) /\
  (NoDup ms.*1 -> NoDup ms'.*1).
Proof.
  induction 1 as [|h hosts Hh Hn IH]; intros ms overlay events Hs; cbn [foldl].
  { rewrite app_nil_r. repeat split; auto; intros h; by rewrite bool_decide_eq_false_2 by apply not_elem_of_nil. }
  destruct (Hs h ltac:(by left)) as [Hm Ho].
  assert (assoc_get h (overlay_color content h overlay) = overlay_of content overlay0 h) as Hov.
  { rewrite overlay_color_get, String.eqb_refl. unfold overlay_of. by rewrite Ho. }
  unfold refresh_host at 2. rewrite Hov, sync_desired. fold (machine_of content overlay0 h).
  specialize (IH (assoc_set h (machine_of content overlay0 h) ms) (overlay_color content h overlay)
    (events ++ [event_of content overlay0 before h])).
  match goal with |- context [foldl _ ?s hosts] =>
    replace s with (assoc_set h (machine_of content overlay0 h) ms, overlay_color content h overlay,
      events ++ [event_of content overlay0 before h])
  end.
  2: { unfold event_of. rewrite Hm. by destruct (assoc_get h before). }
  destruct (foldl _ _ hosts) as [[ms' overlay'] events'].
  destruct IH as (E1 & E2 & E3 & E4).
  { intros h' Hin. assert (h <> h') by (by intros ->). destruct (Hs h' ltac:(by right)) as [H1 H2].
    rewrite assoc_get_set, overlay_color_get, (proj2 (String.eqb_neq h h')) by done. done. }
  split; [by rewrite E1, <- app_assoc|]. split; [|split].
  - intros h'. rewrite E2, assoc_get_set. destruct (String.eqb_spec h h') as [<-|Hne].
    + rewrite bool_decide_eq_false_2, bool_decide_eq_true_2 by (done || by left). done.
    + rewrite (bool_decide_ext (h' ∈ h :: hosts) (h' ∈ hosts)); [done|]. rewrite elem_of_cons. naive_solver.
  - intros h'. rewrite E3, overlay_color_get. destruct (String.eqb_spec h h') as [<-|Hne].
    + rewrite bool_decide_eq_false_2, bool_decide_eq_true_2 by (done || by left).
      unfold overlay_of. by rewrite Ho.
    + rewrite (bool_decide_ext (h' ∈ h :: hosts) (h' ∈ hosts)); [done|]. rewrite elem_of_cons. naive_solver.
  - intros Hnd. by apply E4, assoc_set_nodup.
Qed.

Lemma all_hosts_nodup content overlay :
  NoDup content.*1 -> NoDup overlay.*1 -> NoDup (all_hosts content overlay).
Proof.
  intros Hc Ho. unfold all_hosts. apply NoDup_app. split; [done|]. split; [|by apply NoDup_filter].
  intros h Hh [Hn _]%list_elem_of_filter. done.
Qed.

Lemma all_hosts_elem content overlay h :
  h ∈ all_hosts content overlay <-> h ∈ content.*1 \/ h ∈ overlay.*1.
Proof.
  unfold all_hosts. rewrite elem_of_app, list_elem_of_filter. 
  change (map fst content) with (content.*1). change (map fst overlay) with (overlay.*1).
  destruct (decide (h ∈ content.*1)); tauto.
Qed.

Lemma assoc_get_filter {A} (P : string -> Prop) `{forall h, Decision (P h)} (l : list (string * A)) h :
  NoDup l.*1 -> assoc_get h (filter (fun m => P (fst m)) l) = if decide (P h) then assoc_get h l else None.
Proof.
  intros Hn. induction l as [|[k x] l IH]; [by case_decide|].
  change (NoDup (k :: l.*1)) in Hn. apply NoDup_cons in Hn as [Hk Hn]. specialize (IH Hn).
  rewrite filter_cons. destruct (decide (P (k, x).1)) as [Hp|Hp]; cbn [assoc_get fst] in *;
    destruct (String.eqb_spec k h) as [->|]; try exact IH.
  - by rewrite decide_True.
  - rewrite IH, !decide_False by done. done.
Qed.

(** C16. After a refresh the frame has exactly the machines of the shared state,
    and the object of each is a function of the shared state alone: whatever the
    frame knew before leaves no trace.  One event tells of every machine, in
    order, as added or updated according to whether the frame had it before,
    then one for every machine that is gone. *)
Theorem refresh_machines sh push st :
  NoDup (default [] (sh_content sh)).*1 -> NoDup (sh_overlay sh).*1 -> NoDup (m_machines st).*1 ->
  let content := default [] (sh_content sh) in
  let hosts := all_hosts content (sh_overlay sh) in
  let st' := refresh application hostname sh push st in
  NoDup (m_machines st').*1 /\
  (forall h, assoc_get h (m_machines st') =
    if bool_decide (h ∈ content.*1 \/ h ∈ (sh_overlay sh).*1)
    then Some (machine_of content (sh_overlay sh) h) else None) /\
  exists removed, m_effects st' = m_effects st ++ map MEvent
    (map (event_of content (sh_overlay sh) (m_machines st)) hosts ++ removed ++
     if m_ready st then [] else [MReady]) /\
    forall h m, MRemoved h m ∈ removed <-> assoc_get h (m_machines st) = Some m /\ h ∉ hosts.
Proof.
  intros Hc Ho Hm content hosts st'. unfold st', refresh.
  change (default [] (sh_content sh)) with content. change (all_hosts content (sh_overlay sh)) with hosts.
  pose proof (all_hosts_nodup _ _ Hc Ho) as Hn. fold content in Hn. fold hosts in Hn.
  pose proof (refresh_loop content (sh_overlay sh) (m_machines st) hosts Hn (m_machines st) (sh_overlay sh) []
    ltac:(auto)) as Hl.
  destruct (foldl _ _ hosts) as [[ms overlay] events]. destruct Hl as (-> & E2 & _ & E4).
  specialize (E4 Hm). cbn [remove_lost m_machines m_effects app].
  assert (forall h m, MRemoved h m ∈ map (fun m => MRemoved (fst m) (snd m))
      (filter (fun m => fst m ∉ hosts) ms) <-> assoc_get h (m_machines st) = Some m /\ h ∉ hosts) as Hr.
  { intros h m. specialize (E2 h).
    split.
    - intros ([h' m'] & [= <- <-] & Hin)%list_elem_of_fmap. apply list_elem_of_filter in Hin as [Hnot Hin].
      cbn in Hnot. rewrite bool_decide_eq_false_2 in E2 by done.
      rewrite <- E2. split; [by apply assoc_elem_get|done].
    - intros [Hg Hnot]. rewrite bool_decide_eq_false_2 in E2 by done. rewrite Hg in E2.
      apply list_elem_of_fmap. exists (h, m). split; [done|]. apply list_elem_of_filter.
      split; [done|]. by apply assoc_get_elem. }
  split; [|split].
  - eapply sublist_NoDup; [exact E4|]. apply fmap_sublist, sublist_filter.
  - intros h. etransitivity; [exact (assoc_get_filter (fun h => h ∈ hosts) ms h E4)|]. rewrite E2.
    pose proof (all_hosts_elem content (sh_overlay sh) h) as Hh. fold hosts in Hh.
    repeat case_bool_decide; case_decide; tauto || done.
  - eexists. split; [reflexivity|exact Hr].
Qed.

End Refresh.

Lemma refresh_machines_witness :
  let sh := mk_shared (Some [("srv", {["user" := JStr "admin"; "color" := JStr "red"]})])
              [("srv", {["color" := JStr "blue"; "state" := JStr "connected"]})] in
  let st' := refresh "cockpit" "here" sh true (new_machines JNull) in
  assoc_get "srv" (m_machines st') = Some (machine_of "cockpit" "here"
    (default [] (sh_content sh)) (sh_overlay sh) "srv") /\
  prop (default ∅ (assoc_get "srv" (m_machines st'))) "color" = JStr "red" /\
  assoc_get "localhost" (m_machines st') = None.
Proof.
  cbv zeta. set (sh := mk_shared _ _).
  destruct (refresh_machines "cockpit" "here" sh true (new_machines JNull)) as (_ & H & _);
    [repeat constructor; set_solver|repeat constructor; set_solver|repeat constructor; set_solver|].
  rewrite !H. vm_compute. auto.
Defined.
