(* ===== verification/Journal.v ===== *)
(** * The journal (src/pkg/lib/journal.js)

    [journalctl] runs a process and turns its output into entries; the renderer
    shows entries in a box, collapsing repeated lines and marking days and
    reboots, and can grow at both ends; a log box shows the last entries.  The log
    page (src/pkg/systemd/logs.js) feeds the renderer with lists of entries at either
    end and flushes it after each. *)

From S2P Require Import Prelude Locale Text.

(** ** journalctl *)

(** The options that become arguments; [None] for [boot] is undefined. *)
Record journal_options := mk_options {
  o_count : jval; o_follow : bool; o_directory : jval; o_boot : jval; o_since : jval;
  o_until : jval; o_cursor : jval; o_after : jval; o_reverse : bool }.

(** [options.count], when the caller gave none. *)
Definition default_count (o : journal_options) : jval :=
  match o_count o with JUndef => if o_follow o then JNum 10 else JNull | c => c end.

Definition flag (name : string) (v : jval) : list string :=
  if truthy v then [name +:+ js_String v] else [].

Definition journal_command (o : journal_options) (matches : list string) : list string :=
  let count := default_count o in
  ["journalctl"; "-q"; "--output=json"] ++
  (if truthy count then ["--lines=" +:+ js_String count] else ["--no-tail"]) ++
  flag "--directory=" (o_directory o) ++
  (if truthy (o_boot o) then ["--boot=" +:+ js_String (o_boot o)]
   else match o_boot o with JUndef => [] | _ => ["--boot"] end) ++
  flag "--since=" (o_since o) ++ flag "--until=" (o_until o) ++
  flag "--cursor=" (o_cursor o) ++ flag "--after=" (o_after o) ++
  (if o_reverse o then ["--reverse"] else if o_follow o then ["--follow"] else []) ++
  ["--"] ++ matches.

(** [data.split("\n")]: never empty. *)
Fixpoint split_lines (s : string) : list string :=
  match s with
  | EmptyString => [""]
  | String c s =>
      match split_lines s with
      | l :: ls => if Ascii.eqb c nl_char then "" :: l :: ls else String c l :: ls
      | [] => []
      end
  end.

Section Journalctl.

(** [JSON.parse]; [None] throws. *)
Context (JSON_parse : string -> option jval).

(** The reader of the process output: an unfinished line, the entries not yet
    given to a streamer, how many streamers there are, whether the interval
    runs, the batches delivered (once to each streamer). *)
Record reader := mk_reader {
  j_buffer : string; j_entries : list jval; j_streamers : nat; j_interval : bool;
  j_delivered : list (list jval) }.

#[local] Instance reader_settable : Settable reader := fun j =>
  mk_reader (j_buffer j) (j_entries j) (j_streamers j) (j_interval j) (j_delivered j).

Definition new_reader : reader := mk_reader "" [] 0 false [].

(** One complete line; what does not parse is dropped with a warning. *)
Definition read_line (line : string) : list jval :=
  if String.eqb line "" || String.prefix "-- " line then []
  else match JSON_parse line with Some v => [v] | None => [] end.

Definition fire_streamers (j : reader) : reader :=
  match j_streamers j, j_entries j with
  | S _, (_ :: _) as ents => j <| j_entries := [] |> <| j_delivered ::= (fun d => d ++ [ents]) |>
  | _, _ => j <| j_interval := false |>
  end.

(** The stream callback of the process. *)
Definition on_data (data : string) (j : reader) : reader :=
  let lines := split_lines (j_buffer j +:+ data) in
  j <| j_buffer := default "" (last lines) |>
    <| j_entries ::= (fun e => e ++ concat (map read_line (removelast lines))) |>
    <| j_interval := j_interval j || Nat.ltb 0 (j_streamers j) |>.

Definition add_streamer (j : reader) : reader := j <| j_streamers ::= S |>.

(** The timer, when it runs. *)
Definition on_interval (j : reader) : reader := if j_interval j then fire_streamers j else j.

Inductive journal_result := JEntries (l : list jval) | JError (e : error).

(** [journalctl] fails with status 1 when nothing matches. *)
Definition on_done (result : option error) (j : reader) : reader * journal_result :=
  match result with
  | None => let j := fire_streamers j in (j, JEntries (j_entries j))
  | Some e =>
      if is_str (e_problem e) "cancelled" || match e_exit_status e with JNum 1 => true | _ => false end
      then let j := fire_streamers j in (j, JEntries (j_entries j))
      else (j, JError e)
  end.

End Journalctl.

#[export] Existing Instance reader_settable.

(** ** Entries *)

(** A date in local time, from the language's [Date]. *)
Record date := mk_date { d_month : nat; d_day : Z; d_year : Z; d_hours : Z; d_minutes : Z }.

Definition month_names : list string :=
  ["January"; "February"; "March"; "April"; "May"; "June"; "July"; "August";
   "September"; "October"; "November"; "December"].

(** An entry in formatted form. *)
Record entry := mk_entry {
  n_full : jobj; n_day : string; n_time : string; n_bootid : jval; n_ident : jval;
  n_prio : jval; n_message : string }.

(** [a == b] between what the fields of an entry can be; two arrays (binary
    data) are different objects. *)
Definition loose_eq (a b : jval) : bool :=
  match a, b with
  | (JUndef | JNull), (JUndef | JNull) => true
  | JStr x, JStr y => String.eqb x y
  | JNum x, JNum y => x =? y
  | JNum x, JStr y | JStr y, JNum x => String.eqb (pretty x) y
  | JBool x, JBool y => Bool.eqb x y
  | _, _ => false
  end.

Definition entry_is_equal (a b : entry) : bool :=
  String.eqb (n_day a) (n_day b) && loose_eq (n_bootid a) (n_bootid b) &&
  loose_eq (n_ident a) (n_ident b) && loose_eq (n_prio a) (n_prio b) &&
  String.eqb (n_message a) (n_message b).

Section Renderer.

Context (st : locale_state) (local_date : jval -> date).

Definition printable (value : jval) : string :=
  match value with
  | JUndef | JNull => gettext st None "[no data]"
  | JStr s => s
  | JArr l => format_call (gettext st None "[$0 bytes of binary data]") [JNum (zlen l)]
  | _ => gettext st None "[binary data]"
  end.

Definition pad (n : Z) : string :=
  let str := pretty n in if Nat.eqb (String.length str) 1 then "0" +:+ str else str.

Definition format_entry (journal_entry : jobj) : entry :=
  let d := local_date (prop journal_entry "__REALTIME_TIMESTAMP") in
  let ident := prop journal_entry "SYSLOG_IDENTIFIER" in
  mk_entry journal_entry
    (gettext st (Some "month-name") (default "" (month_names !! d_month d)) +:+ " " +:+ pretty (d_day d) +:+ ", " +:+ pretty (d_year d))
    (pad (d_hours d) +:+ ":" +:+ pad (d_minutes d))
    (prop journal_entry "_BOOT_ID")
    (if truthy ident then ident else prop journal_entry "_COMM")
    (prop journal_entry "PRIORITY")
    (printable (prop journal_entry "MESSAGE")).

(** ** The box *)

(** What the line template is filled with. *)
Record line_parts := mk_line {
  l_cursor : jval; l_time : string; l_message : string; l_service : jval; l_count : option Z;
  l_problem : bool; l_warning : bool }.

(** An element of the box: the templates themselves are not modelled. *)
Inductive item := ILine (l : line_parts) | IDay (day : string) | IReboot.

(** [prio < 4] on a number or its decimal digits. *)
Definition is_warning (prio : jval) : bool :=
  match prio with
  | JNum z => z <? 4
  | JStr s => match parseInt (JStr s) with Some z => z <? 4 | None => String.eqb s "" end
  | JNull => true
  | JBool _ => true
  | _ => false
  end.

Definition render_line (ident prio : jval) (message : string) (count : Z) (time : string) (full : jobj) : item :=
  let problem := is_str ident "abrt-notification" in
  ILine (mk_line (prop full "__CURSOR") time message
    (if problem then prop full "PROBLEM_BINARY" else ident)
    (if 1 <? count then Some count else None) problem (negb problem && is_warning prio)).

(** The state of the first or last line. *)
Record line_state := mk_state {
  s_entry : option entry; s_count : Z; s_first_time : string; s_last_time : string;
  s_line_present : bool; s_header_present : bool }.

#[local] Instance line_state_settable : Settable line_state := fun s =>
  mk_state (s_entry s) (s_count s) (s_first_time s) (s_last_time s) (s_line_present s) (s_header_present s).

(** The renderer: [r_same] says that [top_state] and [bottom_state] are one
    object. *)
Record renderer := mk_renderer { r_same : bool; r_top : line_state; r_bottom : line_state; r_box : list item }.

#[local] Instance renderer_settable : Settable renderer := fun r =>
  mk_renderer (r_same r) (r_top r) (r_bottom r) (r_box r).

Definition empty_state : line_state := mk_state None 0 "" "" false false.
Definition new_renderer (box : list item) : renderer := mk_renderer true empty_state empty_state box.

(** Assignments to the fields of a state reach it under both its names. *)
Definition upd_top (f : line_state -> line_state) (r : renderer) : renderer :=
  if r_same r then r <| r_top ::= f |> <| r_bottom ::= f |> else r <| r_top ::= f |>.

Definition upd_bottom (f : line_state -> line_state) (r : renderer) : renderer :=
  if r_same r then r <| r_top ::= f |> <| r_bottom ::= f |> else r <| r_bottom ::= f |>.

(** The output functions of a box. *)
Definition out_append (i : item) (r : renderer) : renderer := r <| r_box ::= (fun b => b ++ [i]) |>.
Definition out_prepend (i : item) (r : renderer) : renderer := r <| r_box ::= (fun b => i :: b) |>.
Definition out_remove_first (r : renderer) : renderer := r <| r_box ::= tail |>.
Definition out_remove_last (r : renderer) : renderer := r <| r_box ::= @removelast item |>.

Definition render_state_line (s : line_state) : item :=
  match s_entry s with
  | Some e => render_line (n_ident e) (n_prio e) (n_message e) (s_count s) (s_last_time s) (n_full e)
  | None => IReboot (* not reached: there is an entry *)
  end.

(** [top_state = copy_object(bottom_state)] when there is one state for two
    lines. *)
Definition start_new_line (r : renderer) : renderer :=
  match s_entry (r_top r) with
  | Some _ => if r_same r then r <| r_same := false |> <| r_top := r_bottom r |> else r
  | None => r
  end.

Definition has_entry (s : line_state) : bool := match s_entry s with Some _ => true | None => false end.

Definition top_output (r : renderer) : renderer :=
  let r := if s_header_present (r_top r)
           then upd_top (fun s => s <| s_header_present := false |>) (out_remove_first r) else r in
  let r := if s_line_present (r_top r)
           then upd_top (fun s => s <| s_line_present := false |>) (out_remove_first r) else r in
  if has_entry (r_top r)
  then upd_top (fun s => s <| s_line_present := true |>) (out_prepend (render_state_line (r_top r)) r)
  else r.

(** The state of a new line. *)
Definition new_line (e : entry) (s : line_state) : line_state :=
  s <| s_entry := Some e |> <| s_count := 1 |> <| s_first_time := n_time e |>
    <| s_last_time := n_time e |> <| s_line_present := false |>.

Definition same_entry (s : line_state) (e : entry) : bool :=
  match s_entry s with Some e' => entry_is_equal e' e | None => false end.

Definition prepend (journal_entry : jobj) (r : renderer) : renderer :=
  let e := format_entry journal_entry in
  if same_entry (r_top r) e then
    upd_top (fun s => s <| s_count ::= Z.succ |> <| s_first_time := n_time e |>) r
  else
    let r := top_output r in
    let r := match s_entry (r_top r) with
             | Some t =>
                 let r := if loose_eq (n_bootid e) (n_bootid t) then r else out_prepend IReboot r in
                 if String.eqb (n_day e) (n_day t) then r else out_prepend (IDay (n_day t)) r
             | None => r
             end in
    upd_top (new_line e) (start_new_line r).

Definition prepend_flush (r : renderer) : renderer :=
  let r := top_output r in
  match s_entry (r_top r) with
  | Some t => upd_top (fun s => s <| s_header_present := true |>) (out_prepend (IDay (n_day t)) r)
  | None => r
  end.

Definition bottom_output (r : renderer) : renderer :=
  let r := if s_line_present (r_bottom r)
           then upd_bottom (fun s => s <| s_line_present := false |>) (out_remove_last r) else r in
  if has_entry (r_bottom r)
  then upd_bottom (fun s => s <| s_line_present := true |>) (out_append (render_state_line (r_bottom r)) r)
  else r.

Definition append (journal_entry : jobj) (r : renderer) : renderer :=
  let e := format_entry journal_entry in
  if same_entry (r_bottom r) e then
    upd_bottom (fun s => s <| s_count ::= Z.succ |> <| s_last_time := n_time e |>) r
  else
    let r := bottom_output r in
    let before := s_entry (r_bottom r) in
    let r := match before with
             | Some b => if String.eqb (n_day e) (n_day b) then r
                         else upd_bottom (fun s => s <| s_header_present := true |>) (out_append (IDay (n_day e)) r)
             | None => upd_bottom (fun s => s <| s_header_present := true |>) (out_append (IDay (n_day e)) r)
             end in
    let r := match before with
             | Some b => if loose_eq (n_bootid e) (n_bootid b) then r else out_append IReboot r
             | None => r
             end in
    upd_bottom (new_line e) (start_new_line r).

Definition append_flush (r : renderer) : renderer := bottom_output r.

(** *** What the journal page feeds it (pkg/systemd/logs.js) *)

Definition prepend_entries (entries : list jobj) (r : renderer) : renderer :=
  prepend_flush (foldl (fun r e => prepend e r) r entries).

Definition append_entries (entries : list jobj) (r : renderer) : renderer :=
  append_flush (foldl (fun r e => append e r) r entries).

(** ** The log box *)

(** [entries.slice(-max)] when there are more; zero keeps them all. *)
Definition keep_last (max : nat) (l : list jobj) : list jobj :=
  if Nat.ltb max (length l) then
    match max with O => l | _ => drop (length l - max) l end
  else l.

Record logbox := mk_logbox { b_entries : list jobj; b_box : list item; b_hidden : bool }.

Definition render_box (entries : list jobj) : logbox :=
  mk_logbox entries (r_box (prepend_flush (foldl (fun r e => prepend e r) (new_renderer []) entries)))
    (match entries with [] => true | _ => false end).

Definition new_logbox : logbox := render_box [].

Definition on_tail (max : nat) (tail : list jobj) (b : logbox) : logbox :=
  render_box (keep_last max (b_entries b ++ tail)).

End Renderer.

#[export] Existing Instances line_state_settable renderer_settable.
