(* ===== verification/JournalSpec.v ===== *)
(** * The journal shows what it is fed

    The renderer of [Journal.v] refines an abstract journal, a list of runs of
    equal entries that grows at both ends; and the reader of journalctl does not
    depend on how the output of the process is cut into chunks. *)

From S2P Require Import Prelude Locale Journal.

(** ** The abstract journal *)

(** A run of equal entries: the first one fed, how many, and the time of the
    lowest. *)
Record run := mk_run { u_entry : entry; u_count : Z; u_last : string }.

Definition new_run (e : entry) : run := mk_run e 1 (n_time e).

Definition prepend_run (e : entry) (l : list run) : list run :=
  match l with
  | u :: l' =>
      if entry_is_equal (u_entry u) e then mk_run (u_entry u) (Z.succ (u_count u)) (u_last u) :: l'
      else new_run e :: l
  | [] => [new_run e]
  end.

Fixpoint append_run (e : entry) (l : list run) : list run :=
  match l with
  | [] => [new_run e]
  | [u] => if entry_is_equal (u_entry u) e then [mk_run (u_entry u) (Z.succ (u_count u)) (n_time e)]
           else [u; new_run e]
  | u :: l => u :: append_run e l
  end.

(** *** How a journal looks *)

Definition run_line (u : run) : item :=
  render_line (n_ident (u_entry u)) (n_prio (u_entry u)) (n_message (u_entry u)) (u_count u) (u_last u)
    (n_full (u_entry u)).

(** What stands between two lines: the day when it changes, then a reboot. *)
Definition sep (a b : entry) : list item :=
  (if String.eqb (n_day b) (n_day a) then [] else [IDay (n_day b)]) ++
  (if loose_eq (n_bootid b) (n_bootid a) then [] else [IReboot]).

(** All lines after [u], with what stands between them. *)
Fixpoint after (u : run) (l : list run) : list item :=
  match l with
  | [] => []
  | v :: l => sep (u_entry u) (u_entry v) ++ run_line v :: after v l
  end.

Definition render_runs (l : list run) : list item :=
  match l with
  | [] => []
  | u :: l => IDay (n_day (u_entry u)) :: run_line u :: after u l
  end.

(** ** Simulation *)

(** What stands between the first and the last line. *)
Definition between (u : run) (mid : list run) (v : run) : list item :=
  after u mid ++ sep (u_entry (default u (last mid))) (u_entry v).

Lemma after_app u l1 l2 : after u (l1 ++ l2) = after u l1 ++ after (default u (last l1)) l2.
Proof.
  revert u. induction l1 as [|v l1 IH]; intros u; [done|]. cbn [app after].
  rewrite IH, <- app_assoc. cbn [app]. rewrite last_cons. by destruct (last l1).
Qed.

Lemma after_snoc u mid v : after u (mid ++ [v]) = between u mid v ++ [run_line v].
Proof. rewrite after_app. cbn [after]. unfold between. by rewrite <- app_assoc. Qed.

Lemma after_entry u u' l : u_entry u = u_entry u' -> after u l = after u' l.
Proof. intros H. destruct l; cbn; by rewrite ?H. Qed.

Lemma between_cons u w mid v :
  between u (w :: mid) v = sep (u_entry u) (u_entry w) ++ run_line w :: between w mid v.
Proof.
  unfold between. cbn [after]. rewrite <- app_assoc. cbn [app].
  rewrite last_cons. by destruct (last mid).
Qed.

Lemma between_snoc u mid w v :
  between u (mid ++ [w]) v = between u mid w ++ run_line w :: sep (u_entry w) (u_entry v).
Proof. unfold between at 1. by rewrite after_snoc, last_snoc, <- app_assoc. Qed.

Lemma between_entry u u' mid v v' :
  u_entry u = u_entry u' -> u_entry v = u_entry v' -> between u mid v = between u' mid v'.
Proof.
  intros Hu Hv. unfold between. rewrite (after_entry u u') by done. rewrite Hv.
  destruct (last mid); cbn; by rewrite ?Hu.
Qed.

(** A state object stands for a run. *)
Definition matches (s : line_state) (u : run) : Prop :=
  s_entry s = Some (u_entry u) /\ s_count s = u_count u /\ s_last_time s = u_last u.

(** The header above the first line, and a line that may be out of date. *)
Definition header (s : line_state) (u : run) : list item :=
  if s_header_present s then [IDay (n_day (u_entry u))] else [].

Definition shown (s : line_state) (l : list item) : Prop :=
  length l = if s_line_present s then 1%nat else 0%nat.

(** Renderers for journals: [O] is what is known of the state and the line of a
    journal of one run, [T] and [B] of the first and the last line of others. *)
Inductive rel (O T B : line_state -> run -> list item -> Prop) : renderer -> list run -> Prop :=
  | rel_none : rel O T B (new_renderer []) []
  | rel_one s u l : matches s u -> O s u l -> rel O T B (mk_renderer true s s (header s u ++ l)) [u]
  | rel_many t b u mid v lt lb : matches t u -> matches b v -> T t u lt -> B b v lb ->
      rel O T B (mk_renderer false t b (header t u ++ lt ++ between u mid v ++ lb)) (u :: mid ++ [v]).

Lemma rel_mono (O T B O' T' B' : line_state -> run -> list item -> Prop) r l :
  (forall s u i, O s u i -> O' s u i) -> (forall s u i, T s u i -> T' s u i) -> (forall s u i, B s u i -> B' s u i) ->
  rel O T B r l -> rel O' T' B' r l.
Proof. intros HO HT HB []; constructor; auto. Qed.

(** A line that may be out of date, one that is not, and the same below a
    header. *)
Definition any_line (s : line_state) (_ : run) (l : list item) : Prop := shown s l.
Definition fresh_line (s : line_state) (u : run) (l : list item) : Prop :=
  s_line_present s = true /\ l = [run_line u].
Definition headed (P : line_state -> run -> list item -> Prop) (s : line_state) (u : run) (l : list item) : Prop :=
  s_header_present s = true /\ P s u l.

Lemma fresh_any s u l : fresh_line s u l -> any_line s u l.
Proof. intros [H ->]. unfold any_line, shown. by rewrite H. Qed.

Lemma headed_any s u l : headed fresh_line s u l -> any_line s u l.
Proof. intros [_ H]. by eapply fresh_any. Qed.

(** While entries are put at the top; at the bottom; and after a flush. *)
Definition at_top : renderer -> list run -> Prop := rel any_line any_line fresh_line.
Definition at_bottom : renderer -> list run -> Prop := rel (headed any_line) (headed fresh_line) any_line.
Definition flushed : renderer -> list run -> Prop := rel (headed fresh_line) (headed fresh_line) fresh_line.

Lemma flushed_top r l : flushed r l -> at_top r l.
Proof. apply rel_mono; [apply headed_any|apply headed_any|done]. Qed.

Lemma flushed_bottom r l : flushed r l -> at_bottom r l.
Proof.
  apply rel_mono; [|done|apply fresh_any]. intros s u i [H1 H2]. split; [done|by eapply fresh_any].
Qed.

(** After a flush the box shows the journal. *)
Lemma flushed_box r l : flushed r l -> r_box r = render_runs l.
Proof.
  intros [|s u i Hm [Hh [_ ->]]|t b u mid v lt lb Ht Hb [Hh [_ ->]] [_ ->]]; cbn [r_box render_runs]; unfold header;
    rewrite ?Hh; [done..|]. rewrite after_snoc. done.
Qed.

Lemma matches_line s u : matches s u -> render_state_line s = run_line u.
Proof. intros (H1 & H2 & H3). unfold render_state_line, run_line. by rewrite H1, H2, H3. Qed.

Lemma shown_cases s l : shown s l ->
  (s_line_present s = true /\ exists i, l = [i]) \/ (s_line_present s = false /\ l = []).
Proof.
  unfold shown. destruct (s_line_present s); intros H.
  - left. destruct l as [|i [|j l]]; cbn in H; try lia. eauto.
  - right. by destruct l.
Qed.

(** The state once its line is up to date. *)
Definition up_to_date (s : line_state) : line_state :=
  s <| s_line_present := true |> <| s_header_present := false |>.

(** The two removals of [top_output], with one state object. *)
Lemma drop_header s u rest :
  (if s_header_present s
   then upd_top (fun s => s <| s_header_present := false |>) (out_remove_first (mk_renderer true s s (header s u ++ rest)))
   else mk_renderer true s s (header s u ++ rest)) =
  mk_renderer true (s <| s_header_present := false |>) (s <| s_header_present := false |>) rest.
Proof. unfold header. by destruct s as [en cn ft lt lp []]. Qed.

Lemma drop_line s l :
  shown s l ->
  (if s_line_present s
   then upd_top (fun s => s <| s_line_present := false |>) (out_remove_first (mk_renderer true s s l))
   else mk_renderer true s s l) =
  mk_renderer true (s <| s_line_present := false |>) (s <| s_line_present := false |>) [].
Proof. intros [[E [i ->]]|[E ->]]%shown_cases; destruct s; cbn in E; by subst. Qed.

Lemma top_output_one s u l :
  matches s u -> shown s l ->
  top_output (mk_renderer true s s (header s u ++ l)) =
  mk_renderer true (up_to_date s) (up_to_date s) [run_line u].
Proof.
  intros Hm Hs. unfold top_output. cbn [r_top]. rewrite drop_header. cbn [r_top].
  rewrite (drop_line (s <| s_header_present := false |>)) by done. cbn [r_top].
  set (s2 := s <| s_header_present := false |> <| s_line_present := false |>).
  assert (matches s2 u) as Hm2 by exact Hm. unfold has_entry. destruct Hm2 as [-> Hm2].
  rewrite (matches_line s2 u) by exact Hm. by destruct s.
Qed.

Lemma top_output_many t b u lt rest :
  matches t u -> shown t lt ->
  top_output (mk_renderer false t b (header t u ++ lt ++ rest)) =
  mk_renderer false (up_to_date t) b (run_line u :: rest).
Proof.
  intros Hm Hs. pose proof (matches_line t u Hm) as Hl. destruct Hm as (He & _ & _).
  destruct t as [en cn ft lat lp hp]. unfold shown, header in *. cbn in *. subst en.
  unfold up_to_date, set_field. cbn.
  destruct hp, lp; destruct lt as [|i [|j lt]]; cbn in Hs; try lia;
    unfold top_output; cbn; unfold out_prepend, upd_top, set_field; cbn; do 2 f_equal; exact Hl.
Qed.

Lemma removelast_shown rest (i : item) : removelast (rest ++ [i]) = rest.
Proof. by rewrite removelast_last. Qed.

Lemma bottom_output_one s u l :
  matches s u -> shown s l ->
  bottom_output (mk_renderer true s s (header s u ++ l)) =
  mk_renderer true (s <| s_line_present := true |>) (s <| s_line_present := true |>) (header s u ++ [run_line u]).
Proof.
  intros Hm Hs. pose proof (matches_line s u Hm) as Hl. destruct Hm as (He & _ & _).
  generalize (header s u). intros h.
  destruct s as [en cn ft lt lp hp]. unfold shown in *. cbn in *. subst en.
  destruct lp; destruct l as [|i [|j l]]; cbn in Hs; try lia;
    unfold bottom_output, out_remove_last, out_append, upd_bottom, set_field; cbn;
    rewrite ?removelast_shown, ?app_nil_r; do 3 f_equal; exact Hl.
Qed.

Lemma bottom_output_many t b v lb rest :
  matches b v -> shown b lb ->
  bottom_output (mk_renderer false t b (rest ++ lb)) =
  mk_renderer false t (b <| s_line_present := true |>) (rest ++ [run_line v]).
Proof.
  intros Hm Hs. pose proof (matches_line b v Hm) as Hl. destruct Hm as (He & _ & _).
  destruct b as [en cn ft lat lp hp]. unfold shown in *. cbn in *. subst en.
  destruct lp; destruct lb as [|i [|j lb]]; cbn in Hs; try lia;
    unfold bottom_output, out_remove_last, out_append, upd_bottom, set_field; cbn;
    rewrite ?removelast_shown, ?app_nil_r; do 3 f_equal; exact Hl.
Qed.

Section Refinement.

Context (st : locale_state) (local_date : jval -> date).

Abbreviation format := (format_entry st local_date).

(** What the page feeds the renderer, and the abstract journal. *)
Inductive feed := Prepend (entries : list jobj) | Append (entries : list jobj).

Definition feed_renderer (r : renderer) (x : feed) : renderer :=
  match x with
  | Prepend entries => prepend_entries st local_date entries r
  | Append entries => append_entries st local_date entries r
  end.

Definition feed_runs (l : list run) (x : feed) : list run :=
  match x with
  | Prepend entries => foldl (fun l e => prepend_run (format e) l) l entries
  | Append entries => foldl (fun l e => append_run (format e) l) l entries
  end.

Lemma matches_new e s : matches (new_line e s) (new_run e).
Proof. by split_and!. Qed.

Lemma matches_flags s s' u :
  s_entry s' = s_entry s -> s_count s' = s_count s -> s_last_time s' = s_last_time s ->
  matches s u -> matches s' u.
Proof. unfold matches. intros -> -> ->. done. Qed.

Lemma same_entry_eq s u e : matches s u -> same_entry s e = entry_is_equal (u_entry u) e.
Proof. intros (H & _). unfold same_entry. by rewrite H. Qed.

Lemma loose_eq_sym a b : loose_eq a b = loose_eq b a.
Proof.
  destruct a, b; cbn; try done; try apply String.eqb_sym; try apply Z.eqb_sym.
  by destruct b, b0.
Qed.

(** What [prepend] and [append] put between two lines. *)
Lemma prepend_sep e t r :
  (let r := if loose_eq (n_bootid e) (n_bootid t) then r else out_prepend IReboot r in
   if String.eqb (n_day e) (n_day t) then r else out_prepend (IDay (n_day t)) r) =
  r <| r_box ::= (fun b => sep e t ++ b) |>.
Proof.
  unfold sep. rewrite (loose_eq_sym (n_bootid t)), (String.eqb_sym (n_day t)).
  destruct r, (loose_eq _ _), (String.eqb _ _); reflexivity.
Qed.

Lemma append_sep b e r :
  (r_same r = true -> r_top r = r_bottom r) ->
  s_header_present (r_bottom r) = true \/ r_same r = false \/ n_day e = n_day b ->
  exists h,
  (let r := if String.eqb (n_day e) (n_day b) then r
            else upd_bottom (fun s => s <| s_header_present := true |>) (out_append (IDay (n_day e)) r) in
   if loose_eq (n_bootid e) (n_bootid b) then r else out_append IReboot r) =
  r <| r_bottom ::= (fun s => s <| s_header_present := h |>) |> <| r_box ::= (fun x => x ++ sep b e) |> /\
  (r_same r = true -> h = s_header_present (r_bottom r)).
Proof.
  intros Ht Hh. unfold sep. destruct r as [sm t bt box]. cbn in Ht, Hh.
  destruct (String.eqb_spec (n_day e) (n_day b)) as [Hd|Hd].
  - exists (s_header_present bt). split; [|done].
    destruct bt, (loose_eq _ _); unfold out_append, set_field; cbn; by rewrite ?app_nil_r.
  - exists true. split.
    + destruct sm.
      * rewrite Ht by done. destruct Hh as [Hh|[|]]; try done.
        destruct bt; cbn in Hh; subst; destruct (loose_eq _ _);
          unfold out_append, upd_bottom, set_field; cbn; by rewrite <- ?app_assoc.
      * destruct bt, (loose_eq _ _); unfold out_append, upd_bottom, set_field; cbn; by rewrite <- ?app_assoc.
    + cbn. intros ->. by destruct Hh as [-> |[|]].
Qed.

(** The simulation relation up to the form of the renderer. *)
Lemma rel_one_eq (O T B : line_state -> run -> list item -> Prop) r s u l :
  matches s u -> O s u l -> r = mk_renderer true s s (header s u ++ l) -> rel O T B r [u].
Proof. intros Hm Hs ->. by apply rel_one. Qed.

Lemma rel_many_eq (O T B : line_state -> run -> list item -> Prop) r t b u mid v lt lb l :
  matches t u -> matches b v -> T t u lt -> B b v lb ->
  r = mk_renderer false t b (header t u ++ lt ++ between u mid v ++ lb) -> l = u :: mid ++ [v] -> rel O T B r l.
Proof. intros ???? -> ->. by apply rel_many. Qed.

Lemma entry_matches s u : matches s u -> s_entry s = Some (u_entry u).
Proof. by intros (H & _). Qed.

Lemma matches_bump_top s u t :
  matches s u ->
  matches (s <| s_count ::= Z.succ |> <| s_first_time := t |>) (mk_run (u_entry u) (Z.succ (u_count u)) (u_last u)).
Proof. intros (H1 & H2 & H3). split_and!; cbn; congruence. Qed.

Lemma matches_bump_bottom s u t :
  matches s u ->
  matches (s <| s_count ::= Z.succ |> <| s_last_time := t |>) (mk_run (u_entry u) (Z.succ (u_count u)) t).
Proof. intros (H1 & H2 & H3). split_and!; cbn; congruence. Qed.

(** A new line above: what was the first line is up to date. *)
Lemma prepend_new n sm s b u rest :
  s_entry s = Some (u_entry u) -> (sm = true -> b = s) ->
  upd_top (new_line n) (start_new_line
    (match s_entry (r_top (mk_renderer sm s b rest)) with
     | Some t =>
         let r := if loose_eq (n_bootid n) (n_bootid t) then mk_renderer sm s b rest
                  else out_prepend IReboot (mk_renderer sm s b rest) in
         if String.eqb (n_day n) (n_day t) then r else out_prepend (IDay (n_day t)) r
     | None => mk_renderer sm s b rest
     end)) =
  mk_renderer false (new_line n s) b (sep n (u_entry u) ++ rest).
Proof.
  intros He Hb. cbn [r_top]. rewrite He, prepend_sep. unfold start_new_line. cbn [r_top set_field]. rewrite He.
  destruct sm; [rewrite Hb by done|]; reflexivity.
Qed.

Lemma prepend_rel e r l : at_top r l -> at_top (prepend st local_date e r) (prepend_run (format e) l).
Proof.
  intros Hr. unfold prepend, prepend_run. generalize (format e) as n. clear e. intros n.
  destruct Hr as [|s u l Hm Hs|t b u mid v lt lb Ht Hb Hlt Hlb].
  - by apply (rel_one_eq _ _ _ _ (new_line n empty_state) (new_run n) []); [apply matches_new|..].
  - cbn [r_top]. rewrite (same_entry_eq s u) by done. destruct (entry_is_equal (u_entry u) n).
    + by eapply (rel_one_eq _ _ _ _ (s <| s_count ::= Z.succ |> <| s_first_time := n_time n |>) _ l);
        [by apply matches_bump_top|..].
    + rewrite top_output_one by done.
      rewrite (prepend_new n true (up_to_date s) (up_to_date s) u) by (done || by apply entry_matches).
      by eapply (rel_many_eq _ _ _ _ (new_line n (up_to_date s)) (up_to_date s) (new_run n) [] u [] [run_line u]);
        [apply matches_new|exact Hm|..].
  - cbn [r_top]. rewrite (same_entry_eq t u) by done. destruct (entry_is_equal (u_entry u) n).
    + eapply (rel_many_eq _ _ _ _ (t <| s_count ::= Z.succ |> <| s_first_time := n_time n |>) b _ mid v lt lb);
        [by apply matches_bump_top|exact Hb|exact Hlt|exact Hlb| |done].
      by rewrite (between_entry (mk_run (u_entry u) (Z.succ (u_count u)) (u_last u)) u mid v v).
    + rewrite top_output_many by done.
      rewrite (prepend_new n false (up_to_date t) b u) by (done || by apply entry_matches).
      eapply (rel_many_eq _ _ _ _ (new_line n (up_to_date t)) b (new_run n) (u :: mid) v [] lb);
        [apply matches_new|exact Hb|done|exact Hlb| |done].
      rewrite between_cons. cbn [header app]. by rewrite <- app_assoc.
Qed.

Lemma prepend_flush_rel r l : at_top r l -> flushed (prepend_flush r) l.
Proof.
  intros Hr. unfold prepend_flush. destruct Hr as [|s u l Hm Hs|t b u mid v lt lb Ht Hb Hlt Hlb].
  - apply rel_none.
  - rewrite top_output_one by done. cbn [r_top]. change (s_entry (up_to_date s)) with (s_entry s).
    rewrite (entry_matches s u) by done.
    by eapply (rel_one_eq _ _ _ _ (up_to_date s <| s_header_present := true |>) u [run_line u]); [exact Hm|..].
  - rewrite top_output_many by done. cbn [r_top]. change (s_entry (up_to_date t)) with (s_entry t).
    rewrite (entry_matches t u) by done.
    by eapply (rel_many_eq _ _ _ _ (up_to_date t <| s_header_present := true |>) b u mid v [run_line u] lb);
      [exact Ht|exact Hb|..].
Qed.

Lemma append_flush_rel r l : at_bottom r l -> flushed (append_flush r) l.
Proof.
  intros Hr. unfold append_flush. destruct Hr as [|s u l Hm Hs|t b u mid v lt lb Ht Hb Hlt Hlb].
  - apply rel_none.
  - destruct Hs as [Hh Hs]. rewrite bottom_output_one by done.
    by eapply (rel_one_eq _ _ _ _ (s <| s_line_present := true |>) u [run_line u]); [exact Hm|..].
  - rewrite !app_assoc, (bottom_output_many t b v) by done.
    eapply (rel_many_eq _ _ _ _ t (b <| s_line_present := true |>) u mid v lt [run_line v]); try done.
    by rewrite !app_assoc.
Qed.

(** A new line below. *)
Lemma append_new n sm t b u box :
  s_entry b = Some (u_entry u) -> (sm = true -> t = b) ->
  (s_header_present b = true \/ sm = false \/ n_day n = n_day (u_entry u)) -> exists h,
  (let before := s_entry (r_bottom (mk_renderer sm t b box)) in
   let r := match before with
            | Some b' => if String.eqb (n_day n) (n_day b') then mk_renderer sm t b box
                         else upd_bottom (fun s => s <| s_header_present := true |>)
                                (out_append (IDay (n_day n)) (mk_renderer sm t b box))
            | None => upd_bottom (fun s => s <| s_header_present := true |>)
                        (out_append (IDay (n_day n)) (mk_renderer sm t b box))
            end in
   let r := match before with
            | Some b' => if loose_eq (n_bootid n) (n_bootid b') then r else out_append IReboot r
            | None => r
            end in
   upd_bottom (new_line n) (start_new_line r)) =
  mk_renderer false t (new_line n (b <| s_header_present := h |>)) (box ++ sep (u_entry u) n).
Proof.
  intros He Ht Hh. cbn [r_bottom]. rewrite He.
  destruct (append_sep (u_entry u) n (mk_renderer sm t b box) Ht Hh) as (h & E & Hs).
  exists h. cbv zeta in *. rewrite E. cbn in Hs. unfold start_new_line.
  destruct sm.
  - rewrite Ht by done. rewrite Hs by done. destruct b as [en cn ft lt lp hp]. cbn in He. subst en. reflexivity.
  - cbn. by destruct (s_entry t).
Qed.

Lemma append_run_snoc u mid v n : exists mid' v',
  append_run n (u :: mid ++ [v]) = u :: mid' ++ [v'] /\
  (if entry_is_equal (u_entry v) n
   then mid' = mid /\ v' = mk_run (u_entry v) (Z.succ (u_count v)) (n_time n)
   else mid' = mid ++ [v] /\ v' = new_run n).
Proof.
  assert (forall l, append_run n (l ++ [v]) =
    l ++ if entry_is_equal (u_entry v) n then [mk_run (u_entry v) (Z.succ (u_count v)) (n_time n)] else [v; new_run n]) as H.
  { induction l as [|x l IH]; [done|]. cbn [app append_run]. rewrite IH.
    by destruct l. }
  change (u :: mid ++ [v]) with ((u :: mid) ++ [v]). rewrite (H (u :: mid)). destruct (entry_is_equal (u_entry v) n).
  - by eexists mid, _.
  - exists (mid ++ [v]), (new_run n). split; [|done]. cbn. by rewrite <- app_assoc.
Qed.

Lemma append_rel e r l :
  at_bottom r l -> at_bottom (append st local_date e r) (append_run (format e) l).
Proof.
  intros Hr. unfold append. remember (format e) as n eqn:En. clear En e.
  destruct Hr as [|s u l Hm Hs|t b u mid v lt lb Ht Hb Hlt Hlb].
  - by apply (rel_one_eq _ _ _ _ (new_line n (empty_state <| s_header_present := true |>)) (new_run n) []); [apply matches_new|..].
  - cbn [r_bottom r_same append_run] in *. rewrite (same_entry_eq s u) by done.
    destruct Hs as [Hh Hs]. destruct (entry_is_equal (u_entry u) n).
    + by eapply (rel_one_eq _ _ _ _ (s <| s_count ::= Z.succ |> <| s_last_time := n_time n |>) _ l);
        [by apply matches_bump_bottom|..].
    + rewrite bottom_output_one by done. set (s1 := s <| s_line_present := true |>).
      destruct (append_new n true s1 s1 u (header s u ++ [run_line u])) as [h E]; [by apply entry_matches|done| |].
      { by left. }
      by eapply (rel_many_eq _ _ _ _ s1 (new_line n (s1 <| s_header_present := h |>)) u [] (new_run n) [run_line u] []);
        [exact Hm|apply matches_new|done|done|
         etransitivity; [exact E|by rewrite <- app_assoc, ?app_nil_r]|].
  - cbn [r_bottom r_same] in *. rewrite (same_entry_eq b v) by done.
    destruct (append_run_snoc u mid v n) as (mid' & v' & El & Hl).
    destruct (entry_is_equal (u_entry v) n); destruct Hl as [-> ->].
    + eapply (rel_many_eq _ _ _ _ t (b <| s_count ::= Z.succ |> <| s_last_time := n_time n |>) u mid _ lt lb);
        [exact Ht|by apply matches_bump_bottom|exact Hlt|exact Hlb| |exact El].
      by rewrite (between_entry u u mid (mk_run (u_entry v) (Z.succ (u_count v)) (n_time n)) v).
    + rewrite !app_assoc, (bottom_output_many t b v) by done.
      set (b1 := b <| s_line_present := true |>).
      destruct (append_new n false t b1 v (((header t u ++ lt) ++ between u mid v) ++ [run_line v])) as [h E];
        [by apply entry_matches|done|by right; left|].
      eapply (rel_many_eq _ _ _ _ t (new_line n (b1 <| s_header_present := h |>)) u (mid ++ [v]) (new_run n) lt []);
        [exact Ht|apply matches_new|exact Hlt|done| |exact El].
      etransitivity; [exact E|]. rewrite between_snoc, app_nil_r. by rewrite <- !app_assoc.
Qed.

Lemma feed_flushed x r l : flushed r l -> flushed (feed_renderer r x) (feed_runs l x).
Proof.
  intros Hr. destruct x as [es|es]; cbn [feed_renderer feed_runs].
  - apply prepend_flush_rel. apply flushed_top in Hr. revert r l Hr.
    induction es as [|e es IH]; intros r l Hr; cbn [foldl]; [done|]. by apply IH, prepend_rel.
  - apply append_flush_rel. apply flushed_bottom in Hr. revert r l Hr.
    induction es as [|e es IH]; intros r l Hr; cbn [foldl]; [done|]. by apply IH, append_rel.
Qed.

(** C17. The renderer refines the abstract journal: whatever lists of entries the
    journal page prepends and appends, in whatever order, after each the box shows
    the runs of equal entries in order, each as one line with its count, under a
    header for every day and with a mark for every reboot. *)
Theorem renderer_refines xs :
  r_box (foldl feed_renderer (new_renderer []) xs) = render_runs (foldl feed_runs [] xs).
Proof.
  apply flushed_box.
  assert (forall r l, flushed r l -> flushed (foldl feed_renderer r xs) (foldl feed_runs l xs)) as H.
  { induction xs as [|x xs IH]; intros r l Hr; cbn [foldl]; [done|]. by apply IH, feed_flushed. }
  apply H, rel_none.
Qed.

End Refinement.

(** *** Examples *)

Definition ex_date (v : jval) : date := match v with JNum z => mk_date 4 z 2018 10 5 | _ => mk_date 0 1 1970 0 0 end.

Definition ex_entry (day : Z) (message : string) : jobj :=
  {["__REALTIME_TIMESTAMP" := JNum day; "MESSAGE" := JStr message; "_BOOT_ID" := JStr "b";
    "PRIORITY" := JStr "6"; "SYSLOG_IDENTIFIER" := JStr "sshd"]}.

Example renderer_example :
  let xs := [Append [ex_entry 8 "x"; ex_entry 8 "x"]; Prepend [ex_entry 7 "w"]; Append [ex_entry 9 "y"]] in
  length (r_box (foldl (feed_renderer initial_locale ex_date) (new_renderer []) xs)) = 6%nat.
Proof. vm_compute. reflexivity. Qed.

(** The renderer itself takes more: an entry may be appended before what was
    prepended has been flushed.  But then the header of the second day is lost when
    there is a single line, and two lines are removed where one is shown again. *)
Example append_below_single_prepended_line :
  let r := append initial_locale ex_date (ex_entry 9 "y")
    (prepend initial_locale ex_date (ex_entry 8 "x") (new_renderer [])) in
  let box := r_box (append_flush (prepend_flush r)) in
  omap (fun i => match i with IDay d => Some d | _ => None end) box = ["May 8, 2018"] /\
  omap (fun i => match i with IDay d => Some d | _ => None end)
    (render_runs (foldl (feed_runs initial_locale ex_date) [] [Prepend [ex_entry 8 "x"]; Append [ex_entry 9 "y"]])) =
  ["May 8, 2018"; "May 9, 2018"].
Proof. vm_compute. split; reflexivity. Qed.

(** ** Reading the output of journalctl *)

Lemma split_lines_cons c s : exists l ls, split_lines s = l :: ls /\
  split_lines (String c s) = if Ascii.eqb c nl_char then "" :: l :: ls else String c l :: ls.
Proof.
  assert (exists l ls, split_lines s = l :: ls) as (l & ls & E).
  { induction s as [|a s (l & ls & E)]; cbn; [eauto|]. rewrite E. destruct (Ascii.eqb a nl_char); eauto. }
  exists l, ls. cbn. by rewrite E.
Qed.

(** A chunk continues the unfinished last line. *)
Lemma split_lines_app x y :
  split_lines (x +:+ y) = removelast (split_lines x) ++ split_lines (default "" (last (split_lines x)) +:+ y).
Proof.
  induction x as [|c x IH]; [done|].
  destruct (split_lines_cons c x) as (l & ls & E & ->). cbn [String.append].
  destruct (split_lines_cons c (x +:+ y)) as (l' & ls' & E' & ->). rewrite E in IH. rewrite E' in IH.
  destruct (Ascii.eqb c nl_char) eqn:Ec.
  - rewrite IH. change (removelast ("" :: l :: ls)) with ("" :: removelast (l :: ls)).
    change (last ("" :: l :: ls)) with (last (l :: ls)). done.
  - destruct ls as [|m ls].
    + cbn in *. destruct (split_lines_cons c (l +:+ y)) as (l2 & ls2 & E2 & E3). cbn in E3. rewrite E3, Ec.
      rewrite E2 in IH. by injection IH as -> ->.
    + change (removelast (String c l :: m :: ls)) with (String c l :: removelast (m :: ls)).
      change (last (String c l :: m :: ls)) with (last (m :: ls)).
      change (removelast (l :: m :: ls)) with (l :: removelast (m :: ls)) in IH.
      change (last (l :: m :: ls)) with (last (m :: ls)) in IH. by injection IH as -> ->.
Qed.

Section Stream.

Context (JSON_parse : string -> option jval).

Inductive reader_action := RData (data : string) | RStreamer | RInterval.

Definition reader_step (j : reader) (a : reader_action) : reader :=
  match a with
  | RData data => on_data JSON_parse data j
  | RStreamer => add_streamer j
  | RInterval => on_interval j
  end.

Definition received (acts : list reader_action) : string :=
  foldr (fun a s => match a with RData d => d +:+ s | _ => s end) "" acts.

(** The entries in the complete lines of a text. *)
Definition parse_all (s : string) : list jval :=
  concat (map (read_line JSON_parse) (removelast (split_lines s))).

Lemma parse_all_app x y :
  parse_all (x +:+ y) = parse_all x ++ parse_all (default "" (last (split_lines x)) +:+ y) /\
  last (split_lines (x +:+ y)) = last (split_lines (default "" (last (split_lines x)) +:+ y)).
Proof.
  unfold parse_all. rewrite split_lines_app.
  assert (split_lines (default "" (last (split_lines x)) +:+ y) <> []) as Hne.
  { destruct (_ +:+ y) as [|c s]; [done|]. destruct (split_lines_cons c s) as (? & ? & _ & ->).
    by destruct (Ascii.eqb c nl_char). }
  rewrite removelast_app by done. rewrite map_app, concat_app. split; [done|].
  rewrite last_app. destruct (split_lines _); [done|]. by rewrite last_cons; destruct (last l).
Qed.

Lemma fire_conserves j :
  concat (j_delivered (fire_streamers j)) ++ j_entries (fire_streamers j) =
    concat (j_delivered j) ++ j_entries j /\ j_buffer (fire_streamers j) = j_buffer j.
Proof.
  unfold fire_streamers. destruct (j_streamers j), (j_entries j) as [|e es] eqn:E; cbn; rewrite ?E; try done.
  split; [|done]. rewrite concat_app. cbn. by rewrite !app_nil_r.
Qed.

(** The entries that journalctl's output holds reach the caller exactly
    once and in order, in whatever chunks the output arrives and whenever
    streamers are added and the timer fires: what was delivered to the streamers
    and what is still kept are together the entries of the complete lines
    received, and the unfinished line is kept for the next chunk. *)
Theorem journal_stream acts :
  let j := foldl reader_step new_reader acts in
  concat (j_delivered j) ++ j_entries j = parse_all (received acts) /\
  j_buffer j = default "" (last (split_lines (received acts))).
Proof.
  cbv zeta.
  assert (forall j x, concat (j_delivered j) ++ j_entries j = parse_all x /\
      j_buffer j = default "" (last (split_lines x)) ->
    concat (j_delivered (foldl reader_step j acts)) ++ j_entries (foldl reader_step j acts) =
      parse_all (x +:+ received acts) /\
    j_buffer (foldl reader_step j acts) = default "" (last (split_lines (x +:+ received acts)))) as H.
  2: { exact (H new_reader "" (conj eq_refl eq_refl)). }
  induction acts as [|a acts IH]; intros j x [H1 H2]; cbn [foldl received foldr].
  { replace (x +:+ "") with x; [done|]. clear. induction x as [|c x IH]; [done|]. cbn. by f_equal. }
  destruct a as [d| |]; cbn [reader_step].
  - change (foldr _ "" acts) with (received acts). rewrite <- str_app_assoc. apply IH.
    destruct (parse_all_app x d) as [P1 P2]. unfold on_data. cbn. rewrite H2, P1, P2.
    split; [|done]. by rewrite app_assoc, H1.
  - by apply IH.
  - apply IH. unfold on_interval. destruct (j_interval j); [|done].
    destruct (fire_conserves j) as [-> ->]. done.
Qed.

End Stream.

Example journal_stream_example :
  let parse s := if String.eqb s "{}" then Some (JObj []) else None in
  let j := foldl (reader_step parse) new_reader
             [RStreamer; RData "{"; RData ("}" +:+ nl +:+ "-- Reboot" +:+ nl +:+ "{}"); RInterval; RData nl] in
  j_delivered j = [[JObj []]] /\ j_entries j = [JObj []] /\ j_buffer j = "".
Proof. vm_compute. auto. Qed.
