(* ===== verification/KubeIndex.v ===== *)
(** * The hash index of the Kubernetes client
      (src/pkg/kubernetes/scripts/kube-client.js)

    [HashIndex] files values, the links of objects, under the hashes of their
    keys, each bucket a sorted array.  Looking up several keys intersects their
    buckets.  The strings here are sequences of code units below 256: the names
    that Kubernetes gives are ASCII. *)

From S2P Require Import Prelude.
From stdpp Require Import sorting.
#[local] Open Scope Z_scope.

(** ** The code *)

Definition char_code (c : Ascii.ascii) : Z := Z.of_N (Ascii.N_of_ascii c).

(** [h = ((h << 5) - h) + chr; h |= 0]. *)
Definition hash_step (h : Z) (c : Ascii.ascii) : Z := js_or (js_shl h 5 - h + char_code c) 0.

Definition hash (str : string) : Z :=
  if Nat.eqb (String.length str) 0 then 0
  else Z.abs (foldl hash_step 0 (String.list_ascii_of_string str)).

(** Binary search in a sorted array: the index of [val], or where it belongs.
    [None] is a loop that has not ended. *)
Fixpoint search_loop (fuel : nat) (arr : list string) (val : string) (low high : Z) : option Z :=
  match fuel with
  | O => None
  | S fuel =>
      if low <=? high then
        let mid := js_or (Z.quot (low + high) 2) 0 in
        match js_at arr mid with
        | Some v =>
            if String.ltb v val then search_loop fuel arr val (mid + 1) high
            else if String.ltb val v then search_loop fuel arr val low (mid - 1)
            else Some mid
        | None => Some mid
        end
      else Some low
  end.

(** The number of halvings of an array. *)
Definition search_fuel (arr : list string) : nat := S (S (Nat.log2 (length arr))).

Definition search (arr : list string) (val : string) : Z :=
  default 0 (search_loop (search_fuel arr) arr val 0 (zlen arr - 1)).

Section HashIndex.

Context (size : Z).

(** The sparse array of buckets. *)
Abbreviation index := (gmap Z (list string)).

Definition bucket (key : string) : Z := Z.rem (hash key) size.

(** [if (p[x] != value) p.splice(x, 0, value)]. *)
Definition insert_sorted (p : list string) (value : string) : list string :=
  let x := search p value in
  if decide (js_at p x = Some value) then p else take (Z.to_nat x) p ++ value :: drop (Z.to_nat x) p.

Definition add_key (value : string) (array : index) (key : string) : index :=
  let i := bucket key in <[i := insert_sorted (default [] (array !! i)) value]> array.

Definition index_add (keys : list string) (value : string) (array : index) : index :=
  foldl (add_key value) array keys.

Definition index_get (array : index) (key : string) : list string := default [] (array !! bucket key).

(** The intersection of [result] with the bucket [p], in place: [ri] runs over
    [result], [ri + px] over [p].  [None] is a loop that has not ended. *)
Fixpoint intersect_loop (fuel : nat) (result p : list string) (ri px : nat) : option (list string) :=
  match fuel with
  | O => None
  | S fuel =>
      match result !! ri with
      | None => Some result
      | Some rv =>
          match p !! (ri + px)%nat with
          | Some pv =>
              if String.ltb pv rv then intersect_loop fuel result p ri (S px)
              else if decide (rv = pv) then intersect_loop fuel result p (S ri) px
              else intersect_loop fuel (take ri result ++ drop (S ri) result) p ri px
          | None => intersect_loop fuel (take ri result ++ drop (S ri) result) p ri px
          end
      end
  end.

Definition intersect_fuel (result p : list string) : nat := S (length result + length p).

Definition intersect (result p : list string) : list string :=
  default [] (intersect_loop (intersect_fuel result p) result p 0 0).

(** The loop over the keys, with [result] undefined before the first one. *)
Fixpoint all_loop (array : index) (keys : list string) (result : option (list string)) : option (list string) :=
  match keys with
  | [] => result
  | key :: keys =>
      match array !! bucket key with
      | None => Some []
      | Some p =>
          all_loop array keys (Some (match result with None => p | Some r => intersect r p end))
      end
  end.

Definition index_all (array : index) (keys : list string) : list string := default [] (all_loop array keys None).

End HashIndex.

(** ** The order of strings *)

Definition slt (a b : string) : Prop := String.ltb a b = true.
Abbreviation sorted := (StronglySorted slt).

Lemma ltb_leb a b : String.ltb a b = negb (String.leb b a).
Proof.
  unfold String.ltb, String.leb. rewrite (String.compare_antisym b a). by destruct (String.compare a b).
Qed.

Lemma slt_irrefl a : ~ slt a a.
Proof. unfold slt. rewrite ltb_leb. by destruct (String.leb_total a a) as [->| ->]. Qed.

Lemma slt_trans a b c : slt a b -> slt b c -> slt a c.
Proof.
  unfold slt. rewrite !ltb_leb, !negb_true_iff. intros Hba Hcb.
  destruct (String.leb c a) eqn:E; [|done]. exfalso.
  assert (String.leb b c = true) as Hbc by (destruct (String.leb_total b c); congruence).
  assert (String.le b a) as H; [|by unfold String.le in H; rewrite Hba in H].
  transitivity c; unfold String.le; [by rewrite Hbc|by rewrite E].
Qed.

#[export] Instance slt_transitive : Transitive slt.
Proof. exact slt_trans. Qed.

(** Trichotomy, in the order the code tests. *)
Lemma ltb_cases a b : {slt a b} + {a = b} + {slt b a}.
Proof.
  unfold slt. destruct (String.ltb a b) eqn:E1; [by left; left|].
  destruct (String.ltb b a) eqn:E2; [by right|]. left; right.
  rewrite ltb_leb, negb_false_iff in E1, E2. by apply String.leb_antisym.
Qed.

Lemma slt_ltb_false a b : slt a b -> String.ltb b a = false.
Proof.
  intros H. destruct (String.ltb b a) eqn:E; [|done]. exfalso. apply (slt_irrefl a). by eapply slt_trans.
Qed.

Lemma ltb_refl a : String.ltb a a = false.
Proof. destruct (String.ltb a a) eqn:E; [|done]. by apply slt_irrefl in E. Qed.

Lemma slt_ne a b : slt a b -> a <> b.
Proof. intros H ->. by apply slt_irrefl in H. Qed.

#[export] Hint Resolve slt_irrefl slt_ltb_false : kube.

(** ** Binary search *)

Lemma js_or_0_r a : 0 <= a < 2 ^ 31 -> js_or a 0 = a.
Proof. intros H. unfold js_or. rewrite (to_int32_small 0), Z.lor_0_r by lia. by apply to_int32_small. Qed.

Lemma bucket_lookup_lt (l : list string) i j x y :
  sorted l -> (i < j)%nat -> l !! i = Some x -> l !! j = Some y -> slt x y.
Proof.
  intros Hs Hij Hi Hj. rewrite <- (take_drop_middle l i x Hi) in Hs.
  apply (StronglySorted_app_1_r slt) in Hs. apply StronglySorted_cons in Hs as [Hf _].
  rewrite Forall_forall in Hf. apply Hf. apply list_elem_of_lookup. exists (j - S i)%nat.
  rewrite lookup_drop, <- Hj. f_equal. lia.
Qed.

(** [k] is where [val] belongs. *)
Definition place (arr : list string) (val : string) (k : Z) : Prop :=
  0 <= k <= zlen arr /\
  (forall i x, Z.of_nat i < k -> arr !! i = Some x -> slt x val) /\
  (forall i x, k <= Z.of_nat i -> arr !! i = Some x -> ~ slt x val).

Lemma bisect_loop_spec arr val : sorted arr -> zlen arr < 2 ^ 30 -> forall fuel low high,
  0 <= low -> low <= high + 1 -> high < zlen arr ->
  high - low + 1 < 2 ^ (Z.of_nat fuel - 1) -> (0 < fuel)%nat ->
  (forall i x, Z.of_nat i < low -> arr !! i = Some x -> slt x val) ->
  (forall i x, high < Z.of_nat i -> arr !! i = Some x -> ~ slt x val) ->
  exists k, search_loop fuel arr val low high = Some k /\ place arr val k.
Proof.
  intros Hs Hlen. induction fuel as [|fuel IH]; intros low high Hl Hlh Hh Hf Hf0 Hlo Hhi; [lia|].
  cbn [search_loop]. destruct (Z.leb_spec low high) as [Hle|Hgt].
  2: { exists low. split; [done|]. unfold place. repeat split; [lia|lia|done|]. intros i x Hi. apply Hhi. lia. }
  rewrite Z.quot_div_nonneg by lia. set (mid := (low + high) / 2).
  assert (2 * mid <= low + high < 2 * mid + 2) as Hmid.
  { pose proof (Z.mul_div_le (low + high) 2 eq_refl). pose proof (Z.mul_succ_div_gt (low + high) 2 eq_refl). unfold mid. lia. }
  clearbody mid.
  rewrite js_or_0_r by lia. unfold js_at. destruct (Z.ltb_spec mid 0); [lia|].
  destruct (arr !! Z.to_nat mid) as [v|] eqn:Ev.
  2: { apply lookup_ge_None_1 in Ev. unfold zlen in *. lia. }
  assert (0 < fuel)%nat as Hfu by (destruct fuel; [cbn in Hf; lia|lia]).
  assert (high - low + 1 < 2 * 2 ^ (Z.of_nat fuel - 1)) as Hf'.
  { rewrite <- Z.pow_succ_r by lia. replace (Z.succ (Z.of_nat fuel - 1)) with (Z.of_nat (S fuel) - 1) by lia. done. }
  destruct (ltb_cases v val) as [[Hv| ->]|Hv].
  - unfold slt in Hv. rewrite Hv. apply IH; try lia; [|done]. intros i x Hi Hx.
    destruct (decide (i = Z.to_nat mid)) as [->|Hne]; [congruence|].
    eapply slt_trans; [|exact Hv]. eapply (bucket_lookup_lt arr i (Z.to_nat mid)); eauto. lia.
  - rewrite ltb_refl. exists mid. split; [done|]. unfold place. repeat split; [lia|lia|..].
    + intros i x Hi Hx. eapply (bucket_lookup_lt arr i (Z.to_nat mid)); eauto. lia.
    + intros i x Hi Hx Hlt. destruct (decide (i = Z.to_nat mid)) as [->|Hne].
      * rewrite Ev in Hx. injection Hx as ->. by apply slt_irrefl in Hlt.
      * apply (slt_irrefl x). eapply slt_trans; [exact Hlt|].
        eapply (bucket_lookup_lt arr (Z.to_nat mid) i); eauto. lia.
  - rewrite (slt_ltb_false _ _ Hv). unfold slt in Hv. rewrite Hv. apply IH; try lia; [done|].
    intros i x Hi Hx Hlt. destruct (decide (i = Z.to_nat mid)) as [->|Hne].
    + rewrite Ev in Hx. injection Hx as ->. apply (slt_irrefl x). by eapply slt_trans.
    + destruct (decide (Z.to_nat mid < i)%nat) as [Hi'|]; [|lia].
      apply (slt_irrefl val). eapply slt_trans; [exact Hv|]. eapply slt_trans; [|exact Hlt].
      eapply (bucket_lookup_lt arr (Z.to_nat mid) i); eauto.
Qed.

Lemma search_loop_ends arr val : sorted arr -> zlen arr < 2 ^ 30 ->
  exists k, search_loop (search_fuel arr) arr val 0 (zlen arr - 1) = Some k /\ place arr val k.
Proof.
  intros Hs Hlen.
  apply (bisect_loop_spec arr val Hs Hlen (search_fuel arr) 0 (zlen arr - 1));
    try (unfold zlen, search_fuel in *; lia); try done.
  - unfold search_fuel. replace (zlen arr - 1 - 0 + 1) with (zlen arr) by lia.
    replace (Z.of_nat (S (S (Nat.log2 (length arr)))) - 1) with (Z.of_nat (S (Nat.log2 (length arr)))) by lia.
    destruct (decide (length arr = 0%nat)) as [E|Hne]; [unfold zlen; rewrite E; cbn; lia|].
    pose proof (Nat.log2_spec (length arr)) as H. unfold zlen.
    rewrite <- (Nat2Z.inj_pow 2). lia.
  - intros i x Hi Hx. apply lookup_lt_Some in Hx. unfold zlen in *. lia.
Qed.

Lemma bisect_spec arr val : sorted arr -> zlen arr < 2 ^ 30 -> place arr val (search arr val).
Proof. intros Hs Hl. unfold search. by destruct (search_loop_ends arr val Hs Hl) as (k & -> & Hk). Qed.

(** ** Buckets *)

Lemma place_take arr val k : place arr val k -> forall x, x ∈ take (Z.to_nat k) arr -> slt x val.
Proof.
  intros (Hk & Hlt & _) x [i Hi]%list_elem_of_lookup. apply lookup_take_Some in Hi as [Hi Hik].
  eapply Hlt; [|exact Hi]. lia.
Qed.

Lemma place_drop arr val k : place arr val k -> forall x, x ∈ drop (Z.to_nat k) arr -> ~ slt x val.
Proof.
  intros (Hk & _ & Hge) x [i Hi]%list_elem_of_lookup. rewrite lookup_drop in Hi.
  eapply Hge; [|exact Hi]. lia.
Qed.

(** When the value is not at its place it is nowhere. *)
Lemma place_absent arr val k :
  sorted arr -> place arr val k -> js_at arr k <> Some val ->
  forall x, x ∈ drop (Z.to_nat k) arr -> slt val x.
Proof.
  intros Hs Hp Hne. pose proof (place_drop _ _ _ Hp) as Hge. destruct Hp as (Hk & _).
  unfold js_at in Hne. destruct (Z.ltb_spec k 0); [lia|].
  rewrite <- (take_drop (Z.to_nat k) arr) in Hs. apply (StronglySorted_app_1_r slt) in Hs.
  pose proof (lookup_drop arr (Z.to_nat k) 0) as H0. rewrite Nat.add_0_r in H0. rewrite <- H0 in Hne. clear H0.
  destruct (drop (Z.to_nat k) arr) as [|y q]; intros x Hx; [by apply not_elem_of_nil in Hx|].
  apply StronglySorted_cons in Hs as [Hf _]. rewrite Forall_forall in Hf.
  destruct (ltb_cases val x) as [[H1| ->]|H1]; [done| |by destruct (Hge x Hx)].
  apply elem_of_cons in Hx as [->|Hx]; [done|]. destruct (Hge y); [by left|by apply Hf].
Qed.

(** Inserting keeps a bucket sorted and adds the value, once. *)
Lemma insert_sorted_spec p value :
  sorted p -> zlen p < 2 ^ 30 ->
  sorted (insert_sorted p value) /\ (forall x, x ∈ insert_sorted p value <-> x = value \/ x ∈ p) /\
  zlen (insert_sorted p value) <= zlen p + 1.
Proof.
  intros Hs Hlen. unfold insert_sorted. pose proof (bisect_spec p value Hs Hlen) as Hp.
  set (k := search p value) in *. destruct (decide (js_at p k = Some value)) as [E|Hne].
  - split; [done|]. split; [|lia]. intros x. split; [by right|]. intros [->|]; [|done].
    unfold js_at in E. destruct (Z.ltb_spec k 0); [by destruct Hp; lia|]. by eapply list_elem_of_lookup_2.
  - pose proof (place_take _ _ _ Hp) as Hlt. pose proof (place_absent _ _ _ Hs Hp Hne) as Hgt.
    rewrite <- (take_drop (Z.to_nat k) p) in Hs. apply (StronglySorted_app slt) in Hs as (H12 & H1 & H2).
    split; [|split].
    + apply (StronglySorted_app_2 slt); [|done|].
      * intros x y Hx Hy. apply elem_of_cons in Hy as [->|Hy]; [by apply Hlt|by apply H12].
      * apply StronglySorted_cons. split; [|done]. by apply Forall_forall.
    + intros x. rewrite <- (take_drop (Z.to_nat k) p) at 3. rewrite !elem_of_app, elem_of_cons. tauto.
    + unfold zlen. rewrite length_app. cbn. rewrite length_take, length_drop. lia.
Qed.

(** ** Intersection *)

Lemma sorted_filter (P : string -> Prop) `{!forall x, Decision (P x)} (l : list string) :
  sorted l -> sorted (filter P l).
Proof.
  induction l as [|a l IH]; intros Hs; [done|]. apply StronglySorted_cons in Hs as [Hf Hs].
  rewrite filter_cons. case_decide; [|by apply IH]. apply StronglySorted_cons. split; [|by apply IH].
  rewrite Forall_forall in *. intros x [_ Hx]%list_elem_of_filter. by apply Hf.
Qed.

Lemma sorted_cons_notin x y l : sorted (y :: l) -> slt x y -> x ∉ y :: l.
Proof.
  intros [Hf _]%StronglySorted_cons Hxy Hx. rewrite Forall_forall in Hf.
  apply elem_of_cons in Hx as [->|Hx]; [by apply slt_irrefl in Hxy|]. apply (slt_irrefl x). eapply slt_trans; eauto.
Qed.

Lemma sorted_head_notin y l : sorted (y :: l) -> y ∉ l.
Proof. intros [Hf _]%StronglySorted_cons Hx. rewrite Forall_forall in Hf. by apply (slt_irrefl y), Hf. Qed.

(** The loop ends, and has kept what is in both arrays. *)
Lemma intersect_loop_spec p : forall fuel done rest px,
  sorted rest -> sorted (drop (length done + px) p) ->
  (length rest + (length p - (length done + px)) < fuel)%nat ->
  intersect_loop fuel (done ++ rest) p (length done) px =
  Some (done ++ filter (fun x => x ∈ drop (length done + px) p) rest).
Proof.
  induction fuel as [|fuel IH]; intros dn rest px Hr Hp Hf; [lia|]. cbn [intersect_loop].
  rewrite lookup_app_r, Nat.sub_diag by done. destruct rest as [|rv rest]; [done|]. cbn [lookup list_lookup].
  assert (take (length dn) (dn ++ rv :: rest) ++ drop (S (length dn)) (dn ++ rv :: rest) = dn ++ rest) as Hsp.
  { rewrite take_app_length. f_equal. rewrite <- Nat.add_1_r, <- drop_drop, drop_app_length. done. }
  rewrite Hsp. pose proof Hr as [_ Hr']%StronglySorted_cons.
  pose proof (lookup_drop p (length dn + px) 0) as H0. rewrite Nat.add_0_r in H0. rewrite <- H0. clear H0.
  destruct (drop (length dn + px) p) as [|pv q] eqn:Eq; cbn [lookup list_lookup].
  { rewrite IH, Eq; [|done|by rewrite Eq|cbn in *; lia]. by rewrite filter_cons_False by apply not_elem_of_nil. }
  assert (length p - (length dn + px) = S (length q))%nat as El by (rewrite <- length_drop, Eq; done).
  assert (drop (length dn + S px) p = q) as Eq'.
  { replace (length dn + S px)%nat with ((length dn + px) + 1)%nat by lia. rewrite <- drop_drop, Eq. done. }
  pose proof Hp as [_ Hq]%StronglySorted_cons. destruct (ltb_cases pv rv) as [[H| ->]|H].
  - unfold slt in H. rewrite H. rewrite IH, Eq'; [|done|by rewrite Eq'|cbn in *; lia].
    do 2 f_equal. apply filter_agree. intros x Hx. rewrite elem_of_cons.
    assert (x <> pv); [|tauto]. intros ->. by eapply sorted_cons_notin in Hr; [|exact H].
  - rewrite ltb_refl, decide_True by done.
    replace (length dn + S px)%nat with (length (dn ++ [rv]) + px)%nat in Eq' by (rewrite length_app; cbn; lia).
    specialize (IH (dn ++ [rv]) rest px). rewrite length_app, Nat.add_1_r, <- app_assoc in IH. cbn [app] in IH.
    rewrite IH; clear IH.
    + rewrite filter_cons_True by (by left). rewrite <- app_assoc. cbn [app].
      rewrite length_app, Nat.add_1_r in Eq'. rewrite Eq'. do 3 f_equal. apply filter_agree. intros x Hx.
      rewrite elem_of_cons. assert (x <> rv); [|tauto]. intros ->. by eapply sorted_head_notin in Hr.
    + done.
    + rewrite length_app, Nat.add_1_r in Eq'. by rewrite Eq'.
    + cbn in *. lia.
  - rewrite (slt_ltb_false _ _ H), decide_False by (by apply slt_ne). rewrite IH, Eq; [|done|by rewrite Eq|cbn in *; lia].
    by rewrite filter_cons_False by (by eapply sorted_cons_notin).
Qed.

Lemma intersect_spec result p :
  sorted result -> sorted p -> intersect result p = filter (fun x => x ∈ p) result.
Proof.
  intros Hr Hp. unfold intersect, intersect_fuel.
  by rewrite (intersect_loop_spec p _ [] result 0); [|done|done|cbn; lia].
Qed.

(** ** The index *)

Section Index.

Context (size : Z).

Definition holds (array : gmap Z (list string)) (i : Z) (x : string) : Prop := x ∈ default [] (array !! i).

(** All buckets are sorted and none has more than [n] values. *)
Definition index_ok (array : gmap Z (list string)) (n : Z) : Prop :=
  forall i p, array !! i = Some p -> sorted p /\ zlen p <= n.

Lemma add_key_spec value array key n :
  index_ok array n -> 0 <= n < 2 ^ 30 ->
  index_ok (add_key size value array key) (n + 1) /\
  forall j x, holds (add_key size value array key) j x <-> (j = bucket size key /\ x = value) \/ holds array j x.
Proof.
  intros Hok Hn. unfold add_key, holds. set (i := bucket size key). set (p := default [] (array !! i)).
  assert (sorted p /\ zlen p <= n) as [Hs Hl].
  { unfold p. destruct (array !! i) as [q|] eqn:E; [by apply (Hok i)|]. split; [constructor|unfold zlen; cbn; lia]. }
  destruct (insert_sorted_spec p value Hs ltac:(lia)) as (Hs' & Hin & Hl'). split.
  - intros j q. destruct (decide (j = i)) as [->|Hne].
    + rewrite lookup_insert_eq. intros [= <-]. split; [done|lia].
    + rewrite lookup_insert_ne by done. intros Hq. apply Hok in Hq as [? ?]. split; [done|lia].
  - intros j x. destruct (decide (j = i)) as [->|Hne].
    + rewrite lookup_insert_eq. cbn [default]. unfold id. rewrite Hin. fold p. naive_solver.
    + rewrite lookup_insert_ne by done. naive_solver.
Qed.

Lemma add_spec value keys : forall array n,
  index_ok array n -> 0 <= n -> n + zlen keys < 2 ^ 30 ->
  index_ok (index_add size keys value array) (n + zlen keys) /\
  forall j x, holds (index_add size keys value array) j x <->
    (x = value /\ exists k, k ∈ keys /\ bucket size k = j) \/ holds array j x.
Proof.
  unfold index_add. induction keys as [|k keys IH]; intros array n Hok Hn Hl; cbn [foldl].
  - unfold zlen. cbn. rewrite Z.add_0_r. split; [done|]. intros j x.
    split; [by right|]. intros [(_ & k & Hk & _)|]; [|done]. by apply not_elem_of_nil in Hk.
  - unfold zlen in *. cbn [length] in *.
    destruct (add_key_spec value array k n Hok ltac:(lia)) as [Hok1 H1].
    destruct (IH _ _ Hok1 ltac:(lia) ltac:(lia)) as [Hok2 H2]. split.
    + by replace (n + Z.of_nat (S (length keys))) with (n + 1 + Z.of_nat (length keys)) by lia.
    + intros j x. rewrite H2, H1. setoid_rewrite elem_of_cons. naive_solver.
Qed.

Lemma all_loop_spec array n keys : index_ok array n -> forall result,
  match result with Some r => sorted r | None => keys <> [] end ->
  exists r, all_loop size array keys result = Some r /\ sorted r /\
  forall x, x ∈ r <-> (forall r0, result = Some r0 -> x ∈ r0) /\ forall k, k ∈ keys -> holds array (bucket size k) x.
Proof.
  intros Hok. induction keys as [|k keys IH]; intros result Hr; cbn [all_loop].
  - destruct result as [r|]; [|done]. exists r. split; [done|]. split; [done|]. intros x. split.
    + intros Hx. split; [by intros ? [= <-]|]. intros k Hk. by apply not_elem_of_nil in Hk.
    + intros [Hx _]. by apply Hx.
  - destruct (array !! bucket size k) as [p|] eqn:Ep.
    2: { exists []. split; [done|]. split; [constructor|]. intros x. split; [by intros ?%not_elem_of_nil|].
         intros [_ H]. specialize (H k ltac:(by left)). unfold holds in H. by rewrite Ep in H. }
    destruct (Hok _ _ Ep) as [Hp _].
    destruct (IH (Some (match result with None => p | Some r => intersect r p end))) as (r & -> & Hs & Hx).
    { destruct result as [r|]; [|done]. rewrite intersect_spec by done. by apply sorted_filter. }
    exists r. split; [done|]. split; [done|]. intros x. rewrite Hx. clear Hx IH.
    assert (holds array (bucket size k) x <-> x ∈ p) as Hk by (unfold holds; by rewrite Ep).
    setoid_rewrite elem_of_cons. destruct result as [r0|].
    + rewrite intersect_spec by done. pose proof (list_elem_of_filter (fun x => x ∈ p) r0 x) as Hf. naive_solver.
    + naive_solver.
Qed.

(** The index after a sequence of additions. *)
Definition index_of (entries : list (list string * string)) : gmap Z (list string) :=
  foldl (fun array e => index_add size e.1 e.2 array) ∅ entries.

Definition total_keys (entries : list (list string * string)) : Z :=
  foldr (fun e n => zlen e.1 + n) 0 entries.

Lemma total_keys_nonneg entries : 0 <= total_keys entries.
Proof. unfold total_keys. induction entries as [|e l IH]; cbn [foldr]; unfold zlen in *; lia. Qed.

Lemma index_of_spec entries : total_keys entries < 2 ^ 30 ->
  index_ok (index_of entries) (total_keys entries) /\
  forall j x, holds (index_of entries) j x <-> exists ks k, (ks, x) ∈ entries /\ k ∈ ks /\ bucket size k = j.
Proof.
  intros Ht.
  assert (forall l array n, index_ok array n -> 0 <= n -> n + total_keys l < 2 ^ 30 ->
    index_ok (foldl (fun array e => index_add size e.1 e.2 array) array l) (n + total_keys l) /\
    forall j x, holds (foldl (fun array e => index_add size e.1 e.2 array) array l) j x <->
      (exists ks k, (ks, x) ∈ l /\ k ∈ ks /\ bucket size k = j) \/ holds array j x) as H.
  { clear. induction l as [|[ks v] l IH]; intros array n Hok Hn Hl; cbn [foldl total_keys foldr fst snd] in *.
    - rewrite Z.add_0_r. split; [done|]. intros j x. split; [by right|].
      intros [(ks & k & H & _)|]; [|done]. by apply not_elem_of_nil in H.
    - change (foldr _ 0 l) with (total_keys l) in *. pose proof (total_keys_nonneg l).
      destruct (add_spec v ks array n Hok Hn ltac:(lia)) as [Hok1 H1].
      destruct (IH _ (n + zlen ks) Hok1 ltac:(unfold zlen; lia) ltac:(lia)) as [Hok2 H2]. split.
      + by rewrite Z.add_assoc.
      + intros j x. rewrite H2, H1. setoid_rewrite elem_of_cons. naive_solver. }
  destruct (H entries ∅ 0) as [H1 H2]; [by intros i p; rewrite lookup_empty|done|lia|].
  split; [done|]. intros j x. rewrite H2. unfold holds. rewrite lookup_empty. cbn.
  rewrite elem_of_nil. tauto.
Qed.

(** Looking up keys in the index gives, in order and without repetition,
    the values that were added under a key of the same bucket for every one of
    them.  There are thus never false negatives, and false positives only when
    keys collide. *)
Theorem index_lookup entries keys :
  total_keys entries < 2 ^ 30 -> keys <> [] ->
  sorted (index_all size (index_of entries) keys) /\
  forall x, x ∈ index_all size (index_of entries) keys <->
    forall key, key ∈ keys -> exists ks k, (ks, x) ∈ entries /\ k ∈ ks /\ bucket size k = bucket size key.
Proof.
  intros Ht Hne. destruct (index_of_spec entries Ht) as [Hok Hh]. unfold index_all.
  destruct (all_loop_spec (index_of entries) _ keys Hok None Hne) as (r & -> & Hs & Hx).
  cbn. split; [done|]. intros x. rewrite Hx. setoid_rewrite Hh. naive_solver.
Qed.

End Index.

Lemma index_lookup_witness :
  let entries := [(["a=1"; "b=2"], "/pods/x"); (["a=1"], "/pods/y"); (["b=2"; "c=3"], "/pods/z")] in
  let keys := ["b=2"; "a=1"] in
  (total_keys entries < 2 ^ 30 /\ keys <> []) /\ index_all 262139 (index_of 262139 entries) keys = ["/pods/x"] /\
  sorted (index_all 262139 (index_of 262139 entries) keys).
Proof.
  cbv zeta. split; [split; [reflexivity|discriminate]|]. split; [vm_compute; reflexivity|].
  apply (index_lookup 262139); [reflexivity|discriminate].
Defined.

(** C18. The binary search ends after at most two more rounds than the
    logarithm of the length of the array, and finds the place of the value. *)
Theorem search_ends arr val :
  sorted arr -> zlen arr < 2 ^ 30 ->
  exists k, search_loop (2 + Nat.log2 (length arr)) arr val 0 (zlen arr - 1) = Some k /\
  search arr val = k /\ 0 <= k <= zlen arr /\
  (forall i x, arr !! i = Some x -> (slt x val <-> Z.of_nat i < k)).
Proof.
  intros Hs Hl. unfold search. change (2 + Nat.log2 (length arr))%nat with (search_fuel arr).
  destruct (search_loop_ends arr val Hs Hl) as (k & -> & Hk & Hlt & Hge).
  exists k. split; [done|]. split; [done|]. split; [done|]. intros i x Hx. split.
  - intros H. destruct (Z.lt_ge_cases (Z.of_nat i) k) as [|H']; [done|]. by destruct (Hge i x H' Hx).
  - intros H. by eapply Hlt.
Qed.

Lemma search_ends_witness :
  let arr := ["/a"; "/b"; "/d"] in
  (sorted arr /\ zlen arr < 2 ^ 30) /\ search arr "/c" = 2 /\
  exists k, search_loop (2 + Nat.log2 (length arr)) arr "/c" 0 (zlen arr - 1) = Some k.
Proof.
  cbv zeta. assert (sorted ["/a"; "/b"; "/d"]) as Hs.
  { repeat first [apply SSorted_nil|apply SSorted_cons|apply Forall_nil_2|apply Forall_cons_2|reflexivity]. }
  split; [split; [exact Hs|reflexivity]|]. split; [vm_compute; reflexivity|].
  destruct (search_ends ["/a"; "/b"; "/d"] "/c" Hs eq_refl) as (k & H & _). exists k. exact H.
Defined.
