(* ===== verification/KubeLoader.v ===== *)
(** * The loader of the Kubernetes client (src/pkg/kubernetes/scripts/kube-client.js)

    The schema and the paths of resources, and [kubeLoader]: the loaded objects
    by their links, the watches, the batching of frames, the limit to
    namespaces, and the callbacks that follow all changes.

    A function that throws gives the state it leaves behind and [true]. *)

From S2P Require Import Prelude Uri.

(** ** Objects *)

(** A dictionary, enumerated in insertion order. *)
Abbreviation dict := (list (string * jval)).

(** ** The schema *)

Definition KUBE : string := "/api/v1".
Definition OPENSHIFT : string := "/oapi/v1".
Definition KUBEVIRT : string := "/apis/kubevirt.io/v1alpha1".

Record schema := mk_schema {
  sc_kind : option string; sc_type : option string; sc_api : string; sc_global : bool; sc_create : option Z }.

Definition DEFAULT : schema := mk_schema None None KUBE false (Some 0).

Definition namespaced (kind type api : string) (create : option Z) : schema :=
  mk_schema (Some kind) (Some type) api false create.
Definition global (kind type api : string) (create : option Z) : schema :=
  mk_schema (Some kind) (Some type) api true create.

Definition schema_items : list schema :=
  [ namespaced "DeploymentConfig" "deploymentconfigs" OPENSHIFT None;
    namespaced "Endpoints" "endpoints" KUBE None;
    global "Group" "groups" OPENSHIFT None;
    global "Image" "images" OPENSHIFT None;
    namespaced "ImageStream" "imagestreams" OPENSHIFT None;
    namespaced "ImageStreamImage" "imagestreamimages" OPENSHIFT None;
    namespaced "ImageStreamTag" "imagestreamtags" OPENSHIFT None;
    namespaced "LocalResourceAccessReview" "localresourceaccessreviews" OPENSHIFT None;
    global "Namespace" "namespaces" KUBE (Some (-100));
    global "Node" "nodes" KUBE None;
    namespaced "Pod" "pods" KUBE (Some (-20));
    namespaced "PolicyBinding" "policybindings" OPENSHIFT None;
    namespaced "RoleBinding" "rolebindings" OPENSHIFT None;
    namespaced "Route" "routes" OPENSHIFT None;
    global "PersistentVolume" "persistentvolumes" KUBE (Some (-100));
    namespaced "PersistentVolumeClaim" "persistentvolumeclaims" KUBE (Some (-50));
    global "Project" "projects" OPENSHIFT (Some (-90));
    global "ProjectRequest" "projectrequests" OPENSHIFT (Some (-90));
    namespaced "ReplicationController" "replicationcontrollers" KUBE (Some (-60));
    namespaced "Service" "services" KUBE (Some (-80));
    namespaced "SubjectAccessReview" "subjectaccessreviews" OPENSHIFT None;
    global "User" "users" OPENSHIFT None;
    namespaced "VirtualMachine" "virtualmachines" KUBEVIRT None ].

(** A missing kind or type would be filed under "undefined". *)
Definition flatSchema (items : list schema) : gmap string schema :=
  foldl (fun ret s => <[default "undefined" (sc_kind s) := s]> (<[default "undefined" (sc_type s) := s]> ret))
    {["" := DEFAULT]} items.

Definition SCHEMA : gmap string schema := flatSchema schema_items.

(** [SCHEMA[what] || SCHEMA[""]]. *)
Definition schema_of (what : string) : schema := default DEFAULT (SCHEMA !! what).

#[global] Arguments schema_of : simpl never.

(** ** Paths *)

Definition collection_path (s : schema) (namespace : jval) : string :=
  sc_api s +:+ (if negb (sc_global s) && truthy namespace then "/namespaces/" +:+ js_String namespace else "") +:+
  "/" +:+ default "undefined" (sc_type s).

#[global] Arguments collection_path : simpl never.

(** Type or kind, name and namespace combined into a path. *)
Definition combine_path (kind name namespace : jval) : string :=
  collection_path (schema_of (js_String kind)) namespace +:+
  (if truthy name then "/" +:+ encodeURIComponent (js_String name) else "").

Definition resourcePath (args : list jval) : string :=
  let arg i := default JUndef (args !! i) in
  let one := arg 0%nat in
  let combined := combine_path one (arg 1%nat) (arg 2%nat) in
  match one with
  | JObj _ | JArr _ =>
      let metadata := jget one "metadata" in
      if truthy metadata then
        if truthy (jget metadata "selfLink") then js_String (jget metadata "selfLink")
        else combine_path (jget one "kind") (jget metadata "name") (jget metadata "namespace")
      else if truthy (jget one "name") && truthy (jget one "kind") then
        combine_path (jget one "kind") (jget one "name") (jget one "namespace")
      else combined
  | JStr (String c _ as s) => if Ascii.eqb c "/" then s else combined
  | _ => combined
  end.

(** ** The state of the loader *)

(** A watch frame; [checkResourceVersion] is set on objects that were loaded in
    other ways. *)
Record frame := mk_frame { f_type : jval; f_object : jval; f_check : bool }.

(** What [limits.namespace] can be. *)
Inductive ns_limit := NsAll | NsOne (namespace : string) | NsMany (namespaces : list string).

(** A number that may be NaN: what adding to a missing property gives. *)
Abbreviation number := (option Z).
Definition num_add (a b : number) : number :=
  match a, b with Some x, Some y => Some (x + y) | _, _ => None end.
Definition num_le0 (a : number) : bool := match a with Some x => x <=? 0 | None => false end.

(** A watch, made by [KubeWatch]: its promise has no [references] of its own. *)
Record watch := mk_watch {
  w_what : string; w_global : bool; w_namespace : option string; w_references : number }.

#[export] Instance watch_settable : Settable watch := fun w =>
  mk_watch (w_what w) (w_global w) (w_namespace w) (w_references w).

(** What a callback is called with: nothing when the loader is reset, the
    objects when it starts to listen, then what is present and what was removed. *)
Inductive notice := CReset | CObjects (objects : dict) | CChange (present removed : dict).

Inductive event := ENewWatch (path : string) | ECancelWatch (path : string) | ECall (callback : nat) (n : notice).

Record loader := mk_loader {
  k_callbacks : list (option nat); k_namespace : ns_limit; k_watching : list (string * watch);
  k_objects : dict; k_batch : option (list frame); k_timer : bool;
  k_listening : list nat; k_log : list event }.

#[export] Instance loader_settable : Settable loader := fun k =>
  mk_loader (k_callbacks k) (k_namespace k) (k_watching k) (k_objects k) (k_batch k) (k_timer k)
    (k_listening k) (k_log k).

Definition new_loader : loader := mk_loader [] NsAll [] [] None false [] [].

Definition log (e : event) (k : loader) : loader := k <| k_log ::= (fun l => l ++ [e]) |>.

(** ** Watches *)

Definition namespace_value (namespace : option string) : jval :=
  match namespace with Some s => JStr s | None => JNull end.

Definition ensureWatch (what : string) (namespace : option string) (increment : number) (k : loader)
    : loader * string :=
  let s := schema_of what in
  let path := collection_path s (namespace_value namespace) in
  let k := match assoc_get path (k_watching k) with
           | Some _ => k
           | None =>
               log (ENewWatch path)
                 (k <| k_watching ::= assoc_set path (mk_watch what (sc_global s) namespace None) |>)
           end in
  let reference w := w <| w_references ::= (fun r => num_add r increment) |> in
  let k := match assoc_get path (k_watching k) with
           | Some w => k <| k_watching ::= assoc_set path (reference w) |>
           | None => k
           end in
  (k, path).

(** [watch.cancel], which knows its path. *)
Definition cancel_watch (path : string) (k : loader) : loader :=
  match assoc_get path (k_watching k) with
  | Some w =>
      let w := w <| w_references ::= (fun r => num_add r (Some (-1))) |> in
      let k := k <| k_watching ::= assoc_set path w |> in
      if num_le0 (w_references w) then log (ECancelWatch path) k <| k_watching ::= assoc_del path |> else k
  | None => k
  end.

(** [parts.push(ensureWatch(...))]. *)
Definition ensure_part (what : string) (increment : number) (kp : loader * list string) (namespace : string)
    : loader * list string :=
  let '(k, p) := ensureWatch what (Some namespace) increment (fst kp) in (k, snd kp ++ [p]).

(** The paths are the watches to cancel. *)
Definition ensureWatches (what : string) (increment : number) (k : loader) : loader * list string :=
  match k_namespace k with
  | NsMany l => foldl (ensure_part what increment) (k, []) l
  | NsOne ns => let '(k, p) := ensureWatch what (Some ns) increment k in (k, [p])
  | NsAll => let '(k, p) := ensureWatch what None increment k in (k, [p])
  end.

Definition cancel_watches (paths : list string) (k : loader) : loader :=
  foldl (fun k p => cancel_watch p k) k paths.

(** ** Frames *)

Definition resourceVersion (resource : jval) : option Z :=
  if truthy resource && truthy (jget resource "metadata")
  then parseInt (jget (jget resource "metadata") "resourceVersion") else None.

(** [!cVersion || !lVersion || cVersion >= lVersion]. *)
Definition fresh (cVersion lVersion : option Z) : bool :=
  match cVersion, lVersion with
  | Some c, Some l => (c =? 0) || (l =? 0) || (l <=? c)
  | _, _ => true
  end.

(** The objects, and what is present and removed since the last flush. *)
Record changes := mk_changes { g_objects : dict; g_present : dict; g_removed : dict }.

#[export] Instance changes_settable : Settable changes := fun g =>
  mk_changes (g_objects g) (g_present g) (g_removed g).

Definition store (link : string) (resource : jval) (g : changes) : changes :=
  g <| g_present ::= assoc_set link resource |> <| g_objects ::= assoc_set link resource |>.

Definition remove (link : string) (resource : jval) (g : changes) : changes :=
  g <| g_objects ::= assoc_del link |> <| g_present ::= assoc_del link |>
    <| g_removed ::= assoc_set link resource |>.

(** One frame; [None] is a link that [decodeURIComponent] does not take. *)
Definition handle_frame (f : frame) (g : changes) : option changes :=
  let resource := f_object f in
  if truthy resource then
    match decodeURIComponent (resourcePath [resource]) with
    | None => None
    | Some link =>
        if is_str (f_type f) "DELETED" then Some (remove link resource g)
        else if f_check f then
          if fresh (resourceVersion resource) (resourceVersion (default JUndef (assoc_get link (g_objects g))))
          then Some (store link resource g) else Some g
        else Some (store link resource g)
    end
  else Some g.

Fixpoint handle_drain (drain : list frame) (g : changes) : changes * bool :=
  match drain with
  | [] => (g, false)
  | f :: drain => match handle_frame f g with Some g => handle_drain drain g | None => (g, true) end
  end.

Definition invokeCallbacks (n : notice) (k : loader) : loader :=
  foldl (fun k c => match c with Some cb => log (ECall cb n) k | None => k end) k (k_callbacks k).

(** [handleFlush]: what [invoke] is called with, if it is. *)
Definition handleFlush (k : loader) : loader * option (dict * dict) * bool :=
  match k_batch k with
  | None => (k, None, false)
  | Some drain =>
      let '(g, threw) := handle_drain drain (mk_changes (k_objects k) [] []) in
      let k := k <| k_batch := None |> <| k_objects := g_objects g |> in
      (k, if threw then None else Some (g_present g, g_removed g), threw)
  end.

Definition flush_callbacks (k : loader) : loader * bool :=
  match handleFlush k with
  | (k, Some (present, removed), threw) => (invokeCallbacks (CChange present removed) k, threw)
  | (k, None, threw) => (k, threw)
  end.

(** The first frames are flushed at once, and open 150 ms in which more are
    batched; an empty array flushes. *)
Definition handleFrames (frames : list frame) (k : loader) : loader * bool :=
  let k := k <| k_batch ::= (fun b => Some (default [] b ++ frames)) |> in
  match frames with
  | [] => flush_callbacks k
  | _ => if k_timer k then (k, false) else flush_callbacks (k <| k_timer := true |>)
  end.

Definition handleTimeout (k : loader) : loader * bool := flush_callbacks (k <| k_timer := false |>).

(** [resource.kind = kind] throws on what is not an object. *)
Definition set_kind (kind : string) (resource : jval) : option jval :=
  if String.eqb kind "" then Some resource
  else match resource with
       | JObj fields => Some (JObj (assoc_set "kind" (JStr kind) fields))
       | JArr _ as v => Some v
       | _ => None
       end.

Definition loaded_frame (removed : bool) (resource : jval) : frame :=
  mk_frame (JStr (if removed then "DELETED" else "ADDED")) resource true.

Definition handleObjects (objects : list jval) (removed : bool) (kind : string) (k : loader) : loader * bool :=
  match mapM (set_kind kind) objects with
  | None => (k, true)
  | Some objects =>
      let '(k, threw) := handleFrames (map (loaded_frame removed) objects) k in
      if threw then (k, true) else flush_callbacks k
  end.

(** [loader.handle]: one object or an array of them. *)
Definition handle (objects : jval) (removed : bool) (kind : string) (k : loader) : loader * bool :=
  handleObjects (match objects with JArr l => l | v => [v] end) removed kind k.

(** *** Loading *)

(** [s.indexOf("List")], by position; -1 when it is not there. *)
Fixpoint index_of_list (s : string) (i : Z) : Z :=
  if String.prefix "List" s then i
  else match s with EmptyString => -1 | String _ s => index_of_list s (i + 1) end.

Inductive load_result := LNull | LItems (items : list jval) | LResource (resource : jval) | LTypeError.

(** [s.slice(0, -4)]. *)
Definition drop_last4 (s : string) : string := String.substring 0 (String.length s - 4) s.

(** The response to a request for a path; a kind that ends in "List" says that
    there are items. *)
Definition load_response (resource : jval) (k : loader) : loader * load_result * bool :=
  match jget resource "kind" with
  | JStr kind =>
      if negb (truthy (JStr kind)) then (k, LNull, false)
      else if index_of_list kind 0 =? Z.of_nat (String.length kind) - 4 then
        match jget resource "items" with
        | JArr items => let '(k, threw) := handleObjects items false (drop_last4 kind) k in (k, LItems (default items (mapM (set_kind (drop_last4 kind)) items)), threw)
        | _ => (k, LTypeError, true)
        end
      else let '(k, threw) := handleObjects [resource] false "" k in (k, LResource resource, threw)
  | v => (k, if truthy v then LTypeError else LNull, truthy v)
  end.

(** ** Namespaces *)

(** [x in only]. *)
Definition only_has (limit : ns_limit) (x : string) : bool :=
  match limit with
  | NsAll => true
  | NsOne ns => String.eqb x ns
  | NsMany l => bool_decide (x ∈ l)
  end.

(** [delete objects[link]] for objects of other namespaces; an object without
    metadata throws. *)
Fixpoint prune_objects (limit : ns_limit) (entries : dict) (g : changes) : changes * bool :=
  match entries with
  | [] => (g, false)
  | (link, object) :: entries =>
      match limit with
      | NsAll => prune_objects limit entries g
      | _ =>
          let meta := jget object "metadata" in
          match meta with
          | JUndef | JNull => (g, true)
          | _ =>
              let namespace := jget meta "namespace" in
              let g := if truthy namespace && negb (only_has limit (js_String namespace))
                       then remove link object g else g in
              prune_objects limit entries g
          end
      end
  end.

(** Is the watch not applicable to these namespaces? *)
Definition unfit (limit : ns_limit) (w : watch) : bool :=
  match limit with
  | NsAll => truthy (namespace_value (w_namespace w))
  | _ => negb (w_global w) && negb (only_has limit (default "null" (w_namespace w)))
  end.

Definition cancel_if_unfit (limit : ns_limit) (kr : loader * list watch) (entry : string * watch)
    : loader * list watch :=
  let '(path, w) := entry in
  if unfit limit w
  then (log (ECancelWatch path) (fst kr) <| k_watching ::= assoc_del path |>, snd kr ++ [w])
  else kr.

Definition cancel_unfit (limit : ns_limit) (k : loader) : loader * list watch :=
  foldl (cancel_if_unfit limit) (k, []) (k_watching k).

Definition adjustNamespace (value : ns_limit) (k : loader) : loader * bool :=
  let k := k <| k_timer := false |> <| k_namespace := value |> in
  match handleFlush k with
  | (k, _, true) => (k, true)
  | (k, flushed, false) =>
      let '(present, removed) := default ([], []) flushed in
      let '(g, threw) := prune_objects value (k_objects k) (mk_changes (k_objects k) present removed) in
      let k := k <| k_objects := g_objects g |> in
      if threw then (k, true) else
      let '(k, reconnect) := cancel_unfit value k in
      let k := invokeCallbacks (CChange (g_present g) (g_removed g)) k in
      (foldl (fun k w => fst (ensureWatches (w_what w) (w_references w) k)) k reconnect, false)
  end.

(** ** The rest of the interface *)

Definition resetLoader (k : loader) : loader :=
  let k := k <| k_timer := false |> <| k_batch := None |> in
  let old := k_watching k in
  let k := foldl (fun k p => log (ECancelWatch (fst p)) k) (k <| k_watching := [] |>) old in
  invokeCallbacks CReset (k <| k_objects := [] |> <| k_namespace := NsAll |>).

(** [listen]: the callback, which is registered once, is called with the objects
    a moment later. *)
Definition listen (callback : nat) (early : bool) (k : loader) : loader :=
  k <| k_callbacks ::= (fun l => if early then Some callback :: l else l ++ [Some callback]) |>
    <| k_listening ::= (fun l => l ++ [callback]) |>.

Definition listen_timeout (callback : nat) (k : loader) : loader :=
  if bool_decide (callback ∈ k_listening k)
  then log (ECall callback (CObjects (k_objects k))) k <| k_listening ::= filter (fun c => c <> callback) |>
  else k.

Definition listen_cancel (callback : nat) (k : loader) : loader :=
  k <| k_listening ::= filter (fun c => c <> callback) |>
    <| k_callbacks ::= map (fun c => if decide (c = Some callback) then None else c) |>.

Definition watch_what (what : string) (k : loader) : loader * list string := ensureWatches what (Some 1) k.
