(* ===== verification/KubeLoaderSpec.v ===== *)
(** * What the Kubernetes loader promises to its callbacks

    A callback that applies what it is told to a copy of its own holds the
    loader's objects, whatever happens in between; limiting the loader to
    namespaces leaves nothing of other namespaces behind. *)

From S2P Require Import Prelude Uri KubeLoader.

Lemma elem_assoc_set {A} link k (v : A) d : link ∈ (assoc_set k v d).*1 <-> link = k \/ link ∈ d.*1.
Proof.
  rewrite assoc_set_keys. case_bool_decide; [naive_solver|]. rewrite elem_of_app, list_elem_of_singleton. tauto.
Qed.

(** ** The promise *)

(** What [present] and [removed] say takes the old objects to the new ones. *)
Definition reported (old : dict) (g : changes) : Prop := forall link,
  assoc_get link (g_objects g) =
    match assoc_get link (g_present g) with
    | Some v => Some v
    | None => if decide (link ∈ (g_removed g).*1) then None else assoc_get link old
    end.

(** A callback with a state of its own, which [hear]s notices, follows the
    loader when [P] relates its state to the objects.  It may be registered more
    than once. *)
Class Follower {C : Type} (hear : notice -> C -> C) (P : C -> dict -> Prop) := {
  follow_change c old g : P c old -> reported old g ->
    P (hear (CChange (g_present g) (g_removed g)) c) (g_objects g);
  follow_objects c objects : P c objects -> P (hear (CObjects objects) c) objects;
  follow_reset c : P (hear CReset c) [];
  follow_again n c objects : P (hear n c) objects -> P (hear n (hear n c)) objects }.

(** ** Sequences of operations *)

Inductive op :=
  | OHandle (objects : jval) (removed : bool) (kind : string) | OFrames (frames : list frame) | OTimeout
  | OLoad (resource : jval) | OLimit (value : ns_limit) | OReset | OListen (callback : nat) (early : bool)
  | OListenTimeout (callback : nat) | OListenCancel (callback : nat) | OWatch (what : string)
  | OCancel (paths : list string).

Definition step (k : loader) (o : op) : loader * bool :=
  match o with
  | OHandle objects removed kind => handle objects removed kind k
  | OFrames frames => handleFrames frames k
  | OTimeout => handleTimeout k
  | OLoad resource => let '(k, _, threw) := load_response resource k in (k, threw)
  | OLimit value => adjustNamespace value k
  | OReset => (resetLoader k, false)
  | OListen callback early => (listen callback early k, false)
  | OListenTimeout callback => (listen_timeout callback k, false)
  | OListenCancel callback => (listen_cancel callback k, false)
  | OWatch what => (fst (watch_what what k), false)
  | OCancel paths => (cancel_watches paths k, false)
  end.

(** Until something throws. *)
Fixpoint run (ops : list op) (k : loader) : option loader :=
  match ops with
  | [] => Some k
  | o :: ops => match step k o with (k, false) => run ops k | (_, true) => None end
  end.

(** ** The loader keeps it *)

Section Follow.

Context {C : Type} (hear : notice -> C -> C) (P : C -> dict -> Prop) `{!Follower hear P} (cb : nat) (c0 : C).

Definition hear_event (c : C) (e : event) : C :=
  match e with ECall cb' n => if decide (cb' = cb) then hear n c else c | _ => c end.

(** The state of the callback after all that it was told, from [c0]. *)
Definition told (k : loader) : C := foldl hear_event c0 (k_log k).

(** Nothing that concerns the callback happens from one state to the other. *)
Definition quiet (k k' : loader) : Prop :=
  k_objects k' = k_objects k /\ k_callbacks k' = k_callbacks k /\ told k' = told k.

#[local] Instance quiet_refl : Reflexive quiet.
Proof. by intros k. Qed.

#[local] Instance quiet_trans : Transitive quiet.
Proof. intros k1 k2 k3 (?&?&?) (?&?&?). unfold quiet. repeat split; congruence. Qed.

Lemma told_log e k : told (log e k) = hear_event (told k) e.
Proof. unfold told, log. cbn. by rewrite foldl_app. Qed.

Lemma quiet_foldl {A} (f : loader -> A -> loader) (l : list A) :
  (forall k a, quiet k (f k a)) -> forall k, quiet k (foldl f k l).
Proof. intros Hf. induction l as [|a l IH]; intros k; cbn; [done|]. etransitivity; [apply Hf|apply IH]. Qed.

Lemma quiet_foldl2 {A B} (f : loader * B -> A -> loader * B) (l : list A) :
  (forall kb a, quiet (fst kb) (fst (f kb a))) -> forall k b, quiet k (fst (foldl f (k, b) l)).
Proof.
  intros Hf k b. change k with (fst (k, b)) at 1. generalize (k, b). clear k b.
  induction l as [|a l IH]; intros kb; cbn [foldl]; [done|]. etransitivity; [apply Hf|apply IH].
Qed.

Lemma quiet_new_watch path k : quiet k (log (ENewWatch path) k).
Proof. split; [done|]. split; [done|]. by rewrite told_log. Qed.

Lemma quiet_cancel_watch path k : quiet k (log (ECancelWatch path) k).
Proof. split; [done|]. split; [done|]. by rewrite told_log. Qed.

Lemma quiet_watching f k : quiet k (k <| k_watching ::= f |>).
Proof. done. Qed.

Hint Resolve quiet_new_watch quiet_cancel_watch quiet_watching : quiet.

Lemma ensureWatch_quiet what ns inc k : quiet k (fst (ensureWatch what ns inc k)).
Proof.
  unfold ensureWatch. cbn [fst]. set (k1 := match _ with Some _ => k | None => _ end).
  transitivity k1.
  - unfold k1. destruct (assoc_get _ _); [done|]. etransitivity; [|apply quiet_new_watch]. apply quiet_watching.
  - destruct (assoc_get _ (k_watching k1)); [apply quiet_watching|done].
Qed.

Lemma ensureWatches_quiet what inc k : quiet k (fst (ensureWatches what inc k)).
Proof.
  unfold ensureWatches. destruct (k_namespace k) as [|ns|l].
  - pose proof (ensureWatch_quiet what None inc k) as H. by destruct (ensureWatch _ _ _ _).
  - pose proof (ensureWatch_quiet what (Some ns) inc k) as H. by destruct (ensureWatch _ _ _ _).
  - apply (quiet_foldl2 (ensure_part what inc)). intros [k1 paths] ns. unfold ensure_part. cbn [fst].
    pose proof (ensureWatch_quiet what (Some ns) inc k1) as H. by destruct (ensureWatch _ _ _ _).
Qed.

Lemma cancel_watch_quiet path k : quiet k (cancel_watch path k).
Proof.
  unfold cancel_watch. destruct (assoc_get path _); [|done]. destruct (num_le0 _); [|apply quiet_watching].
  etransitivity; [apply quiet_watching|]. etransitivity; [apply quiet_cancel_watch|apply quiet_watching].
Qed.

Lemma cancel_unfit_quiet limit k : quiet k (fst (cancel_unfit limit k)).
Proof.
  unfold cancel_unfit. apply (quiet_foldl2 (cancel_if_unfit limit)). intros [k1 r] [p w].
  unfold cancel_if_unfit. cbn [fst]. destruct (unfit limit w); [|done].
  etransitivity; [apply quiet_cancel_watch|apply quiet_watching].
Qed.

(** *** The callbacks are called *)

Lemma invoke_fields n k : k_objects (invokeCallbacks n k) = k_objects k /\
  k_callbacks (invokeCallbacks n k) = k_callbacks k.
Proof.
  unfold invokeCallbacks. set (f := fun (k : loader) (c : option nat) => _).
  assert (forall l k, k_objects (foldl f k l) = k_objects k /\ k_callbacks (foldl f k l) = k_callbacks k) as H; [|apply H].
  clear k. induction l as [|[c|] l IH]; intros k; cbn [foldl]; [done| |apply IH].
  destruct (IH (f k (Some c))) as [-> ->]. done.
Qed.

(** Once is enough, and more does no harm. *)
Lemma invoke_told n k objects :
  Some cb ∈ k_callbacks k -> P (hear n (told k)) objects -> P (told (invokeCallbacks n k)) objects.
Proof.
  intros Hin HP. unfold invokeCallbacks. set (f := fun (k : loader) (c : option nat) => _).
  assert (forall l k, (exists c, told k = hear n c /\ P (hear n c) objects) \/ (Some cb ∈ l /\ P (hear n (told k)) objects) ->
    P (told (foldl f k l)) objects) as H; [|by apply H; right].
  clear k Hin HP. induction l as [|[c|] l IH]; intros k Hk; cbn [foldl].
  - destruct Hk as [(c & -> & Hc)|[H _]]; [done|]. by apply not_elem_of_nil in H.
  - apply IH. change (f k (Some c)) with (log (ECall c n) k). rewrite told_log. cbn [hear_event]. case_decide as Hd.
    + left. destruct Hk as [(c' & Hc & HP)|[_ HP]]; [|by eexists].
      rewrite Hc. eexists. split; [done|]. by apply follow_again.
    + destruct Hk as [Hk|[Hin HP]]; [by left|]. apply elem_of_cons in Hin as [Hin|Hin]; [congruence|by right].
  - apply IH. destruct Hk as [Hk|[Hin HP]]; [by left|]. apply elem_of_cons in Hin as [Hin|Hin]; [done|by right].
Qed.

(** *** Changes are reported *)

Lemma store_reported old link v g : reported old g -> reported old (store link v g).
Proof.
  intros H x. unfold store. cbn. rewrite !assoc_get_set. destruct (String.eqb_spec link x); [done|]. apply H.
Qed.

Lemma remove_reported old link v g : reported old g -> reported old (remove link v g).
Proof.
  intros H x. unfold remove. cbn. rewrite !assoc_get_del. specialize (H x).
  destruct (String.eqb_spec link x) as [->|Hne].
  - rewrite decide_True; [done|]. apply elem_assoc_set. by left.
  - rewrite H. destruct (assoc_get x (g_present g)); [done|].
    apply decide_ext. rewrite elem_assoc_set. naive_solver.
Qed.

Lemma drain_reported old drain : forall g, reported old g -> reported old (fst (handle_drain drain g)).
Proof.
  induction drain as [|f drain IH]; intros g Hg; cbn [handle_drain]; [done|].
  destruct (handle_frame f g) as [g'|] eqn:E; [|done]. apply IH. unfold handle_frame in E.
  destruct (truthy (f_object f)); [|by injection E as <-].
  destruct (decodeURIComponent _) as [link|]; [|done].
  destruct (is_str _ _); [injection E as <-; by apply remove_reported|].
  destruct (f_check f); [destruct (fresh _ _)|]; injection E as <-; try done; by apply store_reported.
Qed.

Lemma prune_reported old limit entries : forall g,
  reported old g -> reported old (fst (prune_objects limit entries g)).
Proof.
  induction entries as [|[link v] entries IH]; intros g Hg; cbn [prune_objects]; [done|].
  destruct limit; [by apply IH| |]; destruct (jget v "metadata"); try done; apply IH;
    (destruct (_ && _); [by apply remove_reported|done]).
Qed.

(** *** The invariant *)

Definition in_sync (k : loader) : Prop := Some cb ∈ k_callbacks k /\ P (told k) (k_objects k).

Lemma in_sync_quiet k k' : quiet k k' -> in_sync k -> in_sync k'.
Proof. intros (H1 & H2 & H3) Hk. unfold in_sync. by rewrite H1, H2, H3. Qed.

(** Telling the callbacks about the changes keeps them in sync. *)
Lemma in_sync_change k k' g :
  in_sync k -> reported (k_objects k) g -> k_objects k' = g_objects g -> k_callbacks k' = k_callbacks k ->
  told k' = told k -> in_sync (invokeCallbacks (CChange (g_present g) (g_removed g)) k').
Proof.
  intros [Hc HP] Hr Ho Hk Hm. destruct (invoke_fields (CChange (g_present g) (g_removed g)) k') as [Eo Ek].
  unfold in_sync. rewrite Eo, Ek, Ho, Hk. split; [done|]. apply invoke_told; [by rewrite Hk|].
  rewrite Hm. by apply (follow_change _ (k_objects k)).
Qed.

Lemma reported_refl old : reported old (mk_changes old [] []).
Proof. intros link. cbn. rewrite decide_False; [done|]. apply not_elem_of_nil. Qed.

Lemma flush_sync k k' : in_sync k -> flush_callbacks k = (k', false) -> in_sync k'.
Proof.
  intros Hk. unfold flush_callbacks, handleFlush. destruct (k_batch k) as [drain|]; [|by intros [= <-]].
  pose proof (drain_reported (k_objects k) drain _ (reported_refl (k_objects k))) as Hr.
  destruct (handle_drain _ _) as [g [|]]; [done|]. intros [= <-]. by eapply (in_sync_change k _ g).
Qed.

Lemma frames_sync frames k k' : in_sync k -> handleFrames frames k = (k', false) -> in_sync k'.
Proof.
  intros Hk. unfold handleFrames. destruct frames as [|f frames]; [by apply flush_sync|].
  cbn. destruct (k_timer k); [by intros [= <-]|by apply flush_sync].
Qed.

Lemma objects_sync objects removed kind k k' :
  in_sync k -> handleObjects objects removed kind k = (k', false) -> in_sync k'.
Proof.
  intros Hk. unfold handleObjects. destruct (mapM _ _) as [objs|]; [|done].
  destruct (handleFrames _ k) as [k1 [|]] eqn:E; [done|]. apply flush_sync. by eapply frames_sync.
Qed.

Lemma load_sync resource k k' r :
  in_sync k -> load_response resource k = (k', r, false) -> in_sync k'.
Proof.
  intros Hk. unfold load_response. destruct (jget resource "kind"); try (by intros [= <- _]); cycle 1.
  - destruct (negb _); [by intros [= <- _]|]. destruct (_ =? _).
    + destruct (jget resource "items"); try done.
      destruct (handleObjects _ _ _ _) as [k1 threw] eqn:E. intros [= <- _ ->]. by eapply objects_sync.
    + destruct (handleObjects _ _ _ _) as [k1 threw] eqn:E. intros [= <- _ ->]. by eapply objects_sync.
Qed.

Lemma adjust_sync value k k' : in_sync k -> adjustNamespace value k = (k', false) -> in_sync k'.
Proof.
  intros Hk. unfold adjustNamespace, handleFlush. set (k0 := k <| k_timer := false |> <| k_namespace := value |>).
  set (gd := match k_batch k0 with Some drain => _ | None => _ end).
  assert (exists g, reported (k_objects k) g /\ k_objects (fst (fst gd)) = g_objects g /\
    k_callbacks (fst (fst gd)) = k_callbacks k /\ told (fst (fst gd)) = told k /\
    (snd gd = false -> default ([], []) (snd (fst gd)) = (g_present g, g_removed g))) as (g & Hr & Ho & Hc & Hm & Hf).
  { unfold gd. destruct (k_batch k0) as [drain|].
    - pose proof (drain_reported (k_objects k) drain _ (reported_refl (k_objects k))) as Hr.
      change (k_objects k0) with (k_objects k). destruct (handle_drain _ _) as [g [|]]; by exists g.
    - exists (mk_changes (k_objects k) [] []). split; [apply reported_refl|done]. }
  clearbody gd. destruct gd as [[k1 flushed] [|]]; [done|]. cbn [fst snd] in *. rewrite Hf, Ho by done.
  pose proof (prune_reported (k_objects k) value (g_objects g) g Hr) as Hp. destruct g as [o p r]. cbn [g_objects g_present g_removed] in *.
  destruct (prune_objects _ _ _) as [g [|]]; [done|]. cbn [fst] in Hp.
  pose proof (cancel_unfit_quiet value (k1 <| k_objects := g_objects g |>)) as Hq.
  destruct (cancel_unfit _ _) as [k2 reconnect]. destruct Hq as (Q1 & Q2 & Q3). intros [= <-].
  eapply in_sync_quiet.
  - apply quiet_foldl. intros. apply ensureWatches_quiet.
  - cbn [fst] in Q1, Q2, Q3. change (told k2 = told k1) in Q3. change (k_callbacks k2 = k_callbacks k1) in Q2.
    apply (in_sync_change k k2 g Hk Hp); [exact Q1|by rewrite Q2|by rewrite Q3].
Qed.

Lemma reset_sync k : in_sync k -> in_sync (resetLoader k).
Proof.
  intros Hk. unfold resetLoader. set (k1 := foldl _ _ _).
  assert (quiet k k1) as (_ & Hc & _).
  { unfold k1. etransitivity; [|apply quiet_foldl; intros; apply quiet_cancel_watch]. done. }
  destruct (invoke_fields CReset (k1 <| k_objects := [] |> <| k_namespace := NsAll |>)) as [Eo Ek].
  assert (Some cb ∈ k_callbacks k1) as Hin by (rewrite Hc; apply Hk).
  unfold in_sync. rewrite Eo, Ek. split; [done|]. apply invoke_told; [done|]. apply follow_reset.
Qed.

Lemma timeout_sync c k : in_sync k -> in_sync (listen_timeout c k).
Proof.
  intros [Hc HP]. unfold listen_timeout. case_bool_decide; [|done].
  change (in_sync (log (ECall c (CObjects (k_objects k))) k)).
  unfold in_sync. rewrite told_log. split; [done|]. cbn. case_decide; [|done]. by apply follow_objects.
Qed.

Lemma step_sync o k k' :
  (forall c, o = OListenCancel c -> c <> cb) -> in_sync k -> step k o = (k', false) -> in_sync k'.
Proof.
  intros Ho Hk. destruct o as [objects removed kind|frames| |resource|value| |c early|c|c|what|paths]; cbn [step].
  - apply objects_sync, Hk.
  - apply frames_sync, Hk.
  - by apply flush_sync.
  - destruct (load_response resource k) as [[k1 r] threw] eqn:E. intros [= <- ->]. by eapply load_sync.
  - by apply adjust_sync.
  - intros [= <-]. by apply reset_sync.
  - intros [= <-]. destruct Hk as [Hc Hk]. split; [|exact Hk]. unfold listen. cbn.
    destruct early; [by right|]. apply elem_of_app. by left.
  - intros [= <-]. by apply timeout_sync.
  - intros [= <-]. destruct Hk as [Hc Hk]. split; [|exact Hk]. unfold listen_cancel. cbn.
    apply list_elem_of_fmap. exists (Some cb). split; [|done]. rewrite decide_False; [done|].
    intros [= E]. by apply (Ho c).
  - intros [= <-]. eapply in_sync_quiet; [apply ensureWatches_quiet|done].
  - intros [= <-]. eapply in_sync_quiet; [|done]. apply quiet_foldl. intros. apply cancel_watch_quiet.
Qed.

Lemma run_sync ops : forall k k', (forall c, OListenCancel c ∈ ops -> c <> cb) ->
  in_sync k -> run ops k = Some k' -> in_sync k'.
Proof.
  induction ops as [|o ops IH]; intros k k' Ho Hk; cbn [run]; [by intros [= <-]|].
  destruct (step k o) as [k1 [|]] eqn:E; [done|]. apply IH; [intros c Hc; apply Ho; by right|].
  eapply step_sync; [|exact Hk|exact E]. intros c ->. apply Ho. by left.
Qed.

End Follow.

(** ** A client that mirrors the objects *)

Definition dict_map (d : dict) : gmap string jval := list_to_map d.

Lemma dict_map_lookup (d : dict) link : dict_map d !! link = assoc_get link d.
Proof.
  induction d as [|[l v] d IH]; [done|]. cbn. unfold dict_map in *. cbn. destruct (String.eqb_spec l link) as [->|Hne].
  - by rewrite lookup_insert_eq.
  - by rewrite lookup_insert_ne.
Qed.

(** The copy, and whether the client knows about all objects. *)
Definition client : Type := gmap string jval * bool.

Definition hear (n : notice) (c : client) : client :=
  match n with
  | CReset => (∅, true)
  | CObjects objects => (dict_map objects ∪ c.1, true)
  | CChange present removed => (dict_map present ∪ filter (fun kv => kv.1 ∉ removed.*1) c.1, c.2)
  end.

Lemma change_lookup (present removed : dict) (m : gmap string jval) link :
  (dict_map present ∪ filter (fun kv => kv.1 ∉ removed.*1) m) !! link =
    match assoc_get link present with
    | Some v => Some v
    | None => if decide (link ∈ removed.*1) then None else m !! link
    end.
Proof.
  rewrite lookup_union, dict_map_lookup. destruct (assoc_get link present) as [v|].
  - by destruct (filter _ m !! link).
  - rewrite (left_id_L None _). destruct (decide (link ∈ removed.*1)) as [Hr|Hr].
    + apply map_lookup_filter_None. right. by intros v _ H.
    + destruct (m !! link) as [v|] eqn:E.
      * by apply map_lookup_filter_Some.
      * apply map_lookup_filter_None. by left.
Qed.

Lemma hear_idem n c : hear n (hear n c) = hear n c.
Proof.
  destruct n as [|objects|present removed]; cbn; [done| |].
  - f_equal. by rewrite (assoc_L (∪)), (idemp_L (∪)).
  - f_equal. apply map_eq. intros link. rewrite !change_lookup.
    destruct (assoc_get link present); [done|]. by case_decide.
Qed.

(** It holds nothing but what the loader holds, and all of it once it was told. *)
Definition copies (c : client) (objects : dict) : Prop :=
  (forall link v, c.1 !! link = Some v -> assoc_get link objects = Some v) /\
  (c.2 = true -> forall link, c.1 !! link = assoc_get link objects).

#[export] Instance mirror_follower : Follower hear copies.
Proof.
  split.
  - intros c old g [Hs Ht] Hr. split; cbn [hear fst snd].
    + intros link v. rewrite change_lookup, Hr. destruct (assoc_get link (g_present g)); [done|].
      case_decide; [done|]. apply Hs.
    + intros Htold link. rewrite change_lookup, Hr. destruct (assoc_get link (g_present g)); [done|].
      case_decide; [done|]. by apply Ht.
  - intros c objects [Hs _].
    assert (forall link, (dict_map objects ∪ c.1) !! link = assoc_get link objects) as E.
    { intros link. rewrite lookup_union, dict_map_lookup. destruct (assoc_get link objects) as [v|] eqn:Eo.
      - by destruct (c.1 !! link).
      - rewrite (left_id_L None _). destruct (c.1 !! link) as [v|] eqn:Em; [|done]. apply Hs in Em. congruence. }
    split; cbn [hear fst snd]; [|done]. intros link v. by rewrite E.
  - intros c. split; cbn; [|done]. intros link v. by rewrite lookup_empty.
  - intros n c objects H. by rewrite hear_idem.
Qed.

(** The copy that a callback has in [k] when it began to listen in [k0], where it
    missed nothing if the loader was empty. *)
Definition mirror (k0 : loader) (cb : nat) (k : loader) : client :=
  told hear cb (∅, match k_objects k0 with [] => true | _ => false end) k.

Lemma told_fresh {C} (hear : notice -> C -> C) cb c0 k :
  (forall n, ECall cb n ∉ k_log k) -> told hear cb c0 k = c0.
Proof.
  unfold told. generalize (k_log k) as l. induction l as [|e l IH] using rev_ind; intros H; [done|].
  rewrite foldl_app, IH by (intros n Hn; apply (H n), elem_of_app; by left). cbn. destruct e as [| |c n]; try done.
  cbn. case_decide; [|done]. subst. destruct (H n). apply elem_of_app. right. by left.
Qed.

(** What was known stays known. *)
Lemma told_stays cb m k : (told hear cb (m, true) k).2 = true.
Proof.
  unfold told. assert (forall l c, c.2 = true -> (foldl (hear_event hear cb) c l).2 = true) as H; [|by apply H].
  induction l as [|e l IH]; intros c Hc; cbn [foldl]; [done|]. apply IH. destruct e as [| |c' n]; try done. cbn.
  case_decide; [|done]. by destruct n.
Qed.

(** C19. A callback that listens to the loader, and applies the changes it is
    told about to a copy of its own, holds nothing but what the loader holds; and
    it holds exactly the loader's objects if the loader was empty when it began to
    listen, or once it has been called with all objects or after a reset.  This is
    so after any sequence of operations, with frames and loaded objects batched,
    limits changed and other callbacks coming and going, up to the first that
    throws: a frame whose link is not well encoded, or an object without metadata
    when the loader is limited, stops the operation before anyone is told
    ([bad_link_unreported]). *)
Theorem callbacks_in_sync cb early ops k0 k :
  (forall n, ECall cb n ∉ k_log k0) -> (forall c, OListenCancel c ∈ ops -> c <> cb) ->
  run ops (listen cb early k0) = Some k ->
  (forall link v, (mirror k0 cb k).1 !! link = Some v -> assoc_get link (k_objects k) = Some v) /\
  ((mirror k0 cb k).2 = true -> (mirror k0 cb k).1 = dict_map (k_objects k)) /\
  (k_objects k0 = [] -> (mirror k0 cb k).1 = dict_map (k_objects k)).
Proof.
  intros Hf Ho Hr. unfold mirror. set (all := match k_objects k0 with [] => true | _ => false end).
  eapply (run_sync hear copies cb (∅, all)) in Hr as (_ & Hs & Ht); [|exact Ho|].
  - assert ((told hear cb (∅, all) k).2 = true -> (told hear cb (∅, all) k).1 = dict_map (k_objects k)) as H.
    { intros Htold. apply map_eq. intros link. rewrite dict_map_lookup. by apply Ht. }
    split; [exact Hs|]. split; [exact H|]. intros E0. apply H. unfold all. rewrite E0. apply told_stays.
  - split.
    + unfold listen. cbn. destruct early; [by left|]. apply elem_of_app. right. by left.
    + rewrite told_fresh by apply Hf. split; cbn [fst snd].
      * intros link v. by rewrite lookup_empty.
      * intros Hall link. rewrite lookup_empty. change (k_objects (listen cb early k0)) with (k_objects k0).
        unfold all in Hall. by destruct (k_objects k0).
Qed.

Definition ex_pod (name ns version : string) : jval :=
  JObj [("kind", JStr "Pod");
        ("metadata", JObj [("name", JStr name); ("namespace", JStr ns); ("resourceVersion", JStr version)])].

Definition ex_ops : list op :=
  [OWatch "pods"; OFrames [mk_frame (JStr "ADDED") (ex_pod "x" "a" "5") false]; OListenTimeout 0;
   OHandle (JArr [ex_pod "x" "a" "4"; ex_pod "y" "b" "1"]) false "";
   OFrames [mk_frame (JStr "ADDED") (ex_pod "z" "a" "7") false;
            mk_frame (JStr "DELETED") (ex_pod "x" "a" "8") false];
   OTimeout; OLimit (NsOne "b")].

Lemma callbacks_in_sync_witness :
  exists k, run ex_ops (listen 0 true new_loader) = Some k /\
  (k_objects k).*1 = ["/api/v1/namespaces/b/pods/y"] /\ (mirror new_loader 0 k).1 = dict_map (k_objects k).
Proof.
  eexists. split; [vm_compute; reflexivity|]. split; [reflexivity|].
  apply (callbacks_in_sync 0 true ex_ops new_loader).
  - intros n. apply not_elem_of_nil.
  - intros c Hc. unfold ex_ops in Hc. repeat (apply elem_of_cons in Hc as [Hc|Hc]; [discriminate Hc|]).
    by apply not_elem_of_nil in Hc.
  - vm_compute. reflexivity.
  - vm_compute. reflexivity.
Defined.

(** ** Limits *)

(** Is the object in a namespace outside the limit? *)
Definition foreign (value : ns_limit) (object : jval) : bool :=
  let namespace := jget (jget object "metadata") "namespace" in
  truthy namespace &&
  match value with
  | NsAll => false
  | NsOne ns => negb (String.eqb (js_String namespace) ns)
  | NsMany l => bool_decide (js_String namespace ∉ l)
  end.

(** A watch is of all namespaces, of no namespace in particular, or of one
    within the limit. *)
Definition within (value : ns_limit) (w : watch) : Prop :=
  match value with
  | NsAll => default "" (w_namespace w) = ""
  | NsOne ns => w_global w = true \/ default "null" (w_namespace w) = ns
  | NsMany l => w_global w = true \/ default "null" (w_namespace w) ∈ l
  end.

Lemma unfit_within value w : unfit value w = false <-> within value w.
Proof.
  unfold unfit, within. destruct value as [|ns|l]; cbn.
  - destruct (w_namespace w) as [s|]; [|done]. cbn. by destruct (String.eqb_spec s "").
  - destruct (w_global w); cbn; [tauto|]. destruct (String.eqb_spec (default "null" (w_namespace w)) ns); naive_solver.
  - destruct (w_global w); cbn; [tauto|]. case_bool_decide; naive_solver.
Qed.

(** *** Objects *)

Definition drops (value : ns_limit) (link : string) (entry : string * jval) : bool :=
  String.eqb (fst entry) link && foreign value (snd entry).

Lemma prune_lookup value link entries : forall g g',
  prune_objects value entries g = (g', false) ->
  assoc_get link (g_objects g') =
    if existsb (drops value link) entries then None else assoc_get link (g_objects g).
Proof.
  induction entries as [|[l o] entries IH]; intros g g'; cbn [prune_objects existsb]; [by intros [= <-]|].
  assert (forall b, foreign value o = b -> prune_objects value entries (if b then remove l o g else g) = (g', false) ->
    assoc_get link (g_objects g') = if drops value link (l, o) || existsb (drops value link) entries then None
                                    else assoc_get link (g_objects g)) as H.
  { intros b Hb Hp. rewrite (IH _ _ Hp). unfold drops at 2. cbn [fst snd]. rewrite Hb.
    destruct b; cbn [remove g_objects]; [|by rewrite andb_false_r].
    unfold remove. cbn. rewrite assoc_get_del, andb_true_r.
    destruct (String.eqb l link); cbn; [by destruct (existsb _ _)|done]. }
  destruct value as [|ns|ls].
  - apply (H false). unfold foreign. apply andb_false_r.
  - intros Hp. apply (H _ eq_refl). unfold foreign. destruct (jget o "metadata"); done.
  - intros Hp. apply (H _ eq_refl). unfold foreign. rewrite bool_decide_not.
    destruct (jget o "metadata"); done.
Qed.

Lemma existsb_drops value (d : dict) link : NoDup d.*1 ->
  existsb (drops value link) d = match assoc_get link d with Some o => foreign value o | None => false end.
Proof.
  induction d as [|[l o] d IH]; intros Hn; [done|]. apply NoDup_cons in Hn as [Hl Hn]. cbn [existsb assoc_get].
  rewrite IH by done. unfold drops. cbn [fst snd]. destruct (String.eqb_spec l link) as [->|Hne]; [|done]. cbn.
  apply assoc_get_None in Hl. cbn in Hl. by rewrite Hl, orb_false_r.
Qed.

Lemma drain_nodup drain : forall g, NoDup (g_objects g).*1 -> NoDup (g_objects (fst (handle_drain drain g))).*1.
Proof.
  induction drain as [|f drain IH]; intros g Hg; cbn [handle_drain]; [done|].
  destruct (handle_frame f g) as [g'|] eqn:E; [|done]. apply IH. unfold handle_frame in E.
  destruct (truthy (f_object f)); [|by injection E as <-]. destruct (decodeURIComponent _) as [link|]; [|done].
  destruct (is_str _ _); [injection E as <-; by apply assoc_del_nodup|].
  destruct (f_check f); [destruct (fresh _ _)|]; injection E as <-; try done; by apply assoc_set_nodup.
Qed.

(** *** Watches *)

Definition all_within (value : ns_limit) (k : loader) : Prop :=
  forall path w, (path, w) ∈ k_watching k -> within value w.

Lemma cancel_unfit_within value k : all_within value (fst (cancel_unfit value k)).
Proof.
  unfold cancel_unfit.
  assert (forall l kr, (forall path w, (path, w) ∈ k_watching (fst kr) -> (path, w) ∈ l \/ within value w) ->
    all_within value (fst (foldl (cancel_if_unfit value) kr l))) as H; [|by apply H; intros; left].
  induction l as [|[p v] l IH]; intros kr Hk; cbn [foldl].
  - intros path w Hw. destruct (Hk path w Hw) as [H|]; [by apply not_elem_of_nil in H|done].
  - apply IH. intros path w Hw. unfold cancel_if_unfit in Hw. destruct (unfit value v) eqn:E.
    + cbn in Hw. apply assoc_del_elem in Hw as [Hne Hw].
      destruct (Hk path w Hw) as [H|]; [|by right]. apply elem_of_cons in H as [[= -> ->]|H]; [done|by left].
    + destruct (Hk path w Hw) as [H|]; [|by right]. apply elem_of_cons in H as [[= -> ->]|H]; [|by left].
      right. by apply unfit_within.
Qed.

Lemma ensureWatch_within value what ns inc k :
  (forall g r, within value (mk_watch what g ns r)) -> all_within value k ->
  all_within value (fst (ensureWatch what ns inc k)).
Proof.
  intros Hw Hk. unfold ensureWatch. cbn [fst]. set (k1 := match _ with Some _ => k | None => _ end).
  assert (all_within value k1) as Hk1.
  { unfold k1. destruct (assoc_get _ _); [done|]. intros path w Hin.
    apply assoc_set_elem in Hin as [[_ Hin]|Hin]; [rewrite Hin; apply Hw|by eapply Hk]. }
  destruct (assoc_get _ (k_watching k1)) as [w0|] eqn:E; [|done]. intros path w Hin.
  apply assoc_set_elem in Hin as [[_ Hin]|Hin]; [rewrite Hin|by eapply Hk1].
  apply assoc_get_elem, Hk1 in E. by destruct w0, value.
Qed.

Lemma ensureWatch_namespace what ns inc k : k_namespace (fst (ensureWatch what ns inc k)) = k_namespace k.
Proof. unfold ensureWatch. cbn. repeat (destruct (assoc_get _ _); cbn); done. Qed.

Lemma ensureWatches_within what inc k :
  all_within (k_namespace k) k -> all_within (k_namespace k) (fst (ensureWatches what inc k)) /\
  k_namespace (fst (ensureWatches what inc k)) = k_namespace k.
Proof.
  intros Hk. unfold ensureWatches. destruct (k_namespace k) as [|ns|l] eqn:En.
  - pose proof (ensureWatch_within NsAll what None inc k) as H. pose proof (ensureWatch_namespace what None inc k) as Hn.
    destruct (ensureWatch _ _ _ _). split; [|by rewrite <- En]. by apply H.
  - pose proof (ensureWatch_within (NsOne ns) what (Some ns) inc k) as H.
    pose proof (ensureWatch_namespace what (Some ns) inc k) as Hn.
    destruct (ensureWatch _ _ _ _). split; [|by rewrite <- En]. apply H; [|done]. by right.
  - assert (forall l' kp, (forall ns, ns ∈ l' -> ns ∈ l) -> all_within (NsMany l) (fst kp) -> k_namespace (fst kp) = NsMany l ->
      all_within (NsMany l) (fst (foldl (ensure_part what inc) kp l')) /\
      k_namespace (fst (foldl (ensure_part what inc) kp l')) = NsMany l) as H; [|by apply H].
    clear k Hk En. induction l' as [|ns l' IH]; intros kp Hl Hk Hn; cbn [foldl]; [done|].
    apply IH; [intros x Hx; apply Hl; by right|..]; unfold ensure_part;
      pose proof (ensureWatch_within (NsMany l) what (Some ns) inc (fst kp)) as H;
      pose proof (ensureWatch_namespace what (Some ns) inc (fst kp)) as Hn';
      destruct (ensureWatch _ _ _ _); [|by rewrite <- Hn].
    apply H; [|done]. intros g r. right. apply Hl. by left.
Qed.

(** What the other steps leave alone. *)
Lemma cancel_unfit_fields value k : k_objects (fst (cancel_unfit value k)) = k_objects k /\
  k_namespace (fst (cancel_unfit value k)) = k_namespace k.
Proof.
  unfold cancel_unfit.
  assert (forall l kr, k_objects (fst (foldl (cancel_if_unfit value) kr l)) = k_objects (fst kr) /\
    k_namespace (fst (foldl (cancel_if_unfit value) kr l)) = k_namespace (fst kr)) as H; [|apply (H _ (k, []))].
  induction l as [|[p w] l IH]; intros kr; cbn [foldl]; [done|].
  destruct (IH (cancel_if_unfit value kr (p, w))) as [-> ->]. unfold cancel_if_unfit. by destruct (unfit value w).
Qed.

Lemma invoke_watching n k : k_watching (invokeCallbacks n k) = k_watching k /\
  k_namespace (invokeCallbacks n k) = k_namespace k /\ k_objects (invokeCallbacks n k) = k_objects k.
Proof.
  unfold invokeCallbacks. set (f := fun (k : loader) (c : option nat) => _).
  assert (forall l k, k_watching (foldl f k l) = k_watching k /\ k_namespace (foldl f k l) = k_namespace k /\
    k_objects (foldl f k l) = k_objects k) as H; [|apply H].
  clear k. induction l as [|[c|] l IH]; intros k; cbn [foldl]; [done| |apply IH].
  destruct (IH (f k (Some c))) as (-> & -> & ->). done.
Qed.

Lemma rewatch_fields reconnect : forall k, all_within (k_namespace k) k ->
  let k' := foldl (fun k w => fst (ensureWatches (w_what w) (w_references w) k)) k reconnect in
  k_objects k' = k_objects k /\ all_within (k_namespace k) k'.
Proof.
  induction reconnect as [|w reconnect IH]; intros k Hk; cbn [foldl]; [done|].
  destruct (ensureWatches_within (w_what w) (w_references w) k Hk) as [Hw Hn].
  destruct (ensureWatches_quiet (fun _ c => c) 0 tt (w_what w) (w_references w) k) as (Ho & _).
  rewrite <- Hn in Hw. destruct (IH _ Hw) as [H1 H2]. rewrite Hn in H2. split; [by rewrite H1|exact H2].
Qed.

(** C20. Limiting the loader to namespaces, when it does not throw, leaves
    exactly those objects, of the loaded ones and of those that were still
    batched, that are in no other namespace; and every watch that is left, or
    made again, is of the namespaces of the limit or of things that have none. *)
Theorem limit_enforced value k k' :
  NoDup (k_objects k).*1 -> adjustNamespace value k = (k', false) ->
  (forall link, assoc_get link (k_objects k') =
    match assoc_get link (k_objects (fst (fst (handleFlush k)))) with
    | Some o => if foreign value o then None else Some o
    | None => None
    end) /\
  forall path w, (path, w) ∈ k_watching k' -> within value w.
Proof.
  intros Hn. unfold adjustNamespace. set (k0 := k <| k_timer := false |> <| k_namespace := value |>).
  assert (k_objects (fst (fst (handleFlush k0))) = k_objects (fst (fst (handleFlush k))) /\
    NoDup (k_objects (fst (fst (handleFlush k)))).*1 /\ k_namespace (fst (fst (handleFlush k0))) = value)
    as (Ho & Hn1 & Hv).
  { unfold handleFlush. change (k_batch k0) with (k_batch k). destruct (k_batch k) as [drain|]; [|done].
    change (k_objects k0) with (k_objects k). pose proof (drain_nodup drain (mk_changes (k_objects k) [] []) Hn).
    by destruct (handle_drain _ _). }
  destruct (handleFlush k0) as [[k1 flushed] [|]]; [done|]. cbn [fst] in Ho, Hv. rewrite <- Ho in *.
  destruct (default _ flushed) as [present removed].
  destruct (prune_objects _ _ _) as [g [|]] eqn:Ep; [done|].
  pose proof (cancel_unfit_within value (k1 <| k_objects := g_objects g |>)) as Hw.
  pose proof (cancel_unfit_fields value (k1 <| k_objects := g_objects g |>)) as Hf.
  destruct (cancel_unfit _ _) as [k2 reconnect]. cbn [fst] in Hw, Hf. intros [= <-].
  destruct (invoke_watching (CChange (g_present g) (g_removed g)) k2) as (I1 & I2 & I3).
  set (k3 := invokeCallbacks _ k2) in *. clearbody k3.
  destruct (rewatch_fields reconnect k3) as [Hr1 Hr2].
  { unfold all_within. rewrite I1, I2, (proj2 Hf). cbn. by rewrite Hv. }
  split.
  - intros link. rewrite Hr1, I3, (proj1 Hf). cbn [k_objects set_field].
    change (k_objects (k1 <| k_objects := g_objects g |>)) with (g_objects g).
    rewrite (prune_lookup value link _ _ _ Ep), existsb_drops by done. cbn [g_objects].
    by destruct (assoc_get link (k_objects k1)).
  - rewrite I2, (proj2 Hf) in Hr2. cbn in Hr2. rewrite Hv in Hr2. exact Hr2.
Qed.

Lemma limit_enforced_witness :
  let k := fst (step (fst (step new_loader (OWatch "pods"))) (OHandle (JArr [ex_pod "x" "a" "1"; ex_pod "y" "b" "1"]) false "")) in
  let k' := fst (adjustNamespace (NsMany ["b"; "c"]) k) in
  (k_objects k').*1 = ["/api/v1/namespaces/b/pods/y"] /\
  (k_watching k').*1 = ["/api/v1/namespaces/b/pods"; "/api/v1/namespaces/c/pods"] /\
  forall path w, (path, w) ∈ k_watching k' -> within (NsMany ["b"; "c"]) w.
Proof.
  cbv zeta. split; [vm_compute; reflexivity|]. split; [vm_compute; reflexivity|].
  set (k := fst (step _ (OHandle _ _ _))).
  apply (limit_enforced (NsMany ["b"; "c"]) k (fst (adjustNamespace (NsMany ["b"; "c"]) k))).
  - apply (bool_decide_unpack _). vm_compute. exact I.
  - vm_compute. reflexivity.
Defined.

(** *** What goes wrong *)

(** The promise of a watch has no [references]: counting them gives NaN, and a
    watch is never cancelled. *)
Example cancelled_watch_stays :
  let '(k, paths) := watch_what "pods" new_loader in
  let k' := cancel_watches paths k in
  w_references <$> assoc_get "/api/v1/pods" (k_watching k') = Some None /\
  k_log k' = [ENewWatch "/api/v1/pods"].
Proof. vm_compute. split; reflexivity. Qed.

(** When a namespace is added to the limit, what is watched in the old one is
    not watched in the new one. *)
Example widened_limit_unwatched :
  let k := fst (adjustNamespace (NsMany ["a"]) (fst (watch_what "pods" new_loader))) in
  let k' := fst (adjustNamespace (NsMany ["a"; "b"]) k) in
  (k_watching k').*1 = ["/api/v1/namespaces/a/pods"].
Proof. vm_compute. reflexivity. Qed.

(** The position of "List" in a kind of three letters, -1, is where it is
    looked for: a single pod cannot be loaded. *)
Example load_single_pod_throws :
  load_response (ex_pod "x" "a" "1") new_loader = (new_loader, LTypeError, true).
Proof. vm_compute. reflexivity. Qed.

(** A frame with a link that is not well encoded stops the flush: the objects
    before it are there, but no callback hears of them, nor of those after it. *)
Example bad_link_unreported :
  let bad := JObj [("kind", JStr "Pod"); ("metadata", JObj [("selfLink", JStr "/x%")])] in
  let frames := [mk_frame (JStr "ADDED") (ex_pod "x" "a" "1") false; mk_frame (JStr "ADDED") bad false;
                 mk_frame (JStr "ADDED") (ex_pod "y" "a" "1") false] in
  let '(k, threw) := handleFrames frames (listen 0 false new_loader) in
  threw = true /\ (k_objects k).*1 = ["/api/v1/namespaces/a/pods/x"] /\ k_log k = [] /\ k_batch k = None.
Proof. vm_compute. repeat split; reflexivity. Qed.
