(* ===== verification/KubeSelect.v ===== *)
(** * Selecting Kubernetes objects (src/pkg/kubernetes/scripts/kube-client.js, [kubeSelect])

    Filters find objects through the hash index, which is made when first needed
    and then follows the loader.  What a filter finds is what a scan of all
    objects would find.  The caches of results are not modelled. *)

From S2P Require Import Prelude KubeIndex KubeLoader KubeLoaderSpec.
From stdpp Require Import sorting.
#[local] Open Scope Z_scope.

(** ** Filters *)

(** A filter computes one key or several of an object, or of the criteria. *)
Inductive digester := Digest (f : jval -> jval) | Digests (f : jval -> list string).

(** A digest that takes strings as they are, and null for nothing. *)
Definition string_or (f : jval -> jval) (arg : jval) : jval :=
  if truthy arg then match arg with JStr _ => arg | _ => f arg end else JNull.

(** [meta ? meta[field] : null] for a part of the object. *)
Definition part_field (part field : string) (arg : jval) : jval :=
  let p := jget arg part in if truthy p then jget p field else JNull.

Definition namespace_digest : jval -> jval := string_or (part_field "metadata" "namespace").
Definition name_digest : jval -> jval := string_or (part_field "metadata" "name").
Definition kind_digest : jval -> jval := string_or (fun arg => jget arg "kind").
Definition host_digest : jval -> jval := string_or (part_field "spec" "nodeName").
Definition uid_digest : jval -> jval := string_or (part_field "metadata" "uid").

Definition statusPhase_digest (arg : jval) : jval :=
  match arg with
  | JStr _ => arg
  | _ => let phase := jget (jget arg "status") "phase" in if truthy phase then phase else JNull
  end.

(** The labels of an object, or a selector, which is an object itself. *)
Definition label_digests (arg : jval) : list string :=
  if truthy arg then
    let meta := jget arg "metadata" in
    let labels := if truthy meta then jget meta "labels" else arg in
    match labels with
    | JObj fields => map (fun kv => fst kv +:+ "=" +:+ js_String (snd kv)) fields
    | _ => []
    end
  else [].

(** The filters that are registered with a digest. *)
Definition filters : list (string * digester) :=
  [("label", Digests label_digests); ("namespace", Digest namespace_digest); ("name", Digest name_digest);
   ("kind", Digest kind_digest); ("host", Digest host_digest); ("uid", Digest uid_digest);
   ("statusPhase", Digest statusPhase_digest)].

(** The "one" and "extend" filters. *)
Definition one (d : dict) : jval := match d with (_, object) :: _ => object | [] => JNull end.
Definition extend_dict (target d : dict) : dict := foldl (fun t kv => assoc_set (fst kv) (snd kv) t) target d.

(** ** The index *)

Abbreviation index := (gmap Z (list string)).

Definition index_size : Z := 262139.

(** The keys under which an object is filed for a filter. *)
Definition object_keys (d : digester) (object : jval) : list string :=
  match d with
  | Digest f => let key := f object in if truthy key then [js_String key] else []
  | Digests f => f object
  end.

Definition index_object (link : string) (object : jval) (i : index) : index :=
  foldl (fun i f => index_add index_size (object_keys (snd f) object) link i) i filters.

Definition indexObjects (objects : dict) (i : index) : index :=
  foldl (fun i kv => index_object (fst kv) (snd kv) i) i objects.

Definition indexCreate (objects : dict) : index := indexObjects objects ∅.

(** The [listener]: called with nothing on reset. *)
Definition listener (n : notice) (i : option index) : option index :=
  match n with
  | CReset => None
  | CObjects objects => indexObjects objects <$> i
  | CChange present _ => indexObjects present <$> i
  end.

(** [if (!index) indexCreate()], before a filter looks things up. *)
Definition ensure_index (objects : dict) (i : option index) : index :=
  match i with Some i => i | None => indexCreate objects end.

(** ** Filtering *)

(** The loop over the possible links, with the test of an object. *)
Definition pick (what : dict) (test : jval -> bool) (possible : list string) : dict :=
  foldl (fun results link =>
      match assoc_get link what with
      | Some object => if truthy object && test object then assoc_set link object results else results
      | None => results
      end) [] possible.

Definition digestFilter (f : jval -> jval) (what : dict) (criteria : jval) (i : index) : dict :=
  let key := f criteria in
  let possible := match key with JUndef | JNull => [] | _ => index_get index_size i (js_String key) end in
  pick what (fun object => strict_eq key (f object)) possible.

(** [keys[k] === keyo[j + k]] for all keys, [keyo] from [j] on. *)
Fixpoint keys_at (keys keyo : list string) : bool :=
  match keys, keyo with
  | [], _ => true
  | k :: keys, o :: keyo => String.eqb k o && keys_at keys keyo
  | _ :: _, [] => false
  end.

(** The search for the first key and then the others after it. *)
Fixpoint match_keys (keys keyo : list string) : bool :=
  match keyo with [] => false | _ :: rest => keys_at keys keyo || match_keys keys rest end.

(** [keys.sort()]. *)
Definition sort_keys (keys : list string) : list string := merge_sort String.le keys.

Definition digestsFilter (f : jval -> list string) (what : dict) (criteria : jval) (i : index) : dict :=
  let keys := f criteria in
  match keys with
  | [] => []
  | _ => pick what (fun object => match_keys (sort_keys keys) (sort_keys (f object)))
           (index_all index_size i keys)
  end.

(** [select(arg)]: all objects for undefined; one object by its link (the code
    looks for it in [meta]) or under 1; what is no object selects nothing. *)
Definition select (objects : dict) (arg : jval) : dict :=
  match arg with
  | JUndef => objects
  | JObj fields =>
      match jget arg "kind" with
      | JStr _ =>
          let link := jget (jget arg "meta") "selfLink" in
          [(if truthy link then js_String link else "1", arg)]
      | _ => fields
      end
  | _ => []
  end.

(** ** The index covers the objects *)

Lemma foldl_inv {A B} (Q : A -> Prop) (f : A -> B -> A) (l : list B) :
  (forall a b, b ∈ l -> Q a -> Q (f a b)) -> forall a, Q a -> Q (foldl f a l).
Proof.
  induction l as [|b l IH]; intros Hf a Ha; cbn; [done|].
  apply IH; [intros a' b' Hb'; apply Hf; by right|]. apply Hf; [by left|done].
Qed.

(** Inserting loses nothing, sorted or not. *)
Lemma insert_sorted_in p value x : x = value \/ x ∈ p -> x ∈ insert_sorted p value.
Proof.
  intros Hx. unfold insert_sorted. set (k := search p value). case_decide as Hd.
  - destruct Hx as [->|]; [|done]. unfold js_at in Hd. destruct (k <? 0); [done|]. by eapply list_elem_of_lookup_2.
  - rewrite <- (take_drop (Z.to_nat k) p) in Hx. rewrite elem_of_app, elem_of_cons. rewrite elem_of_app in Hx. tauto.
Qed.

Lemma add_key_holds size value key i j x :
  (j = bucket size key /\ x = value) \/ holds i j x -> holds (add_key size value i key) j x.
Proof.
  unfold holds, add_key. intros Hx. destruct (decide (j = bucket size key)) as [->|Hne].
  - rewrite lookup_insert_eq. apply insert_sorted_in. naive_solver.
  - rewrite lookup_insert_ne by done. naive_solver.
Qed.

Lemma index_add_mono size keys value i j x : holds i j x -> holds (index_add size keys value i) j x.
Proof. intros H. unfold index_add. apply foldl_inv; [|done]. intros. apply add_key_holds. by right. Qed.

Lemma index_add_holds size keys value i key :
  key ∈ keys -> holds (index_add size keys value i) (bucket size key) value.
Proof.
  intros [l1 [l2 ->]]%list_elem_of_split. unfold index_add. rewrite foldl_app. cbn [foldl].
  apply (index_add_mono size l2). apply add_key_holds. by left.
Qed.

Lemma index_object_mono link object i j x : holds i j x -> holds (index_object link object i) j x.
Proof. intros H. unfold index_object. apply foldl_inv; [|done]. intros. by apply index_add_mono. Qed.

Lemma index_object_holds link object i f key :
  f ∈ filters -> key ∈ object_keys (snd f) object ->
  holds (index_object link object i) (bucket index_size key) link.
Proof.
  intros [l1 [l2 E]]%list_elem_of_split Hk. unfold index_object. rewrite E, foldl_app. cbn [foldl].
  apply foldl_inv; [intros; by apply index_add_mono|]. by apply index_add_holds.
Qed.

Lemma indexObjects_mono objects i j x : holds i j x -> holds (indexObjects objects i) j x.
Proof. intros H. unfold indexObjects. apply foldl_inv; [|done]. intros. by apply index_object_mono. Qed.

Lemma indexObjects_holds objects i link object f key :
  (link, object) ∈ objects -> f ∈ filters -> key ∈ object_keys (snd f) object ->
  holds (indexObjects objects i) (bucket index_size key) link.
Proof.
  intros [l1 [l2 ->]]%list_elem_of_split Hf Hk. unfold indexObjects. rewrite foldl_app. cbn [foldl fst snd].
  apply (indexObjects_mono l2). by eapply index_object_holds.
Qed.

(** Every object is filed under all its keys. *)
Definition covers (i : option index) (objects : dict) : Prop :=
  forall i', i = Some i' -> forall link object f key,
  assoc_get link objects = Some object -> f ∈ filters -> key ∈ object_keys (snd f) object ->
  holds i' (bucket index_size key) link.

Lemma covers_create objects : covers (Some (indexCreate objects)) objects.
Proof.
  intros i [= <-] link object f key Ho. apply indexObjects_holds. by apply assoc_get_elem.
Qed.

#[export] Instance listener_follower : Follower listener covers.
Proof.
  split.
  - intros [i|] old g Hc Hr i' E; [|done]. injection E as <-. intros link object f key Ho Hf Hk.
    rewrite Hr in Ho. destruct (assoc_get link (g_present g)) as [v|] eqn:Ep.
    + injection Ho as ->. eapply indexObjects_holds; [|exact Hf|exact Hk]. by apply assoc_get_elem.
    + case_decide; [done|]. apply indexObjects_mono. by eapply (Hc i).
  - intros [i|] objects Hc i' E; [|done]. injection E as <-. intros link object f key Ho Hf Hk.
    apply indexObjects_mono. by eapply (Hc i).
  - by intros c i' [=].
  - intros n [i|] objects Hc i' E; destruct n; try done; injection E as <-; intros link object f key Ho Hf Hk;
      apply indexObjects_mono; by eapply Hc.
Qed.

(** ** The selector and the loader together *)

(** The states that are reached when [kubeSelect] listens to the loader: the
    loader takes a step that does not throw and the listener hears of it, or a
    filter makes the index. *)
Inductive selecting (cb : nat) : loader -> option index -> Prop :=
  | sel_start k : Some cb ∈ k_callbacks k -> selecting cb k None
  | sel_step k i o k' : selecting cb k i -> (forall c, o = OListenCancel c -> c <> cb) ->
      step (k <| k_log := [] |>) o = (k', false) -> selecting cb k' (told listener cb i k')
  | sel_index k i : selecting cb k i -> selecting cb k (Some (ensure_index (k_objects k) i)).

Lemma covers_ensure i objects : covers i objects -> covers (Some (ensure_index objects i)) objects.
Proof. destruct i as [i|]; intros H; [exact H|apply covers_create]. Qed.

Lemma selecting_covers cb k i : selecting cb k i -> Some cb ∈ k_callbacks k /\ covers i (k_objects k).
Proof.
  induction 1 as [k Hk|k i o k' _ [Hc Hi] Ho Hs|k i _ [Hc Hi]].
  - split; [done|]. by intros i [=].
  - assert (in_sync listener covers cb i (k <| k_log := [] |>)) as Hsync by done.
    by apply (step_sync listener covers cb i o _ k' Ho Hsync Hs).
  - split; [done|]. by apply covers_ensure.
Qed.

Lemma pick_lookup what test possible link :
  assoc_get link (pick what test possible) =
    if decide (link ∈ possible) then
      match assoc_get link what with
      | Some o => if truthy o && test o then Some o else None
      | None => None
      end
    else None.
Proof.
  unfold pick. induction possible as [|l possible IH] using rev_ind; [done|]. rewrite foldl_app. cbn [foldl].
  set (r := foldl _ [] possible) in *. rewrite (decide_ext _ (link = l \/ link ∈ possible)) by set_solver.
  destruct (decide (link = l)) as [->|Hne].
  - rewrite decide_True by (by left).
    destruct (assoc_get l what) as [o|] eqn:Eo; [|rewrite IH; by destruct (decide (l ∈ possible))].
    destruct (truthy o && test o) eqn:Et; [|rewrite IH; by destruct (decide (l ∈ possible))].
    by rewrite assoc_get_set, String.eqb_refl.
  - rewrite (decide_ext _ (link ∈ possible)) by naive_solver. rewrite <- IH.
    destruct (assoc_get l what) as [o|]; [|done]. destruct (truthy o && test o); [|done].
    rewrite assoc_get_set. by destruct (String.eqb_spec l link) as [->|].
Qed.

(** When what passes the test is among the possible links, nothing is missed. *)
Lemma pick_exact what test possible link :
  (forall o, assoc_get link what = Some o -> test o = true -> link ∈ possible) ->
  assoc_get link (pick what test possible) =
    match assoc_get link what with
    | Some o => if truthy o && test o then Some o else None
    | None => None
    end.
Proof.
  intros H. rewrite pick_lookup. case_decide as Hp; [done|]. destruct (assoc_get link what) as [o|]; [|done].
  destruct (test o) eqn:E; [|by rewrite andb_false_r]. destruct Hp. by apply (H o).
Qed.

(** A filter with a digest selects exactly the loaded objects with the key
    of the criteria, as a scan of all objects would, although it only looks at
    what the hash index proposes: after any steps of the loader, and whenever the
    index was made. *)
Theorem select_digest cb k i name f criteria :
  selecting cb k i -> (name, Digest f) ∈ filters -> truthy (f criteria) = true -> forall link,
  assoc_get link (digestFilter f (k_objects k) criteria (ensure_index (k_objects k) i)) =
    match assoc_get link (k_objects k) with
    | Some o => if truthy o && strict_eq (f criteria) (f o) then Some o else None
    | None => None
    end.
Proof.
  intros [_ Hi]%selecting_covers Hf Ht link. unfold digestFilter. apply pick_exact. intros o Ho He.
  apply strict_eq_eq in He. apply covers_ensure in Hi.
  specialize (Hi _ eq_refl link o _ (js_String (f criteria)) Ho Hf). cbn in Hi. rewrite <- He, Ht in Hi.
  unfold holds in Hi. unfold index_get.
  destruct (f criteria); try done; apply Hi; by left.
Qed.

Definition ex_labeled (name : string) (labels : list (string * jval)) : jval :=
  JObj [("kind", JStr "Pod"); ("metadata", JObj [("name", JStr name); ("namespace", JStr "a"); ("labels", JObj labels)])].

Lemma select_digest_witness :
  let k0 := listen 7 true new_loader in
  let objects := JArr [ex_labeled "x" [("l", JStr "1")]; ex_labeled "y" []] in
  let k := fst (step (k0 <| k_log := [] |>) (OHandle objects false "")) in
  let i := told listener 7 (Some (ensure_index [] None)) k in
  digestFilter name_digest (k_objects k) (JStr "y") (ensure_index (k_objects k) i) =
    [("/api/v1/namespaces/a/pods/y", ex_labeled "y" [])] /\
  assoc_get "/api/v1/namespaces/a/pods/x"
    (digestFilter name_digest (k_objects k) (JStr "y") (ensure_index (k_objects k) i)) = None.
Proof.
  cbv zeta. split; [vm_compute; reflexivity|].
  set (k0 := listen 7 true new_loader). set (objects := JArr _).
  set (k := fst (step (k0 <| k_log := [] |>) (OHandle objects false ""))).
  rewrite (select_digest 7 k (told listener 7 (Some (ensure_index [] None)) k) "name" name_digest (JStr "y")).
  - vm_compute. reflexivity.
  - eapply (sel_step 7 k0 _ (OHandle objects false "") k); [|discriminate|vm_compute; reflexivity].
    apply (sel_index 7 k0 None), sel_start. by left.
  - unfold filters. do 2 (apply elem_of_cons; right). by left.
  - reflexivity.
Defined.

(** *** Labels *)

Lemma keys_at_elem keys : forall keyo key, keys_at keys keyo = true -> key ∈ keys -> key ∈ keyo.
Proof.
  induction keys as [|k keys IH]; intros keyo key H Hk; [by apply not_elem_of_nil in Hk|].
  destruct keyo as [|o keyo]; [done|]. cbn in H. apply andb_true_iff in H as [->%String.eqb_eq H].
  apply elem_of_cons in Hk as [->|Hk]; [by left|]. right. by eapply IH.
Qed.

Lemma match_keys_elem keys keyo key : match_keys keys keyo = true -> key ∈ keys -> key ∈ keyo.
Proof.
  induction keyo as [|o keyo IH]; [done|]. intros H Hk. cbn [match_keys] in H.
  apply orb_true_iff in H as [H|H]; [by eapply keys_at_elem|]. right. by apply IH.
Qed.

Lemma sort_keys_elem keys key : key ∈ sort_keys keys <-> key ∈ keys.
Proof. unfold sort_keys. by rewrite (merge_sort_Permutation String.le keys). Qed.

Lemma match_single key keyo : match_keys [key] keyo = true <-> key ∈ keyo.
Proof.
  split.
  - intros H. eapply match_keys_elem; [done|by left].
  - induction keyo as [|o keyo IH]; intros H; [by apply not_elem_of_nil in H|]. cbn.
    apply elem_of_cons in H as [->|H]; [by rewrite String.eqb_refl|]. rewrite IH by done. apply orb_true_r.
Qed.

(** Selecting by labels finds only objects that have all the labels; and
    with one label exactly those that have it. *)
Theorem select_labels cb k i criteria :
  selecting cb k i ->
  (forall link o, assoc_get link (digestsFilter label_digests (k_objects k) criteria (ensure_index (k_objects k) i)) = Some o ->
    assoc_get link (k_objects k) = Some o /\ forall key, key ∈ label_digests criteria -> key ∈ label_digests o) /\
  (forall key, label_digests criteria = [key] -> forall link,
    assoc_get link (digestsFilter label_digests (k_objects k) criteria (ensure_index (k_objects k) i)) =
      match assoc_get link (k_objects k) with
      | Some o => if truthy o && bool_decide (key ∈ label_digests o) then Some o else None
      | None => None
      end).
Proof.
  intros [_ Hi]%selecting_covers. apply covers_ensure in Hi. specialize (Hi _ eq_refl). split.
  - intros link o. unfold digestsFilter. destruct (label_digests criteria) as [|k0 ks]; [done|].
    rewrite pick_lookup. case_decide; [|done]. destruct (assoc_get link (k_objects k)) as [o'|]; [|done].
    destruct (truthy o' && _) eqn:E; [|done]. intros [= ->]. split; [done|]. intros key Hk.
    apply andb_true_iff in E as [_ E]. apply sort_keys_elem. eapply match_keys_elem; [exact E|]. by apply sort_keys_elem.
  - intros key Hk link. unfold digestsFilter. rewrite Hk. change (sort_keys [key]) with [key].
    assert (forall o, match_keys [key] (sort_keys (label_digests o)) = bool_decide (key ∈ label_digests o)) as E.
    { intros o. case_bool_decide as Hd.
      - apply match_single. by apply sort_keys_elem.
      - apply not_true_iff_false. intros H%match_single. by apply (proj1 (sort_keys_elem _ _)) in H. }
    rewrite pick_exact.
    + destruct (assoc_get link (k_objects k)) as [o|]; [|done]. by rewrite E.
    + intros o Ho. rewrite E. intros Hin%bool_decide_eq_true.
      specialize (Hi link o ("label", Digests label_digests) key Ho ltac:(by left) Hin).
      unfold holds in Hi. unfold index_all. cbn [all_loop]. destruct (ensure_index _ _ !! bucket index_size key); [exact Hi|].
      cbn in Hi. by apply not_elem_of_nil in Hi.
Qed.

Lemma select_labels_witness :
  let k0 := listen 7 true new_loader in
  let objects := JArr [ex_labeled "x" [("l", JStr "1")]; ex_labeled "y" [("m", JStr "1")]] in
  let k := fst (step (k0 <| k_log := [] |>) (OHandle objects false "")) in
  digestsFilter label_digests (k_objects k) (JObj [("m", JStr "1")]) (ensure_index (k_objects k) None) =
    [("/api/v1/namespaces/a/pods/y", ex_labeled "y" [("m", JStr "1")])] /\
  assoc_get "/api/v1/namespaces/a/pods/x"
    (digestsFilter label_digests (k_objects k) (JObj [("m", JStr "1")]) (ensure_index (k_objects k) None)) = None.
Proof.
  cbv zeta. split; [vm_compute; reflexivity|].
  set (k0 := listen 7 true new_loader). set (objects := JArr _).
  set (k := fst (step (k0 <| k_log := [] |>) (OHandle objects false ""))).
  assert (selecting 7 k (told listener 7 None k)) as Hs.
  { eapply (sel_step 7 k0 None (OHandle objects false "") k); [|discriminate|vm_compute; reflexivity].
    apply sel_start. by left. }
  change (told listener 7 None k) with (@None index) in Hs.
  destruct (select_labels 7 k None (JObj [("m", JStr "1")]) Hs) as [_ H].
  rewrite (H "m=1" eq_refl). vm_compute. reflexivity.
Defined.

(** With two labels that are not neighbours among the sorted labels of the
    object, it is not found. *)
Example labels_not_adjacent :
  let objects := [("/x", ex_labeled "x" [("a", JStr "1"); ("b", JStr "2"); ("c", JStr "3")])] in
  let i := indexCreate objects in
  digestsFilter label_digests objects (JObj [("a", JStr "1"); ("c", JStr "3")]) i = [] /\
  digestsFilter label_digests objects (JObj [("a", JStr "1"); ("b", JStr "2")]) i = objects.
Proof. vm_compute. split; reflexivity. Qed.

(** The link of a single object is looked for in the wrong place. *)
Example select_single :
  select [] (JObj [("kind", JStr "Pod"); ("metadata", JObj [("selfLink", JStr "/x")])]) =
    [("1", JObj [("kind", JStr "Pod"); ("metadata", JObj [("selfLink", JStr "/x")])])].
Proof. reflexivity. Qed.
