(* ===== verification/KubeWatch.v ===== *)
(** * Watching Kubernetes (src/pkg/kubernetes/scripts/kube-client-cockpit.js, [CockpitKubeWatch])

    A watch is a sequence of HTTP requests whose responses are streams of lines,
    one frame each.  It is restarted when it ends, from the last resource it has
    seen, and tells when the initial objects have been loaded.  Events come from
    the channel, from timers and from the caller; closing a channel runs its
    close handler at once. *)

From S2P Require Import Prelude Uri Journal JournalSpec KubeLoader.

Section Watch.

Context (JSON_parse : string -> option jval) (path : string).

(** What is local to one request: whether all objects are listed, whether a
    second has passed, and the response. *)
Record conn := mk_conn {
  c_id : nat; c_full : bool; c_blocked : bool; c_status : Z; c_failed : bool; c_data : string }.

#[local] Instance conn_settable : Settable conn := fun c =>
  mk_conn (c_id c) (c_full c) (c_blocked c) (c_status c) (c_failed c) (c_data c).

(** The variable [loading]: undefined, false, or a timer. *)
Inductive load_var := LUndefined | LFalse | LTimer (id : nat).

(** How the promise is settled: with an error it has a problem and a status. *)
Inductive outcome := OResolved | ORejected (problem : string) (status : Z).

(** What can be seen from outside. *)
Inductive wevent := WRequest (uri : string) | WFrames (frames : list jval).

Record kwatch := mk_kwatch {
  w_last : jval; w_stopping : bool; w_channel : option conn; w_waiting : bool; w_loaded : bool;
  w_objects : dict; w_previous : dict; w_loading : load_var; w_timers : list nat; w_next : nat;
  w_buffer : string; w_outcome : option outcome; w_log : list wevent }.

#[local] Instance kwatch_settable : Settable kwatch := fun w =>
  mk_kwatch (w_last w) (w_stopping w) (w_channel w) (w_waiting w) (w_loaded w) (w_objects w) (w_previous w)
    (w_loading w) (w_timers w) (w_next w) (w_buffer w) (w_outcome w) (w_log w).

Definition new_watch : kwatch :=
  mk_kwatch JUndef false None false false [] [] LUndefined [] 0 "" None [].

Definition emit (e : wevent) (w : kwatch) : kwatch := w <| w_log ::= (fun l => l ++ [e]) |>.

(** ** Loading *)

Definition loadPoke (force : bool) (w : kwatch) : kwatch :=
  let set_timer w :=
    w <| w_loading := LTimer (w_next w) |> <| w_timers ::= (fun t => t ++ [w_next w]) |> <| w_next ::= S |> in
  match w_loading w with
  | LUndefined => if force then set_timer w else w
  | LFalse => set_timer w
  | LTimer id => set_timer (w <| w_timers ::= filter (fun t => t <> id) |>)
  end.

Definition loadBegin (full : bool) (w : kwatch) : kwatch :=
  let w := if full then w <| w_previous := w_objects w |> <| w_objects := [] |> else w <| w_previous := [] |> in
  loadPoke true w.

(** The frames that stand for objects that are no longer there. *)
Definition deleted_frames (previous objects : dict) : list jval :=
  omap (fun kv => match assoc_get (fst kv) objects with
                  | None => Some (JObj [("type", JStr "DELETED"); ("object", snd kv)])
                  | Some _ => None
                  end) previous.

Definition loadFinish (ex : option (string * Z)) (w : kwatch) : kwatch :=
  if w_loaded w then w
  else
    let frames := deleted_frames (w_previous w) (w_objects w) in
    let w := w <| w_loaded := true |> <| w_previous := [] |> in
    let w := match frames with [] => w | _ => emit (WFrames frames) w end in
    emit (WFrames []) w
      <| w_outcome := Some (match ex with Some (problem, status) => ORejected problem status | None => OResolved end) |>.

(** ** Requests *)

Definition startWatch (w : kwatch) : kwatch :=
  match w_channel w with
  | Some _ => w
  | None =>
      let uri := path +:+ "?watch=true" in
      let '(uri, full) :=
        if truthy (w_last w)
        then (uri +:+ "&resourceVersion=" +:+ encodeURIComponent (js_String (w_last w)), false)
        else (uri, true) in
      emit (WRequest uri) (w <| w_channel := Some (mk_conn (w_next w) full false 0 false "") |> <| w_next ::= S |>)
  end.

Definition startWatchLater (w : kwatch) : kwatch := w <| w_waiting := true |>.

(** The close handler.  A failure that is final is not tried again. *)
Definition on_close (problem : string) (w : kwatch) : kwatch :=
  match w_channel w with
  | None => w
  | Some c =>
      let w := w <| w_channel := None |> <| w_loading := LFalse |> in
      if w_stopping w then w
      else if negb (String.eqb problem "") then startWatchLater (loadFinish (Some (problem, 999)) w)
      else if c_failed c then
        let w := loadFinish (Some ("", c_status c)) w in
        if (c_status c =? 404) || (c_status c =? 410) || (c_status c =? 403) then w else startWatchLater w
      else if negb (c_blocked c) then startWatchLater w
      else startWatch w
  end.

(** *** Frames *)

(** Is the object one to report, with a kind and, unless it is a project, a
    unique id? *)
Definition valid_object (object : jval) : bool :=
  let meta := jget object "metadata" in
  truthy meta && (truthy (jget meta "uid") || is_str (jget object "kind") "Project") && truthy (jget object "kind").

(** One line: what becomes of the frames so far; [None] throws, when there is no
    channel to close or the line is null. *)
Definition handle_line (line : string) (wf : kwatch * list jval) : option (kwatch * list jval) :=
  let '(w, frames) := wf in
  match JSON_parse line with
  | None => match w_channel w with Some _ => Some (on_close "" w, frames) | None => None end
  | Some JNull => None
  | Some frame =>
      let object := jget frame "object" in
      if negb (truthy object) then Some (w, frames)
      else if is_str (jget frame "type") "ERROR" then
        if truthy (w_last w) then Some (startWatch (w <| w_last := JNull |>), frames) else Some (w, frames)
      else if negb (valid_object object) then Some (w, frames)
      else
        let meta := jget object "metadata" in
        let uid := js_String (jget meta "uid") in
        let w := w <| w_last := jget meta "resourceVersion" |> in
        let w := w <| w_objects ::= (if is_str (jget frame "type") "DELETED" then assoc_del uid else assoc_set uid object) |> in
        Some (w, frames ++ [frame])
  end.

(** The lines in order, and whether all could be handled. *)
Fixpoint handle_lines (lines : list string) (wf : kwatch * list jval) : kwatch * list jval * bool :=
  match lines with
  | [] => (wf, true)
  | line :: lines => match handle_line line wf with Some wf => handle_lines lines wf | None => (wf, false) end
  end.

Definition handleWatch (data : string) (w : kwatch) : kwatch :=
  let lines := split_lines (w_buffer w +:+ data) in
  let '(w, frames, finished) := handle_lines (removelast lines) (w <| w_buffer := default "" (last lines) |>, []) in
  if finished then loadPoke false (emit (WFrames frames) w) else w.

(** ** Events *)

Inductive watch_input :=
  | IConnected | INotConnected (problem : string) (status : Z) | IResponse (status : Z) | IMessage (payload : string)
  | IClose (problem : string) | ILoadTimer (id : nat) | IBlockTimer (id : nat) | IWaitTimer
  | ICancel (ex : option (string * Z)).

Definition on_response (status : Z) (w : kwatch) : kwatch :=
  match w_channel w with
  | Some c => loadBegin (c_full c) (w <| w_channel := Some (c <| c_status := status |> <| c_failed := c_failed c || (299 <? status) |>) |>)
  | None => w
  end.

Definition on_message (payload : string) (w : kwatch) : kwatch :=
  match w_channel w with
  | Some c => if c_failed c then w <| w_channel := Some (c <| c_data ::= (fun d => d +:+ payload) |>) |> else handleWatch payload w
  | None => w
  end.

Definition on_load_timer (id : nat) (w : kwatch) : kwatch :=
  if bool_decide (id ∈ w_timers w) then loadFinish None (w <| w_timers ::= filter (fun t => t <> id) |>) else w.

Definition on_block_timer (id : nat) (w : kwatch) : kwatch :=
  match w_channel w with
  | Some c => if Nat.eqb (c_id c) id then w <| w_channel := Some (c <| c_blocked := true |>) |> else w
  | None => w
  end.

Definition on_wait_timer (w : kwatch) : kwatch :=
  if w_waiting w then startWatch (w <| w_waiting := false |>) else w.

Definition cancel (ex : option (string * Z)) (w : kwatch) : kwatch :=
  let w := w <| w_stopping := true |> in
  let w := match w_channel w with
           | Some _ => on_close (match ex with Some (problem, _) => problem | None => "disconnected" end) w
           | None => w
           end in
  loadFinish ex (w <| w_waiting := false |>).

Definition watch_step (w : kwatch) (e : watch_input) : kwatch :=
  match e with
  | IConnected => startWatch w
  | INotConnected problem status => loadFinish (Some (problem, status)) w
  | IResponse status => on_response status w
  | IMessage payload => on_message payload w
  | IClose problem => on_close problem w
  | ILoadTimer id => on_load_timer id w
  | IBlockTimer id => on_block_timer id w
  | IWaitTimer => on_wait_timer w
  | ICancel ex => cancel ex w
  end.

End Watch.

#[export] Existing Instances conn_settable kwatch_settable.

(** ** What is delivered *)

Section Delivered.

Context (JSON_parse : string -> option jval) (path : string).

Lemma emit_log e w : w_log (emit e w) = w_log w ++ [e].
Proof. done. Qed.

Definition frames_of (log : list wevent) : list jval :=
  concat (map (fun e => match e with WFrames l => l | WRequest _ => [] end) log).

Definition delivered (w : kwatch) : list jval := frames_of (w_log w).

(** A line that can be read, and the frame it holds, unless that is an error or
    of no valid object. *)
Definition readable (line : string) : Prop :=
  exists v, JSON_parse line = Some v /\ v <> JNull.

Definition frame_of_line (line : string) : list jval :=
  match JSON_parse line with
  | Some frame =>
      if truthy (jget frame "object") && negb (is_str (jget frame "type") "ERROR") && valid_object (jget frame "object")
      then [frame] else []
  | None => []
  end.

(** The payloads that reach the reader of lines. *)
Definition accepted (w : kwatch) (e : watch_input) : string :=
  match e, w_channel w with
  | IMessage payload, Some c => if c_failed c then "" else payload
  | _, _ => ""
  end.

Fixpoint text (w : kwatch) (inputs : list watch_input) : string :=
  match inputs with
  | [] => ""
  | e :: inputs => accepted w e +:+ text (watch_step JSON_parse path w e) inputs
  end.

(** Nothing is delivered and no text read. *)
Definition silent (w w' : kwatch) : Prop :=
  w_loaded w' = w_loaded w /\ w_buffer w' = w_buffer w /\ delivered w' = delivered w.

#[local] Instance silent_refl : Reflexive silent.
Proof. by intros w. Qed.

#[local] Instance silent_trans : Transitive silent.
Proof. intros w1 w2 w3 (?&?&?) (?&?&?). unfold silent. repeat split; congruence. Qed.

Lemma startWatch_silent w : silent w (startWatch path w).
Proof.
  unfold startWatch. destruct (w_channel w); [done|].
  destruct (truthy (w_last w)); (split; [done|split; [done|]]);
    unfold delivered, frames_of; cbn; by rewrite map_app, concat_app, app_nil_r.
Qed.

Lemma loadPoke_silent force w : silent w (loadPoke force w).
Proof. unfold loadPoke. destruct (w_loading w), force; done. Qed.

Lemma loadFinish_loaded ex w : w_loaded w = true -> loadFinish ex w = w.
Proof. unfold loadFinish. by intros ->. Qed.

Lemma on_close_silent problem w : w_loaded w = true -> silent w (on_close path problem w).
Proof.
  intros Hl. unfold on_close. destruct (w_channel w) as [c|]; [|done].
  set (w1 := w <| w_channel := None |> <| w_loading := LFalse |>).
  assert (silent w w1) as H1 by done. assert (w_loaded w1 = true) as Hl1 by done. clearbody w1.
  destruct (w_stopping w1); [done|]. rewrite !loadFinish_loaded by done.
  destruct (negb _); [done|]. destruct (c_failed c); [by destruct (_ || _)|].
  destruct (negb _); [done|]. etransitivity; [exact H1|apply startWatch_silent].
Qed.

Lemma handle_lines_read lines : forall w frames,
  w_loaded w = true -> Forall readable lines ->
  exists w', handle_lines JSON_parse path lines (w, frames) = (w', frames ++ concat (map frame_of_line lines), true) /\
  silent w w'.
Proof.
  induction lines as [|line lines IH]; intros w frames Hl Hr; cbn [handle_lines].
  { exists w. cbn. by rewrite app_nil_r. }
  apply Forall_cons in Hr as [(v & Ev & Hv) Hr].
  assert (exists w1, handle_line JSON_parse path line (w, frames) = Some (w1, frames ++ frame_of_line line) /\ silent w w1)
    as (w1 & -> & Hs).
  { unfold handle_line, frame_of_line. rewrite Ev.
    destruct v as [| |b|z|s|l|fields]; try done; cbn [jget truthy negb andb];
      try (exists w; by rewrite app_nil_r).
    set (frame := JObj fields). change (default JUndef (assoc_get "object" fields)) with (jget frame "object").
    change (default JUndef (assoc_get "type" fields)) with (jget frame "type").
    destruct (truthy (jget frame "object")); cbn [negb andb]; [|exists w; by rewrite app_nil_r].
    destruct (is_str _ "ERROR"); cbn [negb andb].
    - destruct (truthy (w_last w)); [|exists w; by rewrite app_nil_r].
      eexists. rewrite app_nil_r. split; [done|]. etransitivity; [|apply startWatch_silent]. done.
    - destruct (valid_object _); cbn [negb]; [|exists w; by rewrite app_nil_r]. by eexists. }
  destruct (IH w1 (frames ++ frame_of_line line)) as (w2 & -> & Hs2); [by destruct Hs as [-> _]|done|].
  exists w2. split; [by rewrite <- app_assoc|by transitivity w1].
Qed.

Lemma split_lines_ne s : split_lines s <> [].
Proof. destruct s as [|c s]; [done|]. destruct (split_lines_cons c s) as (? & ? & _ & ->). by destruct (Ascii.eqb c nl_char). Qed.

(** The delivery so far, and the unfinished line, are those of a text. *)
Definition reads (base : list jval) (w : kwatch) (x : string) : Prop :=
  w_loaded w = true /\ delivered w = base ++ concat (map frame_of_line (removelast (split_lines x))) /\
  w_buffer w = default "" (last (split_lines x)).

Lemma reads_silent base w w' x : silent w w' -> reads base w x -> reads base w' x.
Proof. intros (H1 & H2 & H3) (R1 & R2 & R3). unfold reads. by rewrite H1, H2, H3. Qed.

Lemma handleWatch_reads base w x data :
  reads base w x -> Forall readable (removelast (split_lines (x +:+ data))) ->
  reads base (handleWatch JSON_parse path data w) (x +:+ data).
Proof.
  intros (Hl & Hd & Hb) Hr. pose proof (split_lines_app x data) as Es. rewrite <- Hb in Es.
  pose proof (split_lines_ne (w_buffer w +:+ data)) as Hne.
  rewrite Es, removelast_app in Hr by done. apply Forall_app in Hr as [_ Hr].
  unfold handleWatch. set (w1 := w <| w_buffer := _ |>).
  destruct (handle_lines_read (removelast (split_lines (w_buffer w +:+ data))) w1 [] Hl Hr) as (w2 & -> & S1 & S2 & S3).
  cbn [app]. eapply reads_silent; [apply loadPoke_silent|]. unfold reads. rewrite Es. split; [|split].
  - change (w_loaded w2 = true). by rewrite S1.
  - unfold delivered, frames_of. rewrite emit_log, map_app, concat_app. cbn [map concat]. rewrite app_nil_r.
    change (concat (map _ (w_log w2))) with (delivered w2). rewrite S3. change (delivered w1) with (delivered w).
    by rewrite Hd, removelast_app, map_app, concat_app, app_assoc by done.
  - change (w_buffer (emit _ w2)) with (w_buffer w2). rewrite S2. cbn. rewrite last_app.
    destruct (last (split_lines (w_buffer w +:+ data))) as [l|] eqn:E; [done|]. by apply last_None in E.
Qed.

Lemma watch_step_reads base w x e :
  reads base w x -> Forall readable (removelast (split_lines (x +:+ accepted w e))) ->
  reads base (watch_step JSON_parse path w e) (x +:+ accepted w e).
Proof.
  intros Hw Hr. pose proof Hw as (Hl & _ & _).
  destruct e as [|problem status|status|payload|problem|id|id| |ex]; cbn [watch_step accepted] in *;
    try rewrite str_app_nil_r.
  - eapply reads_silent; [apply startWatch_silent|done].
  - by rewrite loadFinish_loaded.
  - unfold on_response. destruct (w_channel w) as [c|]; [|done]. eapply reads_silent; [|exact Hw].
    unfold loadBegin. etransitivity; [|apply loadPoke_silent]. by destruct (c_full c).
  - unfold on_message. destruct (w_channel w) as [c|]; [|by rewrite str_app_nil_r].
    destruct (c_failed c); [by rewrite str_app_nil_r|]. by apply handleWatch_reads.
  - eapply reads_silent; [by apply on_close_silent|done].
  - unfold on_load_timer. case_bool_decide; [|done]. by rewrite loadFinish_loaded.
  - unfold on_block_timer. destruct (w_channel w); [|done]. by destruct (Nat.eqb _ _).
  - unfold on_wait_timer. destruct (w_waiting w); [|done]. eapply reads_silent; [apply startWatch_silent|done].
  - unfold cancel. set (w1 := w <| w_stopping := true |>). assert (silent w w1) as H1 by done.
    eapply reads_silent; [|exact Hw]. destruct (w_channel w1).
    + assert (silent w1 (on_close path (match ex with Some (p, _) => p | None => "disconnected" end) w1)) as H2
        by (apply on_close_silent; done).
      rewrite loadFinish_loaded; [transitivity w1; [done|exact H2]|exact (eq_trans (proj1 H2) Hl)].
    + by rewrite loadFinish_loaded.
Qed.

(** Once a watch has loaded, it delivers exactly the valid frames in the
    lines of the text it receives, in order and however the text is cut into
    payloads and the requests are restarted, as long as every line can be read. *)
Theorem watch_stream inputs w :
  w_loaded w = true -> str_mem nl_char (w_buffer w) = false ->
  Forall readable (removelast (split_lines (w_buffer w +:+ text w inputs))) ->
  let w' := foldl (watch_step JSON_parse path) w inputs in
  delivered w' = delivered w ++
    concat (map frame_of_line (removelast (split_lines (w_buffer w +:+ text w inputs)))) /\
  w_buffer w' = default "" (last (split_lines (w_buffer w +:+ text w inputs))).
Proof.
  intros Hl Hb Hr. cbv zeta.
  assert (forall base inputs w x, reads base w x -> Forall readable (removelast (split_lines (x +:+ text w inputs))) ->
    reads base (foldl (watch_step JSON_parse path) w inputs) (x +:+ text w inputs)) as H.
  { clear. intros base. induction inputs as [|e inputs IH]; intros w x Hw Hr; cbn [foldl text] in *.
    - by rewrite str_app_nil_r.
    - rewrite <- str_app_assoc in *. apply IH; [|done]. apply watch_step_reads; [done|].
      rewrite split_lines_app, removelast_app in Hr.
      + by apply Forall_app in Hr as [Hr _].
      + apply split_lines_ne. }
  destruct (H (delivered w) inputs w (w_buffer w)) as (_ & H1 & H2); [|done|done].
  assert (split_lines (w_buffer w) = [w_buffer w]) as E.
  { clear -Hb. induction (w_buffer w) as [|c b IH]; [done|]. cbn [str_mem] in Hb. apply orb_false_iff in Hb as [Hc Hb].
    cbn. rewrite IH by done. by rewrite Hc. }
  unfold reads. rewrite E. cbn. by rewrite app_nil_r.
Qed.

End Delivered.

(** *** Examples *)

Definition ex_object (uid : string) : jval :=
  JObj [("kind", JStr "Pod"); ("metadata", JObj [("uid", JStr uid); ("resourceVersion", JStr "7")])].
Definition ex_frame (type : string) (object : jval) : jval := JObj [("type", JStr type); ("object", object)].

Definition ex_parse (line : string) : option jval :=
  if String.eqb line "A" then Some (ex_frame "ADDED" (ex_object "a"))
  else if String.eqb line "B" then Some (ex_frame "ADDED" (ex_object "b"))
  else if String.eqb line "E" then Some (ex_frame "ERROR" (JObj []))
  else None.

Definition ex_run (inputs : list watch_input) : kwatch := foldl (watch_step ex_parse "/pods") new_watch inputs.

Definition ex_loading : list watch_input := [IConnected; IResponse 200; IMessage ("A" +:+ nl); ILoadTimer 2].

Lemma watch_stream_witness :
  let w := ex_run ex_loading in
  let inputs := [IMessage "B"; IBlockTimer 0; IMessage nl; IClose ""; IResponse 200; IMessage ("E" +:+ nl)] in
  let w' := foldl (watch_step ex_parse "/pods") w inputs in
  delivered w = [ex_frame "ADDED" (ex_object "a")] /\
  delivered w' = delivered w ++ [ex_frame "ADDED" (ex_object "b")] /\ w_buffer w' = "".
Proof.
  cbv zeta. split; [vm_compute; reflexivity|].
  apply (watch_stream ex_parse "/pods"
    [IMessage "B"; IBlockTimer 0; IMessage nl; IClose ""; IResponse 200; IMessage ("E" +:+ nl)] (ex_run ex_loading)).
  - vm_compute. reflexivity.
  - vm_compute. reflexivity.
  - match goal with |- Forall _ ?l => let l' := eval vm_compute in l in change l with l' end.
    repeat apply Forall_cons_2; [..|apply Forall_nil_2]; eexists; (split; [reflexivity|discriminate]).
Defined.

(** The watch is restarted without the object, from a full listing: since it has
    loaded before, no deletion is made up for the object. *)
Example deleted_meanwhile_stays :
  let w := ex_run (ex_loading ++ [IBlockTimer 0; IMessage ("E" +:+ nl); IClose ""; IResponse 200; ILoadTimer 5; ILoadTimer 6]) in
  w_log w = [WRequest "/pods?watch=true"; WFrames [ex_frame "ADDED" (ex_object "a")]; WFrames []; WFrames [];
             WRequest "/pods?watch=true"] /\ w_objects w = [] /\ w_previous w = [("a", ex_object "a")].
Proof. vm_compute. repeat split; reflexivity. Qed.

(** The unfinished line of a broken connection spoils the first line of the next
    one. *)
Example leftover_line :
  let w := ex_run (ex_loading ++ [IMessage "A"; IClose "disconnected"; IWaitTimer; IResponse 200; IMessage ("B" +:+ nl)]) in
  delivered w = [ex_frame "ADDED" (ex_object "a")] /\ w_channel w = None.
Proof. vm_compute. split; reflexivity. Qed.

(** After a second line that cannot be read there is no channel left to close:
    the frames of that payload are lost, though the watch will go on after them. *)
Example two_bad_lines :
  let w := ex_run [IConnected; IResponse 200; IMessage ("A" +:+ nl +:+ "x" +:+ nl +:+ "y" +:+ nl)] in
  delivered w = [] /\ (w_objects w).*1 = ["a"] /\ w_last w = JStr "7".
Proof. vm_compute. repeat split; reflexivity. Qed.

(** A watch that is cancelled before it knows where to connect starts all the
    same. *)
Example cancelled_watch_starts :
  w_log (ex_run [ICancel None; IConnected]) = [WFrames []; WRequest "/pods?watch=true"].
Proof. reflexivity. Qed.
