(* ===== verification/KubeMethods.v ===== *)
(** * Changing Kubernetes objects
      (src/pkg/kubernetes/scripts/kube-client.js, [kubeMethods];
       src/pkg/kubernetes/scripts/kube-client-cockpit.js)

    Creating objects one after the other in an order in which they can depend on
    each other, deleting and patching, the checks of names, and what the client
    makes of URLs of containers and of the configuration of kubectl. *)

From S2P Require Import Prelude Uri Location KubeLoader.

(** ** Creating *)

Definition timeout_query : string := "?timeout=120s".

(** [KUBE_SCHEMA[kind].create || 0]; a kind without a schema throws. *)
Definition create_preference (object : jval) : option Z :=
  (fun s => default 0 (sc_create s)) <$> SCHEMA !! js_String (jget object "kind").

(** The argument of [create]: an array, a list object or one object. *)
Definition objects_of (objects : jval) : option (list jval) :=
  match objects with
  | JArr l => Some l
  | JUndef | JNull => None
  | _ => if is_str (jget objects "kind") "List"
         then match jget objects "items" with JArr l => Some l | _ => None end
         else Some [objects]
  end.

Definition is_namespace (namespace : string) (resource : jval) : bool :=
  let meta := jget resource "metadata" in
  (is_str (jget resource "kind") "Namespace" || is_str (jget resource "kind") "Project") &&
  is_str (jget meta "name") namespace.

Definition wants_namespace (resource : jval) : bool :=
  negb (sc_global (schema_of (js_String (jget resource "kind")))).

Definition namespace_object (namespace : string) : jval :=
  JObj [("apiVersion", JStr "v1"); ("kind", JStr "Namespace"); ("metadata", JObj [("name", JStr namespace)])].

(** The objects to create, with the namespace when one is given (it is not ""),
    needed and not there. *)
Definition with_namespace (namespace : string) (objects : list jval) : list jval :=
  if negb (String.eqb namespace "") && existsb wants_namespace objects && negb (existsb (is_namespace namespace) objects)
  then namespace_object namespace :: objects else objects.

(** The answer to a request. *)
Inductive answer := ASuccess (data : jval) | AFailure (status : jval) (data : jval).

(** A request that throws in its handler never settles the promise. *)
Inductive create_result := CResolved | CRejected (data : jval) | CTypeError | CUnsettled.

(** The code of a failure. *)
Definition failure_code (status data : jval) : jval :=
  if truthy data && truthy (jget data "code") then jget data "code" else status.

Definition ignored_failure (resource status data : jval) : bool :=
  is_str (jget resource "kind") "Namespace" &&
  match failure_code status data with JNum 409 | JNum 403 => true | _ => false end.

(** [delete meta.selfLink] for projects. *)
Definition without_link (data : jval) : jval :=
  match data with
  | JObj fields =>
      if is_str (jget data "kind") "Project" then
        match jget data "metadata" with
        | JObj meta => JObj (assoc_set "metadata" (JObj (assoc_del "selfLink" meta)) fields)
        | _ => data
        end
      else data
  | v => v
  end.

Section Methods.

(** [Array.prototype.sort] with a comparison by a number, and the server. *)
Context (sort_by : (jval -> Z) -> list jval -> list jval) (server : string -> jval -> answer).

Definition create_path (namespace : string) (resource : jval) : string :=
  resourcePath [jget resource "kind"; JNull; JStr (if String.eqb namespace "" then "default" else namespace)] +:+
  timeout_query.

(** [step]: the requests made, and how it ends. *)
Fixpoint create_steps (namespace : string) (queue : list jval) (k : loader)
    : loader * list (string * jval) * create_result :=
  match queue with
  | [] => (k, [], CResolved)
  | resource :: queue =>
      let path := create_path namespace resource in
      let post '(k, posts, r) := (k, (path, resource) :: posts, r) in
      post match server path resource with
           | ASuccess JUndef | ASuccess JNull => (k, [], CUnsettled)
           | ASuccess data =>
               if truthy (jget data "kind") then
                 match handle (without_link data) false "" k with
                 | (k, true) => (k, [], CUnsettled)
                 | (k, false) => create_steps namespace queue k
                 end
               else create_steps namespace queue k
           | AFailure status data =>
               if ignored_failure resource status data then create_steps namespace queue k
               else (k, [], CRejected data)
           end
  end.

Definition preference (object : jval) : Z := default 0 (create_preference object).

(** With two objects or more they are compared, and one of an unknown kind
    throws. *)
Definition createObjects (objects : jval) (namespace : string) (k : loader)
    : loader * list (string * jval) * create_result :=
  match objects_of objects with
  | None => (k, [], CTypeError)
  | Some l =>
      let l := with_namespace namespace l in
      if Nat.leb 2 (length l) && existsb (fun o => match create_preference o with None => true | _ => false end) l
      then (k, [], CTypeError)
      else create_steps namespace (sort_by preference l) k
  end.

(** ** Deleting, patching and other requests *)

(** The method, path and body of a request. *)
Record request := mk_request { q_method : string; q_path : string; q_body : jval }.

Inductive method_result := MDone | MData (data : jval) | MRejected (data : jval) | MUnsettled.

Definition rejection (status data : jval) : jval := if truthy data then data else status.

Definition deleteResource (args : list jval) (k : loader) : loader * request * method_result :=
  let path := resourcePath args in
  let resource := default JUndef (assoc_get path (k_objects k)) in
  let q := mk_request "DELETE" (path +:+ timeout_query) JUndef in
  match server (q_path q) JUndef with
  | ASuccess _ =>
      if truthy resource then
        match handle resource true "" k with (k, true) => (k, q, MUnsettled) | (k, false) => (k, q, MDone) end
      else (k, q, MDone)
  | AFailure status data => (k, q, MRejected (rejection status data))
  end.

Definition patchResource (resource patch : jval) (k : loader) : loader * request * method_result :=
  let q := mk_request "PATCH" (resourcePath [resource] +:+ timeout_query) patch in
  match server (q_path q) patch with
  | ASuccess JUndef | ASuccess JNull => (k, q, MUnsettled)
  | ASuccess data =>
      if truthy (jget data "kind") then
        match handle data false "" k with (k, true) => (k, q, MUnsettled) | (k, false) => (k, q, MDone) end
      else (k, q, MDone)
  | AFailure status data => (k, q, MRejected (rejection status data))
  end.

Definition generalMethodRequest (method : string) (resource body : jval) : request * method_result :=
  let path := resourcePath [resource] in
  let q := mk_request method (if String.eqb method "GET" then path else path +:+ timeout_query) body in
  (q, match server (q_path q) body with
      | ASuccess data => MData data
      | AFailure status data => MRejected (rejection status data)
      end).

End Methods.

(** ** Checking names *)

Definition char_in (set : string) (c : Ascii.ascii) : bool := str_mem c set.
Definition lower : string := "abcdefghijklmnopqrstuvwxyz".
Definition upper : string := "ABCDEFGHIJKLMNOPQRSTUVWXYZ".
Definition digits : string := "0123456789".

(** [/^F(M*L)?$/] for sets of characters F, M and L. *)
Fixpoint tail_matches (middle final : string) (s : string) : bool :=
  match s with
  | EmptyString => false
  | String c EmptyString => char_in final c
  | String c s => char_in middle c && tail_matches middle final s
  end.

Definition word_matches (first middle final : string) (s : string) : bool :=
  match s with
  | EmptyString => false
  | String c EmptyString => char_in first c
  | String c s => char_in first c && tail_matches middle final s
  end.

Definition NAME_RE : string -> bool :=
  word_matches (lower +:+ digits) ("-" +:+ lower +:+ digits +:+ "_.") (lower +:+ digits).

Definition USER_NAME_RE : string -> bool :=
  word_matches (lower +:+ upper +:+ digits +:+ "_.") ("-" +:+ lower +:+ upper +:+ digits +:+ " ,=@._:")
    (lower +:+ upper +:+ digits +:+ "._:").

(** What is wrong with a resource, and with which field. *)
Inductive name_error := EmptyName | BadName | BadUserName | EmptyNamespace | BadNamespace.

Definition check_name (kind name : jval) : list name_error :=
  match name with
  | JUndef => []
  | _ =>
      let user := is_str kind "User" || is_str kind "Group" in
      if negb (truthy name) then [EmptyName]
      else if (if user then USER_NAME_RE else NAME_RE) (js_String name) then []
      else [if user then BadUserName else BadName]
  end.

Definition check_namespace (namespace : jval) : list name_error :=
  match namespace with
  | JUndef => []
  | _ => if negb (truthy namespace) then [EmptyNamespace]
         else if NAME_RE (js_String namespace) then [] else [BadNamespace]
  end.

Definition checkResource (resource : jval) : list name_error :=
  let meta := jget resource "metadata" in
  if truthy meta then check_name (jget resource "kind") (jget meta "name") ++ check_namespace (jget meta "namespace")
  else [].

(** ** Terminals of containers *)

(** The options of a URL: a value, or several under the same name. *)
Definition add_option (name value : string) (options : list (string * list string)) : list (string * list string) :=
  assoc_set name (default [] (assoc_get name options) ++ [value]) options.

(** [decode]; [None] is a malformed escape. *)
Definition decode (href : string) : option (list string * list (string * list string)) :=
  let '(first, query) := match str_cut "?" href with Some (a, b) => (a, Some b) | None => (href, None) end in
  path ← mapM decodeURIComponent (str_split "/" first);
  options ← match query with
            | None => Some []
            | Some q =>
                foldl (fun acc opt =>
                    options ← acc;
                    let parts := str_split "=" opt in
                    name ← decodeURIComponent (default "" (parts !! 0%nat));
                    value ← decodeURIComponent (default "undefined" (parts !! 1%nat));
                    Some (add_option name value options))
                  (Some []) (str_split "&" q)
            end;
  Some (path, options).

(** The loop over the path: namespace, pod and what to do with it. *)
Fixpoint parse_path (fuel : nat) (path : list string) (namespace cmd pod : string) : string * string * string :=
  match fuel, path with
  | S fuel, "namespaces" :: path => parse_path fuel (tail path) (default "undefined" (head path)) cmd pod
  | S fuel, "pods" :: path =>
      let rest := tail path in
      let cmd := match rest with "exec" :: _ => "exec" | "log" :: _ => "logs" | _ => cmd end in
      parse_path fuel rest namespace cmd (default "undefined" (head path))
  | S fuel, _ :: path => parse_path fuel path namespace cmd pod
  | _, _ => (namespace, cmd, pod)
  end.

(** The value of an option: an array prints with commas. *)
Definition option_string (values : list string) : string := str_join "," values.

Definition parser (url : string) : option (list string) :=
  '(path, options) ← decode url;
  let '(namespace, cmd, pod) := parse_path (length path) path "default" "log" "" in
  let container := assoc_get "container" options in
  let flags := omap (fun '(name, _) => if String.eqb name "stdin" || String.eqb name "tty" || String.eqb name "follow"
                                       then Some ("--" +:+ name) else None) options in
  Some (["kubectl"; cmd; "--namespace=" +:+ namespace] ++
        match container with
        | Some v => if String.eqb (option_string v) "" then [] else ["--container=" +:+ option_string v]
        | None => []
        end ++ flags ++ [pod; "--"] ++ default [] (assoc_get "command" options)).
