(* ===== verification/KubeMethodsSpec.v ===== *)
(** * Kubernetes objects are created in order

    What [create] posts, and how checks of names and URLs of containers turn
    out. *)

From S2P Require Import Prelude Uri KubeLoader KubeMethods.
From stdpp Require Import sorting.
#[local] Open Scope Z_scope.

(** In the order of a preference. *)
Definition ascending (f : jval -> Z) (a b : jval) : Prop := f a <= f b.

#[local] Instance ascending_dec f a b : Decision (ascending f a b) := Z_le_dec (f a) (f b).

#[local] Instance ascending_trans f : Transitive (ascending f).
Proof. intros a b c. apply Z.le_trans. Qed.

#[local] Instance ascending_total f : Total (ascending f).
Proof. intros a b. apply Z.le_ge_cases. Qed.

Section Create.

(** What sorting is to do, stable or not. *)
Context (sort_by : (jval -> Z) -> list jval -> list jval) (server : string -> jval -> answer).
Hypothesis sort_perm : forall f l, sort_by f l ≡ₚ l.
Hypothesis sort_sorted : forall f l, StronglySorted (ascending f) (sort_by f l).

(** An answer after which creation goes on. *)
Definition goes_on (resource : jval) (a : answer) : bool :=
  match a with
  | ASuccess data => match data with JUndef | JNull => false | _ => true end
  | AFailure status data => ignored_failure resource status data
  end.

Lemma create_steps_spec namespace queue : forall k k' posts r,
  create_steps server namespace queue k = (k', posts, r) ->
  exists rest, queue = posts.*2 ++ rest /\
  (forall path o, (path, o) ∈ posts -> path = create_path namespace o) /\
  (r = CResolved -> rest = [] /\ forall path o, (path, o) ∈ posts -> goes_on o (server path o) = true) /\
  (forall data, r = CRejected data -> exists posts' path o status, posts = posts' ++ [(path, o)] /\
     server path o = AFailure status data /\ ignored_failure o status data = false) /\
  r <> CTypeError.
Proof.
  induction queue as [|o queue IH]; intros k k' posts r; cbn [create_steps].
  { intros [= <- <- <-]. exists []. split; [done|]. repeat split; try done; by intros ? ? ?%not_elem_of_nil. }
  set (path := create_path namespace o). set (inner := match server path o with ASuccess _ => _ | _ => _ end).
  destruct inner as [[k1 posts1] r1] eqn:Ei. intros [= -> <- ->].
  assert ((posts1 = [] /\ r = CUnsettled) \/
    (exists data status, posts1 = [] /\ r = CRejected data /\ server path o = AFailure status data /\ ignored_failure o status data = false) \/
    (exists k0, create_steps server namespace queue k0 = (k', posts1, r) /\ goes_on o (server path o) = true)) as Hcases.
  { unfold inner in Ei. unfold goes_on. destruct (server path o) as [data|status data].
    - destruct data; try (left; by injection Ei);
        (destruct (truthy (jget _ "kind")); [destruct (handle _ _ _ k) as [k0 [|]]; [left; by injection Ei|]|];
         right; right; eexists; (split; [exact Ei|done])).
    - destruct (ignored_failure o status data) eqn:Eg.
      + right; right. eexists. split; [exact Ei|done].
      + right; left. injection Ei as _ <- <-. by eexists _, _. }
  destruct Hcases as [[-> ->]|[(data & status & -> & -> & Hs & Hg)|(k0 & Hr & Hg)]].
  - exists queue. split; [done|]. split; [|done]. intros p o' [= -> ->]%list_elem_of_singleton. done.
  - exists queue. split; [done|]. split; [|split; [done|split; [|done]]].
    + intros p o' [= -> ->]%list_elem_of_singleton. done.
    + intros d [= <-]. by exists [], path, o, status.
  - destruct (IH _ _ _ _ Hr) as (rest & -> & Hp & Hres & Hrej & Ht). exists rest. split; [done|]. split; [|split; [|split; [|done]]].
    + intros p o' [[= -> ->]|H]%elem_of_cons; [done|by apply Hp].
    + intros E. destruct (Hres E) as [-> Hall]. split; [done|]. intros p o' [[= -> ->]|H]%elem_of_cons; [done|by apply Hall].
    + intros d E. destruct (Hrej d E) as (posts' & p & o' & st & -> & Hrest). exists ((path, o) :: posts'), p, o', st. done.
Qed.

(** C21. Creating objects posts them, with the namespace when it is missing, one
    after the other in the order of preference, each to the path of its kind.
    When all has been created, every object was posted and answered with success,
    or with a failure to create a namespace that may be ignored; and creation is
    rejected exactly with the failure of the last object posted. *)
Theorem create_in_order objects namespace k k' posts r l :
  objects_of objects = Some l -> r <> CTypeError ->
  createObjects sort_by server objects namespace k = (k', posts, r) ->
  exists rest,
    posts.*2 ++ rest ≡ₚ with_namespace namespace l /\
    StronglySorted (ascending preference) (posts.*2 ++ rest) /\
    (forall path o, (path, o) ∈ posts -> path = create_path namespace o) /\
    (r = CResolved -> rest = [] /\ forall path o, (path, o) ∈ posts -> goes_on o (server path o) = true) /\
    (forall data, r = CRejected data -> exists posts' path o status, posts = posts' ++ [(path, o)] /\
       server path o = AFailure status data /\ ignored_failure o status data = false).
Proof.
  intros Hl Hne. unfold createObjects. rewrite Hl. destruct (_ && _); [by intros [= _ _ <-]|].
  intros H. destruct (create_steps_spec _ _ _ _ _ _ H) as (rest & E & Hp & Hr & Hj & _).
  exists rest. rewrite <- E. split; [apply sort_perm|]. split; [apply sort_sorted|]. done.
Qed.

End Create.

Definition sort_example (f : jval -> Z) (l : list jval) : list jval := merge_sort (ascending f) l.

Definition ex_kind (kind name : string) : jval :=
  JObj [("kind", JStr kind); ("metadata", JObj [("name", JStr name)])].

Definition ex_server (path : string) (resource : jval) : answer :=
  if is_str (jget resource "kind") "Namespace" then AFailure (JNum 409) JUndef else ASuccess resource.

Lemma create_in_order_witness :
  let objects := JArr [ex_kind "Pod" "p"; ex_kind "Service" "s"] in
  let '(k, posts, r) := createObjects sort_example ex_server objects "ns" new_loader in
  posts.*1 = ["/api/v1/namespaces?timeout=120s"; "/api/v1/namespaces/ns/services?timeout=120s";
              "/api/v1/namespaces/ns/pods?timeout=120s"] /\ r = CResolved /\
  exists rest, StronglySorted (ascending preference) (posts.*2 ++ rest).
Proof.
  cbv zeta. destruct (createObjects _ _ _ _ _) as [[k posts] r] eqn:E.
  assert (r = CResolved) as Hr by (vm_compute in E; by injection E as _ _ <-).
  split; [vm_compute in E; injection E as _ <- _; reflexivity|]. split; [exact Hr|].
  destruct (create_in_order sort_example ex_server
    (fun f l => merge_sort_Permutation (ascending f) l)
    (fun f l => StronglySorted_merge_sort (ascending f) l)
    (JArr [ex_kind "Pod" "p"; ex_kind "Service" "s"]) "ns" new_loader k posts r
    [ex_kind "Pod" "p"; ex_kind "Service" "s"]) as (rest & _ & Hs & _).
  - reflexivity.
  - rewrite Hr. discriminate.
  - exact E.
  - exists rest. exact Hs.
Defined.

(** *** Examples *)

(** The kinds that can be created together are those of the schema. *)
Example create_unknown_kind :
  snd (createObjects sort_example ex_server (ex_kind "Secret" "s") "ns" new_loader) = CTypeError /\
  snd (createObjects sort_example ex_server (ex_kind "Secret" "s") "" new_loader) = CResolved.
Proof. vm_compute. split; reflexivity. Qed.

(** An object with a name that is encoded in its path is deleted, but stays in
    the loader until a watch tells. *)
Example deleted_object_stays :
  let image := ex_kind "Image" "a:b" in
  let k := fst (handle image false "" new_loader) in
  let '(k', q, r) := deleteResource (fun _ _ => ASuccess JNull) [JStr "images"; JStr "a:b"] k in
  (k_objects k).*1 = ["/oapi/v1/images/a:b"] /\ q_path q = "/oapi/v1/images/a%3Ab?timeout=120s" /\
  r = MDone /\ k_objects k' = k_objects k.
Proof. vm_compute. repeat split; reflexivity. Qed.

Example check_examples :
  checkResource (ex_kind "Pod" "my-pod.1") = [] /\ checkResource (ex_kind "Pod" "-x") = [BadName] /\
  checkResource (ex_kind "User" "a b=c@d") = [] /\ checkResource (ex_kind "Pod" "") = [EmptyName].
Proof. vm_compute. repeat split; reflexivity. Qed.

Example parser_example :
  parser "/api/v1/namespaces/ns/pods/my%2Fpod/exec?container=c&stdin=1&command=sh&command=-c" =
    Some ["kubectl"; "exec"; "--namespace=ns"; "--container=c"; "--stdin"; "my/pod"; "--"; "sh"; "-c"].
Proof. vm_compute. reflexivity. Qed.
