(* ===== verification/KubeConnect.v ===== *)
(** * Connecting to Kubernetes (src/pkg/kubernetes/scripts/kube-client-cockpit.js)

    The options of a connection from the configuration of kubectl, the responses
    of requests, and the search for a running API server. *)

From S2P Require Import Prelude Base64 Uri KubeLoader.

(** ** The configuration of kubectl *)

Section Config.

(** [JSON.parse]; the parts of a URL that the browser finds, and [atob]. *)
Record url_parts := mk_url { u_href : string; u_hostname : string; u_port : string; u_protocol : string }.

Context (JSON_parse : string -> option jval) (parse_url : string -> url_parts)
  (atob btoa : string -> string).

(** A certificate: what it is, or where. *)
Inductive cert := CertData (data : string) | CertFile (file : jval).

Definition parseCertOption (object : jval) (name : string) : option cert :=
  match jget object (name +:+ "-data") with
  | JUndef =>
      match jget object name with
      | JUndef => None
      | file => Some (CertFile file)
      end
  | blob => Some (CertData (atob (js_String blob)))
  end.

(** [unescape(encodeURIComponent(...))]: the bytes of the text. *)
Definition basicToken (user pass : string) : string :=
  btoa (of_bytes (unescape (encodeURIComponent (user +:+ ":" +:+ pass)))).

Record tls_options := mk_tls {
  t_authority : option cert; t_validate : bool; t_certificate : option cert; t_key : option cert }.

#[local] Instance tls_settable : Settable tls_options := fun t =>
  mk_tls (t_authority t) (t_validate t) (t_certificate t) (t_key t).

Record kube_options := mk_options {
  ko_port : option Z; ko_address : option string; ko_tls : option tls_options; ko_authorization : option string }.

#[local] Instance kube_options_settable : Settable kube_options := fun o =>
  mk_options (ko_port o) (ko_address o) (ko_tls o) (ko_authorization o).

Definition cluster_options (cluster : jval) (o : kube_options) : kube_options :=
  if truthy cluster && truthy (jget cluster "server") then
    let server := js_String (jget cluster "server") in
    let u := parse_url server in
    let o := if String.eqb (u_hostname u) "" then o else o <| ko_address := Some (u_hostname u) |> in
    let o := if String.eqb (u_port u) "" then o else o <| ko_port := parseInt (JStr (u_port u)) |> in
    if String.eqb (u_protocol u) "https:" then
      let o := if String.eqb (u_port u) "" || String.eqb (u_port u) "0"
               then o <| ko_port := Some (if String.eqb (u_href u) server then 6443 else 443) |> else o in
      o <| ko_tls := Some (mk_tls (parseCertOption cluster "certificate-authority")
                             (negb (truthy (jget cluster "insecure-skip-tls-verify"))) None None) |>
    else o
  else o.

(** [user["auth-provider"] || {}], whose tokens come before the user's. *)
Definition user_token (user : jval) : jval :=
  let config := jget (jget user "auth-provider") "config" in
  if truthy config then
    if truthy (jget config "access-token") then jget config "access-token"
    else if truthy (jget config "token") then jget config "token"
    else jget user "token"
  else jget user "token".

Definition user_options (user : jval) (o : kube_options) : kube_options :=
  if truthy user then
    let token := user_token user in
    let o := if truthy token then o <| ko_authorization := Some ("Bearer " +:+ js_String token) |> else o in
    let o := if truthy (jget user "username")
             then o <| ko_authorization := Some ("Basic " +:+ basicToken (js_String (jget user "username"))
                      (if truthy (jget user "password") then js_String (jget user "password") else "")) |>
             else o in
    o <| ko_tls ::= fmap (fun t => t <| t_certificate := parseCertOption user "client-certificate" |>
                                     <| t_key := parseCertOption user "client-key" |>) |>
  else o.

Definition generateKubeOptions (cluster user : jval) : kube_options :=
  user_options user (cluster_options cluster (mk_options (Some 8080) None None None)).

(** The last entry of an array of named things: its part [field]. *)
Definition find_named (entries name : jval) (field : string) : jval :=
  match entries with
  | JArr l =>
      foldl (fun found info =>
          if match jget info "name", name with
             | JStr a, JStr b => String.eqb a b
             | JNum a, JNum b => a =? b
             | JUndef, JUndef | JNull, JNull => true
             | _, _ => false
             end
          then jget info field else found) JUndef l
  | _ => JUndef
  end.

Definition parseKubeConfig (data : string) (contextName : jval) : option kube_options :=
  config ← JSON_parse data;
  let contextName := if truthy contextName then contextName else jget config "current-context" in
  let context := find_named (jget config "contexts") contextName "context" in
  let user := find_named (jget config "users") (jget context "user") "user" in
  let cluster := find_named (jget config "clusters") (jget context "cluster") "cluster" in
  Some (generateKubeOptions cluster user).

End Config.

#[export] Existing Instances tls_settable kube_options_settable.

(** ** Finding an API server *)

(** What a request for "/api" says. *)
Inductive api_answer := ApiVersions | ApiOther | ApiNotFound | ApiFailed (problem : string).

Inductive scheme := SOptions (o : kube_options) | SKubectl.

(** Where the connection comes from. *)
Inductive conn_type := TKubectl | TSessionData | TOpen.

Inductive discovered :=
  | DConnected (o : kube_options) (t : conn_type) | DNotFound | DProblem (problem : string)
  | DNever (* an exception in a handler: the promise is never settled *).

Section Discover.

(** Reading the configuration of kubectl, and the server. *)
Context (kubectl_read : option string) (parse_config : string -> option kube_options)
  (api : kube_options -> api_answer).

(** [step]: [current] are the options it is called with, and whether they come
    with a configuration; [kubectl] is set while its options are tried; [last]
    once there is a response. *)
Fixpoint step (schemes : list scheme) (current : option (kube_options * bool)) (kubectl last : bool) : discovered :=
  let try (o : kube_options) (configured : bool) (next : discovered) :=
    match api o with
    | ApiVersions => DConnected o (if configured then (if kubectl then TKubectl else TSessionData) else TOpen)
    | ApiOther | ApiNotFound => next
    | ApiFailed problem => DProblem problem
    end in
  let rest (last : bool) :=
    match schemes with
    | [] => if last then DNotFound else DNever
    | SOptions o :: schemes => step schemes (Some (o, false)) false last
    | SKubectl :: schemes =>
        match kubectl_read with
        | Some data =>
            match parse_config data with
            | Some o => step schemes (Some (o, true)) true last
            | None => step schemes None true last
            end
        | None => step schemes None true last
        end
    end in
  match current with
  | Some (o, configured) => try o configured (rest true)
  | None => rest last
  end.

Definition local_schemes : list scheme :=
  let tls := mk_tls None false None None in
  [SOptions (mk_options (Some 8080) None None None); SOptions (mk_options (Some 8443) None (Some tls) None);
   SOptions (mk_options (Some 6443) None (Some tls) None)].

(** How discovery is asked for. *)
Inductive force := FDefault | FKubectl | FOptions (o : kube_options).

Definition cockpitKubeDiscover (f : force) (loginData : option string) : discovered :=
  match f with
  | FOptions o => step [SOptions o] None false false
  | FKubectl => step [SKubectl] None false false
  | FDefault =>
      step (SKubectl :: local_schemes) ((fun o => (o, true)) <$> (loginData ≫= parse_config)) false false
  end.

End Discover.

(** ** The order of the search *)

Section Search.

Context (kubectl_read : option string) (parse_config : string -> option kube_options)
  (api : kube_options -> api_answer).

(** The first of the candidates that is an API server, or fails in another way
    than not being one. *)
Fixpoint first_server (candidates : list (kube_options * conn_type)) : discovered :=
  match candidates with
  | [] => DNotFound
  | (o, t) :: candidates =>
      match api o with
      | ApiVersions => DConnected o t
      | ApiOther | ApiNotFound => first_server candidates
      | ApiFailed problem => DProblem problem
      end
  end.

Definition configured (data : option string) (t : conn_type) : list (kube_options * conn_type) :=
  match data ≫= parse_config with Some o => [(o, t)] | None => [] end.

Definition local_candidates : list (kube_options * conn_type) :=
  omap (fun s => match s with SOptions o => Some (o, TOpen) | SKubectl => None end) local_schemes.

(** Discovery connects to the first API server among the one the login
    data tell of, the one kubectl is configured for and the local ports, in this
    order, and always settles; with given options it tries just these.  But when
    it is to use kubectl, and kubectl has no usable configuration, it never
    settles. *)
Theorem discover_order login o :
  cockpitKubeDiscover kubectl_read parse_config api FDefault login =
    first_server (configured login TSessionData ++ configured kubectl_read TKubectl ++ local_candidates) /\
  cockpitKubeDiscover kubectl_read parse_config api (FOptions o) login = first_server [(o, TOpen)] /\
  cockpitKubeDiscover kubectl_read parse_config api FKubectl login =
    match configured kubectl_read TKubectl with [] => DNever | l => first_server l end.
Proof.
  unfold configured. destruct kubectl_read as [data|]; cbn -[local_schemes]; [destruct (parse_config data) as [k|]|].
  all: split; [|split; [by cbn; destruct (api o)|cbn; try done; by destruct (api k)]].
  all: destruct login as [l|]; cbn; [destruct (parse_config l) as [lo|]; cbn|].
  all: repeat match goal with |- context [api ?x] => destruct (api x) eqn:?; cbn; try done end.
Qed.

End Search.
