(* ===== verification/NmUtils.v ===== *)
(** * Addresses of NetworkManager (src/pkg/networkmanager/utils.js)

    IPv4 addresses travel as 32 bit numbers in the byte order of the bus, IPv6
    addresses as base64 encoded bytes; both are shown and entered as text.  What
    is entered wrongly throws a message. *)

From S2P Require Import Prelude Numbers Base64 Uri Location LocationSpec Locale Text.

(** A value, or the message that is thrown. *)
Abbreviation result := (sum string).

#[global] Instance result_ret : MRet result := fun A x => inr x.
#[global] Instance result_bind : MBind result := fun A B f r => match r with inl e => inl e | inr x => f x end.

Fixpoint mapR {A B} (f : A -> result B) (l : list A) : result (list B) :=
  match l with [] => inr [] | x :: l => y ← f x; ys ← mapR f l; inr (y :: ys) end.

Section Utils.

(** The catalog of translations, and [byteorder == "be"]. *)
Context (st : locale_state) (be : bool).

Definition throw {A} (message text : string) : result A := inl (format_call (gettext st None message) [JStr text]).

(** ** Prefixes and metrics *)

Definition ip_prefix_to_text (num : Z) : string := pretty num.

Definition ip_prefix_from_text (text : string) : result (option Z) :=
  if digits_only (trim text) then inr (parseInt (JStr text)) else throw "Invalid prefix $0" text.

Definition ip_metric_to_text (num : Z) : string := pretty num.

Definition ip_metric_from_text (text : string) : result (option Z) :=
  if String.eqb text "" then inr (Some 0)
  else if digits_only (trim text) then inr (parseInt (JStr text)) else throw "Invalid metric $0" text.

(** ** IPv4 *)

(** [n] bytes, the lowest first. *)
Fixpoint low_bytes (n : nat) (num : Z) : list Z :=
  match n with O => [] | S n => js_and num 255 :: low_bytes n (js_ushr num 8) end.

Definition bytes_from_nm32 (num : Z) : list Z := if be then rev (low_bytes 4 num) else low_bytes 4 num.

Definition ip4_to_text (num : Z) (zero_is_empty : bool) : string :=
  if (num =? 0) && zero_is_empty then "" else str_join "." (map pretty (bytes_from_nm32 num)).

Definition invalid_address {A} (text : string) : result A := throw "Invalid address $0" text.

Definition ip4_part (text s : string) : result (option Z) :=
  if digits_only (trim s) then inr (parseInt (JStr s)) else invalid_address text.

(** [shift] for the bytes in turn. *)
Fixpoint shift_bytes (text : string) (bytes : list (option Z)) (num : Z) : result Z :=
  match bytes with
  | [] => inr num
  | Some b :: bytes => if (b <? 0) || (255 <? b) then invalid_address text else shift_bytes text bytes (256 * num + b)
  | None :: _ => invalid_address text
  end.

Definition ip4_from_text (text : string) (empty_is_zero : bool) : result Z :=
  if String.eqb text "" && empty_is_zero then inr 0
  else
    let parts := str_split "." text in
    if Nat.eqb (length parts) 4 then
      bytes ← mapR (ip4_part text) parts;
      shift_bytes text (if be then bytes else rev bytes) 0
    else invalid_address text.

(** The own keys of the table; the names that every object inherits are not
    numbers and are not looked up here. *)
Definition text_to_prefix_bits : gmap string Z :=
  {["255" := 8; "254" := 7; "252" := 6; "248" := 5; "240" := 4; "224" := 3; "192" := 2; "128" := 1; "0" := 0]}.

(** [/^0+$/]. *)
Definition zeros_only (s : string) : bool := negb (String.eqb s "") && str_forall (fun c => Ascii.eqb c "0") s.

(** The parts of a netmask: ones up to somewhere, zeros from there. *)
Fixpoint mask_bits (parts : list string) (prefix : Z) : option Z :=
  match parts with
  | [] => Some prefix
  | p :: parts =>
      match text_to_prefix_bits !! trim p with
      | Some bits =>
          if bits <? 8 then if forallb (fun p => zeros_only (trim p)) parts then Some (prefix + bits) else None
          else mask_bits parts (prefix + bits)
      | None => None
      end
  end.

Definition ip4_prefix_from_text (text : string) : result (option Z) :=
  if digits_only (trim text) then inr (parseInt (JStr text))
  else
    let parts := str_split "." text in
    let invalid := throw "Invalid prefix or netmask $0" text in
    if Nat.eqb (length parts) 4 then match mask_bits parts 0 with Some p => inr (Some p) | None => invalid end
    else invalid.

(** ** IPv6 *)

Definition hex_char (n : Z) : Ascii.ascii := chr (if n <? 10 then 48 + n else 87 + n).

(** [n.toString(16)], for numbers of at most 16 bits. *)
Fixpoint hex_digits (fuel : nat) (n : Z) (acc : string) : string :=
  match fuel with
  | O => acc
  | S fuel => if n <? 16 then String (hex_char n) acc else hex_digits fuel (n / 16) (String (hex_char (n mod 16)) acc)
  end.

Definition to_hex (n : Z) : string := hex_digits 8 n "".

(** [((bytes[2*i] << 8) + bytes[2*i+1]).toString(16)]; a missing byte gives
    NaN. *)
Definition ip6_group (bytes : list Z) (i : nat) : string :=
  match js_at bytes (2 * Z.of_nat i + 1) with
  | Some lo => to_hex (js_shl (default 0 (js_at bytes (2 * Z.of_nat i))) 8 + lo)
  | None => "NaN"
  end.

(** The strings of the bus are base64 encoded bytes; decoding can throw. *)
Definition ip6_to_text (data : string) (zero_is_empty : bool) : result string :=
  match base64_decode (bytes_of data) with
  | None => inl "RangeError"
  | Some bytes =>
      let result := str_join ":" (map (ip6_group bytes) (seq 0 8)) in
      inr (if String.eqb result "0:0:0:0:0:0:0:0" && zero_is_empty then "" else result)
  end.

Definition hex_value (c : Ascii.ascii) : option Z :=
  let n := ord c in
  if (48 <=? n) && (n <=? 57) then Some (n - 48)
  else if (97 <=? n) && (n <=? 102) then Some (n - 87)
  else if (65 <=? n) && (n <=? 70) then Some (n - 55)
  else None.

(** [/^[0-9a-fA-F]+$/]. *)
Definition hex_only (s : string) : bool :=
  negb (String.eqb s "") && str_forall (fun c => match hex_value c with Some _ => true | None => false end) s.

(** [parseInt(s, 16)] of hexadecimal digits with white space around. *)
Fixpoint parse_hex_loop (s : string) (acc : option Z) : option Z :=
  match s with
  | EmptyString => acc
  | String c s => match hex_value c with Some d => parse_hex_loop s (Some (16 * default 0 acc + d)) | None => acc end
  end.

Definition parse_hex (s : string) : option Z := parse_hex_loop (trim_left s) None.

(** The groups as they are filled in: [None] is the hole that the loop leaves
    after the zeros of an empty part. *)
Fixpoint ip6_groups (text : string) (missing : nat) (parts : list string) (empty_seen : bool)
    : result (list (option Z)) :=
  match parts with
  | [] => inr []
  | p :: parts =>
      if String.eqb p "" then
        if empty_seen then invalid_address text
        else rest ← ip6_groups text missing parts true; inr (replicate missing (Some 0) ++ None :: rest)
      else if negb (hex_only (trim p)) then invalid_address text
      else
        match parse_hex p with
        | Some n =>
            if (n <? 0) || (65535 <? n) then invalid_address text
            else rest ← ip6_groups text missing parts empty_seen; inr (Some n :: rest)
        | None => invalid_address text
        end
  end.

(** [parts[0]] and the last part may be empty. *)
Definition fix_first (parts : list string) : list string :=
  match parts with "" :: parts => "0" :: parts | _ => parts end.
Definition fix_ends (parts : list string) : list string := rev (fix_first (rev (fix_first parts))).

(** The encoder takes a hole for zero. *)
Definition group_bytes (g : option Z) : list Z :=
  match g with Some n => [js_shr n 8; js_and n 255] | None => [0; 0] end.

Definition encode64 (bytes : list Z) : string := of_bytes (base64_encode bytes).

Definition ip6_from_text (text : string) (empty_is_zero : bool) : result string :=
  if String.eqb text "" && empty_is_zero then inr (encode64 (replicate 16 0))
  else
    let parts := str_split ":" text in
    if Nat.ltb 8 (length parts) then invalid_address text
    else
      groups ← ip6_groups text (8 - length parts) (fix_ends parts) false;
      if Nat.eqb (length groups) 8 then inr (encode64 (concat (map group_bytes groups)))
      else invalid_address text.

End Utils.
