(* ===== verification/NmUtilsSpec.v ===== *)
(** * Addresses survive being shown and entered

    Round trips of the conversions of [NmUtils.v]. *)

From S2P Require Import Prelude Numbers Base64 Uri Location LocationSpec Locale Text NmUtils.

(** ** Splitting what was joined *)

Lemma split_join_strings c l :
  l <> [] -> Forall (fun s => str_mem c s = false) l -> str_split c (str_join (String c "") l) = l.
Proof.
  intros Hne Hl. apply str_split_join; [done|]. eapply Forall_impl; [exact Hl|].
  intros s Hs Hin%str_mem_bytes. congruence.
Qed.

Lemma joined_nonempty c l :
  (2 <= length l)%nat -> Forall (fun s => str_mem c s = false) l -> String.eqb (str_join (String c "") l) "" = false.
Proof.
  intros Hl Hf. apply String.eqb_neq. intros E.
  pose proof (split_join_strings c l ltac:(destruct l; [cbn in Hl; lia|done]) Hf) as H. rewrite E in H.
  rewrite <- H in Hl. cbn in Hl. lia.
Qed.

Lemma mapR_map {A B C} (f : B -> result C) (g : A -> B) (h : A -> C) l :
  Forall (fun x => f (g x) = inr (h x)) l -> mapR f (map g l) = inr (map h l).
Proof. induction 1 as [|x l Hx _ IH]; [done|]. cbn. rewrite Hx. cbn. by rewrite IH. Qed.

Section Roundtrip.

Context (st : locale_state) (be : bool).

(** ** Numbers *)

Lemma digits_text (n : Z) : 0 <= n -> digits_only (trim (pretty n)) = true.
Proof. intros Hn. pose proof (pretty_digits_only n Hn). by rewrite trim_digits. Qed.

Lemma prefix_roundtrip n : 0 <= n -> ip_prefix_from_text st (ip_prefix_to_text n) = inr (Some n).
Proof. intros Hn. unfold ip_prefix_from_text, ip_prefix_to_text. by rewrite digits_text, parse_pretty. Qed.

Lemma ip4_prefix_roundtrip n : 0 <= n -> ip4_prefix_from_text st (ip_prefix_to_text n) = inr (Some n).
Proof. intros Hn. unfold ip4_prefix_from_text, ip_prefix_to_text. by rewrite digits_text, parse_pretty. Qed.

Lemma metric_roundtrip n : 0 <= n -> ip_metric_from_text st (ip_metric_to_text n) = inr (Some n).
Proof.
  intros Hn. unfold ip_metric_from_text, ip_metric_to_text. rewrite digits_text, parse_pretty by done.
  pose proof (pretty_digits_only n Hn) as H. unfold digits_only in H. by destruct (String.eqb (pretty n) "").
Qed.

(** ** IPv4 *)

Lemma js_and_255 n : js_and n 255 = n mod 256.
Proof. change 255 with (Z.ones 8). by rewrite js_and_ones by lia. Qed.

Definition quad (a b c d : Z) : Z := a + 256 * (b + 256 * (c + 256 * d)).

Lemma low_bytes_quad n : 0 <= n < 2 ^ 32 -> exists a b c d,
  low_bytes 4 n = [a; b; c; d] /\ n = quad a b c d /\ Forall (fun x => 0 <= x <= 255) [a; b; c; d].
Proof.
  intros Hn. cbn [low_bytes]. rewrite !js_and_255.
  assert (forall a, 0 <= a < 2 ^ 32 -> js_ushr a 8 = a / 256) as Hs.
  { intros a Ha. by rewrite js_ushr_small by lia. }
  rewrite !Hs by euclid.
  eexists _, _, _, _. split; [done|]. unfold quad.
  split; [euclid|]. repeat constructor; euclid.
Qed.

Lemma byte_part text x : 0 <= x <= 255 -> ip4_part st text (pretty x) = inr (Some x).
Proof. intros Hx. unfold ip4_part. by rewrite digits_text, parse_pretty by lia. Qed.

Lemma shift_ok text l : Forall (fun x => 0 <= x <= 255) l -> forall num,
  shift_bytes st text (map Some l) num = inr (foldl (fun n b => 256 * n + b) num l).
Proof.
  induction 1 as [|x l Hx _ IH]; intros num; [done|]. cbn.
  destruct (Z.ltb_spec x 0), (Z.ltb_spec 255 x); try lia. apply IH.
Qed.

(** The text of four bytes is read back as their number. *)
Lemma ip4_bytes_roundtrip l z :
  length l = 4%nat -> Forall (fun x => 0 <= x <= 255) l ->
  ip4_from_text st be (str_join "." (map pretty l)) z =
    inr (foldl (fun n b => 256 * n + b) 0 (if be then l else rev l)).
Proof.
  intros Hl Hb. unfold ip4_from_text.
  assert (Forall (fun s => str_mem "." s = false) (map pretty l)) as Hd.
  { apply Forall_map. eapply Forall_impl; [exact Hb|]. intros x [Hx _]. by apply pretty_no_char. }
  rewrite (joined_nonempty "."); [|rewrite length_map, Hl; lia|exact Hd].
  cbn [andb]. rewrite split_join_strings by (by destruct l).
  rewrite length_map, Hl. cbn [Nat.eqb].
  rewrite (mapR_map _ pretty Some) by (eapply Forall_impl; [exact Hb|]; intros x Hx; by apply byte_part).
  cbn [mbind result_bind]. destruct be.
  - by apply shift_ok.
  - rewrite <- map_rev. apply shift_ok. by apply Forall_rev.
Qed.

Lemma mapR_length {A B} (f : A -> result B) l : forall r, mapR f l = inr r -> length r = length l.
Proof.
  induction l as [|x l IH]; cbn; intros r; [by intros [= <-]|].
  destruct (f x) as [|y]; [done|]. cbn. destruct (mapR f l) as [|ys]; [done|]. intros [= <-]. cbn. by rewrite IH.
Qed.

Lemma shift_range text bytes : forall num n k, 0 <= num < 256 ^ k -> 0 <= k ->
  shift_bytes st text bytes num = inr n -> 0 <= n < 256 ^ (k + Z.of_nat (length bytes)).
Proof.
  induction bytes as [|[b|] bytes IH]; intros num n k Hn Hk; cbn [shift_bytes length]; [|..|done].
  - intros [= <-]. by rewrite Z.add_0_r.
  - destruct (Z.ltb_spec b 0), (Z.ltb_spec 255 b); cbn [orb]; try done.
    intros H'%(IH _ _ (k + 1)); [|rewrite Z.pow_add_r by lia; lia|lia].
    by replace (k + Z.of_nat (S (length bytes))) with (k + 1 + Z.of_nat (length bytes)) by lia.
Qed.

(** An IPv4 address of the bus, shown as text in either byte order, is entered
    as the same address; and what can be entered is an address. *)
Lemma ip4_survives :
  (forall n z, 0 <= n < 2 ^ 32 -> ip4_from_text st be (ip4_to_text be n z) z = inr n) /\
  (forall text z n, ip4_from_text st be text z = inr n -> 0 <= n < 2 ^ 32).
Proof.
  split.
  - intros n z Hn. unfold ip4_to_text. destruct ((n =? 0) && z) eqn:Ez.
    { apply andb_true_iff in Ez as [->%Z.eqb_eq ->]. done. }
    destruct (low_bytes_quad n Hn) as (a & b & c & d & E & -> & Hb). unfold bytes_from_nm32.
    rewrite E, ip4_bytes_roundtrip.
    + destruct be; cbn; unfold quad; f_equal; ring.
    + by destruct be.
    + destruct be; [by apply Forall_rev|done].
  - intros text z n. unfold ip4_from_text. destruct (_ && _); [by intros [= <-]|].
    destruct (Nat.eqb _ 4) eqn:El; [|done]. apply Nat.eqb_eq in El.
    destruct (mapR (ip4_part st text) _) as [|bytes] eqn:Em; [done|]. cbn.
    apply mapR_length in Em. rewrite El in Em. clear El.
    assert (length (if be then bytes else rev bytes) = 4%nat) as Hl by (destruct be; rewrite ?length_rev; done).
    intros H. apply (shift_range text _ 0 n 0) in H; [|lia|lia]. rewrite Hl in H. exact H.
Qed.

(** Netmasks count as their prefixes. *)
Lemma netmask_prefix p : (p <= 32)%nat ->
  ip4_prefix_from_text st (ip4_to_text true (2 ^ 32 - 2 ^ (32 - Z.of_nat p)) false) = inr (Some (Z.of_nat p)).
Proof. intros Hp. do 33 (destruct p as [|p]; [vm_compute; reflexivity|]). lia. Qed.

(** ** IPv6 *)

Lemma hex_char_value d : 0 <= d < 16 ->
  hex_value (hex_char d) = Some d /\ Ascii.eqb (hex_char d) ":" = false /\ is_space (hex_char d) = false.
Proof.
  intros Hd. assert (d ∈ seqZ 0 16) as H by (apply elem_of_seqZ; lia). clear Hd. vm_compute in H.
  repeat (apply elem_of_cons in H as [->|H]; [vm_compute; by repeat split|]). by apply not_elem_of_nil in H.
Qed.

(** What printing a number does: its digits in front of [acc]. *)
Lemma hex_digits_spec p fuel : forall n acc,
  (forall d, 0 <= d < 16 -> p (hex_char d) = true) -> 0 <= n < 16 ^ Z.of_nat fuel -> (0 < fuel)%nat ->
  parse_hex_loop (hex_digits fuel n acc) None = parse_hex_loop acc (Some n) /\
  str_forall p (hex_digits fuel n acc) = str_forall p acc /\ hex_digits fuel n acc <> "".
Proof.
  induction fuel as [|fuel IH]; intros n acc Hp Hn Hf; [lia|]. cbn [hex_digits].
  destruct (Z.ltb_spec n 16) as [Hlt|Hge].
  - destruct (hex_char_value n ltac:(lia)) as (Hv & _). cbn. by rewrite Hv, Hp by lia.
  - replace (Z.of_nat (S fuel)) with (Z.succ (Z.of_nat fuel)) in Hn by lia.
    rewrite Z.pow_succ_r in Hn by lia. assert (0 <= n mod 16 < 16) as Hm by euclid.
    destruct fuel as [|fuel]; [cbn in Hn; lia|].
    destruct (IH (n / 16) (String (hex_char (n mod 16)) acc) Hp ltac:(euclid) ltac:(lia)) as (H1 & H2 & H3).
    rewrite H1, H2. split; [|split; [|done]].
    + cbn. destruct (hex_char_value (n mod 16) Hm) as (Hv & _). rewrite Hv. do 2 f_equal. euclid.
    + cbn. by rewrite Hp.
Qed.

Lemma hex_text n : 0 <= n < 65536 ->
  parse_hex (to_hex n) = Some n /\ hex_only (trim (to_hex n)) = true /\ str_mem ":" (to_hex n) = false /\ to_hex n <> "".
Proof.
  intros Hn. unfold to_hex. assert (0 <= n < 16 ^ Z.of_nat 8) as Hn' by (change (16 ^ Z.of_nat 8) with 4294967296; lia).
  destruct (hex_digits_spec (fun c => negb (is_space c)) 8 n "") as (H1 & H2 & H3); [|exact Hn'|lia|].
  { intros d Hd. by destruct (hex_char_value d Hd) as (_ & _ & ->). }
  destruct (hex_digits_spec (fun c => match hex_value c with Some _ => true | None => false end) 8 n "") as (_ & H4 & _); [|exact Hn'|lia|].
  { intros d Hd. by destruct (hex_char_value d Hd) as (-> & _). }
  destruct (hex_digits_spec (fun c => negb (Ascii.eqb c ":")) 8 n "") as (_ & H5 & _); [|exact Hn'|lia|].
  { intros d Hd. by destruct (hex_char_value d Hd) as (_ & -> & _). }
  rewrite trim_no_space by done. split; [|split; [|split; [|done]]].
  - unfold parse_hex. replace (trim_left _) with (hex_digits 8 n ""); [exact H1|].
    destruct (hex_digits 8 n "") as [|c s]; [done|]. cbn in *. by destruct (is_space c).
  - unfold hex_only. rewrite H4. apply String.eqb_neq in H3. by rewrite H3.
  - by eapply str_forall_mem; [exact H5|].
Qed.

Lemma ip6_groups_ok text missing l seen :
  Forall (fun n => 0 <= n < 65536) l -> ip6_groups st text missing (map to_hex l) seen = inr (map Some l).
Proof.
  induction 1 as [|n l Hn _ IH]; [done|]. cbn [map ip6_groups].
  destruct (hex_text n Hn) as (H1 & H2 & _ & H4%String.eqb_neq). rewrite H4, H2, H1. cbn [negb].
  destruct (Z.ltb_spec n 0), (Z.ltb_spec 65535 n); try lia. cbn [orb]. rewrite IH. done.
Qed.

Lemma fix_first_ok l : Forall (fun s => s <> "") l -> fix_first l = l.
Proof. intros H. destruct l as [|[|c s] l]; try done. by apply Forall_cons in H as [H _]. Qed.

(** The text of eight groups is read back. *)
Lemma ip6_text_groups l z :
  length l = 8%nat -> Forall (fun n => 0 <= n < 65536) l ->
  ip6_from_text st (str_join ":" (map to_hex l)) z = inr (encode64 (concat (map (fun n => group_bytes (Some n)) l))).
Proof.
  intros Hl Hn. unfold ip6_from_text.
  assert (Forall (fun s => str_mem ":" s = false) (map to_hex l)) as Hd.
  { apply Forall_map. eapply Forall_impl; [exact Hn|]. intros x Hx. by apply hex_text. }
  assert (Forall (fun s => s <> "") (map to_hex l)) as He.
  { apply Forall_map. eapply Forall_impl; [exact Hn|]. intros x Hx. by apply hex_text. }
  rewrite (joined_nonempty ":"); [|rewrite length_map, Hl; lia|exact Hd]. cbn [andb].
  rewrite split_join_strings by (try done; by destruct l). rewrite length_map, Hl. cbn [Nat.ltb Nat.leb].
  unfold fix_ends. rewrite (fix_first_ok (map to_hex l)) by done.
  rewrite fix_first_ok, rev_involutive by (by apply Forall_rev). rewrite ip6_groups_ok by done.
  cbn [mbind result_bind]. rewrite length_map, Hl. cbn [Nat.eqb]. by rewrite map_map.
Qed.

Lemma group_shift hi lo : 0 <= hi < 256 -> 0 <= lo < 256 ->
  js_shl hi 8 + lo = hi * 256 + lo /\ group_bytes (Some (hi * 256 + lo)) = [hi; lo].
Proof.
  intros Hh Hlo. rewrite js_shl_small by lia. change (2 ^ 8) with 256. split; [lia|].
  cbn. rewrite js_shr_small, js_and_255 by lia. change (2 ^ 8) with 256. do 2 f_equal; [euclid|f_equal; euclid].
Qed.

Lemma group_ok bytes i hi lo :
  0 <= hi < 256 -> 0 <= lo < 256 -> js_at bytes (2 * Z.of_nat i) = Some hi -> js_at bytes (2 * Z.of_nat i + 1) = Some lo ->
  ip6_group bytes i = to_hex (hi * 256 + lo).
Proof. intros Hh Hl E1 E2. unfold ip6_group. rewrite E1, E2. f_equal. by apply (group_shift hi lo). Qed.

Lemma b64char_byte n : 0 <= n < 64 -> is_byte (b64char n).
Proof. intros Hn. unfold b64char, uint6_to_b64, is_byte. repeat case_match; lia. Qed.

Lemma encoded_bytes l : Forall is_byte l -> Forall is_byte (base64_encode l).
Proof.
  intros Hl. rewrite encode_is_rfc by done. revert Hl. unfold is_byte.
  induction l as [|a|a b|a b c l IH] using list3_ind; intros Hl;
    repeat match goal with H : Forall _ (_ :: _) |- _ => apply Forall_cons in H as [? H] end;
    cbn [rfc_encode]; [done|..].
  - repeat (apply Forall_cons; split); try done; try (apply b64char_byte; euclid); lia.
  - repeat (apply Forall_cons; split); try done; try (apply b64char_byte; euclid); lia.
  - apply Forall_app. split; [|auto]. unfold group3.
    repeat (apply Forall_cons; split); try done; apply b64char_byte; euclid.
Qed.

Lemma encode_length16 l : Forall is_byte l -> length l = 16%nat -> zlen (base64_encode l) * 3 + 1 < 2 ^ 31.
Proof.
  intros Hb Hl. rewrite encode_is_rfc, rfc_encode_length by done. unfold zlen. rewrite Hl. reflexivity.
Qed.

(** An IPv6 address of the bus, sixteen bytes in base64, shown as text, is
    entered as the same address. *)
Lemma ip6_survives data z :
  length data = 16%nat -> Forall is_byte data ->
  (text ← ip6_to_text (encode64 data) z; ip6_from_text st text z) = inr (encode64 data).
Proof.
  intros Hl Hb. unfold ip6_to_text, encode64.
  rewrite bytes_of_of by (by apply encoded_bytes). rewrite decode_encode; [|done|by apply encode_length16].
  assert (exists l, map (ip6_group data) (seq 0 8) = map to_hex l /\ length l = 8%nat /\
    Forall (fun n => 0 <= n < 65536) l /\ concat (map (fun n => group_bytes (Some n)) l) = data) as (l & El & H8 & Hn & Ed).
  { do 16 (destruct data as [|? data]; [done|]). destruct data; [|done]. unfold is_byte in Hb.
    repeat match goal with H : Forall _ (_ :: _) |- _ => apply Forall_cons in H as [? H] end.
    eexists [_; _; _; _; _; _; _; _]. cbn [map seq].
    do 8 (erewrite group_ok; [|..|reflexivity|reflexivity]; [|done..]).
    split; [done|]. split; [done|]. split; [repeat constructor; lia|].
    cbn [map concat]. rewrite !(fun a b Ha Hb => proj2 (group_shift a b Ha Hb)) by done. done. }
  cbn [mbind result_bind]. rewrite El.
  destruct (String.eqb _ _ && z) eqn:Ez; [|by rewrite ip6_text_groups, Ed].
  apply andb_true_iff in Ez as [E%String.eqb_eq ->].
  pose proof (ip6_text_groups l true H8 Hn) as H. rewrite E in H. rewrite Ed in H. etransitivity; [|exact H]. vm_compute. reflexivity.
Qed.

(** C22. Addresses survive being shown and entered: an IPv4 address in either
    byte order, and the sixteen bytes of an IPv6 address; a netmask is read as
    the length of its prefix; and whatever is accepted as an IPv4 address is a
    number of 32 bits. *)
Theorem address_roundtrip :
  (forall n z, 0 <= n < 2 ^ 32 -> ip4_from_text st be (ip4_to_text be n z) z = inr n) /\
  (forall text z n, ip4_from_text st be text z = inr n -> 0 <= n < 2 ^ 32) /\
  (forall p, (p <= 32)%nat ->
    ip4_prefix_from_text st (ip4_to_text true (2 ^ 32 - 2 ^ (32 - Z.of_nat p)) false) = inr (Some (Z.of_nat p))) /\
  (forall data z, length data = 16%nat -> Forall is_byte data ->
    (text ← ip6_to_text (encode64 data) z; ip6_from_text st text z) = inr (encode64 data)).
Proof. destruct ip4_survives as [H1 H2]. exact (conj H1 (conj H2 (conj netmask_prefix ip6_survives))). Qed.

End Roundtrip.

Lemma address_roundtrip_witness :
  let data := [254; 128; 0; 0; 0; 0; 0; 0; 0; 0; 0; 0; 0; 0; 255; 1] in
  ip6_to_text (encode64 data) false = inr "fe80:0:0:0:0:0:0:ff01" /\
  (text ← ip6_to_text (encode64 data) false; ip6_from_text initial_locale text false) = inr (encode64 data).
Proof.
  split; [vm_compute; reflexivity|]. apply (proj2 (proj2 (proj2 (address_roundtrip initial_locale false)))); [reflexivity|].
  unfold is_byte. repeat constructor; lia.
Defined.
