(* ===== verification/NmSettings.v ===== *)
(** * Connection settings (src/pkg/networkmanager/interfaces.js)

    The settings of a connection as they come from the bus, sections of keys
    with variants, are turned into the record that the pages show and edit
    ([settings_from_nm]); an edited record is merged into the settings it was
    made from and sent back ([settings_to_nm]). *)

From S2P Require Import Prelude Base64 Locale Text NmUtils.

(** [cockpit.variant(t, v)]. *)
Record variant := MkVariant { t : string; v : jval }.

Abbreviation section := (gmap string variant).
Abbreviation nm_settings := (gmap string section).

(** What the pages see.  A field without value is undefined. *)
Record connection_part := ConnectionPart {
  c_type : jval; c_uuid : jval; c_interface_name : jval; c_timestamp : jval; c_id : jval;
  c_autoconnect : jval; c_autoconnect_slaves : jval; c_slave_type : jval; c_master : jval }.
Record ip_part := IpPart {
  method : jval; ignore_auto_dns : jval; ignore_auto_routes : jval; addresses : option (list (list string));
  dns : option (list string); dns_search : jval; routes : option (list (list string)) }.
Record ethernet_part := EthernetPart { mtu : jval; assigned_mac_address : jval }.
Record bond_part := BondPart { bond_options : jval; bond_interface_name : jval }.
Record team_part := TeamPart { team_config : jval; team_interface_name : jval }.
Record bridge_part := BridgePart {
  bridge_interface_name : jval; stp : jval; bridge_priority : jval; forward_delay : jval; hello_time : jval;
  max_age : jval; ageing_time : jval }.
Record bridge_port_part := BridgePortPart { port_priority : jval; path_cost : jval; hairpin_mode : jval }.
Record vlan_part := VlanPart { vlan_parent : jval; vlan_id : jval; vlan_interface_name : jval }.

Record settings := Settings {
  connection : connection_part; ipv4 : option ip_part; ipv6 : option ip_part; ethernet : option ethernet_part;
  bond : option bond_part; team : option team_part; team_port : option jval; bridge : option bridge_part;
  bridge_port : option bridge_port_part; vlan : option vlan_part }.

Section Convert.

Context (st : locale_state) (be : bool).
(** [JSON.parse] ([None] throws) and [JSON.stringify] of a value that is not
    undefined. *)
Context (JSON_parse : string -> option jval) (JSON_stringify : jval -> string).

(** ** Addresses and routes

    A value of the bus that does not have the type its property is documented
    to have is answered by [ill_typed] here; the code then shows some text or
    throws. *)

Definition ill_typed {A} : result A := inl "TypeError".

Definition ip4_address_from_nm (addr : jval) : result (list string) :=
  match addr with
  | JArr (JNum a :: JNum p :: JNum g :: _) => inr [ip4_to_text be a false; ip_prefix_to_text p; ip4_to_text be g true]
  | _ => ill_typed
  end.

Definition ip4_route_from_nm (addr : jval) : result (list string) :=
  match addr with
  | JArr (JNum a :: JNum p :: JNum g :: JNum m :: _) =>
      inr [ip4_to_text be a false; ip_prefix_to_text p; ip4_to_text be g true; ip_metric_to_text m]
  | _ => ill_typed
  end.

Definition ip6_address_from_nm (addr : jval) : result (list string) :=
  match addr with
  | JArr (JStr a :: JNum p :: JStr g :: _) =>
      a ← ip6_to_text a false; g ← ip6_to_text g true; inr [a; ip_prefix_to_text p; g]
  | _ => ill_typed
  end.

(** The metric is made from [addr[1]]. *)
Definition ip6_route_from_nm (addr : jval) : result (list string) :=
  match addr with
  | JArr (JStr a :: JNum p :: JStr g :: _) =>
      a ← ip6_to_text a false; g ← ip6_to_text g true; inr [a; ip_prefix_to_text p; g; ip_metric_to_text p]
  | _ => ill_typed
  end.

(** [Array.map] calls its function with the index of the element behind the
    element.  The functions above have one parameter; those for a single address
    ([utils.ip4_to_text], [ip4_from_text] and their like for IPv6) have a second,
    a flag, which gets the index: false for the first element and true for the
    others. *)
Fixpoint map_indexed {A B} (f : A -> Z -> result B) (index : Z) (l : list A) : result (list B) :=
  match l with
  | [] => inr []
  | x :: l => y ← f x index; ys ← map_indexed f (index + 1) l; inr (y :: ys)
  end.

Definition truthy_index (index : Z) : bool := negb (index =? 0).

Definition ip4_from_nm (ip : jval) (index : Z) : result string :=
  match ip with JNum n => inr (ip4_to_text be n (truthy_index index)) | _ => ill_typed end.
Definition ip6_from_nm (ip : jval) (index : Z) : result string :=
  match ip with JStr s => ip6_to_text s (truthy_index index) | _ => ill_typed end.

(** NaN travels as null. *)
Definition number (n : option Z) : jval := match n with Some n => JNum n | None => JNull end.

Definition ip4_address_to_nm (addr : list string) : result jval :=
  match addr with
  | a :: p :: g :: _ =>
      a ← ip4_from_text st be a false; p ← ip4_prefix_from_text st p; g ← ip4_from_text st be g true;
      inr (JArr [JNum a; number p; JNum g])
  | _ => ill_typed
  end.

Definition ip4_route_to_nm (addr : list string) : result jval :=
  match addr with
  | a :: p :: g :: m :: _ =>
      a ← ip4_from_text st be a false; p ← ip4_prefix_from_text st p; g ← ip4_from_text st be g true;
      m ← ip_metric_from_text st m; inr (JArr [JNum a; number p; JNum g; number m])
  | _ => ill_typed
  end.

(** [parseInt(addr[1], 10) || 64]. *)
Definition prefix_or_64 (p : string) : Z :=
  match parseInt (JStr p) with Some n => if n =? 0 then 64 else n | None => 64 end.

Definition ip6_address_to_nm (addr : list string) : result jval :=
  match addr with
  | a :: p :: g :: _ =>
      a ← ip6_from_text st a false; g ← ip6_from_text st g true; inr (JArr [JStr a; JNum (prefix_or_64 p); JStr g])
  | _ => ill_typed
  end.

Definition ip6_route_to_nm (addr : list string) : result jval :=
  match addr with
  | a :: p :: g :: m :: _ =>
      a ← ip6_from_text st a false; p ← ip_prefix_from_text st p; g ← ip6_from_text st g true;
      m ← ip_metric_from_text st m; inr (JArr [JStr a; number p; JStr g; number m])
  | _ => ill_typed
  end.

Definition ip4_to_nm (ip : string) (index : Z) : result jval :=
  n ← ip4_from_text st be ip (truthy_index index); inr (JNum n).
Definition ip6_to_nm (ip : string) (index : Z) : result jval :=
  s ← ip6_from_text st ip (truthy_index index); inr (JStr s).

(** ** From the bus *)

Definition get (settings : nm_settings) (first second : string) (def : jval) : jval :=
  match settings !! first with
  | Some section => match section !! second with Some variant => v variant | None => def end
  | None => def
  end.

(** [map] is [mapR f] or [map_indexed f 0]. *)
Definition map_array {A} (map : list jval -> result (list A)) (l : jval) : result (list A) :=
  match l with JArr l => map l | _ => ill_typed end.

Definition get_ip (settings : nm_settings) (first : string) (addr_from_nm route_from_nm : jval -> result (list string))
    (ip_to_text : jval -> Z -> result string) : result ip_part :=
  addresses ← map_array (mapR addr_from_nm) (get settings first "addresses" (JArr []));
  dns ← map_array (map_indexed ip_to_text 0) (get settings first "dns" (JArr []));
  routes ← map_array (mapR route_from_nm) (get settings first "routes" (JArr []));
  inr (IpPart (get settings first "method" (JStr "auto")) (get settings first "ignore-auto-dns" (JBool false))
    (get settings first "ignore-auto-routes" (JBool false)) (Some addresses) (Some dns)
    (get settings first "dns-search" (JArr [])) (Some routes)).

Definition get_connection (settings : nm_settings) : connection_part :=
  let get := get settings "connection" in
  ConnectionPart (get "type" JUndef) (get "uuid" JUndef) (get "interface-name" JUndef) (get "timestamp" (JNum 0))
    (get "id" (JStr (gettext st None "Unknown"))) (get "autoconnect" (JBool true)) (get "autoconnect-slaves" (JNum (-1)))
    (get "slave-type" JUndef) (get "master" JUndef).

(** [$.extend({}, o)] of an object. *)
Definition extend_new (o : jval) : jval :=
  match o with
  | JObj fields => JObj (List.filter (fun '(_, x) => match x with JUndef => false | _ => true end) fields)
  | _ => JObj []
  end.

Definition JSON_parse_carefully (str : jval) : jval := default JNull (JSON_parse (js_String str)).

Definition has (settings : nm_settings) (first : string) : bool := bool_decide (is_Some (settings !! first)).

Definition part_if {A} (b : bool) (x : A) : option A := if b then Some x else None.

Definition get_bridge (settings : nm_settings) : bridge_part :=
  let get := get settings "bridge" in
  BridgePart (get "interface-name" JUndef) (get "stp" (JBool true)) (get "priority" (JNum 32768))
    (get "forward-delay" (JNum 15)) (get "hello-time" (JNum 2)) (get "max-age" (JNum 20)) (get "ageing-time" (JNum 300)).

Definition get_bridge_port (settings : nm_settings) : bridge_port_part :=
  let get := get settings "bridge-port" in
  BridgePortPart (get "priority" (JNum 32)) (get "path-cost" (JNum 100)) (get "hairpin-mode" (JBool false)).

Definition settings_from_nm (n : nm_settings) : result settings :=
  match n !! "connection" with
  | None => inl "TypeError"
  | Some c =>
      let result := get_connection n in
      let free := negb (bool_decide (is_Some (c !! "master"))) in
      ipv4 ← (if free then ip ← get_ip n "ipv4" ip4_address_from_nm ip4_route_from_nm ip4_from_nm; inr (Some ip)
              else inr None);
      ipv6 ← (if free then ip ← get_ip n "ipv6" ip6_address_from_nm ip6_route_from_nm ip6_from_nm; inr (Some ip)
              else inr None);
      inr (Settings result ipv4 ipv6
        (part_if (has n "802-3-ethernet")
          (EthernetPart (get n "802-3-ethernet" "mtu" JUndef) (get n "802-3-ethernet" "assigned-mac-address" JUndef)))
        (part_if (has n "bond") (BondPart (extend_new (get n "bond" "options" (JObj []))) (get n "bond" "interface-name" JUndef)))
        (part_if (has n "team")
          (TeamPart (JSON_parse_carefully (get n "team" "config" (JStr "{}"))) (get n "team" "interface-name" JUndef)))
        (part_if (has n "team-port" || is_str (c_slave_type result) "team")
          (JSON_parse_carefully (get n "team-port" "config" (JStr "{}"))))
        (part_if (has n "bridge") (get_bridge n))
        (part_if (has n "bridge-port" || is_str (c_slave_type result) "bridge") (get_bridge_port n))
        (part_if (has n "vlan")
          (VlanPart (get n "vlan" "parent" JUndef) (get n "vlan" "id" JUndef) (get n "vlan" "interface-name" JUndef))))
  end.

(** ** To the bus *)

(** No call gives a default. *)
Definition set (first second sig : string) (val : jval) (result : nm_settings) : nm_settings :=
  let result := match result !! first with Some _ => result | None => <[first := ∅]> result end in
  match val with
  | JUndef => alter (delete second) first result
  | _ => alter <[second := MkVariant sig val]> first result
  end.

(** The calls of [set] for a section, in order. *)
Definition set_all (first : string) (l : list (string * string * jval)) (result : nm_settings) : nm_settings :=
  foldl (fun result '(second, sig, val) => set first second sig val result) result l.

(** [if (list) set(first, second, sig, list.map(f))], [map] as above. *)
Definition set_list {A} (first second sig : string) (map : list A -> result (list jval)) (list : option (list A))
    (r : nm_settings) : result nm_settings :=
  match list with Some l => l ← map l; inr (set first second sig (JArr l) r) | None => inr r end.

Definition set_ip (ip : ip_part) (first addrs_sig : string) (addr_to_nm : list string -> result jval) (routes_sig : string)
    (route_to_nm : list string -> result jval) (ips_sig : string) (ip_from_text : string -> Z -> result jval) (r : nm_settings)
    : result nm_settings :=
  let r := set_all first [("method", "s", method ip); ("ignore-auto-dns", "b", ignore_auto_dns ip);
                          ("ignore-auto-routes", "b", ignore_auto_routes ip)] r in
  r ← set_list first "addresses" addrs_sig (mapR addr_to_nm) (addresses ip) r;
  r ← set_list first "dns" ips_sig (map_indexed ip_from_text 0) (dns ip) r;
  let r := set first "dns-search" "as" (dns_search ip) r in
  r ← set_list first "routes" routes_sig (mapR route_to_nm) (routes ip) r;
  inr (alter (delete "address-labels") first r).

Definition stringify (x : jval) : jval := match x with JUndef => JUndef | _ => JStr (JSON_stringify x) end.

(** [if (settings.x) ... else delete result.x]. *)
Definition set_or_delete {A} (first : string) (part : option A) (f : A -> nm_settings -> nm_settings) (r : nm_settings)
    : nm_settings :=
  match part with Some p => f p r | None => delete first r end.

(** The keys of a section as the calls of [set] write them. *)
Definition connection_keys (c : connection_part) : list (string * string * jval) :=
  [("id", "s", c_id c); ("autoconnect", "b", c_autoconnect c); ("autoconnect-slaves", "i", c_autoconnect_slaves c);
   ("uuid", "s", c_uuid c); ("interface-name", "s", c_interface_name c); ("type", "s", c_type c);
   ("slave-type", "s", c_slave_type c); ("master", "s", c_master c)].

Definition bond_keys (b : bond_part) : list (string * string * jval) :=
  [("options", "a{ss}", bond_options b); ("interface-name", "s", bond_interface_name b)].

Definition team_keys (x : team_part) : list (string * string * jval) :=
  [("config", "s", stringify (team_config x)); ("interface-name", "s", team_interface_name x)].

Definition team_port_keys (config : jval) : list (string * string * jval) := [("config", "s", stringify config)].

Definition bridge_keys (b : bridge_part) : list (string * string * jval) :=
  [("interface-name", "s", bridge_interface_name b); ("stp", "b", stp b); ("priority", "u", bridge_priority b);
   ("forward-delay", "u", forward_delay b); ("hello-time", "u", hello_time b); ("max-age", "u", max_age b);
   ("ageing-time", "u", ageing_time b)].

Definition bridge_port_keys (b : bridge_port_part) : list (string * string * jval) :=
  [("priority", "u", port_priority b); ("path-cost", "u", path_cost b); ("hairpin-mode", "b", hairpin_mode b)].

Definition vlan_keys (x : vlan_part) : list (string * string * jval) :=
  [("parent", "s", vlan_parent x); ("id", "u", vlan_id x); ("interface-name", "s", vlan_interface_name x);
   ("flags", "u", JNum 1)].

Definition ethernet_keys (e : ethernet_part) : list (string * string * jval) :=
  [("mtu", "u", mtu e); ("assigned-mac-address", "s", assigned_mac_address e)].

Definition set_ethernet (e : ethernet_part) (r : nm_settings) : nm_settings :=
  alter (delete "cloned-mac-address") "802-3-ethernet" (set_all "802-3-ethernet" (ethernet_keys e) r).

Definition set_ip_or_delete (first : string) (part : option ip_part) (f : ip_part -> nm_settings -> result nm_settings)
    (r : nm_settings) : result nm_settings :=
  match part with Some p => f p r | None => inr (delete first r) end.

Definition set_ip4 (ip : ip_part) : nm_settings -> result nm_settings :=
  set_ip ip "ipv4" "aau" ip4_address_to_nm "aau" ip4_route_to_nm "au" ip4_to_nm.
Definition set_ip6 (ip : ip_part) : nm_settings -> result nm_settings :=
  set_ip ip "ipv6" "a(ayuay)" ip6_address_to_nm "a(ayuayu)" ip6_route_to_nm "aay" ip6_to_nm.

Definition settings_to_nm (s : settings) (orig : nm_settings) : result nm_settings :=
  let r := set_all "connection" (connection_keys (connection s)) orig in
  r ← set_ip_or_delete "ipv4" (ipv4 s) set_ip4 r;
  r ← set_ip_or_delete "ipv6" (ipv6 s) set_ip6 r;
  let r := set_or_delete "bond" (bond s) (fun p => set_all "bond" (bond_keys p)) r in
  let r := set_or_delete "team" (team s) (fun p => set_all "team" (team_keys p)) r in
  let r := set_or_delete "team-port" (team_port s) (fun p => set_all "team-port" (team_port_keys p)) r in
  let r := set_or_delete "bridge" (bridge s) (fun p => set_all "bridge" (bridge_keys p)) r in
  let r := set_or_delete "bridge-port" (bridge_port s) (fun p => set_all "bridge-port" (bridge_port_keys p)) r in
  let r := set_or_delete "vlan" (vlan s) (fun p => set_all "vlan" (vlan_keys p)) r in
  inr (set_or_delete "802-3-ethernet" (ethernet s) set_ethernet r).

End Convert.
