(* ===== verification/NmSettingsSpec.v ===== *)
(** * Editing connection settings

    What the pages show of a connection and send back is what the bus gave:
    the settings that are not edited survive. *)

From S2P Require Import Prelude Numbers Base64 Locale Text NmUtils NmUtilsSpec NmSettings.

(** Decide the comparisons of literal names. *)
Ltac names :=
  repeat match goal with
  | |- context [String.eqb ?a ?b] =>
      let r := eval vm_compute in (String.eqb a b) in
      match r with true => idtac | false => idtac end; change (String.eqb a b) with r; cbn match
  end.

(** ** Sections as maps of values *)

Definition sec_set (sec : section) (x : string * string * jval) : section :=
  let '(k, sig, val) := x in
  match val with JUndef => delete k sec | _ => <[k := MkVariant sig val]> sec end.

Lemma set_lookup f k sig val r f' :
  set f k sig val r !! f' = if String.eqb f f' then Some (sec_set (default ∅ (r !! f)) (k, sig, val)) else r !! f'.
Proof.
  unfold set, sec_set. destruct (String.eqb_spec f f') as [<-|Hf].
  - destruct (r !! f) eqn:E; destruct val; rewrite lookup_alter_eq; rewrite ?lookup_insert_eq, ?E; done.
  - destruct (r !! f) eqn:E; destruct val; rewrite lookup_alter_ne by done; rewrite ?lookup_insert_ne by done; done.
Qed.

Lemma set_all_lookup f x l : forall r f',
  set_all f (x :: l) r !! f' = if String.eqb f f' then Some (foldl sec_set (default ∅ (r !! f)) (x :: l)) else r !! f'.
Proof.
  revert x. induction l as [|y l IH]; intros [[k sig] val] r f'.
  - apply set_lookup.
  - change (set_all f ((k, sig, val) :: y :: l) r) with (set_all f (y :: l) (set f k sig val r)).
    rewrite IH, !set_lookup, String.eqb_refl. by destruct (String.eqb f f').
Qed.

Lemma set_or_delete_lookup {A} f part (F : A -> nm_settings -> nm_settings) (G : A -> option section -> section) r f' :
  (forall p r f', F p r !! f' = if String.eqb f f' then Some (G p (r !! f)) else r !! f') ->
  set_or_delete f part F r !! f' = if String.eqb f f' then (fun p => G p (r !! f)) <$> part else r !! f'.
Proof.
  intros HF. unfold set_or_delete. destruct part as [p|]; [by rewrite HF; destruct (String.eqb f f')|].
  destruct (String.eqb_spec f f') as [<-|]; [by rewrite lookup_delete_eq|by rewrite lookup_delete_ne].
Qed.

Definition value (sec : option section) (k : string) : option jval := s ← sec; v <$> (s !! k : option variant).

Lemma get_value n f k d : get n f k d = default d (value (n !! f) k).
Proof. unfold get, value. destruct (n !! f) as [s|]; [|done]. cbn. by destruct (s !! k). Qed.

(** What is written last for a key. *)
Fixpoint last_write (l : list (string * string * jval)) (k : string) : option jval :=
  match l with
  | [] => None
  | (k', _, val) :: l => match last_write l k with Some x => Some x | None => if String.eqb k' k then Some val else None end
  end.

Definition defined (x : jval) : option jval := match x with JUndef => None | _ => Some x end.

Lemma value_fold l : forall sec k,
  value (Some (foldl sec_set sec l)) k = match last_write l k with Some x => defined x | None => value (Some sec) k end.
Proof.
  induction l as [|[[k' sig] val] l IH]; intros sec k; [done|]. cbn [foldl last_write]. rewrite IH.
  destruct (last_write l k); [done|]. unfold value. cbn.
  destruct (String.eqb_spec k' k) as [<-|]; destruct val;
    rewrite ?lookup_insert_eq, ?lookup_delete_eq, ?lookup_insert_ne, ?lookup_delete_ne by done; done.
Qed.

Lemma value_delete s k k' : value (Some (delete k s)) k' = if String.eqb k k' then None else value (Some s) k'.
Proof.
  unfold value. cbn. destruct (String.eqb_spec k k') as [<-|]; [by rewrite lookup_delete_eq|by rewrite lookup_delete_ne].
Qed.

(** A section and nothing are alike to a reader of values. *)
Lemma value_default o k : value (Some (default ∅ o)) k = value o k.
Proof. destruct o; [done|]. unfold value. cbn. by rewrite lookup_empty. Qed.

(** ** Addresses of the bus *)

Section Addresses.

Context (st : locale_state) (be : bool).

Definition u32 (n : Z) : Prop := 0 <= n < 2 ^ 32.
Definition ip6_data (s : string) : Prop := exists data, s = encode64 data /\ length data = 16%nat /\ Forall is_byte data.

(** The documented types; an IPv6 address has a prefix. *)
Inductive bus_ip4 : jval -> Prop := Ip4 a : u32 a -> bus_ip4 (JNum a).
Inductive bus_ip6 : jval -> Prop := Ip6 a : ip6_data a -> bus_ip6 (JStr a).
Inductive bus_address4 : jval -> Prop :=
  Address4 a p g : u32 a -> u32 p -> u32 g -> bus_address4 (JArr [JNum a; JNum p; JNum g]).
Inductive bus_address6 : jval -> Prop :=
  Address6 a p g : ip6_data a -> u32 p -> p <> 0 -> ip6_data g -> bus_address6 (JArr [JStr a; JNum p; JStr g]).
Inductive bus_route4 : jval -> Prop :=
  Route4 a p g m : u32 a -> u32 p -> u32 g -> u32 m -> bus_route4 (JArr [JNum a; JNum p; JNum g; JNum m]).
Inductive bus_route6 : jval -> Prop :=
  Route6 a p g m : ip6_data a -> u32 p -> ip6_data g -> u32 m -> bus_route6 (JArr [JStr a; JNum p; JStr g; JNum m]).

(** [from] gives a text from which [to] makes the same value again. *)
Definition survives {A} (from : jval -> result A) (to : A -> result jval) (x : jval) : Prop :=
  exists y, from x = inr y /\ to y = inr x.

Lemma ip4_text a z : u32 a -> ip4_from_text st be (ip4_to_text be a z) z = inr a.
Proof. intros Ha. by apply ip4_survives. Qed.

Lemma ip6_text a z : ip6_data a -> exists y, ip6_to_text a z = inr y /\ ip6_from_text st y z = inr a.
Proof.
  intros (data & -> & Hl & Hb). pose proof (ip6_survives st data z Hl Hb) as H.
  destruct (ip6_to_text (encode64 data) z) as [|y]; [done|]. by exists y.
Qed.

(** Whatever the place in the list, and so whatever the flag is. *)
Lemma ip4_nm x i : bus_ip4 x -> survives (fun x => ip4_from_nm be x i) (fun y => ip4_to_nm st be y i) x.
Proof. intros [a Ha]. eexists. split; [done|]. unfold ip4_to_nm. by rewrite ip4_text. Qed.

Lemma ip6_nm x i : bus_ip6 x -> survives (fun x => ip6_from_nm x i) (fun y => ip6_to_nm st y i) x.
Proof.
  intros [a Ha]. destruct (ip6_text a (truthy_index i) Ha) as (y & H1 & H2). exists y. split; [done|]. unfold ip6_to_nm. by rewrite H2.
Qed.

Lemma address4_nm x : bus_address4 x -> survives (ip4_address_from_nm be) (ip4_address_to_nm st be) x.
Proof.
  intros [a p g Ha Hp Hg]. eexists. split; [done|]. cbn -[ip4_to_text ip4_from_text].
  rewrite ip4_text by done. cbn -[ip4_to_text ip4_from_text]. rewrite ip4_prefix_roundtrip by (unfold u32 in Hp; lia).
  cbn -[ip4_to_text ip4_from_text]. by rewrite ip4_text.
Qed.

Lemma route4_nm x : bus_route4 x -> survives (ip4_route_from_nm be) (ip4_route_to_nm st be) x.
Proof.
  intros [a p g m Ha Hp Hg Hm]. eexists. split; [done|]. cbn -[ip4_to_text ip4_from_text].
  rewrite ip4_text by done. cbn -[ip4_to_text ip4_from_text]. rewrite ip4_prefix_roundtrip by (unfold u32 in Hp; lia).
  cbn -[ip4_to_text ip4_from_text]. rewrite ip4_text by done. cbn -[ip4_to_text ip4_from_text].
  by rewrite metric_roundtrip by (unfold u32 in Hm; lia).
Qed.

Lemma prefix_or_64_text p : u32 p -> p <> 0 -> prefix_or_64 (ip_prefix_to_text p) = p.
Proof.
  intros Hp Hne. unfold prefix_or_64, ip_prefix_to_text. rewrite parse_pretty by (unfold u32 in Hp; lia).
  by destruct (Z.eqb_spec p 0).
Qed.

Lemma address6_nm x : bus_address6 x -> survives ip6_address_from_nm (ip6_address_to_nm st) x.
Proof.
  intros [a p g Ha Hp Hne Hg]. destruct (ip6_text a false Ha) as (ta & Ha1 & Ha2), (ip6_text g true Hg) as (tg & Hg1 & Hg2).
  exists [ta; ip_prefix_to_text p; tg]. cbn -[ip6_to_text ip6_from_text]. rewrite Ha1, Ha2. cbn -[ip6_to_text ip6_from_text].
  rewrite Hg1, Hg2. cbn. by rewrite prefix_or_64_text.
Qed.

(** The metric of a route is lost, its prefix takes its place; the result
    survives. *)
Lemma route6_nm a p g m : ip6_data a -> u32 p -> ip6_data g ->
  exists y, ip6_route_from_nm (JArr [JStr a; JNum p; JStr g; JNum m]) = inr y /\
    ip6_route_to_nm st y = inr (JArr [JStr a; JNum p; JStr g; JNum p]).
Proof.
  intros Ha Hp Hg. destruct (ip6_text a false Ha) as (ta & Ha1 & Ha2), (ip6_text g true Hg) as (tg & Hg1 & Hg2).
  exists [ta; ip_prefix_to_text p; tg; ip_metric_to_text p]. cbn -[ip6_to_text ip6_from_text]. rewrite Ha1, Ha2.
  cbn -[ip6_to_text ip6_from_text]. rewrite Hg1. cbn -[ip6_from_text]. rewrite prefix_roundtrip by (unfold u32 in Hp; lia).
  cbn -[ip6_from_text]. rewrite Hg2. cbn. by rewrite metric_roundtrip by (unfold u32 in Hp; lia).
Qed.

(** ** Lists *)

Lemma mapR_survives {A} (from : jval -> result A) (to : A -> result jval) l :
  Forall (survives from to) l -> exists ys, mapR from l = inr ys /\ mapR to ys = inr l.
Proof.
  induction 1 as [|x l (y & H1 & H2) _ (ys & H3 & H4)]; [by exists []|].
  exists (y :: ys). cbn. by rewrite H1, H2, H3, H4.
Qed.

(** A list of the bus of which every element satisfies [P]. *)
Definition list_of (P : jval -> Prop) (x : jval) : Prop := exists l, x = JArr l /\ Forall P l.

Lemma list_survives {A} (P : jval -> Prop) (from : jval -> result A) (to : A -> result jval) x :
  (forall y, P y -> survives from to y) -> list_of P x ->
  exists l ys, x = JArr l /\ mapR from l = inr ys /\ mapR to ys = inr l.
Proof.
  intros HP (l & -> & Hl). destruct (mapR_survives from to l) as (ys & H1 & H2); [by eapply Forall_impl|].
  by exists l, ys.
Qed.

Lemma indexed_survives {A} (P : jval -> Prop) (from : jval -> Z -> result A) (to : A -> Z -> result jval) x :
  (forall y i, P y -> survives (fun x => from x i) (fun y => to y i) y) -> list_of P x ->
  exists l ys, x = JArr l /\ map_indexed from 0 l = inr ys /\ map_indexed to 0 ys = inr l.
Proof.
  intros HP (l & -> & Hl). exists l. generalize 0 as i.
  cut (forall i, exists ys, map_indexed from i l = inr ys /\ map_indexed to i ys = inr l); [naive_solver|].
  induction Hl as [|x l Hx _ IH]; intros i; [by exists []|].
  destruct (HP x i Hx) as (y & H1 & H2), (IH (i + 1)) as (ys & H3 & H4).
  exists (y :: ys). cbn. by rewrite H1, H2, H3, H4.
Qed.

Lemma routes6 x : list_of bus_route6 x ->
  exists l ys l', x = JArr l /\ mapR ip6_route_from_nm l = inr ys /\ mapR (ip6_route_to_nm st) ys = inr l' /\
    mapR ip6_route_from_nm l' = inr ys.
Proof.
  intros (l & -> & Hl). exists l. cut (exists ys l', mapR ip6_route_from_nm l = inr ys /\
    mapR (ip6_route_to_nm st) ys = inr l' /\ mapR ip6_route_from_nm l' = inr ys); [naive_solver|].
  induction Hl as [|x l [a p g m Ha Hp Hg _] _ (ys & l' & H1 & H2 & H3)]; [by exists [], []|].
  destruct (route6_nm a p g m Ha Hp Hg) as (y & H4 & H5).
  exists (y :: ys), (JArr [JStr a; JNum p; JStr g; JNum p] :: l'). cbn [mapR].
  change (ip6_route_from_nm (JArr [JStr a; JNum p; JStr g; JNum p])) with (ip6_route_from_nm (JArr [JStr a; JNum p; JStr g; JNum m])).
  rewrite H4, H5. cbn -[ip6_route_from_nm]. by rewrite H1, H2, H3.
Qed.

End Addresses.

(** ** Reading what was written *)

(** What comes from the bus is never undefined. *)
Definition sane (n : nm_settings) : Prop := forall f k, value (n !! f) k <> Some JUndef.

Lemma get_again n f k d : sane n -> default d (defined (get n f k d)) = get n f k d.
Proof.
  intros Hn. rewrite get_value. specialize (Hn f k). destruct (value (n !! f) k) as [x|]; cbn; [by destruct x|by destruct d].
Qed.

(** A key written with the value that was read has the value it had. *)
Lemma write_same n f k d x : sane n -> value (n !! f) k = Some x -> defined (get n f k d) = Some x.
Proof. intros Hn H. rewrite get_value, H. cbn. specialize (Hn f k). rewrite H in Hn. by destruct x. Qed.

(** Which keys of a section are written, and that the values are those read. *)
Definition rewrites (n : nm_settings) (f : string) (skip : list string) (l : list (string * string * jval)) : Prop :=
  forall k, k ∉ skip -> last_write l k = None \/ exists d, last_write l k = Some (get n f k d).

Lemma rewrites_cons n f skip k sig val l :
  rewrites n f skip l -> k ∈ skip \/ (exists d, val = get n f k d) -> rewrites n f skip ((k, sig, val) :: l).
Proof.
  intros Hl Hk k' Hs. cbn. destruct (Hl k' Hs) as [->|[d ->]]; [|by right; exists d].
  destruct (String.eqb_spec k k') as [<-|]; [|by left]. destruct Hk as [Hk|[d ->]]; [done|]. right. by exists d.
Qed.

Lemma rewrites_nil n f skip : rewrites n f skip [].
Proof. by left. Qed.

Lemma rewrites_keep n f skip l k x :
  sane n -> rewrites n f skip l -> k ∉ skip -> value (n !! f) k = Some x ->
  value (Some (foldl sec_set (default ∅ (n !! f)) l)) k = Some x.
Proof.
  intros Hn Hl Hk Hx. rewrite value_fold. destruct (Hl k Hk) as [->|[d ->]]; [by rewrite value_default|by eapply write_same].
Qed.

Ltac rewrites := repeat (apply rewrites_cons; [|first [right; by eexists | left; by left]]); apply rewrites_nil.

(** Compute what is read from a section that was written. *)
Ltac read H :=
  rewrite !get_value, H, ?value_delete, !value_fold; cbn [last_write]; names.

(** ** The internet protocols *)

Section Ip.

Context (n : nm_settings) (first addrs_sig routes_sig ips_sig : string).
Context (afrom rfrom : jval -> result (list string)) (ato rto : list string -> result jval).
Context (dfrom : jval -> Z -> result string) (dto : string -> Z -> result jval).

Definition ip_writes (ip : ip_part) (la ld lr : list jval) : list (string * string * jval) :=
  [("method", "s", method ip); ("ignore-auto-dns", "b", ignore_auto_dns ip);
   ("ignore-auto-routes", "b", ignore_auto_routes ip); ("addresses", addrs_sig, JArr la); ("dns", ips_sig, JArr ld);
   ("dns-search", "as", dns_search ip); ("routes", routes_sig, JArr lr)].

Lemma ip_section la ya ld yd lr yr lr' :
  get n first "addresses" (JArr []) = JArr la -> mapR afrom la = inr ya -> mapR ato ya = inr la ->
  get n first "dns" (JArr []) = JArr ld -> map_indexed dfrom 0 ld = inr yd -> map_indexed dto 0 yd = inr ld ->
  get n first "routes" (JArr []) = JArr lr -> mapR rfrom lr = inr yr -> mapR rto yr = inr lr' ->
  mapR rfrom lr' = inr yr -> sane n ->
  exists ip, get_ip n first afrom rfrom dfrom = inr ip /\
    (forall r, exists r', set_ip ip first addrs_sig ato routes_sig rto ips_sig dto r = inr r' /\
      forall f', r' !! f' = if String.eqb first f' then
        Some (delete "address-labels" (foldl sec_set (default ∅ (r !! first)) (ip_writes ip la ld lr'))) else r !! f') /\
    (forall n', n' !! first = Some (delete "address-labels" (foldl sec_set (default ∅ (n !! first)) (ip_writes ip la ld lr'))) ->
      get_ip n' first afrom rfrom dfrom = inr ip) /\
    rewrites n first ["routes"] (ip_writes ip la ld lr') /\
    (lr' = lr -> rewrites n first [] (ip_writes ip la ld lr')).
Proof.
  intros Ha Ha1 Ha2 Hd Hd1 Hd2 Hr Hr1 Hr2 Hr3 Hn.
  exists (IpPart (get n first "method" (JStr "auto")) (get n first "ignore-auto-dns" (JBool false))
    (get n first "ignore-auto-routes" (JBool false)) (Some ya) (Some yd) (get n first "dns-search" (JArr [])) (Some yr)).
  split; [unfold get_ip; rewrite Ha, Hd, Hr; cbn; by rewrite Ha1, Hd1, Hr1|]. split; [|split; [|split]].
  - intros r. eexists. split.
    + unfold set_ip, set_list. cbn [addresses dns routes dns_search]. rewrite Ha2. cbn [mbind result_bind].
      rewrite Hd2. cbn [mbind result_bind]. rewrite Hr2. reflexivity.
    + intros f'. match goal with |- alter _ _ ?r' !! _ = _ =>
        change r' with (set_all first (ip_writes (IpPart (get n first "method" (JStr "auto")) (get n first "ignore-auto-dns" (JBool false))
          (get n first "ignore-auto-routes" (JBool false)) (Some ya) (Some yd) (get n first "dns-search" (JArr [])) (Some yr)) la ld lr') r) end.
      unfold ip_writes. destruct (String.eqb_spec first f') as [<-|].
      * by rewrite lookup_alter_eq, set_all_lookup, String.eqb_refl.
      * rewrite lookup_alter_ne, set_all_lookup by done. destruct (String.eqb_spec first f'); done.
  - unfold ip_writes. intros n' Hn'. unfold get_ip.
    assert (get n' first "addresses" (JArr []) = JArr la) as -> by (read Hn'; reflexivity).
    assert (get n' first "dns" (JArr []) = JArr ld) as -> by (read Hn'; reflexivity).
    assert (get n' first "routes" (JArr []) = JArr lr') as -> by (read Hn'; reflexivity).
    cbn [map_array]. rewrite Ha1, Hd1, Hr3. cbn [mbind result_bind].
    assert (forall k d, value (n' !! first) k = defined (get n first k d) -> get n' first k d = get n first k d) as Hg.
    { intros k d H. rewrite get_value, H. by apply get_again. }
    do 2 f_equal.
    all: apply Hg; rewrite Hn', value_delete, value_fold; cbn [last_write]; names; reflexivity.
  - rewrites; right; eexists; first [exact (eq_sym Ha)|exact (eq_sym Hd)].
  - intros ->. rewrites; right; eexists; first [exact (eq_sym Ha)|exact (eq_sym Hd)|exact (eq_sym Hr)].
Qed.

End Ip.

(** ** All the sections *)

Definition part_section {A} (keys : A -> list (string * string * jval)) (part : option A) (o : option section) : option section :=
  (fun p => foldl sec_set (default ∅ o) (keys p)) <$> part.

Lemma part_lookup {A} f (part : option A) (keys : A -> list (string * string * jval)) r f' :
  (forall p, keys p <> []) ->
  set_or_delete f part (fun p => set_all f (keys p)) r !! f' = if String.eqb f f' then part_section keys part (r !! f) else r !! f'.
Proof.
  intros Hk. unfold part_section. rewrite (set_or_delete_lookup f part _ (fun p o => foldl sec_set (default ∅ o) (keys p))); [done|].
  intros p r' f''. destruct (keys p) eqn:E; [by apply Hk in E|]. apply set_all_lookup.
Qed.

Lemma ethernet_lookup part r f' :
  set_or_delete "802-3-ethernet" part set_ethernet r !! f' =
    if String.eqb "802-3-ethernet" f' then delete "cloned-mac-address" <$> part_section ethernet_keys part (r !! "802-3-ethernet")
    else r !! f'.
Proof.
  rewrite (set_or_delete_lookup _ part set_ethernet
    (fun p o => delete "cloned-mac-address" (foldl sec_set (default ∅ o) (ethernet_keys p)))).
  - destruct (String.eqb _ _); [|done]. unfold part_section. by destruct part.
  - intros p r' f''. unfold set_ethernet, ethernet_keys. destruct (String.eqb_spec "802-3-ethernet" f'') as [<-|].
    + by rewrite lookup_alter_eq, set_all_lookup, String.eqb_refl.
    + rewrite lookup_alter_ne, set_all_lookup by done. destruct (String.eqb_spec "802-3-ethernet" f''); done.
Qed.

Definition managed : list string :=
  ["connection"; "ipv4"; "ipv6"; "bond"; "team"; "team-port"; "bridge"; "bridge-port"; "vlan"; "802-3-ethernet"].

Definition is_managed (f : string) : bool := existsb (fun a => String.eqb a f) managed.

Section Stable.

Context (st : locale_state) (be : bool).
Context (JSON_parse : string -> option jval) (JSON_stringify : jval -> string).

(** An operation on settings that changes one section only. *)
Definition changes (f : string) (F : nm_settings -> result nm_settings) (G : option section -> option section) : Prop :=
  forall r, exists r', F r = inr r' /\ forall f', r' !! f' = if String.eqb f f' then G (r !! f) else r !! f'.

(** The sections that [settings_to_nm] leaves. *)
Record written (s : settings) (n n' : nm_settings) (G4 G6 : option section -> option section) : Prop := {
  w_connection : n' !! "connection" = part_section connection_keys (Some (connection s)) (n !! "connection");
  w_ipv4 : n' !! "ipv4" = G4 (n !! "ipv4");
  w_ipv6 : n' !! "ipv6" = G6 (n !! "ipv6");
  w_bond : n' !! "bond" = part_section bond_keys (bond s) (n !! "bond");
  w_team : n' !! "team" = part_section (team_keys JSON_stringify) (team s) (n !! "team");
  w_team_port : n' !! "team-port" = part_section (team_port_keys JSON_stringify) (team_port s) (n !! "team-port");
  w_bridge : n' !! "bridge" = part_section bridge_keys (bridge s) (n !! "bridge");
  w_bridge_port : n' !! "bridge-port" = part_section bridge_port_keys (bridge_port s) (n !! "bridge-port");
  w_vlan : n' !! "vlan" = part_section vlan_keys (vlan s) (n !! "vlan");
  w_ethernet : n' !! "802-3-ethernet" =
    delete "cloned-mac-address" <$> part_section ethernet_keys (ethernet s) (n !! "802-3-ethernet");
  w_rest : forall f, is_managed f = false -> n' !! f = n !! f }.

Lemma to_nm_sections s n G4 G6 :
  changes "ipv4" (set_ip_or_delete "ipv4" (ipv4 s) (set_ip4 st be)) G4 ->
  changes "ipv6" (set_ip_or_delete "ipv6" (ipv6 s) (set_ip6 st)) G6 ->
  exists n', settings_to_nm st be JSON_stringify s n = inr n' /\ written s n n' G4 G6.
Proof.
  intros H4 H6. unfold settings_to_nm.
  set (r0 := set_all "connection" _ n).
  assert (forall f', r0 !! f' = if String.eqb "connection" f'
    then part_section connection_keys (Some (connection s)) (n !! "connection") else n !! f') as H0
    by (intros f'; apply set_all_lookup).
  destruct (H4 r0) as (r1 & -> & H1). cbn [mbind result_bind]. destruct (H6 r1) as (r2 & -> & H2). cbn [mbind result_bind].
  eexists. split; [reflexivity|]. split.
  11: { intros f Hf. cbn in Hf.
    repeat match type of Hf with (_ || _) = false => let E := fresh "E" in apply orb_false_iff in Hf as [E Hf] end.
    rewrite ethernet_lookup, E8, !part_lookup, E7, E6, E5, E4, E3, E2, (H2 f), E1, (H1 f), E0, (H0 f), E by done.
    done. }
  all: rewrite ethernet_lookup; names; rewrite ?part_lookup by done; names; rewrite ?H2; names; rewrite ?H1; names;
    rewrite ?H0; names; done.
Qed.

(** ** Settings of the bus, unedited *)

Record bus_settings (n : nm_settings) : Prop := {
  bus_sane : sane n;
  bus_connection : is_Some (n !! "connection");
  bus_addresses4 : list_of bus_address4 (get n "ipv4" "addresses" (JArr []));
  bus_dns4 : list_of bus_ip4 (get n "ipv4" "dns" (JArr []));
  bus_routes4 : list_of bus_route4 (get n "ipv4" "routes" (JArr []));
  bus_addresses6 : list_of bus_address6 (get n "ipv6" "addresses" (JArr []));
  bus_dns6 : list_of bus_ip6 (get n "ipv6" "dns" (JArr []));
  bus_routes6 : list_of bus_route6 (get n "ipv6" "routes" (JArr []));
  bus_bond : extend_new (get n "bond" "options" (JObj [])) = get n "bond" "options" (JObj []) }.

(** JSON: what was parsed and is written is parsed again; nothing parses as
    undefined. *)
Context (HJ : forall s x, JSON_parse s = Some x -> x <> JUndef /\ JSON_parse (JSON_stringify x) = Some x).
Context (HN : JSON_parse (JSON_stringify JNull) = Some JNull).

Context (n : nm_settings) (Hn : bus_settings n).

(** [from n'] for a protocol gives again what it gave, and its values are kept. *)
Definition ip_stable (f : string) (skip : list string) (from : nm_settings -> result ip_part)
    (to : ip_part -> nm_settings -> result nm_settings) : Prop :=
  exists ip sec, from n = inr ip /\ changes f (set_ip_or_delete f (Some ip) to) (fun o => Some (sec o)) /\
    (forall n', n' !! f = Some (sec (n !! f)) -> from n' = inr ip) /\
    (forall k x, k ∉ "address-labels" :: skip -> value (n !! f) k = Some x -> value (Some (sec (n !! f))) k = Some x).

Lemma ip_kept f skip l k x :
  rewrites n f skip l -> k ∉ "address-labels" :: skip -> value (n !! f) k = Some x ->
  value (Some (delete "address-labels" (foldl sec_set (default ∅ (n !! f)) l))) k = Some x.
Proof.
  intros Hl [Hk1 Hk2]%not_elem_of_cons Hx. rewrite value_delete.
  destruct (String.eqb_spec "address-labels" k); [congruence|]. eapply rewrites_keep; eauto. apply bus_sane, Hn.
Qed.

Lemma ip4_stable : ip_stable "ipv4" []
  (fun n => get_ip n "ipv4" (ip4_address_from_nm be) (ip4_route_from_nm be) (ip4_from_nm be)) (set_ip4 st be).
Proof.
  destruct Hn as [Hs _ Ha Hd Hr _ _ _ _].
  destruct (list_survives _ _ _ _ (address4_nm st be) Ha) as (la & ya & Ea & Ha1 & Ha2).
  destruct (indexed_survives _ _ _ _ (ip4_nm st be) Hd) as (ld & yd & Ed & Hd1 & Hd2).
  destruct (list_survives _ _ _ _ (route4_nm st be) Hr) as (lr & yr & Er & Hr1 & Hr2).
  destruct (ip_section n "ipv4" "aau" "aau" "au" _ _ _ _ _ _ _ _ _ _ _ _ _ Ea Ha1 Ha2 Ed Hd1 Hd2 Er Hr1 Hr2 Hr1 Hs)
    as (ip & H1 & H2 & H3 & _ & H4).
  exists ip, (fun o => delete "address-labels" (foldl sec_set (default ∅ o) (ip_writes "aau" "aau" "au" ip la ld lr))). split; [done|]. split; [exact H2|]. split; [exact H3|]. intros k x. by apply ip_kept, H4.
Qed.

Lemma ip6_stable : ip_stable "ipv6" ["routes"]
  (fun n => get_ip n "ipv6" ip6_address_from_nm ip6_route_from_nm ip6_from_nm) (set_ip6 st).
Proof.
  destruct Hn as [Hs _ _ _ _ Ha Hd Hr _].
  destruct (list_survives _ _ _ _ (address6_nm st) Ha) as (la & ya & Ea & Ha1 & Ha2).
  destruct (indexed_survives _ _ _ _ (ip6_nm st) Hd) as (ld & yd & Ed & Hd1 & Hd2).
  destruct (routes6 st _ Hr) as (lr & yr & lr' & Er & Hr1 & Hr2 & Hr3).
  destruct (ip_section n "ipv6" "a(ayuay)" "a(ayuayu)" "aay" _ _ _ _ _ _ _ _ _ _ _ _ _ Ea Ha1 Ha2 Ed Hd1 Hd2 Er Hr1 Hr2 Hr3 Hs)
    as (ip & H1 & H2 & H3 & H4 & _).
  exists ip, (fun o => delete "address-labels"
    (foldl sec_set (default ∅ o) (ip_writes "a(ayuay)" "a(ayuayu)" "aay" ip la ld lr'))). split; [done|]. split; [exact H2|]. split; [exact H3|]. intros k x. by apply ip_kept, H4.
Qed.

(** A connection with a master has no protocols. *)
Lemma protocol_stable f skip from to (free : bool) : ip_stable f skip from to ->
  exists part G, (if free then ip ← from n; inr (Some ip) else inr None) = inr part /\
    changes f (set_ip_or_delete f part to) G /\
    (forall n', n' !! f = G (n !! f) -> (if free then ip ← from n'; inr (Some ip) else inr None) = inr part) /\
    (free = true -> forall k x, k ∉ "address-labels" :: skip -> value (n !! f) k = Some x -> value (G (n !! f)) k = Some x).
Proof.
  intros (ip & sec & H1 & H2 & H3 & H4). destruct free.
  - exists (Some ip), (fun o => Some (sec o)). rewrite H1. split; [done|]. split; [done|]. split; [|by intros _].
    intros n' Hn'. by rewrite H3.
  - exists None, (fun _ => None). split; [done|]. split; [|done].
    intros r. eexists. split; [done|]. intros f'. destruct (String.eqb_spec f f') as [<-|];
      [by rewrite lookup_delete_eq|by rewrite lookup_delete_ne].
Qed.

(** ** The other sections *)

Lemma reads_again n' f l k d :
  n' !! f = Some (foldl sec_set (default ∅ (n !! f)) l) -> last_write l k = Some (get n f k d) \/ last_write l k = None ->
  get n' f k d = get n f k d.
Proof.
  intros H Hk. rewrite get_value, H, value_fold. destruct Hk as [->| ->]; [by apply get_again, Hn|].
  by rewrite value_default, get_value.
Qed.

Ltac again H :=
  apply (reads_again _ _ _ _ _ H); unfold connection_keys, bridge_keys, bridge_port_keys, vlan_keys, bond_keys, team_keys;
  cbn [last_write]; names; first [left; reflexivity | right; reflexivity].

Lemma connection_again (n' : nm_settings) :
  n' !! "connection" = part_section connection_keys (Some (get_connection st n)) (n !! "connection") ->
  get_connection st n' = get_connection st n.
Proof. intros H. unfold part_section in H. cbn [fmap option_fmap option_map] in H. unfold get_connection. f_equal; again H. Qed.

Lemma has_part {A} n' f (keys : A -> list (string * string * jval)) b x :
  n' !! f = part_section keys (part_if b x) (n !! f) -> has n' f = b.
Proof. intros H. unfold has. rewrite H. by destruct b. Qed.

(** A part is read again; [b] is a reason for it to exist in the connection. *)
Lemma part_again {A} n' f (keys : A -> list (string * string * jval)) (P : nm_settings -> A) b :
  n' !! f = part_section keys (part_if (has n f || b) (P n)) (n !! f) ->
  (n' !! f = Some (foldl sec_set (default ∅ (n !! f)) (keys (P n))) -> P n' = P n) ->
  part_if (has n' f || b) (P n') = part_if (has n f || b) (P n).
Proof.
  intros H HP. rewrite (has_part _ _ _ _ _ H). destruct (has n f || b) eqn:E; cbn; [by rewrite HP|].
  apply orb_false_iff in E as [_ ->]. done.
Qed.

Lemma parsed x : stringify JSON_stringify (JSON_parse_carefully JSON_parse x) = JStr (JSON_stringify (JSON_parse_carefully JSON_parse x)) /\
  JSON_parse_carefully JSON_parse (JStr (JSON_stringify (JSON_parse_carefully JSON_parse x))) = JSON_parse_carefully JSON_parse x.
Proof.
  unfold JSON_parse_carefully. cbn [js_String]. destruct (JSON_parse (js_String x)) as [y|] eqn:E.
  - change (default JNull (Some y)) with y. destruct (HJ _ _ E) as [Hy ->]. by destruct y.
  - change (default JNull None) with JNull. by rewrite HN.
Qed.

(** The configuration of a team that is written is read as it was. *)
Lemma config_again n' f l d :
  n' !! f = Some (foldl sec_set (default ∅ (n !! f)) l) ->
  last_write l "config" = Some (stringify JSON_stringify (JSON_parse_carefully JSON_parse (get n f "config" d))) ->
  JSON_parse_carefully JSON_parse (get n' f "config" d) = JSON_parse_carefully JSON_parse (get n f "config" d).
Proof.
  intros H Hl. rewrite (get_value n'), H, value_fold, Hl.
  destruct (parsed (get n f "config" d)) as [-> E]. exact E.
Qed.

Lemma ethernet_again (n' : nm_settings) :
  n' !! "802-3-ethernet" = delete "cloned-mac-address" <$> part_section ethernet_keys (part_if (has n "802-3-ethernet")
    (EthernetPart (get n "802-3-ethernet" "mtu" JUndef) (get n "802-3-ethernet" "assigned-mac-address" JUndef)))
    (n !! "802-3-ethernet") ->
  part_if (has n' "802-3-ethernet")
    (EthernetPart (get n' "802-3-ethernet" "mtu" JUndef) (get n' "802-3-ethernet" "assigned-mac-address" JUndef)) =
  part_if (has n "802-3-ethernet")
    (EthernetPart (get n "802-3-ethernet" "mtu" JUndef) (get n "802-3-ethernet" "assigned-mac-address" JUndef)).
Proof.
  intros H. unfold has at 1. rewrite H. destruct (has n "802-3-ethernet"); [|done].
  unfold part_section, part_if in H. cbn [fmap option_fmap option_map] in H. change (bool_decide _) with true. unfold part_if. do 2 f_equal.
  all: rewrite (get_value n'), H, value_delete, value_fold; unfold ethernet_keys; cbn [last_write]; names; apply get_again, Hn.
Qed.

(** ** What is kept *)

Lemma value_has f k x : value (n !! f) k = Some x -> has n f = true.
Proof. intros H. apply bool_decide_eq_true_2. by destruct (n !! f). Qed.

Lemma section_kept {A} (n' : nm_settings) f (keys : A -> list (string * string * jval)) P b skip k x :
  n' !! f = part_section keys (part_if (has n f || b) P) (n !! f) -> rewrites n f skip (keys P) ->
  k ∉ skip -> value (n !! f) k = Some x -> value (n' !! f) k = Some x.
Proof.
  intros H Hr Hk Hx. rewrite H, (value_has _ _ _ Hx). cbn [orb part_if part_section fmap option_fmap option_map].
  eapply rewrites_keep; eauto. apply bus_sane, Hn.
Qed.

(** The keys that are written differently or removed: the first two are never
    passed back, the metrics of IPv6 routes are lost, the configuration of teams
    is written anew, and there is a default that has to be explicit. *)
Definition not_kept : list (string * string) :=
  [("ipv4", "address-labels"); ("ipv6", "address-labels"); ("ipv6", "routes"); ("team", "config");
   ("team-port", "config"); ("vlan", "flags"); ("802-3-ethernet", "cloned-mac-address")].

Lemma skipped f k skip : (f, k) ∉ not_kept -> Forall (fun k => (f, k) ∈ not_kept) skip -> k ∉ skip.
Proof. intros H Hs Hk. rewrite Forall_forall in Hs. by apply H, Hs. Qed.

Lemma master_kept (n' : nm_settings) :
  n' !! "connection" = part_section connection_keys (Some (get_connection st n)) (n !! "connection") ->
  value (n' !! "connection") "master" = value (n !! "connection") "master".
Proof.
  intros H. rewrite H. unfold part_section. cbn [fmap option_fmap option_map]. rewrite value_fold.
  unfold connection_keys. cbn [last_write]. names. cbn [c_master get_connection]. rewrite get_value.
  pose proof (bus_sane n Hn "connection" "master") as Hs. destruct (value _ _) as [[]|]; done.
Qed.

Lemma has_value (c : section) k : bool_decide (is_Some (c !! k)) = bool_decide (is_Some (value (Some c) k)).
Proof. apply bool_decide_ext. unfold value. cbn [mbind option_bind]. by rewrite fmap_is_Some. Qed.


Lemma in_not_kept f k : bool_decide ((f, k) ∈ not_kept) = true -> (f, k) ∈ not_kept.
Proof. by intros H%bool_decide_eq_true. Qed.

(** What the pages are shown of [n], but for the protocols. *)
Definition bond_of (n : nm_settings) : bond_part :=
  BondPart (extend_new (get n "bond" "options" (JObj []))) (get n "bond" "interface-name" JUndef).
Definition team_of (n : nm_settings) : team_part :=
  TeamPart (JSON_parse_carefully JSON_parse (get n "team" "config" (JStr "{}"))) (get n "team" "interface-name" JUndef).
Definition team_port_of (n : nm_settings) : jval := JSON_parse_carefully JSON_parse (get n "team-port" "config" (JStr "{}")).
Definition vlan_of (n : nm_settings) : vlan_part :=
  VlanPart (get n "vlan" "parent" JUndef) (get n "vlan" "id" JUndef) (get n "vlan" "interface-name" JUndef).

Definition shown (p4 p6 : option ip_part) (n : nm_settings) : settings :=
  let c := get_connection st n in
  Settings c p4 p6
    (part_if (has n "802-3-ethernet")
      (EthernetPart (get n "802-3-ethernet" "mtu" JUndef) (get n "802-3-ethernet" "assigned-mac-address" JUndef)))
    (part_if (has n "bond") (bond_of n)) (part_if (has n "team") (team_of n))
    (part_if (has n "team-port" || is_str (c_slave_type c) "team") (team_port_of n)) (part_if (has n "bridge") (get_bridge n))
    (part_if (has n "bridge-port" || is_str (c_slave_type c) "bridge") (get_bridge_port n)) (part_if (has n "vlan") (vlan_of n)).

Lemma part_again' {A} (n' : nm_settings) f (keys : A -> list (string * string * jval)) (P : nm_settings -> A) :
  n' !! f = part_section keys (part_if (has n f) (P n)) (n !! f) ->
  (n' !! f = Some (foldl sec_set (default ∅ (n !! f)) (keys (P n))) -> P n' = P n) ->
  part_if (has n' f) (P n') = part_if (has n f) (P n).
Proof. intros H HP. rewrite <- (orb_false_r (has n' f)), <- (orb_false_r (has n f)). eapply part_again; [by rewrite orb_false_r|done]. Qed.

Lemma shown_again p4 p6 (n' : nm_settings) G4 G6 : written (shown p4 p6 n) n n' G4 G6 -> shown p4 p6 n' = shown p4 p6 n.
Proof.
  intros [Hc _ _ Hb Ht Htp Hbr Hbp Hv He _]. cbn [connection bond team team_port bridge bridge_port vlan ethernet shown] in *.
  unfold shown. rewrite (connection_again n' Hc). f_equal.
  - by apply ethernet_again.
  - apply (part_again' n' "bond" bond_keys bond_of Hb). intros H. unfold bond_of. f_equal; [|again H].
    f_equal. apply (reads_again _ _ _ _ _ H). left. unfold bond_keys. cbn [last_write bond_options bond_of]. names.
    by rewrite (bus_bond n Hn).
  - apply (part_again' n' "team" _ team_of Ht). intros H. unfold team_of. f_equal; [by apply (config_again _ _ _ _ H)|again H].
  - apply (part_again n' "team-port" _ team_port_of _ Htp). intros H. by apply (config_again _ _ _ _ H).
  - apply (part_again' n' "bridge" bridge_keys get_bridge Hbr). intros H. unfold get_bridge. f_equal; again H.
  - apply (part_again n' "bridge-port" bridge_port_keys get_bridge_port _ Hbp). intros H. unfold get_bridge_port. f_equal; again H.
  - apply (part_again' n' "vlan" vlan_keys vlan_of Hv). intros H. unfold vlan_of. f_equal; again H.
Qed.

Lemma managed_cases f : is_managed f = true -> f ∈ managed.
Proof.
  unfold is_managed. intros H%existsb_exists. destruct H as (g & Hg & ->%String.eqb_eq). by apply list_elem_of_In.
Qed.

Lemma ethernet_kept p4 p6 (n' : nm_settings) G4 G6 k x :
  written (shown p4 p6 n) n n' G4 G6 -> value (n !! "802-3-ethernet") k = Some x -> ("802-3-ethernet", k) ∉ not_kept ->
  value (n' !! "802-3-ethernet") k = Some x.
Proof.
  intros HW Hx Hk. rewrite (w_ethernet _ _ _ _ _ HW). unfold shown. cbn [ethernet].
  rewrite (value_has _ _ _ Hx). cbn [part_if part_section fmap option_fmap option_map]. rewrite value_delete.
  destruct (String.eqb_spec "cloned-mac-address" k) as [<-|]; [exfalso; by apply Hk, in_not_kept|].
  eapply rewrites_keep; [apply bus_sane, Hn|unfold ethernet_keys; rewrites|apply not_elem_of_nil|done].
Qed.

Lemma written_kept p4 p6 (n' : nm_settings) G4 G6 f k x :
  written (shown p4 p6 n) n n' G4 G6 -> value (n !! f) k = Some x -> (f, k) ∉ not_kept ->
  (f = "ipv4" -> value (G4 (n !! f)) k = Some x) -> (f = "ipv6" -> value (G6 (n !! f)) k = Some x) ->
  value (n' !! f) k = Some x.
Proof.
  intros HW Hx Hk H4 H6. destruct (is_managed f) eqn:Hf; [|by rewrite (w_rest _ _ _ _ _ HW)].
  apply managed_cases in Hf. pose proof HW as [Hc E4 E6 Hb Ht Htp Hbr Hbp Hv _ _].
  unfold shown in Hc, Hb, Ht, Htp, Hbr, Hbp, Hv. cbn [connection bond team team_port bridge bridge_port vlan] in Hc, Hb, Ht, Htp, Hbr, Hbp, Hv.
  unfold managed in Hf. repeat (apply elem_of_cons in Hf as [->|Hf]); [..|by apply not_elem_of_nil in Hf].
  - rewrite Hc. eapply rewrites_keep; [apply bus_sane, Hn|unfold connection_keys; rewrites|apply not_elem_of_nil|done].
  - rewrite E4. auto.
  - rewrite E6. auto.
  - eapply (section_kept n' "bond" bond_keys (bond_of n) false []); [by rewrite orb_false_r| |by apply not_elem_of_nil|done].
    unfold bond_keys. apply rewrites_cons; [rewrites|]. right. eexists. apply (bus_bond n Hn).
  - eapply (section_kept n' "team" _ (team_of n) false ["config"]); [by rewrite orb_false_r|unfold team_keys; rewrites| |done].
    eapply skipped; [done|]. by repeat constructor.
  - eapply (section_kept n' "team-port" _ _ _ ["config"]); [exact Htp|unfold team_port_keys; rewrites| |done].
    eapply skipped; [done|]. by repeat constructor.
  - eapply (section_kept n' "bridge" bridge_keys (get_bridge n) false []); [by rewrite orb_false_r|unfold bridge_keys; rewrites|by apply not_elem_of_nil|done].
  - eapply (section_kept n' "bridge-port" bridge_port_keys _ _ []); [exact Hbp|unfold bridge_port_keys; rewrites|by apply not_elem_of_nil|done].
  - eapply (section_kept n' "vlan" vlan_keys (vlan_of n) false ["flags"]); [by rewrite orb_false_r|unfold vlan_keys; rewrites| |done].
    eapply skipped; [done|]. by repeat constructor.
  - by eapply ethernet_kept.
Qed.

(** C23. The settings of a connection, shown and sent back without an edit: they
    are accepted, show the same again, and keep every section that the pages do
    not know and every value except those of [not_kept] (and the protocols of a
    connection that has a master).  The settings are such as the bus gives
    ([bus_settings]): there is a connection section, no value is undefined,
    addresses, servers and routes have the documented types and ranges, an IPv6
    address has a prefix other than 0 and the bond options hold no undefined
    member.  What [JSON.parse] gives is not undefined and parses again when it is
    written, null included.  The flag that the index of a server turns into makes
    no difference to this: both ways get the same one.  It does to what is shown
    and to edits, see [later_servers]. *)
Theorem settings_roundtrip :
  exists s n',
    settings_from_nm st be JSON_parse n = inr s /\ settings_to_nm st be JSON_stringify s n = inr n' /\
    settings_from_nm st be JSON_parse n' = inr s /\
    (forall f, is_managed f = false -> n' !! f = n !! f) /\
    (forall f k x, value (n !! f) k = Some x -> (f, k) ∉ not_kept ->
      (f = "ipv4" \/ f = "ipv6" -> value (n !! "connection") "master" = None) -> value (n' !! f) k = Some x).
Proof.
  destruct (bus_connection n Hn) as [c Ec].
  set (free := negb (bool_decide (is_Some (c !! "master")))).
  destruct (protocol_stable _ _ _ _ free ip4_stable) as (p4 & G4 & F4 & C4 & S4 & K4).
  destruct (protocol_stable _ _ _ _ free ip6_stable) as (p6 & G6 & F6 & C6 & S6 & K6).
  destruct (to_nm_sections (shown p4 p6 n) n G4 G6 C4 C6) as (n' & Hto & HW).
  exists (shown p4 p6 n), n'. split.
  { unfold settings_from_nm. rewrite Ec. fold free. rewrite F4. cbn [mbind result_bind]. by rewrite F6. }
  split; [done|]. split; [|split; [exact (w_rest _ _ _ _ _ HW)|]].
  - rewrite <- (shown_again _ _ _ _ _ HW). unfold settings_from_nm. rewrite (w_connection _ _ _ _ _ HW) at 1.
    set (c' := foldl sec_set (default ∅ (n !! "connection")) (connection_keys (connection (shown p4 p6 n)))).
    change (part_section _ _ _) with (Some c'). cbn match.
    assert (bool_decide (is_Some (c' !! "master")) = bool_decide (is_Some (c !! "master"))) as ->.
    { rewrite !has_value, <- Ec, <- (master_kept n' (w_connection _ _ _ _ _ HW)).
      by rewrite (w_connection _ _ _ _ _ HW). }
    fold free. rewrite (S4 n' (w_ipv4 _ _ _ _ _ HW)). cbn [mbind result_bind]. by rewrite (S6 n' (w_ipv6 _ _ _ _ _ HW)).
  - intros f k x Hx Hk Hm. eapply written_kept; eauto; intros ->.
    + apply K4; [|eapply skipped; [done|by repeat constructor]|done].
      unfold free. rewrite has_value, <- Ec, Hm by (left; reflexivity). reflexivity.
    + apply K6; [|eapply skipped; [done|by repeat constructor]|done].
      unfold free. rewrite has_value, <- Ec, Hm by (right; reflexivity). reflexivity.
Qed.

End Stable.

(** A check of [sane] that computes. *)
Definition no_undefined (n : nm_settings) : bool :=
  forallb (fun '(_, s) => forallb (fun '(_, x) => match v x with JUndef => false | _ => true end) (map_to_list (s : section)))
    (map_to_list n).

Lemma no_undefined_sane n : no_undefined n = true -> sane n.
Proof.
  unfold no_undefined. rewrite forallb_forall. intros H f k. unfold value. destruct (n !! f) as [s|] eqn:E; [|done].
  cbn [mbind option_bind]. destruct (s !! k) as [x|] eqn:Ek; [|done]. cbn. intros [= Ex].
  apply elem_of_map_to_list, list_elem_of_In, H in E. rewrite forallb_forall in E.
  apply elem_of_map_to_list, list_elem_of_In, E in Ek. by rewrite Ex in Ek.
Qed.

(** A bridge with an address of each protocol, and a section and keys that the
    pages do not know. *)
Definition bridge_settings : nm_settings :=
  let fe80 := encode64 [254; 128; 0; 0; 0; 0; 0; 0; 0; 0; 0; 0; 0; 0; 0; 1] in
  let s l := list_to_map (map (fun '(k, t, v) => (k, MkVariant t v)) l) : section in
  list_to_map
    [("connection", s [("type", "s", JStr "bridge"); ("uuid", "s", JStr "b4d"); ("id", "s", JStr "br0");
                       ("timestamp", "t", JNum 7); ("zone", "s", JStr "home")]);
     ("ipv4", s [("addresses", "aau", JArr [JArr [JNum 16843009; JNum 24; JNum 0]]); ("dns", "au", JArr [JNum 134744072; JNum 0])]);
     ("ipv6", s [("addresses", "a(ayuay)", JArr [JArr [JStr fe80; JNum 64; JStr fe80]]); ("may-fail", "b", JBool false);
                 ("routes", "a(ayuayu)", JArr [JArr [JStr fe80; JNum 64; JStr fe80; JNum 10]])]);
     ("bridge", s [("stp", "b", JBool false)]); ("proxy", s [("pac-url", "s", JStr "x")])].

Definition some_parse (s : string) : option jval :=
  if String.eqb s "null" then Some JNull else if String.eqb s "{}" then Some (JObj []) else None.
Definition some_stringify (x : jval) : string := match x with JNull => "null" | _ => "{}" end.

Lemma some_json s x : some_parse s = Some x -> x <> JUndef /\ some_parse (some_stringify x) = Some x.
Proof. unfold some_parse. intros. by repeat case_match; simplify_eq. Qed.

Lemma is_ip6_data data : forallb (fun b => (0 <=? b) && (b <? 256)) data = true -> length data = 16%nat -> ip6_data (encode64 data).
Proof.
  intros Hb Hl. exists data. split; [done|]. split; [done|]. rewrite forallb_forall in Hb. rewrite Forall_forall.
  intros b Hin%list_elem_of_In. specialize (Hb b Hin). unfold is_byte. lia.
Qed.

Lemma bridge_settings_bus : bus_settings bridge_settings.
Proof.
  assert (u32 24 /\ u32 64 /\ u32 0 /\ u32 10 /\ u32 16843009 /\ u32 134744072) as (?&?&?&?&?&?) by (unfold u32; lia).
  assert (ip6_data (encode64 [254; 128; 0; 0; 0; 0; 0; 0; 0; 0; 0; 0; 0; 0; 0; 1])) as Ha by (by apply is_ip6_data).
  split.
  - apply no_undefined_sane. vm_compute. reflexivity.
  - by eexists.
  - eexists. split; [vm_compute; reflexivity|]. by repeat constructor.
  - eexists. split; [vm_compute; reflexivity|]. by repeat constructor.
  - by exists [].
  - eexists. split; [vm_compute; reflexivity|]. by repeat constructor.
  - by exists [].
  - eexists. split; [vm_compute; reflexivity|]. by repeat constructor.
  - vm_compute. reflexivity.
Qed.

Lemma settings_roundtrip_witness :
  bus_settings bridge_settings /\
  exists s n',
    settings_from_nm initial_locale false some_parse bridge_settings = inr s /\
    settings_to_nm initial_locale false some_stringify s bridge_settings = inr n' /\
    settings_from_nm initial_locale false some_parse n' = inr s /\ n' !! "proxy" = bridge_settings !! "proxy" /\
    value (n' !! "ipv6") "may-fail" = Some (JBool false).
Proof.
  split; [exact bridge_settings_bus|].
  destruct (settings_roundtrip initial_locale false some_parse some_stringify some_json eq_refl bridge_settings bridge_settings_bus)
    as (s & n' & H1 & H2 & H3 & H4 & H5).
  exists s, n'. split; [exact H1|]. split; [exact H2|]. split; [exact H3|]. split; [apply H4; reflexivity|].
  apply H5; [reflexivity| |intros _; reflexivity]. vm_compute. intros H. repeat (apply elem_of_cons in H as [H|H]; [discriminate|]).
  by apply not_elem_of_nil in H.
Defined.

(** The metric of an IPv6 route is replaced by its prefix, an address with
    prefix 0 gets 64, and a configuration that cannot be parsed becomes null. *)
Lemma route6_metric_lost :
  let any := encode64 (replicate 16 0) in
  (y ← ip6_route_from_nm (JArr [JStr any; JNum 64; JStr any; JNum 10]); ip6_route_to_nm initial_locale y)
    = inr (JArr [JStr any; JNum 64; JStr any; JNum 64]) /\
  (y ← ip6_address_from_nm (JArr [JStr any; JNum 0; JStr any]); ip6_address_to_nm initial_locale y)
    = inr (JArr [JStr any; JNum 64; JStr any]).
Proof. split; vm_compute; reflexivity. Qed.

(** Where a server stands in its list decides how it is shown and what can be
    typed: the address of zeros is shown in the first place and is empty in the
    others; an empty text is refused in the first place and means the address of
    zeros in the others. *)
Example later_servers :
  map_indexed (ip4_from_nm false) 0 [JNum 0; JNum 0] = inr ["0.0.0.0"; ""] /\
  map_indexed (ip4_to_nm initial_locale false) 0 ["1.1.1.1"; ""] = inr [JNum 16843009; JNum 0] /\
  match map_indexed (ip4_to_nm initial_locale false) 0 [""; "1.1.1.1"] with inl _ => True | inr _ => False end /\
  (let any := encode64 (replicate 16 0) in
   map_indexed ip6_from_nm 0 [JStr any; JStr any] = inr ["0:0:0:0:0:0:0:0"; ""] /\
   map_indexed (ip6_to_nm initial_locale) 0 ["0:0:0:0:0:0:0:1"; ""]
     = inr [JStr (encode64 (replicate 15 0 ++ [1])); JStr any]).
Proof. repeat split; vm_compute; reflexivity. Qed.
