(* ===== verification/NmModel.v ===== *)
(** * The model of NetworkManager (src/pkg/networkmanager/interfaces.js, [NetworkManagerModel])

    The objects of the bus become objects that point at each other.  They are
    kept by path; changed properties are converted and stored; calls that
    refresh an object are counted, and when none is outstanding an export is
    scheduled, which computes the links between connections, interfaces and
    devices in four phases and announces the change.

    Objects live in a heap, since an object that was dropped may still be
    pointed at.  An operation that throws gives [None] and the model as far as
    it got.  Calls on the bus are requests whose replies are events; the listing
    of interfaces, which sorts by the locale, is not modelled. *)

From S2P Require Import Prelude Location Locale Text NmUtils NmSettings.

Inductive otype := TManager | TSettings | TDevice | TIpv4Config | TIpv6Config | TConnection | TActiveConnection | TInterface.

#[export] Instance otype_eq : EqDecision otype.
Proof. solve_decision. Defined.

(** The values of properties: what the bus sent, an object or null, objects,
    and addresses. *)
Inductive pval := PJ (v : jval) | PObject (o : option nat) | PObjects (l : list (option nat)) | PAddresses (l : list (list string)).

Record object := mk_object {
  o_type : otype; o_path : string; o_props : gmap string pval;
  o_settings : option settings; o_orig : option nm_settings;
  o_name : string; o_masters : list nat; o_slaves : list nat; o_interfaces : list nat;
  o_device : option nat; o_non_device : list nat; o_connections : list nat; o_main : option nat }.

#[export] Instance object_settable : Settable object := fun o =>
  mk_object (o_type o) (o_path o) (o_props o) (o_settings o) (o_orig o) (o_name o) (o_masters o) (o_slaves o)
    (o_interfaces o) (o_device o) (o_non_device o) (o_connections o) (o_main o).

(** Calls and programs that were not answered yet. *)
Inductive request :=
  | RGetSettings (obj : nat) | RUdev (obj : nat) | RUpdate (obj : nat) (s : settings) | RAddConnection | RCall.

Inductive nm_effect :=
  | ECall (path iface method : string) (args : list string) | ESettings (method : string) (s : nm_settings)
  | ESpawn (udi : string) | EChanged | EResolve (dfd : nat).

Record model := mk_model {
  heap : gmap nat object; next : nat; objects : list (string * nat);
  outstanding_refreshes : Z; export_pending : bool; export_model_deferred : option nat; next_deferred : nat;
  connections_by_uuid : gmap string nat; pending : list request; effects : list nm_effect }.

#[export] Instance model_settable : Settable model := fun m =>
  mk_model (heap m) (next m) (objects m) (outstanding_refreshes m) (export_pending m) (export_model_deferred m)
    (next_deferred m) (connections_by_uuid m) (pending m) (effects m).

(** ** Operations that may throw *)

Definition M (A : Type) : Type := model -> option A * model.

#[global] Instance M_ret : MRet M := fun A x m => (Some x, m).
#[global] Instance M_bind : MBind M := fun A B f x m =>
  match x m with (Some y, m) => f y m | (None, m) => (None, m) end.

Definition throws {A} : M A := fun m => (None, m).
Definition gets {A} (f : model -> A) : M A := fun m => (Some (f m), m).
Definition modify (f : model -> model) : M unit := fun m => (Some tt, f m).

Fixpoint for_each {A} (f : A -> M unit) (l : list A) : M unit :=
  match l with [] => mret tt | x :: l => f x;; for_each f l end.

Fixpoint mapM_ {A B} (f : A -> M B) (l : list A) : M (list B) :=
  match l with [] => mret [] | x :: l => y ← f x; ys ← mapM_ f l; mret (y :: ys) end.

Definition empty_object : object := mk_object TInterface "" ∅ None None "" [] [] [] None [] [] None.

Definition object_at (m : model) (i : nat) : object := default empty_object (heap m !! i).
Definition modify_object (i : nat) (f : object -> object) : M unit := modify (fun m => m <| heap ::= alter f i |>).
Definition emit (e : nm_effect) : M unit := modify (fun m => m <| effects ::= fun l => l ++ [e] |>).
Definition request_ (r : request) : M unit := modify (fun m => m <| pending ::= fun l => l ++ [r] |>).

(** ** The declarations of the types *)

Inductive conv := CNone | CObject (t : otype) | CObjects (t : otype) | CAddresses4 | CAddresses6 | CDeviceType | CState.
Record prop_decl := mk_decl { p_name : string; p_prop : string; p_conv : conv; p_def : pval; p_trigger : bool }.

Definition plain (name : string) (def : pval) : prop_decl := mk_decl name name CNone def false.
Definition converted (name : string) (c : conv) (def : pval) : prop_decl := mk_decl name name c def false.
Definition undef : pval := PJ JUndef.

Section Model.

Context (st : locale_state) (be : bool) (JSON_parse : string -> option jval) (JSON_stringify : jval -> string).

(** In the order of their declaration; [Slaves] and [Master] are added last. *)
Definition props (t : otype) : list prop_decl :=
  match t with
  | TIpv4Config => [converted "Addresses" CAddresses4 (PAddresses [])]
  | TIpv6Config => [converted "Addresses" CAddresses6 (PAddresses [])]
  | TConnection => [plain "Unsaved" undef]
  | TActiveConnection =>
      [converted "Connection" (CObject TConnection) undef; converted "Ip4Config" (CObject TIpv4Config) undef;
       converted "Ip6Config" (CObject TIpv6Config) undef; converted "Master" (CObject TDevice) undef]
  | TDevice =>
      [converted "DeviceType" CDeviceType undef; plain "Interface" undef;
       mk_decl "StateText" "State" CState (PJ (JStr (gettext st None "Unknown"))) false; plain "State" undef;
       plain "HwAddress" undef; converted "AvailableConnections" (CObjects TConnection) (PObjects []);
       converted "ActiveConnection" (CObject TActiveConnection) undef; converted "Ip4Config" (CObject TIpv4Config) undef;
       converted "Ip6Config" (CObject TIpv6Config) undef; mk_decl "Udi" "Udi" CNone undef true;
       plain "IdVendor" (PJ (JStr "")); plain "IdModel" (PJ (JStr "")); plain "Driver" (PJ (JStr ""));
       plain "Carrier" (PJ (JBool true)); plain "Speed" undef; plain "Managed" (PJ (JBool false));
       converted "Slaves" (CObjects TDevice) (PObjects [])]
  | TSettings => [converted "Connections" (CObjects TConnection) (PObjects [])]
  | TManager =>
      [plain "Version" undef; converted "Devices" (CObjects TDevice) (PObjects []);
       converted "ActiveConnections" (CObjects TActiveConnection) (PObjects [])]
  | TInterface => []
  end.

(** [interface_types]. *)
Definition interface_types (iface : string) : option otype :=
  let nm := "org.freedesktop.NetworkManager" in
  if String.eqb iface nm then Some TManager
  else if String.eqb iface (nm +:+ ".Settings") then Some TSettings
  else if existsb (fun s => String.eqb iface (nm +:+ ".Device" +:+ s)) [""; ".Wired"; ".Bond"; ".Team"; ".Bridge"; ".Vlan"]
  then Some TDevice
  else if String.eqb iface (nm +:+ ".IP4Config") then Some TIpv4Config
  else if String.eqb iface (nm +:+ ".IP6Config") then Some TIpv6Config
  else if String.eqb iface (nm +:+ ".Settings.Connection") then Some TConnection
  else if String.eqb iface (nm +:+ ".Connection.Active") then Some TActiveConnection
  else None.

Definition device_type_to_symbol (type : jval) : string :=
  match type with
  | JNum 0 => "unknown" | JNum 1 => "ethernet" | JNum 2 => "802-11-wireless" | JNum 3 => "unused1"
  | JNum 4 => "unused2" | JNum 5 => "bluetooth" | JNum 6 => "802-11-olpc-mesh" | JNum 7 => "wimax"
  | JNum 8 => "modem" | JNum 9 => "infiniband" | JNum 10 => "bond" | JNum 11 => "vlan" | JNum 12 => "adsl"
  | JNum 13 => "bridge" | JNum 14 => "loopback" | JNum 15 => "team" | JNum 16 => "tun" | JNum 17 => "ip_tunnel"
  | JNum 18 => "macvlan" | JNum 19 => "vxlan" | JNum 20 => "veth"
  | _ => ""
  end.

Definition device_state_to_text (state : jval) : string :=
  let _' := gettext st None in
  match state with
  | JNum 0 => "?" | JNum 10 => "" | JNum 20 => _' "Not available" | JNum 30 => _' "Inactive" | JNum 40 => _' "Preparing"
  | JNum 50 => _' "Configuring" | JNum 60 => _' "Authenticating" | JNum 70 => _' "Configuring IP"
  | JNum 80 => _' "Checking IP" | JNum 90 => _' "Waiting" | JNum 100 => _' "Active" | JNum 110 => _' "Deactivating"
  | JNum 120 => _' "Failed"
  | _ => ""
  end.

(** ** Counting refreshes *)

(** [export_model]; the timer is pending while [export_pending] is set. *)
Definition export_model : M unit := modify (fun m => m <| export_pending := true |>).

Definition push_refresh : M unit := modify (fun m => m <| outstanding_refreshes ::= fun n => n + 1 |>).

Definition pop_refresh : M unit :=
  modify (fun m => m <| outstanding_refreshes ::= fun n => n - 1 |>);;
  n ← gets outstanding_refreshes;
  if n =? 0 then export_model else mret tt.

(** ** Objects *)

Definition objpath (o : option nat) : M string :=
  match o with Some i => m ← gets id; mret (o_path (object_at m i)) | None => mret "/" end.

Definition refresh_settings (obj : nat) : M unit :=
  push_refresh;;
  path ← objpath (Some obj);
  emit (ECall path "org.freedesktop.NetworkManager.Settings.Connection" "GetSettings" []);;
  request_ (RGetSettings obj).

(** [exporters[0]]. *)
Definition export0 (t : otype) (obj : nat) : M unit :=
  match t with
  | TConnection => modify_object obj (fun o => o <| o_masters := [] |> <| o_slaves := [] |> <| o_interfaces := [] |>)
  | TInterface =>
      modify_object obj (fun o =>
        o <| o_device := None |> <| o_non_device := [] |> <| o_connections := [] |> <| o_main := None |>)
  | _ => mret tt
  end.

Definition new_object (path : string) (t : otype) : object :=
  empty_object <| o_type := t |> <| o_path := path |> <| o_props := list_to_map (map (fun p => (p_name p, p_def p)) (props t)) |>.

Definition get_object (path : string) (t : otype) : M (option nat) :=
  if String.eqb path "/" then mret None
  else
    m ← gets id;
    match assoc_get path (objects m) with
    | Some i => mret (Some i)
    | None =>
        let i := next m in
        modify (fun m => m <| heap ::= <[i := new_object path t]> |> <| next := S i |> <| objects ::= assoc_set path i |>);;
        (if decide (t = TConnection) then refresh_settings i else mret tt);;
        export0 t i;;
        mret (Some i)
    end.

Definition peek_object (path : string) : M (option nat) := gets (fun m => assoc_get path (objects m)).

Definition uuid_of (s : option settings) : option string :=
  match s with
  | Some s => let u := c_uuid (connection s) in if truthy u then Some (js_String u) else None
  | None => None
  end.

Definition set_settings (obj : nat) (s : option settings) : M unit :=
  m ← gets id;
  match uuid_of (o_settings (object_at m obj)) with
  | Some u => modify (fun m => m <| connections_by_uuid ::= delete u |>)
  | None => mret tt
  end;;
  modify_object obj (fun o => o <| o_settings := s |>);;
  match uuid_of s with
  | Some u => modify (fun m => m <| connections_by_uuid ::= <[u := obj]> |>)
  | None => mret tt
  end.

Definition drop_object (path : string) : M unit :=
  m ← gets id;
  match assoc_get path (objects m) with
  | Some i =>
      (if decide (o_type (object_at m i) = TConnection) then set_settings i None else mret tt);;
      modify (fun m => m <| objects ::= assoc_del path |>);;
      export_model
  | None => mret tt
  end.

(** ** Properties *)

(** A path of the bus is a string. *)
Definition conv_path (t : otype) (v : jval) : M (option nat) :=
  match v with JStr path => get_object path t | _ => throws end.

Definition lift {A} (r : result A) : M A := match r with inr x => mret x | inl _ => throws end.

Definition convert (c : conv) (v : jval) : M pval :=
  match c with
  | CNone => mret (PJ v)
  | CObject t => o ← conv_path t v; mret (PObject o)
  | CObjects t => match v with JArr l => l ← mapM_ (conv_path t) l; mret (PObjects l) | _ => throws end
  | CAddresses4 => l ← lift (map_array (mapR (ip4_address_from_nm be)) v); mret (PAddresses l)
  | CAddresses6 => l ← lift (map_array (mapR ip6_address_from_nm) v); mret (PAddresses l)
  | CDeviceType => mret (PJ (JStr (device_type_to_symbol v)))
  | CState => mret (PJ (JStr (device_state_to_text v)))
  end.

(** [===]: arrays are made anew and are never the same. *)
Definition same (a b : pval) : bool :=
  match a, b with
  | PJ JUndef, PJ JUndef | PJ JNull, PJ JNull => true
  | PJ (JBool x), PJ (JBool y) => Bool.eqb x y
  | PJ (JNum x), PJ (JNum y) => x =? y
  | PJ (JStr x), PJ (JStr y) => String.eqb x y
  | PObject x, PObject y => bool_decide (x = y)
  | _, _ => false
  end.

Definition prop_of (m : model) (obj : nat) (p : string) : pval := default undef (o_props (object_at m obj) !! p).

Definition refresh_udev (obj : nat) : M unit :=
  m ← gets id;
  match prop_of m obj "Udi" with
  | PJ (JStr udi) =>
      if String.prefix "/sys/" udi then push_refresh;; emit (ESpawn udi);; request_ (RUdev obj) else mret tt
  | _ => throws
  end.

Definition set_property (obj : nat) (from : jobj) (d : prop_decl) : M unit :=
  match prop from (p_prop d) with
  | JUndef => mret tt
  | v =>
      v ← convert (p_conv d) v;
      m ← gets id;
      if same v (prop_of m obj (p_name d)) then mret tt
      else
        modify_object obj (fun o => o <| o_props ::= <[p_name d := v]> |>);;
        if p_trigger d then refresh_udev obj else mret tt
  end.

Definition set_object_properties (obj : nat) (from : jobj) : M unit :=
  m ← gets id;
  for_each (set_property obj from) (props (o_type (object_at m obj))).

Definition remove_signatures (props_with_sigs : gmap string variant) : jobj := v <$> props_with_sigs.

(** ** Events of the bus *)

Definition handle_updated (obj : nat) : M unit := refresh_settings obj.

(** [args] are the properties of a [PropertiesChanged]. *)
Definition signal_emitted (path signal : string) (args : gmap string variant) : M unit :=
  o ← peek_object path;
  match o with
  | Some obj =>
      if String.eqb signal "PropertiesChanged" then
        push_refresh;; set_object_properties obj (remove_signatures args);; pop_refresh
      else
        m ← gets id;
        if decide (o_type (object_at m obj) = TConnection) then
          if String.eqb signal "Updated" then handle_updated obj else mret tt
        else mret tt
  | None => mret tt
  end.

Definition interface_properties (path iface : string) (from : jobj) : M unit :=
  match interface_types iface with
  | Some t =>
      o ← get_object path t;
      match o with Some obj => set_object_properties obj from | None => throws end
  | None => mret tt
  end.

Definition interface_removed (path : string) : M unit := drop_object path.

(** The data of a "notify" event: by path and interface the properties, or
    nothing when the interface is gone. *)
Definition notify (data : list (string * list (string * option jobj))) : M unit :=
  for_each (fun '(path, ifaces) =>
    for_each (fun '(iface, from) =>
      match from with Some from => interface_properties path iface from | None => interface_removed path end) ifaces) data.

(** ** Replies *)

Fixpoint remove_request (p : request -> bool) (l : list request) : list request :=
  match l with [] => [] | r :: l => if p r then l else r :: remove_request p l end.

Definition answered (p : request -> bool) : M unit := modify (fun m => m <| pending ::= remove_request p |>).

(** The reply to [GetSettings]; [None] is a failure. *)
Definition settings_reply (obj : nat) (reply : option nm_settings) : M unit :=
  answered (fun r => match r with RGetSettings i => Nat.eqb i obj | _ => false end);;
  pop_refresh;;
  match reply with
  | Some n =>
      modify_object obj (fun o => o <| o_orig := Some n |>);;
      s ← lift (settings_from_nm st be JSON_parse n);
      set_settings obj (Some s)
  | None => mret tt
  end.

Definition snarf_prop (line env name : string) (from : jobj) : jobj :=
  let prefix := "E: " +:+ env +:+ "=" in
  if String.prefix prefix line then <[name := JStr (String.substring (String.length prefix) (String.length line) line)]> from
  else from.

Definition udev_props (res : string) : jobj :=
  foldl (fun from line =>
    snarf_prop line "ID_VENDOR_FROM_DATABASE" "IdVendor" (snarf_prop line "ID_MODEL_FROM_DATABASE" "IdModel" from))
    ∅ (str_split nl_char res).

(** The end of udevadm; [None] is a failure. *)
Definition udev_reply (obj : nat) (res : option string) : M unit :=
  answered (fun r => match r with RUdev i => Nat.eqb i obj | _ => false end);;
  match res with Some res => set_object_properties obj (udev_props res) | None => mret tt end;;
  pop_refresh.

(** ** The export

    An array of the bus holds no null path; a null in one throws here, in the
    code when it is used. *)

Definition the (o : option nat) : M nat := match o with Some i => mret i | None => throws end.

Definition objects_of (m : model) (obj : nat) (p : string) : list (option nat) :=
  match prop_of m obj p with PObjects l => l | _ => [] end.

Definition interface_path (iface : string) : string := ":interface:" +:+ iface.

Definition get_interface (iface : string) : M (option nat) :=
  o ← get_object (interface_path iface) TInterface;
  match o with
  | Some i => modify_object i (fun o => o <| o_name := iface |>);; mret (Some i)
  | None => throws
  end.

Definition peek_interface (iface : string) : M (option nat) := peek_object (interface_path iface).

(** [array.push] unless it has the element. *)
Definition push_new (c : nat) (l : list nat) : list nat := if decide (c ∈ l) then l else l ++ [c].

Definition add_to_interface (con : nat) (name : jval) : M unit :=
  if truthy name then
    o ← get_interface (js_String name);
    i ← the o;
    modify_object i (fun o => o <| o_non_device ::= push_new con |>)
  else mret tt.

(** Sets [_NonDeviceConnections] of interfaces. *)
Definition export_settings (obj : nat) : M unit :=
  m ← gets id;
  for_each (fun con =>
    con ← the con;
    m ← gets id;
    match o_settings (object_at m con) with
    | Some s =>
        add_to_interface con (c_interface_name (connection s));;
        match bond s with Some b => add_to_interface con (bond_interface_name b) | None => mret tt end;;
        match team s with Some b => add_to_interface con (team_interface_name b) | None => mret tt end;;
        match bridge s with Some b => add_to_interface con (bridge_interface_name b) | None => mret tt end;;
        match vlan s with Some b => add_to_interface con (vlan_interface_name b) | None => mret tt end
    | None => mret tt
    end) (objects_of m obj "Connections").

(** Sets [Device] of interfaces. *)
Definition export_manager (obj : nat) : M unit :=
  m ← gets id;
  for_each (fun dev =>
    dev ← the dev;
    m ← gets id;
    match prop_of m dev "Interface" with
    | PJ name =>
        if truthy name then
          o ← get_interface (js_String name);
          i ← the o;
          modify_object i (fun o => o <| o_device := Some dev |>)
        else mret tt
    | _ => mret tt
    end) (objects_of m obj "Devices").

(** [connection_settings(con).timestamp], undefined when the settings are not
    there; and [<]. *)
Definition timestamp (m : model) (con : nat) : jval :=
  match o_settings (object_at m con) with Some s => c_timestamp (connection s) | None => JUndef end.

Definition js_lt (a b : jval) : bool := match a, b with JNum x, JNum y => x <? y | _, _ => false end.

Definition consider_for_main (m : model) (main : option nat) (con : nat) : option nat :=
  match main with
  | None => Some con
  | Some c => if js_lt (timestamp m c) (timestamp m con) then Some con else main
  end.

(** The connection of the active connection of a device. *)
Definition active_connection (m : model) (dev : nat) : option nat :=
  match prop_of m dev "ActiveConnection" with
  | PObject (Some a) => match prop_of m a "Connection" with PObject c => c | _ => None end
  | _ => None
  end.

(** Sets [Connections] and [MainConnection] of an interface, and [Interfaces] of
    connections; drops an interface without device and connections.  Both arrays
    of an interface are one. *)
Definition export_interface (obj : nat) : M unit :=
  m ← gets id;
  let o := object_at m obj in
  match o_device o, o_non_device o with
  | None, [] => drop_object (o_path o)
  | dev, non_device =>
      available ← match dev with Some d => mapM_ the (objects_of m d "AvailableConnections") | None => mret [] end;
      let cons := foldl (fun l con => push_new con l) non_device available in
      modify_object obj (fun o => o <| o_connections := cons |> <| o_non_device := cons |>);;
      for_each (fun con =>
        modify_object obj (fun o => o <| o_main ::= fun main => consider_for_main m main con |>);;
        modify_object con (fun o => o <| o_interfaces ::= fun l => l ++ [obj] |>)) cons;;
      match dev with
      | Some d =>
          match active_connection m d with
          | Some c => modify_object obj (fun o => o <| o_main := Some c |>)
          | None => mret tt
          end
      | None => mret tt
      end
  end.

Definition link (obj master : nat) : M unit :=
  modify_object obj (fun o => o <| o_masters ::= fun l => l ++ [master] |>);;
  modify_object master (fun o => o <| o_slaves ::= fun l => l ++ [obj] |>).

(** [==] of two types. *)
Definition type_eq (a b : jval) : bool := match a, b with JStr x, JStr y => String.eqb x y | _, _ => false end.

Definition check_con (obj : nat) (con : nat) : M unit :=
  m ← gets id;
  match o_settings (object_at m con), o_settings (object_at m obj) with
  | Some master_settings, Some my_settings =>
      if type_eq (c_type (connection master_settings)) (c_slave_type (connection my_settings)) then link obj con else mret tt
  | _, _ => mret tt
  end.

(** Sets [Masters] and [Slaves] of connections. *)
Definition export_connection (obj : nat) : M unit :=
  m ← gets id;
  match o_settings (object_at m obj) with
  | Some s =>
      let cs := connection s in
      if truthy (c_slave_type cs) then
        match connections_by_uuid m !! js_String (c_master cs) with
        | Some master => link obj master
        | None =>
            iface ← peek_interface (js_String (c_master cs));
            match iface with Some i => for_each (check_con obj) (o_connections (object_at m i)) | None => mret tt end
        end
      else mret tt
  | None => mret tt
  end.

Definition export_phase (phase : nat) (t : otype) (obj : nat) : M unit :=
  match phase, t with
  | 0%nat, t => export0 t obj
  | 1%nat, TSettings => export_settings obj
  | 1%nat, TManager => export_manager obj
  | 2%nat, TInterface => export_interface obj
  | 3%nat, TConnection => export_connection obj
  | _, _ => mret tt
  end.

(** [for (path in objects)]: the paths at the start, those that are gone left
    out.  Objects made meanwhile are interfaces in the second phase, which does
    nothing with them. *)
Definition export_objects (phase : nat) : M unit :=
  m ← gets id;
  for_each (fun path =>
    m ← gets id;
    match assoc_get path (objects m) with
    | Some i => export_phase phase (o_type (object_at m i)) i
    | None => mret tt
    end) (map fst (objects m)).

Definition doit : M unit :=
  for_each export_objects [0; 1; 2; 3]%nat;;
  emit EChanged;;
  m ← gets id;
  match export_model_deferred m with
  | Some d => emit (EResolve d);; modify (fun m => m <| export_model_deferred := None |>)
  | None => mret tt
  end.

(** The timer of [export_model]. *)
Definition timer : M unit := modify (fun m => m <| export_pending := false |>);; doit.

(** ** What the pages call *)

(** The promise of [synchronize]: [None] is settled at once. *)
Definition synchronize : M (option nat) :=
  m ← gets id;
  if outstanding_refreshes m =? 0 then mret None
  else
    match export_model_deferred m with
    | Some d => mret (Some d)
    | None =>
        let d := next_deferred m in
        modify (fun m => m <| export_model_deferred := Some d |> <| next_deferred := S d |>);; mret (Some d)
    end.

Definition call_object_method (obj : option nat) (iface method : string) (args : list string) : M unit :=
  path ← objpath obj; emit (ECall path iface method args);; request_ RCall.

(** [false] when the settings are wrong, the promise is rejected then. *)
Definition apply_settings (obj : nat) (s : settings) : M bool :=
  m ← gets id;
  match settings_to_nm st be JSON_stringify s (default ∅ (o_orig (object_at m obj))) with
  | inr n => emit (ESettings "Update" n);; request_ (RUpdate obj s);; mret true
  | inl _ => mret false
  end.

Definition is_update (obj : nat) (r : request) : bool := match r with RUpdate i _ => Nat.eqb i obj | _ => false end.

(** The reply to [Update]. *)
Definition update_reply (obj : nat) (s : settings) (ok : bool) : M unit :=
  answered (is_update obj);; if ok then set_settings obj (Some s) else mret tt.

Definition get_manager : M (option nat) := get_object "/org/freedesktop/NetworkManager" TManager.
Definition get_settings : M (option nat) := get_object "/org/freedesktop/NetworkManager/Settings" TSettings.

Definition activate (obj dev specific_object : option nat) : M unit :=
  m ← get_manager; c ← objpath obj; d ← objpath dev; s ← objpath specific_object;
  call_object_method m "org.freedesktop.NetworkManager" "ActivateConnection" [c; d; s].

Definition deactivate (obj : option nat) : M unit :=
  m ← get_manager; a ← objpath obj;
  call_object_method m "org.freedesktop.NetworkManager" "DeactivateConnection" [a].

Definition delete_ (obj : option nat) : M unit :=
  call_object_method obj "org.freedesktop.NetworkManager.Settings.Connection" "Delete" [].

Definition disconnect (obj : option nat) : M unit :=
  call_object_method obj "org.freedesktop.NetworkManager.Device" "Disconnect" [].

Definition add_connection (s : settings) : M bool :=
  match settings_to_nm st be JSON_stringify s ∅ with
  | inr n => emit (ESettings "AddConnection" n);; request_ RAddConnection;; mret true
  | inl _ => mret false
  end.

(** The reply to [AddConnection]: the path of the new connection. *)
Definition add_connection_reply (path : option string) : M (option nat) :=
  answered (fun r => match r with RAddConnection => true | _ => false end);;
  match path with Some path => get_object path TConnection | None => mret None end.

(** [activate_with_settings]; there are no settings to merge into. *)
Definition activate_with_settings (s : settings) : M bool :=
  match settings_to_nm st be JSON_stringify s ∅ with
  | inr n => emit (ESettings "AddAndActivateConnection" n);; request_ RCall;; mret true
  | inl _ => mret false
  end.

Definition to_ints (s : string) : list (option Z) :=
  map (fun s => if String.eqb s "" then Some 0 else parseInt (JStr s)) (str_split "." s).

(** [None] is NaN, which is not equal to itself. *)
Fixpoint compare_ints (a b : list (option Z)) (rest : Z) : option Z :=
  match a, b with
  | Some x :: a, Some y :: b => if x =? y then compare_ints a b rest else Some (x - y)
  | _ :: _, _ :: _ => None
  | _, _ => Some rest
  end.

Definition compare_versions (a b : string) : option Z :=
  let a := to_ints a in let b := to_ints b in compare_ints a b (zlen a - zlen b).

Definition at_least_version (current version : string) : bool :=
  match compare_versions current version with Some n => 0 <=? n | None => false end.

(** A new model. *)
Definition no_model : model := mk_model ∅ 0 [] 0 false None 0 ∅ [] [].

Definition initial : model := snd ((get_manager;; get_settings) no_model).

End Model.
