(* ===== verification/NmModelSpec.v ===== *)
(** * The model of NetworkManager settles and its links agree

    Properties of [NmModel.v].  Operations are specified by relations between
    the model before and after; relations that are preorders pass through the
    combinators. *)

From S2P Require Import Prelude Location Locale Text NmUtils NmSettings NmModel.

(** ** What an operation does when it returns *)

Definition does {A} (R : model -> model -> Prop) (x : M A) : Prop := forall m a m', x m = (Some a, m') -> R m m'.

Lemma bind_inv {A B} (x : M A) (f : A -> M B) m b m'' :
  (x ≫= f) m = (Some b, m'') -> exists a m', x m = (Some a, m') /\ f a m' = (Some b, m'').
Proof. unfold mbind, M_bind. destruct (x m) as [[a|] m'] eqn:E; [|done]. intros H. by exists a, m'. Qed.

Section Does.

Context (R : model -> model -> Prop) `{!PreOrder R}.

Lemma does_ret {A} (x : A) : does R (mret x).
Proof. intros m a m' [= _ <-]. reflexivity. Qed.

Lemma does_throws {A} : does R (@throws A).
Proof. by intros m a m'. Qed.

Lemma does_gets {A} (f : model -> A) : does R (gets f).
Proof. intros m a m' [= _ <-]. reflexivity. Qed.

Lemma does_bind {A B} (x : M A) (f : A -> M B) : does R x -> (forall a, does R (f a)) -> does R (x ≫= f).
Proof.
  intros Hx Hf m b m'' (a & m' & E & H)%bind_inv. etrans; [by eapply Hx|by eapply Hf].
Qed.

(** The state that was read is known. *)
Lemma does_read {A} (f : model -> M A) : (forall m0, does (fun m m' => m = m0 -> R m m') (f m0)) -> does R (m ← gets id; f m).
Proof. intros Hf m a m' H. exact (Hf m m a m' H eq_refl). Qed.

Lemma does_modify f : (forall m, R m (f m)) -> does R (modify f).
Proof. intros Hf m a m' [= _ <-]. apply Hf. Qed.

Lemma does_for_each {A} (f : A -> M unit) l : (forall x, does R (f x)) -> does R (for_each f l).
Proof. intros Hf. induction l as [|x l IH]; [apply does_ret|]. by apply does_bind. Qed.

Lemma does_mapM {A B} (f : A -> M B) l : (forall x, does R (f x)) -> does R (mapM_ f l).
Proof.
  intros Hf. induction l as [|x l IH]; [apply does_ret|].
  apply does_bind; [done|]. intros y. apply does_bind; [done|]. intros. apply does_ret.
Qed.

Lemma does_lift {A} (r : result A) : does R (lift r).
Proof. destruct r; [apply does_throws|apply does_ret]. Qed.

Lemma does_the o : does R (the o).
Proof. destruct o; [apply does_ret|apply does_throws]. Qed.

End Does.

Create HintDb does discriminated.
#[export] Hint Extern 1 (does _ (mret _)) => apply does_ret; exact _ : does.
#[export] Hint Extern 1 (does _ (gets _)) => apply does_gets; exact _ : does.
#[export] Hint Extern 1 (does _ (lift _)) => apply does_lift; exact _ : does.
#[export] Hint Extern 1 (does _ (the _)) => apply does_the; exact _ : does.
#[export] Hint Resolve does_throws : does.

(** Go through the combinators and branches of an operation. *)
Ltac does_step :=
  match goal with
  | |- does _ (mbind _ _) => apply does_bind; [exact _|..|intros ?]
  | |- does _ (for_each _ _) => apply does_for_each; [exact _|intros ?]
  | |- does _ (mapM_ _ _) => apply does_mapM; [exact _|intros ?]
  | |- does _ (let '(_, _) := ?x in _) => destruct x
  | |- does _ (let _ := _ in _) => cbv zeta
  | |- does _ (match ?x with _ => _ end) => destruct x
  | |- does _ _ => solve [auto with does]
  end.
Ltac does := repeat does_step.

Section Accounting.

Context (st : locale_state) (be : bool) (JSON_parse : string -> option jval) (JSON_stringify : jval -> string).

Abbreviation get_object := (get_object st).
Abbreviation set_object_properties := (set_object_properties st be).

(** ** Refreshes *)

Definition is_refresh (r : request) : bool := match r with RGetSettings _ | RUdev _ => true | _ => false end.
Definition refreshes (m : model) : Z := zlen (List.filter is_refresh (pending m)).
Definition settled_promises (m : model) : list nat := omap (fun e => match e with EResolve d => Some d | _ => None end) (effects m).

Record keeps (m m' : model) : Prop := {
  k_balance : outstanding_refreshes m' - refreshes m' = outstanding_refreshes m - refreshes m;
  k_grow : outstanding_refreshes m <= outstanding_refreshes m';
  k_pending : export_pending m = true -> export_pending m' = true;
  k_deferred : export_model_deferred m' = export_model_deferred m;
  k_next : next_deferred m' = next_deferred m;
  k_resolved : settled_promises m' = settled_promises m }.

#[export] Instance keeps_preorder : PreOrder keeps.
Proof.
  split; [by split|]. intros x y z [] []. split; [lia|lia|auto|congruence..].
Qed.

Lemma refreshes_app l r (m m' : model) :
  pending m' = pending m ++ l -> zlen (List.filter is_refresh l) = r -> refreshes m' = refreshes m + r.
Proof. intros H <-. unfold refreshes, zlen. rewrite H, List.filter_app, length_app. lia. Qed.

Lemma resolved_app l (m m' : model) :
  effects m' = effects m ++ l -> omap (fun e => match e with EResolve d => Some d | _ => None end) l = [] ->
  settled_promises m' = settled_promises m.
Proof. intros H Hl. unfold settled_promises. by rewrite H, omap_app, Hl, app_nil_r. Qed.

Lemma keeps_object i f : does keeps (modify_object i f).
Proof. by intros m a m' [= _ <-]. Qed.

Lemma keeps_uuid f : does keeps (modify (fun m => m <| connections_by_uuid ::= f |>)).
Proof. by intros m a m' [= _ <-]. Qed.

Lemma keeps_objects f : does keeps (modify (fun m => m <| objects ::= f |>)).
Proof. by intros m a m' [= _ <-]. Qed.

Lemma keeps_new i o n f : does keeps (modify (fun m => m <| heap ::= <[i := o]> |> <| next := n |> <| objects ::= f |>)).
Proof. by intros m a m' [= _ <-]. Qed.

Lemma keeps_export : does keeps export_model.
Proof. by intros m a m' [= _ <-]. Qed.

Lemma keeps_call p i me l : does keeps (emit (ECall p i me l)).
Proof. intros m a m' [= _ <-]. split; try done. by eapply resolved_app. Qed.

Lemma keeps_settings me s : does keeps (emit (ESettings me s)).
Proof. intros m a m' [= _ <-]. split; try done. by eapply resolved_app. Qed.

Lemma keeps_changed : does keeps (emit EChanged).
Proof. intros m a m' [= _ <-]. split; try done. by eapply resolved_app. Qed.

Lemma keeps_request r : is_refresh r = false -> does keeps (request_ r).
Proof.
  intros Hr m a m' [= _ <-]. split; try done. rewrite (refreshes_app [r] 0 m) by (cbn; by rewrite ?Hr). cbn. lia.
Qed.

Lemma keeps_objpath o : does keeps (objpath o).
Proof. destruct o; unfold objpath; does. Qed.

Lemma keeps_peek p : does keeps (peek_object p).
Proof. unfold peek_object. does. Qed.

(** A call that refreshes is counted. *)
Lemma keeps_counted e r : is_refresh r = true -> (forall d, e <> EResolve d) ->
  does keeps (push_refresh;; emit e;; request_ r).
Proof.
  intros Hr He m a m' [= _ <-]. split; try done.
  - rewrite (refreshes_app [r] 1 m); [cbn; lia|done|]. cbn. by rewrite Hr.
  - cbn. lia.
  - apply (resolved_app [e] m); [done|]. cbn. destruct e; try done. by edestruct He.
Qed.

End Accounting.

#[export] Hint Resolve keeps_object keeps_uuid keeps_objects keeps_new keeps_export keeps_call keeps_settings keeps_changed
  keeps_objpath keeps_peek : does.
#[export] Hint Extern 1 (does keeps (request_ _)) => apply keeps_request; reflexivity : does.

Section Accounting.

Context (st : locale_state) (be : bool) (JSON_parse : string -> option jval) (JSON_stringify : jval -> string).

Lemma keeps_refresh_settings i : does keeps (refresh_settings i).
Proof.
  intros m a m' H. apply (keeps_counted (ECall (o_path (object_at m i)) "org.freedesktop.NetworkManager.Settings.Connection" "GetSettings" [])
    (RGetSettings i)) with (a := a); [done|done|]. exact H.
Qed.
Hint Resolve keeps_refresh_settings : does.

Lemma keeps_export0 t i : does keeps (export0 t i).
Proof. unfold export0. does. Qed.
Hint Resolve keeps_export0 : does.

Lemma keeps_get_object p t : does keeps (get_object st p t).
Proof. unfold get_object. does. Qed.
Hint Resolve keeps_get_object : does.

Lemma keeps_set_settings i s : does keeps (set_settings i s).
Proof. unfold set_settings. does. Qed.
Hint Resolve keeps_set_settings : does.

Lemma keeps_drop_object p : does keeps (drop_object p).
Proof. unfold drop_object. does. Qed.
Hint Resolve keeps_drop_object : does.

Lemma keeps_convert c v : does keeps (convert st be c v).
Proof. unfold convert, conv_path. does. Qed.
Hint Resolve keeps_convert : does.

Lemma keeps_refresh_udev i : does keeps (refresh_udev i).
Proof.
  unfold refresh_udev. apply does_bind; [exact _|auto with does|intros m].
  repeat case_match; auto with does. by apply keeps_counted.
Qed.
Hint Resolve keeps_refresh_udev : does.

Lemma keeps_set_object_properties i o : does keeps (set_object_properties st be i o).
Proof. unfold set_object_properties, set_property. does. Qed.
Hint Resolve keeps_set_object_properties : does.

Lemma keeps_get_interface n : does keeps (get_interface st n).
Proof. unfold get_interface. does. Qed.
Hint Resolve keeps_get_interface : does.

Lemma keeps_export_phase n t i : does keeps (export_phase st n t i).
Proof.
  unfold export_phase, export_settings, export_manager, export_interface, export_connection, add_to_interface, peek_interface,
    check_con, link. does.
Qed.
Hint Resolve keeps_export_phase : does.

Lemma keeps_phases l : does keeps (for_each (export_objects st) l).
Proof. unfold export_objects. does. Qed.

Lemma keeps_notify data : does keeps (notify st be data).
Proof. unfold notify, interface_properties, interface_removed. does. Qed.

Lemma keeps_apply i s : does keeps (apply_settings st be JSON_stringify i s).
Proof. unfold apply_settings. does. Qed.

Lemma keeps_add s : does keeps (add_connection st be JSON_stringify s).
Proof. unfold add_connection. does. Qed.

Lemma keeps_call_method o i me l : does keeps (call_object_method o i me l).
Proof. unfold call_object_method. does. Qed.
Hint Resolve keeps_call_method : does.

(** ** The model as a transition system *)

Inductive event :=
  | Signal (path signal : string) (args : gmap string variant)
  | Notify (data : list (string * list (string * option jobj)))
  | SettingsReply (obj : nat) (reply : option nm_settings)
  | UdevReply (obj : nat) (res : option string)
  | UpdateReply (obj : nat) (s : settings) (ok : bool)
  | AddReply (path : option string)
  | TimerFires
  | Synchronize
  | Apply (obj : nat) (s : settings)
  | AddConnection (s : settings)
  | Activate (con dev specific : option nat)
  | CallMethod (o : option nat) (iface method : string) (args : list string).

(** What is asked for: replies to requests, the timer when it is set. *)
Definition enabled (m : model) (e : event) : Prop :=
  match e with
  | SettingsReply i _ => RGetSettings i ∈ pending m
  | UdevReply i _ => RUdev i ∈ pending m
  | UpdateReply i s _ => RUpdate i s ∈ pending m
  | AddReply _ => RAddConnection ∈ pending m
  | TimerFires => export_pending m = true
  | _ => True
  end.

Definition run (e : event) : M unit :=
  match e with
  | Signal path signal args => signal_emitted st be path signal args
  | Notify data => notify st be data
  | SettingsReply i r => settings_reply st be JSON_parse i r
  | UdevReply i r => udev_reply st be i r
  | UpdateReply i s ok => update_reply i s ok
  | AddReply p => add_connection_reply st p;; mret tt
  | TimerFires => timer st
  | Synchronize => synchronize;; mret tt
  | Apply i s => apply_settings st be JSON_stringify i s;; mret tt
  | AddConnection s => add_connection st be JSON_stringify s;; mret tt
  | Activate c d s => activate st c d s
  | CallMethod o i me l => call_object_method o i me l
  end.

(** No handler throws. *)
Inductive reachable : model -> Prop :=
  | reach_initial : reachable (initial st)
  | reach_step m e m' : reachable m -> enabled m e -> run e m = (Some tt, m') -> reachable m'.

(** ** Refreshes are counted and promises settled *)

Definition waiting (m : model) (d : nat) : Prop := export_model_deferred m = Some d.

(** Every promise that was handed out waits or was settled once. *)
Record promises (m : model) : Prop := {
  pr_fresh : forall d, waiting m d -> (d < next_deferred m)%nat /\ d ∉ settled_promises m;
  pr_settled : forall d, (d < next_deferred m)%nat -> waiting m d \/ d ∈ settled_promises m;
  pr_old : Forall (fun d => (d < next_deferred m)%nat) (settled_promises m);
  pr_once : NoDup (settled_promises m) }.

(** [k] refreshes are counted but not asked for. *)
Record counted (k : Z) (m : model) : Prop := {
  ct_balance : outstanding_refreshes m = refreshes m + k;
  ct_waiting : k = 0 -> forall d, waiting m d -> 0 < refreshes m \/ export_pending m = true;
  ct_promises : promises m }.

Lemma refreshes_nonneg m : 0 <= refreshes m.
Proof. unfold refreshes, zlen. lia. Qed.

Lemma keeps_promises m m' : export_model_deferred m' = export_model_deferred m -> next_deferred m' = next_deferred m ->
  settled_promises m' = settled_promises m -> promises m -> promises m'.
Proof. intros H1 H2 H3 []. unfold waiting in *. split; unfold waiting; by rewrite ?H1, ?H2, ?H3. Qed.

Lemma keeps_counts k m m' : keeps m m' -> counted k m -> counted k m'.
Proof.
  intros [] []. split; [lia| |(eapply keeps_promises; [..|eassumption]; done)].
  unfold waiting in *. intros Hk d. rewrite k_deferred0. intros [H|H]%(ct_waiting0 Hk); [left; lia|auto].
Qed.

(** [op] turns one count into another. *)
Definition counts {A} (k k' : Z) (op : M A) : Prop := forall m a m', counted k m -> op m = (Some a, m') -> counted k' m'.

Lemma counts_keeps {A} k (op : M A) : does keeps op -> counts k k op.
Proof. intros H m a m' Hm E. eapply keeps_counts; eauto. Qed.

Lemma counts_bind {A B} k k' k'' (x : M A) (f : A -> M B) :
  counts k k' x -> (forall a, counts k' k'' (f a)) -> counts k k'' (x ≫= f).
Proof.
  intros Hx Hf m b m'' Hm (a & m' & E & H)%bind_inv. eapply Hf; eauto.
Qed.

Lemma counts_push : counts 0 1 push_refresh.
Proof. intros m a m' [] [= _ <-]. split; [cbn; unfold refreshes in *; cbn; lia|done|(eapply keeps_promises; [..|eassumption]; done)]. Qed.

Lemma counts_pop : counts 1 0 pop_refresh.
Proof.
  intros m a m' [Hb _ Hp] H. unfold pop_refresh, mbind, M_bind, gets, modify, export_model in H. cbn in H.
  pose proof (refreshes_nonneg m). destruct (Z.eqb_spec (outstanding_refreshes m - 1) 0); injection H as _ <-.
  - split; [cbn; unfold refreshes in *; cbn; lia|by right|(eapply keeps_promises; [..|eassumption]; done)].
  - split; [cbn; unfold refreshes in *; cbn; lia| |(eapply keeps_promises; [..|eassumption]; done)]. left. unfold refreshes in *. cbn. lia.
Qed.

Lemma remove_request_refreshes p r l :
  (forall x, p x = true -> x = r) -> is_refresh r = true -> p r = true -> r ∈ l ->
  zlen (List.filter is_refresh (remove_request p l)) = zlen (List.filter is_refresh l) - 1.
Proof.
  intros Hp Hr Hpr. induction l as [|x l IH]; [by intros ?%not_elem_of_nil|]. intros Hin. cbn.
  destruct (p x) eqn:E.
  - rewrite (Hp _ E), Hr. unfold zlen. cbn [length]. lia.
  - apply elem_of_cons in Hin as [<-|Hin]; [congruence|]. cbn. specialize (IH Hin). unfold zlen in *.
    destruct (is_refresh x); cbn [length]; lia.
Qed.

Lemma counts_answered p r m a m' :
  (forall x, p x = true -> x = r) -> is_refresh r = true -> p r = true -> r ∈ pending m ->
  counted 0 m -> answered p m = (Some a, m') -> counted 1 m'.
Proof.
  intros Hp Hr Hpr Hin [] [= _ <-]. split; [|done|(eapply keeps_promises; [..|eassumption]; done)].
  cbn. unfold refreshes in *. cbn. rewrite (remove_request_refreshes p r) by done. lia.
Qed.

Lemma remove_other p l : (forall x, p x = true -> is_refresh x = false) ->
  List.filter is_refresh (remove_request p l) = List.filter is_refresh l.
Proof.
  intros Hp. induction l as [|x l IH]; [done|]. cbn. destruct (p x) eqn:E; [by rewrite (Hp _ E)|]. cbn. by rewrite IH.
Qed.

Lemma keeps_answered p : (forall x, p x = true -> is_refresh x = false) -> does keeps (answered p).
Proof.
  intros Hp m a m' [= _ <-].
  assert (refreshes (m <| pending ::= remove_request p |>) = refreshes m) as E
    by (unfold refreshes; cbn; by rewrite remove_other).
  split; try done. by rewrite E.
Qed.

(** The export settles the promise that waits. *)
Lemma timer_result m a m' : timer st m = (Some a, m') ->
  outstanding_refreshes m' - refreshes m' = outstanding_refreshes m - refreshes m /\
  export_model_deferred m' = None /\ next_deferred m' = next_deferred m /\
  settled_promises m' = settled_promises m ++ option_list (export_model_deferred m).
Proof.
  intros H. unfold timer, doit in H. unfold mbind, M_bind in H. cbn [modify fst snd] in H.
  set (m0 := m <| export_pending := false |>) in H.
  destruct (for_each (export_objects st) [0; 1; 2; 3]%nat m0) as [[[]|] m1] eqn:E1; [|done].
  apply keeps_phases in E1. destruct E1 as [Hb1 _ _ Hd1 Hn1 Hr1].
  change (export_model_deferred m0) with (export_model_deferred m) in Hd1. change (settled_promises m0) with (settled_promises m) in Hr1.
  assert (forall l m2, effects m2 = effects m1 ++ EChanged :: l ->
    settled_promises m2 = settled_promises m ++ omap (fun e => match e with EResolve d => Some d | _ => None end) l) as Hrs.
  { intros l m2 E2. rewrite <- Hr1. unfold settled_promises. by rewrite E2, omap_app. }
  rewrite <- Hd1. destruct (export_model_deferred m1) as [d|] eqn:Ed; cbn in H; rewrite Ed in H; injection H as _ <-.
  - split; [exact Hb1|]. split; [done|]. split; [exact Hn1|]. apply (Hrs [EResolve d]). cbn. by rewrite <- app_assoc.
  - split; [exact Hb1|]. split; [exact Ed|]. split; [exact Hn1|]. by apply (Hrs []).
Qed.

Lemma counts_timer m a m' : counted 0 m -> timer st m = (Some a, m') -> counted 0 m'.
Proof.
  intros [Hb _ [Hf Hs Ho Hn]] (Hb' & Hd' & Hn' & Hr')%timer_result. unfold waiting in *.
  split; [lia|by unfold waiting; rewrite Hd'|]. split; unfold waiting; rewrite ?Hd', ?Hn', ?Hr'; [done|..].
  - intros d Hd. right. apply elem_of_app. destruct (Hs d Hd) as [->|]; [right; by left|by left].
  - apply Forall_app. split; [done|]. destruct (export_model_deferred m) as [d|]; [|done]. by apply Forall_singleton, Hf.
  - apply NoDup_app. split; [done|]. destruct (export_model_deferred m) as [d|]; [|split; [set_solver|constructor]].
    split; [|apply NoDup_singleton]. intros x Hx ->%list_elem_of_singleton. by destruct (Hf d eq_refl).
Qed.

Lemma counts_synchronize m a m' : counted 0 m -> synchronize m = (Some a, m') -> counted 0 m'.
Proof.
  intros Hc H. unfold synchronize, mbind, M_bind, gets in H. cbn in H.
  destruct (Z.eqb_spec (outstanding_refreshes m) 0); [by injection H as _ <-|].
  destruct (export_model_deferred m) as [d|] eqn:Ed; injection H as _ <-; [done|].
  destruct Hc as [Hb _ [Hf Hs Ho Hn]]. pose proof (refreshes_nonneg m).
  match goal with |- counted 0 ?m' => set (m2 := m') end.
  assert (refreshes m2 = refreshes m /\ settled_promises m2 = settled_promises m /\ next_deferred m2 = S (next_deferred m)) as (Hr2 & Hv2 & Hn2) by done.
  assert (forall d, waiting m2 d <-> d = next_deferred m) as Hw2 by (intros d; unfold waiting; cbn; split; congruence).
  split; [rewrite Hr2; exact Hb|intros _ d _; left; rewrite Hr2; lia|]. split; rewrite ?Hv2; [..|done].
  - intros d ->%Hw2. rewrite Hn2. split; [lia|]. intros Hin. rewrite Forall_forall in Ho. apply Ho in Hin. lia.
  - intros d Hd. rewrite Hn2 in Hd. rewrite Hw2. destruct (decide (d = next_deferred m)); [by left|right].
    destruct (Hs d) as [Hw|]; [lia| |done]. unfold waiting in Hw. congruence.
  - rewrite Hn2. eapply Forall_impl; [exact Ho|]. intros x Hx. cbv beta in *. lia.
Qed.

Lemma counts_signal p s l : counts 0 0 (signal_emitted st be p s l).
Proof.
  unfold signal_emitted. eapply counts_bind; [apply counts_keeps; auto with does|]. intros [i|]; [|apply counts_keeps; does].
  destruct (String.eqb s _).
  - eapply counts_bind; [apply counts_push|intros _]. eapply counts_bind; [apply counts_keeps; auto with does|intros _].
    apply counts_pop.
  - apply counts_keeps. unfold handle_updated. does.
Qed.

Lemma counts_settings_reply i r m a m' :
  RGetSettings i ∈ pending m -> counted 0 m -> settings_reply st be JSON_parse i r m = (Some a, m') -> counted 0 m'.
Proof.
  intros Hin Hm H. unfold settings_reply in H.
  apply bind_inv in H as (? & m1 & E1 & H).
  apply (counts_answered _ (RGetSettings i)) in E1; [| |done|apply Nat.eqb_refl|done|done].
  2: { by intros [j|j|j s| |] H'; [apply Nat.eqb_eq in H' as ->|..]. }
  apply bind_inv in H as (? & m2 & E2 & H). apply counts_pop in E2; [|done].
  revert H. apply (counts_keeps 0); [|done]. does.
Qed.

Lemma counts_udev_reply i r m a m' :
  RUdev i ∈ pending m -> counted 0 m -> udev_reply st be i r m = (Some a, m') -> counted 0 m'.
Proof.
  intros Hin Hm H. unfold udev_reply in H.
  apply bind_inv in H as (? & m1 & E1 & H).
  apply (counts_answered _ (RUdev i)) in E1; [| |done|apply Nat.eqb_refl|done|done].
  2: { by intros [j|j|j s| |] H'; try done; apply Nat.eqb_eq in H' as ->. }
  revert H. apply (counts_bind 1 1 0); [|intros _; apply counts_pop|done]. apply counts_keeps. does.
Qed.

Lemma counts_run e m m' : enabled m e -> counted 0 m -> run e m = (Some tt, m') -> counted 0 m'.
Proof.
  intros He Hm H. destruct e as [p s l|data|i r|i r|i s ok|p| | |i s|s|c d s|o i me l]; cbn in He, H.
  - by eapply counts_signal.
  - by eapply (counts_keeps 0), H; [apply keeps_notify|].
  - by eapply counts_settings_reply.
  - by eapply counts_udev_reply.
  - eapply (counts_keeps 0), H; [|done]. unfold update_reply.
    apply does_bind; [exact _|apply keeps_answered; by intros []|intros _]. does.
  - eapply (counts_keeps 0), H; [|done]. unfold add_connection_reply.
    apply does_bind; [exact _| |intros _; does].
    apply does_bind; [exact _|apply keeps_answered; by intros []|intros _]. does.
  - by eapply counts_timer.
  - apply bind_inv in H as (d & m1 & E & [= <-]). by eapply counts_synchronize.
  - eapply (counts_keeps 0), H; [|done]. apply does_bind; [exact _|apply keeps_apply|intros; does].
  - eapply (counts_keeps 0), H; [|done]. apply does_bind; [exact _|apply keeps_add|intros; does].
  - eapply (counts_keeps 0), H; [|done]. unfold activate, get_manager. does.
  - eapply (counts_keeps 0), H; [|done]. auto with does.
Qed.

Lemma reachable_counted m : reachable m -> counted 0 m.
Proof.
  induction 1 as [|m e m' _ IH He H]; [|by eapply counts_run].
  unfold initial. destruct ((get_manager st;; get_settings st) no_model) as [a m'] eqn:E.
  assert (counted 0 no_model) as H0.
  { split; [done|by intros _ d|]. split; [by intros d|by intros d ?%Nat.nlt_0_r|constructor|constructor]. }
  assert (a = Some (Some 1%nat)) as -> by (injection E as <- <-; done).
  eapply (counts_keeps 0), E; [|done]. unfold get_manager, get_settings. does.
Qed.

(** C24. The promises of [synchronize].  In every reachable model the refreshes
    that are counted are those the bus has not answered.  Every promise that was
    handed out is either the one that waits or was settled, once.  While one
    waits, a refresh is unanswered or the export is scheduled; and the export
    announces the change and settles it.  This is about runs in which no handler
    throws; one that does can leave a refresh counted that nothing ends, so that a
    promise waits for ever, see [refresh_stuck]. *)
Theorem synchronize_settles m : reachable m ->
  outstanding_refreshes m = refreshes m /\
  (forall d, (d < next_deferred m)%nat -> (waiting m d /\ d ∉ settled_promises m) \/ (~ waiting m d /\ d ∈ settled_promises m)) /\
  NoDup (settled_promises m) /\
  (forall d, waiting m d -> 0 < refreshes m \/ export_pending m = true) /\
  (forall d m', waiting m d -> run TimerFires m = (Some tt, m') ->
    settled_promises m' = settled_promises m ++ [d] /\ forall d', ~ waiting m' d').
Proof.
  intros Hm. pose proof (reachable_counted m Hm) as [Hb Hw Hp].
  pose proof Hp as [Hf Hs Ho Hn]. split_and!; [lia| |done|by apply Hw|].
  - intros d Hd. destruct (Hs d Hd) as [H|H]; [left; split; [done|by apply Hf]|right]. split; [|done].
    intros Hx. by apply Hf in Hx as [_ Hx].
  - intros d m' Hwd H. apply timer_result in H as (_ & Hd' & _ & ->). unfold waiting in *. rewrite Hwd, Hd'. by split.
Qed.

End Accounting.

(** ** A bridge and its port *)

Section Scenario.

Let s (l : list (string * string * jval)) : section := list_to_map (map (fun '(k, t, v) => (k, MkVariant t v)) l).

Definition bridge_connection : nm_settings :=
  {["connection" := s [("type", "s", JStr "bridge"); ("uuid", "s", JStr "u1"); ("interface-name", "s", JStr "br0");
                       ("timestamp", "t", JNum 7)]]}.
Definition port_connection : nm_settings :=
  {["connection" := s [("type", "s", JStr "802-3-ethernet"); ("uuid", "s", JStr "u2"); ("interface-name", "s", JStr "eth0");
                       ("slave-type", "s", JStr "bridge"); ("master", "s", JStr "u1")]]}.

(** Both are announced and listed, a page waits, and their settings arrive. *)
Definition bridge_events : list event :=
  let con := "org.freedesktop.NetworkManager.Settings.Connection" in
  [Notify [("/c1", [(con, Some ∅)]); ("/c2", [(con, Some ∅)]);
           ("/org/freedesktop/NetworkManager/Settings",
            [("org.freedesktop.NetworkManager.Settings", Some {["Connections" := JArr [JStr "/c1"; JStr "/c2"]]})])];
   Synchronize; SettingsReply 2 (Some bridge_connection); SettingsReply 3 (Some port_connection)].

Definition some_run (e : event) (m : model) : option unit * model :=
  run initial_locale false (fun _ => None) (fun _ => "") e m.

Definition after (l : list event) : model := foldl (fun m e => snd (some_run e m)) (initial initial_locale) l.
Definition bridge_model : model := after bridge_events.

Abbreviation some_reachable := (reachable initial_locale false (fun _ => None) (fun _ => "")).

Lemma run_returns e m : fst (some_run e m) = Some tt -> some_run e m = (Some tt, snd (some_run e m)).
Proof. by destruct (some_run e m) as [[[]|] ?]. Qed.

Lemma reach_after l e : some_reachable (after l) -> enabled (after l) e -> fst (some_run e (after l)) = Some tt ->
  some_reachable (after (l ++ [e])).
Proof.
  intros Hl He Hr. unfold after. rewrite foldl_app. cbn [foldl]. fold (after l).
  eapply reach_step; [exact Hl|exact He|]. by apply run_returns.
Qed.

Lemma bridge_reachable : some_reachable bridge_model.
Proof.
  unfold bridge_model, bridge_events.
  apply (reach_after [_; _; _]); [apply (reach_after [_; _]); [apply (reach_after [_]); [apply (reach_after []); [apply reach_initial|..]|..]|..]|..].
  - exact I.
  - vm_compute. reflexivity.
  - exact I.
  - vm_compute. reflexivity.
  - apply (list_elem_of_lookup_2 _ 0). vm_compute. reflexivity.
  - vm_compute. reflexivity.
  - apply (list_elem_of_lookup_2 _ 0). vm_compute. reflexivity.
  - vm_compute. reflexivity.
Qed.

End Scenario.

Lemma bridge_waits : waiting bridge_model 0.
Proof. vm_compute. reflexivity. Qed.
Lemma bridge_quiet : refreshes bridge_model = 0.
Proof. vm_compute. reflexivity. Qed.
Lemma bridge_timer : fst (some_run TimerFires bridge_model) = Some tt.
Proof. vm_compute. reflexivity. Qed.

#[global] Opaque bridge_model.

Lemma synchronize_settles_witness :
  waiting bridge_model 0 /\ refreshes bridge_model = 0 /\ export_pending bridge_model = true /\
  settled_promises (snd (some_run TimerFires bridge_model)) = settled_promises bridge_model ++ [0%nat].
Proof.
  destruct (synchronize_settles initial_locale false (fun _ => None) (fun _ => "") bridge_model bridge_reachable)
    as (_ & _ & _ & Hw & Ht).
  split; [exact bridge_waits|]. split; [exact bridge_quiet|]. split.
  - destruct (Hw 0%nat bridge_waits) as [H|H]; [rewrite bridge_quiet in H; by apply Z.lt_irrefl in H|exact H].
  - exact (proj1 (Ht 0%nat _ bridge_waits (run_returns TimerFires _ bridge_timer))).
Defined.

(** ** What the comments promise and the code does not do *)

(** Properties that come with "notify" change the model without an export: no
    event tells. *)
Lemma notify_unannounced :
  let manager := [("/org/freedesktop/NetworkManager", [("org.freedesktop.NetworkManager", Some {["Version" := JStr "1.8"]})])] in
  let m := snd (some_run (Notify manager) (initial initial_locale)) in
  prop_of m 0 "Version" = PJ (JStr "1.8") /\ export_pending m = false /\ outstanding_refreshes m = 0.
Proof. repeat split; vm_compute; reflexivity. Qed.

(** An object that goes away schedules an export, which settles the promise of
    [synchronize] although the settings of another have not arrived. *)
Lemma settled_early :
  let con := "org.freedesktop.NetworkManager.Settings.Connection" in
  let m := after [Notify [("/c1", [(con, Some ∅)]); ("/c2", [(con, Some ∅)])]; SettingsReply 2 (Some bridge_connection);
                  Synchronize; Notify [("/c1", [(con, None)])]; TimerFires] in
  settled_promises m = [0%nat] /\ refreshes m = 1 /\ outstanding_refreshes m = 1.
Proof. repeat split; vm_compute; reflexivity. Qed.

(** A changed property that cannot be converted leaves a refresh counted that
    nothing ends. *)
Lemma refresh_stuck :
  let m0 := after [Notify [("/4", [("org.freedesktop.NetworkManager.IP4Config", Some ∅)])]] in
  let r := some_run (Signal "/4" "PropertiesChanged" {["Addresses" := MkVariant "u" (JNum 1)]}) m0 in
  fst r = None /\ outstanding_refreshes (snd r) = 1 /\ pending (snd r) = [].
Proof. repeat split; vm_compute; reflexivity. Qed.
