(* ===== verification/NmLinks.v ===== *)
(** * The links that the export computes

    After an export the links between the objects of [NmModel.v] agree with each
    other: connections with interfaces, masters with slaves; and the main
    connection of an interface is the active one or the latest. *)

From S2P Require Import Prelude Location Locale Text NmUtils NmSettings NmModel NmModelSpec.

(** ** Loops with an invariant *)

Lemma for_each_inv {A} (I : list A -> model -> Prop) (f : A -> M unit) l :
  (forall d x r m m', l = d ++ x :: r -> I d m -> f x m = (Some tt, m') -> I (d ++ [x]) m') ->
  forall m m', I [] m -> for_each f l m = (Some tt, m') -> I l m'.
Proof.
  intros Hf. cut (forall r d m m', l = d ++ r -> I d m -> for_each f r m = (Some tt, m') -> I l m'); [intros H m m'; by apply (H l [])|].
  induction r as [|x r IH]; intros d m m' E Hd H.
  - injection H as <-. by rewrite app_nil_r in E; subst d.
  - cbn in H. apply bind_inv in H as ([] & m1 & H1 & H2).
    apply (IH (d ++ [x]) m1 m'); [by rewrite <- app_assoc|by eapply Hf|done].
Qed.

(** ** Objects *)

Lemma object_at_alter m i f j :
  object_at (m <| heap ::= alter f i |>) j =
    if decide (i = j /\ is_Some (heap m !! j)) then f (object_at m j) else object_at m j.
Proof.
  unfold object_at. cbn. destruct (decide _) as [[<- [o Ho]]|Hn].
  - by rewrite lookup_alter_eq, Ho.
  - destruct (decide (i = j)) as [<-|]; [|by rewrite lookup_alter_ne].
    rewrite lookup_alter_eq. destruct (heap m !! i) eqn:E; [|done]. destruct Hn. by split.
Qed.

Lemma is_Some_alter (h : gmap nat object) f i j : is_Some (alter f i h !! j) <-> is_Some (h !! j).
Proof.
  destruct (decide (i = j)) as [<-|]; [rewrite lookup_alter_eq, fmap_is_Some|rewrite lookup_alter_ne by done]; done.
Qed.

Lemma object_at_alter_in m i f j : is_Some (heap m !! j) ->
  object_at (m <| heap ::= alter f i |>) j = (if decide (i = j) then f else id) (object_at m j).
Proof.
  intros Hj. rewrite object_at_alter. destruct (decide (i = j)); [by rewrite decide_True|by rewrite decide_False by tauto].
Qed.

(** What no export changes of an object. *)
Definition base (o : object) : otype * string * gmap string pval * option settings :=
  (o_type o, o_path o, o_props o, o_settings o).

Record wf (m : model) : Prop := {
  wf_keys : NoDup (objects m).*1;
  wf_heap : forall p i, assoc_get p (objects m) = Some i -> is_Some (heap m !! i);
  wf_path : forall p i, assoc_get p (objects m) = Some i -> o_path (object_at m i) = p;
  wf_next : forall i, is_Some (heap m !! i) -> (i < next m)%nat }.

(** Well-formed models stay so. *)
Definition evolves (m m' : model) : Prop := wf m -> wf m'.

#[export] Instance evolves_preorder : PreOrder evolves.
Proof. split; unfold evolves; auto. Qed.

Lemma evolves_same m m' : heap m' = heap m -> next m' = next m -> objects m' = objects m -> evolves m m'.
Proof. intros Hh Hn Ho []. split; unfold object_at in *; by rewrite ?Hh, ?Hn, ?Ho. Qed.

Lemma evolves_modify f :
  (forall m, heap (f m) = heap m /\ next (f m) = next m /\ objects (f m) = objects m) -> does evolves (modify f).
Proof. intros Hf m a m' [= _ <-]. destruct (Hf m) as (H1 & H2 & H3). by apply evolves_same. Qed.

Lemma evolves_object i f : (forall o, o_path (f o) = o_path o) -> does evolves (modify_object i f).
Proof.
  intros Hf m a m' [= _ <-] []. split; cbn; try done.
  - intros p j Hj. apply is_Some_alter. by eapply wf_heap0.
  - intros p j Hj. rewrite object_at_alter. case_decide; rewrite ?Hf; by apply wf_path0.
  - intros j Hj%is_Some_alter. by apply wf_next0.
Qed.

Lemma evolves_new path o : (forall m, assoc_get path (objects m) = None -> o_path o = path ->
  evolves m (m <| heap ::= <[next m := o]> |> <| next := S (next m) |> <| objects ::= assoc_set path (next m) |>)).
Proof.
  intros m Hp Ho Hwf. destruct Hwf. assert (heap m !! next m = None) as Hf.
  { apply eq_None_not_Some. intros H%wf_next0. lia. }
  split; cbn.
  - by apply assoc_set_nodup.
  - intros p i. rewrite assoc_get_set. destruct (String.eqb_spec path p) as [<-|].
    + intros [= <-]. by rewrite lookup_insert_eq.
    + intros H%wf_heap0. destruct (decide (next m = i)) as [<-|]; [by rewrite lookup_insert_eq|by rewrite lookup_insert_ne].
  - intros p i. rewrite assoc_get_set. unfold object_at. cbn. destruct (String.eqb_spec path p) as [<-|].
    + intros [= <-]. by rewrite lookup_insert_eq.
    + intros H. pose proof (wf_heap0 _ _ H) as [o' Ho']. rewrite lookup_insert_ne by congruence. by apply wf_path0.
  - intros i. destruct (decide (next m = i)) as [<-|]; [lia|]. rewrite lookup_insert_ne by done. intros H%wf_next0. lia.
Qed.

Lemma evolves_drop p : does evolves (modify (fun m => m <| objects ::= assoc_del p |>)).
Proof.
  intros m a m' [= _ <-] []. split; cbn; try done.
  - by apply assoc_del_nodup.
  - intros q i. rewrite assoc_get_del. destruct (String.eqb p q); [done|]. apply wf_heap0.
  - intros q i. rewrite assoc_get_del. destruct (String.eqb p q); [done|]. apply wf_path0.
Qed.

#[export] Hint Extern 1 (does evolves (modify _)) => apply evolves_drop : does.
#[export] Hint Extern 2 (does evolves (modify _)) => apply evolves_modify; intros; by split_and! : does.
#[export] Hint Extern 1 (does evolves (modify_object _ _)) => apply evolves_object; done : does.
#[export] Hint Extern 1 (does evolves (emit _)) => apply evolves_modify; intros; by split_and! : does.
#[export] Hint Extern 1 (does evolves (request_ _)) => apply evolves_modify; intros; by split_and! : does.
#[export] Hint Extern 1 (does evolves (answered _)) => apply evolves_modify; intros; by split_and! : does.
#[export] Hint Extern 1 (does evolves push_refresh) => apply evolves_modify; intros; by split_and! : does.
#[export] Hint Extern 1 (does evolves export_model) => apply evolves_modify; intros; by split_and! : does.

Section Links.

Context (st : locale_state) (be : bool) (JSON_parse : string -> option jval) (JSON_stringify : jval -> string).

Lemma evolves_objpath o : does evolves (objpath o).
Proof. destruct o; unfold objpath; does. Qed.
Hint Resolve evolves_objpath : does.

Lemma evolves_pop : does evolves pop_refresh.
Proof. unfold pop_refresh. does. Qed.
Hint Resolve evolves_pop : does.

Lemma evolves_get_object p t : does evolves (get_object st p t).
Proof.
  unfold get_object. destruct (String.eqb p "/"); [does|]. intros m a m' H.
  apply bind_inv in H as (? & ? & [= <- <-] & H). unfold id in H.
  destruct (assoc_get p (objects m)) as [i|] eqn:E; [by injection H as _ <-|].
  apply bind_inv in H as (? & m1 & [= _ <-] & H). trans (m <| heap ::= <[next m := new_object st p t]> |>
    <| next := S (next m) |> <| objects ::= assoc_set p (next m) |>); [by apply evolves_new|].
  revert H. match goal with |- ?op _ = _ -> _ => cut (does evolves op); [intros Hd H; by eapply Hd|] end.
  unfold refresh_settings, export0. does.
Qed.
Hint Resolve evolves_get_object : does.

Lemma evolves_run e : does evolves (run st be JSON_parse JSON_stringify e).
Proof.
  unfold run, signal_emitted, notify, interface_properties, interface_removed, settings_reply, udev_reply, update_reply,
    add_connection_reply, timer, doit, synchronize, apply_settings, add_connection, activate, get_manager, handle_updated,
    call_object_method, refresh_settings, drop_object, set_settings, set_object_properties, set_property, convert, conv_path,
    refresh_udev, export_objects, export_phase, export0, export_settings, export_manager, export_interface, export_connection,
    check_con, link, add_to_interface, peek_interface, peek_object, get_interface, drop_object, set_settings.
  does.
Qed.

Lemma evolves_export_phase n t i : does evolves (export_phase st n t i).
Proof.
  unfold export_phase, export0, export_settings, export_manager, export_interface, export_connection, check_con, link,
    add_to_interface, peek_interface, peek_object, get_interface, drop_object, set_settings. does.
Qed.

Hint Resolve evolves_export_phase : does.

Lemma evolves_export_objects n : does evolves (export_objects st n).
Proof. unfold export_objects. does. Qed.

Lemma reachable_wf m : reachable st be JSON_parse JSON_stringify m -> wf m.
Proof.
  induction 1 as [|m e m' _ IH _ H]; [|by eapply evolves_run].
  unfold initial. destruct ((get_manager st;; get_settings st) no_model) as [a m'] eqn:E.
  assert (a = Some (Some 1%nat)) as -> by (injection E as <- <-; done).
  cut (evolves no_model m'); [|eapply (does_bind evolves), E; unfold get_manager, get_settings; intros; auto with does].
  intros H. apply H. split; [constructor|done|done|by intros i []].
Qed.

(** ** The first phase: links are reset *)

Definition live (m : model) (i : nat) (t : otype) : Prop :=
  exists p, assoc_get p (objects m) = Some i /\ o_type (object_at m i) = t.

Definition same_base (m m' : model) : Prop :=
  forall i, is_Some (heap m !! i) -> is_Some (heap m' !! i) /\ base (object_at m' i) = base (object_at m i).

#[local] Instance same_base_preorder : PreOrder same_base.
Proof.
  split; [done|]. intros x y z Hxy Hyz i Hi. destruct (Hxy i Hi) as [Hy E]. destruct (Hyz i Hy) as [Hz E']. split; [done|congruence].
Qed.

Lemma base_type o o' : base o' = base o -> o_type o' = o_type o.
Proof. by intros [= ?]. Qed.

(** An object whose links the phases may start from. *)
Definition ready_object (o : object) : Prop :=
  match o_type o with
  | TConnection => o_masters o = [] /\ o_slaves o = [] /\ o_interfaces o = []
  | TInterface => o_connections o = [] /\ o_main o = None /\ NoDup (o_non_device o)
  | _ => True
  end.

Definition ready (m : model) : Prop := forall p i, assoc_get p (objects m) = Some i -> ready_object (object_at m i).

Definition reset (t : otype) (o : object) : object :=
  match t with
  | TConnection => o <| o_masters := [] |> <| o_slaves := [] |> <| o_interfaces := [] |>
  | TInterface => o <| o_device := None |> <| o_non_device := [] |> <| o_connections := [] |> <| o_main := None |>
  | _ => o
  end.

Lemma reset_ready o t : o_type o = t -> ready_object (reset t o) /\ base (reset t o) = base o.
Proof. intros <-. unfold ready_object, base. destruct o as [[] ]; cbn; repeat split; constructor. Qed.

Lemma ready_reset o t : ready_object o -> ready_object (reset t o).
Proof. unfold ready_object, reset. destruct o as [[] ], t; cbn; intuition constructor. Qed.

Lemma export0_result t i m m' : export0 t i m = (Some tt, m') ->
  objects m' = objects m /\ forall j, (is_Some (heap m !! j) -> is_Some (heap m' !! j)) /\
    object_at m' j = (if decide (i = j /\ is_Some (heap m !! j)) then reset t else id) (object_at m j).
Proof.
  unfold export0. destruct t; intros [= <-]; (split; [done|]); intros j;
    try (split; [done|]; by destruct (decide _)).
  all: split; [intros; by apply is_Some_alter|]; rewrite object_at_alter; by destruct (decide _).
Qed.

(** The objects at the start are visited in turn. *)
Lemma export_objects_visits n m m' (I : list string -> model -> Prop) :
  export_objects st n m = (Some tt, m') -> I [] m ->
  (forall d p m1 m2, I d m1 -> assoc_get p (objects m1) = None -> m2 = m1 -> I (d ++ [p]) m2) ->
  (forall d p i m1 m2, p ∈ (objects m).*1 -> p ∉ d -> I d m1 -> assoc_get p (objects m1) = Some i ->
    export_phase st n (o_type (object_at m1 i)) i m1 = (Some tt, m2) -> I (d ++ [p]) m2) ->
  wf m -> I ((objects m).*1) m'.
Proof.
  intros H H0 Hnone Hsome Hwf. unfold export_objects in H. apply bind_inv in H as (? & ? & [= <- <-] & H). unfold id in H.
  refine (for_each_inv I _ _ _ _ _ H0 H). intros d p r m1 m2 E Hd H1.
  apply bind_inv in H1 as (? & ? & [= <- <-] & H1). unfold id in H1.
  destruct (assoc_get p (objects m1)) as [i|] eqn:Ei; [|injection H1 as <-; by eapply Hnone].
  pose proof (wf_keys m Hwf) as Hk. change (map fst (objects m)) with ((objects m).*1) in E. rewrite E in Hk.
  apply NoDup_app in Hk as (_ & Hk & _). eapply (Hsome d); [rewrite E; set_solver| |done..].
  intros Hin. by apply (Hk p Hin), elem_of_cons; left.
Qed.

Lemma phase0 m m' : wf m -> export_objects st 0 m = (Some tt, m') ->
  objects m' = objects m /\ same_base m m' /\ ready m'.
Proof.
  intros Hwf H.
  pose (I := fun (d : list string) (m1 : model) => objects m1 = objects m /\ same_base m m1 /\
    forall p i, p ∈ d -> assoc_get p (objects m) = Some i -> ready_object (object_at m1 i)).
  destruct (export_objects_visits 0 m m' I H) as (H1 & H2 & H3); [..|done|].
  - split; [done|]. split; [done|]. by intros p i ?%not_elem_of_nil.
  - intros d p m1 m2 (Ho & Hb & Hr) Hp ->. split; [done|]. split; [done|].
    intros q i [Hq| ->%list_elem_of_singleton]%elem_of_app Hi; [by eapply Hr|congruence].
  - intros d p i m1 m2 _ _ (Ho & Hb & Hr) Hp H1. cbn in H1. apply export0_result in H1 as [Ho1 H1].
    rewrite Ho in Hp. pose proof (wf_heap m Hwf p i Hp) as Hi. destruct (Hb i Hi) as [Hi1 Eb].
    split; [congruence|]. split; [|intros q j Hq Hj].
    + intros j Hj. destruct (Hb j Hj) as [Hj1 Ej]. destruct (H1 j) as [Hj2 ->]. split; [auto|]. rewrite <- Ej.
      destruct (decide _) as [[-> _]|]; [|done]. by apply reset_ready.
    + destruct (H1 j) as [_ ->]. destruct (decide (i = j)) as [<-|Hij].
      * rewrite decide_True by done. by apply reset_ready.
      * rewrite decide_False by tauto. apply elem_of_app in Hq as [Hq| ->%list_elem_of_singleton]; [by eapply Hr|congruence].
  - split; [done|]. split; [done|]. intros p i Hp. rewrite H1 in Hp. eapply H3; [|done].
    apply assoc_get_elem in Hp. apply list_elem_of_fmap. by exists (p, i).
Qed.

(** ** The second phase: interfaces get their devices and connections *)

Definition prepares (m m' : model) : Prop := wf m -> wf m' /\ same_base m m' /\ (ready m -> ready m').

#[local] Instance prepares_preorder : PreOrder prepares.
Proof.
  split; [by intros m Hm|]. intros x y z Hxy Hyz Hx. destruct (Hxy Hx) as (Hy & B & R), (Hyz Hy) as (Hz & B' & R').
  split; [done|]. split; [by etrans|auto].
Qed.

Lemma same_base_object i f m : (forall o, base (f o) = base o) -> same_base m (m <| heap ::= alter f i |>).
Proof.
  intros Hf j Hj. split; [by apply is_Some_alter|]. rewrite object_at_alter. by destruct (decide _).
Qed.

Lemma prepares_object i f : (forall o, base (f o) = base o /\ (ready_object o -> ready_object (f o))) ->
  does prepares (modify_object i f).
Proof.
  intros Hf m a m' H Hwf. split; [eapply (evolves_object i f); [|done..]; intros o; by destruct (Hf o) as [[= _ ?] _]|].
  injection H as _ <-. split; [apply same_base_object; intros; apply Hf|].
  intros Hr p j Hj. rewrite object_at_alter. destruct (decide _); [apply Hf|]; by apply (Hr p).
Qed.

Lemma prepares_interface name : does prepares (get_interface st name).
Proof.
  unfold get_interface. apply does_bind; [exact _| |intros [i|]; [|auto with does]].
  - intros m a m' H Hwf. split; [by eapply evolves_get_object|]. unfold get_object in H.
    destruct (String.eqb _ "/"); [by injection H as _ <-|]. apply bind_inv in H as (? & ? & [= <- <-] & H). unfold id in H.
    destruct (assoc_get _ (objects m)) as [i|] eqn:E; [by injection H as _ <-|].
    injection H as _ <-. generalize dependent (interface_path name). intros p E. split.
    + intros i Hi. pose proof (wf_next m Hwf i Hi). unfold object_at. cbn.
      rewrite lookup_alter_ne, lookup_insert_ne by lia. done.
    + intros Hr q j. unfold object_at. cbn. rewrite assoc_get_set. destruct (String.eqb_spec p q) as [<-|].
      * intros Hj. injection Hj as <-. rewrite lookup_alter_eq, lookup_insert_eq. cbn. by repeat split; constructor.
      * intros Hj. pose proof (wf_next m Hwf j (wf_heap m Hwf q j Hj)).
        rewrite lookup_alter_ne, lookup_insert_ne by lia. by apply (Hr q).
  - apply does_bind; [exact _| |intros; auto with does]. apply prepares_object. by intros [].
Qed.
Hint Resolve prepares_interface : does.

Lemma push_new_nodup c l : NoDup l -> NoDup (push_new c l).
Proof.
  intros Hl. unfold push_new. destruct (decide _); [done|]. apply NoDup_app. split; [done|]. split; [set_solver|apply NoDup_singleton].
Qed.

Lemma prepares_phase n t i : n = 1%nat -> does prepares (export_phase st n t i).
Proof.
  intros ->. unfold export_phase, export_settings, export_manager, add_to_interface. destruct t; does.
  all: apply prepares_object; intros [[] ]; cbn; (split; [done|]); intuition auto using push_new_nodup.
Qed.

Lemma phase1 : does prepares (export_objects st 1).
Proof. unfold export_objects. does. by apply prepares_phase. Qed.

(** ** The third phase: connections and interfaces *)

(** Visiting the connections of an interface. *)
Lemma visit_connections m0 i cons : forall m m',
  for_each (fun con =>
    modify_object i (fun o => o <| o_main ::= fun main => consider_for_main m0 main con |>);;
    modify_object con (fun o => o <| o_interfaces ::= fun l => l ++ [i] |>)) cons m = (Some tt, m') ->
  objects m' = objects m /\
  forall j, is_Some (heap m !! j) -> is_Some (heap m' !! j) /\ object_at m' j =
    (if decide (i = j) then set_field o_main (fun main => foldl (consider_for_main m0) main cons) else id) (object_at m j)
      <| o_interfaces ::= fun l => l ++ concat (map (fun c => if decide (c = j) then [i] else []) cons) |>.
Proof.
  induction cons as [|c cons IH]; intros m m' H.
  - injection H as <-. split; [done|]. intros j Hj. split; [done|]. destruct (object_at m j).
    destruct (decide _); cbv [set_field]; cbn; by rewrite app_nil_r.
  - cbn [for_each] in H. apply bind_inv in H as (? & m1 & H1 & H). apply bind_inv in H1 as (? & m2 & E2 & E1).
    injection E2 as _ <-. injection E1 as _ <-. apply IH in H as [H1 H2]. split; [exact H1|].
    intros j Hj. destruct (H2 j) as [Hs ->]; [cbn; by do 2 apply is_Some_alter|]. split; [done|].
    rewrite !object_at_alter_in by (done || by apply is_Some_alter). cbn [map concat foldl].
    destruct (object_at m j). destruct (decide (i = j)), (decide (c = j)); cbv [set_field id]; cbn;
      by rewrite ?app_nil_r, <- ?app_assoc.
Qed.

Lemma concat_once (i j : nat) cons : NoDup cons ->
  concat (map (fun c => if decide (c = j) then [i] else []) cons) = if decide (j ∈ cons) then [i] else [].
Proof.
  induction 1 as [|c cons Hc _ IH]; [by rewrite decide_False by apply not_elem_of_nil|]. cbn. rewrite IH.
  destruct (decide (c = j)) as [->|Hcj].
  - rewrite (decide_False (P := j ∈ cons)) by done. by rewrite decide_True by (by apply elem_of_cons; left).
  - destruct (decide (j ∈ cons)) as [Hj|Hj]; [rewrite decide_True by (by apply elem_of_cons; right)|
      rewrite decide_False by (by intros [->|]%elem_of_cons)]; done.
Qed.

Lemma push_all_nodup l : forall l0, NoDup l0 -> NoDup (foldl (fun l c => push_new c l) l0 l).
Proof. induction l as [|c l IH]; intros l0 H; [done|]. cbn. by apply IH, push_new_nodup. Qed.

Lemma push_all_nonempty l : forall l0, l0 <> [] -> foldl (fun l c => push_new c l) l0 l <> [].
Proof.
  induction l as [|c l IH]; intros l0 H; [done|]. cbn. apply IH. unfold push_new. destruct (decide _); [done|]. by destruct l0.
Qed.

(** The connection of the active one, or the last of the latest. *)
Definition main_of (m : model) (dev : option nat) (cons : list nat) (main : option nat) : option nat :=
  match dev ≫= active_connection m with Some c => Some c | None => foldl (consider_for_main m) main cons end.

Definition with_connections (cons : list nat) (main : option nat) (o : object) : object :=
  o <| o_connections := cons |> <| o_non_device := cons |> <| o_main := main |>.

Lemma get_in_place {A} (r : M A) m a m' : does eq r -> r m = (Some a, m') -> m' = m.
Proof. intros Hr H. symmetry. by eapply Hr. Qed.

(** The part of [export_interface] after the test. *)
Lemma export_interface_links m i dev non_device available m' :
  NoDup non_device -> is_Some (heap m !! i) ->
  (let cons := foldl (fun l con => push_new con l) non_device available in
   modify_object i (fun o => o <| o_connections := cons |> <| o_non_device := cons |>);;
   for_each (fun con =>
     modify_object i (fun o => o <| o_main ::= fun main => consider_for_main m main con |>);;
     modify_object con (fun o => o <| o_interfaces ::= fun l => l ++ [i] |>)) cons;;
   match dev with
   | Some d =>
       match active_connection m d with
       | Some c => modify_object i (fun o => o <| o_main := Some c |>)
       | None => mret tt
       end
   | None => mret tt
   end) m = (Some tt, m') ->
  let cons := foldl (fun l con => push_new con l) non_device available in
  objects m' = objects m /\ forall j, is_Some (heap m !! j) -> is_Some (heap m' !! j) /\
    object_at m' j =
      (if decide (i = j) then with_connections cons (main_of m dev cons (o_main (object_at m i))) else id) (object_at m j)
        <| o_interfaces ::= fun l => l ++ if decide (j ∈ cons) then [i] else [] |>.
Proof.
  intros Hnd Hi H cons. fold cons in H. apply bind_inv in H as (? & m1 & E1 & H). injection E1 as _ <-.
  apply bind_inv in H as ([] & m2 & E2 & H). apply visit_connections in E2 as [Ho2 H2].
  assert (objects m' = objects m2 /\ forall j, is_Some (heap m2 !! j) -> is_Some (heap m' !! j) /\
    object_at m' j = (if decide (i = j) then
      (fun o => o <| o_main ::= fun main => match dev ≫= active_connection m with Some c => Some c | None => main end |>) else id)
      (object_at m2 j)) as [Ho3 H3].
  { unfold mbind, option_bind. destruct dev as [d|]; [destruct (active_connection m d)|]; injection H as <-; split; try done; intros j Hj.
    - split; [by apply is_Some_alter|]. by rewrite object_at_alter_in.
    - split; [done|]. destruct (decide _), (object_at m2 j); done.
    - split; [done|]. destruct (decide _), (object_at m2 j); done. }
  split; [etrans; [exact Ho3|exact Ho2]|]. intros j Hj. destruct (H2 j) as [Hj2 E]; [by apply is_Some_alter|].
  destruct (H3 j Hj2) as [Hj3 ->]. split; [done|]. rewrite E. clear E H2 H3. rewrite object_at_alter_in by done.
  rewrite concat_once by (by apply push_all_nodup). unfold main_of, with_connections.
  destruct (decide (i = j)) as [<-|]; destruct (object_at m _); cbv [set_field id]; cbn; [|done].
  by destruct (dev ≫= active_connection m).
Qed.

Lemma export_interface_result m p i m' :
  wf m -> assoc_get p (objects m) = Some i -> o_type (object_at m i) = TInterface -> NoDup (o_non_device (object_at m i)) ->
  export_interface i m = (Some tt, m') ->
  (objects m' = assoc_del p (objects m) /\ heap m' = heap m) \/
  (objects m' = objects m /\ exists cons, NoDup cons /\ (o_device (object_at m i) <> None \/ cons <> []) /\
    forall j, is_Some (heap m !! j) -> is_Some (heap m' !! j) /\
      object_at m' j =
        (if decide (i = j) then with_connections cons (main_of m (o_device (object_at m i)) cons (o_main (object_at m i))) else id)
          (object_at m j) <| o_interfaces ::= fun l => l ++ if decide (j ∈ cons) then [i] else [] |>).
Proof.
  intros Hwf Hp Ht Hnd H. unfold export_interface in H. apply bind_inv in H as (? & ? & [= <- <-] & H). unfold id in H.
  pose proof (wf_heap m Hwf p i Hp) as Hi.
  destruct (o_device (object_at m i)) as [d|] eqn:Ed.
  - right. apply bind_inv in H as (available & m1 & E1 & H).
    apply get_in_place in E1 as ->; [|does].
    apply (export_interface_links m i (Some d)) in H as [Ho H]; [|done|done]. split; [done|].
    eexists. split; [by apply push_all_nodup|]. split; [by left|exact H].
  - destruct (o_non_device (object_at m i)) as [|c l] eqn:El.
    + left. unfold drop_object in H. rewrite (wf_path m Hwf p i Hp) in H.
      apply bind_inv in H as (? & ? & [= <- <-] & H). unfold id in H. rewrite Hp in H. rewrite decide_False in H by congruence.
      injection H as <-. done.
    + right. apply bind_inv in H as (available & m1 & E1 & H).
      apply get_in_place in E1 as ->; [|does].
      apply (export_interface_links m i None) in H as [Ho H]; [|done|done]. split; [done|].
      eexists. split; [by apply push_all_nodup|]. split; [right; by apply push_all_nonempty|exact H].
Qed.

(** ** Links agree *)

(** The same objects are there. *)
Definition ids (m m' : model) : Prop := forall i, is_Some (heap m' !! i) <-> is_Some (heap m !! i).

#[local] Instance ids_preorder : PreOrder ids.
Proof. unfold ids. split; [done|]. intros x y z H1 H2 i. by rewrite H2, H1. Qed.

Lemma ids_object i f : does ids (modify_object i f).
Proof. intros m a m' [= _ <-] j. apply is_Some_alter. Qed.

Lemma ids_modify f : (forall m, heap (f m) = heap m) -> does ids (modify f).
Proof. intros Hf m a m' [= _ <-] j. by rewrite Hf. Qed.
Hint Resolve ids_object : does.
Hint Extern 1 (does ids (modify _)) => by apply ids_modify : does.
Hint Extern 1 (does ids export_model) => by apply ids_modify : does.

Lemma ids_export_interface i : does ids (export_interface i).
Proof. unfold export_interface, drop_object, set_settings. does. Qed.

Definition bases (m m' : model) : Prop := forall i, base (object_at m' i) = base (object_at m i).

Lemma same_base_bases m m' : ids m m' -> same_base m m' -> bases m m'.
Proof.
  intros Hi Hb i. destruct (heap m !! i) as [o|] eqn:E; [apply Hb; by rewrite E|].
  unfold object_at. rewrite E. destruct (heap m' !! i) eqn:E'; [|done].
  assert (is_Some (heap m !! i)) as [? ?] by (apply Hi; by rewrite E'). congruence.
Qed.

Lemma bases_type m m' i : bases m m' -> o_type (object_at m' i) = o_type (object_at m i).
Proof. intros H. by apply base_type. Qed.

Lemma bases_settings m m' i : bases m m' -> o_settings (object_at m' i) = o_settings (object_at m i).
Proof. intros H. specialize (H i). by injection H. Qed.

Lemma bases_prop m m' i p : bases m m' -> prop_of m' i p = prop_of m i p.
Proof. intros H. specialize (H i). unfold prop_of. by injection H as _ _ -> _. Qed.

Lemma bases_main m m' dev cons main : bases m m' -> main_of m' dev cons main = main_of m dev cons main.
Proof.
  intros H. unfold main_of. replace (dev ≫= active_connection m') with (dev ≫= active_connection m).
  - destruct (dev ≫= active_connection m); [done|]. revert main. induction cons as [|c cons IH]; intros main; [done|]. cbn.
    replace (consider_for_main m' main c) with (consider_for_main m main c); [apply IH|].
    unfold consider_for_main, timestamp. destruct main as [x|]; [|done].
    by rewrite !(bases_settings m m' _ H).
  - destruct dev as [d|]; [|done]. cbn. unfold active_connection. rewrite (bases_prop m m' _ _ H).
    destruct (prop_of m d "ActiveConnection") as [|[a|]| |]; try done. by rewrite (bases_prop m m' _ _ H).
Qed.

(** An interface that was visited. *)
Definition linked (m : model) (i : nat) : Prop :=
  let o := object_at m i in
  (o_device o <> None \/ o_connections o <> []) /\ NoDup (o_connections o) /\
  o_main o = main_of m (o_device o) (o_connections o) None.

Definition unlinked (o : object) : Prop := o_connections o = [] /\ o_main o = None /\ NoDup (o_non_device o).

(** Connections and interfaces know each other. *)
Record agree (m : model) (c : nat) : Prop := {
  ag_masters : o_masters (object_at m c) = [];
  ag_slaves : o_slaves (object_at m c) = [];
  ag_interfaces : forall i, i ∈ o_interfaces (object_at m c) <-> live m i TInterface /\ c ∈ o_connections (object_at m i);
  ag_once : NoDup (o_interfaces (object_at m c)) }.

(** The third phase, when the paths [d] were visited. *)
Record visited (m : model) (d : list string) (m1 : model) : Prop := {
  v_wf : wf m1;
  v_ids : ids m m1;
  v_bases : bases m m1;
  v_objects : forall p i, assoc_get p (objects m1) = Some i -> assoc_get p (objects m) = Some i;
  v_agree : forall c, live m1 c TConnection -> agree m1 c;
  v_done : forall p i, assoc_get p (objects m1) = Some i -> o_type (object_at m1 i) = TInterface -> p ∈ d -> linked m1 i;
  v_todo : forall p i, assoc_get p (objects m1) = Some i -> o_type (object_at m1 i) = TInterface -> p ∉ d ->
    unlinked (object_at m1 i) }.

Lemma wf_injective m p q i : wf m -> assoc_get p (objects m) = Some i -> assoc_get q (objects m) = Some i -> p = q.
Proof. intros Hwf Hp Hq. rewrite <- (wf_path m Hwf p i Hp). by apply wf_path. Qed.

Lemma live_type m i t t' : live m i t -> live m i t' -> t = t'.
Proof. intros (p & _ & <-) (q & _ & <-). done. Qed.

Lemma visited_drop m d p i m1 m2 :
  visited m d m1 -> p ∉ d -> assoc_get p (objects m1) = Some i -> o_type (object_at m1 i) = TInterface ->
  wf m2 -> objects m2 = assoc_del p (objects m1) -> heap m2 = heap m1 -> visited m (d ++ [p]) m2.
Proof.
  intros [Hwf Hi Hb Ho Ha Hd Ht] Hp Hpi Hty Hwf2 Ho2 Hh.
  assert (forall j, object_at m2 j = object_at m1 j) as Hat by (intros j; unfold object_at; by rewrite Hh).
  assert (forall q j, assoc_get q (objects m2) = Some j <-> q <> p /\ assoc_get q (objects m1) = Some j) as Hg.
  { intros q j. rewrite Ho2, assoc_get_del. destruct (String.eqb_spec p q); [|naive_solver]. subst. split; [done|by intros []]. }
  assert (forall j t, live m2 j t <-> live m1 j t /\ j <> i) as Hl.
  { intros j t. unfold live. setoid_rewrite Hg. setoid_rewrite Hat. split.
    - intros (q & [Hq Hj] & Htj). split; [by exists q|]. intros ->. by apply Hq, (wf_injective m1 q p i).
    - intros [(q & Hj & Htj) Hne]. exists q. split; [|done]. split; [|done]. intros ->. congruence. }
  pose proof (Ht p i Hpi Hty Hp) as (Hci & _ & _).
  split; try done.
  - intros j. by rewrite Hh.
  - intros j. by rewrite Hat.
  - intros q j [_ Hq]%Hg. by apply Ho.
  - intros c [Hc Hne]%Hl. destruct (Ha c Hc) as [A1 A2 A3 A4]. split; rewrite ?Hat; try done.
    intros j. rewrite A3, Hl, Hat. split; [|tauto]. intros [Hj Hcj]. split; [|done]. split; [done|]. intros ->.
    rewrite Hci in Hcj. by apply not_elem_of_nil in Hcj.
  - intros q j [Hne Hq]%Hg Htj Hin. rewrite Hat in Htj.
    apply elem_of_app in Hin as [Hin| ->%list_elem_of_singleton]; [|done].
    pose proof (Hd q j Hq Htj Hin) as Hlk. unfold linked in *. rewrite Hat.
    rewrite (bases_main m1 m2) by (intros x; by rewrite Hat). done.
  - intros q j [Hne Hq]%Hg Htj Hin. rewrite Hat in *. apply (Ht q); [done..|]. intros H. by apply Hin, elem_of_app; left.
Qed.

Lemma visited_link m d p i m1 m2 cons :
  visited m d m1 -> p ∉ d -> assoc_get p (objects m1) = Some i -> o_type (object_at m1 i) = TInterface ->
  wf m2 -> ids m1 m2 -> objects m2 = objects m1 -> NoDup cons -> (o_device (object_at m1 i) <> None \/ cons <> []) ->
  (forall j, is_Some (heap m1 !! j) -> object_at m2 j =
    (if decide (i = j) then with_connections cons (main_of m1 (o_device (object_at m1 i)) cons (o_main (object_at m1 i))) else id)
      (object_at m1 j) <| o_interfaces ::= fun l => l ++ if decide (j ∈ cons) then [i] else [] |>) ->
  visited m (d ++ [p]) m2.
Proof.
  intros [Hwf Hi Hb Ho Ha Hd Ht] Hp Hpi Hty Hwf2 Hids Ho2 Hcons Hdev Hat.
  pose proof (Ht p i Hpi Hty Hp) as (Hci & Hmi & _).
  assert (bases m1 m2) as Hb2.
  { apply same_base_bases; [done|]. intros j Hj. split; [by apply Hids|]. rewrite (Hat j Hj).
    destruct (object_at m1 j). by destruct (decide (i = j)). }
  assert (forall j t, live m2 j t <-> live m1 j t) as Hl.
  { intros j t. unfold live. rewrite Ho2. by setoid_rewrite (bases_type m1 m2 _ Hb2). }
  assert (forall q j, assoc_get q (objects m1) = Some j -> is_Some (heap m1 !! j)) as Hin by apply Hwf.
  assert (forall j, i <> j -> is_Some (heap m1 !! j) -> o_connections (object_at m2 j) = o_connections (object_at m1 j)) as Hcn.
  { intros j Hj Hs. rewrite (Hat j Hs), (decide_False (P := i = j)) by done. done. }
  assert (o_connections (object_at m2 i) = cons) as Hcn2.
  { rewrite (Hat i (Hin p i Hpi)), (decide_True (P := i = i)) by done. done. }
  split; try done.
  - by etrans.
  - intros j. by rewrite Hb2.
  - intros q j. rewrite Ho2. apply Ho.
  - intros c Hc%Hl. pose proof Hc as (q & Hq & Htc). destruct (Ha c Hc) as [A1 A2 A3 A4].
    assert (i <> c) as Hne by congruence.
    assert (i ∉ o_interfaces (object_at m1 c)) as Hni.
    { rewrite A3, Hci. intros [_ Hx]. by apply not_elem_of_nil in Hx. }
    pose proof (Hat c (Hin q c Hq)) as E. rewrite (decide_False (P := i = c)) in E by done.
    assert (o_interfaces (object_at m2 c) = o_interfaces (object_at m1 c) ++ if decide (c ∈ cons) then [i] else []) as Ei by (by rewrite E).
    split; [by rewrite E|by rewrite E|..].
    + intros j. rewrite Ei, elem_of_app, A3, Hl. destruct (decide (i = j)) as [<-|Hj].
      * rewrite Hcn2, Hci. destruct (decide (c ∈ cons)) as [Hx|Hx].
        -- split; [intros _; split; [by exists p|done]|intros _; right; by left].
        -- split; [intros [[_ H]|H]; by apply not_elem_of_nil in H|by intros [_ ?]].
      * assert (live m1 j TInterface -> o_connections (object_at m2 j) = o_connections (object_at m1 j)) as Hcj
          by (intros (q' & Hq' & _); apply Hcn; [done|by eapply Hin]).
        split; [|intros [H1 H2]; left; by rewrite <- Hcj].
        intros [[H1 H2]|H]; [by rewrite Hcj|]. destruct (decide (c ∈ cons)); [by apply list_elem_of_singleton in H|by apply not_elem_of_nil in H].
    + rewrite Ei. destruct (decide (c ∈ cons)); [|by rewrite app_nil_r]. apply NoDup_app. split; [done|].
      split; [|apply NoDup_singleton]. by intros x Hx ->%list_elem_of_singleton.
  - intros q j Hq Htj Hin'. rewrite Ho2 in Hq. rewrite (bases_type m1 m2 _ Hb2) in Htj.
    unfold linked. rewrite (bases_main m1 m2) by done. apply elem_of_app in Hin' as [Hin'| ->%list_elem_of_singleton].
    + assert (i <> j) as Hne by (intros ->; apply Hp; by rewrite (wf_injective m1 p q j)).
      pose proof (Hat j (Hin q j Hq)) as E. rewrite (decide_False (P := i = j)) in E by done. rewrite E.
      exact (Hd q j Hq Htj Hin').
    + assert (j = i) as -> by congruence. rewrite (Hat i (Hin p i Hpi)), (decide_True (P := i = i)) by done. rewrite Hmi. done.
  - intros q j Hq Htj Hin'. rewrite Ho2 in Hq. rewrite (bases_type m1 m2 _ Hb2) in Htj.
    assert (i <> j) as Hne.
    { intros ->. apply Hin', elem_of_app. right. apply list_elem_of_singleton. by apply (wf_injective m1 q p j). }
    unfold unlinked. rewrite (Hat j (Hin q j Hq)), (decide_False (P := i = j)) by done.
    apply (Ht q); [done..|]. intros H. by apply Hin', elem_of_app; left.
Qed.

Lemma phase2 m m' : wf m -> ready m -> export_objects st 2 m = (Some tt, m') -> visited m (objects m).*1 m'.
Proof.
  intros Hwf Hr H. apply (export_objects_visits 2 m m' (visited m)) in H; [done|..|done].
  - split; try done.
    + intros c (p & Hp & Hc). pose proof (Hr p c Hp) as Hrc. unfold ready_object in Hrc. rewrite Hc in Hrc.
      destruct Hrc as (H1 & H2 & H3). split; rewrite ?H1, ?H2, ?H3; [done..| |constructor]. intros i.
      split; [by intros ?%not_elem_of_nil|]. intros ((q & Hq & Hi) & Hin).
      pose proof (Hr q i Hq) as Hri. unfold ready_object in Hri. rewrite Hi in Hri. destruct Hri as (E & _ & _).
      rewrite E in Hin. by apply not_elem_of_nil in Hin.
    + by intros p i _ _ ?%not_elem_of_nil.
    + intros p i Hp Hi _. pose proof (Hr p i Hp) as Hri. unfold ready_object in Hri. by rewrite Hi in Hri.
  - intros d p m1 m2 [] Hp ->. split; try done.
    + intros q i Hq Hi Hin. apply elem_of_app in Hin as [Hin| ->%list_elem_of_singleton]; [by eapply v_done0|congruence].
    + intros q i Hq Hi Hin. apply (v_todo0 q); [done..|]. intros Hx. by apply Hin, elem_of_app; left.
  - intros d p i m1 m2 _ Hd Hv Hp H1. pose proof Hv as [Hwf1 _ _ _ _ _ Ht].
    assert (wf m2) as Hwf2.
    { revert H1 Hwf1. generalize (o_type (object_at m1 i)). intros t H1. revert H1. apply (evolves_export_phase 2 t i). }
    destruct (decide (o_type (object_at m1 i) = TInterface)) as [E|E].
    + rewrite E in H1. cbn in H1. pose proof (ids_export_interface i _ _ _ H1) as Hids.
      apply (export_interface_result m1 p i m2) in H1 as [[Ho Hh]|(Ho & cons & Hn & Hne & Hat)]; [| |done|done|done|by destruct (Ht p i Hp E Hd) as (_ & _ & ?)].
      * by eapply visited_drop.
      * eapply visited_link; [done..|]. intros j Hj. by apply Hat.
    + assert (m2 = m1) as -> by (destruct (o_type (object_at m1 i)); try done; change ((Some tt, m1) = (Some tt, m2)) in H1; congruence). destruct Hv. split; try done.
      * intros q j Hq Hj Hin. apply elem_of_app in Hin as [Hin| ->%list_elem_of_singleton]; [by eapply v_done0|congruence].
      * intros q j Hq Hj Hin. apply (v_todo0 q); [done..|]. intros Hx. by apply Hin, elem_of_app; left.
Qed.

(** ** The fourth phase: masters and slaves *)

Definition mutual (m : model) : Prop := forall c k, live m c TConnection -> live m k TConnection ->
  k ∈ o_masters (object_at m c) <-> c ∈ o_slaves (object_at m k).

(** What the phase leaves alone. *)
Definition view (o : object) := (base o, o_interfaces o, o_connections o, o_device o, o_main o).

Definition ties (m m' : model) : Prop := wf m ->
  wf m' /\ objects m' = objects m /\ (forall i, view (object_at m' i) = view (object_at m i)) /\ (mutual m -> mutual m').

#[local] Instance ties_preorder : PreOrder ties.
Proof.
  split; [by intros m Hm|]. intros x y z Hxy Hyz Hx. destruct (Hxy Hx) as (Hy & O & V & M), (Hyz Hy) as (Hz & O' & V' & M').
  split; [done|]. split; [congruence|]. split; [|auto]. intros i. by rewrite V', V.
Qed.

Lemma live_same m m' i t : objects m' = objects m -> (forall i, view (object_at m' i) = view (object_at m i)) ->
  live m' i t <-> live m i t.
Proof.
  intros Ho Hv. unfold live. rewrite Ho. assert (forall i, o_type (object_at m' i) = o_type (object_at m i)) as Ht.
  { intros j. specialize (Hv j). unfold view in Hv. apply base_type. congruence. }
  by setoid_rewrite Ht.
Qed.

Lemma ties_link a b : does ties (link a b).
Proof.
  intros m [] m' H Hwf. unfold link in H. apply bind_inv in H as (? & m1 & [= _ <-] & [= <-]).
  set (m1 := m <| heap ::= alter (fun o => o <| o_masters ::= fun l => l ++ [b] |>) a |>).
  set (m2 := m1 <| heap ::= alter (fun o => o <| o_slaves ::= fun l => l ++ [a] |>) b |>).
  assert (forall i, view (object_at m2 i) = view (object_at m i)) as Hv.
  { intros i. unfold m2. rewrite object_at_alter. unfold m1. rewrite object_at_alter.
    destruct (object_at m i). destruct (decide _), (decide _); reflexivity. }
  split; [|split; [done|split; [exact Hv|]]].
  { eapply (evolves_object b); [|reflexivity|]; [done|]. eapply (evolves_object a); [|reflexivity|done]. done. }
  intros Hm c k Hc Hk. apply (live_same m m2 c _ eq_refl Hv) in Hc. apply (live_same m m2 k _ eq_refl Hv) in Hk.
  specialize (Hm c k Hc Hk). destruct Hc as (p & Hp & _), Hk as (q & Hq & _).
  pose proof (wf_heap m Hwf p c Hp) as Hc. pose proof (wf_heap m Hwf q k Hq) as Hk.
  assert (forall j, is_Some (heap m !! j) -> object_at m2 j =
    (if decide (b = j) then set_field o_slaves (fun l => l ++ [a]) else id)
      ((if decide (a = j) then set_field o_masters (fun l => l ++ [b]) else id) (object_at m j))) as E.
  { intros j Hj. unfold m2. rewrite object_at_alter_in by (by apply is_Some_alter). unfold m1. by rewrite object_at_alter_in. }
  assert (o_masters (object_at m2 c) = o_masters (object_at m c) ++ if decide (a = c) then [b] else []) as ->.
  { rewrite (E c Hc). destruct (object_at m c), (decide (b = c)), (decide (a = c)); cbv [set_field id]; cbn; rewrite ?app_nil_r; reflexivity. }
  assert (o_slaves (object_at m2 k) = o_slaves (object_at m k) ++ if decide (b = k) then [a] else []) as ->.
  { rewrite (E k Hk). destruct (object_at m k), (decide (b = k)), (decide (a = k)); cbv [set_field id]; cbn; rewrite ?app_nil_r; reflexivity. }
  rewrite !elem_of_app, Hm. generalize (c ∈ o_slaves (object_at m k)). clear. intros X.
  destruct (decide (a = c)), (decide (b = k)); rewrite ?list_elem_of_singleton, ?elem_of_nil; intuition congruence.
Qed.
Hint Resolve ties_link : does.

Lemma phase3 : does ties (export_objects st 3).
Proof.
  unfold export_objects. apply does_bind; [exact _|auto with does|intros m].
  apply does_for_each; [exact _|intros p]. apply does_bind; [exact _|auto with does|intros m1].
  destruct (assoc_get p _) as [i|]; [|auto with does].
  destruct (o_type _); cbn; auto with does. unfold export_connection, check_con, peek_interface, peek_object. does.
Qed.

(** The main connection is one of the interface, and none is later. *)
Lemma main_latest m cons : cons <> [] -> (forall c, c ∈ cons -> exists t, timestamp m c = JNum t) ->
  exists x, foldl (consider_for_main m) None cons = Some x /\ x ∈ cons /\
    forall c, c ∈ cons -> js_lt (timestamp m x) (timestamp m c) = false.
Proof.
  intros Hne Ht. destruct cons as [|c0 cons]; [done|]. clear Hne. cbn [foldl consider_for_main].
  cut (forall l d x, (forall c, c ∈ d ++ l -> exists t, timestamp m c = JNum t) -> x ∈ d ->
    (forall c, c ∈ d -> js_lt (timestamp m x) (timestamp m c) = false) ->
    exists y, foldl (consider_for_main m) (Some x) l = Some y /\ y ∈ d ++ l /\
      forall c, c ∈ d ++ l -> js_lt (timestamp m y) (timestamp m c) = false).
  { intros H. apply (H cons [c0] c0); [done|by left|]. intros c ->%list_elem_of_singleton.
    destruct (Ht c0) as [t ->]; [by left|]. apply Z.ltb_irrefl. }
  clear c0 cons Ht. intros l. induction l as [|c l IH]; intros d x Ht Hx Hd.
  - rewrite app_nil_r. by exists x.
  - cbn [foldl consider_for_main]. rewrite (cons_middle c d l), app_assoc in *.
    assert (forall c', c' ∈ d -> exists t, timestamp m c' = JNum t) as Htd
      by (intros c' Hc; apply Ht; rewrite !elem_of_app; by left; left).
    destruct (Ht c) as [tc Ec]; [rewrite !elem_of_app; left; right; by left|]. destruct (Htd x Hx) as [tx Ex].
    destruct (js_lt (timestamp m x) (timestamp m c)) eqn:E; (apply IH; [exact Ht|apply elem_of_app|]).
    + right. by left.
    + intros c' [Hc'| ->%list_elem_of_singleton]%elem_of_app; [|rewrite Ec; apply Z.ltb_irrefl].
      destruct (Htd c' Hc') as [t' Et]. specialize (Hd c' Hc'). rewrite Ex, Ec, Et in *. cbn in *. lia.
    + by left.
    + intros c' [Hc'| ->%list_elem_of_singleton]%elem_of_app; [by apply Hd|done].
Qed.

(** ** The export *)

Definition announces (m m' : model) : Prop := heap m' = heap m /\ objects m' = objects m.

#[local] Instance announces_preorder : PreOrder announces.
Proof. split; [done|]. intros x y z [] []. split; congruence. Qed.

Lemma announces_rest : does announces (emit EChanged;;
  m ← gets id;
  match export_model_deferred m with
  | Some d => emit (EResolve d);; modify (fun m => m <| export_model_deferred := None |>)
  | None => mret tt
  end).
Proof. does; by intros ? ? ? [= _ <-]. Qed.

(** C25. The export of a reachable model, when it returns: a connection lists an
    interface exactly when the interface is there and lists the connection, once
    each; of two connections one is a master exactly when the other is its
    slave; every interface that is left has a device or a connection; and its
    main connection is the active one, or else one of its connections that no
    other is later than. *)
Theorem export_links m m' :
  reachable st be JSON_parse JSON_stringify m -> doit st m = (Some tt, m') ->
  (forall c i, live m' c TConnection ->
    i ∈ o_interfaces (object_at m' c) <-> live m' i TInterface /\ c ∈ o_connections (object_at m' i)) /\
  (forall c k, live m' c TConnection -> live m' k TConnection ->
    k ∈ o_masters (object_at m' c) <-> c ∈ o_slaves (object_at m' k)) /\
  (forall c, live m' c TConnection -> NoDup (o_interfaces (object_at m' c))) /\
  (forall i, live m' i TInterface -> linked m' i) /\
  (forall i, live m' i TInterface -> o_connections (object_at m' i) <> [] ->
    o_device (object_at m' i) ≫= active_connection m' = None ->
    (forall c, c ∈ o_connections (object_at m' i) -> exists t, timestamp m' c = JNum t) ->
    exists x, o_main (object_at m' i) = Some x /\ x ∈ o_connections (object_at m' i) /\
      forall c, c ∈ o_connections (object_at m' i) -> js_lt (timestamp m' x) (timestamp m' c) = false).
Proof.
  intros Hm H. pose proof (reachable_wf m Hm) as Hwf. unfold doit in H. apply bind_inv in H as ([] & m4 & H4 & H).
  cbn [for_each] in H4. apply bind_inv in H4 as ([] & m0 & H0 & H4). apply bind_inv in H4 as ([] & m1 & H1 & H4).
  apply bind_inv in H4 as ([] & m2 & H2 & H4). apply bind_inv in H4 as ([] & m3 & H3 & H4). injection H4 as <-.
  assert (forall n m m', wf m -> export_objects st n m = (Some tt, m') -> wf m') as He.
  { intros n x y Hx E. revert E Hx. apply (evolves_export_objects n). }
  destruct (phase0 m m0 Hwf H0) as (_ & _ & Hr0). pose proof (He _ _ _ Hwf H0) as Hwf0.
  destruct (phase1 _ _ _ H1 Hwf0) as (Hwf1 & _ & Hr1). specialize (Hr1 Hr0).
  pose proof (phase2 m1 m2 Hwf1 Hr1 H2) as [Hwf2 _ _ Ho Ha Hd _].
  destruct (phase3 _ _ _ H3 Hwf2) as (Hwf3 & Ho3 & Hv & Hmut).
  destruct (announces_rest _ _ _ H) as [Hh Hob].
  assert (objects m' = objects m2) as Ho' by congruence.
  assert (forall i, view (object_at m' i) = view (object_at m2 i)) as Hv' by (intros i; rewrite <- Hv; unfold object_at; by rewrite Hh).
  assert (forall i t, live m' i t <-> live m2 i t) as Hl by (intros; by apply live_same).
  assert (bases m2 m') as Hb by (intros j; specialize (Hv' j); unfold view in Hv'; congruence).
  assert (forall c, live m' c TConnection -> o_interfaces (object_at m' c) = o_interfaces (object_at m2 c)) as Hi.
  { intros c _. specialize (Hv' c). unfold view in Hv'. congruence. }
  assert (forall i, o_connections (object_at m' i) = o_connections (object_at m2 i)) as Hc.
  { intros i. specialize (Hv' i). unfold view in Hv'. congruence. }
  assert (forall i, live m' i TInterface -> linked m' i) as Hlinked.
  { intros i (p & Hp & Ht)%Hl. assert (linked m2 i) as Hlk.
    { apply (Hd p i Hp Ht). apply Ho in Hp. apply assoc_get_elem in Hp. apply list_elem_of_fmap. by exists (p, i). }
    unfold linked in *. rewrite (bases_main m2 m') by exact Hb. specialize (Hv' i). unfold view in Hv'.
    injection Hv' as _ _ _ _ _ -> -> ->. exact Hlk. }
  split; [|split; [|split; [|split; [exact Hlinked|]]]].
  - intros c i Hlc. rewrite Hi, Hc, Hl by done. apply Ha. by apply Hl.
  - intros c k Hlc Hlk. assert (mutual m3) as Hm3.
    { apply Hmut. intros x y Hx Hy. destruct (Ha x Hx) as [-> _ _ _], (Ha y Hy) as [_ -> _ _].
      split; by intros ?%not_elem_of_nil. }
    unfold object_at in *. rewrite Hh. apply Hm3; by apply (live_same m2 m3 _ _ Ho3 Hv), Hl.
  - intros c Hlc. rewrite Hi by done. apply Ha. by apply Hl.
  - intros i Hli Hne Hact Hts. destruct (Hlinked i Hli) as (_ & _ & ->). unfold main_of. rewrite Hact. by apply main_latest.
Qed.

End Links.

Definition exported : model := snd (doit initial_locale bridge_model).

Lemma exported_returns : doit initial_locale bridge_model = (Some tt, exported).
Proof. vm_compute. reflexivity. Qed.
Lemma bridge_live : live exported 2 TConnection.
Proof. exists "/c1". split; vm_compute; reflexivity. Qed.
Lemma port_live : live exported 3 TConnection.
Proof. exists "/c2". split; vm_compute; reflexivity. Qed.
Lemma bridge_slaves : o_slaves (object_at exported 2) = [3%nat].
Proof. vm_compute. reflexivity. Qed.

#[global] Opaque exported.

Lemma export_links_witness :
  reachable initial_locale false (fun _ => None) (fun _ => "") bridge_model /\
  doit initial_locale bridge_model = (Some tt, exported) /\
  2%nat ∈ o_masters (object_at exported 3) /\ o_slaves (object_at exported 2) = [3%nat].
Proof.
  split; [exact bridge_reachable|]. split; [exact exported_returns|]. split; [|exact bridge_slaves].
  destruct (export_links initial_locale false (fun _ => None) (fun _ => "") bridge_model exported bridge_reachable exported_returns)
    as (_ & H & _).
  apply H; [exact port_live|exact bridge_live|]. rewrite bridge_slaves. by left.
Defined.
