(* ===== verification/Kdump.v ===== *)
(** * The configuration of kernel dumps (src/pkg/kdump/config-client.es6)

    [ConfigFile] reads a file of lines "key value # comment", watches it, and
    writes changed settings back into the lines they came from, so that comments
    and unknown lines stay.  A line break is a newline, with a carriage return in
    front or not.

    Settings are listed in the order in which an object enumerates them, which is
    that of insertion for keys that are not numbers.  The file itself is code of
    another file; its promises are in [File.v]. *)

From S2P Require Import Prelude Location.

Record entry := mk_entry { e_index : nat; e_value : string; e_origLine : string; e_comment : option string }.

Abbreviation settings := (list (string * entry)).

(** ** Lines *)

(** The entry of a line, with its key. *)
Definition parse_line (index : nat) (line : string) : option (string * entry) :=
  let trimmed := trim line in
  if String.prefix "#" trimmed || String.eqb trimmed "" then None
  else
    match str_cut " " trimmed with
    | None => None
    | Some (key, rest) =>
        let value := trim rest in
        Some (key,
          match str_cut "#" value with
          | Some (v, c) => mk_entry index (trim v) line (Some (trim (String "#" c)))
          | None => mk_entry index value line None
          end)
    end.

Definition add_line (s : settings) (x : nat * string) : settings :=
  match parse_line x.1 x.2 with Some (key, e) => assoc_set key e s | None => s end.

Definition parse_lines (lines : list string) : settings := foldl add_line [] (imap pair lines).

(** ** The object *)

(** The settings that are shown may be changed by the page in place; the
    original ones are a copy.  The trace holds what listeners are told. *)
Record config := mk_config {
  rawContent : option string; lines : list string; originalSettings : option settings; c_settings : option settings;
  dataAvailable : bool; events : list (option settings) }.

#[export] Instance config_settable : Settable config := fun c =>
  mk_config (rawContent c) (lines c) (originalSettings c) (c_settings c) (dataAvailable c) (events c).

Definition new_config : config := mk_config None [] (Some []) (Some []) false [].

Definition notify (skipNotify : bool) (c : config) : config :=
  if skipNotify then c else c <| events ::= fun l => l ++ [c_settings c] |>.

(** [_parseText]; a file that does not exist has no content. *)
Definition parseText (raw : option string) (skipNotify : bool) (c : config) : config :=
  let c := c <| dataAvailable := true |> in
  match raw with
  | None | Some "" => notify skipNotify (c <| originalSettings := None |> <| c_settings := None |>)
  | Some content =>
      if bool_decide (rawContent c = Some content) then c
      else
        let ls := split_crlf content in
        let s := parse_lines ls in
        notify skipNotify
          (c <| rawContent := Some content |> <| lines := ls |> <| c_settings := Some s |> <| originalSettings := Some s |>)
  end.

(** ** Writing *)

Definition render (key : string) (e : entry) : string :=
  let line := key +:+ " " +:+ e_value e in
  match e_comment e with Some c => if String.eqb c "" then line else line +:+ " " +:+ c | None => line end.

(** Settings that are gone: the line becomes a comment or is to be deleted. *)
Definition disable (s : settings) (x : list string * list nat) (old : string * entry) : list string * list nat :=
  match assoc_get old.1 s with
  | Some _ => x
  | None =>
      match e_comment old.2 with
      | Some _ => (<[e_index old.2 := "#" +:+ e_origLine old.2]> x.1, x.2)
      | None => (x.1, x.2 ++ [e_index old.2])
      end
  end.

(** A setting goes into its old line, or a new one at the end. *)
Definition put (orig : settings) (ls : list string) (new : string * entry) : list string :=
  let line := render new.1 new.2 in
  match assoc_get new.1 orig with
  | Some o => <[e_index o := line]> ls
  | None => ls ++ [line]
  end.

(** [linesToDelete.sort()] compares the numbers as text. *)
Definition text_leb (a b : nat) : bool := String.leb (pretty (Z.of_nat a)) (pretty (Z.of_nat b)).

Fixpoint text_insert (x : nat) (l : list nat) : list nat :=
  match l with [] => [x] | y :: l' => if text_leb x y then x :: l else y :: text_insert x l' end.

Definition text_sort (l : list nat) : list nat := foldr text_insert [] l.

(** [lines.splice(i, 1)]. *)
Definition splice (ls : list string) (i : nat) : list string := take i ls ++ drop (S i) ls.

(** [_generateConfig], with the lines and settings as they were read. *)
Definition generate_lines (ls : list string) (orig s : settings) : list string :=
  let '(ls, linesToDelete) := foldl (disable s) (ls, []) orig in
  let ls := foldl (put orig) ls s in
  foldl splice ls (rev (text_sort linesToDelete)).

(** [None] throws: there are no original settings. *)
Definition generateConfig (s : settings) (c : config) : option string :=
  orig ← originalSettings c; Some (str_join nl (generate_lines (lines c) orig s)).

(** The callback that [write] gives to [modify]: the content that is written. *)
Definition write (s : settings) (oldContent : option string) (c : config) : option string * config :=
  let c := parseText oldContent true c in (generateConfig s c, c).

(** ** An example of the tests *)

Example basic_config : string :=
  str_join nl ["# top comment"; ""; "foo bar"; " indented value"; ""; "will disappear"; "key value #comment"].

Example changed_config :
  let c := parseText (Some basic_config) false new_config in
  let s := default [] (c_settings c) in
  let s := assoc_del "will" (assoc_del "key" (assoc_set "foo" (mk_entry 0 "moo" "" None) s)) in
  fst (write (assoc_set "hooray" (mk_entry 0 "value" "" None) s) (Some basic_config) c) =
    Some (str_join nl ["# top comment"; ""; "foo moo"; "indented value"; ""; "#key value #comment"; "hooray value"]).
Proof. vm_compute. reflexivity. Qed.
