(* ===== verification/KdumpSpec.v ===== *)
(** * Writing the configuration of kernel dumps

    The lines that [generate_lines] gives are those that were read, with each
    setting in the line it came from; reading them again gives the settings that
    were written. *)

From Stdlib Require Import Sorting.Sorted.
From S2P Require Import Prelude Numbers Uri Location LocationSpec Kdump.

(** ** Deleting lines *)

(** The lines whose numbers are not in [del]. *)
Fixpoint without {A} (k : nat) (del : list nat) (l : list A) : list A :=
  match l with
  | [] => []
  | x :: l => if decide (k ∈ del) then without (S k) del l else x :: without (S k) del l
  end.

Lemma without_none {A} (l : list A) : forall k del, (forall i, i ∈ del -> (i < k)%nat) -> without k del l = l.
Proof.
  induction l as [|x l IH]; intros k del H; [done|]. cbn. rewrite decide_False by (intros Hk; specialize (H k Hk); lia).
  f_equal. apply IH. intros i Hi. specialize (H i Hi). lia.
Qed.

Lemma splice_without (l : list string) : forall k del i,
  (forall j, j ∈ del -> (k + i < j)%nat) -> splice (without k del l) i = without k ((k + i)%nat :: del) l.
Proof.
  induction l as [|x l IH]; intros k del i H; [by destruct i|]. cbn [without].
  rewrite (decide_False (P := k ∈ del)) by (intros Hk; specialize (H k Hk); lia).
  destruct i as [|i].
  - rewrite Nat.add_0_r. rewrite decide_True by (by left). unfold splice. cbn.
    rewrite drop_0. clear IH. assert (forall j, j ∈ del -> (k < j)%nat) as H' by (intros j Hj; specialize (H j Hj); lia). clear H.
    assert (forall k', (k < k')%nat -> without k' del l = without k' (k :: del) l) as E.
    { induction l as [|y l IH]; intros k' Hk'; [done|]. cbn. rewrite (IH (S k')) by lia.
      destruct (decide (k' ∈ del)); [rewrite decide_True by (by right)|rewrite decide_False]; try done.
      intros [->|?]%elem_of_cons; [lia|done]. }
    apply E. lia.
  - rewrite decide_False.
    + change (splice (x :: without (S k) del l) (S i)) with (x :: splice (without (S k) del l) i).
      rewrite (IH (S k)) by (intros j Hj; specialize (H j Hj); lia). by replace (S k + i)%nat with (k + S i)%nat by lia.
    + intros [?|Hk]%elem_of_cons; [lia|]. specialize (H k Hk). lia.
Qed.

(** Sorted by their text the numbers are sorted, if they have the same number of
    digits for instance. *)
Definition ascending : list nat -> Prop := StronglySorted lt.

Lemma splice_all l del : ascending del -> foldl splice l (rev del) = without 0 del l.
Proof.
  induction 1 as [|i del Hdel IH Hi]; [symmetry; apply without_none; by intros i ?%not_elem_of_nil|].
  cbn [rev]. rewrite foldl_app. cbn [foldl]. rewrite IH. rewrite splice_without; [done|].
  rewrite Forall_forall in Hi. intros j Hj. by apply Hi.
Qed.

Lemma without_perm {A} (l : list A) : forall k d d', (forall i, i ∈ d <-> i ∈ d') -> without k d l = without k d' l.
Proof.
  induction l as [|x l IH]; intros k d d' H; [done|]. cbn. rewrite (IH (S k) d d' H).
  destruct (decide (k ∈ d)), (decide (k ∈ d')); try done; exfalso; by apply n, H || by apply H in k0.
Qed.

Lemma text_insert_elem x l i : i ∈ text_insert x l <-> i = x \/ i ∈ l.
Proof. induction l as [|y l IH]; cbn; [set_solver|]. destruct (text_leb x y); set_solver. Qed.

Lemma text_sort_elem l i : i ∈ text_sort l <-> i ∈ l.
Proof. induction l as [|x l IH]; [done|]. cbn. rewrite text_insert_elem, IH, elem_of_cons. done. Qed.

(** Numbers of one digit are sorted. *)
Lemma text_leb_digit a b : (a < 10)%nat -> (b < 10)%nat -> text_leb a b = Nat.leb a b.
Proof. intros Ha Hb. do 10 (destruct a as [|a]; [do 10 (destruct b as [|b]; [vm_compute; reflexivity|]); lia|]). lia. Qed.

Lemma insert_ascending x l : (x < 10)%nat -> Forall (fun i => (i < 10)%nat) l -> x ∉ l -> ascending l ->
  ascending (text_insert x l).
Proof.
  intros Hx. induction l as [|y l IH]; intros Hs Hxl Hl; cbn; [by repeat constructor|].
  inversion_clear Hl as [|? ? Hly Hy]. apply Forall_cons in Hs as [Hy10 Hs]. rewrite text_leb_digit by done.
  apply not_elem_of_cons in Hxl as [Hne Hxl]. destruct (Nat.leb_spec x y).
  - constructor; [by constructor|]. constructor; [lia|]. eapply Forall_impl; [exact Hy|]. intros; lia.
  - constructor; [by apply IH|]. rewrite Forall_forall in *. intros i [->|Hi]%text_insert_elem; [lia|by apply Hy].
Qed.

Lemma one_digit_ascending l : NoDup l -> Forall (fun i => (i < 10)%nat) l -> ascending (text_sort l).
Proof.
  induction 1 as [|x l Hx _ IH]; [constructor|]. intros [Hx10 Hl]%Forall_cons. cbn. apply insert_ascending; [done| | |auto].
  - rewrite Forall_forall in *. intros i Hi. apply Hl. by rewrite <- text_sort_elem.
  - by rewrite text_sort_elem.
Qed.

(** ** What was read *)

Definition key_of (line : string) : option string := fst <$> parse_line 0 line.

Definition moved (i : nat) (x : string * entry) : string * entry :=
  (x.1, mk_entry i (e_value x.2) (e_origLine x.2) (e_comment x.2)).

Lemma parse_line_index i line : parse_line i line = moved i <$> parse_line 0 line.
Proof.
  unfold parse_line. destruct (_ || _); [done|]. destruct (str_cut " " (trim line)) as [[k rest]|]; [|done].
  cbn. destruct (str_cut "#" (trim rest)) as [[a b]|]; done.
Qed.

Lemma parse_line_key i line k e : parse_line i line = Some (k, e) -> key_of line = Some k /\ e_index e = i /\ e_origLine e = line.
Proof.
  unfold key_of, parse_line. destruct (_ || _); [done|]. destruct (str_cut " " (trim line)) as [[k' rest]|]; [|done].
  intros [= <- <-]. by destruct (str_cut "#" (trim rest)) as [[a b]|].
Qed.

(** The settings that were read from the lines. *)
Record parsed (ls : list string) (orig : settings) : Prop := {
  pa_keys : NoDup orig.*1;
  pa_line : forall k e, assoc_get k orig = Some e ->
    exists line, ls !! e_index e = Some line /\ parse_line (e_index e) line = Some (k, e);
  pa_last : forall k e j line, assoc_get k orig = Some e -> (e_index e < j)%nat -> ls !! j = Some line -> key_of line <> Some k;
  pa_none : forall k j line, assoc_get k orig = None -> ls !! j = Some line -> key_of line <> Some k }.

Lemma parse_lines_parsed ls : parsed ls (parse_lines ls).
Proof.
  induction ls as [|line ls IH] using rev_ind; [by split; [constructor|..]|].
  unfold parse_lines. rewrite imap_app, foldl_app. cbn. rewrite Nat.add_0_r. fold (parse_lines ls).
  destruct IH as [Hk Hl Hlast Hnone]. unfold add_line. cbn [fst snd].
  assert (forall j x, (ls ++ [line]) !! j = Some x -> ls !! j = Some x \/ (j = length ls /\ x = line)) as Hj.
  { intros j x [H|[Hj H]]%lookup_app_Some; [by left|right]. apply list_lookup_singleton_Some in H as [H <-]. split; [lia|done]. }
  destruct (parse_line (length ls) line) as [[k e]|] eqn:E.
  - pose proof (parse_line_key _ _ _ _ E) as (Hkey & Hi & _).
    split.
    + by apply assoc_set_nodup.
    + intros k' e'. rewrite assoc_get_set. destruct (String.eqb_spec k k') as [<-|].
      * intros [= <-]. exists line. rewrite Hi. split; [|done]. by rewrite lookup_app_r, Nat.sub_diag.
      * intros (x & Hx & Hp)%Hl. exists x. split; [|done]. by apply lookup_app_l_Some.
    + intros k' e' j x. rewrite assoc_get_set. destruct (String.eqb_spec k k') as [<-|].
      * intros [= <-] Hlt Hx. apply lookup_lt_Some in Hx. rewrite length_app in Hx. cbn in Hx. lia.
      * intros He Hlt [Hx|[-> ->]]%Hj; [by eapply Hlast|]. congruence.
    + intros k' j x. rewrite assoc_get_set. destruct (String.eqb_spec k k') as [<-|]; [done|].
      intros He [Hx|[-> ->]]%Hj; [by eapply Hnone|]. congruence.
  - assert (key_of line = None) as Hkey.
    { unfold key_of. rewrite parse_line_index in E. by destruct (parse_line 0 line). }
    split; [done|..].
    + intros k' e' (x & Hx & Hp)%Hl. exists x. split; [|done]. by apply lookup_app_l_Some.
    + intros k' e' j x He Hlt [Hx|[-> ->]]%Hj; [by eapply Hlast|]. congruence.
    + intros k' j x He [Hx|[-> ->]]%Hj; [by eapply Hnone|]. congruence.
Qed.

(** Two settings are not in one line. *)
Lemma parsed_injective ls orig k k' e e' : parsed ls orig ->
  assoc_get k orig = Some e -> assoc_get k' orig = Some e' -> e_index e = e_index e' -> k = k' /\ e = e'.
Proof.
  intros [_ Hl _ _] (x & Hx & Hp)%Hl (x' & Hx' & Hp')%Hl E. rewrite E in *.
  assert (x = x') as -> by congruence. rewrite Hp in Hp'. by injection Hp'.
Qed.

(** ** The expected lines *)

(** The setting whose line it is. *)
Definition owner (orig : settings) (i : nat) : option (string * entry) := snd <$> list_find (fun x => e_index x.2 = i) orig.

Definition edited (orig s : settings) (i : nat) (line : string) : option string :=
  match owner orig i with
  | None => Some line
  | Some (k, o) =>
      match assoc_get k s with
      | Some e => Some (render k e)
      | None => match e_comment o with Some _ => Some ("#" +:+ line) | None => None end
      end
  end.

Definition fresh (orig s : settings) : list string :=
  omap (fun x => match assoc_get x.1 orig with Some _ => None | None => Some (render x.1 x.2) end) s.

Definition expected (orig s : settings) (ls : list string) : list string := omap id (imap (edited orig s) ls) ++ fresh orig s.

Lemma owner_Some ls orig i k o : parsed ls orig -> owner orig i = Some (k, o) <-> assoc_get k orig = Some o /\ e_index o = i.
Proof.
  intros Hp. unfold owner. split.
  - destruct (list_find _ orig) as [[j [k' o']]|] eqn:E; [|done]. cbn. intros [= -> ->].
    apply list_find_Some in E as (Hj & Hi & _). split; [|done]. apply assoc_elem_get; [apply Hp|].
    by eapply list_elem_of_lookup_2.
  - intros [Hk Hi]. destruct (list_find _ orig) as [[j [k' o']]|] eqn:E.
    + apply list_find_Some in E as (Hj & Hi' & _). cbn in *. apply list_elem_of_lookup_2 in Hj.
      apply assoc_elem_get in Hj; [|apply Hp]. destruct (parsed_injective ls orig k k' o o' Hp Hk Hj) as [-> ->]; [congruence|done].
    + apply list_find_None in E. rewrite Forall_forall in E. apply assoc_get_elem in Hk. by destruct (E _ Hk).
Qed.

Lemma owner_None ls orig i : parsed ls orig -> owner orig i = None -> forall k o, assoc_get k orig = Some o -> e_index o <> i.
Proof. intros Hp Ho k o Hk Hi. assert (owner orig i = Some (k, o)) by (by eapply owner_Some). congruence. Qed.

(** ** The written lines *)

Definition ins (ls : list string) (xs : list (nat * string)) : list string := foldl (fun l p => <[p.1:=p.2]> l) ls xs.

Lemma ins_length xs : forall ls, length (ins ls xs) = length ls.
Proof. induction xs as [|[i x] xs IH]; intros ls; [done|]. cbn. fold (ins (<[i:=x]> ls) xs). by rewrite IH, length_insert. Qed.

Lemma ins_other xs j : forall ls, j ∉ xs.*1 -> ins ls xs !! j = ls !! j.
Proof.
  induction xs as [|[i x] xs IH]; intros ls; [done|]. cbn. intros [Hne Hj]%not_elem_of_cons. fold (ins (<[i:=x]> ls) xs).
  rewrite IH by done. by rewrite list_lookup_insert_ne.
Qed.

Lemma ins_elem xs j y : forall ls, NoDup xs.*1 -> (j, y) ∈ xs -> (j < length ls)%nat -> ins ls xs !! j = Some y.
Proof.
  induction xs as [|[i x] xs IH]; intros ls Hn Hy Hj; [by apply not_elem_of_nil in Hy|].
  cbn in Hn. apply NoDup_cons in Hn as [Hi Hn]. cbn. fold (ins (<[i:=x]> ls) xs). apply elem_of_cons in Hy as [[= -> ->]|Hy].
  - rewrite ins_other by done. by apply list_lookup_insert_eq.
  - apply IH; [done..|]. by rewrite length_insert.
Qed.

Definition deleted (orig s : settings) : list nat :=
  omap (fun x => match assoc_get x.1 s, e_comment x.2 with None, None => Some (e_index x.2) | _, _ => None end) orig.

Definition comments (orig s : settings) : list (nat * string) :=
  omap (fun x => match assoc_get x.1 s, e_comment x.2 with
                 | None, Some _ => Some (e_index x.2, "#" +:+ e_origLine x.2) | _, _ => None end) orig.

Definition rewrites (orig s : settings) : list (nat * string) :=
  omap (fun x => o ← assoc_get x.1 orig; Some (e_index o, render x.1 x.2)) s.

Lemma disable_fold s orig : forall ls d,
  foldl (disable s) (ls, d) orig = (ins ls (comments orig s), d ++ deleted orig s).
Proof.
  induction orig as [|[k o] orig IH]; intros ls d; [by rewrite app_nil_r|]. cbn [foldl]. unfold disable at 2. cbn.
  destruct (assoc_get k s); [by rewrite IH|]. destruct (e_comment o); cbn; rewrite IH; [done|]. by rewrite <- app_assoc.
Qed.

Lemma put_fold orig s : forall ls x,
  (forall k o, assoc_get k orig = Some o -> (e_index o < length ls)%nat) ->
  foldl (put orig) (ls ++ x) s = ins ls (rewrites orig s) ++ x ++ fresh orig s.
Proof.
  induction s as [|[k e] s IH]; intros ls x H; [by rewrite app_nil_r|]. cbn [foldl]. unfold put at 2. cbn.
  destruct (assoc_get k orig) as [o|] eqn:E; cbn.
  - rewrite insert_app_l by (by eapply H). rewrite IH; [done|]. intros. rewrite length_insert. by eapply H.
  - rewrite <- app_assoc, IH by done. by rewrite <- app_assoc.
Qed.

Lemma without_imap (l : list string) : forall (l' : list string) k d (f : nat -> string -> option string), length l = length l' ->
  (forall j x y, l !! j = Some x -> l' !! j = Some y -> f j x = if decide ((k + j)%nat ∈ d) then None else Some y) ->
  without k d l' = omap id (imap f l).
Proof.
  induction l as [|x l IH]; intros [|y l'] k d f Hlen H; try done. injection Hlen as Hlen. cbn.
  specialize (H 0%nat) as H0. rewrite Nat.add_0_r in H0. rewrite (H0 x y eq_refl eq_refl).
  assert (without (S k) d l' = omap id (imap (f ∘ S) l)) as ->.
  { apply IH; [done|]. intros j a b Ha Hb. cbn. rewrite (H (S j) a b Ha Hb). by rewrite Nat.add_succ_r. }
  by destruct (decide (k ∈ d)).
Qed.

Lemma without_app {A} (l x : list A) d : (forall i, i ∈ d -> (i < length l)%nat) -> without 0 d (l ++ x) = without 0 d l ++ x.
Proof.
  assert (forall k, (forall i, i ∈ d -> (i < k + length l)%nat) -> without k d (l ++ x) = without k d l ++ x) as H; [|by apply (H 0%nat)].
  induction l as [|y l IH]; intros k H.
  - apply without_none. intros i Hi. specialize (H i Hi). cbn in H. lia.
  - cbn. rewrite IH by (intros i Hi; specialize (H i Hi); cbn in H; lia). by destruct (decide (k ∈ d)).
Qed.

Lemma deleted_elem orig s i : NoDup orig.*1 -> i ∈ deleted orig s <->
  exists k o, assoc_get k orig = Some o /\ assoc_get k s = None /\ e_comment o = None /\ e_index o = i.
Proof.
  intros Hn. unfold deleted. rewrite list_elem_of_omap. split.
  - intros ([k o] & Hin & H). cbn in H. destruct (assoc_get k s) eqn:Es; [done|]. destruct (e_comment o) eqn:Ec; [done|].
    injection H as <-. exists k, o. split; [by apply assoc_elem_get|done].
  - intros (k & o & Ho & Hs & Hc & Hi). exists (k, o). split; [by apply assoc_get_elem|]. cbn. by rewrite Hs, Hc, Hi.
Qed.

Lemma comments_elem orig s i x : NoDup orig.*1 -> (i, x) ∈ comments orig s <->
  exists k o, assoc_get k orig = Some o /\ assoc_get k s = None /\ e_comment o <> None /\ e_index o = i /\ x = "#" +:+ e_origLine o.
Proof.
  intros Hn. unfold comments. rewrite list_elem_of_omap. split.
  - intros ([k o] & Hin & H). cbn [fst snd] in H. destruct (assoc_get k s) eqn:Es; [done|]. destruct (e_comment o) eqn:Ec; [|done].
    injection H as <- <-. exists k, o. split; [by apply assoc_elem_get|]. by rewrite Ec.
  - intros (k & o & Ho & Hs & Hc & Hi & ->). exists (k, o). split; [by apply assoc_get_elem|]. cbn [fst snd].
    rewrite Hs. destruct (e_comment o); [|done]. by rewrite Hi.
Qed.

Lemma rewrites_elem orig s i x : NoDup s.*1 -> (i, x) ∈ rewrites orig s <->
  exists k o e, assoc_get k orig = Some o /\ assoc_get k s = Some e /\ e_index o = i /\ x = render k e.
Proof.
  intros Hn. unfold rewrites. rewrite list_elem_of_omap. split.
  - intros ([k e] & Hin & H). cbn [fst snd] in H. destruct (assoc_get k orig) as [o|] eqn:Eo; [|done]. cbn in H.
    injection H as <- <-. exists k, o, e. split; [done|]. split; [by apply assoc_elem_get|done].
  - intros (k & o & e & Ho & Hs & Hi & ->). exists (k, e). split; [by apply assoc_get_elem|]. cbn [fst snd].
    rewrite Ho. cbn. by rewrite Hi.
Qed.

(** No line is written twice. *)
Lemma keyed_nodup {A} ls orig (s : list (string * A)) (f : string * A -> option (nat * string)) : parsed ls orig -> NoDup s.*1 ->
  (forall x i y, x ∈ s -> f x = Some (i, y) -> exists o, assoc_get x.1 orig = Some o /\ e_index o = i) ->
  NoDup (omap f s).*1.
Proof.
  intros Hp. induction s as [|[k a] s IH]; intros Hn Hf; [constructor|]. cbn in Hn. apply NoDup_cons in Hn as [Hk Hn].
  assert (NoDup (omap f s).*1) as IH' by (apply IH; [done|]; intros; eapply Hf; [by right|done]).
  cbn. destruct (f (k, a)) as [[i y]|] eqn:E; [|done]. cbn. apply NoDup_cons. split; [|done].
  intros ([i' y'] & -> & ([k' a'] & Hin & Hf')%list_elem_of_omap)%list_elem_of_fmap.
  destruct (Hf _ _ _ (list_elem_of_here _ _) E) as (o & Ho & Hi).
  destruct (Hf _ _ _ (list_elem_of_further _ _ _ Hin) Hf') as (o' & Ho' & Hi'). cbn in *.
  destruct (parsed_injective _ _ _ _ _ _ Hp Ho Ho') as [<- _]; [congruence|].
  apply Hk, list_elem_of_fmap. by exists (k, a').
Qed.

(** Lines with their indices, and where the lists of changes have none. *)
Lemma rewritten ls orig s j line : parsed ls orig -> NoDup s.*1 -> ls !! j = Some line ->
  ins (ins ls (comments orig s)) (rewrites orig s) !! j =
    Some (match owner orig j with
          | Some (k, o) =>
              match assoc_get k s with
              | Some e => render k e
              | None => match e_comment o with Some _ => "#" +:+ line | None => line end
              end
          | None => line
          end).
Proof.
  intros Hp Hs Hj. pose proof (pa_keys _ _ Hp) as Hn. pose proof (lookup_lt_Some _ _ _ Hj) as Hlt.
  assert (NoDup (rewrites orig s).*1) as Hr.
  { apply (keyed_nodup ls orig); [done..|]. intros [k e] i y _. cbn. destruct (assoc_get k orig) as [o|]; [|done].
    cbn. intros [= <- <-]. by exists o. }
  assert (NoDup (comments orig s).*1) as Hc.
  { apply (keyed_nodup ls orig); [done..|]. intros [k e] i y Hin. cbn. destruct (assoc_get k s); [done|].
    destruct (e_comment e); [|done]. intros [= <- <-]. exists e. split; [by apply assoc_elem_get|done]. }
  destruct (owner orig j) as [[k o]|] eqn:Eo.
  - pose proof (proj1 (owner_Some _ _ _ _ _ Hp) Eo) as [Ho Hi]. destruct (assoc_get k s) as [e|] eqn:Es.
    + apply ins_elem; [done| |by rewrite ins_length]. apply rewrites_elem; [done|]. by exists k, o, e.
    + rewrite ins_other.
      * destruct (e_comment o) as [c|] eqn:Ec.
        -- apply ins_elem; [done| |done]. apply comments_elem; [done|]. exists k, o. repeat split; [done..|congruence|done|].
           destruct (pa_line _ _ Hp _ _ Ho) as (x & Hx & Hx'). apply parse_line_key in Hx' as (_ & _ & ->). congruence.
        -- rewrite ins_other; [done|]. intros ([i x] & Hji & Hin)%list_elem_of_fmap.
           apply comments_elem in Hin as (k' & o' & Ho' & _ & Hc' & Hi' & _); [|done]. cbn in Hji.
           destruct (parsed_injective _ _ _ _ _ _ Hp Ho Ho') as [_ ->]; congruence.
      * intros ([i x] & Hji & Hin)%list_elem_of_fmap.
        apply rewrites_elem in Hin as (k' & o' & e' & Ho' & He' & Hi' & _); [|done]. cbn in Hji.
        destruct (parsed_injective _ _ _ _ _ _ Hp Ho Ho') as [-> _]; congruence.
  - rewrite !ins_other; [done|..]; intros ([i x] & Hji & Hin)%list_elem_of_fmap; cbn in Hji.
    + apply comments_elem in Hin as (k' & o' & Ho' & _ & Hc' & Hi' & _); [|done]. by eapply owner_None in Eo; [|done..]; subst.
    + apply rewrites_elem in Hin as (k' & o' & e' & Ho' & He' & Hi' & _); [|done]. by eapply owner_None in Eo; [|done..]; subst.
Qed.

(** What is written, line by line. *)
Lemma generated ls orig s : parsed ls orig -> NoDup s.*1 -> ascending (text_sort (deleted orig s)) ->
  generate_lines ls orig s = expected orig s ls.
Proof.
  intros Hp Hs Ha. unfold generate_lines. rewrite disable_fold. cbn [app].
  pose proof (put_fold orig s (ins ls (comments orig s)) []) as Hput. rewrite !app_nil_r in Hput. rewrite Hput; clear Hput.
  2: { intros k o Ho. rewrite ins_length. destruct (pa_line _ _ Hp _ _ Ho) as (x & Hx & _). by eapply lookup_lt_Some. }
  rewrite splice_all by done.
  rewrite without_app.
  - unfold expected. f_equal. apply without_imap; [by rewrite !ins_length|].
    intros j x y Hx Hy. rewrite (rewritten _ _ _ _ _ Hp Hs Hx) in Hy. injection Hy as <-. unfold edited. cbn [Nat.add].
    destruct (owner orig j) as [[k o]|] eqn:Eo.
    + pose proof (proj1 (owner_Some _ _ _ _ _ Hp) Eo) as [Ho Hi].
      assert (j ∈ text_sort (deleted orig s) <-> assoc_get k s = None /\ e_comment o = None) as Hd.
      { rewrite text_sort_elem, deleted_elem by apply Hp. split.
        - intros (k' & o' & Ho' & Hk' & Hc' & Hi'). destruct (parsed_injective _ _ _ _ _ _ Hp Ho Ho') as [-> ->]; [congruence|done].
        - intros [??]. by exists k, o. }
      destruct (assoc_get k s) as [e|]; [rewrite decide_False; [done|]; by intros [??]%Hd|].
      destruct (e_comment o); [rewrite decide_False; [done|]; by intros [??]%Hd|]. rewrite decide_True; [done|]. by apply Hd.
    + rewrite decide_False; [done|]. intros Hd. rewrite text_sort_elem in Hd. apply deleted_elem in Hd as (k & o & Ho & _ & _ & Hi); [|apply Hp].
      by eapply owner_None in Eo.
  - intros i Hi. rewrite text_sort_elem in Hi. apply deleted_elem in Hi as (k & o & Ho & _ & _ & <-); [|apply Hp]. rewrite !ins_length.
    destruct (pa_line _ _ Hp _ _ Ho) as (x & Hx & _). by eapply lookup_lt_Some.
Qed.

(** ** Reading what was written *)

Lemma trim_left_length s : (String.length (trim_left s) <= String.length s)%nat.
Proof. induction s as [|c s IH]; [done|]. cbn. destruct (is_space c); cbn; lia. Qed.

Lemma trim_right_length s : (String.length (trim_right s) <= String.length s)%nat.
Proof. induction s as [|c s IH]; [done|]. cbn. destruct (trim_right s); [destruct (is_space c)|]; cbn in *; lia. Qed.

(** What has no space at its ends. *)
Lemma trim_left_fix s : trim s = s -> trim_left s = s.
Proof.
  intros H. destruct s as [|c s]; [done|]. cbn. destruct (is_space c) eqn:E; [|done]. exfalso.
  assert (String.length (trim (String c s)) = S (String.length s)) as HL by by rewrite H.
  unfold trim in HL. cbn in HL. rewrite E in HL. pose proof (trim_right_length (trim_left s)). pose proof (trim_left_length s). lia.
Qed.

Lemma trim_right_fix s : trim s = s -> trim_right s = s.
Proof. intros H. pose proof (trim_left_fix s H) as E. unfold trim in H. by rewrite E in H. Qed.

Lemma trim_left_app s x : trim_left s = s -> s <> "" -> trim_left (s +:+ x) = s +:+ x.
Proof.
  destruct s as [|c s]; [done|]. cbn. destruct (is_space c) eqn:E; [|done]. intros H _.
  pose proof (trim_left_length s). rewrite H in *. cbn in *. lia.
Qed.

Lemma trim_right_app x s : trim_right s = s -> s <> "" -> trim_right (x +:+ s) = x +:+ s.
Proof. intros H Hs. induction x as [|c x IH]; [done|]. cbn. rewrite IH. destruct x; [by destruct s|done]. Qed.

Lemma trim_right_space s : trim_right (s +:+ " ") = trim_right s.
Proof. induction s as [|c s IH]; [done|]. cbn. by rewrite IH. Qed.

Lemma trim_ends x y : trim x = x -> x <> "" -> trim y = y -> y <> "" -> trim (x +:+ " " +:+ y) = x +:+ " " +:+ y.
Proof.
  intros Hx Hnx Hy Hny. unfold trim. rewrite trim_left_app by (done || by apply trim_left_fix).
  rewrite <- str_app_assoc. apply trim_right_app; [by apply trim_right_fix|done].
Qed.

(** Settings that a line can hold. *)
Record valid (x : string * entry) : Prop := {
  va_key : x.1 <> "" /\ str_forall (fun c => negb (is_space c)) x.1 = true /\ String.prefix "#" x.1 = false;
  va_value : e_value x.2 <> "" /\ trim (e_value x.2) = e_value x.2 /\ str_mem "#" (e_value x.2) = false /\
    str_mem nl_char (e_value x.2) = false;
  va_comment : forall c, e_comment x.2 = Some c -> (exists c', c = String "#" c') /\ trim c = c /\ str_mem nl_char c = false }.

Lemma no_space_mem s : str_forall (fun c => negb (is_space c)) s = true -> str_mem " " s = false /\ str_mem nl_char s = false.
Proof.
  induction s as [|c s IH]; [done|]. cbn. intros [Hc Hs]%andb_true_iff. destruct (IH Hs) as [-> ->]. rewrite !orb_false_r.
  split; apply Ascii.eqb_neq; by intros ->.
Qed.

Lemma prefix_app k x : String.prefix "#" k = false -> k <> "" -> String.prefix "#" (k +:+ x) = false.
Proof. destruct k as [|c k]; [done|]. intros H _. cbn [String.append]. unfold String.prefix in *. destruct (Ascii.ascii_dec "#" c); [by destruct k|done]. Qed.

Lemma render_shape k e : valid (k, e) -> exists rest, render k e = k +:+ " " +:+ rest /\ trim rest = rest /\ rest <> "" /\
  str_mem nl_char rest = false /\
  rest = match e_comment e with Some c => e_value e +:+ " " +:+ c | None => e_value e end.
Proof.
  intros [_ (Hv & Ht & _ & Hnl) Hc]. cbn [fst snd] in *. unfold render. destruct (e_comment e) as [c|] eqn:E.
  - destruct (Hc c eq_refl) as ((c' & Hc') & Htc & Hnc). exists (e_value e +:+ " " +:+ c).
    assert (c <> "") as Hne by by subst. rewrite (proj2 (String.eqb_neq c "") Hne).
    split; [by rewrite !str_app_assoc|]. split; [by apply trim_ends|]. split; [by destruct (e_value e)|].
    split; [|done]. by rewrite !str_mem_app, Hnl, Hnc.
  - by exists (e_value e).
Qed.

Lemma render_trim k e : valid (k, e) -> trim (render k e) = render k e /\ render k e <> "".
Proof.
  intros H. destruct (render_shape k e H) as (rest & -> & Ht & Hne & _). destruct H as [(Hk & Hs & _) _ _]. cbn in *. split.
  - by apply trim_ends; [apply trim_no_space|..].
  - by destruct k.
Qed.

Lemma render_parse k e : valid (k, e) -> parse_line 0 (render k e) = Some (k, mk_entry 0 (e_value e) (render k e) (e_comment e)).
Proof.
  intros H. destruct (render_trim k e H) as [Ht Hne]. unfold parse_line. rewrite Ht.
  destruct (render_shape k e H) as (rest & Hr & Htr & _ & _ & Hrest). destruct H as [(Hk & Hs & Hp) (Hv & Htv & Hh & _) Hc]. cbn [fst snd] in *.
  rewrite (proj2 (String.eqb_neq _ _) Hne), orb_false_r. 
  assert (String.prefix "#" (render k e) = false) as -> by (rewrite Hr; by apply prefix_app).
  assert (str_cut " " (render k e) = Some (k, rest)) as -> by (rewrite Hr; by apply str_cut_app, no_space_mem).
  rewrite Htr.
  destruct (e_comment e) as [c|] eqn:E; subst rest.
  - destruct (Hc c eq_refl) as ((c' & ->) & Htc & _). rewrite <- str_app_assoc. rewrite str_cut_app by by rewrite str_mem_app, Hh.
    rewrite Htc. unfold trim. rewrite trim_left_app by (done || by apply trim_left_fix).
    rewrite trim_right_space. by rewrite trim_right_fix.
  - by rewrite str_cut_none.
Qed.

(** What the last line with a key says. *)
Lemma read_last a line b k e : parse_line 0 line = Some (k, e) -> (forall y, y ∈ b -> key_of y <> Some k) ->
  exists e', assoc_get k (parse_lines (a ++ line :: b)) = Some e' /\ e_value e' = e_value e /\ e_comment e' = e_comment e.
Proof.
  intros Hl Hb. pose proof (parse_lines_parsed (a ++ line :: b)) as [_ Hline Hlast Hnone].
  assert ((a ++ line :: b) !! length a = Some line) as Hi by by rewrite lookup_app_r, Nat.sub_diag.
  assert (key_of line = Some k) as Hk by (unfold key_of; by rewrite Hl).
  destruct (assoc_get k _) as [e'|] eqn:E; [|by destruct (Hnone _ _ _ E Hi)]. exists e'. split; [done|].
  destruct (Hline _ _ E) as (x & Hx & Hp). destruct (Nat.lt_trichotomy (e_index e') (length a)) as [Hlt|[Heq|Hgt]].
  - by destruct (Hlast _ _ _ _ E Hlt Hi).
  - rewrite Heq in Hx. assert (x = line) as -> by congruence. rewrite parse_line_index, Hl in Hp. by injection Hp as <-.
  - destruct (Hb x).
    + rewrite lookup_app_r in Hx by lia. destruct (e_index e' - length a)%nat eqn:Hs; [lia|]. by eapply list_elem_of_lookup_2.
    + by apply parse_line_key in Hp as [-> _].
Qed.

Lemma read_none ls k : (forall y, y ∈ ls -> key_of y <> Some k) -> assoc_get k (parse_lines ls) = None.
Proof.
  intros H. destruct (assoc_get k (parse_lines ls)) as [e|] eqn:E; [|done]. exfalso.
  destruct (pa_line _ _ (parse_lines_parsed ls) _ _ E) as (x & Hx & Hp). apply parse_line_key in Hp as [Hp _].
  eapply H; [by eapply list_elem_of_lookup_2|done].
Qed.

Lemma key_render k e : valid (k, e) -> key_of (render k e) = Some k.
Proof. intros H. unfold key_of. by rewrite render_parse. Qed.

Lemma key_comment x : key_of ("#" +:+ x) = None.
Proof.
  unfold key_of, parse_line. assert (exists y, trim ("#" +:+ x) = String "#" y) as [y ->].
  { unfold trim. change (trim_left ("#" +:+ x)) with (String "#" x). cbn [trim_right].
    destruct (trim_right x) as [|c r]; [by exists ""|by exists (String c r)]. }
  cbn. by destruct y.
Qed.

(** The keys of the lines that are kept and edited. *)
Lemma edited_key orig s i line y k : Forall valid s -> edited orig s i line = Some y -> key_of y = Some k ->
  (owner orig i = None /\ y = line) \/ (exists o, owner orig i = Some (k, o) /\ assoc_get k s <> None).
Proof.
  intros Hv. unfold edited. destruct (owner orig i) as [[k' o]|]; [|intros [= <-]; by left].
  destruct (assoc_get k' s) as [e|] eqn:E.
  - intros [= <-]. rewrite key_render by (rewrite Forall_forall in Hv; by apply Hv, assoc_get_elem). intros [= <-]. right. exists o. by rewrite E.
  - destruct (e_comment o); [|done]. intros [= <-] Hk. change (key_of ("#" +:+ line) = Some k) in Hk. by rewrite key_comment in Hk.
Qed.

Lemma fresh_key orig s y k : Forall valid s -> y ∈ fresh orig s -> key_of y = Some k -> assoc_get k orig = None /\ k ∈ s.*1.
Proof.
  intros Hv ([k' e] & Hin & Hy)%list_elem_of_omap. cbn in Hy. destruct (assoc_get k' orig) eqn:E; [done|]. injection Hy as <-.
  rewrite Forall_forall in Hv. rewrite key_render by by apply Hv. intros [= <-]. split; [done|]. apply list_elem_of_fmap. by exists (k', e).
Qed.

Lemma imap_elem {A B} (f : nat -> A -> option B) l y : y ∈ omap id (imap f l) -> exists i x, l !! i = Some x /\ f i x = Some y.
Proof.
  intros (z & Hz & Hy)%list_elem_of_omap. apply list_elem_of_lookup in Hz as [i Hi]. rewrite list_lookup_imap in Hi.
  destruct (l !! i) as [x|] eqn:E; [|done]. injection Hi as <-. by exists i, x.
Qed.

(** Each line is that of one key. *)
Definition once (k : string) (ls : list string) : Prop :=
  forall i j x y, ls !! i = Some x -> ls !! j = Some y -> key_of x = Some k -> key_of y = Some k -> i = j.

Lemma written_found ls orig s k e : parsed ls orig -> NoDup s.*1 -> Forall valid s -> assoc_get k s = Some e ->
  exists e', assoc_get k (parse_lines (expected orig s ls)) = Some e' /\ e_value e' = e_value e /\ e_comment e' = e_comment e.
Proof.
  intros Hp Hn Hv He. assert (valid (k, e)) as Hke by (rewrite Forall_forall in Hv; by apply Hv, assoc_get_elem).
  pose proof (render_parse k e Hke) as Hr. unfold expected. destruct (assoc_get k orig) as [o|] eqn:Ho.
  - destruct (pa_line _ _ Hp _ _ Ho) as (line & Hline & _). set (i := e_index o) in *.
    assert (owner orig i = Some (k, o)) as Hown by by eapply owner_Some.
    rewrite <- (take_drop_middle ls i line Hline). rewrite imap_app. cbn [imap]. rewrite omap_app. cbn [omap list_omap].
    rewrite length_take_le, Nat.add_0_r by (apply lookup_lt_Some in Hline; lia). cbn [id].
    unfold edited at 2. rewrite Hown, He. rewrite <- app_assoc. cbn [app]. eapply read_last in Hr; [exact Hr|].
    intros y [Hy|Hy]%elem_of_app Hk.
    + apply imap_elem in Hy as (j & x & Hx & Hy). cbn in Hy. rewrite lookup_drop in Hx.
      replace (i + S j)%nat with (S i + j)%nat in Hy by lia.
      eapply edited_key in Hy as [[_ ->]|(o' & Ho' & _)]; [| |done..].
      * by eapply (pa_last _ _ Hp k o (S i + j)); [|subst i; lia|..].
      * eapply owner_Some in Ho' as [Ho' Hi]; [|done]. assert (o' = o) as -> by congruence. subst i. lia.
    + apply fresh_key with (k := k) in Hy as [Hy _]; congruence.
  - apply assoc_get_elem in He as Hin. apply list_elem_of_split in Hin as (s1 & s2 & ->).
    unfold fresh. rewrite omap_app. cbn. rewrite Ho. rewrite app_assoc. eapply read_last in Hr; [exact Hr|].
    intros y Hy Hk. apply Forall_app in Hv as [_ [_ Hv]%Forall_cons].
    apply (fresh_key orig s2 y k) in Hy as [_ Hy]; [|done..].
    rewrite fmap_app in Hn. apply NoDup_app in Hn as (_ & _ & Hn). cbn in Hn. by apply NoDup_cons in Hn as [? _].
Qed.

Lemma written_gone ls orig s k : parsed ls orig -> Forall valid s -> assoc_get k s = None -> once k ls ->
  assoc_get k (parse_lines (expected orig s ls)) = None.
Proof.
  intros Hp Hv Hk Ho. apply read_none. unfold expected. intros y [Hy|Hy]%elem_of_app Hky.
  - apply imap_elem in Hy as (i & x & Hx & Hy). eapply edited_key in Hy as [[Hown ->]|(o & Hown & Hs)]; [| |done..]; [|done].
    destruct (assoc_get k orig) as [o|] eqn:E; [|by eapply pa_none].
    destruct (pa_line _ _ Hp _ _ E) as (z & Hz & Hpz). apply parse_line_key in Hpz as [Hpz _].
    eapply owner_None; [done|exact Hown|exact E|]. by eapply Ho.
  - eapply fresh_key in Hy as [_ Hy]; [|done..]. by apply assoc_get_None in Hk.
Qed.

(** ** Lines and content *)

Lemma split_on_elem c l p x : p ∈ split_on c l -> x ∈ p -> x <> c /\ x ∈ l.
Proof.
  revert p. induction l as [|a l IH]; intros p; cbn.
  - intros ->%list_elem_of_singleton Hx. by apply not_elem_of_nil in Hx.
  - destruct (Z.eqb_spec a c) as [->|Hne].
    + intros [->|Hp]%elem_of_cons Hx; [by apply not_elem_of_nil in Hx|]. destruct (IH _ Hp Hx). split; [done|by right].
    + destruct (split_on c l) as [|q ps].
      * intros ->%list_elem_of_singleton ->%list_elem_of_singleton. split; [done|by left].
      * intros [->|Hp]%elem_of_cons Hx.
        -- apply elem_of_cons in Hx as [->|Hx]; [split; [done|by left]|]. destruct (IH q ltac:(by left) Hx). split; [done|by right].
        -- destruct (IH p ltac:(by right) Hx). split; [done|by right].
Qed.

Definition clean (line : string) : Prop := str_mem nl_char line = false /\ strip_cr line = line.

Lemma strip_no_cr s : str_mem cr_char s = false -> strip_cr s = s.
Proof.
  induction s as [|c s IH]; [done|]. cbn [str_mem]. intros [Hc Hs]%orb_false_iff. cbn. rewrite Hc.
  destruct s; [done|]. by rewrite IH.
Qed.

Lemma map_front_id {A} (f : A -> A) l : Forall (fun x => f x = x) l -> map_front f l = l.
Proof. induction 1 as [|x l Hx Hl IH]; [done|]. cbn. rewrite IH, Hx. by destruct l. Qed.

Lemma split_mem c d s line : line ∈ str_split c s -> str_mem d s = false -> str_mem c line = false /\ str_mem d line = false.
Proof.
  unfold str_split. intros (p & -> & Hp)%list_elem_of_fmap Hd.
  assert (bytes_of (of_bytes p) = p) as E.
  { apply bytes_of_of, Forall_forall. intros x Hx. destruct (split_on_elem _ _ _ _ Hp Hx) as [_ Hin].
    pose proof (bytes_of_byte s) as Hb. rewrite Forall_forall in Hb. by apply Hb. }
  split; apply str_mem_not; rewrite E; intros Hx; destruct (split_on_elem _ _ _ _ Hp Hx) as [Hne Hin]; [done|].
  apply str_mem_bytes in Hin. congruence.
Qed.

Lemma split_lines content : str_mem cr_char content = false -> Forall clean (split_crlf content).
Proof.
  intros Hcr. unfold split_crlf.
  assert (Forall clean (str_split nl_char content)) as H.
  { apply Forall_forall. intros line Hl. destruct (split_mem _ _ _ _ Hl Hcr). split; [done|by apply strip_no_cr]. }
  rewrite map_front_id; [done|]. eapply Forall_impl; [exact H|]. by intros ? [_ ?].
Qed.

Lemma split_written ls : ls <> [] -> Forall clean ls -> split_crlf (str_join nl ls) = ls.
Proof.
  intros Hne Hc. unfold split_crlf. change nl with (String nl_char ""). rewrite str_split_join; [|done|].
  - apply map_front_id. eapply Forall_impl; [exact Hc|]. by intros ? [_ ?].
  - eapply Forall_impl; [exact Hc|]. intros l [Hl _] Hin%str_mem_bytes. congruence.
Qed.

Lemma read_written ls : Forall clean ls -> parse_lines (split_crlf (str_join nl ls)) = parse_lines ls.
Proof. intros Hc. destruct ls as [|l ls]; [done|]. by rewrite split_written. Qed.

Lemma strip_trimmed s : trim_right s = s -> strip_cr s = s.
Proof.
  induction s as [|c s IH]; [done|]. cbn [trim_right]. destruct s as [|d s].
  - cbn. destruct (is_space c) eqn:E; [done|]. destruct (Ascii.eqb_spec c cr_char) as [->|]; [by vm_compute in E|done].
  - destruct (trim_right (String d s)) as [|d' s'] eqn:E.
    + by destruct (is_space c).
    + intros [= -> ->]. cbn [strip_cr]. f_equal. by apply IH.
Qed.

Lemma clean_render k e : valid (k, e) -> clean (render k e).
Proof.
  intros H. destruct (render_trim k e H) as [Ht _]. split; [|by apply strip_trimmed, trim_right_fix].
  destruct (render_shape k e H) as (rest & -> & _ & _ & Hnl & _). destruct H as [(_ & Hs & _) _ _]. cbn [fst] in Hs.
  rewrite !str_mem_app, Hnl. by rewrite (proj2 (no_space_mem _ Hs)).
Qed.

Lemma clean_comment l : clean l -> clean ("#" +:+ l).
Proof. intros [H1 H2]. split; [by rewrite str_mem_app, H1|]. cbn. destruct l; [done|]. cbn in *. by rewrite H2. Qed.

Lemma expected_clean orig s ls : Forall clean ls -> Forall valid s -> Forall clean (expected orig s ls).
Proof.
  intros Hls Hv. rewrite Forall_forall in Hls. rewrite Forall_forall in Hv. apply Forall_forall. unfold expected. intros y [Hy|Hy]%elem_of_app.
  - apply imap_elem in Hy as (i & x & Hx%list_elem_of_lookup_2 & Hy). unfold edited in Hy.
    destruct (owner orig i) as [[k o]|]; [|injection Hy as <-; by apply Hls]. destruct (assoc_get k s) as [e|] eqn:E.
    + injection Hy as <-. by apply clean_render, Hv, assoc_get_elem.
    + destruct (e_comment o); [|done]. injection Hy as <-. by apply clean_comment, Hls.
  - apply list_elem_of_omap in Hy as ([k e] & Hin & Hy). cbn [fst snd] in Hy. destruct (assoc_get k orig); [done|].
    injection Hy as <-. by apply clean_render, Hv.
Qed.

(** ** The object *)

(** What the object keeps of the content that it read last. *)
Definition consistent (c : config) : Prop :=
  forall content, rawContent c = Some content ->
    lines c = split_crlf content /\ (originalSettings c = None \/ originalSettings c = Some (parse_lines (lines c))).

Lemma new_consistent : consistent new_config.
Proof. done. Qed.

Lemma notify_fields skip c : rawContent (notify skip c) = rawContent c /\ lines (notify skip c) = lines c /\
  originalSettings (notify skip c) = originalSettings c /\ c_settings (notify skip c) = c_settings c.
Proof. by destruct skip, c. Qed.

Lemma parse_consistent raw skip c : consistent c -> consistent (parseText raw skip c).
Proof.
  intros Hc content. unfold parseText. destruct c as [r l o s a ev]. destruct raw as [[|x raw]|].
  1,3: destruct (notify_fields skip (mk_config r l None None true ev)) as (H1 & H2 & H3 & _); cbv [set_field id]; cbn in *;
    rewrite H1, H2, H3; intros H; destruct (Hc _ H) as [E _]; cbn in E; by auto.
  cbv [set_field id]; cbn [rawContent]. case_bool_decide as Heq; [intros H; exact (Hc _ H)|].
  match goal with |- context [notify skip ?y] => destruct (notify_fields skip y) as (-> & -> & -> & _) end.
  cbn. intros [= <-]. by auto.
Qed.

Lemma parse_original content skip c : consistent c -> originalSettings c <> None -> content <> "" ->
  lines (parseText (Some content) skip c) = split_crlf content /\
  originalSettings (parseText (Some content) skip c) = Some (parse_lines (split_crlf content)).
Proof.
  intros Hc Ho Hne. unfold parseText. destruct content as [|x content]; [done|]. destruct c as [r l o s a ev].
  cbv [set_field id]; cbn [rawContent] in *. case_bool_decide as Heq.
  - cbn in *. subst r. destruct (Hc _ eq_refl) as [E [H|H]]; cbn in *; [by destruct Ho|]. by subst.
  - match goal with |- context [notify skip ?y] => destruct (notify_fields skip y) as (_ & -> & -> & _) end. done.
Qed.

Lemma kept_lines l : forall (f : nat -> string -> option string),
  (forall i x, l !! i = Some x -> key_of x = None -> f i x = Some x) ->
  filter (fun x => key_of x = None) l `sublist_of` omap id (imap f l).
Proof.
  induction l as [|x l IH]; intros f Hf; [constructor|]. rewrite filter_cons. cbn.
  assert (filter (fun x => key_of x = None) l `sublist_of` omap id (imap (f ∘ S) l)) as H by (apply IH; intros i; apply (Hf (S i))).
  destruct (decide (key_of x = None)) as [E|E].
  - rewrite (Hf 0%nat x eq_refl E). by constructor.
  - destruct (f 0%nat x); [by constructor|done].
Qed.

(** C26. What [write] writes reads back, provided that the numbers of the lines to
    delete are in their order when they are sorted as text (so for files of at most
    ten lines, and when at most one line goes): every setting that was given has
    its value and comment, a key that was not given and had exactly one line is
    gone, and the lines that hold no setting stay in their order.  Otherwise
    [linesToDelete.sort()] makes [write] delete other lines, see
    [deletes_wrong_line]; of a key with two lines the first one comes back, see
    [deleted_comes_back].  The file is there, is not empty and has no carriage
    returns; the settings that are given have different keys, and values and
    comments that a line can hold ([valid]). *)
Theorem write_reads_back (content : string) (s : settings) (c : config) :
  consistent c -> originalSettings c <> None ->
  content <> "" -> str_mem cr_char content = false ->
  NoDup s.*1 -> Forall valid s ->
  ascending (text_sort (deleted (parse_lines (split_crlf content)) s)) ->
  exists out, (write s (Some content) c).1 = Some out /\
    let read := parse_lines (split_crlf out) in
    (forall k e, assoc_get k s = Some e ->
      exists e', assoc_get k read = Some e' /\ e_value e' = e_value e /\ e_comment e' = e_comment e) /\
    (forall k, assoc_get k s = None -> once k (split_crlf content) -> assoc_get k read = None) /\
    filter (fun x => key_of x = None) (split_crlf content) `sublist_of` split_crlf out.
Proof.
  intros Hc Ho Hne Hcr Hn Hv Ha. destruct (parse_original content true c Hc Ho Hne) as [Hl Hs].
  set (ls := split_crlf content) in *. pose proof (parse_lines_parsed ls) as Hp.
  exists (str_join nl (expected (parse_lines ls) s ls)). split.
  { unfold write, generateConfig. cbn [fst]. rewrite Hl, Hs. cbn. by rewrite generated. }
  assert (Forall clean (expected (parse_lines ls) s ls)) as Hclean by by apply expected_clean, Hv; apply split_lines.
  cbn zeta. rewrite read_written by done. split; [|split].
  - intros k e. by apply written_found.
  - intros k. by apply written_gone.
  - trans (expected (parse_lines ls) s ls).
    + unfold expected. apply sublist_inserts_r, kept_lines. intros i x Hx Hk. unfold edited.
      destruct (owner (parse_lines ls) i) as [[k o]|] eqn:E; [|done]. eapply owner_Some in E as [E Hi]; [|done].
      destruct (pa_line _ _ Hp _ _ E) as (y & Hy & Hpy). apply parse_line_key in Hpy as [Hpy _]. congruence.
    + destruct (expected _ _ _) as [|y l] eqn:E; [apply sublist_nil_l|]. by rewrite split_written.
Qed.

Definition sample : string :=
  str_join nl ["# top"; "path /var/crash"; ""; "core_collector makedumpfile -l # fast"; "path /tmp"; "raw"].

Definition sample_settings : settings :=
  [("core_collector", mk_entry 0 "makedumpfile -c" "" (Some "# slow")); ("nfs", mk_entry 0 "host:/dir" "" None)].

(** Three settings of a file of twelve lines are not given: 1, 10 and 11. *)
Definition long_sample : string :=
  str_join nl ["#0"; "raw /a"; "#2"; "#3"; "core_collector makedumpfile -l # fast"; "#5"; "#6"; "#7"; "#8"; "#9"; "path /b"; "ssh c"].

Lemma write_reads_back_witness :
  deleted (parse_lines (split_crlf long_sample)) sample_settings = [1; 10; 11]%nat /\
  exists out, (write sample_settings (Some long_sample) new_config).1 = Some out /\
    let read := parse_lines (split_crlf out) in
    (forall k e, assoc_get k sample_settings = Some e ->
      exists e', assoc_get k read = Some e' /\ e_value e' = e_value e /\ e_comment e' = e_comment e) /\
    (forall k, assoc_get k sample_settings = None -> once k (split_crlf long_sample) -> assoc_get k read = None) /\
    filter (fun x => key_of x = None) (split_crlf long_sample) `sublist_of` split_crlf out.
Proof.
  split; [vm_compute; reflexivity|].
  apply write_reads_back; [done..|vm_compute; reflexivity| | |].
  - apply (bool_decide_eq_true_1 _). vm_compute. reflexivity.
  - repeat constructor; try done; cbn in *; intros; simplify_eq; [by eexists|done..].
  - replace (text_sort _) with [1; 10; 11]%nat by (vm_compute; reflexivity). repeat constructor.
Defined.

(** ** Where it goes wrong *)

(** [sort] compares as text: of lines 9 and 10 the wrong ones are deleted. *)
Definition twelve_lines : string :=
  str_join nl ["#0"; "#1"; "#2"; "#3"; "#4"; "#5"; "#6"; "#7"; "#8"; "path /a"; "raw /b"; "#11"].

Lemma deletes_wrong_line : (write [] (Some twelve_lines) new_config).1 =
  Some (str_join nl ["#0"; "#1"; "#2"; "#3"; "#4"; "#5"; "#6"; "#7"; "#8"; "raw /b"]).
Proof. vm_compute. reflexivity. Qed.

(** Of a key with two lines the last one counts; without it the first one does. *)
Lemma deleted_comes_back : option_map (fun out => e_value <$> assoc_get "path" (parse_lines (split_crlf out)))
  (write sample_settings (Some sample) new_config).1 = Some (Some "/var/crash").
Proof. vm_compute. reflexivity. Qed.

(** A file that goes and comes back with the same content: there are no settings,
    and nobody is told. *)
Lemma file_back_unseen : let c := parseText (Some sample) false (parseText None false (parseText (Some sample) false new_config)) in
  c_settings c = None /\ length (events c) = 2%nat /\ (write sample_settings (Some sample) c).1 = None.
Proof. vm_compute. done. Qed.

(** Without a file there is nothing to write to. *)
Lemma write_absent s c : (write s None c).1 = None /\ (write s (Some "") c).1 = None.
Proof. by destruct c. Qed.
