(* ===== verification/VmState.v ===== *)
(** * The store of virtual machines (src/pkg/machines/reducers.es6)

    The reducers of the page of virtual machines, its selectors and the state of
    dummy machines that are being created
    (components/create-vm-dialog/uiState.es6).  A machine is an object with
    whatever properties the provider gives it.

    Notifications are shared objects that the reducer changes, so the state lists
    references to them.  The objects of machines in actions are built for the
    action; that [timeSampleUsageData] also sets a property of them is not seen by
    anybody.  A provider is a reference, its reducer a parameter.  Numbers in
    strings are integers, as the counters of libvirt are; quotients are exact. *)

From S2P Require Import Prelude.

(** ** Numbers *)

(** [Number(v)]; [None] is NaN. *)
Definition digit (c : Ascii.ascii) : option Z :=
  let d := Z.of_nat (Ascii.nat_of_ascii c) - 48 in if (0 <=? d) && (d <=? 9) then Some d else None.

Fixpoint all_digits (s : string) (acc : Z) : option Z :=
  match s with EmptyString => Some acc | String c s => d ← digit c; all_digits s (10 * acc + d) end.

Definition to_number (v : jval) : option Z :=
  match v with
  | JNum z => Some z
  | JBool b => Some (if b then 1 else 0)
  | JNull => Some 0
  | JStr s =>
      match trim s with
      | EmptyString => Some 0
      | String c s' as t =>
          if Ascii.eqb c "-" then match s' with EmptyString => None | _ => Z.opp <$> all_digits s' 0 end
          else if Ascii.eqb c "+" then match s' with EmptyString => None | _ => all_digits s' 0 end
          else all_digits t 0
      end
  | _ => None
  end.

(** [(p / q).toFixed(1)] for a positive [q]. *)
Definition toFixed1 (p q : Z) : string :=
  let n := (20 * Z.abs p + q) / (2 * q) in
  (if p <? 0 then "-" else "") +:+ pretty (n / 10) +:+ "." +:+ pretty (n mod 10).

(** ** Actions *)

Inductive action :=
  | SET_PROVIDER (provider : nat)
  | SET_REFRESH_INTERVAL (refreshInterval : Z)
  | UPDATE_ADD_VM (vm : jobj)
  | UPDATE_VM (vm : jobj)
  | VM_ACTION_FAILED (name connectionName : string) (message detail : jval)
  | UNDEFINE_VM (connectionName name : string) (transientOnly : bool)
  | DELETE_UNLISTED_VMS (connectionName : string) (vmNames : list string)
  | UPDATE_OS_INFO_LIST (osInfoList : jval)
  | UPDATE_LIBVIRT_STATE (state : jobj)
  | ADD_UI_VM (name : string) (vm : jobj)
  | UPDATE_UI_VM (name : string) (vm : jobj)
  | DELETE_UI_VM (name : string)
  | ADD_NOTIFICATION (notification : jobj + nat)
  | CLEAR_NOTIFICATION (id : Z)
  | CLEAR_NOTIFICATIONS.

(** [Object.assign({}, a, b)]. *)
Definition assign (a b : jobj) : jobj := b ∪ a.

(** ** Machines *)

Definition getFirstIndexOfVm (state : list jobj) (field : string) (value connectionName : jval) : option nat :=
  fst <$> list_find (fun e => strict_eq (prop e "connectionName") connectionName && strict_eq (prop e field) value = true) state.

(** The look-up by id, or else by name. *)
Definition index_of (state : list jobj) (vm : jobj) : option nat :=
  if truthy (prop vm "id") then getFirstIndexOfVm state "id" (prop vm "id") (prop vm "connectionName")
  else getFirstIndexOfVm state "name" (prop vm "name") (prop vm "connectionName").

Definition findVmToUpdate (state : list jobj) (vm : jobj) : option (nat * jobj) :=
  index ← index_of state vm; vmCopy ← state !! index; Some (index, vmCopy).

Definition replaceVm (state : list jobj) (updatedVm : jobj) (index : nat) : list jobj :=
  take index state ++ updatedVm :: drop (S index) state.

Definition clearUsageData (vm : jobj) : jobj :=
  <["rssMemory" := JUndef]> (<["cpuUsage" := JUndef]> (<["cpuTime" := JUndef]> (<["actualTimeInMs" := JUndef]> vm))).

(** [newVmRecord] with its [cpuUsage]. *)
Definition timeSampleUsageData (newVmRecord previousVmRecord : jobj) : jobj :=
  let now := prop newVmRecord "actualTimeInMs" in
  let before := prop previousVmRecord "actualTimeInMs" in
  if truthy now then
    if truthy before then
      let diff p := a ← to_number (prop newVmRecord p); b ← to_number (prop previousVmRecord p); Some (a - b) in
      match diff "actualTimeInMs", diff "cpuTime" with
      | Some t, c =>
          if t * 1000000 <=? 0 then newVmRecord
          else <["cpuUsage" := JStr (match c with Some c => toFixed1 (100 * c) (t * 1000000) | None => "NaN" end)]> newVmRecord
      | None, _ => <["cpuUsage" := JStr "NaN"]> newVmRecord
      end
    else <["cpuUsage" := JNum 0]> newVmRecord
  else newVmRecord.

Definition negative (v : jval) : bool := match to_number v with Some n => n <? 0 | None => false end.

Definition vms (state : list jobj) (a : action) : list jobj :=
  match a with
  | UPDATE_ADD_VM vm =>
      match index_of state vm with
      | None => state ++ [vm]
      | Some index => replaceVm state (assign (default ∅ (state !! index)) vm) index
      end
  | UPDATE_VM vm =>
      match findVmToUpdate state vm with
      | None => state
      | Some (index, vmCopy) =>
          let updatedVm :=
            if negative (prop vm "actualTimeInMs") then clearUsageData (assign vmCopy vm)
            else assign vmCopy (timeSampleUsageData vm vmCopy) in
          replaceVm state updatedVm index
      end
  | VM_ACTION_FAILED name connectionName message detail =>
      match findVmToUpdate state {[ "name" := JStr name; "connectionName" := JStr connectionName ]} with
      | None => state
      | Some (index, vmCopy) =>
          replaceVm state (assign vmCopy {[ "lastMessage" := message; "lastMessageDetail" := detail ]}) index
      end
  | UNDEFINE_VM connectionName name transientOnly =>
      filter (fun vm => (negb (is_str (prop vm "connectionName") connectionName) || negb (is_str (prop vm "name") name) ||
                         (transientOnly && truthy (prop vm "persistent"))) = true) state
  | DELETE_UNLISTED_VMS connectionName vmNames =>
      filter (fun vm => (negb (is_str (prop vm "connectionName") connectionName) ||
                         existsb (is_str (prop vm "name")) vmNames) = true) state
  | _ => state
  end.

(** ** The other reducers *)

Record system_info := mk_system_info { libvirtService : jobj; osInfoList : list jval }.

#[export] Instance system_info_settable : Settable system_info := fun s => mk_system_info (libvirtService s) (osInfoList s).

Definition initial_system_info : system_info :=
  mk_system_info {[ "name" := JStr "unknown"; "activeState" := JStr "unknown"; "unitState" := JStr "unknown" ]} [].

Definition systemInfo (state : system_info) (a : action) : system_info :=
  match a with
  | UPDATE_OS_INFO_LIST (JArr l) => state <| osInfoList := l |>
  | UPDATE_LIBVIRT_STATE s => state <| libvirtService ::= fun old => assign old s |>
  | _ => state
  end.

(** The notifications are references into the objects of the page. *)
Record ui_state := mk_ui_state { notifications : list nat; ui_vms : gmap string jobj; objects : list jobj }.

#[export] Instance ui_state_settable : Settable ui_state := fun s => mk_ui_state (notifications s) (ui_vms s) (objects s).

Definition object_of (s : ui_state) (ref : nat) : jobj := default ∅ (objects s !! ref).

Definition addVm (name : string) (vm : jobj) (state : ui_state) : ui_state :=
  state <| ui_vms ::= fun m => <[name := assign (default ∅ (m !! name)) vm]> m |>.

Definition notification_id (s : ui_state) (ref : nat) : Z := default 0 (to_number (prop (object_of s ref) "id")).

(** A notification is a new object or a reference; a string is a new object. *)
Definition of_message (message : string) : jobj := {[ "message" := JStr message ]}.

Definition notification_object (n : jobj + nat) (s : ui_state) : nat * ui_state :=
  match n with
  | inl o => (length (objects s), s <| objects ::= fun l => l ++ [o] |>)
  | inr ref => (ref, s)
  end.

Definition ui (state : ui_state) (a : action) : ui_state :=
  match a with
  | ADD_UI_VM name vm => addVm name vm state
  | UPDATE_UI_VM name vm => match ui_vms state !! name with Some _ => addVm name vm state | None => state end
  | DELETE_UI_VM name => state <| ui_vms ::= delete name |>
  | ADD_NOTIFICATION n =>
      let '(ref, state) := notification_object n state in
      let notifs := notifications state in
      let id := match last notifs with Some l => notification_id state l + 1 | None => 1 end in
      let o := <["id" := JNum id]> (object_of state ref) in
      let o := if truthy (prop o "type") then o else <["type" := JStr "info"]> o in
      state <| objects ::= fun l => <[ref := o]> l |> <| notifications := notifs ++ [ref] |>
  | CLEAR_NOTIFICATION id =>
      state <| notifications ::= filter (fun ref => notification_id state ref <> id) |>
  | CLEAR_NOTIFICATIONS => state <| notifications := [] |>
  | _ => state
  end.

(** ** The store *)

Record config_state := mk_config_state { provider : option nat; providerState : jval; refreshInterval : Z }.

#[export] Instance config_state_settable : Settable config_state :=
  fun s => mk_config_state (provider s) (providerState s) (refreshInterval s).

Definition DefaultRefreshInterval : Z := 10000.

Definition initial_config : config_state := mk_config_state None JNull DefaultRefreshInterval.

Definition config (state : config_state) (a : action) : config_state :=
  match a with
  | SET_PROVIDER p => state <| provider := Some p |>
  | SET_REFRESH_INTERVAL n => state <| refreshInterval := n |>
  | _ => state
  end.

(** A substate that is the same object is not set, which makes no difference to
    its value. *)
Definition lazyComposedReducer {S T} (parentReducer : S -> action -> S) (getSubreducer : S -> option (T -> action -> T))
    (getSubstate : S -> T) (setSubstate : S -> T -> S) (state : S) (a : action) : S :=
  let newState := parentReducer state a in
  match getSubreducer newState with
  | Some subreducer => setSubstate newState (subreducer (getSubstate newState) a)
  | None => newState
  end.

Record state := mk_state { s_config : config_state; s_vms : list jobj; s_systemInfo : system_info; s_ui : ui_state }.

#[export] Instance state_settable : Settable state := fun s => mk_state (s_config s) (s_vms s) (s_systemInfo s) (s_ui s).

Definition initial_state : state := mk_state initial_config [] initial_system_info (mk_ui_state [] ∅ []).

Section Store.
(** The reducers of providers. *)
Context (reducer_of : nat -> option (jval -> action -> jval)).

Definition reducer (s : state) (a : action) : state :=
  mk_state
    (lazyComposedReducer config (fun c => provider c ≫= reducer_of) providerState
       (fun c sub => c <| providerState := sub |>) (s_config s) a)
    (vms (s_vms s) a) (systemInfo (s_systemInfo s) a) (ui (s_ui s) a).
End Store.

(** ** Selectors *)

Definition usagePollingEnabled (s : state) (name connectionName : string) : jval :=
  match list_find (fun vm => is_str (prop vm "connectionName") connectionName && is_str (prop vm "name") name = true) (s_vms s) with
  | Some (_, vm) => prop vm "usagePolling"
  | None => JBool false
  end.

Definition getRefreshInterval (s : state) : Z := refreshInterval (s_config s).
