(* ===== verification/VmXml.v ===== *)
(** * The description of a virtual machine

    Reading the XML of [virsh dumpxml] (src/pkg/machines/libvirt.es6, the
    functions [parseDumpxml...]), units (helpers.es6) and the parameters for the
    installation (libvirtUtils.es6).

    The browser reads the XML; a document is a tree of elements, in which missing
    attributes are null and a missing element has no properties, so that asking
    for one throws ([None]).  Translation is a parameter.  A number that is not an
    integer is the pair of its numerator and denominator. *)

From S2P Require Import Prelude VmState.

(** ** Documents *)

Inductive node :=
  | Elem (tag ns local : string) (attrs : list (string * string)) (childNodes : list node)
  | Text (s : string).

(** The elements below a node, in the order of the document. *)
Fixpoint descendants (n : node) : list node :=
  match n with
  | Text _ => []
  | Elem _ _ _ _ l => flat_map (fun c => match c with Elem _ _ _ _ _ => c :: descendants c | Text _ => [] end) l
  end.

Definition tagName (n : node) : string := match n with Elem tag _ _ _ _ => tag | Text _ => "" end.
Definition childNodes (n : node) : list node := match n with Elem _ _ _ _ l => l | Text _ => [] end.
Definition nodeValue (n : node) : jval := match n with Elem _ _ _ _ _ => JNull | Text s => JStr s end.

Definition getElementsByTagName (n : node) (name : string) : list node :=
  filter (fun e => String.eqb (tagName e) name = true) (descendants n).

Definition getElementsByTagNameNS (n : node) (ns name : string) : list node :=
  filter (fun e => match e with Elem _ ns' local _ _ => String.eqb ns' ns && String.eqb local name | Text _ => false end = true)
    (descendants n).

Definition getAttribute (n : node) (name : string) : jval :=
  match n with
  | Elem _ _ _ attrs _ => match assoc_get name attrs with Some v => JStr v | None => JNull end
  | Text _ => JNull
  end.

Fixpoint textContent (n : node) : string :=
  match n with
  | Text s => s
  | Elem _ _ _ _ l => fold_right (fun c s => textContent c +:+ s) "" l
  end.

(** [getElementsByTagName(name)[0]]. *)
Definition getSingleOptionalElem (parent : node) (name : string) : option node := head (getElementsByTagName parent name).

(** [elem ? elem.getAttribute(name) : undefined]. *)
Definition attr_of (e : option node) (name : string) : jval :=
  match e with Some e => getAttribute e name | None => JUndef end.

(** [elem.childNodes[0].nodeValue]. *)
Definition first_text (e : node) : option jval := nodeValue <$> head (childNodes e).

(** ** Units *)

Definition units : list (string * Z) :=
  [("B", 0); ("KiB", 1); ("MiB", 2); ("GiB", 3); ("TiB", 4); ("PiB", 5); ("EiB", 6)].

(** The quotient of two integers. *)
Definition quotient (p q : Z) : jval := if p mod q =? 0 then JNum (p / q) else JArr [JNum p; JNum q].

Definition convertToUnit (input : jval) (inputUnit outputUnit : string) : jval :=
  match to_number input, assoc_get inputUnit units, assoc_get outputUnit units with
  | Some n, Some i, Some o =>
      if n <? 0 then JNum 0
      else if i - o <? 0 then quotient n (1024 ^ (o - i)) else JNum (n * 1024 ^ (i - o))
  | _, _, _ => JNum 0
  end.

Section Parse.
Context (gettext : string -> string).

(** ** Texts *)

Definition transform : list (string * list (string * string)) :=
  [("autostart", [("disable", "disabled"); ("enable", "enabled")]);
   ("connections", [("system", "System"); ("session", "Session")]);
   ("vmStates", [("running", "running"); ("idle", "idle"); ("paused", "paused"); ("shutdown", "shutdown");
      ("shut off", "shut off"); ("crashed", "crashed"); ("dying", "dying"); ("pmsuspended", "suspended (PM)")]);
   ("bootableDisk", [("disk", "disk"); ("cdrom", "cdrom"); ("interface", "network"); ("hd", "disk")]);
   ("cpuMode", [("custom", "custom"); ("host-model", "host")]);
   ("networkType", [("direct", "direct"); ("network", "network"); ("bridge", "bridge"); ("user", "user");
      ("ethernet", "ethernet"); ("hostdev", "hostdev"); ("mcast", "mcast"); ("server", "server"); ("udp", "udp");
      ("vhostuser", "vhostuser")]);
   ("networkManaged", [("yes", "yes"); ("no", "no")]);
   ("networkState", [("up", "up"); ("down", "down")])].

Definition rephraseUI (key : string) (original : jval) : jval :=
  match assoc_get key transform ≫= assoc_get (js_String original) with
  | Some text => JStr (gettext text)
  | None => original
  end.

(** ** Devices *)

Definition parse_disk (diskElem : node) : option (jval * jval) :=
  targetElem ← getSingleOptionalElem diskElem "target";
  let driverElem := getSingleOptionalElem diskElem "driver" in
  let sourceElem := getSingleOptionalElem diskElem "source" in
  let serialElem := getSingleOptionalElem diskElem "serial" in
  let aliasElem := getSingleOptionalElem diskElem "alias" in
  let readonlyElem := getSingleOptionalElem diskElem "readonly" in
  let shareableElem := getSingleOptionalElem diskElem "shareable" in
  let bootElem := getSingleOptionalElem diskElem "boot" in
  let sourceHostElem := sourceElem ≫= fun e => getSingleOptionalElem e "host" in
  let present (e : option node) := JBool (match e with Some _ => true | None => false end) in
  let target := getAttribute targetElem "dev" in
  Some (target, JObj
    [("target", target);
     ("driver", JObj [("name", attr_of driverElem "name"); ("type", attr_of driverElem "type");
        ("cache", attr_of driverElem "cache"); ("discard", attr_of driverElem "discard");
        ("io", attr_of driverElem "io"); ("errorPolicy", attr_of driverElem "error_policy")]);
     ("bootOrder", attr_of bootElem "order");
     ("type", getAttribute diskElem "type");
     ("device", getAttribute diskElem "device");
     ("source", JObj [("file", attr_of sourceElem "file"); ("dev", attr_of sourceElem "dev");
        ("pool", attr_of sourceElem "pool"); ("volume", attr_of sourceElem "volumne");
        ("protocol", attr_of sourceElem "protocol");
        ("host", JObj [("name", attr_of sourceHostElem "name"); ("port", attr_of sourceHostElem "port")]);
        ("startupPolicy", attr_of sourceElem "startupPolicy")]);
     ("bus", getAttribute targetElem "bus");
     ("serial", attr_of serialElem "serial");
     ("aliasName", attr_of aliasElem "name");
     ("readonly", present readonlyElem);
     ("shareable", present shareableElem);
     ("removable", getAttribute targetElem "removable")]).

Definition add_disk (disks : option (list (string * jval))) (diskElem : node) : option (list (string * jval)) :=
  disks ← disks;
  '(target, disk) ← parse_disk diskElem;
  Some (if truthy target then assoc_set (js_String target) disk disks else disks).

Definition parseDumpxmlForDisks (devicesElem : node) : option (list (string * jval)) :=
  foldl add_disk (Some []) (getElementsByTagName devicesElem "disk").

Definition parse_interface (interfaceElem : node) : option jval :=
  let targetElem := getSingleOptionalElem interfaceElem "target" in
  let aliasElem := getSingleOptionalElem interfaceElem "alias" in
  let sourceElem := getSingleOptionalElem interfaceElem "source" in
  let driverElem := getSingleOptionalElem interfaceElem "driver" in
  let virtualportElem := getSingleOptionalElem interfaceElem "virtualport" in
  let addressElem := getSingleOptionalElem interfaceElem "address" in
  let linkElem := getSingleOptionalElem interfaceElem "link" in
  let mtuElem := getSingleOptionalElem interfaceElem "mtu" in
  let localElem := addressElem ≫= fun e => getSingleOptionalElem e "local" in
  macElem ← getSingleOptionalElem interfaceElem "mac";
  modelElem ← getSingleOptionalElem interfaceElem "model";
  let name := getAttribute interfaceElem "name" in
  Some (JObj
    [("type", getAttribute interfaceElem "type");
     ("managed", getAttribute interfaceElem "managed");
     ("name", if truthy name then name else JUndef);
     ("target", attr_of targetElem "dev");
     ("mac", getAttribute macElem "address");
     ("model", getAttribute modelElem "type");
     ("aliasName", attr_of aliasElem "name");
     ("virtualportType", attr_of virtualportElem "type");
     ("driverName", attr_of driverElem "name");
     ("state", match linkElem with Some e => getAttribute e "state" | None => JStr "up" end);
     ("mtu", attr_of mtuElem "size");
     ("source", JObj [("bridge", attr_of sourceElem "bridge"); ("network", attr_of sourceElem "network");
        ("portgroup", attr_of sourceElem "portgroup"); ("dev", attr_of sourceElem "dev");
        ("mode", attr_of sourceElem "mode"); ("address", attr_of sourceElem "address");
        ("port", attr_of sourceElem "port");
        ("local", JObj [("address", attr_of localElem "address"); ("port", attr_of localElem "port")])]);
     ("address", JObj [("bus", attr_of addressElem "bus"); ("function", attr_of addressElem "function")])]).

Definition parseDumpxmlForInterfaces (devicesElem : node) : option (list jval) :=
  mapM parse_interface (getElementsByTagName devicesElem "interface").

(** ** Boot order *)

Definition getBootableDeviceType (device : node) : jval :=
  if String.eqb (tagName device) "disk" then rephraseUI "bootableDisk" (getAttribute device "device")
  else if String.eqb (tagName device) "interface" then rephraseUI "bootableDisk" (JStr "interface")
  else JStr (gettext "other").

Definition boot_device (order : option Z) (type : jval) : option Z * jval := (order, type).

(** The sort by order; what is not a number compares as equal. *)
Definition order_before (a b : option Z * jval) : bool :=
  match a.1, b.1 with Some x, Some y => x <=? y | _, _ => true end.

Fixpoint insert_device (x : option Z * jval) (l : list (option Z * jval)) : list (option Z * jval) :=
  match l with [] => [x] | y :: l' => if order_before x y then x :: l else y :: insert_device x l' end.

Definition sort_devices (l : list (option Z * jval)) : list (option Z * jval) := foldr insert_device [] l.

Definition parseDumpxmlForBootOrder (osElem devicesElem : node) : list (option Z * jval) :=
  match getElementsByTagName osElem "boot" with
  | _ :: _ as osBootElems =>
      omap id (imap (fun bootNum bootElem =>
        let dev := getAttribute bootElem "dev" in
        if truthy dev then Some (boot_device (Some (Z.of_nat bootNum)) (rephraseUI "bootableDisk" dev)) else None) osBootElems)
  | [] =>
      sort_devices (omap (fun deviceElem =>
        match deviceElem with
        | Text _ => None
        | Elem _ _ _ _ _ =>
            bootElem ← getSingleOptionalElem deviceElem "boot";
            let order := getAttribute bootElem "order" in
            if truthy order then Some (boot_device (parseInt order) (getBootableDeviceType deviceElem)) else None
        end) (childNodes devicesElem))
  end.

(** ** Processor, consoles, metadata *)

Definition parseDumpxmlForCpuModel (cpuElem : option node) : option jval :=
  match cpuElem with
  | None => Some JUndef
  | Some cpuElem =>
      let cpuMode := getAttribute cpuElem "mode" in
      cpuModel ← (if is_str cpuMode "custom" then
                    match getSingleOptionalElem cpuElem "model" with
                    | Some modelElem => first_text modelElem
                    | None => Some (JStr "")
                    end
                  else Some (JStr ""));
      Some (JStr (js_String (rephraseUI "cpuMode" cpuMode) +:+
                  (if truthy cpuModel then " (" +:+ js_String cpuModel +:+ ")" else "")))
  end.

Definition add_display (displays : list (string * jval)) (graphicsElem : node) : list (string * jval) :=
  let get name := getAttribute graphicsElem name in
  if truthy (get "type") && (truthy (get "autoport") ||
       (truthy (get "listen") && (truthy (get "port") || truthy (get "tlsPort"))))
  then assoc_set (js_String (get "type"))
         (JObj [("type", get "type"); ("port", get "port"); ("tlsPort", get "tlsPort");
                ("address", get "listen"); ("autoport", get "autoport")]) displays
  else displays.

Definition add_console (displays : list (string * jval)) (consoleElem : node) : list (string * jval) :=
  if is_str (getAttribute consoleElem "type") "pty" then assoc_set "pty" (JObj []) displays else displays.

Definition parseDumpxmlForConsoles (devicesElem : node) : list (string * jval) :=
  foldl add_console (foldl add_display [] (getElementsByTagName devicesElem "graphics"))
    (getElementsByTagName devicesElem "console").

Definition METADATA_NAMESPACE : string := "https://github.com/cockpit-project/cockpit/tree/master/pkg/machines".

Definition parseDumpxmlMachinesMetadataElement (metadataElem : option node) (name : string) : jval :=
  match metadataElem with
  | None => JNull
  | Some m => match getElementsByTagNameNS m METADATA_NAMESPACE name with e :: _ => JStr (textContent e) | [] => JNull end
  end.

(** ** The machine *)

Definition boot_jval (d : option Z * jval) : jval :=
  JObj [("order", match d.1 with Some n => JNum n | None => JNull end); ("type", d.2)].

(** A missing unit throws, once the amount was found to be a number. *)
Definition memory_unit (memory unit : jval) : option string :=
  match unit with
  | JStr u => Some u
  | _ => match to_number memory with Some n => if n <? 0 then Some "" else None | None => Some "" end
  end.

(** What [parseDumpxml] finds before it looks at the state of the page. *)
Definition dumped_vm (connectionName : string) (xmlDoc : node) : option jobj :=
  domainElem ← getSingleOptionalElem xmlDoc "domain";
  osElem ← getSingleOptionalElem domainElem "os";
  currentMemoryElem ← getSingleOptionalElem domainElem "currentMemory";
  vcpuElem ← getSingleOptionalElem domainElem "vcpu";
  let cpuElem := getSingleOptionalElem domainElem "cpu" in
  devicesElem ← getSingleOptionalElem domainElem "devices";
  osTypeElem ← getSingleOptionalElem osElem "type";
  let metadataElem := getSingleOptionalElem domainElem "metadata" in
  name ← getSingleOptionalElem domainElem "name" ≫= first_text;
  id ← getSingleOptionalElem domainElem "uuid" ≫= first_text;
  memory ← first_text currentMemoryElem;
  unit ← memory_unit memory (getAttribute currentMemoryElem "unit");
  vcpus ← (let current := getAttribute vcpuElem "current" in
           if truthy current then Some current else first_text vcpuElem);
  disks ← parseDumpxmlForDisks devicesElem;
  cpuModel ← parseDumpxmlForCpuModel cpuElem;
  interfaces ← parseDumpxmlForInterfaces devicesElem;
  Some (list_to_map
    [("connectionName", JStr connectionName);
     ("name", name);
     ("id", id);
     ("osType", nodeValue osTypeElem);
     ("currentMemory", convertToUnit memory unit "KiB");
     ("vcpus", vcpus);
     ("disks", JObj disks);
     ("emulatedMachine", getAttribute osTypeElem "machine");
     ("cpuModel", cpuModel);
     ("bootOrder", JObj [("devices", JArr (boot_jval <$> parseDumpxmlForBootOrder osElem devicesElem))]);
     ("displays", JObj (parseDumpxmlForConsoles devicesElem));
     ("interfaces", JArr interfaces);
     ("metadata", JObj
       [("hasInstallPhase", JBool (is_str (parseDumpxmlMachinesMetadataElement metadataElem "has_install_phase") "true"));
        ("installSource", parseDumpxmlMachinesMetadataElement metadataElem "install_source");
        ("osVariant", parseDumpxmlMachinesMetadataElement metadataElem "os_variant")])]).
End Parse.

(** ** Parameters for the installation *)

Definition field (v : jval) (k : string) : jval :=
  match v with JObj l => default JUndef (assoc_get k l) | _ => JUndef end.

(** The options of a line, those that are not set left out. *)
Definition param_line (options : list (string * jval)) : string :=
  str_join "," (map (fun kv : string * jval => kv.1 +:+ "=" +:+ js_String kv.2) (filter (fun kv => truthy kv.2 = true) options)).

Definition prepareParams (objectData : list (string * jval)) (valueTransformer : jval -> list (string * jval)) : string :=
  fold_right (fun kv result => param_line (valueTransformer kv.2) +:+ String nl_char result) "" objectData.

Definition prepareDisplaysParam (displays : list (string * jval)) : string :=
  prepareParams displays (fun display =>
    [("type", field display "type"); ("listen", field display "address"); ("port", field display "port");
     ("tlsport", field display "tlsPort")]).

Definition prepareDisksParam (disks : list (string * jval)) : string :=
  prepareParams disks (fun disk =>
    let source := field disk "source" in
    let driver := field disk "driver" in
    let isVolume := truthy (field source "volume") && truthy (field source "pool") in
    let on v := JStr (if truthy v then "on" else "off") in
    [("path", if isVolume then JNull else field source "file");
     ("vol", if isVolume then JStr (js_String (field source "pool") +:+ "/" +:+ js_String (field source "volume")) else JNull);
     ("device", field disk "device");
     ("boot_order", field disk "bootOrder");
     ("bus", field disk "bus");
     ("removable", field disk "removable");
     ("readonly", on (field disk "readonly"));
     ("shareable", on (field disk "shareable"));
     ("cache", field driver "cache");
     ("discard", field driver "discard");
     ("driver_name", field driver "name");
     ("driver_type", field driver "type");
     ("io", field driver "io");
     ("error_policy", field driver "errorPolicy");
     ("startup_policy", field source "startupPolicy")]).
