(* ===== verification/VmLibvirt.v ===== *)
(** * The provider of virtual machines (src/pkg/machines/libvirt.es6)

    What the page learns from [virsh]: the list of machines, their descriptions
    and states, statistics and events; and the dummy machines shown while one is
    being created (components/create-vm-dialog/uiState.es6).

    The replies of processes are inputs; the processes that are started and the
    actions that are delayed are the trace of effects.  A reply that throws
    ([None]) rejects the promise of its chain, which nobody handles, and leaves
    the store as it is.  The viewer of consoles and the scripts that make and
    install machines are outside. *)

From S2P Require Import Prelude Location VmState VmXml.

Inductive effect :=
  | Virsh (connectionName : string) (args : list string)
  | Delay (action : string * string)
  | DelayAll (connectionName : string)
  | CheckLibvirtStatus (serviceName : string)
  | MonitorEvents (connectionName : string)
  | ListDomains (connectionName : string)
  | ListSystems
  | FindService
  | StartService (serviceName : string)
  | EnableService (serviceName : string) (enable : bool).

(** The timers that remove dummy machines, by the name of the machine. *)
Record vm_timeouts := mk_timeouts { t_create : option nat; t_install : option nat }.

#[export] Instance vm_timeouts_settable : Settable vm_timeouts := fun t => mk_timeouts (t_create t) (t_install t).

Record world := mk_world {
  w_store : state; timeouts : gmap string vm_timeouts; w_timers : gmap nat string; w_next : nat; w_effects : list effect }.

#[export] Instance world_settable : Settable world := fun w =>
  mk_world (w_store w) (timeouts w) (w_timers w) (w_next w) (w_effects w).

(** Numbers of timers start from one. *)
Definition initial_world : world := mk_world initial_state ∅ ∅ 1 [].

Section Provider.
Context (gettext : string -> string).
Context (reducer_of : nat -> option (jval -> action -> jval)).

Definition dispatch (a : action) (w : world) : world := w <| w_store ::= fun s => reducer reducer_of s a |>.

Definition effect_ (e : effect) (w : world) : world := w <| w_effects ::= fun l => l ++ [e] |>.

(** ** Dummy machines *)

Inductive timeout_id := CREATE_TIMEOUT | INSTALL_TIMEOUT.

Definition get_timeout (which : timeout_id) (t : vm_timeouts) : option nat :=
  match which with CREATE_TIMEOUT => t_create t | INSTALL_TIMEOUT => t_install t end.

Definition set_timeout (which : timeout_id) (x : option nat) (t : vm_timeouts) : vm_timeouts :=
  match which with CREATE_TIMEOUT => t <| t_create := x |> | INSTALL_TIMEOUT => t <| t_install := x |> end.

Definition getSettings (name : string) (w : world) : vm_timeouts := default (mk_timeouts None None) (timeouts w !! name).

Definition setupCleanupTimeout (name : string) (which : timeout_id) (w : world) : world :=
  let id := w_next w in
  w <| timeouts ::= <[name := set_timeout which (Some id) (getSettings name w)]> |>
    <| w_timers ::= <[id := name]> |> <| w_next := S id |>.

(** With the timer that was there. *)
Definition clearTimeout (name : string) (which : timeout_id) (w : world) : option nat * world :=
  match timeouts w !! name with
  | Some vm =>
      match get_timeout which vm with
      | Some id => (Some id, w <| w_timers ::= delete id |> <| timeouts ::= <[name := set_timeout which None vm]> |>)
      | None => (None, w)
      end
  | None => (None, w)
  end.

Definition clearVmUiState (name : string) (w : world) : world :=
  let w := snd (clearTimeout name CREATE_TIMEOUT w) in
  let w := snd (clearTimeout name INSTALL_TIMEOUT w) in
  dispatch (DELETE_UI_VM name) (w <| timeouts ::= delete name |>).

(** The settings of a dummy machine; [openConsoleTab] if it is given. *)
Definition dummy (name progress : string) (openConsoleTab : option jval) : jobj :=
  {[ "name" := JStr name; "isUi" := JBool true; "expanded" := JBool true;
     "openConsoleTab" := default (JBool true) openConsoleTab; progress := JBool true ]}.

Definition setVmCreateInProgress (name : string) (openConsoleTab : option jval) (w : world) : world :=
  setupCleanupTimeout name CREATE_TIMEOUT (dispatch (ADD_UI_VM name (dummy name "createInProgress" openConsoleTab)) w).

Definition setVmInstallInProgress (name : string) (openConsoleTab : option jval) (w : world) : world :=
  setupCleanupTimeout name INSTALL_TIMEOUT (dispatch (ADD_UI_VM name (dummy name "installInProgress" openConsoleTab)) w).

Definition finished (name progress : string) (openConsoleTab : option jval) : jobj :=
  let o := {[ "name" := JStr name; progress := JBool false ]} in
  match openConsoleTab with Some v => <["openConsoleTab" := v]> o | None => o end.

Definition finishVmCreateInProgress (name : string) (openConsoleTab : option jval) : world -> world :=
  dispatch (UPDATE_UI_VM name (finished name "createInProgress" openConsoleTab)).

Definition finishVmInstallInProgress (name : string) (openConsoleTab : option jval) : world -> world :=
  dispatch (UPDATE_UI_VM name (finished name "installInProgress" openConsoleTab)).

Definition removeVmCreateInProgress (name : string) (w : world) : world :=
  match clearTimeout name CREATE_TIMEOUT w with
  | (Some _, w) => finishVmCreateInProgress name None w
  | (None, w) => w
  end.

(** A timer that is pending goes off. *)
Definition timer (id : nat) (w : world) : world :=
  match w_timers w !! id with
  | Some name => clearVmUiState name (w <| w_timers ::= delete id |>)
  | None => w
  end.

(** ** Creating and installing *)

Definition CREATE_VM (vmName : string) (startVm : bool) (w : world) : world :=
  let w := setVmCreateInProgress vmName (Some (JBool startVm)) w in
  if startVm then setVmInstallInProgress vmName None w else w.

Definition create_done (vmName : string) (startVm : bool) (w : world) : world :=
  let w := finishVmCreateInProgress vmName None w in
  if startVm then finishVmInstallInProgress vmName None w else w.

Definition create_failed (vmName : string) : world -> world := clearVmUiState vmName.

Definition INSTALL_VM (name : string) : world -> world := setVmInstallInProgress name None.

Definition install_done (name : string) : world -> world := finishVmInstallInProgress name None.

(** The failure is shown later. *)
Definition install_failed (name : string) : world -> world := finishVmInstallInProgress name (Some (JBool false)).

Definition buildFailHandler (name connectionName message : string) (detail : jval) : world -> world :=
  dispatch (VM_ACTION_FAILED name connectionName (JStr (gettext message)) detail).

(** ** Machines *)

Definition resolveUiState (name : string) (w : world) : jval * world :=
  match ui_vms (s_ui (w_store w)) !! name with
  | None => (JObj [("initiallyExpanded", JBool false); ("initiallyOpenedConsoleTab", JBool false)], w)
  | Some uiState =>
      (JObj [("initiallyExpanded", prop uiState "expanded"); ("initiallyOpenedConsoleTab", prop uiState "openConsoleTab")],
       if truthy (prop uiState "installInProgress") then removeVmCreateInProgress name w else clearVmUiState name w)
  end.

(** [None] for the document: there was nothing to parse. *)
Definition parseDumpxml (connectionName : string) (doc : option node) (w : world) : option world :=
  match doc with
  | None => Some w
  | Some xmlDoc =>
      vm ← dumped_vm gettext connectionName xmlDoc;
      let '(ui, w) := resolveUiState (js_String (prop vm "name")) w in
      Some (dispatch (UPDATE_ADD_VM (<["ui" := ui]> vm)) w)
  end.

Definition virsh_read (connectionName method name : string) : effect := Virsh connectionName ["-r"; method; name].

Definition GET_VM (connectionName name : string) (w : world) : world :=
  if String.eqb name "" then w else effect_ (virsh_read connectionName "dumpxml" name) w.

Definition dumpxml_reply (connectionName name : string) (doc : option node) (w : world) : world :=
  match parseDumpxml connectionName doc w with
  | Some w => effect_ (virsh_read connectionName "dominfo" name) w
  | None => w
  end.

(** The matches of [/[^\r\n]+/g]; [None] is null. *)
Definition is_eol (c : Ascii.ascii) : bool := Ascii.eqb c nl_char || Ascii.eqb c cr_char.

Fixpoint words (p : Ascii.ascii -> bool) (s : string) : string * list string :=
  match s with
  | EmptyString => ("", [])
  | String c s =>
      let '(w, l) := words p s in
      if p c then ("", if String.eqb w "" then l else w :: l) else (String c w, l)
  end.

Definition parseLines (virshStdout : string) : option (list string) :=
  let '(w, l) := words is_eol virshStdout in
  match (if String.eqb w "" then l else w :: l) with [] => None | l => Some l end.

Fixpoint str_drop (n : nat) (s : string) : string :=
  match n, s with S n, String _ s => str_drop n s | _, _ => s end.

Definition getValueFromLine (parsedLines : list string) (pattern : string) : option string :=
  match filter (fun line => String.prefix pattern (trim line) = true) parsedLines with
  | [] => None
  | selectedLine => Some (trim (str_drop (String.length pattern) (trim (str_join "," selectedLine))))
  end.

Definition optional (v : option string) : jval := match v with Some s => JStr s | None => JUndef end.

Definition canReset (vmState : option string) : bool :=
  match vmState with
  | Some s => String.eqb s "running" || String.eqb s "idle" || String.eqb s "paused"
  | None => false
  end.

Definition isRunning : option string -> bool := canReset.
Definition canRun (vmState : option string) (hasInstallPhase : bool) : bool :=
  negb hasInstallPhase && bool_decide (vmState = Some "shut off").
Definition canInstall (vmState : option string) (hasInstallPhase : bool) : bool :=
  negb (bool_decide (vmState = Some "running")) && hasInstallPhase.
Definition canConsole (vmState : option string) : bool := bool_decide (vmState = Some "running").

Definition parseDominfo (connectionName name domInfo : string) (w : world) : option world :=
  lines ← parseLines domInfo;
  let state := getValueFromLine lines "State:" in
  let autostart := getValueFromLine lines "Autostart:" in
  let persistent := bool_decide (getValueFromLine lines "Persistent:" = Some "yes") in
  let vm : jobj := {[ "connectionName" := JStr connectionName; "name" := JStr name; "state" := optional state;
                      "autostart" := optional autostart; "persistent" := JBool persistent ]} in
  Some (dispatch (UPDATE_VM (if isRunning state then vm else <["actualTimeInMs" := JNum (-1)]> vm)) w).

Definition dominfo_reply (connectionName name domInfo : string) (w : world) : world :=
  default w (parseDominfo connectionName name domInfo w).

(** ** All machines *)

Definition GET_ALL_VMS (connectionName serviceName : string) (w : world) : world :=
  effect_ (ListDomains connectionName) (effect_ (MonitorEvents connectionName) (effect_ (CheckLibvirtStatus serviceName) w)).

Definition vm_names (output : string) : list string := trim <$> split_crlf (trim output).

(** The reply to [ListDomains]. *)
Definition doGetAllVms (connectionName output : string) (w : world) : world :=
  let vmNames := vm_names output in
  foldl (fun w name => GET_VM connectionName name w) (dispatch (DELETE_UNLISTED_VMS connectionName vmNames) w) vmNames.

(** ** Statistics *)

Definition parseDommemstat (connectionName name dommemstat : string) (w : world) : option world :=
  lines ← parseLines dommemstat;
  Some (match getValueFromLine lines "rss" with
        | Some rssMemory =>
            if String.eqb rssMemory "" then w
            else dispatch (UPDATE_VM {[ "connectionName" := JStr connectionName; "name" := JStr name;
                                        "rssMemory" := JStr rssMemory ]}) w
        | None => w
        end).

(** [getValueFromLine(...) || NaN]. *)
Definition value_or_NaN (v : option string) : jval :=
  match v with Some s => if String.eqb s "" then JNull else JStr s | None => JNull end.

Definition block_key (i : nat) (what : string) : string := "block." +:+ pretty (Z.of_nat i) +:+ "." +:+ what +:+ "=".

Definition disk_stats (lines : list string) (stats : list (string * jval)) (i : nat) : list (string * jval) :=
  let get what := getValueFromLine lines (block_key i what) in
  match get "name" with
  | Some target =>
      if String.eqb target "" then stats
      else assoc_set target (JObj [("physical", value_or_NaN (get "physical")); ("capacity", value_or_NaN (get "capacity"));
                                   ("allocation", value_or_NaN (get "allocation"))]) stats
  | None => stats
  end.

Definition parseDomstatsForDisks (lines : list string) : option (list (string * jval)) :=
  match getValueFromLine lines "block.count=" with
  | None => None
  | Some count =>
      if String.eqb count "" then None
      else Some (foldl (disk_stats lines) [] (seq 0 (Z.to_nat (default 0 (to_number (JStr count))))))
  end.

Definition parseDomstats (now : Z) (connectionName name domstats : string) (w : world) : option world :=
  lines ← parseLines domstats;
  let vm (k : string) (v : jval) : jobj := {[ "connectionName" := JStr connectionName; "name" := JStr name; k := v ]} in
  let w := match getValueFromLine lines "cpu.time=" with
           | Some cpuTime =>
               if String.eqb cpuTime "" then w
               else dispatch (UPDATE_VM (<["actualTimeInMs" := JNum now]> (vm "cpuTime" (JStr cpuTime)))) w
           | None => w
           end in
  let disks := match parseDomstatsForDisks lines with Some l => JObj l | None => JUndef end in
  Some (dispatch (UPDATE_VM (vm "disksStats" disks)) w).

(** ** Polling *)

Definition polling (connectionName name : string) (on : bool) : action :=
  UPDATE_VM {[ "connectionName" := JStr connectionName; "name" := JStr name; "usagePolling" := JBool on ]}.

Definition doUsagePolling (name connectionName : string) (w : world) : world :=
  if truthy (usagePollingEnabled (w_store w) name connectionName) then
    effect_ (virsh_read connectionName "dommemstat" name) (effect_ (Delay (name, connectionName)) w)
  else w.

Definition USAGE_START_POLLING (name connectionName : string) (w : world) : world :=
  doUsagePolling name connectionName (dispatch (polling connectionName name true) w).

Definition USAGE_STOP_POLLING (name connectionName : string) : world -> world := dispatch (polling connectionName name false).

(** A command that failed gives no output. *)
Definition dommemstat_reply (connectionName name : string) (out : option string) (w : world) : world :=
  match out with
  | None | Some "" => w
  | Some out =>
      match parseDommemstat connectionName name out w with
      | Some w => effect_ (virsh_read connectionName "domstats" name) w
      | None => w
      end
  end.

Definition domstats_reply (now : Z) (connectionName name : string) (out : option string) (w : world) : world :=
  match out with
  | None | Some "" => w
  | Some out => default w (parseDomstats now connectionName name out w)
  end.

(** ** Events *)

(** Letters and dashes at the start. *)
Fixpoint event_name (s : string) : string * string :=
  match s with
  | String c s' =>
      let n := Z.of_nat (Ascii.nat_of_ascii c) in
      if ((97 <=? n) && (n <=? 122)) || (n =? 45) then let '(a, b) := event_name s' in (String c a, b) else ("", s)
  | EmptyString => ("", "")
  end.

(** The name up to a colon, and to the end what is after the colon and a space. *)
Definition domain_and_info (s : string) : option (string * option string) :=
  match str_cut ":" s with
  | None => if String.eqb s "" then None else Some (s, None)
  | Some (name, rest) =>
      match rest with
      | String c info => if Ascii.eqb c " " && negb (String.eqb name "") && negb (str_mem cr_char info) then Some (name, Some info) else None
      | EmptyString => None
      end
  end.

(** [ domain ] and what is after it: the last one that fits, in the first line. *)
Fixpoint after_domain (s : string) : option (string * option string) :=
  match s with
  | EmptyString => None
  | String c s' =>
      match (if Ascii.eqb c cr_char then None else after_domain s') with
      | Some r => Some r
      | None => if String.prefix " domain " s then domain_and_info (str_drop 8 s) else None
      end
  end.

Fixpoint find_event (s : string) : option (string * string * option string) :=
  match s with
  | EmptyString => None
  | String _ s' =>
      let here :=
        if String.prefix "event '" s then
          let '(event, rest) := event_name (str_drop 7 s) in
          if negb (String.eqb event "") && String.prefix "' " rest then
            '(name, info) ← after_domain (str_drop 2 rest); Some (event, name, info)
          else None
        else None in
      match here with Some r => Some r | None => find_event s' end
  end.

(** [info.split(' ')[0]]. *)
Definition first_word (s : string) : string := match str_cut " " s with Some (a, _) => a | None => s end.

(** [None]: a lifecycle without details throws. *)
Definition handleEvent (connectionName line : string) (w : world) : option world :=
  match find_event line with
  | None => Some w
  | Some (event, name, info) =>
      let vm (l : list (string * jval)) : jobj := list_to_map ([("connectionName", JStr connectionName); ("name", JStr name)] ++ l) in
      if String.eqb event "lifecycle" then
        info ← info;
        let type := first_word info in
        Some (if String.eqb type "Undefined" then dispatch (UNDEFINE_VM connectionName name false) w
              else if String.eqb type "Defined" || String.eqb type "Started" then GET_VM connectionName name w
              else if String.eqb type "Stopped" then
                dispatch (UNDEFINE_VM connectionName name true)
                  (dispatch (UPDATE_VM (vm [("state", JStr "shut off"); ("actualTimeInMs", JNum (-1))])) w)
              else if String.eqb type "Suspended" then dispatch (UPDATE_VM (vm [("state", JStr "paused")])) w
              else if String.eqb type "Resumed" then dispatch (UPDATE_VM (vm [("state", JStr "running")])) w
              else w)
      else if existsb (String.eqb event) ["metadata-change"; "device-added"; "device-removed"; "disk-change"; "tray-change"; "control-error"]
      then Some (GET_VM connectionName name w)
      else Some w
  end.

(** The lines in turn; the last one is kept.  After one that throws the buffer is
    what it was. *)
Fixpoint handle_lines (connectionName : string) (lines : list string) (w : world) : option string * world :=
  match lines with
  | [] => (None, w)
  | [line] => (Some line, w)
  | line :: lines =>
      match handleEvent connectionName (trim line) w with
      | Some w => handle_lines connectionName lines w
      | None => (None, w)
      end
  end.

Definition monitor_data (connectionName data : string) (x : string * world) : string * world :=
  let '(output_buf, w) := x in
  if String.prefix "error: Disconnected from" data || String.prefix "error: internal error: client socket is closed" data
  then (output_buf, w)
  else
    let output_buf := output_buf +:+ data in
    match handle_lines connectionName (str_split nl_char output_buf) w with
    | (Some rest, w) => (rest, w)
    | (None, w) => (output_buf, w)
    end.

Definition monitor_failed (connectionName serviceName : string) (w : world) : world :=
  effect_ (DelayAll connectionName) (dispatch (DELETE_UNLISTED_VMS connectionName []) (effect_ (CheckLibvirtStatus serviceName) w)).

(** ** The service and the systems that can be installed *)

(** The first of [/([^\s]+)/]. *)
Definition first_match (s : string) : option string :=
  let '(w, l) := words is_space s in
  if String.eqb w "" then head l else Some w.

Definition canLoggedUserConnectSession (connectionName user : string) : bool :=
  negb (String.eqb connectionName "session") || negb (String.eqb user "root").

(** For all connections, once the user is known. *)
Definition get_all_connections (serviceName user : string) (w : world) : world :=
  foldl (fun w connectionName => GET_ALL_VMS connectionName serviceName w) w
    (filter (fun c => canLoggedUserConnectSession c user = true) ["system"; "session"]).

Definition INIT_DATA_RETRIEVAL (w : world) : world := effect_ FindService (effect_ ListSystems w).

(** The reply to [FindService], when all is well and when it failed. *)
Definition service_found (serviceName : string) (w : world) : world :=
  let name := first_match serviceName in
  let w := dispatch (UPDATE_LIBVIRT_STATE {[ "name" := match name with Some n => JStr n | None => JNull end ]}) w in
  match name with Some name => effect_ (CheckLibvirtStatus name) w | None => w end.

Definition service_unknown : world -> world := dispatch (UPDATE_LIBVIRT_STATE {[ "name" := JNull ]}).

(** The service as its proxy shows it. *)
Definition libvirt_status (exists_ enabled : bool) (state : jval) : world -> world :=
  dispatch (UPDATE_LIBVIRT_STATE
    {[ "activeState" := if exists_ then state else JStr "stopped";
       "unitState" := JStr (if exists_ && enabled then "enabled" else "disabled") ]}).

Definition START_LIBVIRT (serviceName : string) : world -> world := effect_ (StartService serviceName).
Definition libvirt_started (serviceName : string) : world -> world := effect_ (CheckLibvirtStatus serviceName).
Definition ENABLE_LIBVIRT (enable : bool) (serviceName : string) : world -> world := effect_ (EnableService serviceName enable).

Definition osColumnsNames : list string :=
  ["shortId"; "name"; "version"; "family"; "vendor"; "releaseDate"; "eolDate"; "codename"].

Definition os_line (line : string) : option jval :=
  let osColumns := str_split "|" line in
  let result := imap (fun i name => (name, match osColumns !! i with Some v => JStr v | None => JNull end)) osColumnsNames in
  if truthy (field (JObj result) "shortId") then Some (JObj result) else None.

Definition parseOsInfoList (osList : string) : world -> world :=
  dispatch (UPDATE_OS_INFO_LIST (JArr (omap os_line (str_split nl_char osList)))).

(** ** Commands *)

Definition SHUTDOWN_VM (name connectionName : string) := effect_ (Virsh connectionName ["shutdown"; name]).
Definition FORCEOFF_VM (name connectionName : string) := effect_ (Virsh connectionName ["destroy"; name]).
Definition REBOOT_VM (name connectionName : string) := effect_ (Virsh connectionName ["reboot"; name]).
Definition FORCEREBOOT_VM (name connectionName : string) := effect_ (Virsh connectionName ["reset"; name]).
Definition START_VM (name connectionName : string) := effect_ (Virsh connectionName ["start"; name]).
Definition SENDNMI_VM (name connectionName : string) := effect_ (Virsh connectionName ["inject-nmi"; name]).

Definition undefine (name connectionName : string) (storage : option (list string)) : world -> world :=
  effect_ (Virsh connectionName (["undefine"; name; "--managed-save"] ++
    match storage with Some s => ["--storage"; str_join "," s] | None => [] end)).

Definition DELETE_VM (name connectionName : string) (destroy : bool) (storage : option (list string)) : world -> world :=
  if destroy then effect_ (Virsh connectionName ["destroy"; name]) else undefine name connectionName storage.

(** When the machine was destroyed it is undefined. *)
Definition destroyed (name connectionName : string) (storage : option (list string)) : world -> world :=
  undefine name connectionName storage.

Definition CHANGE_NETWORK_STATE (name networkMac state connectionName : string) : world -> world :=
  effect_ (Virsh connectionName ["domif-setlink"; name; networkMac; state]).
Definition network_changed (name connectionName : string) : world -> world := GET_VM connectionName name.
End Provider.
