(* ===== verification/VmSpec.v ===== *)
(** * The store of virtual machines is well formed

    Whatever the provider dispatches, machines have one entry per id, and
    notifications have increasing ids; after a listing the machines of a
    connection are those that were listed; a dummy machine always has a timer
    that removes it. *)

From Stdlib Require Import Sorting.Sorted.
From S2P Require Import Prelude Location VmState VmXml VmLibvirt.

(** ** Objects *)

Lemma prop_assign a b k : prop (assign a b) k = match b !! k with Some v => v | None => prop a k end.
Proof. unfold prop, assign. rewrite lookup_union. destruct (b !! k); [by rewrite union_Some_l|by rewrite (left_id_L None _)]. Qed.

Lemma prop_assign_same a b k : prop a k = prop b k -> prop (assign a b) k = prop b k.
Proof. rewrite prop_assign. unfold prop. by destruct (b !! k). Qed.

(** Values that [===] compares by value. *)
Definition primitive (v : jval) : Prop := match v with JArr _ | JObj _ => False | _ => True end.

Lemma strict_eq_refl v : primitive v -> strict_eq v v = true.
Proof. destruct v; cbn; try done; intros _; [by destruct b|apply Z.eqb_refl|apply String.eqb_refl]. Qed.

Lemma is_str_true v s : is_str v s = true <-> v = JStr s.
Proof. destruct v; cbn; split; try done; [by intros ->%String.eqb_eq|intros [= ->]; apply String.eqb_refl]. Qed.

Lemma is_str_refl s : is_str (JStr s) s = true.
Proof. by apply is_str_true. Qed.

(** ** Finding a machine *)

(** The property that the look-up compares. *)
Definition look_up_field (vm : jobj) : string := if truthy (prop vm "id") then "id" else "name".

Lemma index_of_field l vm :
  index_of l vm = getFirstIndexOfVm l (look_up_field vm) (prop vm (look_up_field vm)) (prop vm "connectionName").
Proof. unfold index_of, look_up_field. by destruct (truthy (prop vm "id")). Qed.

Lemma index_of_Some l vm i : index_of l vm = Some i -> exists e, l !! i = Some e /\
  prop e "connectionName" = prop vm "connectionName" /\ prop e (look_up_field vm) = prop vm (look_up_field vm).
Proof.
  rewrite index_of_field. unfold getFirstIndexOfVm.
  destruct (list_find _ l) as [[j e]|] eqn:E; [|done]. intros [= <-].
  apply list_find_Some in E as (Hj & [H1 H2]%andb_true_iff & _). exists e. auto using strict_eq_eq.
Qed.

Lemma index_of_None l vm e : primitive (prop vm "connectionName") -> primitive (prop vm (look_up_field vm)) ->
  index_of l vm = None -> e ∈ l -> prop e "connectionName" = prop vm "connectionName" ->
  prop e (look_up_field vm) <> prop vm (look_up_field vm).
Proof.
  intros Hc Hp. rewrite index_of_field. unfold getFirstIndexOfVm.
  destruct (list_find _ l) as [[j e']|] eqn:E; [done|]. intros _ He H1 H2.
  apply list_find_None in E. rewrite Forall_forall in E. apply (E e He). by rewrite H1, H2, !strict_eq_refl.
Qed.

Lemma replaceVm_insert l x i : (i < length l)%nat -> replaceVm l x i = <[i:=x]> l.
Proof. intros. unfold replaceVm. by rewrite insert_take_drop. Qed.

(** What an update does to the machines: nothing, a new one, or one is changed. *)
Variant changed (vm : jobj) (l : list jobj) : list jobj -> Prop :=
  | changed_same : changed vm l l
  | changed_new : index_of l vm = None -> changed vm l (l ++ [vm])
  | changed_at i e e' : index_of l vm = Some i -> l !! i = Some e ->
      prop e "connectionName" = prop vm "connectionName" -> prop e (look_up_field vm) = prop vm (look_up_field vm) ->
      (forall k, k ∈ ["connectionName"; "name"; "id"] -> prop e' k = prop (assign e vm) k) ->
      changed vm l (<[i:=e']> l).

Lemma prop_sample vm e k : k ∈ ["connectionName"; "name"; "id"] -> timeSampleUsageData vm e !! k = vm !! k.
Proof.
  intros Hk. unfold timeSampleUsageData. repeat case_match; try done; rewrite lookup_insert_ne; try done; intros <-;
    by repeat (apply elem_of_cons in Hk as [?|Hk]; [done|]); apply not_elem_of_nil in Hk.
Qed.

Lemma prop_clear vm k : k ∈ ["connectionName"; "name"; "id"] -> prop (clearUsageData vm) k = prop vm k.
Proof.
  intros Hk. unfold clearUsageData. rewrite !prop_insert.
  repeat (apply elem_of_cons in Hk as [->|Hk]; [done|]). by apply not_elem_of_nil in Hk.
Qed.

Lemma find_index l vm : findVmToUpdate l vm = None \/
  exists i e, findVmToUpdate l vm = Some (i, e) /\ index_of l vm = Some i /\ l !! i = Some e.
Proof.
  unfold findVmToUpdate. destruct (index_of l vm) as [i|] eqn:E; [|by left]. right.
  destruct (index_of_Some _ _ _ E) as (e & He & _). exists i, e. cbn. by rewrite He.
Qed.

Lemma changed_assign vm l i e e' : index_of l vm = Some i -> l !! i = Some e ->
  (forall k, k ∈ ["connectionName"; "name"; "id"] -> prop e' k = prop (assign e vm) k) -> changed vm l (replaceVm l e' i).
Proof.
  intros Hi He He'. destruct (index_of_Some _ _ _ Hi) as (x & Hx & H1 & H2). assert (x = e) as -> by congruence.
  rewrite replaceVm_insert by (by eapply lookup_lt_Some). by eapply changed_at.
Qed.

(** Adding always leaves the machine there. *)
Lemma update_add_cases l vm :
  (index_of l vm = None /\ vms l (UPDATE_ADD_VM vm) = l ++ [vm]) \/
  exists i e, index_of l vm = Some i /\ l !! i = Some e /\ vms l (UPDATE_ADD_VM vm) = <[i:=assign e vm]> l /\
    prop e "connectionName" = prop vm "connectionName" /\ prop e (look_up_field vm) = prop vm (look_up_field vm).
Proof.
  cbn. destruct (index_of l vm) as [i|] eqn:E; [right|by left].
  destruct (index_of_Some _ _ _ E) as (e & He & H1 & H2). exists i, e. rewrite He.
  rewrite replaceVm_insert by (by eapply lookup_lt_Some). done.
Qed.

Lemma update_add_changed l vm : changed vm l (vms l (UPDATE_ADD_VM vm)).
Proof.
  destruct (update_add_cases l vm) as [[Hi ->]|(i & e & Hi & He & -> & H1 & H2)]; [by apply changed_new|by eapply changed_at].
Qed.

Lemma update_changed l vm : changed vm l (vms l (UPDATE_VM vm)).
Proof.
  cbn. destruct (find_index l vm) as [->|(i & e & -> & Hi & He)]; [constructor|].
  eapply changed_assign; [done..|]. intros k Hk. destruct (negative _); [by rewrite prop_clear|].
  rewrite !prop_assign. by rewrite prop_sample.
Qed.

(** ** One entry per id *)

Definition vm_key (vm : jobj) : option (jval * jval) :=
  if truthy (prop vm "id") then Some (prop vm "connectionName", prop vm "id") else None.

(** What identifies a machine is not an object. *)
Definition identified (vm : jobj) : Prop := forall k, k ∈ ["connectionName"; "name"; "id"] -> primitive (prop vm k).

Definition wf_vms (l : list jobj) : Prop := Forall identified l /\ NoDup (omap vm_key l).

Lemma field_elem vm : look_up_field vm ∈ ["connectionName"; "name"; "id"].
Proof. unfold look_up_field. destruct (truthy _); [right; right; left|right; left]. Qed.

#[local] Hint Constructors list_elem_of : core.

Lemma sublist_omap {A B} (f : A -> option B) l1 l2 : l1 `sublist_of` l2 -> omap f l1 `sublist_of` omap f l2.
Proof. induction 1 as [|x l1 l2 _ IH|x l1 l2 _ IH]; cbn; [done|..]; destruct (f x); by try constructor. Qed.

Lemma omap_insert_nodup {A B} (f : A -> option B) l i (e e' : A) : NoDup (omap f l) -> l !! i = Some e ->
  (f e' = None \/ f e' = f e) -> NoDup (omap f (<[i:=e']> l)).
Proof.
  intros Hn Hi Hf. rewrite insert_take_drop by (by eapply lookup_lt_Some).
  rewrite <- (take_drop_middle l i e Hi) in Hn. rewrite omap_app in *. cbn in *.
  destruct Hf as [->| ->]; [|done]. eapply sublist_NoDup; [exact Hn|]. apply sublist_app; [done|].
  destruct (f e); [by constructor|done].
Qed.

Lemma omap_nodup_lookup {A B} (f : A -> option B) l k : NoDup (omap f l) -> forall i j a b,
  l !! i = Some a -> l !! j = Some b -> f a = Some k -> f b = Some k -> i = j.
Proof.
  induction l as [|x l IH]; intros Hn i j a b Hi Hj Ha Hb; [done|].
  assert (NoDup (omap f l)) as Hn' by (cbn in Hn; destruct (f x); [by apply NoDup_cons in Hn as [_ Hn]|done]).
  assert (forall m y, l !! m = Some y -> f x = Some k -> f y = Some k -> False) as Hx.
  { intros m y Hm Hx Hy. cbn in Hn. rewrite Hx in Hn. apply NoDup_cons in Hn as [Hn _]. apply Hn, list_elem_of_omap.
    exists y. split; [by eapply list_elem_of_lookup_2|done]. }
  destruct i as [|i], j as [|j]; cbn in Hi, Hj; [done|..].
  - injection Hi as ->. by destruct (Hx j b).
  - injection Hj as ->. by destruct (Hx i a).
  - f_equal. by eapply IH.
Qed.

Lemma changed_keys vm l i e e' : index_of l vm = Some i -> prop e "connectionName" = prop vm "connectionName" ->
  prop e (look_up_field vm) = prop vm (look_up_field vm) ->
  (forall k, k ∈ ["connectionName"; "name"; "id"] -> prop e' k = prop (assign e vm) k) ->
  prop e' "connectionName" = prop e "connectionName" /\ (vm_key e' = None \/ vm_key e' = vm_key e).
Proof.
  intros _ Hc Hf He'. assert (prop e' "connectionName" = prop e "connectionName") as Hc'.
  { rewrite He' by auto. by rewrite prop_assign_same. }
  split; [done|]. unfold vm_key. rewrite Hc'. rewrite !He' by auto. unfold look_up_field in Hf.
  destruct (truthy (prop vm "id")) eqn:E; [rewrite (prop_assign_same _ _ "id"), Hf, E by done; by right|].
  rewrite prop_assign. unfold prop in E. destruct (vm !! "id"); cbn in E; [rewrite E; by left|by right].
Qed.

Lemma assign_identified a b : identified a -> identified b -> identified (assign a b).
Proof.
  intros Ha Hb k Hk. rewrite prop_assign. specialize (Hb k Hk). unfold prop in Hb. destruct (b !! k); [done|by apply Ha].
Qed.

Lemma changed_wf vm l l' : identified vm -> changed vm l l' -> wf_vms l -> wf_vms l'.
Proof.
  intros Hv Hch [Hf Hn]. destruct Hch as [|Hi|i e e' Hi He Hc Hl He']; [done|..].
  - split; [apply Forall_app; by auto|]. rewrite omap_app. cbn. unfold vm_key at 2. destruct (truthy (prop vm "id")) eqn:E; [|by rewrite app_nil_r].
    apply NoDup_app. split; [done|]. split; [|apply NoDup_singleton]. intros k (e & He & Hk)%list_elem_of_omap ->%list_elem_of_singleton.
    unfold vm_key in Hk. destruct (truthy (prop e "id")); [|done]. injection Hk as Hc Hid.
    assert (look_up_field vm = "id") as Hl by (unfold look_up_field; by rewrite E).
    apply (index_of_None l vm e); [by apply Hv; auto|apply Hv, field_elem|done..|]. by rewrite Hl.
  - split.
    + apply Forall_insert; [done|]. intros k Hk. rewrite He' by done. rewrite Forall_lookup in Hf. by apply assign_identified; [eapply Hf|..].
    + eapply omap_insert_nodup; [done..|]. by destruct (changed_keys vm l i e e' Hi Hc Hl He').
Qed.

Lemma filter_wf P `{!forall x, Decision (P x)} l : wf_vms l -> wf_vms (filter P l).
Proof.
  intros [Hf Hn]. split.
  { rewrite Forall_forall in *. intros x [_ Hx]%list_elem_of_filter. by apply Hf. }
  eapply sublist_NoDup; [exact Hn|]. apply sublist_omap, sublist_filter.
Qed.

(** The objects in actions identify a machine too. *)
Definition vm_action_ok (a : action) : Prop :=
  match a with UPDATE_ADD_VM vm | UPDATE_VM vm => identified vm | _ => True end.

Lemma failed_changed l name c message detail : exists l', vms l (VM_ACTION_FAILED name c message detail) = l' /\
  changed {[ "name" := JStr name; "connectionName" := JStr c ]} l l'.
Proof.
  eexists. split; [reflexivity|]. cbn. set (p := {[ "name" := _; _ := _ ]} : jobj).
  destruct (find_index l p) as [->|(i & e & -> & Hi & He)]; [constructor|].
  destruct (index_of_Some _ _ _ Hi) as (x & Hx & H1 & H2). assert (x = e) as -> by congruence.
  eapply changed_assign; [done..|]. intros k Hk. rewrite (prop_assign e p).
  assert (prop (assign e {["lastMessage" := message; "lastMessageDetail" := detail]}) k = prop e k) as ->.
  { rewrite prop_assign. repeat (apply elem_of_cons in Hk as [->|Hk]; [done|]). by apply not_elem_of_nil in Hk. }
  change (look_up_field p) with "name" in H2.
  repeat (apply elem_of_cons in Hk as [->|Hk]; [done|]). by apply not_elem_of_nil in Hk.
Qed.

Lemma vms_wf l a : vm_action_ok a -> wf_vms l -> wf_vms (vms l a).
Proof.
  intros Ha Hl. destruct a; try done; cbn in Ha.
  - eapply changed_wf; [exact Ha|apply update_add_changed|done].
  - eapply changed_wf; [exact Ha|apply update_changed|done].
  - destruct (failed_changed l name connectionName message detail) as (l' & -> & Hch).
    eapply changed_wf; [|exact Hch|done]. intros k Hk.
    repeat (apply elem_of_cons in Hk as [->|Hk]; [done|]). by apply not_elem_of_nil in Hk.
  - by apply filter_wf.
  - by apply filter_wf.
Qed.

(** ** Notifications *)

Record wf_ui (s : ui_state) : Prop := {
  wu_refs : Forall (fun ref => (ref < length (objects s))%nat) (notifications s);
  wu_objects : Forall (fun ref => (exists z, prop (object_of s ref) "id" = JNum z) /\
                                  truthy (prop (object_of s ref) "type") = true) (notifications s);
  wu_ids : StronglySorted Z.lt (notification_id s <$> notifications s);
  wu_names : map_Forall (fun name vm => prop vm "name" = JStr name) (ui_vms s) }.

(** A notification that is added is a new object, and a dummy has its name. *)
Definition ui_action_ok (s : ui_state) (a : action) : Prop :=
  match a with
  | ADD_NOTIFICATION (inr ref) => (ref < length (objects s))%nat /\ ref ∉ notifications s
  | ADD_UI_VM name vm | UPDATE_UI_VM name vm => prop vm "name" = JStr name
  | _ => True
  end.

Lemma sorted_sublist {A} (R : A -> A -> Prop) l1 l2 : l1 `sublist_of` l2 -> StronglySorted R l2 -> StronglySorted R l1.
Proof.
  induction 1 as [|x l1 l2 Hs IH|x l1 l2 Hs IH]; intros H; [done|..]; inversion_clear H as [|? ? H1 H2]; [|auto].
  constructor; [auto|]. rewrite Forall_forall in *. intros y Hy. apply H2. by eapply elem_of_sublist.
Qed.

Lemma sorted_snoc {A} (R : A -> A -> Prop) l x : StronglySorted R l -> (forall y, y ∈ l -> R y x) -> StronglySorted R (l ++ [x]).
Proof.
  induction 1 as [|y l Hs IH Hy]; intros H; [by repeat constructor|]. cbn. constructor.
  - apply IH. intros z Hz. apply H. by right.
  - apply Forall_app. split; [done|]. constructor; [|done]. apply H. by left.
Qed.

(** The last id is the greatest. *)
Lemma sorted_last {A} (f : A -> Z) l x : StronglySorted Z.lt (f <$> l) -> last l = Some x -> forall y, y ∈ l -> f y <= f x.
Proof.
  intros Hs Hl y Hy. apply last_Some in Hl as [l' ->]. rewrite fmap_app in Hs.
  apply elem_of_app in Hy as [Hy| ->%list_elem_of_singleton]; [|lia].
  apply list_elem_of_split in Hy as (a & b & ->). rewrite fmap_app in Hs. cbn in Hs. rewrite <- app_assoc in Hs.
  assert (StronglySorted Z.lt (f y :: (f <$> b) ++ [f x])) as Hs'.
  { eapply sorted_sublist; [|exact Hs]. by apply sublist_inserts_l. }
  inversion_clear Hs' as [|? ? _ H]. rewrite Forall_forall in H. apply Z.lt_le_incl, H, elem_of_app. right. by left.
Qed.

(** The state after the object of the notification is there. *)
Lemma notification_object_ok n s ref s' : notification_object n s = (ref, s') -> ui_action_ok s (ADD_NOTIFICATION n) -> wf_ui s ->
  wf_ui s' /\ (ref < length (objects s'))%nat /\ ref ∉ notifications s'.
Proof.
  destruct s as [ns u os]. destruct n as [m|r]; cbn.
  - intros [= <- <-] _ [H1 H2 H3 H4]. cbv [set_field id]; cbn in *.
    assert (forall r, r ∈ ns -> object_of (mk_ui_state ns u (os ++ [m])) r = object_of (mk_ui_state ns u os) r) as E.
    { intros r Hr. rewrite Forall_forall in H1. unfold object_of. cbn. by rewrite lookup_app_l by by apply H1. }
    split; [split; cbn|split].
    + eapply Forall_impl; [exact H1|]. intros r Hr. rewrite length_app. cbn in *. lia.
    + rewrite Forall_forall in *. intros r Hr. rewrite E by done. by apply H2.
    + unfold notification_id in *. erewrite list_fmap_ext; [exact H3|]. intros i r Hr%list_elem_of_lookup_2. cbn. by rewrite E.
    + done.
    + rewrite length_app. cbn. lia.
    + intros Hin. rewrite Forall_forall in H1. specialize (H1 _ Hin). lia.
  - intros [= <- <-] [Hr Hn] Hw. done.
Qed.

Lemma add_notification_wf n s : ui_action_ok s (ADD_NOTIFICATION n) -> wf_ui s -> wf_ui (ui s (ADD_NOTIFICATION n)).
Proof.
  intros Ha Hw. cbn [ui]. destruct (notification_object n s) as [ref s'] eqn:E.
  destruct (notification_object_ok _ _ _ _ E Ha Hw) as ([H1 H2 H3 H4] & Hr & Hnr). clear E Ha Hw s. destruct s' as [ns u os].
  cbv [set_field id]; cbn [notifications ui_vms objects] in *. set (id := match last ns with Some _ => _ | None => _ end).
  set (o := if truthy _ then _ else _).
  assert (prop o "id" = JNum id /\ truthy (prop o "type") = true) as [Ho1 Ho2].
  { unfold o. match goal with |- context [truthy (prop ?x "type")] => destruct (truthy (prop x "type")) eqn:Et end.
    - split; [|done]. by rewrite prop_insert.
    - split; rewrite !prop_insert; done. }
  set (s' := mk_ui_state (ns ++ [ref]) u (<[ref:=o]> os)).
  assert (object_of s' ref = o) as Eo by (unfold object_of, s'; cbn; by rewrite list_lookup_insert_eq).
  assert (forall r, r ∈ ns -> object_of s' r = object_of (mk_ui_state ns u os) r) as E.
  { intros r Hin. unfold object_of, s'. cbn. rewrite list_lookup_insert_ne; [done|]. by intros ->. }
  assert (notification_id s' ref = id) as Eid by (unfold notification_id; by rewrite Eo, Ho1).
  split; cbn.
  - rewrite length_insert. apply Forall_app. auto.
  - apply Forall_app. split; [|constructor; [|done]].
    + rewrite Forall_forall in *. intros r Hin. rewrite E by done. by apply H2.
    + rewrite Eo, Ho1. eauto.
  - rewrite fmap_app. cbn. rewrite Eid. rewrite (list_fmap_ext _ (notification_id (mk_ui_state ns u os))).
    + apply sorted_snoc; [done|]. intros z (r & -> & Hin)%list_elem_of_fmap. unfold id.
      destruct (last ns) as [l|] eqn:El; [|apply last_None in El; subst; by apply not_elem_of_nil in Hin].
      pose proof (sorted_last _ _ _ H3 El r Hin). cbn in *. lia.
    + intros i r Hin%list_elem_of_lookup_2. unfold notification_id. by rewrite E.
  - done.
Qed.

Lemma addVm_wf name vm s : prop vm "name" = JStr name -> wf_ui s -> wf_ui (addVm name vm s).
Proof.
  intros Hn [H1 H2 H3 H4]. destruct s as [ns u os]. split; [done..|]. cbn. apply map_Forall_insert_2; [|done].
  rewrite prop_assign. unfold prop in *. by destruct (vm !! "name").
Qed.

Lemma ui_wf s a : ui_action_ok s a -> wf_ui s -> wf_ui (ui s a).
Proof.
  intros Ha Hw. destruct a; try done.
  - by apply addVm_wf.
  - cbn. destruct (ui_vms s !! name); [by apply addVm_wf|done].
  - destruct Hw as [H1 H2 H3 H4], s as [ns u os]. split; [done..|]. cbn. by apply map_Forall_delete.
  - by apply add_notification_wf.
  - destruct Hw as [H1 H2 H3 H4], s as [ns u os].
    split; [| |eapply sorted_sublist; [|exact H3]; apply fmap_sublist, sublist_filter|done];
      cbn in *; rewrite Forall_forall in *; intros r [_ Hr]%list_elem_of_filter; [by apply H1|by apply H2].
  - destruct Hw as [H1 H2 H3 H4], s as [ns u os]. by repeat constructor.
Qed.

(** The same object as two notifications: both get the second id. *)
Lemma same_notification_twice : let s := ui (mk_ui_state [] ∅ [∅]) (ADD_NOTIFICATION (inr 0%nat)) in
  let s := ui s (ADD_NOTIFICATION (inr 0%nat)) in notification_id s <$> notifications s = [2; 2].
Proof. vm_compute. reflexivity. Qed.
