(* ===== verification/VmWorld.v ===== *)
(** * What the provider of virtual machines keeps

    All that the page can receive as one type of inputs, and what holds after any
    sequence of them: the store is well formed, every dummy machine has a timer
    that removes it, and a listing leaves the machines that it lists. *)

From Stdlib Require Import Sorting.Sorted.
From S2P Require Import Prelude Location VmState VmXml VmLibvirt VmSpec.

Inductive input :=
  | Dumpxml (connectionName name : string) (doc : option node)
  | Dominfo (connectionName name text : string)
  | Listed (connectionName output : string)
  | Dommemstat (connectionName name : string) (out : option string)
  | Domstats (now : Z) (connectionName name : string) (out : option string)
  | StartPolling (name connectionName : string)
  | StopPolling (name connectionName : string)
  | Poll (name connectionName : string)
  | EventLine (connectionName line : string)
  | MonitorFailed (connectionName serviceName : string)
  | Create (name : string) (startVm : bool)
  | CreateDone (name : string) (startVm : bool)
  | CreateFailed (name : string)
  | Install (name : string)
  | InstallDone (name : string)
  | InstallFailed (name : string)
  | ActionFailed (name connectionName message : string) (detail : jval)
  | Timer (id : nat)
  | Note (notification : jobj)
  | ClearNote (id : Z)
  | ClearNotes
  | ServiceFound (serviceName : string)
  | ServiceUnknown
  | LibvirtStatus (exists_ enabled : bool) (state : jval)
  | LibvirtStarted (serviceName : string)
  | Systems (osList : string)
  | AllConnections (serviceName user : string)
  | Command (e : effect)
  | NetworkChanged (name connectionName : string).

Section World.
Context (gettext : string -> string).
Context (reducer_of : nat -> option (jval -> action -> jval)).

#[local] Notation dispatch := (dispatch reducer_of).

Definition step (w : world) (i : input) : world :=
  match i with
  | Dumpxml c n doc => dumpxml_reply gettext reducer_of c n doc w
  | Dominfo c n text => dominfo_reply reducer_of c n text w
  | Listed c output => doGetAllVms reducer_of c output w
  | Dommemstat c n out => dommemstat_reply reducer_of c n out w
  | Domstats now c n out => domstats_reply reducer_of now c n out w
  | StartPolling n c => USAGE_START_POLLING reducer_of n c w
  | StopPolling n c => USAGE_STOP_POLLING reducer_of n c w
  | Poll n c => doUsagePolling n c w
  | EventLine c line => default w (handleEvent reducer_of c line w)
  | MonitorFailed c s => monitor_failed reducer_of c s w
  | Create n start => CREATE_VM reducer_of n start w
  | CreateDone n start => create_done reducer_of n start w
  | CreateFailed n => create_failed reducer_of n w
  | Install n => INSTALL_VM reducer_of n w
  | InstallDone n => install_done reducer_of n w
  | InstallFailed n => install_failed reducer_of n w
  | ActionFailed n c m d => buildFailHandler gettext reducer_of n c m d w
  | Timer id => timer reducer_of id w
  | Note m => dispatch (ADD_NOTIFICATION (inl m)) w
  | ClearNote id => dispatch (CLEAR_NOTIFICATION id) w
  | ClearNotes => dispatch CLEAR_NOTIFICATIONS w
  | ServiceFound s => service_found reducer_of s w
  | ServiceUnknown => service_unknown reducer_of w
  | LibvirtStatus x e s => libvirt_status reducer_of x e s w
  | LibvirtStarted s => libvirt_started s w
  | Systems l => parseOsInfoList reducer_of l w
  | AllConnections s u => get_all_connections s u w
  | Command e => effect_ e w
  | NetworkChanged n c => network_changed n c w
  end.

(** ** What every step keeps

    A property of worlds that the effects do not touch, the actions of the
    provider keep and the timers of dummies keep is kept by every step. *)

Class Kept (P : world -> Prop) : Prop := {
  kept_effect : forall e w, P w -> P (effect_ e w);
  kept_update : forall vm w, identified vm -> P w -> P (dispatch (UPDATE_VM vm) w);
  kept_add : forall vm w, identified vm -> P w -> P (dispatch (UPDATE_ADD_VM vm) w);
  kept_failed : forall n c m d w, P w -> P (dispatch (VM_ACTION_FAILED n c m d) w);
  kept_undefine : forall c n t w, P w -> P (dispatch (UNDEFINE_VM c n t) w);
  kept_unlisted : forall c l w, P w -> P (dispatch (DELETE_UNLISTED_VMS c l) w);
  kept_create : forall n o w, P w -> P (setVmCreateInProgress reducer_of n o w);
  kept_install : forall n o w, P w -> P (setVmInstallInProgress reducer_of n o w);
  kept_created : forall n o w, P w -> P (finishVmCreateInProgress reducer_of n o w);
  kept_installed : forall n o w, P w -> P (finishVmInstallInProgress reducer_of n o w);
  kept_clear : forall n w, P w -> P (clearVmUiState reducer_of n w);
  kept_remove : forall n w uiState, P w -> ui_vms (s_ui (w_store w)) !! n = Some uiState ->
    truthy (prop uiState "installInProgress") = true -> P (removeVmCreateInProgress reducer_of n w);
  kept_timer : forall id w, P w -> P (timer reducer_of id w);
  kept_note : forall m w, P w -> P (dispatch (ADD_NOTIFICATION (inl m)) w);
  kept_clear_note : forall id w, P w -> P (dispatch (CLEAR_NOTIFICATION id) w);
  kept_clear_notes : forall w, P w -> P (dispatch CLEAR_NOTIFICATIONS w);
  kept_service : forall s w, P w -> P (dispatch (UPDATE_LIBVIRT_STATE s) w);
  kept_systems : forall l w, P w -> P (dispatch (UPDATE_OS_INFO_LIST l) w) }.

Section Keep.
Context (P : world -> Prop) {HP : Kept P}.

Lemma keep_get_vm c n w : P w -> P (GET_VM c n w).
Proof. intros H. unfold GET_VM. destruct (String.eqb n ""); [done|by apply kept_effect]. Qed.

(** Goals about the identity of the objects that the provider builds. *)
Ltac identified :=
  let k := fresh "k" in let Hk := fresh "Hk" in
  intros k Hk; repeat (apply elem_of_cons in Hk as [->|Hk]; [done|]); by apply not_elem_of_nil in Hk.

Lemma first_text_primitive o v : o ≫= first_text = Some v -> primitive v.
Proof.
  destruct o as [e|]; [|done]. cbn. unfold first_text. destruct (head (childNodes e)) as [[ | ]|]; [| |done]; by intros [= <-].
Qed.

Lemma dumped_known c doc vm : dumped_vm gettext c doc = Some vm ->
  prop vm "connectionName" = JStr c /\ identified vm.
Proof.
  unfold dumped_vm. intros H.
  repeat match type of H with
    | (x ← ?o; _) = Some _ => destruct o eqn:?; cbn [mbind option_bind] in H; [|discriminate H]
    end.
  injection H as <-. split; [done|]. intros k Hk.
  repeat match goal with E : mbind first_text _ = Some _ |- _ => apply first_text_primitive in E end.
  repeat (apply elem_of_cons in Hk as [->|Hk]; [first [done|assumption]|]). by apply not_elem_of_nil in Hk.
Qed.

Lemma keep_dumpxml c n doc w : P w -> P (dumpxml_reply gettext reducer_of c n doc w).
Proof.
  intros H. unfold dumpxml_reply, parseDumpxml. destruct doc as [doc|]; [|by apply kept_effect].
  destruct (dumped_vm gettext c doc) as [vm|] eqn:E; [|done]. cbn [mbind option_bind].
  destruct (dumped_known _ _ _ E) as [_ Hi]. unfold resolveUiState. set (name := js_String _).
  assert (forall ui, identified (<["ui" := ui]> vm)) as Hi'.
  { intros ui k Hk. rewrite prop_insert. specialize (Hi k Hk).
    repeat (apply elem_of_cons in Hk as [->|Hk]; [done|]). by apply not_elem_of_nil in Hk. }
  destruct (ui_vms (s_ui (w_store w)) !! name) as [uiState|] eqn:Eu; [|by apply kept_effect, kept_add].
  destruct (truthy (prop uiState "installInProgress")) eqn:Et.
  - apply kept_effect, kept_add; [done|]. by eapply kept_remove.
  - by apply kept_effect, kept_add, kept_clear.
Qed.

Lemma keep_dominfo c n text w : P w -> P (dominfo_reply reducer_of c n text w).
Proof.
  intros H. unfold dominfo_reply, parseDominfo. destruct (parseLines text); [|done]. cbn.
  apply kept_update; [|done]. destruct (isRunning _); identified.
Qed.

Lemma keep_listed c output w : P w -> P (doGetAllVms reducer_of c output w).
Proof.
  intros H. unfold doGetAllVms. assert (P (dispatch (DELETE_UNLISTED_VMS c (vm_names output)) w)) as H' by by apply kept_unlisted.
  revert H'. generalize (dispatch (DELETE_UNLISTED_VMS c (vm_names output)) w). induction (vm_names output) as [|n l IH]; intros w' H'; [done|].
  cbn. by apply IH, keep_get_vm.
Qed.

Lemma keep_domstats now c n out w : P w -> P (domstats_reply reducer_of now c n out w).
Proof.
  intros H. unfold domstats_reply, parseDomstats. destruct out as [[|x out]|]; try done.
  destruct (parseLines _) as [lines|]; [|done]. cbn. apply kept_update; [identified|].
  destruct (getValueFromLine lines "cpu.time="); [|done]. destruct (String.eqb _ ""); [done|]. apply kept_update; [identified|done].
Qed.

Lemma keep_dommemstat c n out w : P w -> P (dommemstat_reply reducer_of c n out w).
Proof.
  intros H. unfold dommemstat_reply, parseDommemstat. destruct out as [[|x out]|]; try done.
  destruct (parseLines _) as [lines|]; [|done]. cbn. apply kept_effect.
  destruct (getValueFromLine lines "rss"); [|done]. destruct (String.eqb _ ""); [done|]. apply kept_update; [identified|done].
Qed.

Lemma keep_poll n c w : P w -> P (doUsagePolling n c w).
Proof. intros H. unfold doUsagePolling. destruct (truthy _); [by do 2 apply kept_effect|done]. Qed.

Lemma keep_event c line w : P w -> P (default w (handleEvent reducer_of c line w)).
Proof.
  intros H. unfold handleEvent. destruct (find_event line) as [[[event name] info]|]; [|done].
  destruct (String.eqb event "lifecycle").
  - destruct info as [info|]; [|done]. cbn.
    repeat match goal with |- context [if ?b then _ else _] => destruct b end; [by apply kept_undefine|by apply keep_get_vm|..|done].
    + by apply kept_undefine, kept_update; [identified|].
    + by apply kept_update; [identified|].
    + by apply kept_update; [identified|].
  - destruct (existsb _ _); [by apply keep_get_vm|done].
Qed.

Lemma keep_step w i : P w -> P (step w i).
Proof.
  intros H. destruct i; cbn [step].
  - by apply keep_dumpxml.
  - by apply keep_dominfo.
  - by apply keep_listed.
  - by apply keep_dommemstat.
  - by apply keep_domstats.
  - apply keep_poll, kept_update; [identified|done].
  - apply kept_update; [identified|done].
  - by apply keep_poll.
  - by apply keep_event.
  - by apply kept_effect, kept_unlisted, kept_effect.
  - unfold CREATE_VM. destruct startVm; [by apply kept_install, kept_create|by apply kept_create].
  - unfold create_done. destruct startVm; [by apply kept_installed, kept_created|by apply kept_created].
  - by apply kept_clear.
  - by apply kept_install.
  - by apply kept_installed.
  - by apply kept_installed.
  - by apply kept_failed.
  - by apply kept_timer.
  - by apply kept_note.
  - by apply kept_clear_note.
  - by apply kept_clear_notes.
  - unfold service_found. destruct (first_match serviceName); [by apply kept_effect, kept_service|by apply kept_service].
  - by apply kept_service.
  - by apply kept_service.
  - by apply kept_effect.
  - by apply kept_systems.
  - unfold get_all_connections. generalize (filter (fun c => canLoggedUserConnectSession c user = true) ["system"; "session"]).
    intros l. revert w H. induction l as [|c l IH]; intros w H; [done|]. cbn [foldl]. apply IH. by do 3 apply kept_effect.
  - by apply kept_effect.
  - by apply keep_get_vm.
Qed.

Lemma keep_run is_ : forall w, P w -> P (foldl step w is_).
Proof. induction is_ as [|i is_ IH]; intros w H; [done|]. cbn. by apply IH, keep_step. Qed.
End Keep.

(** ** The store is well formed *)

Definition store_wf (w : world) : Prop := wf_vms (s_vms (w_store w)) /\ wf_ui (s_ui (w_store w)).

Lemma dispatch_wf a w : vm_action_ok a -> ui_action_ok (s_ui (w_store w)) a -> store_wf w -> store_wf (dispatch a w).
Proof. intros Ha Hu [H1 H2]. split; [by apply vms_wf|by apply ui_wf]. Qed.

Lemma clearTimeout_store n which w : w_store (snd (clearTimeout n which w)) = w_store w.
Proof. unfold clearTimeout. destruct (timeouts w !! n) as [vm|]; [|done]. by destruct (get_timeout which vm). Qed.

Lemma clear_store n w : exists w', w_store w' = w_store w /\ clearVmUiState reducer_of n w = dispatch (DELETE_UI_VM n) w'.
Proof.
  unfold clearVmUiState. eexists. split; [|reflexivity].
  set (w1 := snd (clearTimeout n CREATE_TIMEOUT w)). set (w2 := snd (clearTimeout n INSTALL_TIMEOUT w1)).
  change (w_store w2 = w_store w). unfold w2, w1. by rewrite !clearTimeout_store.
Qed.

Lemma dummy_name n p o : prop (dummy n p o) "name" = JStr n.
Proof. unfold dummy. by rewrite prop_insert. Qed.

Lemma clear_wf n w : store_wf w -> store_wf (clearVmUiState reducer_of n w).
Proof. intros H. destruct (clear_store n w) as (w' & E & ->). apply dispatch_wf; [done..|]. unfold store_wf. by rewrite E. Qed.

Lemma finished_name n p o : prop (finished n p o) "name" = JStr n.
Proof. unfold finished. destruct o; rewrite !prop_insert; done. Qed.

#[export] Instance store_kept : Kept store_wf.
Proof.
  split; try (intros; by apply dispatch_wf); try done.
  - intros n o w H. apply dispatch_wf; [done|apply finished_name|done].
  - intros n o w H. apply dispatch_wf; [done|apply finished_name|done].
  - intros n w. apply clear_wf.
  - intros n w u H _ _. unfold removeVmCreateInProgress. pose proof (clearTimeout_store n CREATE_TIMEOUT w) as E.
    destruct (clearTimeout n CREATE_TIMEOUT w) as [[id|] w']; cbn in E.
    + apply dispatch_wf; [done|apply finished_name|unfold store_wf; by rewrite E].
    + unfold store_wf. by rewrite E.
  - intros id w H. unfold timer. destruct (w_timers w !! id); [|done]. by apply clear_wf.
Qed.

(** C27. Whatever the page receives, in whatever order: there is one machine per
    connection and id, what identifies a machine is not an object, the ids of the
    notifications increase and belong to existing objects with a type, and each
    dummy machine is filed under its name. *)
Theorem store_well_formed (inputs : list input) :
  let s := w_store (foldl step initial_world inputs) in
  Forall identified (s_vms s) /\
  (forall i j a b c id, s_vms s !! i = Some a -> s_vms s !! j = Some b ->
     prop a "connectionName" = c -> prop b "connectionName" = c ->
     prop a "id" = id -> prop b "id" = id -> truthy id = true -> i = j) /\
  Forall (fun ref => (ref < length (objects (s_ui s)))%nat /\ exists id, prop (object_of (s_ui s) ref) "id" = JNum id) (notifications (s_ui s)) /\
  StronglySorted Z.lt (notification_id (s_ui s) <$> notifications (s_ui s)) /\
  map_Forall (fun name vm => prop vm "name" = JStr name) (ui_vms (s_ui s)).
Proof.
  cbn zeta. assert (store_wf (foldl step initial_world inputs)) as [[H1 H2] [H3 H4 H5 H6]].
  { apply (keep_run store_wf). split; [by repeat constructor|]. split; [constructor|constructor|constructor|apply map_Forall_empty]. }
  split; [done|]. split; [|split; [|by split]].
  - intros i j a b c id Hi Hj Ha Hb Hia Hib Ht. apply (omap_nodup_lookup vm_key _ (c, id) H2 _ _ _ _ Hi Hj); unfold vm_key.
    + by rewrite Hia, Ha, Ht.
    + by rewrite Hib, Hb, Ht.
  - rewrite Forall_forall in *. intros r Hr. split; [by apply H3|by apply H4].
Qed.
End World.
