(* ===== verification/VmDummies.v ===== *)
(** * Dummy machines go away

    A machine that is being created is shown before the provider knows it.  Each
    such dummy has a timer that is pending, which removes it; the description of
    the machine removes it before, unless it is still being installed. *)

From S2P Require Import Prelude Location VmState VmXml VmLibvirt VmSpec VmWorld.

Section Dummies.
Context (gettext : string -> string).
Context (reducer_of : nat -> option (jval -> action -> jval)).

#[local] Notation dispatch := (dispatch reducer_of).

Abbreviation dummies w := (ui_vms (s_ui (w_store w))).

(** The timers in the table, those of the names in [ex] possibly gone. *)
Record table_ok (ex : string -> Prop) (w : world) : Prop := {
  ta_owned : forall n t which id m, timeouts w !! n = Some t -> get_timeout which t = Some id -> w_timers w !! id = Some m -> m = n;
  ta_pending : forall n t which id, ~ ex n -> timeouts w !! n = Some t -> get_timeout which t = Some id -> w_timers w !! id = Some n;
  ta_distinct : forall n t a b, timeouts w !! n = Some t -> t_create t = Some a -> t_install t = Some b -> a <> b;
  ta_fresh : forall id n, w_timers w !! id = Some n -> (id < w_next w)%nat;
  ta_old : forall n t which id, timeouts w !! n = Some t -> get_timeout which t = Some id -> (id < w_next w)%nat }.

Record dummies_ok (ex : string -> Prop) (w : world) : Prop := {
  dm_timer : forall n vm, ~ ex n -> dummies w !! n = Some vm -> exists id, w_timers w !! id = Some n;
  dm_install : forall n vm, ~ ex n -> dummies w !! n = Some vm -> truthy (prop vm "installInProgress") = true ->
    exists t id, timeouts w !! n = Some t /\ t_install t = Some id }.

Definition timers_ok (w : world) : Prop := table_ok (fun _ => False) w /\ dummies_ok (fun _ => False) w.

Lemma set_get which which' x t : get_timeout which' (set_timeout which x t) =
  match which, which' with
  | CREATE_TIMEOUT, CREATE_TIMEOUT | INSTALL_TIMEOUT, INSTALL_TIMEOUT => x
  | _, _ => get_timeout which' t
  end.
Proof. by destruct which, which', t. Qed.

Lemma set_none which which' t id : get_timeout which' (set_timeout which None t) = Some id -> get_timeout which' t = Some id.
Proof. rewrite set_get. by destruct which, which'. Qed.

(** ** Clearing a timer *)

Section Clear.
Context (n : string) (which : timeout_id) (w : world).

#[local] Notation w' := (snd (clearTimeout n which w)).

Lemma clear_cases : w' = w \/ exists t id, timeouts w !! n = Some t /\ get_timeout which t = Some id /\
  w' = w <| w_timers ::= delete id |> <| timeouts ::= <[n := set_timeout which None t]> |>.
Proof.
  unfold clearTimeout. destruct (timeouts w !! n) as [t|] eqn:E; [|by left].
  destruct (get_timeout which t) as [id|] eqn:Eg; [|by left]. right. by exists t, id.
Qed.

Lemma clear_table ex : table_ok ex w -> table_ok ex w'.
Proof.
  intros Ht. destruct clear_cases as [->|(t & d & Hn & Hg & ->)]; [done|]. destruct Ht as [Ho Hp Hd Hf Hold].
  destruct w as [s ts tm nx es]. cbv [set_field id]; cbn in *.
  assert (forall m t' wh i, <[n:=set_timeout which None t]> ts !! m = Some t' -> get_timeout wh t' = Some i ->
    exists t0, ts !! m = Some t0 /\ get_timeout wh t0 = Some i /\ (m = n -> i <> d)) as Hback.
  { intros m t' wh i. destruct (decide (n = m)) as [<-|Hne].
    - rewrite lookup_insert_eq. intros [= <-] Hi. exists t. split; [done|]. split; [by eapply set_none|]. intros _ ->.
      assert (t_create t = Some d /\ t_install t = Some d) as [? ?].
      { rewrite set_get in Hi. destruct which, wh; cbn in *; try done. }
      by eapply Hd.
    - rewrite lookup_insert_ne by done. intros Hm Hi. exists t'. split; [done|]. split; [done|]. by intros ->. }
  split; cbn.
  - intros m t' wh i m' Hm Hi Hl. destruct (Hback _ _ _ _ Hm Hi) as (t0 & Ht0 & Hi0 & _).
    apply lookup_delete_Some in Hl as [_ Hl]. by eapply Ho.
  - intros m t' wh i Hex Hm Hi. destruct (Hback _ _ _ _ Hm Hi) as (t0 & Ht0 & Hi0 & Hne).
    rewrite lookup_delete_ne; [by eapply Hp|]. intros <-. pose proof (Hp _ _ _ _ Hex Ht0 Hi0) as Hpm.
    pose proof (Ho _ _ _ _ _ Hn Hg Hpm). by apply Hne.
  - intros m t' a b Hm Ha Hb. destruct (Hback m t' CREATE_TIMEOUT a Hm Ha) as (t0 & Ht0 & Ha0 & _).
    destruct (Hback m t' INSTALL_TIMEOUT b Hm Hb) as (t1 & Ht1 & Hb1 & _). assert (t1 = t0) as -> by congruence. by eapply Hd.
  - intros i m Hl. apply lookup_delete_Some in Hl as [_ Hl]. by eapply Hf.
  - intros m t' wh i Hm Hi. destruct (Hback _ _ _ _ Hm Hi) as (t0 & Ht0 & Hi0 & _). by eapply Hold.
Qed.

Lemma clear_dummies ex : table_ok ex w -> dummies_ok (eq n) w -> dummies_ok (eq n) w'.
Proof.
  intros Ht. destruct clear_cases as [->|(t & d & Hn & Hg & ->)]; [done|]. destruct Ht as [Ho _ _ _ _].
  destruct w as [s ts tm nx es]. cbv [set_field id]; cbn in *. intros [H1 H2]. split; cbn in *.
  - intros m vm Hne Hm. destruct (H1 m vm Hne Hm) as [i Hi]. exists i. rewrite lookup_delete_ne; [done|]. intros <-.
    apply Hne. symmetry. by eapply Ho.
  - intros m vm Hne Hm Hv. rewrite lookup_insert_ne by done. by eapply H2.
Qed.
End Clear.

(** After both are cleared, the dummy is gone too. *)
Lemma clear_timers n w : table_ok (eq n) w -> dummies_ok (eq n) w ->
  timers_ok (clearVmUiState reducer_of n w) /\ dummies (clearVmUiState reducer_of n w) !! n = None.
Proof.
  intros Ht Hd. unfold clearVmUiState.
  pose proof (clear_table n CREATE_TIMEOUT w _ Ht) as Ht1. pose proof (clear_dummies n CREATE_TIMEOUT w _ Ht Hd) as Hd1.
  set (w1 := snd (clearTimeout n CREATE_TIMEOUT w)) in *.
  pose proof (clear_table n INSTALL_TIMEOUT w1 _ Ht1) as Ht2. pose proof (clear_dummies n INSTALL_TIMEOUT w1 _ Ht1 Hd1) as Hd2.
  set (w2 := snd (clearTimeout n INSTALL_TIMEOUT w1)) in *. destruct Ht2 as [Ho Hp Hdi Hf Hold], Hd2 as [H1 H2].
  destruct w2 as [s ts tm nx es]. cbv [set_field id] in *; cbn in *.
  assert (forall m t, delete n ts !! m = Some t -> n <> m /\ ts !! m = Some t) as Hdel by (intros m t; by rewrite lookup_delete_Some).
  split; [split; split; cbn|].
  - intros m t wh i m' [_ Hm]%Hdel. by eapply Ho.
  - intros m t wh i _ [Hne Hm]%Hdel. by eapply Hp.
  - intros m t a b [_ Hm]%Hdel. by eapply Hdi.
  - done.
  - intros m t wh i [_ Hm]%Hdel. by eapply Hold.
  - intros m vm _ [Hne Hm]%lookup_delete_Some. by eapply H1.
  - intros m vm _ [Hne Hm]%lookup_delete_Some Hv. rewrite lookup_delete_ne by done. by eapply H2.
  - by rewrite lookup_delete_eq.
Qed.

(** ** Actions *)

(** An action after which no more dummies are there or being installed. *)
Lemma dispatch_timers a w :
  (forall n vm', ui_vms (ui (s_ui (w_store w)) a) !! n = Some vm' ->
     exists vm, dummies w !! n = Some vm /\ (truthy (prop vm' "installInProgress") = true -> truthy (prop vm "installInProgress") = true)) ->
  timers_ok w -> timers_ok (dispatch a w).
Proof.
  intros Ha [[Ho Hp Hd Hf Hold] [H1 H2]]. destruct w as [s ts tm nx es]. split; [by split|]. split; cbn in *.
  - intros n vm' Hex (vm & Hvm & _)%Ha. by eapply H1.
  - intros n vm' Hex (vm & Hvm & Hi)%Ha Hv. eapply H2; eauto.
Qed.

Lemma same_dummies a w : ui_vms (ui (s_ui (w_store w)) a) = dummies w -> timers_ok w -> timers_ok (dispatch a w).
Proof. intros E. apply dispatch_timers. intros n vm. rewrite E. eauto. Qed.

Lemma finish_timers n p o w : timers_ok w -> timers_ok (dispatch (UPDATE_UI_VM n (finished n p o)) w).
Proof.
  apply dispatch_timers. intros m vm'. cbn. destruct (dummies w !! n) as [vm|] eqn:E; [|by eauto].
  unfold addVm. destruct (s_ui (w_store w)) as [ns u os]. cbv [set_field id]; cbn in *. rewrite E. cbn.
  destruct (decide (n = m)) as [<-|Hne]; [|rewrite lookup_insert_ne by done; by eauto].
  rewrite lookup_insert_eq. intros [= <-]. exists vm. split; [done|]. rewrite prop_assign. unfold finished.
  destruct (decide (p = "installInProgress")) as [->|Hp]; [intros Hv; by destruct o; vm_compute in Hv|].
  assert ((match o with Some v => <["openConsoleTab":=v]> {["name" := JStr n; p := JBool false]} | None => {["name" := JStr n; p := JBool false]} end : jobj)
    !! "installInProgress" = None) as ->; [|done].
  destruct o; rewrite ?lookup_insert_ne by done; by rewrite lookup_singleton_ne.
Qed.

(** A timer is set up for a dummy that is added. *)
Lemma setup_timers n which p o w : p = match which with CREATE_TIMEOUT => "createInProgress" | INSTALL_TIMEOUT => "installInProgress" end ->
  timers_ok w -> timers_ok (setupCleanupTimeout n which (dispatch (ADD_UI_VM n (dummy n p o)) w)).
Proof.
  intros Hwp [[Ho Hp Hd Hf Hold] [H1 H2]]. destruct w as [[cf vs si [ns u os]] ts tm nx es].
  unfold setupCleanupTimeout, getSettings, VmLibvirt.dispatch, reducer. cbv [set_field id]; cbn in *.
  set (t0 := default (mk_timeouts None None) (ts !! n)).
  assert (forall m t wh i, <[n:=set_timeout which (Some nx) t0]> ts !! m = Some t -> get_timeout wh t = Some i ->
    (m = n /\ i = nx) \/ exists t1, ts !! m = Some t1 /\ get_timeout wh t1 = Some i) as Hback.
  { intros m t wh i. destruct (decide (n = m)) as [<-|Hne]; [|rewrite lookup_insert_ne by done; by eauto].
    rewrite lookup_insert_eq. intros [= <-]. rewrite set_get. unfold t0.
    destruct which, wh; try (intros [= <-]; by left); destruct (ts !! n) as [t1|]; try done; by eauto. }
  split; split; cbn.
  - intros m t wh i m' Hm Hi. destruct (Hback _ _ _ _ Hm Hi) as [[-> ->]|(t1 & Ht1 & Hi1)].
    + rewrite lookup_insert_eq. by intros [= <-].
    + pose proof (Hold _ _ _ _ Ht1 Hi1). rewrite lookup_insert_ne by lia. by eapply Ho.
  - intros m t wh i Hex Hm Hi. destruct (Hback _ _ _ _ Hm Hi) as [[-> ->]|(t1 & Ht1 & Hi1)]; [apply lookup_insert_eq|].
    pose proof (Hold _ _ _ _ Ht1 Hi1). rewrite lookup_insert_ne by lia. by eapply Hp.
  - intros m t a b. destruct (decide (n = m)) as [<-|Hne]; [|rewrite lookup_insert_ne by done; by eapply Hd].
    rewrite lookup_insert_eq. intros [= <-]. unfold t0. destruct which; cbn.
    + intros [= <-] Hb. destruct (ts !! n) as [t1|] eqn:E; [|done]. pose proof (Hold n t1 INSTALL_TIMEOUT b E Hb). lia.
    + intros Ha [= <-]. destruct (ts !! n) as [t1|] eqn:E; [|done]. pose proof (Hold n t1 CREATE_TIMEOUT a E Ha). lia.
  - intros i m. destruct (decide (nx = i)) as [<-|Hne]; [intros; lia|]. rewrite lookup_insert_ne by done. intros Hl%Hf. lia.
  - intros m t wh i Hm Hi. destruct (Hback _ _ _ _ Hm Hi) as [[-> ->]|(t1 & Ht1 & Hi1)]; [lia|].
    pose proof (Hold _ _ _ _ Ht1 Hi1). lia.
  - intros m vm Hex. destruct (decide (n = m)) as [<-|Hne]; [intros _; exists nx; apply lookup_insert_eq|].
    rewrite lookup_insert_ne by done. intros Hm. destruct (H1 m vm Hex Hm) as [i Hi]. exists i.
    rewrite lookup_insert_ne; [done|]. intros <-. apply Hf in Hi. lia.
  - intros m vm Hex. destruct (decide (n = m)) as [<-|Hne].
    + rewrite !lookup_insert_eq. intros [= <-] Hv. exists (set_timeout which (Some nx) t0). destruct which; [|by exists nx].
      rewrite prop_assign in Hv. subst p. change (dummy n "createInProgress" o !! "installInProgress") with (@None jval) in Hv.
      destruct (u !! n) as [vm|] eqn:Eu; [|done]. destruct (H2 n vm Hex Eu Hv) as (t & i & Ht & Hi).
      exists i. split; [done|]. unfold t0. by rewrite Ht.
    + rewrite !lookup_insert_ne by done. by eapply H2.
Qed.

Lemma weaken_ok n w : timers_ok w -> table_ok (eq n) w /\ dummies_ok (eq n) w.
Proof. intros [[Ho Hp Hd Hf Hold] [H1 H2]]. split; split; eauto. Qed.

Lemma remove_timers n w u : timers_ok w -> dummies w !! n = Some u -> truthy (prop u "installInProgress") = true ->
  timers_ok (removeVmCreateInProgress reducer_of n w).
Proof.
  intros Hw Hu Hi. destruct (weaken_ok n w Hw) as [Hte Hde]. destruct Hw as [Ht Hd].
  pose proof (clear_table n CREATE_TIMEOUT w _ Ht) as Ht'. pose proof (clear_dummies n CREATE_TIMEOUT w _ Ht Hde) as Hd'.
  assert (timers_ok (snd (clearTimeout n CREATE_TIMEOUT w))) as Hok.
  { split; [done|]. destruct (dm_install _ _ Hd n u (fun x => x) Hu Hi) as (t & d & Hn & Hg).
    assert (exists t', timeouts (snd (clearTimeout n CREATE_TIMEOUT w)) !! n = Some t' /\ t_install t' = Some d) as (t' & Hn' & Hg').
    { destruct (clear_cases n CREATE_TIMEOUT w) as [->|(t1 & d1 & Hn1 & Hg1 & ->)]; [by exists t|].
      assert (t1 = t) as -> by congruence. exists (set_timeout CREATE_TIMEOUT None t). split; [|by destruct t].
      destruct w. cbv [set_field id]; cbn. by rewrite lookup_insert_eq. }
    destruct Hd' as [H1 H2]. split; intros m vm _; (destruct (decide (n = m)) as [<-|Hne]; [|by eauto]).
    - intros _. exists d. by apply (ta_pending _ _ Ht' n t' INSTALL_TIMEOUT d (fun x => x)).
    - intros _ _. by exists t', d. }
  unfold removeVmCreateInProgress. destruct (clearTimeout n CREATE_TIMEOUT w) as [[d|] w1]; cbn in Hok; [|done].
  by apply finish_timers.
Qed.

Lemma timer_timers d w : timers_ok w -> timers_ok (timer reducer_of d w).
Proof.
  intros Hw. unfold timer. destruct (w_timers w !! d) as [n|] eqn:E; [|done]. apply clear_timers.
  - destruct (weaken_ok n w Hw) as [[Ho Hp Hdi Hf Hold] _]. destruct w as [s ts tm nx es]. cbv [set_field id]; cbn in *.
    split; cbn.
    + intros m t wh i m' Hm Hi [_ Hl]%lookup_delete_Some. by eapply Ho.
    + intros m t wh i Hne Hm Hi. rewrite lookup_delete_ne; [by eapply Hp|]. intros <-. apply Hne.
      pose proof (Hp _ _ _ _ Hne Hm Hi). congruence.
    + done.
    + intros i m [_ Hl]%lookup_delete_Some. by eapply Hf.
    + done.
  - destruct (weaken_ok n w Hw) as [_ [H1 H2]]. destruct w as [s ts tm nx es]. cbv [set_field id]; cbn in *. split; cbn.
    + intros m vm Hne Hm. destruct (H1 m vm Hne Hm) as [i Hi]. exists i. rewrite lookup_delete_ne; [done|]. intros <-.
      apply Hne. congruence.
    + done.
Qed.

#[export] Instance timers_kept : Kept reducer_of timers_ok.
Proof.
  split.
  - by intros e w [[] []].
  - intros. by apply same_dummies.
  - intros. by apply same_dummies.
  - intros. by apply same_dummies.
  - intros. by apply same_dummies.
  - intros. by apply same_dummies.
  - intros. by apply setup_timers.
  - intros. by apply setup_timers.
  - intros. by apply finish_timers.
  - intros. by apply finish_timers.
  - intros n w [Ht Hd]%(weaken_ok n). by apply clear_timers.
  - intros. by eapply remove_timers.
  - intros. by apply timer_timers.
  - intros. by apply same_dummies.
  - intros. by apply same_dummies.
  - intros. by apply same_dummies.
  - intros. by apply same_dummies.
  - intros. by apply same_dummies.
Qed.

Lemma run_timers inputs : timers_ok (foldl (step gettext reducer_of) initial_world inputs).
Proof. apply (keep_run gettext reducer_of timers_ok). by repeat split. Qed.

(** C29. Whatever the page receives, a dummy machine has a pending timer, and when
    that goes off the dummy is gone; when the description of a machine of its name
    arrives it is gone unless it is being installed. *)
Theorem dummies_go (inputs : list input) (n : string) (vm : jobj) :
  let w := foldl (step gettext reducer_of) initial_world inputs in
  dummies w !! n = Some vm ->
  (exists id, w_timers w !! id = Some n /\ dummies (step gettext reducer_of w (Timer id)) !! n = None) /\
  (forall c name doc found, dumped_vm gettext c doc = Some found -> prop found "name" = JStr n ->
     let w' := step gettext reducer_of w (Dumpxml c name (Some doc)) in
     dummies w' !! n = None \/ truthy (prop vm "installInProgress") = true).
Proof.
  cbn zeta. pose proof (run_timers inputs) as Hw. set (w := foldl _ _ _) in *. intros Hn.
  destruct (dm_timer _ _ (proj2 Hw) n vm (fun x => x) Hn) as [d Hd]. split.
  - exists d. split; [done|]. cbn [step]. unfold timer. rewrite Hd.
    pose proof (timer_timers d w Hw) as Ht. unfold timer in Ht. rewrite Hd in Ht.
    unfold clearVmUiState. unfold VmLibvirt.dispatch, reducer. cbv [set_field id]; cbn. unfold ui.
    destruct (s_ui _). cbv [set_field id]; cbn. by rewrite lookup_delete_eq.
  - intros c name doc found Hvm Hname. cbn [step]. unfold dumpxml_reply, parseDumpxml. rewrite Hvm. cbn [mbind option_bind].
    rewrite Hname. cbn [js_String]. unfold resolveUiState. rewrite Hn.
    destruct (truthy (prop vm "installInProgress")) eqn:Et.
    + by right.
    + left. destruct (weaken_ok n w Hw) as [Hte Hde]. destruct (clear_timers n w Hte Hde) as [_ Hc]. exact Hc.
Qed.
End Dummies.

(** A machine that is made and started at once. *)
Lemma dummies_go_witness :
  let w := foldl (step (fun s => s) (fun _ => None)) initial_world [Create "fedora" true] in
  (exists id, w_timers w !! id = Some "fedora" /\
     ui_vms (s_ui (w_store (step (fun s => s) (fun _ => None) w (Timer id)))) !! "fedora" = None) /\
  (forall c name doc found, dumped_vm (fun s => s) c doc = Some found -> prop found "name" = JStr "fedora" ->
     let w' := step (fun s => s) (fun _ => None) w (Dumpxml c name (Some doc)) in
     ui_vms (s_ui (w_store w')) !! "fedora" = None \/
     truthy (prop (assign (VmLibvirt.dummy "fedora" "createInProgress" (Some (JBool true)))
       (VmLibvirt.dummy "fedora" "installInProgress" None)) "installInProgress") = true).
Proof.
  apply (dummies_go (fun s => s) (fun _ => None) [Create "fedora" true] "fedora"). reflexivity.
Defined.
