(* ===== verification/VmListing.v ===== *)
(** * A listing leaves the machines that it lists

    The page asks [virsh] for the names of the machines and then for each of them
    ([doGetAllVms], [GET_VM]).  Abstractly that sets the machines of a connection;
    the replies come in any order, and other connections are left alone. *)

From S2P Require Import Prelude Uri Location LocationSpec VmState VmXml VmLibvirt VmSpec VmWorld.

Section Listing.
Context (gettext : string -> string).
Context (reducer_of : nat -> option (jval -> action -> jval)).
Context (c : string).

#[local] Notation step := (step gettext reducer_of).

Inductive reply := Described (name : string) (doc : node) | Informed (name text : string).

Definition reply_input (r : reply) : input :=
  match r with Described n doc => Dumpxml c n (Some doc) | Informed n text => Dominfo c n text end.

(** The machines of other connections. *)
Definition others (l : list jobj) : list jobj := filter (fun vm => is_str (prop vm "connectionName") c = false) l.

Definition named (names : list string) (l : list jobj) : Prop :=
  forall vm, vm ∈ l -> prop vm "connectionName" = JStr c -> exists n, n ∈ names /\ prop vm "name" = JStr n.

Definition present (n u : string) (l : list jobj) : Prop :=
  exists i vm, l !! i = Some vm /\ prop vm "connectionName" = JStr c /\ prop vm "name" = JStr n /\ prop vm "id" = JStr u.

(** ** Updates of one machine *)

Lemma prop_assign_some a b k v : prop b k = v -> v <> JUndef -> prop (assign a b) k = v.
Proof. rewrite prop_assign. unfold prop. destruct (b !! k); cbn; congruence. Qed.

Lemma others_insert l i e e' : l !! i = Some e -> prop e "connectionName" = JStr c -> prop e' "connectionName" = JStr c ->
  others (<[i:=e']> l) = others l.
Proof.
  intros Hi He He'. rewrite insert_take_drop by (by eapply lookup_lt_Some).
  rewrite <- (take_drop_middle l i e Hi) at 3. unfold others. rewrite !filter_app, !filter_cons.
  rewrite He, He', is_str_refl. done.
Qed.

Lemma changed_kept vm l l' n names : changed vm l l' -> prop vm "connectionName" = JStr c -> prop vm "name" = JStr n -> n ∈ names ->
  others l' = others l /\ (named names l -> named names l').
Proof.
  intros Hch Hc Hn Hin. destruct Hch as [|Hi|i e e' Hi He Hce Hfe He']; [done|..].
  - split.
    + unfold others. rewrite filter_app, filter_cons, Hc, is_str_refl. by rewrite app_nil_r.
    + intros Hl x [Hx| ->%list_elem_of_singleton]%elem_of_app Hcx; [by apply Hl|by exists n].
  - assert (prop e' "connectionName" = JStr c) as Hce'.
    { rewrite He' by (by left). by apply prop_assign_some. }
    split; [eapply others_insert; [done|congruence|done]|].
    intros Hl x [j Hx]%list_elem_of_lookup Hcx. destruct (decide (i = j)) as [<-|Hne].
    + rewrite list_lookup_insert_eq in Hx by (by eapply lookup_lt_Some). injection Hx as <-. exists n. split; [done|].
      rewrite He' by (by right; left). by apply prop_assign_some.
    + rewrite list_lookup_insert_ne in Hx by done. apply Hl; [by eapply list_elem_of_lookup_2|done].
Qed.

(** A description of a machine makes it present. *)
Lemma described_present l vm n u : prop vm "connectionName" = JStr c -> prop vm "name" = JStr n -> prop vm "id" = JStr u ->
  present n u (vms l (UPDATE_ADD_VM vm)).
Proof.
  intros Hc Hn Hu. destruct (update_add_cases l vm) as [[_ ->]|(i & e & Hi & He & -> & H1 & H2)].
  - exists (length l), vm. by rewrite lookup_app_r, Nat.sub_diag.
  - exists i, (assign e vm). split; [apply list_lookup_insert_eq; by eapply lookup_lt_Some|].
    repeat split; by apply prop_assign_some.
Qed.

(** Neither that of another one nor a state takes it away. *)
Lemma present_kept vm l l' n u m : changed vm l l' -> prop vm "connectionName" = JStr c -> prop vm "name" = JStr m ->
  (vm !! "id" = None \/ exists v, prop vm "id" = JStr v /\ v <> "" /\ v <> u) -> present n u l -> present n u l'.
Proof.
  intros Hch Hc Hm Hid (j & x & Hj & Hxc & Hxn & Hxi). destruct Hch as [|Hi|i e e' Hi He Hce Hfe He']; [by exists j, x|..].
  - exists j, x. by rewrite lookup_app_l by by eapply lookup_lt_Some.
  - destruct (decide (i = j)) as [<-|Hne]; [|exists j, x; by rewrite list_lookup_insert_ne].
    assert (x = e) as -> by congruence. exists i, e'. rewrite list_lookup_insert_eq by (by eapply lookup_lt_Some).
    assert (forall k, k ∈ ["connectionName"; "name"; "id"] -> prop e' k = match vm !! k with Some v => v | None => prop e k end) as Hk.
    { intros k Hk. by rewrite He', prop_assign. }
    unfold look_up_field in Hfe. destruct Hid as [Hid|(v & Hv & Hne & Hvu)].
    + assert (prop vm "id" = JUndef) as E by (unfold prop; by rewrite Hid). rewrite E in Hfe. cbn in Hfe. split; [done|].
      rewrite !He' by (repeat first [by left|right]). rewrite !prop_assign_some with (v := JStr c) by done.
      rewrite (prop_assign_some e vm "name" (JStr m)) by done. split; [done|]. split; [congruence|].
      rewrite prop_assign, Hid. done.
    + rewrite Hv in Hfe. cbn in Hfe. rewrite (proj2 (String.eqb_neq v "") Hne) in Hfe. cbn in Hfe. congruence.
Qed.

(** ** Steps *)

Lemma dispatch_vms a w : s_vms (w_store (dispatch reducer_of a w)) = vms (s_vms (w_store w)) a.
Proof. done. Qed.

Lemma resolve_vms n w : s_vms (w_store (resolveUiState reducer_of n w).2) = s_vms (w_store w).
Proof.
  unfold resolveUiState. destruct (ui_vms _ !! n) as [u|]; [|done]. cbn. destruct (truthy _).
  - unfold removeVmCreateInProgress. pose proof (clearTimeout_store n CREATE_TIMEOUT w) as E.
    destruct (clearTimeout n CREATE_TIMEOUT w) as [[d|] w']; cbn in *; by rewrite E.
  - destruct (clear_store reducer_of n w) as (w' & E & ->). cbn. by rewrite E.
Qed.

Lemma described_step n doc w vm : dumped_vm gettext c doc = Some vm ->
  exists ui, s_vms (w_store (step w (Dumpxml c n (Some doc)))) = vms (s_vms (w_store w)) (UPDATE_ADD_VM (<["ui" := ui]> vm)).
Proof.
  intros H. cbn [VmWorld.step]. unfold dumpxml_reply, parseDumpxml. rewrite H. cbn [mbind option_bind].
  pose proof (resolve_vms (js_String (prop vm "name")) w) as E. destruct (resolveUiState _ _ _) as [ui w']. exists ui.
  cbn in *. by rewrite E.
Qed.

Lemma informed_step n text w : exists l, s_vms (w_store (step w (Dominfo c n text))) = l /\
  (l = s_vms (w_store w) \/ exists vm, l = vms (s_vms (w_store w)) (UPDATE_VM vm) /\
     prop vm "connectionName" = JStr c /\ prop vm "name" = JStr n /\ vm !! "id" = None).
Proof.
  eexists. split; [reflexivity|]. cbn [VmWorld.step]. unfold dominfo_reply, parseDominfo.
  destruct (parseLines text); [|by left]. right. eexists. split; [reflexivity|]. by destruct (isRunning _).
Qed.

Section Replies.
Context (names : list string) (uuid : string -> string).

Definition reply_ok (r : reply) : Prop :=
  match r with
  | Described n doc => n ∈ names /\ exists vm, dumped_vm gettext c doc = Some vm /\ prop vm "name" = JStr n /\ prop vm "id" = JStr (uuid n)
  | Informed n _ => n ∈ names
  end.

Context (Huuid : forall n, n ∈ names -> uuid n <> "").
Context (Hinj : forall n m, n ∈ names -> m ∈ names -> uuid n = uuid m -> n = m).

Lemma reply_step r w : reply_ok r ->
  let l := s_vms (w_store w) in let l' := s_vms (w_store (step w (reply_input r))) in
  others l' = others l /\ (named names l -> named names l') /\
  (forall n, n ∈ names -> present n (uuid n) l -> present n (uuid n) l') /\
  (forall n doc, r = Described n doc -> present n (uuid n) l').
Proof.
  intros Hr. destruct r as [m doc|m text]; cbn [reply_input]; cbn zeta.
  - destruct Hr as (Hm & vm & Hvm & Hname & Hid). destruct (described_step m doc w vm Hvm) as [ui ->].
    destruct (dumped_known _ _ _ _ Hvm) as [Hc _]. set (vm' := <["ui" := ui]> vm).
    assert (prop vm' "connectionName" = JStr c /\ prop vm' "name" = JStr m /\ prop vm' "id" = JStr (uuid m)) as (Hc' & Hn' & Hi').
    { unfold vm'. by rewrite !prop_insert. }
    pose proof (update_add_changed (s_vms (w_store w)) vm') as Hch.
    destruct (changed_kept _ _ _ m names Hch Hc' Hn' Hm) as [H1 H2]. split; [done|]. split; [done|].
    assert (present m (uuid m) (vms (s_vms (w_store w)) (UPDATE_ADD_VM vm'))) as Hp by by apply described_present.
    split; [|by intros ? ? [= <- _]]. intros n Hn H. destruct (decide (n = m)) as [->|Hne]; [done|].
    eapply present_kept; [exact Hch|done..| |done]. right. exists (uuid m). split; [done|]. split; [by apply Huuid|].
    intros E. by apply Hne, Hinj.
  - destruct (informed_step m text w) as (l & -> & [->|(vm & -> & Hc & Hn & Hi)]); [done|].
    pose proof (update_changed (s_vms (w_store w)) vm) as Hch.
    destruct (changed_kept _ _ _ m names Hch Hc Hn Hr) as [H1 H2]. split; [done|]. split; [done|]. split; [|done].
    intros n _ H. eapply present_kept; [exact Hch|done..| |done]. by left.
Qed.

Lemma replies_run rs : forall w, Forall reply_ok rs ->
  let l := s_vms (w_store w) in let l' := s_vms (w_store (foldl step w (reply_input <$> rs))) in
  others l' = others l /\ (named names l -> named names l') /\
  (forall n, n ∈ names -> present n (uuid n) l \/ (exists doc, Described n doc ∈ rs) -> present n (uuid n) l').
Proof.
  induction rs as [|r rs IH]; intros w Hrs; cbn zeta.
  - split; [done|]. split; [done|]. intros n _ [H|[doc Hd]]; [done|by apply not_elem_of_nil in Hd].
  - apply Forall_cons in Hrs as [Hr Hrs]. destruct (reply_step r w Hr) as (H1 & H2 & H3 & H4).
    destruct (IH (step w (reply_input r)) Hrs) as (H5 & H6 & H7). cbn [fmap list_fmap foldl].
    split; [congruence|]. split; [auto|]. intros n Hn [H|[doc Hd]]; apply H7; [done|left; by apply H3|done|].
    apply elem_of_cons in Hd as [<-|Hd]; [left; by eapply H4|right; by exists doc].
Qed.
End Replies.

(** ** The listing itself *)

Definition requests (names : list string) : list effect :=
  virsh_read c "dumpxml" <$> filter (fun n => n <> "") names.

Lemma get_all names : forall w, let w' := foldl (fun w name => GET_VM c name w) w names in
  w_store w' = w_store w /\ w_effects w' = w_effects w ++ requests names.
Proof.
  induction names as [|n names IH]; intros w; cbn zeta; [by rewrite app_nil_r|]. cbn [foldl].
  destruct (IH (GET_VM c n w)) as [H1 H2]. rewrite H1, H2. unfold requests, GET_VM. rewrite filter_cons.
  destruct (String.eqb_spec n "") as [->|Hne]; [by rewrite decide_False by auto|]. rewrite decide_True by done.
  split; [done|]. cbn. by rewrite <- app_assoc.
Qed.

Lemma listed_step output w : let w' := step w (Listed c output) in
  w_effects w' = w_effects w ++ requests (vm_names output) /\
  others (s_vms (w_store w')) = others (s_vms (w_store w)) /\ named (vm_names output) (s_vms (w_store w')).
Proof.
  cbn zeta. cbn [VmWorld.step]. unfold doGetAllVms.
  destruct (get_all (vm_names output) (dispatch reducer_of (DELETE_UNLISTED_VMS c (vm_names output)) w)) as [H1 H2].
  rewrite H1, H2. split; [done|]. rewrite dispatch_vms. cbn [vms]. split.
  - unfold others. rewrite list_filter_filter. apply list_filter_iff. intros vm.
    destruct (is_str (prop vm "connectionName") c); cbn; intuition congruence.
  - intros vm [H _]%list_elem_of_filter Hc. rewrite Hc, is_str_refl in H. cbn in H. apply existsb_exists in H as (n & Hn & H).
    exists n. split; [by apply list_elem_of_In|by apply is_str_true].
Qed.

(** C28. After a listing and the replies to its requests, in any order: for each
    name there was one request; the machines of the connection have names that
    were listed; each one that was described is there under its name and id; and
    other connections are as before. *)
Theorem listing_shown (output : string) (uuid : string -> string) (rs : list reply) (w : world) :
  let names := vm_names output in
  (forall n, n ∈ names -> uuid n <> "") -> (forall n m, n ∈ names -> m ∈ names -> uuid n = uuid m -> n = m) ->
  Forall (reply_ok names uuid) rs ->
  let w1 := step w (Listed c output) in
  let l := s_vms (w_store (foldl step w1 (reply_input <$> rs))) in
  w_effects w1 = w_effects w ++ requests names /\
  others l = others (s_vms (w_store w)) /\
  (forall vm, vm ∈ l -> prop vm "connectionName" = JStr c -> exists n, n ∈ names /\ prop vm "name" = JStr n) /\
  (forall n doc, Described n doc ∈ rs ->
     exists i vm, l !! i = Some vm /\ prop vm "connectionName" = JStr c /\ prop vm "name" = JStr n /\ prop vm "id" = JStr (uuid n)).
Proof.
  intros names Hu Hi Hrs. cbn zeta. destruct (listed_step output w) as (H1 & H2 & H3).
  destruct (replies_run names uuid Hu Hi rs (step w (Listed c output)) Hrs) as (H4 & H5 & H6).
  split; [done|]. split; [congruence|]. split; [by apply H5|]. intros n doc Hd. apply H6; [|right; by exists doc].
  rewrite Forall_forall in Hrs. by destruct (Hrs _ Hd).
Qed.
End Listing.

(** ** Examples *)

(** The description of a machine. *)
Definition domain (name uuid : string) : node :=
  let elem tag attrs children := Elem tag "" tag attrs children in
  elem "#document" [] [elem "domain" []
    [elem "name" [] [Text name]; elem "uuid" [] [Text uuid]; elem "currentMemory" [("unit", "KiB")] [Text "1048576"];
     elem "vcpu" [] [Text "2"]; elem "os" [] [elem "type" [("machine", "pc")] [Text "hvm"]; elem "boot" [("dev", "hd")] []];
     elem "devices" [] [elem "disk" [("type", "volume"); ("device", "disk")]
       [elem "source" [("pool", "default"); ("volume", "root")] []; elem "target" [("dev", "vda"); ("bus", "virtio")] []]]]].

Definition two_names : string := "fedora" +:+ nl +:+ "debian" +:+ nl.

Definition two_ids (n : string) : string := if String.eqb n "fedora" then "u1" else "u2".

Definition two_replies : list reply :=
  [Described "debian" (domain "debian" "u2"); Described "fedora" (domain "fedora" "u1"); Informed "debian" ("State: running" +:+ nl)].

Definition no_reducer (provider : nat) : option (jval -> action -> jval) := None.

Definition before : world :=
  initial_world <| w_store ::= fun s => s <| s_vms :=
    [{[ "connectionName" := JStr "system"; "name" := JStr "gone"; "id" := JStr "u3" ]};
     {[ "connectionName" := JStr "session"; "name" := JStr "mine"; "id" := JStr "u4" ]}] |> |>.

Lemma domain_described n u : exists vm, dumped_vm (fun s => s) "system" (domain n u) = Some vm /\
  prop vm "name" = JStr n /\ prop vm "id" = JStr u.
Proof. eexists. split; [reflexivity|]. done. Qed.

Lemma listing_shown_witness :
  let w1 := step (fun s => s) no_reducer before (Listed "system" two_names) in
  let l := s_vms (w_store (foldl (step (fun s => s) no_reducer) w1 (reply_input "system" <$> two_replies))) in
  w_effects w1 = w_effects before ++ requests "system" (vm_names two_names) /\
  others "system" l = others "system" (s_vms (w_store before)) /\
  (forall vm, vm ∈ l -> prop vm "connectionName" = JStr "system" -> exists n, n ∈ vm_names two_names /\ prop vm "name" = JStr n) /\
  (forall n doc, Described n doc ∈ two_replies ->
     exists i vm, l !! i = Some vm /\ prop vm "connectionName" = JStr "system" /\ prop vm "name" = JStr n /\ prop vm "id" = JStr (two_ids n)).
Proof.
  assert (vm_names two_names = ["fedora"; "debian"]) as E by (vm_compute; reflexivity).
  apply (listing_shown (fun s => s) no_reducer "system" two_names two_ids two_replies before); rewrite E.
  - intros n [->|[->|[]%elem_of_nil]%elem_of_cons]%elem_of_cons; done.
  - intros n m [->|[->|[]%elem_of_nil]%elem_of_cons]%elem_of_cons [->|[->|[]%elem_of_nil]%elem_of_cons]%elem_of_cons; done.
  - apply Forall_cons. split; [split; [by right; left|exact (domain_described "debian" "u2")]|].
    apply Forall_cons. split; [split; [by left|exact (domain_described "fedora" "u1")]|].
    apply Forall_cons. split; [by right; left|constructor].
Defined.

(** A machine that was deleted and made again under its name between two listings
    is shown twice. *)
Lemma made_again_twice :
  let old : jobj := {[ "connectionName" := JStr "system"; "name" := JStr "fedora"; "id" := JStr "u0" ]} in
  let w := before <| w_store ::= fun s => s <| s_vms := [old] |> |> in
  (fun vm => (prop vm "name", prop vm "id")) <$>
    s_vms (w_store (foldl (step (fun s => s) no_reducer) w
      [Listed "system" ("fedora" +:+ nl); Dumpxml "system" "fedora" (Some (domain "fedora" "u1"))])) =
  [(JStr "fedora", JStr "u0"); (JStr "fedora", JStr "u1")].
Proof. vm_compute. reflexivity. Qed.

(** A disk that is a volume of a pool is forgotten, for the attribute is
    misspelled; the type of the system is always null. *)
Lemma volume_forgotten : option_map prepareDisksParam
    (getSingleOptionalElem (domain "fedora" "u1") "devices" ≫= parseDumpxmlForDisks) =
  Some ("device=disk,bus=virtio,readonly=off,shareable=off" +:+ nl).
Proof. vm_compute. reflexivity. Qed.

Lemma type_always_null n u : (fun vm => prop vm "osType") <$> dumped_vm (fun s => s) "system" (domain n u) = Some JNull.
Proof. reflexivity. Qed.

(** A lifecycle event without details wedges the monitor: its line stays in the
    buffer, and whatever arrives after it has no effect any more. *)
Lemma monitor_wedged reducer_of c (w : world) rest data :
  String.prefix "error: Disconnected from" data = false ->
  String.prefix "error: internal error: client socket is closed" data = false ->
  let buffer := "event 'lifecycle' for domain fedora" +:+ String nl_char rest in
  monitor_data reducer_of c data (buffer, w) = (buffer +:+ data, w).
Proof.
  intros H1 H2. cbn zeta. unfold monitor_data. rewrite H1, H2. cbn [orb].
  destruct (split_first nl_char "event 'lifecycle' for domain fedora" (rest +:+ data) eq_refl) as (y & l & E).
  rewrite str_app_assoc. change (String nl_char rest +:+ data) with (String nl_char (rest +:+ data)). rewrite E. reflexivity.
Qed.
