(* ===== verification/ShellState.v ===== *)
(** * The state of the shell (src/pkg/shell/base_index.js)

    The shell is the page that holds the others: a frame for each component of
    each machine, a router that carries the messages of the frames over the one
    transport of the shell, and the navigation between the frames.

    Here are the data: windows and iframes as the browser has them, objects that
    tell where one has navigated to, the tables of the router, and the
    components that manifests name ([CompiledComponents]).  Windows, iframes,
    sources and navigation objects are numbers that index a store, since the code
    shares and mutates them; [history.state] is one of the navigation objects.
    The document around the frames (menus, curtains, the navigation bar) is left
    out. *)

From S2P Require Import Prelude Location Transport.

(** ** The browser *)

(** What the shell looks at in a window.  [None] where reading is denied. *)
Record window := mk_window {
  wn_name : option string;
  wn_closed : bool;
  wn_frame : option nat;         (* frameElement *)
  wn_hash : option string;       (* location.hash *)
  wn_visible : bool;             (* the body is visible, or cannot be looked at *)
  wn_listening : bool }.         (* on_unload, on_hashchange *)

#[export] Instance window_settable : Settable window := fun w =>
  mk_window (wn_name w) (wn_closed w) (wn_frame w) (wn_hash w) (wn_visible w) (wn_listening w).

(** A window that is not there any more. *)
Definition no_window : window := mk_window (Some "") true None None true false.

(** The window of the shell itself. *)
Definition own_window : nat := 0%nat.

Record iframe := mk_iframe {
  f_name : string;
  f_src : option string;
  f_url : string;
  f_ready : bool;                (* data-ready is 1 *)
  f_loaded : bool;               (* data-loaded is 1 *)
  f_window : option nat;         (* contentWindow: null outside of the document *)
  f_timer : option Z;            (* the count that the timer was set with *)
  f_display : string;
  f_listening : bool }.          (* on_load *)

#[export] Instance iframe_settable : Settable iframe := fun f =>
  mk_iframe (f_name f) (f_src f) (f_url f) (f_ready f) (f_loaded f) (f_window f) (f_timer f)
    (f_display f) (f_listening f).

Definition no_iframe : iframe := mk_iframe "" None "" false false None None "" false.

(** A navigation object.  [nv_v1] says that its version is v1; host and component
    may be missing; the hash may be undefined or null. *)
Record nav_object := mk_nav {
  nv_v1 : bool;
  nv_host : option string;
  nv_component : option string;
  nv_hash : jval;
  nv_sidebar : bool }.

#[export] Instance nav_settable : Settable nav_object := fun n =>
  mk_nav (nv_v1 n) (nv_host n) (nv_component n) (nv_hash n) (nv_sidebar n).

(** ** The router *)

Record source := mk_source {
  so_name : string;
  so_window : nat;
  so_seed : string;
  so_host : string;
  so_inited : bool }.

#[export] Instance source_settable : Settable source := fun s =>
  mk_source (so_name s) (so_window s) (so_seed s) (so_host s) (so_inited s).

Inductive shell_effect :=
  | EPost (window : nat) (message : wire)       (* window.postMessage *)
  | EWarn                                       (* console.warn *)
  | EOops                                       (* index.show_oops *)
  | ERestart (host : jval)                      (* the expect_restart event *)
  | EPrivileges (control : jobj)                (* index.privileges.update *)
  | ETitle (title : string)                     (* document.title *)
  | EDisconnected.                              (* the curtain with the watchdog's problem *)

Record shell := mk_shell {
  sl_world : Transport.world;                   (* cockpit.transport *)
  sl_windows : gmap nat window;
  sl_iframes : gmap nat iframe;
  sl_next : nat;                                (* for windows, iframes, sources and navs *)
  sl_lists : list (string * list (string * nat)); (* Frames: self.iframes *)
  sl_unique : Z;                                (* Router: unique_id *)
  sl_sources : gmap nat source;
  sl_by_seed : list (string * nat);
  sl_by_name : list (string * nat);
  sl_current : option nat;                      (* Index: current_frame *)
  sl_navs : gmap nat nav_object;
  sl_history : option nat;                      (* history.state *)
  sl_pathname : string;                         (* window.location *)
  sl_hash : string;
  sl_problem : option string;                   (* watchdog_problem *)
  sl_effects : list shell_effect }.

#[export] Instance shell_settable : Settable shell := fun s =>
  mk_shell (sl_world s) (sl_windows s) (sl_iframes s) (sl_next s) (sl_lists s) (sl_unique s)
    (sl_sources s) (sl_by_seed s) (sl_by_name s) (sl_current s) (sl_navs s) (sl_history s)
    (sl_pathname s) (sl_hash s) (sl_problem s) (sl_effects s).

(** ** Code that changes the state and may throw *)

Inductive result (A : Type) := Ok (a : A) | Thrown | OutOfFuel.
Arguments Ok {A} a.
Arguments Thrown {A}.
Arguments OutOfFuel {A}.

Definition M (A : Type) : Type := shell -> shell * result A.

Definition ret {A} (a : A) : M A := fun s => (s, Ok a).
Definition throw {A} : M A := fun s => (s, Thrown).
Definition bind {A B} (m : M A) (k : A -> M B) : M B := fun s =>
  match m s with
  | (s, Ok a) => k a s
  | (s, Thrown) => (s, Thrown)
  | (s, OutOfFuel) => (s, OutOfFuel)
  end.
Definition gets {A} (f : shell -> A) : M A := fun s => (s, Ok (f s)).
Definition get : M shell := fun s => (s, Ok s).
Definition modify (f : shell -> shell) : M unit := fun s => (f s, Ok tt).

Declare Scope shell_scope.
Delimit Scope shell_scope with shell.
Notation "'let*' x := m 'in' k" := (bind m (fun x => k))
  (at level 200, x pattern, k at level 200, right associativity) : shell_scope.
Notation "m ;; k" := (bind m (fun _ => k))
  (at level 100, k at level 200, right associativity) : shell_scope.
#[local] Open Scope shell_scope.

Definition when_ (b : bool) (m : M unit) : M unit := if b then m else ret tt.

(** Run on each, in order. *)
Fixpoint each {A} (f : A -> M unit) (l : list A) : M unit :=
  match l with [] => ret tt | x :: l => f x;; each f l end.

Definition effect_ (e : shell_effect) : M unit := modify (fun s => s <| sl_effects ::= (fun l => l ++ [e]) |>).

(** *** The stores *)

Definition win (w : nat) (s : shell) : window := default no_window (sl_windows s !! w).
Definition iframe_of (f : nat) (s : shell) : iframe := default no_iframe (sl_iframes s !! f).
Definition nav_of (n : nat) (s : shell) : nav_object :=
  default (mk_nav false None None JUndef false) (sl_navs s !! n).

Definition upd_win (w : nat) (f : window -> window) : M unit :=
  modify (fun s => s <| sl_windows ::= alter f w |>).
Definition upd_iframe (i : nat) (f : iframe -> iframe) : M unit :=
  modify (fun s => s <| sl_iframes ::= alter f i |>).
Definition upd_nav (n : nat) (f : nav_object -> nav_object) : M unit :=
  modify (fun s => s <| sl_navs ::= alter f n |>).

Definition alloc_nav (n : nav_object) : M nat := fun s =>
  (s <| sl_navs ::= <[sl_next s := n]> |> <| sl_next ::= S |>, Ok (sl_next s)).

(** [child.name]. *)
Definition win_name (w : nat) : M string := fun s =>
  match wn_name (win w s) with Some n => (s, Ok n) | None => (s, Thrown) end.

(** [child.postMessage(message, origin)]. *)
Definition post (w : nat) (m : wire) : M unit := effect_ (EPost w m).

(** ** Components of the manifests *)

(** An entry of a section of a manifest; no order is undefined. *)
Record info := mk_info {
  i_label : string; i_order : option Z; i_wants : option string; i_path : option string }.

Abbreviation manifest := (list (string * list (string * info))).
Abbreviation manifests := (list (string * manifest)).

Record item := mk_item {
  it_section : string; it_label : string; it_order : Z; it_wants : option string;
  it_path : string; it_hash : option string }.

Abbreviation items := (list (string * item)).

Section Components.
Context (gettext : string -> string) (localeCompare : string -> string -> Z).

(** [s.slice(-n) == e] and [s.slice(0, -n)] for a string of n bytes. *)
Definition drop_suffix (e s : string) : option string :=
  let k := (String.length s - String.length e)%nat in
  if (String.length e <=? String.length s)%nat && String.eqb (String.substring k (String.length e) s) e
  then Some (String.substring 0 k s) else None.

(** The path of an item: without the extension, its hash apart, normal. *)
Definition item_path (name prop : string) (i : info) : string * option string :=
  let path := match i_path i with
              | Some p => if String.eqb p "" then name +:+ "/" +:+ prop else default p (drop_suffix ".html" p)
              | None => name +:+ "/" +:+ prop
              end in
  let '(path, hash) := match str_cut "#" path with
                       | Some (a, b) => (a, Some b)
                       | None => (path, None)
                       end in
  let path := if str_mem "/" path then path else name +:+ "/" +:+ path in
  (default path (drop_suffix "/index" path), hash).

Definition load_item (section name : string) (its : items) (p : string * info) : items :=
  let '(prop, i) := p in
  let label := gettext (i_label i) in
  let '(path, hash) := item_path name prop i in
  assoc_set path
    (mk_item section (if String.eqb label "" then prop else label) (default 1000 (i_order i)) (i_wants i) path hash)
    its.

Definition load (ms : manifests) (section : string) (its : items) : items :=
  foldl (fun its m =>
    foldl (load_item section (fst m)) its (default [] (assoc_get section (snd m)))) its ms.

(** The comparison that [ordered] sorts with. *)
Definition compare_items (a b : item) : Z :=
  let r := it_order a - it_order b in
  if r =? 0 then localeCompare (it_label a) (it_label b) else r.

Fixpoint insert_item (x : item) (l : list item) : list item :=
  match l with
  | [] => [x]
  | y :: l' => if compare_items x y <=? 0 then x :: l else y :: insert_item x l'
  end.

(** [ordered(section)]; no section takes all. *)
Definition ordered (section : string) (its : items) : list item :=
  foldr insert_item []
    (filter (fun i => (String.eqb section "" || String.eqb (it_section i) section) = true) (map snd its)).

(** [search("label", value)]. *)
Definition search (value : string) (its : items) : option item :=
  head (filter (fun i => String.eqb (it_label i) value = true) (map snd its)).

End Components.
