(* ===== verification/Shell.v ===== *)
(** * The shell (src/pkg/shell/base_index.js, [Frames], [Router], [Index])

    [Frames] keeps the iframes by address and component, [Router] carries the
    messages between the frames and the transport, [Index] jumps between
    navigation states.  The page supplies the function [navigate] that shows
    what a state asks for; here it is a parameter, and ShellSimple has one.

    The transport is that of Transport.  What the router posts to the frames is
    in the trace of effects, apart from the trace of the transport.  Events of
    windows (unload, hashchange, load) are operations that are given the window's
    name; a removed iframe has no window any more. *)

From S2P Require Import Prelude Uri Location Transport ShellState.
#[local] Open Scope shell_scope.

(** The members that every object has: looking these up finds something truthy
    that is no source. *)
Definition inherited : list string :=
  ["constructor"; "__defineGetter__"; "__defineSetter__"; "hasOwnProperty"; "__lookupGetter__";
   "__lookupSetter__"; "isPrototypeOf"; "propertyIsEnumerable"; "toString"; "valueOf"; "__proto__";
   "toLocaleString"].

Inductive found := Nothing | Inherited | Source (r : nat).

#[export] Instance found_eq_dec : EqDecision found.
Proof. solve_decision. Defined.

Definition lookup_name (name : string) (s : shell) : found :=
  match assoc_get name (sl_by_name s) with
  | Some r => Source r
  | None => if bool_decide (name ∈ inherited) then Inherited else Nothing
  end.

Definition source_of (r : nat) (s : shell) : source :=
  default (mk_source "" own_window "" "" false) (sl_sources s !! r).

Section Shell.
Context (JSON_stringify : jobj -> string) (JSON_parse : string -> option jobj).
Context (out_filter : nat -> wire -> option string -> option jobj -> bool).
(* What the listeners of the page's own channels do. *)
Context (react : bool -> nat -> chan_event -> Transport.world -> Transport.world).
Context (ws : socket) (root origin : string) (embedded privileges visible : bool).
Context (navigate : option nat -> M unit).

(** ** The frames *)

Inductive machine_arg := MNone | MString (address : string) | MObject (machine : jobj).

Definition machine_prop (m : machine_arg) (k : string) : jval :=
  match m with MObject o => prop o k | _ => JUndef end.

Definition text_or (v : jval) (d : string) : string := if truthy v then js_String v else d.

Definition component_checksum (m : machine_arg) (component : string) : jval :=
  let pkg := default "" (head (str_split "/" component)) in
  let c := jget (jget (machine_prop m "manifests") pkg) ".checksum" in
  if truthy c then JStr ("$" +:+ js_String c) else JUndef.

(** [remove_frame]: out of the document, and its window with it. *)
Definition remove_frame (f : nat) : M unit := fun s =>
  (match f_window (iframe_of f s) with
   | Some w => s <| sl_windows ::= alter (fun x => x <| wn_closed := true |> <| wn_frame := None |>
                                                     <| wn_listening := false |>) w |>
   | None => s
   end <| sl_iframes ::= alter (fun x => x <| f_window := None |>) f |>, Ok tt).

Definition frames_of (address : string) (s : shell) : list (string * nat) :=
  default [] (assoc_get address (sl_lists s)).

Definition set_list (address : string) (f : list (string * nat) -> list (string * nat)) : M unit :=
  modify (fun s => s <| sl_lists ::= assoc_set address (f (frames_of address s)) |>).

Definition remove (m : machine_arg) (component : option string) : M unit :=
  let address := match m with MString a => a | _ => text_or (machine_prop m "address") "" end in
  let address := if String.eqb address "" then "localhost" else address in
  let* l := gets (frames_of address) in
  match component with
  | Some c =>
      if String.eqb c "" then modify (fun s => s <| sl_lists ::= assoc_del address |>);; each (fun p => remove_frame (snd p)) l
      else match assoc_get c l with
           | Some f => remove_frame f;; set_list address (assoc_del c)
           | None => ret tt
           end
  | None => modify (fun s => s <| sl_lists ::= assoc_del address |>);; each (fun p => remove_frame (snd p)) l
  end.

(** [frame_ready(frame, count)]; the count is 0 when it is not given.  Looking
    into a frame without a window throws, which counts as ready. *)
Definition frame_ready (f : nat) (count : Z) : M unit :=
  upd_iframe f (fun x => x <| f_timer := None |>);;
  let* s := get in
  let ready := match f_window (iframe_of f s) with Some w => wn_visible (win w s) | None => true end in
  let count := count + 1 in
  let ready := ready || (50 <? count) in
  if ready then
    if f_ready (iframe_of f s) then ret tt
    else upd_iframe f (fun x => x <| f_ready := true |>);;
         (if 0 <? count then navigate None else ret tt)
  else upd_iframe f (fun x => x <| f_timer := Some (count + 1) |>).

(** The timer of a frame. *)
Definition frame_timer (f : nat) : M unit :=
  let* s := get in
  match f_timer (iframe_of f s) with Some count => frame_ready f count | None => ret tt end.

(** [window.frames[name]]: the window of a frame of the document. *)
Definition named_window (name : string) (s : shell) : option nat :=
  fst <$> head (filter (fun p => bool_decide (wn_name (snd p) = Some name) && negb (wn_closed (snd p)) &&
                                 bool_decide (is_Some (wn_frame (snd p))) = true)
                  (map_to_list (sl_windows s))).

(** The URL of a new frame. *)
Definition frame_url (m : machine_arg) (host component : string) : string :=
  let own := jget (machine_prop m "manifests") ".checksum" in
  let checksum := if truthy own then JStr ("$" +:+ js_String own) else machine_prop m "checksum" in
  let base :=
    if truthy checksum && loose_eq checksum (component_checksum m component) then
      if String.eqb host "localhost" then ".." else "../../" +:+ js_String checksum
    else "../../@" +:+ host in
  base +:+ "/" +:+ component +:+ (if str_mem "/" component then "" else "/index") +:+ ".html".

(** [document.createElement("iframe")], and its window once it is appended. *)
Definition create_iframe (name url : string) : M nat := fun s =>
  (s <| sl_iframes ::= <[sl_next s := mk_iframe name None url false false None None "none" false]> |>
     <| sl_next ::= S |>, Ok (sl_next s)).

Definition append_iframe (f : nat) : M unit := fun s =>
  let w := sl_next s in
  (s <| sl_windows ::= <[w := mk_window (Some (f_name (iframe_of f s))) false (Some f) (Some "") visible false]> |>
     <| sl_iframes ::= alter (fun x => x <| f_window := Some w |>) f |>
     <| sl_next ::= S |>, Ok tt).

Definition lookup_host (m : machine_arg) : string * string :=
  let '(host, address) := match m with
    | MNone => ("", "")
    | MString a => (a, a)
    | MObject o => (text_or (prop o "connection_string") "", text_or (prop o "address") "")
    end in
  let host := if String.eqb host "" then "localhost" else host in
  (host, if String.eqb address "" then host else address).

Definition frame_name (host component : string) : string := "cockpit1:" +:+ host +:+ "/" +:+ component.

(** The frame of a list, unless its name has changed; that one is removed. *)
Definition listed_frame (address component name : string) : M (option nat) :=
  let* s := get in
  match assoc_get component (frames_of address s) with
  | Some f => if String.eqb (f_name (iframe_of f s)) name then ret (Some f) else remove_frame f;; ret None
  | None => ret None
  end.

(** A preloaded frame, with the URL that it has. *)
Definition preloaded_frame (address component name : string) : M (option nat) :=
  let* s := get in
  match named_window name s ≫= (fun w => wn_frame (win w s)) with
  | Some f =>
      match f_src (iframe_of f s) with
      | None => throw                     (* null.split *)
      | Some src =>
          upd_iframe f (fun x => x <| f_url := default "" (head (str_split "#" src)) |>);;
          set_list address (assoc_set component f);; ret (Some f)
      end
  | None => ret None
  end.

Definition lookup (m : machine_arg) (component : string) (hash : jval) : M nat :=
  let '(host, address) := lookup_host m in
  set_list address id;;
  let name := frame_name host component in
  let* frame := listed_frame address component name in
  let* frame := match frame with Some f => ret (Some f) | None => preloaded_frame address component name end in
  let* fn := match frame with
             | Some f => ret (f, false)
             | None => let* f := create_iframe name (frame_url m host component) in ret (f, true)
             end in
  let '(f, new_frame) := fn in
  upd_iframe f (fun x => x <| f_src := Some (f_url x +:+ "#" +:+ text_or hash "/") |>);;
  (if new_frame then set_list address (assoc_set component f);; append_iframe f else ret tt);;
  frame_ready f 0;;
  ret f.

(** ** Navigation *)

Definition nav_state_of (n : nav_object) : nav_state :=
  mk_state (default "" (nv_host n)) (default "" (nv_component n)) (text_or (nv_hash n) "") (nv_sidebar n).

(** [encode(state, sidebar, with_root)]. *)
Definition encode (n : nav_object) (sidebar with_root : bool) : option string :=
  encode_state root [] (nav_state_of n) sidebar with_root.

Definition href (n : nav_object) (sidebar : bool) : option string := encode n sidebar false.

Definition decode (str : string) : M nat := fun s =>
  match decode_state root [] str with
  | Some n => alloc_nav (mk_nav true (Some (s_host n)) (Some (s_component n)) (JStr (s_hash n)) (s_sidebar n)) s
  | None => (s, Thrown)
  end.

Definition retrieve_state : M nat := fun s =>
  match sl_history s with
  | Some n => if nv_v1 (nav_of n s) then (s, Ok n)
              else decode (if embedded then "/" +:+ sl_hash s else sl_pathname s +:+ sl_hash s) s
  | None => decode (if embedded then "/" +:+ sl_hash s else sl_pathname s +:+ sl_hash s) s
  end.

Definition lookup_component_hash (address component : string) (s : shell) : jval :=
  let address := if String.eqb address "" then "localhost" else address in
  match assoc_get component (frames_of address s) with
  | Some f => match f_src (iframe_of f s) with
              | Some src => if String.eqb src "" then JNull
                            else match str_split "#" src !! 1%nat with Some h => JStr h | None => JUndef end
              | None => JNull
              end
  | None => JNull
  end.

(** [pushState] and [replaceState]: the history gets a copy of the object; the
    target is the location itself when the shell is embedded. *)
Definition set_history (n : nat) (target : option string) : M unit := fun s =>
  match target with
  | None => (s, Thrown)
  | Some url =>
      let '(path, hash) := match str_cut "#" url with
                           | Some (a, b) => (a, if String.eqb b "" then "" else "#" +:+ b)
                           | None => (url, "")
                           end in
      let s := s <| sl_navs ::= <[sl_next s := nav_of n s]> |> <| sl_history := Some (sl_next s) |>
                 <| sl_next ::= S |> in
      (if embedded then s else s <| sl_pathname := path |> <| sl_hash := hash |>, Ok tt)
  end.

(** [self.jump(state, replace)] on an object. *)
Definition jump (n : nat) (replace : bool) : M bool :=
  let* c := retrieve_state in
  let* s := get in
  let current := nav_of c s in
  upd_nav n (fun x =>
    let x := match nv_host x with
             | None | Some EmptyString =>
                 x <| nv_host := Some (match nv_host current with
                                       | None | Some EmptyString => "localhost"
                                       | Some h => h
                                       end) |>
             | Some _ => x
             end in
    match nv_component x with
    | None => x <| nv_component := Some (default "" (nv_component current)) |>
    | Some _ => x
    end);;
  let* s := get in
  let state := nav_of n s in
  let current := nav_of c s in
  let frame_change := negb (bool_decide (nv_host state = nv_host current)) ||
                      negb (bool_decide (nv_component state = nv_component current)) in
  when_ (frame_change && negb (truthy (nv_hash state)))
    (upd_nav n (fun x => x <| nv_hash := lookup_component_hash (default "" (nv_host x)) (default "" (nv_component x)) s |>));;
  let* s := get in
  let state := nav_of n s in
  let current := nav_of c s in
  let target := if embedded then Some "" else encode state false true in
  if replace then set_history n target;; ret false
  else if frame_change || negb (strict_eq (nv_hash state) (nv_hash current)) then
    set_history n target;; navigate (Some n);; ret true
  else ret false.

Definition jump_string (str : string) : M bool := let* n := decode str in jump n false.

(** [self.jump({ hash: hash })]. *)
Definition jump_hash (hash : string) : M bool :=
  let* n := alloc_nav (mk_nav false None None (JStr hash) false) in jump n false.

(** ** The router *)

(** [self.hint(child, data)]; without a child reading its name throws. *)
Definition hint (child : option nat) (data : jobj) : M unit :=
  match child with
  | None => throw
  | Some w =>
      let* name := win_name w in
      let* s := get in
      match lookup_name name s with
      | Source r =>
          let so := source_of r s in
          when_ (so_inited so && negb (wn_closed (win (so_window so) s)))
            (post (so_window so) (WText (nl +:+ JSON_stringify (<["command" := JStr "hint"]> data))))
      | _ => ret tt
      end
  end.

(** [self.current_frame(frame)]: undefined only asks. *)
Definition current_frame (frame : option (option nat)) : M unit :=
  match frame with
  | None => ret tt
  | Some new =>
      let* s := get in
      when_ (negb (bool_decide (sl_current s = new)))
        (match sl_current s ≫= (fun f => f_window (iframe_of f s)) with
         | Some w => hint (Some w) {["hidden" := JBool true]}
         | None => ret tt
         end;;
         match new ≫= (fun f => f_window (iframe_of f s)) with
         | Some w => hint (Some w) {["hidden" := JBool false]}
         | None => ret tt
         end);;
      modify (fun s => s <| sl_current := new |>)
  end.

(** The filter on what the transport receives: whether it is delivered here. *)
Definition route (message : wire) (channel : string) (control : option jobj) (s : shell) : bool * list shell_effect :=
  let to r := let so := source_of r s in
    if wn_closed (win (so_window so) s) then [] else [EPost (so_window so) message] in
  match control with
  | Some c =>
      match prop c "channel" with
      | JUndef =>
          (true, if is_str (prop c "command") "hint" && truthy (prop c "credential") && privileges
                 then [EPrivileges c] else [])
      | _ => (true, concat (map (fun p => to (snd p)) (sl_by_seed s)))
      end
  | None =>
      match str_cut "!" channel with
      | Some (before, _) =>
          match assoc_get (before +:+ "!") (sl_by_seed s) with
          | Some r => (false, to r)
          | None => (true, [])
          end
      | None => (true, [])
      end
  end.

(** [cockpit.transport.filter] with that filter. *)
Definition router_filter : nat := 0%nat.

Definition install_filter : M unit := modify (fun s => s <| sl_world ::= add_filter router_filter false |>).

(** A message of the transport: through the filter, then to the page itself. *)
Definition receive (message : wire) : M Transport.ret := fun s =>
  let '(w, r) := dispatch_data JSON_stringify JSON_parse
    (fun f m chan control => Nat.eqb f router_filter && negb (fst (route m chan control s)))
    out_filter react message (sl_world s) in
  let posts := match parse_channel message with
               | None => []
               | Some chan =>
                   if negb (bool_decide (router_filter ∈ w_in_filters (sl_world s))) then []
                   else if String.eqb chan "" then
                     match JSON_parse (payload_String (frame_payload message chan)) with
                     | Some control => snd (route message chan (Some control) s)
                     | None => []
                     end
                   else snd (route message chan None s)
               end in
  (s <| sl_world := w |> <| sl_effects ::= (fun l => l ++ posts) |>,
   match r with RThrow => Thrown | r => Ok r end).

Definition perform_track (child : nat) : M unit :=
  let* s := get in
  match sl_current s with
  | Some f =>
      if bool_decide (f_window (iframe_of f s) = Some child) then
        let* name := win_name child in
        if negb (String.eqb name "") && (index_of (bytes_of "/shell/shell") (bytes_of name) =? -1) then
          match wn_hash (win child s) with
          | None => throw
          | Some hash =>
              let hash := match hash with String c h => if Ascii.eqb c "#" then h else hash | _ => hash end in
              let hash := if String.eqb hash "/" then "" else hash in
              jump_hash hash;; ret tt
          end
        else ret tt
      else ret tt
  | None => ret tt
  end.

Definition perform_jump (child : nat) (control : jobj) : M unit :=
  let* s := get in
  let shown := match sl_current s with
               | Some f => bool_decide (f_window (iframe_of f s) = Some child)
               | None => false
               end in
  if negb (Nat.eqb child own_window) && negb shown then ret tt
  else
    let str := text_or (prop control "location") "" in
    let str := match str with
               | String c _ => if Ascii.eqb c "/" then str else "/" +:+ str
               | EmptyString => "/"
               end in
    let str := if truthy (prop control "host")
               then "/@" +:+ encodeURIComponent (js_String (prop control "host")) +:+ str else str in
    jump_string str;; ret tt.

(** [cockpit.transport.inject] and the other calls of the transport. *)
Definition inject_out (data : wire) : M unit := fun s =>
  let '(w, r) := inject JSON_stringify JSON_parse (fun _ _ _ _ => false) out_filter passive data true (sl_world s) in
  (s <| sl_world := w |>, match r with RThrow => Thrown | _ => Ok tt end).

Definition kill_group (group : string) : M unit :=
  modify (fun s => s <| sl_world ::= kill JSON_stringify JSON_parse out_filter ws JUndef (JStr group) |>).

(** [cockpit.hint(name, options)] with an object. *)
Definition cockpit_hint (name : jval) (options : jobj) : M unit :=
  modify (fun s => s <| sl_world ::= fun w =>
    match w_tr w with
    | None => w
    | Some _ => public_control JSON_stringify JSON_parse out_filter ws "hint" (<["hint" := name]> options) w
    end |>).

Definition unregister (r : nat) : M unit :=
  let* s := get in
  let so := source_of r s in
  let child := so_window so in
  let* name := win_name child in
  kill_group name;;
  match wn_frame (win child s) with
  | Some f => upd_iframe f (fun x => x <| f_listening := false |>)
  | None => ret tt
  end;;
  upd_win child (fun x => x <| wn_listening := false |>);;
  modify (fun s => s <| sl_by_seed ::= assoc_del (so_seed so) |> <| sl_by_name ::= assoc_del (so_name so) |>).

(** [if (source) unregister(source)]; what is inherited has no window. *)
Definition unregister_found (f : found) : M unit :=
  match f with Nothing => ret tt | Inherited => throw | Source r => unregister r end.

(** The host in the name of a window. *)
Definition name_host (name : string) : string :=
  if String.prefix "cockpit1:" name
  then default "" (head (str_split "/" (String.substring 9 (String.length name) name))) else "".

Definition channel_seed (s : shell) : string :=
  let seed := prop (w_public_options (sl_world s)) "channel-seed" in
  text_or seed "undefined:" +:+ pretty (sl_unique s) +:+ "!".

Definition add_source (child : nat) (name host : string) : M nat := fun s =>
  let s := s <| sl_unique ::= Z.succ |> in
  let r := sl_next s in
  let seed := channel_seed s in
  (s <| sl_sources ::= <[r := mk_source name child seed host false]> |>
     <| sl_by_seed ::= assoc_set seed r |> <| sl_by_name ::= assoc_set name r |> <| sl_next ::= S |>, Ok r).

Definition register (child : nat) : M (option nat) :=
  let* name := win_name child in
  let host := name_host name in
  if String.eqb name "" || String.eqb host "" then effect_ EWarn;; ret None
  else
    let* r := add_source child name host in
    let* s := get in
    match wn_frame (win child s) with
    | None => throw                       (* null.addEventListener *)
    | Some f =>
        upd_iframe f (fun x => x <| f_listening := true |> <| f_loaded := true |>);;
        upd_win child (fun x => x <| wn_listening := true |>);;
        perform_track child;;
        navigate None;;
        ret (Some r)
    end.

Definition on_unload (name : string) : M unit :=
  let* s := get in unregister_found (lookup_name name s).

(** [on_hashchange] and [on_load]: nothing that is inherited has a window. *)
Definition on_hashchange (name : string) : M unit :=
  let* s := get in
  match lookup_name name s with Source r => perform_track (so_window (source_of r s)) | _ => ret tt end.

(** The reply to init. *)
Definition init_reply (r : nat) (s : shell) : jobj :=
  let so := source_of r s in
  extend (extend ∅ (w_public_options (sl_world s)))
    {["command" := JStr "init"; "host" := JStr (so_host so); "channel-seed" := JStr (so_seed so)]}.

Definition answer_init (child r : nat) : M unit :=
  let* s := get in
  post child (WText (nl +:+ JSON_stringify (init_reply r s)));;
  modify (fun s => s <| sl_sources ::= alter (fun x => x <| so_inited := true |>) r |>);;
  (* a new frame that is not the current one is told *)
  let* s := get in
  let frame := wn_frame (win child s) in
  if bool_decide (frame = sl_current s) then ret tt
  else match frame with
       | None => throw
       | Some f => hint (f_window (iframe_of f s)) {["hidden" := JBool true]}
       end.

Definition handle_init (child : nat) (control : jobj) (source : found) : M found :=
  unregister_found source;;
  if truthy (prop control "problem") then effect_ EWarn;; ret Nothing
  else
    let* r := register child in
    match r with
    | Some r => answer_init child r;; ret (Source r)
    | None => ret Nothing
    end.

(** What becomes of a message: done, or forwarded. *)
Inductive verdict := Handled | Forward (source : found) (data : string).

Definition handle_control (child : nat) (data : string) (source : found) (control : jobj) : M verdict :=
  let command := prop control "command" in
  if is_str command "init" then
    let* source := handle_init child control source in ret (Forward source data)
  else if is_str command "jump" then perform_jump child control;; ret Handled
  else if is_str command "logout" || is_str command "kill" then ret (Forward source data)
  else if is_str command "hint" then
    (if is_str (prop control "hint") "restart" then
       let* s := get in
       when_ (negb (loose_eq (prop control "host") (w_public_host (sl_world s))))
         (effect_ (ERestart (prop control "host")))
     else cockpit_hint (prop control "hint") control);;
    ret Handled
  else if is_str command "oops" then effect_ EOops;; ret Handled
  else match prop control "channel" with
       | JUndef => ret Handled
       | _ =>
           if is_str command "open" then
             let* name := win_name child in
             ret (Forward source (nl +:+ JSON_stringify (<["group" := JStr name]> control)))
           else ret (Forward source data)
       end.

(** [message_handler]; data that is neither a string nor an ArrayBuffer is
    [None]. *)
Definition message_handler (event_origin : string) (data : option wire) (source : option nat) : M unit :=
  if negb (String.eqb event_origin origin) then ret tt
  else
    match source, data with
    | None, _ | _, None => ret tt
    | Some _, Some (WBinary b) => inject_out (WBinary b)
    | Some child, Some (WText data) =>
        let* s := get in
        match wn_name (win child s) with
        | None => ret tt                   (* a name that cannot be read *)
        | Some name =>
            let source := lookup_name name s in
            match data with
            | EmptyString => unregister_found source
            | String c rest =>
                let* v :=
                  (if Ascii.eqb c nl_char then
                     match JSON_parse rest with
                     | None => throw
                     | Some control => handle_control child data source control
                     end
                   else ret (Forward source data)) in
                match v with
                | Handled => ret tt
                | Forward Nothing _ => effect_ EWarn
                | Forward _ data => inject_out (WText data)
                end
            end
        end
    end.

(** [self.start(messages)], the messages that came before. *)
Definition start (messages : list (string * option wire * option nat)) : M unit :=
  each (fun m => let '(o, d, c) := m in message_handler o d c) messages.

End Shell.
