(* ===== verification/ShellSimple.v ===== *)
(** * The simple index (src/pkg/shell/indexes.js, [SimpleIndex])

    The shell of a single machine, which shows the dashboards of its manifests.
    Its [navigate] ties the knot: it looks up frames, which navigate once they
    are ready.  Fuel bounds how deep that goes. *)

From S2P Require Import Prelude Location Transport ShellState Shell.
#[local] Open Scope shell_scope.

Section Simple.
Context (JSON_stringify : jobj -> string) (JSON_parse : string -> option jobj).
Context (out_filter : nat -> wire -> option string -> option jobj -> bool).
(* What the listeners of the page's own channels do. *)
Context (react : bool -> nat -> chan_event -> Transport.world -> Transport.world).
Context (ws : socket) (root origin : string) (embedded privileges visible : bool).
Context (localeCompare : string -> string -> Z) (compiled : items) (default_title : string).

Definition hide (f : option nat) : M unit :=
  match f with Some f => upd_iframe f (fun x => x <| f_display := "none" |>) | None => ret tt end.

(** [compiled.items[state.component]]. *)
Definition item_of (n : nat) (s : shell) : option item :=
  assoc_get (default "undefined" (nv_component (nav_of n s))) compiled.

Definition choose_dashboard (n : nat) : M unit :=
  let* s := get in
  match default "" (nv_component (nav_of n s)), ordered localeCompare "dashboard" compiled with
  | EmptyString, i :: _ => upd_nav n (fun x => x <| nv_component := Some (it_path i) |>)
  | _, _ => ret tt
  end.

Definition update_navbar (n : nat) : M unit :=
  let* s := get in
  match item_of n s with
  | Some i => when_ (String.eqb (it_section i) "dashboard") (upd_nav n (fun x => x <| nv_sidebar := false |>))
  | None => ret tt
  end.

Definition update_title (label : string) : M unit :=
  effect_ (ETitle ((if String.eqb label "" then "" else label +:+ " - ") +:+ default_title)).

Definition update_frame (navigate : option nat -> M unit) (n : nat) : M unit :=
  let* s := get in
  let current := sl_current s in
  let component := default "" (nv_component (nav_of n s)) in
  let* frame := (if String.eqb component "" then ret None
                 else let* f := lookup visible navigate MNone component (nv_hash (nav_of n s)) in ret (Some f)) in
  when_ (negb (bool_decide (frame = current)))
    (hide current;; current_frame JSON_stringify (match frame with Some f => Some (Some f) | None => None end));;
  match frame with
  | Some f => upd_iframe f (fun x => x <| f_display := "block" |>)
  | None => ret tt
  end;;
  let* s := get in
  update_title (match item_of n s with Some i => it_label i | None => "" end).

(** [navigate(state)]. *)
Fixpoint navigate (fuel : nat) (state : option nat) : M unit :=
  match fuel with
  | O => fun s => (s, OutOfFuel)
  | S fuel =>
      let* s := get in
      match sl_problem s with
      | Some _ => ret tt
      | None =>
          let* n := match state with Some n => ret n | None => retrieve_state root embedded end in
          choose_dashboard n;;
          update_navbar n;;
          update_frame (navigate fuel) n;;
          jump root embedded (navigate fuel) n true;;
          ret tt
      end
  end.

(** A navigation ends at this depth (ShellNavigate): where it is called, for every
    frame that gets ready meanwhile, for one that is made, and once more. *)
Definition depth (s : shell) : nat := 3 + size (sl_iframes s).

Definition simple_navigate : option nat -> M unit := fun state s => navigate (depth s) state s.

(** The watchdog channel was closed. *)
Definition disconnected (problem : string) : M unit :=
  modify (fun s => s <| sl_problem := Some problem |>);;
  let* s := get in
  hide (sl_current s);;
  effect_ EDisconnected.

(** ** What the page receives *)

Inductive input :=
  | Message (origin : string) (data : option wire) (source : option nat)
  | FromTransport (message : wire)
  | Unload (name : string)
  | Hashchange (name : string)
  | FrameTimer (f : nat)
  | Popstate (n : option nat)
  | Link (href : string)
  | WatchdogClosed (problem : string)
  | WindowChanged (w : nat) (name : option string) (closed : bool) (hash : option string) (visible : bool)
  | OtherCode (w : Transport.world).

(** Windows change as they like, and other code of the page uses the transport;
    an exception ends the handler, not the page. *)
Definition handle (i : input) : M unit :=
  let nav := simple_navigate in
  match i with
  | Message o data source =>
      message_handler JSON_stringify JSON_parse out_filter ws root origin embedded nav o data source
  | FromTransport m => receive JSON_stringify JSON_parse out_filter react privileges m;; ret tt
  | Unload name => on_unload JSON_stringify JSON_parse out_filter ws name
  | Hashchange name => on_hashchange root embedded nav name
  | FrameTimer f => frame_timer nav f
  | Popstate n => modify (fun s => s <| sl_history := n |>);; nav n
  | Link href => jump_string root embedded nav href;; ret tt
  | WatchdogClosed p => disconnected (if String.eqb p "" then "disconnected" else p)
  | WindowChanged w name closed hash visible =>
      upd_win w (fun x => x <| wn_name := name |> <| wn_closed := closed |> <| wn_hash := hash |>
                            <| wn_visible := visible |>)
  | OtherCode w => modify (fun s => s <| sl_world := w |>)
  end.

Definition step (s : shell) (i : input) : shell := fst (handle i s).

(** The page at the start: a window and its URL; the router installs its filter. *)
Definition new_shell (w : Transport.world) (pathname hash : string) : shell :=
  fst (install_filter
    (mk_shell w {[own_window := mk_window (Some "cockpit1") false None (Some hash) true false]} ∅ 1 [] 0 ∅ [] []
       None ∅ None pathname hash None [])).

Definition boot (w : Transport.world) (pathname hash : string) : shell :=
  fst (simple_navigate None (new_shell w pathname hash)).

End Simple.
