(* ===== verification/ShellKeeps.v ===== *)
(** * What the operations of the shell leave alone

    A class for the operations that keep a relation between the state before and
    the state after, closed under sequencing, and the interface between the
    router and the page's [navigate]: that navigation leaves the tables of the
    router as they are, and changes the transport only as a relation allows that
    the theorem chooses.  The simple index leaves the transport alone, so that it
    implements the interface for every such relation. *)

From S2P Require Import Prelude Location Transport ShellState Shell ShellSimple.
#[local] Open Scope shell_scope.

(** ** Keeping a relation *)

Class Keeps (R : shell -> shell -> Prop) {A} (m : M A) : Prop := keeps : forall s, R s (fst (m s)).

Section Keeps.
Context (R : shell -> shell -> Prop) `{!PreOrder R}.

#[export] Instance keeps_ret A (a : A) : Keeps R (ret a).
Proof. intros s. cbn. reflexivity. Qed.

#[export] Instance keeps_throw A : Keeps R (@throw A).
Proof. intros s. cbn. reflexivity. Qed.

#[export] Instance keeps_get : Keeps R get.
Proof. intros s. cbn. reflexivity. Qed.

#[export] Instance keeps_gets A (f : shell -> A) : Keeps R (gets f).
Proof. intros s. cbn. reflexivity. Qed.

Lemma keeps_bind A B (m : M A) (k : A -> M B) :
  Keeps R m -> (forall a, Keeps R (k a)) -> Keeps R (bind m k).
Proof.
  intros Hm Hk s. unfold bind. specialize (Hm s).
  destruct (m s) as [s1 [a| |]]; cbn in *; [|done..]. etrans; [exact Hm|]. apply Hk.
Qed.

Lemma keeps_when b (m : M unit) : Keeps R m -> Keeps R (when_ b m).
Proof. intros Hm. destruct b; cbn; [done|exact _]. Qed.

Lemma keeps_each A (f : A -> M unit) l : (forall a, Keeps R (f a)) -> Keeps R (each f l).
Proof. intros Hf. induction l as [|a l IH]; cbn; [exact _|]. by apply keeps_bind. Qed.

#[export] Instance keeps_win_name w : Keeps R (win_name w).
Proof. intros s. unfold win_name. destruct (wn_name _); cbn; reflexivity. Qed.

End Keeps.

(** Take an operation apart; [tac] is for what it is made of. *)
Ltac keep_with tac :=
  repeat match goal with
  | |- Keeps _ (bind _ _) => apply keeps_bind; [exact _| |intros ?]
  | |- Keeps _ (when_ _ _) => apply keeps_when; [exact _|]
  | |- Keeps _ (each _ _) => apply keeps_each; [exact _|intros ?]
  | |- Keeps _ (if ?b then _ else _) => destruct b
  | |- Keeps _ (match ?x with _ => _ end) => destruct x
  | |- Keeps _ _ => solve [typeclasses eauto] || tac
  end.

Ltac keep := keep_with fail.

(** ** What the router needs of navigation *)

Ltac same_now := intros ?; split; cbn; (done || lia || reflexivity).

Section Interface.
Context (W : Transport.world -> Transport.world -> Prop) `{!PreOrder W}.

(** The tables are as they were; the transport has changed as [W] allows. *)
Record same_router (s s' : shell) : Prop := {
  sr_world : W (sl_world s) (sl_world s');
  sr_unique : sl_unique s' = sl_unique s;
  sr_sources : sl_sources s' = sl_sources s;
  sr_by_seed : sl_by_seed s' = sl_by_seed s;
  sr_by_name : sl_by_name s' = sl_by_name s;
  sr_next : (sl_next s <= sl_next s')%nat }.

#[export] Instance same_router_preorder : PreOrder same_router.
Proof.
  split; [intros s; by split|]. intros a b c [] [].
  split; [by etrans|congruence..|lia].
Qed.

(** What the page promises to the router. *)
Class Navigation (navigate : option nat -> M unit) : Prop :=
  navigation_keeps : forall n, Keeps same_router (navigate n).

#[export] Instance navigation_instance navigate n : Navigation navigate -> Keeps same_router (navigate n).
Proof. intros H. apply H. Qed.

#[export] Instance keeps_effect e : Keeps same_router (effect_ e).
Proof. same_now. Qed.
#[export] Instance keeps_post w m : Keeps same_router (post w m).
Proof. same_now. Qed.
#[export] Instance keeps_upd_win w f : Keeps same_router (upd_win w f).
Proof. same_now. Qed.
#[export] Instance keeps_upd_iframe w f : Keeps same_router (upd_iframe w f).
Proof. same_now. Qed.
#[export] Instance keeps_upd_nav w f : Keeps same_router (upd_nav w f).
Proof. same_now. Qed.
#[export] Instance keeps_alloc_nav n : Keeps same_router (alloc_nav n).
Proof. same_now. Qed.
#[export] Instance keeps_set_list a f : Keeps same_router (set_list a f).
Proof. same_now. Qed.
#[export] Instance keeps_remove_frame f : Keeps same_router (remove_frame f).
Proof. intros s. unfold remove_frame. destruct (f_window _); split; cbn; (done || lia || reflexivity). Qed.
#[export] Instance keeps_create_iframe n u : Keeps same_router (create_iframe n u).
Proof. same_now. Qed.
#[export] Instance keeps_append_iframe v f : Keeps same_router (append_iframe v f).
Proof. same_now. Qed.
#[export] Instance keeps_decode root str : Keeps same_router (decode root str).
Proof.
  intros s. unfold decode. destruct (decode_state _ _ _); [apply keeps_alloc_nav|by cbn].
Qed.
#[export] Instance keeps_retrieve_state root e : Keeps same_router (retrieve_state root e).
Proof.
  intros s. unfold retrieve_state. destruct (sl_history s); [destruct (nv_v1 _); [by cbn|]|];
    apply keeps_decode.
Qed.
#[export] Instance keeps_set_history e n t : Keeps same_router (set_history e n t).
Proof.
  intros s. unfold set_history. destruct t as [url|]; [|by cbn].
  destruct (match str_cut "#" url with Some _ => _ | None => _ end) as [path hash].
  destruct e; split; cbn; (done || lia || reflexivity).
Qed.
#[export] Instance keeps_set_current n : Keeps same_router (modify (fun s => s <| sl_current := n |>)).
Proof. same_now. Qed.

#[export] Instance keeps_hint st w d : Keeps same_router (hint st w d).
Proof. unfold hint. keep. Qed.
#[export] Instance keeps_current_frame st f : Keeps same_router (current_frame st f).
Proof. unfold current_frame. keep. Qed.

Section Client.
Context (root : string) (embedded visible : bool) (nav : option nat -> M unit) `{!Navigation nav}.

#[export] Instance keeps_remove m c : Keeps same_router (remove m c).
Proof. unfold remove. keep_with same_now. Qed.
#[export] Instance keeps_frame_ready f c : Keeps same_router (frame_ready nav f c).
Proof. unfold frame_ready. cbv zeta. keep. Qed.
#[export] Instance keeps_frame_timer f : Keeps same_router (frame_timer nav f).
Proof. unfold frame_timer. keep. Qed.
#[export] Instance keeps_lookup m c h : Keeps same_router (lookup visible nav m c h).
Proof. unfold lookup, listed_frame, preloaded_frame. cbv zeta. keep. Qed.
#[export] Instance keeps_jump n r : Keeps same_router (jump root embedded nav n r).
Proof. unfold jump. cbv zeta. keep. Qed.
#[export] Instance keeps_jump_string str : Keeps same_router (jump_string root embedded nav str).
Proof. unfold jump_string. keep. Qed.
#[export] Instance keeps_jump_hash h : Keeps same_router (jump_hash root embedded nav h).
Proof. unfold jump_hash. keep. Qed.
#[export] Instance keeps_perform_track c : Keeps same_router (perform_track root embedded nav c).
Proof. unfold perform_track. cbv zeta. keep. Qed.
#[export] Instance keeps_perform_jump c o : Keeps same_router (perform_jump root embedded nav c o).
Proof. unfold perform_jump. cbv zeta. keep. Qed.

End Client.

(** The simple index keeps the promise. *)
Section Simple.
Context (st : jobj -> string) (root : string) (embedded visible : bool).
Context (cmp : string -> string -> Z) (compiled : items) (title : string).

#[export] Instance keeps_hide f : Keeps same_router (hide f).
Proof. unfold hide. keep. Qed.

#[export] Instance keeps_update_frame nav n : Navigation nav ->
  Keeps same_router (update_frame st visible compiled title nav n).
Proof. intros H. unfold update_frame, update_title. cbv zeta. keep. Qed.

#[export] Instance keeps_choose n : Keeps same_router (choose_dashboard cmp compiled n).
Proof. unfold choose_dashboard. keep. Qed.

#[export] Instance keeps_navbar n : Keeps same_router (update_navbar compiled n).
Proof. unfold update_navbar. keep. Qed.

#[export] Instance navigate_keeps fuel : Navigation (navigate st root embedded visible cmp compiled title fuel).
Proof.
  induction fuel as [|fuel IH]; intros n; cbn [navigate]; [intros s; cbn; reflexivity|]. keep.
Qed.

#[export] Instance simple_navigate_keeps :
  Navigation (simple_navigate st root embedded visible cmp compiled title).
Proof. intros n s. apply navigate_keeps. Qed.

#[export] Instance keeps_disconnected p : Keeps same_router (disconnected p).
Proof. unfold disconnected. keep_with same_now. Qed.

End Simple.

End Interface.
