(* ===== verification/ShellSpec.v ===== *)
(** * The router of the shell

    What the router of Shell promises, whatever frames send and whatever
    [navigate] the page has, as long as that is a [Navigation]: the tables agree
    and the channels of a frame are its own; a message for a frame's channel goes
    to that frame only; the channels that a frame opens carry its name.  For the
    first two, navigation may use the transport in any way that leaves the
    announced options and the filters alone; for the last it may send whatever it
    likes, and what is said is about the rest. *)

From S2P Require Import Prelude Numbers Location LocationSpec Transport ShellState Shell ShellSimple ShellKeeps.
#[local] Open Scope shell_scope.

(** ** The tables *)

(** What channel seeds begin with, until the transport announces another. *)
Definition seed_base (w : Transport.world) : string :=
  text_or (prop (w_public_options w) "channel-seed") "undefined:".

(** What other code leaves alone: the seed and the filter of the router. *)
Record announces (p : string) (w : Transport.world) : Prop := {
  an_base : seed_base w = p;
  an_filter : router_filter ∈ w_in_filters w }.

(** What navigation leaves alone of the transport: the announced options and the
    filters. *)
Definition settings (w : Transport.world) := (w_public_options w, w_in_filters w).

Definition same_settings (w w' : Transport.world) : Prop := settings w' = settings w.

#[export] Instance same_settings_preorder : PreOrder same_settings.
Proof. split; unfold same_settings; [done|]. intros a b c H1 H2. by rewrite H2. Qed.

#[local] Notation same_router := (same_router same_settings).

Definition seed_of (p : string) (k : Z) : string := p +:+ pretty k +:+ "!".

(** The tables of the router agree, and no seed is used twice. *)
Record tables (p : string) (s : shell) : Prop := {
  tb_seeds : NoDup (sl_by_seed s).*1;
  tb_names : NoDup (sl_by_name s).*1;
  tb_unique : 0 <= sl_unique s;
  tb_seed : forall seed r, (seed, r) ∈ sl_by_seed s -> exists so k, sl_sources s !! r = Some so /\
    so_seed so = seed /\ seed = seed_of p k /\ 0 < k <= sl_unique s /\
    assoc_get (so_name so) (sl_by_name s) = Some r;
  tb_name : forall name r, (name, r) ∈ sl_by_name s -> exists so, sl_sources s !! r = Some so /\
    so_name so = name /\ assoc_get (so_seed so) (sl_by_seed s) = Some r;
  tb_fresh : forall r, is_Some (sl_sources s !! r) -> (r < sl_next s)%nat }.

Lemma seed_of_inj p k k' : 0 <= k -> 0 <= k' -> seed_of p k = seed_of p k' -> k = k'.
Proof.
  intros H H'. unfold seed_of.
  assert (forall a b : string, p +:+ a = p +:+ b -> a = b) as Hp.
  { induction p as [|c p IH]; cbn; [done|]. intros a b [=]. by apply IH. }
  intros E%Hp.
  assert (forall k, 0 <= k -> str_cut "!" (pretty k +:+ "!") = Some (pretty k, "")) as Hc.
  { intros j Hj. apply str_cut_app. by apply pretty_no_char. }
  pose proof (Hc k H) as E1. rewrite E, (Hc k' H') in E1. injection E1 as E1.
  pose proof (parse_pretty k H) as P. rewrite <- E1, parse_pretty in P by done. by injection P.
Qed.

(** Relations that do not look at the tables keep them. *)
Lemma tables_same p s s' : same_router s s' -> tables p s -> tables p s'.
Proof.
  intros [_ Hu Hso Hs Hn Hx] []. split; rewrite ?Hu, ?Hso, ?Hs, ?Hn; try done.
  intros r Hr. specialize (tb_fresh0 r Hr). lia.
Qed.

(** [ok] before is [ok] after. *)
Definition preserves (P : shell -> Prop) (s s' : shell) : Prop := P s -> P s'.

#[export] Instance preserves_preorder P : PreOrder (preserves P).
Proof. split; unfold preserves; [intros ?; tauto|intros ???; tauto]. Qed.

#[export] Instance keeps_tables p A (m : M A) :
  Keeps same_router m -> Keeps (preserves (tables p)) m.
Proof. intros H s Ht. eapply tables_same; [apply H|exact Ht]. Qed.

(** The world of the transport is changed without a look at the tables. *)
Lemma tables_world p s f : tables p s -> tables p (s <| sl_world ::= f |>).
Proof. intros []. by split. Qed.

Lemma lookup_name_source name s r :
  lookup_name name s = Source r <-> assoc_get name (sl_by_name s) = Some r.
Proof.
  unfold lookup_name. destruct (assoc_get _ _); [|case_bool_decide]; naive_solver.
Qed.

Lemma lookup_name_none name s : (forall r, lookup_name name s <> Source r) -> assoc_get name (sl_by_name s) = None.
Proof. unfold lookup_name. destruct (assoc_get _ _); naive_solver. Qed.

Lemma source_of_lookup r s so : sl_sources s !! r = Some so -> source_of r s = so.
Proof. unfold source_of. by intros ->. Qed.

(** ** Registering *)

Section Router.
Context (JSON_stringify : jobj -> string) (JSON_parse : string -> option jobj).
Context (out_filter : nat -> wire -> option string -> option jobj -> bool).
(* What the listeners of the page's own channels do. *)
Context (react : bool -> nat -> chan_event -> Transport.world -> Transport.world).
Context (ws : socket) (root origin : string) (embedded privileges : bool).
Context (nav : option nat -> M unit) `{!Navigation same_settings nav}.

#[local] Notation unregister := (unregister JSON_stringify JSON_parse out_filter ws).
#[local] Notation unregister_found := (unregister_found JSON_stringify JSON_parse out_filter ws).
#[local] Notation register := (register root embedded nav).
#[local] Notation handle_init := (handle_init JSON_stringify JSON_parse out_filter ws root embedded nav).
#[local] Notation handle_control := (handle_control JSON_stringify JSON_parse out_filter ws root embedded nav).
#[local] Notation message_handler :=
  (message_handler JSON_stringify JSON_parse out_filter ws root origin embedded nav).
#[local] Notation receive := (receive JSON_stringify JSON_parse out_filter react privileges).

(** Without the entries of a registered source. *)
Lemma tables_del p s r so :
  tables p s -> assoc_get (so_name so) (sl_by_name s) = Some r -> sl_sources s !! r = Some so ->
  tables p (s <| sl_by_seed ::= assoc_del (so_seed so) |> <| sl_by_name ::= assoc_del (so_name so) |>).
Proof.
  intros [Hs Hn Hu Hseed Hname Hf] Hr Hso. split; cbn; try done.
  - by apply assoc_del_nodup.
  - by apply assoc_del_nodup.
  - intros seed r' [Hne Hin]%assoc_del_elem. destruct (Hseed _ _ Hin) as (so' & k & Hso' & Es & Ek & Hk & Hn').
    exists so', k. split_and!; try (done || lia). rewrite assoc_get_del.
    destruct (String.eqb_spec (so_name so) (so_name so')) as [E|]; [|done].
    rewrite <- E, Hr in Hn'. simplify_eq.
  - intros name r' [Hne Hin]%assoc_del_elem. destruct (Hname _ _ Hin) as (so' & Hso' & En & Hs').
    exists so'. split_and!; try done. rewrite assoc_get_del.
    destruct (String.eqb_spec (so_seed so) (so_seed so')) as [E|]; [|done].
    destruct (Hname (so_name so) r) as (so1 & Hso1 & _ & Hs1); [by apply assoc_get_elem|].
    rewrite Hso in Hso1. simplify_eq. rewrite E, Hs' in Hs1. simplify_eq.
Qed.

(** What [unregister] does when the name of the window can be read. *)
Definition unregistered (r : nat) (name : string) (s : shell) : shell :=
  let so := source_of r s in
  (match wn_frame (win (so_window so) s) with
   | Some f => s <| sl_iframes ::= alter (fun x => x <| f_listening := false |>) f |>
   | None => s
   end) <| sl_windows ::= alter (fun x => x <| wn_listening := false |>) (so_window so) |>
    <| sl_world := kill JSON_stringify JSON_parse out_filter ws JUndef (JStr name) (sl_world s) |>
    <| sl_by_seed ::= assoc_del (so_seed so) |> <| sl_by_name ::= assoc_del (so_name so) |>.

Lemma unregister_eq r s :
  unregister r s = match wn_name (win (so_window (source_of r s)) s) with
                   | Some name => (unregistered r name s, Ok tt)
                   | None => (s, Thrown)
                   end.
Proof.
  unfold Shell.unregister, unregistered, get, win_name, kill_group, upd_iframe, upd_win, modify, bind. cbn.
  destruct (wn_name _) as [name|]; [|done]. by destruct (wn_frame _).
Qed.

Lemma unregistered_same r name s :
  same_router (s <| sl_world := sl_world (unregistered r name s) |>
                 <| sl_by_seed ::= assoc_del (so_seed (source_of r s)) |>
                 <| sl_by_name ::= assoc_del (so_name (source_of r s)) |>) (unregistered r name s).
Proof. unfold unregistered. destruct (wn_frame _); split; cbn; (done || lia). Qed.

Lemma unregistered_world r name s :
  sl_world (unregistered r name s) =
  kill JSON_stringify JSON_parse out_filter ws JUndef (JStr name) (sl_world s).
Proof. done. Qed.

Lemma unregister_tables p r name s :
  tables p s -> lookup_name name s = Source r -> tables p (fst (unregister r s)).
Proof.
  intros Ht Hr%lookup_name_source. rewrite unregister_eq. destruct (wn_name _) as [n|]; [|done].
  eapply tables_same; [apply unregistered_same|].
  destruct (tb_name _ _ Ht name r) as (so & Hso & <- & _); [by apply assoc_get_elem|].
  rewrite (source_of_lookup r s so Hso).
  apply (tables_del p (s <| sl_world := _ |>) r so); [by apply (tables_world p s (fun _ => _))|done..].
Qed.

(** After it the name is free, when it did not throw. *)
Lemma unregister_frees p r name s s' :
  tables p s -> lookup_name name s = Source r -> unregister r s = (s', Ok tt) ->
  assoc_get name (sl_by_name s') = None.
Proof.
  intros Ht Hr%lookup_name_source. rewrite unregister_eq. destruct (wn_name _) as [n|]; [|done]. intros [= <-].
  destruct (tb_name _ _ Ht name r) as (so & Hso & <- & _); [by apply assoc_get_elem|].
  rewrite (sr_by_name _ _ _ (unregistered_same r n s)). cbn.
  by rewrite assoc_get_del, (source_of_lookup r s so Hso), String.eqb_refl.
Qed.

(** Names of windows stay. *)
Lemma unregister_win r s w : wn_name (win w (fst (unregister r s))) = wn_name (win w s).
Proof.
  rewrite unregister_eq. destruct (wn_name (win (so_window _) s)); [|done].
  unfold unregistered, win. destruct (wn_frame _); cbn; rewrite lookup_alter; case_decide; subst; try done;
    by destruct (sl_windows s !! _).
Qed.

Lemma unregister_found_tables p name s :
  tables p s -> tables p (fst (unregister_found (lookup_name name s) s)).
Proof.
  intros Ht. destruct (lookup_name name s) as [| |r] eqn:E; [done..|]. by eapply (unregister_tables _ r).
Qed.

Lemma add_source_tables p child name host s :
  tables p s -> seed_base (sl_world s) = p -> assoc_get name (sl_by_name s) = None ->
  tables p (fst (add_source child name host s)).
Proof.
  intros [Hs Hn Hu Hseed Hname Hf] Hp Hnone. unfold add_source. cbn.
  set (seed := channel_seed _). assert (seed = seed_of p (Z.succ (sl_unique s))) as Eseed.
  { unfold seed, channel_seed, seed_of. cbn. by rewrite <- Hp. }
  assert (forall r so, sl_sources s !! r = Some so -> r <> sl_next s) as Hne.
  { intros r so Hr. specialize (Hf r ltac:(eauto)). lia. }
  assert (forall r, (seed, r) ∉ sl_by_seed s) as Hnew.
  { intros r Hin. destruct (Hseed _ _ Hin) as (so & k & _ & _ & E & Hk & _).
    rewrite Eseed in E. apply seed_of_inj in E; lia. }
  split; cbn.
  - by apply assoc_set_nodup.
  - by apply assoc_set_nodup.
  - lia.
  - intros seed' r [[-> ->]|Hin]%assoc_set_elem.
    + exists (mk_source name child seed host false), (Z.succ (sl_unique s)). rewrite lookup_insert_eq. cbn.
      rewrite assoc_get_set, String.eqb_refl. split_and!; (done || lia).
    + destruct (Hseed _ _ Hin) as (so & k & Hso & Es & Ek & Hk & Hn'). exists so, k.
      rewrite lookup_insert_ne by (symmetry; by eapply Hne). rewrite assoc_get_set.
      destruct (String.eqb_spec name (so_name so)) as [E|]; [congruence|]. split_and!; (done || lia).
  - intros name' r [[-> ->]|Hin]%assoc_set_elem.
    + exists (mk_source name child seed host false). rewrite lookup_insert_eq. cbn.
      by rewrite assoc_get_set, String.eqb_refl.
    + destruct (Hname _ _ Hin) as (so & Hso & En & Hs'). exists so.
      rewrite lookup_insert_ne by (symmetry; by eapply Hne). rewrite assoc_get_set.
      destruct (String.eqb_spec seed (so_seed so)) as [E|]; [|done].
      apply assoc_get_elem in Hs'. rewrite <- E in Hs'. by apply Hnew in Hs'.
  - intros r [x Hr]. apply lookup_insert_Some in Hr as [[<- _]|[_ Hr]]; [lia|].
    specialize (Hf r ltac:(eauto)). lia.
Qed.

(** *** The transport keeps what was announced *)

Lemma announces_same p w w' :
  w_public_options w' = w_public_options w -> w_in_filters w' = w_in_filters w -> announces p w -> announces p w'.
Proof. intros Ho Hf []. split; unfold seed_base in *; by rewrite ?Ho, ?Hf. Qed.

Lemma send_data_settings m c k w : settings (fst (send_data JSON_parse out_filter m c k w)) = settings w.
Proof. unfold send_data. destruct (ws_of w); [|done]. by destruct (run_out_filters _ _ _ _ _ _) as [[]|]. Qed.

Lemma send_control_settings o w : settings (fst (send_control JSON_stringify JSON_parse out_filter o w)) = settings w.
Proof.
  unfold send_control. destruct (w_tr w) as [t|] eqn:E; [|done].
  repeat match goal with |- context [if ?b then _ else _] => destruct b end; [done..|].
  apply send_data_settings.
Qed.

Lemma public_control_settings command o w :
  settings (public_control JSON_stringify JSON_parse out_filter ws command o w) = settings w.
Proof.
  unfold public_control, ensure_transport. destruct (w_tr w) as [t|] eqn:E; cbn; rewrite ?E; cbn.
  - destruct (t_ready t); [|done]. apply send_control_settings.
  - done.
Qed.

Lemma kill_settings h g w : settings (kill JSON_stringify JSON_parse out_filter ws h g w) = settings w.
Proof. apply public_control_settings. Qed.

(** ** The invariant *)

Record ok (p : string) (s : shell) : Prop := {
  ok_tables : tables p s;
  ok_world : announces p (sl_world s) }.

Lemma ok_same p s s' : same_router s s' -> ok p s -> ok p s'.
Proof.
  intros H []. split; [by eapply tables_same|]. pose proof (sr_world _ _ _ H) as [= Ho Hf].
  by eapply announces_same.
Qed.

#[export] Instance keeps_ok p A (m : M A) : Keeps same_router m -> Keeps (preserves (ok p)) m.
Proof. intros H s Ht. eapply ok_same; [apply H|exact Ht]. Qed.

Lemma ok_set_world p s w : settings w = settings (sl_world s) -> ok p s -> ok p (s <| sl_world := w |>).
Proof.
  intros [= Ho Hf] []. split; [by apply (tables_world p s (fun _ => w))|]. by eapply announces_same.
Qed.

#[export] Instance keeps_inject p m : Keeps (preserves (ok p)) (inject_out JSON_stringify JSON_parse out_filter m).
Proof.
  intros s Ht. unfold inject_out, inject.
  assert (settings (fst (match w_tr (sl_world s) with
    | Some _ => send_data JSON_parse out_filter m None None (sl_world s) | None => (sl_world s, RBool false) end)) =
    settings (sl_world s)) as Hs by (destruct (w_tr _); [apply send_data_settings|done]).
  destruct (match w_tr (sl_world s) with Some _ => _ | None => _ end) as [w r]. by apply ok_set_world.
Qed.

#[export] Instance keeps_cockpit_hint p n o :
  Keeps (preserves (ok p)) (cockpit_hint JSON_stringify JSON_parse out_filter ws n o).
Proof.
  intros s Ht. apply (ok_set_world p s); [|done]. destruct (w_tr _); [apply public_control_settings|done].
Qed.

Lemma unregister_found_ok p name s : ok p s -> ok p (fst (unregister_found (lookup_name name s) s)).
Proof.
  intros [Ht Hw]. split; [by apply unregister_found_tables|].
  destruct (lookup_name name s) as [| |r]; [done..|]. cbn [Shell.unregister_found]. rewrite unregister_eq.
  destruct (wn_name _) as [n|]; [|done]. cbn [fst]. rewrite unregistered_world.
  pose proof (kill_settings JUndef (JStr n) (sl_world s)) as [= Ho Hf]. by eapply announces_same.
Qed.

Lemma keeps_run p A (m : M A) s : Keeps (preserves (ok p)) m -> ok p s -> ok p (fst (m s)).
Proof. intros H. apply H. Qed.

(** *** Registering and answering *)

Lemma add_source_world child name host s : sl_world (fst (add_source child name host s)) = sl_world s.
Proof. done. Qed.

(** A window registers when its name is free. *)
Lemma register_ok p child s :
  ok p s -> (forall n, wn_name (win child s) = Some n -> assoc_get n (sl_by_name s) = None) ->
  ok p (fst (register child s)).
Proof.
  intros Hok Hfree. unfold Shell.register. unfold bind at 1, win_name.
  destruct (wn_name _) as [name|] eqn:E; [|done]. cbv zeta.
  destruct (_ || _); [by apply (keeps_ok p _ (effect_ EWarn) _ s)|].
  unfold bind at 1. destruct (add_source child name (name_host name) s) as [s1 [r| |]] eqn:Ea; [|done..].
  assert (ok p s1) as H1.
  { pose proof (add_source_tables p child name (name_host name) s) as Ht. rewrite Ea in Ht.
    pose proof (add_source_world child name (name_host name) s) as Hw. rewrite Ea in Hw. cbn in *.
    split; [apply Ht; [apply Hok|apply Hok|by apply Hfree]|]. rewrite Hw. apply Hok. }
  apply keeps_run; [|exact H1].
  apply keeps_bind; [exact _|apply keeps_get; exact _|intros s2]. destruct (wn_frame _) as [f|]; [|exact _].
  apply keeps_ok. keep.
Qed.

#[export] Instance keeps_answer_init p child r : Keeps (preserves (ok p)) (answer_init JSON_stringify child r).
Proof.
  unfold answer_init. keep_with ltac:(idtac).
  intros s1 [[] Hw]. split; [|done]. split; cbn; try done.
  - intros seed r' Hin. destruct (tb_seed0 _ _ Hin) as (so & k & Hso & Es & Ek & Hk & Hn).
    exists (if decide (r' = r) then so <| so_inited := true |> else so), k. rewrite lookup_alter.
    repeat case_decide; subst; rewrite ?Hso; naive_solver.
  - intros name r' Hin. destruct (tb_name0 _ _ Hin) as (so & Hso & En & Hs).
    exists (if decide (r' = r) then so <| so_inited := true |> else so). rewrite lookup_alter.
    repeat case_decide; subst; rewrite ?Hso; naive_solver.
  - intros r' Hr. apply tb_fresh0. by rewrite lookup_alter_is_Some in Hr.
Qed.

Lemma unregister_found_frees p n child s s' :
  tables p s -> wn_name (win child s) = Some n -> unregister_found (lookup_name n s) s = (s', Ok tt) ->
  forall n', wn_name (win child s') = Some n' -> assoc_get n' (sl_by_name s') = None.
Proof.
  intros Ht Hn Hu n' Hn'. destruct (lookup_name n s) as [| |r] eqn:E; cbn [Shell.unregister_found] in Hu.
  - cbv in Hu. injection Hu as <-. rewrite Hn in Hn'. simplify_eq. apply lookup_name_none. congruence.
  - done.
  - pose proof (unregister_win r s child) as Hw. rewrite Hu in Hw. cbn in Hw. rewrite Hw, Hn in Hn'.
    simplify_eq. by eapply unregister_frees.
Qed.

Lemma handle_init_ok p child control n s :
  ok p s -> wn_name (win child s) = Some n -> ok p (fst (handle_init child control (lookup_name n s) s)).
Proof.
  intros Hok Hn. unfold Shell.handle_init. unfold bind at 1.
  pose proof (unregister_found_ok p n s Hok) as H1.
  pose proof (unregister_found_frees p n child s) as Hf.
  destruct (unregister_found (lookup_name n s) s) as [s1 [[]| |]]; [|done..]. cbn in H1.
  destruct (truthy _).
  { apply keeps_run; [|exact H1]. keep. }
  unfold bind at 1. pose proof (register_ok p child s1 H1) as H2.
  destruct (register child s1) as [s2 r]. cbn in H2.
  assert (ok p s2) as H3 by (apply H2; apply (Hf s1); [apply Hok|done..]).
  destruct r as [[r|]| |]; [|done..]. apply keeps_run; [|exact H3]. keep.
Qed.

Lemma handle_control_ok p child data n control s :
  ok p s -> wn_name (win child s) = Some n -> ok p (fst (handle_control child data (lookup_name n s) control s)).
Proof.
  intros Hok Hn. unfold Shell.handle_control. cbv zeta. destruct (is_str _ "init").
  { unfold bind at 1. pose proof (handle_init_ok p child control n s Hok Hn) as H.
    by destruct (handle_init child control (lookup_name n s) s) as [s1 [| |]]. }
  apply keeps_run; [|exact Hok]. keep.
Qed.

Lemma message_handler_ok p o data child s : ok p s -> ok p (fst (message_handler o data child s)).
Proof.
  intros Hok. unfold Shell.message_handler. destruct (negb _); [done|].
  destruct child as [child|]; [|by destruct data]. destruct data as [[text|b]|]; [|by apply keeps_inject|done].
  unfold bind at 1, get. destruct (wn_name (win child s)) as [n|] eqn:En; [|done]. cbv zeta.
  destruct text as [|c rest]; [by apply unregister_found_ok|].
  unfold bind at 1.
  set (v := if Ascii.eqb c nl_char then _ else _).
  assert (ok p (fst (v s))) as H.
  { unfold v. destruct (Ascii.eqb _ _); [|done]. destruct (JSON_parse rest); [by apply handle_control_ok|done]. }
  destruct (v s) as [s1 [[|[] d]| |]]; try done; (apply keeps_run; [|exact H]); keep.
Qed.

Lemma on_unload_ok p name s :
  ok p s -> ok p (fst (on_unload JSON_stringify JSON_parse out_filter ws name s)).
Proof. intros. by apply unregister_found_ok. Qed.

(** A message of the transport only posts. *)
Lemma receive_tables p m s : tables p s -> tables p (fst (receive m s)).
Proof. intros H. unfold Shell.receive. destruct (dispatch_data _ _ _ _ _ _ _). by destruct H. Qed.

(** ** Whatever happens *)

(** What happens to the router: its handlers run, other parts of the shell and
    the browser do something that leaves it alone, or other code of the page uses
    the transport. *)
Inductive router_step (p : string) (s : shell) : shell -> Prop :=
  | RMessage o data child : router_step p s (fst (message_handler o data child s))
  | RReceive m : announces p (sl_world (fst (receive m s))) -> router_step p s (fst (receive m s))
  | RUnload name : router_step p s (fst (on_unload JSON_stringify JSON_parse out_filter ws name s))
  | RHashchange name : router_step p s (fst (on_hashchange root embedded nav name s))
  | RElse s' : same_router s s' -> router_step p s s'
  | RWorld w : announces p w -> router_step p s (s <| sl_world := w |>).

Inductive reachable (p : string) : shell -> Prop :=
  | reach_start s : announces p (sl_world s) -> sl_unique s = 0 -> sl_sources s = ∅ ->
      sl_by_seed s = [] -> sl_by_name s = [] -> reachable p s
  | reach_step s s' : reachable p s -> router_step p s s' -> reachable p s'.

Theorem reachable_ok p s : reachable p s -> ok p s.
Proof.
  induction 1 as [s Hw Hu Hs Hseed Hname|s s' _ IH Hstep].
  - split; [|done]. split; rewrite ?Hu, ?Hs, ?Hseed, ?Hname; cbn; try (done || constructor || lia).
    + intros ?? H. by apply elem_of_nil in H.
    + intros ?? H. by apply elem_of_nil in H.
    + intros r [x Hx]. by rewrite lookup_empty in Hx.
  - destruct Hstep.
    + by apply message_handler_ok.
    + split; [apply receive_tables, IH|done].
    + by apply on_unload_ok.
    + apply keeps_run; [|done]. apply keeps_ok. unfold on_hashchange. keep.
    + by eapply ok_same.
    + split; [by apply (tables_world p s (fun _ => w)), IH|done].
Qed.

(** ** Where messages go *)

(** The registered frames, and the one whose channels a channel is of. *)
Definition registered (s : shell) : list source := map (fun p => source_of (snd p) s) (sl_by_name s).

Definition owner (s : shell) (chan : string) : option source :=
  head (filter (fun so => String.prefix (so_seed so) chan = true) (registered s)).

Definition deliver (so : source) (m : wire) (s : shell) : list shell_effect :=
  if wn_closed (win (so_window so) s) then [] else [EPost (so_window so) m].

Lemma prefix_spec a b : String.prefix a b = true <-> exists c, b = a +:+ c.
Proof.
  revert b. induction a as [|x a IH]; intros b.
  - split; [by exists b|by destruct b].
  - destruct b as [|y b]; [by split; [|intros [? [=]]]|].
    change (String.prefix (String x a) (String y b)) with (if ascii_dec x y then String.prefix a b else false).
    destruct (ascii_dec x y) as [->|Hne].
    + rewrite IH. split; [intros [c ->]; by exists c|intros [c [=]]; by exists c].
    + split; [done|intros [c [=]]; congruence].
Qed.

(** A seed ends at its first exclamation mark, as the router assumes, when the
    base has none. *)
Lemma seed_prefix p k chan :
  str_mem "!" p = false -> 0 <= k ->
  String.prefix (seed_of p k) chan = true <->
  exists rest, str_cut "!" chan = Some (p +:+ pretty k, rest).
Proof.
  intros Hp Hk. assert (str_mem "!" (p +:+ pretty k) = false) as Hm.
  { by rewrite str_mem_app, Hp, pretty_no_char. }
  rewrite prefix_spec. unfold seed_of. split.
  - intros [c ->]. exists c. rewrite !str_app_assoc, <- str_app_assoc. by apply str_cut_app.
  - intros [c H]. apply str_cut_inv in H as [-> _]. exists c. by rewrite !str_app_assoc.
Qed.

Lemma cut_lookup p s chan k :
  ok p s -> str_mem "!" p = false -> 0 <= k -> (exists rest, str_cut "!" chan = Some (p +:+ pretty k, rest)) ->
  (match str_cut "!" chan with
   | Some (before, _) => assoc_get (before +:+ "!") (sl_by_seed s)
   | None => None
   end) = assoc_get (seed_of p k) (sl_by_seed s).
Proof. intros Hok Hp Hk [rest ->]. unfold seed_of. by rewrite str_app_assoc. Qed.

(** A registered source is in both tables. *)
Lemma registered_entry p s so :
  ok p s -> so ∈ registered s ->
  exists r k, sl_sources s !! r = Some so /\ so_seed so = seed_of p k /\ 0 <= k /\
    assoc_get (so_seed so) (sl_by_seed s) = Some r.
Proof.
  intros [[] _] ([n r] & -> & Hin)%list_elem_of_fmap. cbn.
  destruct (tb_name0 _ _ Hin) as (so' & Hso & _ & Hs). rewrite (source_of_lookup r s so' Hso).
  pose proof (assoc_get_elem _ _ _ Hs) as Hin'. destruct (tb_seed0 _ _ Hin') as (so2 & k & Hso2 & _ & Ek & Hk & _).
  exists r, k. split_and!; (done || lia).
Qed.

Lemma seed_registered p s seed r :
  ok p s -> assoc_get seed (sl_by_seed s) = Some r ->
  source_of r s ∈ registered s /\ so_seed (source_of r s) = seed.
Proof.
  intros [[] _] Hr. destruct (tb_seed0 seed r) as (so & k & Hso & Es & _ & _ & Hn); [by apply assoc_get_elem|].
  rewrite (source_of_lookup r s so Hso). split; [|done]. unfold registered. apply list_elem_of_fmap.
  exists (so_name so, r). split; [symmetry; by apply source_of_lookup|]. by apply assoc_get_elem.
Qed.

(** The frame whose seed begins the channel is the one that is looked up. *)
Lemma owner_unique p s chan so :
  ok p s -> str_mem "!" p = false -> so ∈ registered s -> String.prefix (so_seed so) chan = true ->
  owner s chan = Some so /\
  (match str_cut "!" chan with
   | Some (before, _) => assoc_get (before +:+ "!") (sl_by_seed s)
   | None => None
   end) ≫= (fun r => sl_sources s !! r) = Some so.
Proof.
  intros Hok Hp Hin Hpre.
  assert (forall so', so' ∈ registered s -> String.prefix (so_seed so') chan = true ->
    (match str_cut "!" chan with
     | Some (before, _) => assoc_get (before +:+ "!") (sl_by_seed s)
     | None => None
     end) ≫= (fun r => sl_sources s !! r) = Some so') as Hlook.
  { intros so' Hin' Hpre'. destruct (registered_entry p s so' Hok Hin') as (r & k & Hso & Es & Hk & Hr).
    rewrite Es in Hpre'. rewrite (cut_lookup p s chan k), <- Es, Hr; [done..|]. by apply seed_prefix. }
  split; [|by apply Hlook]. unfold owner.
  assert (so ∈ filter (fun so => String.prefix (so_seed so) chan = true) (registered s)) as Hf
    by by apply list_elem_of_filter.
  destruct (filter _ (registered s)) as [|so' l] eqn:E; [by apply elem_of_nil in Hf|]. cbn.
  assert (so' ∈ filter (fun so => String.prefix (so_seed so) chan = true) (registered s)) as [H1 H2]%list_elem_of_filter
    by (rewrite E; by apply list_elem_of_here).
  pose proof (Hlook so Hin Hpre) as L1. pose proof (Hlook so' H2 H1) as L2. congruence.
Qed.

(** What the filter of the router does with a payload. *)
Lemma route_payload p s m chan :
  ok p s -> str_mem "!" p = false ->
  route privileges m chan None s =
  match owner s chan with Some so => (false, deliver so m s) | None => (true, []) end.
Proof.
  intros Hok Hp. unfold route.
  destruct (str_cut "!" chan) as [[before rest]|] eqn:Ecut.
  - destruct (assoc_get (before +:+ "!") (sl_by_seed s)) as [r|] eqn:Er.
    + destruct (seed_registered p s _ r Hok Er) as [Hin Es].
      destruct (owner_unique p s chan (source_of r s) Hok Hp Hin) as [-> _]; [|done].
      rewrite Es. apply prefix_spec. exists rest. apply str_cut_inv in Ecut as [-> _]. by rewrite str_app_assoc.
    + destruct (owner s chan) as [so|] eqn:Eo; [|done]. exfalso. unfold owner in Eo. apply head_Some_elem_of in Eo.
      apply list_elem_of_filter in Eo as [H1 H2].
      destruct (owner_unique p s chan so Hok Hp H2 H1) as [_ H]. by rewrite Ecut, Er in H.
  - destruct (owner s chan) as [so|] eqn:Eo; [|done]. exfalso. unfold owner in Eo. apply head_Some_elem_of in Eo.
    apply list_elem_of_filter in Eo as [H1 H2].
    destruct (owner_unique p s chan so Hok Hp H2 H1) as [_ H]. by rewrite Ecut in H.
Qed.

Lemma existsb_filter fs b :
  existsb (fun f => Nat.eqb f router_filter && b) fs = bool_decide (router_filter ∈ fs) && b.
Proof.
  induction fs as [|f fs IH]; cbn; [done|]. rewrite IH.
  destruct (Nat.eqb_spec f router_filter) as [->|Hne]; destruct b; cbn; repeat case_bool_decide; set_solver.
Qed.

(** C31. The channels of a frame are its own, when the shell is not itself in a
    frame of a shell: the seed [p] that the transport has announced to the page has
    no exclamation mark ([nested_not_routed] shows what happens otherwise).  In
    every state that the shell can get into while that announcement stands,
    whatever frames have sent and however the page navigates, a payload from the
    transport on a channel that begins with the seed of a registered frame is
    posted to the window of that frame, unless it is closed, and to no other; it is
    not delivered in the shell.  At most one frame has such a seed.  Any other
    payload is delivered in the shell as if there was no router. *)
Theorem payload_routed p s m chan :
  reachable p s -> str_mem "!" p = false -> parse_channel m = Some chan -> chan <> "" ->
  (forall so, so ∈ registered s -> String.prefix (so_seed so) chan = true -> owner s chan = Some so) /\
  let s' := fst (receive m s) in
  match owner s chan with
  | Some so => sl_effects s' = sl_effects s ++ deliver so m s /\
               sl_world s' = upd_tr (fun t => t <| t_got_message := true |>) (sl_world s)
  | None => sl_effects s' = sl_effects s /\
            sl_world s' = fst (dispatch_data JSON_stringify JSON_parse (fun _ _ _ _ => false) out_filter react m (sl_world s))
  end.
Proof.
  intros Hr Hp Hm Hc. apply reachable_ok in Hr as Hok.
  split; [intros so Hin Hpre; by apply (owner_unique p s chan so)|]. cbv zeta.
  unfold Shell.receive, dispatch_data. rewrite Hm. rewrite (proj2 (String.eqb_neq chan "")) by done.
  cbn [andb]. rewrite existsb_filter, (route_payload p) by done.
  change (w_in_filters (upd_tr _ (sl_world s))) with (w_in_filters (sl_world s)).
  rewrite (bool_decide_eq_true_2 (router_filter ∈ _)) by apply Hok.
  destruct (owner s chan) as [so|]; cbn [fst snd negb andb]; [by cbn|].
  assert (forall fs, existsb (fun _ => false) fs = false) as -> by (intros fs; induction fs; done).
  cbn. by rewrite app_nil_r.
Qed.

(** ** What frames get through *)

(** The trace of the transport has only grown, by what [P] allows. *)
Definition trace_grows (P : effect -> Prop) (w w' : Transport.world) : Prop :=
  exists new, w_trace w' = w_trace w ++ new /\ Forall P new.

Definition sends (P : effect -> Prop) (s s' : shell) : Prop := trace_grows P (sl_world s) (sl_world s').

#[export] Instance trace_grows_preorder P : PreOrder (trace_grows P).
Proof.
  split.
  - intros s. exists []. by rewrite app_nil_r.
  - intros a b c (l & H & Hl) (l' & H' & Hl'). exists (l ++ l'). rewrite H', H, app_assoc. split; [done|].
    by apply Forall_app.
Qed.

#[export] Instance sends_preorder P : PreOrder (sends P).
Proof. split; unfold sends; [intros s; reflexivity|intros a b c ? ?; by etrans]. Qed.

Lemma sends_none P s s' : w_trace (sl_world s') = w_trace (sl_world s) -> sends P s s'.
Proof. intros H. exists []. by rewrite H, app_nil_r. Qed.

(** What the page's navigation sends of its own. *)
Context (Q : effect -> Prop) `{!Navigation (trace_grows Q) nav}.

#[local] Instance keeps_sends (P : effect -> Prop) A (m : M A) :
  Keeps (ShellKeeps.same_router (trace_grows Q)) m -> Keeps (sends (fun e => P e \/ Q e)) m.
Proof.
  intros H s. destruct (sr_world _ _ _ (H s)) as (new & E & Hq). exists new. split; [done|].
  eapply Forall_impl; [exact Hq|]. by right.
Qed.

(** An open command has the name of its frame as its group, and the frame has
    registered; nothing is sent as binary. *)
Definition open_allowed (name : string) (known : bool) (e : effect) : Prop :=
  match e with
  | EWsSend (WText t) =>
      forall j c, t = nl +:+ j -> JSON_parse j = Some c -> is_str (prop c "command") "open" = true ->
        prop c "group" = JStr name /\ known = true
  | EWsSend (WBinary _) => False
  | _ => True
  end.

(** Members that are strings survive. *)
Context (JSON_strings : forall o k str c, o !! k = Some (JStr str) -> JSON_parse (JSON_stringify o) = Some c ->
  c !! k = Some (JStr str)).

Lemma stringified o k str c : JSON_parse (JSON_stringify (<[k := JStr str]> o)) = Some c -> prop c k = JStr str.
Proof. intros H. unfold prop. by rewrite (JSON_strings (<[k := JStr str]> o) k str c) by (done || apply lookup_insert_eq). Qed.

(** Allowed to a frame, or sent by navigation. *)
#[local] Notation allowed n known := (fun e => open_allowed n known e \/ Q e).

Ltac no_sends := exists []; cbn; by rewrite app_nil_r.

Lemma send_data_trace P m c k w :
  P (EWsSend m) -> exists new, w_trace (fst (send_data JSON_parse out_filter m c k w)) = w_trace w ++ new /\ Forall P new.
Proof.
  intros Hm. unfold send_data. destruct (ws_of w); [|no_sends].
  destruct (run_out_filters _ _ _ _ _ _) as [[]|]; cbn; [|no_sends..].
  exists [EWsSend m]. by split; [|constructor].
Qed.

(** The controls that the shell itself sends are not open. *)
Lemma public_control_trace n known command o w :
  command <> "open" ->
  exists new, w_trace (public_control JSON_stringify JSON_parse out_filter ws command o w) = w_trace w ++ new /\
    Forall (allowed n known) new.
Proof.
  intros Hc. unfold public_control, ensure_transport.
  destruct (w_tr w) as [t|] eqn:E; cbn; rewrite ?E; cbn; [|no_sends]. destruct (t_ready t); [|no_sends].
  unfold send_control. rewrite E.
  repeat match goal with |- context [if ?b then _ else _] => destruct b end; [no_sends..|].
  apply send_data_trace. left. cbn. intros j c [= <-] ->%stringified.
  cbn. intros ?%String.eqb_eq. congruence.
Qed.

#[local] Instance sends_unregister n known f : Keeps (sends (allowed n known)) (unregister_found f).
Proof.
  destruct f as [| |r]; cbn [Shell.unregister_found]; [exact _..|]. intros s. rewrite unregister_eq.
  destruct (wn_name _) as [name|]; [|by apply sends_none]. unfold sends. cbn [fst]. rewrite unregistered_world.
  by apply public_control_trace.
Qed.

#[local] Instance sends_hint n known h o :
  Keeps (sends (allowed n known)) (cockpit_hint JSON_stringify JSON_parse out_filter ws h o).
Proof.
  intros s. unfold cockpit_hint, modify, sends. cbn. destruct (w_tr _); [by apply public_control_trace|].
  no_sends.
Qed.

Lemma sends_inject P m : P (EWsSend m) -> Keeps (sends P) (inject_out JSON_stringify JSON_parse out_filter m).
Proof.
  intros Hm s. unfold inject_out, inject. destruct (w_tr _) as [t|] eqn:E.
  - pose proof (send_data_trace P m None None (sl_world s) Hm) as H.
    by destruct (send_data _ _ _ _ _ _) as [w r].
  - by apply sends_none.
Qed.

#[local] Instance sends_init n known child control f : Keeps (sends (allowed n known)) (handle_init child control f).
Proof.
  unfold Shell.handle_init, Shell.register, answer_init. cbv zeta.
  keep_with ltac:(solve [intros ?; by apply sends_none | by apply (keeps_sends (open_allowed n known)); keep]).
Qed.

#[local] Instance sends_control n known child data f control :
  Keeps (sends (allowed n known)) (handle_control child data f control).
Proof. unfold Shell.handle_control. cbv zeta. keep. Qed.

Lemma handled_only A (m : M A) s s' f d : bind m (fun _ => ret Handled) s = (s', Ok (Forward f d)) -> False.
Proof. unfold bind. by destruct (m s) as [s1 [| |]]. Qed.

(** What is forwarded of a control message. *)
Lemma forward_allowed child n rest f control s s' f' d :
  wn_name (win child s) = Some n -> JSON_parse rest = Some control ->
  handle_control child (nl +:+ rest) f control s = (s', Ok (Forward f' d)) -> f' <> Nothing ->
  open_allowed n (bool_decide (f <> Nothing)) (EWsSend (WText d)).
Proof.
  intros Hn Hj Hh Hf.
  assert (forall command, command <> "open" -> is_str (prop control "command") command = true ->
    open_allowed n (bool_decide (f <> Nothing)) (EWsSend (WText (nl +:+ rest)))) as Hother.
  { intros command Hc Hcom j c [= <-]. rewrite Hj. intros [= <-]. revert Hcom. unfold is_str.
    destruct (prop control "command"); try done. intros ->%String.eqb_eq ->%String.eqb_eq. done. }
  revert Hh. unfold Shell.handle_control. cbv zeta.
  destruct (is_str _ "init") eqn:Ei.
  { unfold bind. destruct (handle_init _ _ _ _) as [s1 [| |]]; [|done..]. intros [= <- <- <-]. by apply (Hother "init"). }
  destruct (is_str _ "jump"); [by intros []%handled_only|].
  destruct (is_str _ "logout") eqn:El; [intros [= <- <- <-]; by apply (Hother "logout")|].
  destruct (is_str _ "kill") eqn:Ek; [intros [= <- <- <-]; by apply (Hother "kill")|]. cbn [orb].
  destruct (is_str _ "hint"); [by intros []%handled_only|].
  destruct (is_str _ "oops"); [by intros []%handled_only|].
  assert (is_str (prop control "command") "open" = false -> open_allowed n (bool_decide (f <> Nothing))
    (EWsSend (WText (nl +:+ rest)))) as Hnot.
  { intros Ho j c [= <-]. rewrite Hj. intros [= <-]. by rewrite Ho. }
  destruct (prop control "channel"); [done|..];
    (destruct (is_str _ "open") eqn:Eo;
     [unfold bind, win_name; rewrite Hn; intros [= <- <- <-]; intros j c [= <-] Hg _; split;
      [by eapply stringified|by apply bool_decide_eq_true]
     |intros [= <- <- <-]; by apply Hnot]).
Qed.

(** C32. A frame cannot open channels in the name of another.  Whatever text a
    window of the same origin sends to the shell, everything that goes out to the
    transport while it is handled is sent by the page's navigation for itself
    ([Q]; the simple index sends nothing), or is text, and if it is an open command
    it has the name of that window as its group (the group that is killed when the
    frame unloads) and goes out only if looking up the name finds something: a
    registered frame, or one of the members that every object has, which the lookup
    takes for one ([inherited_name_passes]).  JSON is assumed to keep members that
    are strings. *)
Theorem opens_carry_group o text child s n :
  wn_name (win child s) = Some n ->
  exists new, w_trace (sl_world (fst (message_handler o (Some (WText text)) (Some child) s))) =
    w_trace (sl_world s) ++ new /\
    Forall (fun e => open_allowed n (bool_decide (lookup_name n s <> Nothing)) e \/ Q e) new.
Proof.
  intros Hn. set (known := bool_decide _). unfold Shell.message_handler.
  destruct (negb _); [cbn; no_sends|]. unfold bind at 1, get. rewrite Hn. cbv zeta.
  destruct text as [|c rest]; [apply sends_unregister|].
  unfold bind at 1. set (v := if Ascii.eqb c nl_char then _ else _).
  assert (sends (allowed n known) s (fst (v s))) as H1.
  { unfold v. destruct (Ascii.eqb _ _); [|by apply sends_none]. destruct (JSON_parse rest); [|by apply sends_none].
    apply sends_control. }
  assert (forall s1 f d, v s = (s1, Ok (Forward f d)) -> f <> Nothing -> open_allowed n known (EWsSend (WText d))) as H2.
  { unfold v. intros s1 f d. destruct (Ascii.eqb_spec c nl_char) as [->|Hc].
    - destruct (JSON_parse rest) as [control|] eqn:Ej; [|done].
      change (String nl_char rest) with (nl +:+ rest). by apply forward_allowed.
    - intros [= <- <- <-] _ j x [=]. congruence. }
  destruct (v s) as [s1 [[|f d]| |]]; cbn [fst] in *; [exact H1| |exact H1..].
  change (sends (allowed n known) s (fst (match f with Nothing => effect_ EWarn | _ =>
    inject_out JSON_stringify JSON_parse out_filter (WText d) end s1))).
  etrans; [exact H1|]. destruct f; [by apply sends_none|..]; (apply sends_inject; left; by eapply H2).
Qed.

End Router.

(** ** The simple index *)

(** A step of another part. *)
Ltac other_part :=
  apply RElse;
  match goal with
  | |- same_router _ (fst (?m _)) => let K := fresh in enough (Keeps same_router m) as K by apply K
  end;
  keep_with same_now.

(** What its page receives are steps of the router. *)
Lemma simple_step p st jp out react ws root origin embedded privileges visible cmp compiled title s i :
  let step := step st jp out react ws root origin embedded privileges visible cmp compiled title in
  let nav := simple_navigate st root embedded visible cmp compiled title in
  announces p (sl_world (step s i)) ->
  router_step st jp out react ws root origin embedded privileges nav p s (step s i).
Proof.
  cbv zeta. unfold step. intros Ha. destruct i; cbn [handle] in *.
  - apply RMessage.
  - assert (fst (bind (receive st jp out react privileges message) (fun _ => ret tt) s) =
      fst (receive st jp out react privileges message s)) as E.
    { unfold bind. by destruct (receive _ _ _ _ _ _ _) as [s1 [| |]]. }
    rewrite E in *. by apply RReceive.
  - apply RUnload.
  - apply RHashchange.
  - other_part.
  - other_part.
  - other_part.
  - other_part.
  - other_part.
  - by apply (RWorld _ _ _ _ _ _ _ _ _ _ p s w).
Qed.

(** ** Examples *)

(** The name that [Frames] gives to a window names its host to the router. *)
Lemma frame_name_host host component :
  str_mem "/" host = false -> name_host (frame_name host component) = host.
Proof.
  intros Hh. unfold frame_name, name_host.
  change ("cockpit1:" +:+ host +:+ "/" +:+ component) with ("cockpit1:" +:+ (host +:+ "/" +:+ component)).
  rewrite (proj2 (prefix_spec _ _)) by eauto.
  assert (forall x, String.substring 9 (String.length ("cockpit1:" +:+ x)) ("cockpit1:" +:+ x) = x) as ->.
  { intros x. cbn. assert (forall n, (String.length x <= n)%nat -> String.substring 0 n x = x) as H.
    { induction x as [|c x IH]; intros [|n] Hn; cbn in *; try done; try lia. f_equal. apply IH. lia. }
    apply H. lia. }
  change ("/" +:+ component) with (String "/" component).
  by destruct (split_first "/" host component Hh) as (y & l & ->).
Qed.

(** A shell with one frame, and a notation for objects: the strings in them, as
    bits. *)
Module Sample.

Fixpoint bits (p : positive) : string :=
  match p with xH => "" | xO p => String "0" (bits p) | xI p => String "1" (bits p) end.

Fixpoint unbits (s : string) : option positive :=
  match s with
  | EmptyString => Some xH
  | String c s => p ← unbits s;
      if Ascii.eqb c "0" then Some (xO p) else if Ascii.eqb c "1" then Some (xI p) else None
  end.

Lemma unbits_bits p : unbits (bits p) = Some p.
Proof. by induction p as [p IH|p IH|]; cbn; rewrite ?IH. Qed.

Definition strings (o : jobj) : gmap string string := omap (fun v => match v with JStr s => Some s | _ => None end) o.

Definition text (o : jobj) : string := bits (countable.encode (strings o)).

Definition strings_of (p : positive) : option (gmap string string) := countable.decode p.

Definition value (s : string) : option jobj :=
  match unbits s with
  | Some p => match strings_of p with Some m => Some (JStr <$> m) | None => None end
  | None => None
  end.

Lemma strings_kept o k str c : o !! k = Some (JStr str) -> value (text o) = Some c -> c !! k = Some (JStr str).
Proof.
  intros Hk. unfold value, text, strings_of. rewrite unbits_bits, decode_encode. intros [= <-].
  rewrite lookup_fmap. unfold strings. by rewrite lookup_omap, Hk.
Qed.

Definition no_filter (f : nat) (m : wire) (chan : option string) (control : option jobj) : bool := false.

Definition base : Transport.world :=
  add_filter router_filter false
    (initial_world <| w_tr := Some (new_transport BrowserSocket <| t_ready := true |>) |>
                   <| w_public_options := {["channel-seed" := JStr "1:"]} |>).

(** Window 1 is in frame 2; window 4 is called constructor. *)
Definition start : shell :=
  mk_shell base
    {[1%nat := mk_window (Some "cockpit1:localhost/system") false (Some 2%nat) (Some "") true false;
      4%nat := mk_window (Some "constructor") false None (Some "") true false]}
    {[2%nat := mk_iframe "cockpit1:localhost/system" None "" false false (Some 1%nat) None "" false]}
    5 [] 0 ∅ [] [] None ∅ None "/" "" None [].

Definition stay (n : option nat) : M unit := ret tt.

#[global] Instance stay_navigation W `{!PreOrder W} : Navigation W stay.
Proof. intros n. exact _. Qed.

Definition says (data : string) (w : nat) (s : shell) : shell :=
  fst (message_handler text value no_filter BrowserSocket "" "o" false stay "o" (Some (WText data)) (Some w) s).

Definition init : jobj := {["command" := JStr "init"]}.

Definition inited : shell := says (nl +:+ text init) 1 start.

Lemma inited_reachable :
  reachable text value no_filter passive BrowserSocket "" "o" false false stay "1:" inited.
Proof.
  apply reach_step with (s := start); [|apply RMessage]. apply reach_start; try done.
  split; [done|]. apply list_elem_of_singleton. done.
Qed.

(** What the frame is told: its seed, and that it is hidden. *)
Example init_answered : sl_effects inited =
  [EPost 1 (WText (nl +:+ text (<["command" := JStr "init"]> (<["channel-seed" := JStr "1:1!"]>
     {["host" := JStr "localhost"]}))));
   EPost 1 (WText (nl +:+ text (<["command" := JStr "hint"]> {["hidden" := JBool true]})))].
Proof. vm_compute. reflexivity. Qed.

Definition open (chan : string) : jobj := <["command" := JStr "open"]> {["channel" := JStr chan]}.

(** What goes out: the init as it was, and what it opens with its group.  The
    comment on what is forwarded says that only control messages with a channel
    are, but init is, too. *)
Example group_added : w_trace (sl_world (says (nl +:+ text (open "1:1!4")) 1 inited)) =
  [EWsSend (WText (nl +:+ text init));
   EWsSend (WText (nl +:+ text (<["group" := JStr "cockpit1:localhost/system"]> (open "1:1!4"))))].
Proof. vm_compute. reflexivity. Qed.

(** A window that has not said init is not known, unless its name is that of a
    member that every object has: the router takes it for registered, and passes
    on what it sends. *)
Lemma inherited_name_passes :
  sl_by_name start = [] /\
  w_trace (sl_world (says (nl +:+ text (open "1:1!4")) 4 start)) =
    [EWsSend (WText (nl +:+ text (<["group" := JStr "constructor"]> (open "1:1!4"))))] /\
  w_trace (sl_world (says (nl +:+ text (open "1:1!4")) 1 start)) = [].
Proof. split_and!; vm_compute; reflexivity. Qed.

(** When the shell is itself in a frame of a shell, the seed that it announces has
    an exclamation mark before its end.  The router cuts a channel at the first
    one, so that it does not find the frame of any channel. *)
Definition nested : shell :=
  start <| sl_world ::= (fun w => w <| w_public_options := {["channel-seed" := JStr "1:7!"]} |>) |>.

Lemma nested_not_routed :
  let s := says (nl +:+ text init) 1 nested in
  let m := WText ("1:7!1!4" +:+ nl +:+ "x") in
  so_seed <$> owner s "1:7!1!4" = Some "1:7!1!" /\
  sl_effects (fst (receive text value no_filter passive false m s)) = sl_effects s.
Proof. split; vm_compute; reflexivity. Qed.

(** A window of the right name without a frame: the tables have it, although
    registering it throws before it is answered. *)
Lemma frameless_stays_registered :
  let s := start <| sl_windows ::= <[5%nat := mk_window (Some "cockpit1:localhost/x") false None (Some "") true false]> |> in
  map fst (sl_by_name (says (nl +:+ text init) 5 s)) = ["cockpit1:localhost/x"] /\
  sl_effects (says (nl +:+ text init) 5 s) = [].
Proof. split; vm_compute; reflexivity. Qed.

End Sample.

Lemma payload_routed_witness :
  exists so, owner Sample.inited "1:1!4" = Some so /\
    sl_effects (fst (receive Sample.text Sample.value Sample.no_filter passive false (WText ("1:1!4" +:+ nl +:+ "x"))
      Sample.inited)) =
    sl_effects Sample.inited ++ deliver so (WText ("1:1!4" +:+ nl +:+ "x")) Sample.inited.
Proof.
  set (m := WText ("1:1!4" +:+ nl +:+ "x")).
  assert (parse_channel m = Some "1:1!4") as Hm by reflexivity.
  assert ("1:1!4" <> "") as Hc by done.
  destruct (payload_routed Sample.text Sample.value Sample.no_filter passive BrowserSocket "" "o" false false Sample.stay "1:"
    Sample.inited m "1:1!4" Sample.inited_reachable eq_refl Hm Hc) as [_ H].
  assert (owner Sample.inited "1:1!4" = Some (mk_source "cockpit1:localhost/system" 1 "1:1!" "localhost" true)) as Ho
    by (vm_compute; reflexivity).
  rewrite Ho in H. destruct H as [H _]. eexists. split; [exact Ho|exact H].
Defined.

(** Navigation that opens a channel of the page's own, as the index of several
    machines does. *)
Definition machines_open : effect := EWsSend (WText (nl +:+ Sample.text (Sample.open "1:2"))).
Definition machines_nav (n : option nat) : M unit := modify (fun s => s <| sl_world ::= emit machines_open |>).

#[global] Instance machines_navigation : Navigation (trace_grows (eq machines_open)) machines_nav.
Proof.
  intros n s. split; try done. exists [machines_open]. split; [done|]. by apply Forall_singleton.
Qed.

Lemma opens_carry_group_witness :
  wn_name (win 1 Sample.inited) = Some "cockpit1:localhost/system" /\
  exists new, w_trace (sl_world (fst (message_handler Sample.text Sample.value Sample.no_filter BrowserSocket "" "o"
      false machines_nav "o" (Some (WText (nl +:+ Sample.text (Sample.open "1:1!4")))) (Some 1%nat) Sample.inited))) =
    w_trace (sl_world Sample.inited) ++ new /\
    Forall (fun e => open_allowed Sample.value "cockpit1:localhost/system"
      (bool_decide (lookup_name "cockpit1:localhost/system" Sample.inited <> Nothing)) e \/ machines_open = e) new.
Proof.
  assert (wn_name (win 1 Sample.inited) = Some "cockpit1:localhost/system") as H by (vm_compute; reflexivity).
  split; [exact H|].
  exact (opens_carry_group Sample.text Sample.value Sample.no_filter BrowserSocket "" "o" false machines_nav
    (eq machines_open) Sample.strings_kept "o" (nl +:+ Sample.text (Sample.open "1:1!4")) 1%nat Sample.inited _ H).
Defined.
