(* ===== verification/ShellNavigate.v ===== *)
(** * The navigation of the shell ends

    Navigating looks up a frame; a frame that is ready navigates again.  It ends
    since a frame does so only once: the depth is bounded by the frames that are
    not ready, and nothing the browser or the frames do can make it run on. *)

From S2P Require Import Prelude Location Transport ShellState Shell ShellSimple ShellKeeps.
#[local] Open Scope shell_scope.

(** ** Operations that do not navigate *)

Class Ends {A} (m : M A) : Prop := ends : forall s, snd (m s) <> OutOfFuel.

#[export] Instance ends_ret A (a : A) : Ends (ret a).
Proof. done. Qed.
#[export] Instance ends_throw A : Ends (@throw A).
Proof. done. Qed.
#[export] Instance ends_get : Ends get.
Proof. done. Qed.
#[export] Instance ends_gets A (f : shell -> A) : Ends (gets f).
Proof. done. Qed.
#[export] Instance ends_modify f : Ends (modify f).
Proof. done. Qed.
#[export] Instance ends_effect e : Ends (effect_ e).
Proof. done. Qed.
#[export] Instance ends_win_name w : Ends (win_name w).
Proof. intros s. unfold win_name. by destruct (wn_name _). Qed.

Lemma ends_bind_at A B (m : M A) (k : A -> M B) s :
  snd (m s) <> OutOfFuel -> (forall s1 a, m s = (s1, Ok a) -> snd (k a s1) <> OutOfFuel) ->
  snd (bind m k s) <> OutOfFuel.
Proof. intros Hm Hk. unfold bind. destruct (m s) as [s1 [a| |]]; [by apply Hk|done|done]. Qed.

Lemma ends_bind A B (m : M A) (k : A -> M B) : Ends m -> (forall a, Ends (k a)) -> Ends (bind m k).
Proof. intros Hm Hk s. apply ends_bind_at; [apply Hm|intros; apply Hk]. Qed.

Lemma ends_when b m : Ends m -> Ends (when_ b m).
Proof. intros H. by destruct b. Qed.

Ltac end_ :=
  repeat match goal with
  | |- Ends (bind _ _) => apply ends_bind; [|intros ?]
  | |- Ends (when_ _ _) => apply ends_when
  | |- Ends (if ?b then _ else _) => destruct b
  | |- Ends (match ?x with _ => _ end) => destruct x
  | |- Ends _ => solve [typeclasses eauto]
  end.

#[export] Instance ends_upd_iframe i f : Ends (upd_iframe i f).
Proof. done. Qed.
#[export] Instance ends_upd_nav i f : Ends (upd_nav i f).
Proof. done. Qed.
#[export] Instance ends_retrieve root e : Ends (retrieve_state root e).
Proof.
  intros s. unfold retrieve_state, decode.
  destruct (sl_history s); [destruct (nv_v1 _)|]; try destruct (decode_state _ _ _); done.
Qed.
#[export] Instance ends_set_history e n t : Ends (set_history e n t).
Proof.
  intros s. unfold set_history. destruct t as [url|]; [|done].
  by destruct (match str_cut "#" url with Some _ => _ | None => _ end) as [path hash].
Qed.
#[export] Instance ends_hint st w d : Ends (hint st w d).
Proof. unfold hint, post. end_. Qed.
#[export] Instance ends_current_frame st f : Ends (current_frame st f).
Proof. unfold current_frame. end_. Qed.
#[export] Instance ends_replace root e nav n : Ends (jump root e nav n true).
Proof. unfold jump. cbv zeta. end_. Qed.
#[export] Instance ends_hide f : Ends (hide f).
Proof. unfold hide. end_. Qed.
#[export] Instance ends_choose cmp its n : Ends (choose_dashboard cmp its n).
Proof. unfold choose_dashboard. end_. Qed.
#[export] Instance ends_navbar its n : Ends (update_navbar its n).
Proof. unfold update_navbar. end_. Qed.

(** ** The frames that are not ready *)

Definition unready (s : shell) : gset nat := dom (filter (fun p => f_ready (snd p) = false) (sl_iframes s)).

Lemma elem_of_unready i s : i ∈ unready s <-> exists x, sl_iframes s !! i = Some x /\ f_ready x = false.
Proof.
  unfold unready. rewrite elem_of_dom. split.
  - intros [x [H1 H2]%map_lookup_filter_Some]. by exists x.
  - intros (x & H1 & H2). exists x. by apply map_lookup_filter_Some.
Qed.

Lemma unready_subset s s' :
  (forall i x, sl_iframes s' !! i = Some x -> f_ready x = false ->
    exists y, sl_iframes s !! i = Some y /\ f_ready y = false) -> unready s' ⊆ unready s.
Proof. intros H i (x & Hx & Hr)%elem_of_unready. apply elem_of_unready. by eapply H. Qed.

(** What of the state tells where to navigate. *)
Definition same_place (s s' : shell) : Prop :=
  sl_navs s' = sl_navs s /\ sl_history s' = sl_history s /\ sl_pathname s' = sl_pathname s /\
  sl_hash s' = sl_hash s /\ sl_problem s' = sl_problem s.

#[export] Instance same_place_preorder : PreOrder same_place.
Proof. split; [by repeat split|]. intros a b c (?&?&?&?&?) (?&?&?&?&?). repeat split; congruence. Qed.

Lemma unready_alter i f s :
  (forall x, f_ready (f x) = f_ready x) -> unready (s <| sl_iframes ::= alter f i |>) ⊆ unready s.
Proof.
  intros Hf. apply unready_subset. cbn. intros j x Hx Hr. rewrite lookup_alter in Hx. case_decide; subst; [|eauto].
  destruct (sl_iframes s !! j) as [y|]; [|done]. injection Hx as <-. rewrite Hf in Hr. eauto.
Qed.

(** Where to navigate and which frames are ready stay as they are. *)
Definition quiet (s s' : shell) : Prop := same_place s s' /\ unready s' ⊆ unready s.

#[export] Instance quiet_preorder : PreOrder quiet.
Proof.
  split; [by split|]. intros a b c [H1 H2] [H3 H4]. split; [by etrans|]. by etrans.
Qed.

#[export] Instance quiet_remove_frame f : Keeps quiet (remove_frame f).
Proof.
  intros s. unfold remove_frame. split; [by destruct (f_window _)|].
  etrans; [by apply unready_alter|]. by destruct (f_window _).
Qed.

#[export] Instance quiet_set_list a f : Keeps quiet (set_list a f).
Proof. by intros s. Qed.

#[export] Instance quiet_listed a c n : Keeps quiet (listed_frame a c n).
Proof. unfold listed_frame. keep. Qed.

#[export] Instance quiet_preloaded a c n : Keeps quiet (preloaded_frame a c n).
Proof.
  unfold preloaded_frame. keep_with ltac:(idtac). intros s1. split; [done|]. by apply unready_alter.
Qed.

Lemma frames_of_set address f s : frames_of address (fst (set_list address f s)) = f (frames_of address s).
Proof. unfold frames_of at 1. cbn. by rewrite assoc_get_set, String.eqb_refl. Qed.

(** Frames with a name or a source are in the store. *)
Lemma iframe_live i s : iframe_of i s <> no_iframe -> is_Some (sl_iframes s !! i).
Proof. unfold iframe_of. destruct (sl_iframes s !! i); [by eexists|done]. Qed.

(** The frame that is found for a component, if one is. *)
Lemma found_frame address component name s :
  name <> "" ->
  let find := bind (listed_frame address component name) (fun frame =>
    match frame with Some f => ret (Some f) | None => preloaded_frame address component name end) in
  match find s with
  | (s', Ok (Some f)) => is_Some (sl_iframes s' !! f) /\ assoc_get component (frames_of address s') = Some f
  | (s', Ok None) => True
  | (s', Thrown) => True
  | (s', OutOfFuel) => False
  end.
Proof.
  intros Hname find. unfold find, bind at 1, listed_frame, bind at 1, get.
  assert (forall s1, match preloaded_frame address component name s1 with
    | (s', Ok (Some f)) => is_Some (sl_iframes s' !! f) /\ assoc_get component (frames_of address s') = Some f
    | (s', Ok None) => True
    | (s', Thrown) => True
    | (s', OutOfFuel) => False
    end) as Hpre.
  { intros s1. unfold preloaded_frame, bind at 1, get.
    destruct (named_window name s1 ≫= (fun w => wn_frame (win w s1))) as [f|]; [|exact I].
    destruct (f_src (iframe_of f s1)) as [src|] eqn:Es; [|exact I]. cbn. split.
    - rewrite lookup_alter_is_Some. apply iframe_live. intros E. by rewrite E in Es.
    - unfold frames_of. cbn. by rewrite !assoc_get_set, !String.eqb_refl; cbn; rewrite assoc_get_set, String.eqb_refl. }
  destruct (assoc_get component (frames_of address s)) as [f|] eqn:Ef; [|apply Hpre].
  destruct (String.eqb_spec (f_name (iframe_of f s)) name) as [En|_].
  - cbn. split; [|done]. apply iframe_live. intros E. by rewrite E in En.
  - unfold bind at 1. destruct (remove_frame f s) as [s1 [[]| |]] eqn:Er; [apply Hpre|done|].
    unfold remove_frame in Er. simplify_eq.
Qed.

(** ** Looking up a frame *)

Lemma bind_assoc A B C (m : M A) (k : A -> M B) (l : B -> M C) s :
  bind (bind m k) l s = bind m (fun a => bind (k a) l) s.
Proof. unfold bind. by destruct (m s) as [s1 [a| |]]. Qed.

Lemma bind_ok A B (m : M A) (k : A -> M B) s s1 a : m s = (s1, Ok a) -> bind m k s = k a s1.
Proof. unfold bind. by intros ->. Qed.

Lemma bind_thrown A B (m : M A) (k : A -> M B) s s1 : m s = (s1, Thrown) -> bind m k s = (s1, Thrown).
Proof. unfold bind. by intros ->. Qed.

Section Navigate.
Context (st : jobj -> string) (root : string) (embedded visible : bool).
Context (cmp : string -> string -> Z) (compiled : items) (title : string).

#[local] Notation navigate := (navigate st root embedded visible cmp compiled title).
#[local] Notation local_name := (frame_name "localhost").

(** Looking up ends in [frame_ready] of a frame that is listed from then on; it is
    one that was there, or one of the right name that is new. *)
Lemma lookup_shape nav c hash s :
  (exists s', lookup visible nav MNone c hash s = (s', Thrown)) \/
  exists f s', lookup visible nav MNone c hash s = bind (frame_ready nav f 0) (fun _ => ret f) s' /\
    same_place s s' /\ assoc_get c (frames_of "localhost" s') = Some f /\ is_Some (sl_iframes s' !! f) /\
    (unready s' ⊆ unready s \/ (f_name (iframe_of f s') = local_name c /\ unready s' ⊆ {[f]} ∪ unready s)).
Proof.
  unfold lookup. change (lookup_host MNone) with ("localhost", "localhost"). cbv beta iota zeta.
  set (s0 := fst (set_list "localhost" id s)).
  rewrite (bind_ok _ _ (set_list "localhost" id) _ s s0 tt eq_refl).
  assert (quiet s s0) as Hq0 by apply quiet_set_list.
  assert (local_name c <> "") as Hname by (unfold frame_name; cbn; congruence).
  pose proof (found_frame "localhost" c (local_name c) s0 Hname) as Hfind. cbv zeta in Hfind.
  rewrite <- bind_assoc. set (find := bind (listed_frame "localhost" c (local_name c)) _) in *.
  assert (Keeps quiet find) as Hq by (unfold find; keep). specialize (Hq s0).
  destruct (find s0) as [s1 [[f|]| |]] eqn:Ef; [right|right|left|done]; cbn [fst] in Hq;
    [|rewrite (bind_ok _ _ find _ s0 s1 None Ef)|rewrite (bind_thrown _ _ find _ s0 s1 Ef); by eexists].
  - rewrite (bind_ok _ _ find _ s0 s1 (Some f) Ef). destruct Hfind as [Hlive Hget].
    exists f. eexists. split; [reflexivity|]. destruct (transitivity Hq0 Hq) as [Hp Hu].
    split_and!; [exact Hp|exact Hget|by cbn; rewrite lookup_alter_is_Some|].
    left. etrans; [by apply unready_alter|exact Hu].
  - destruct (transitivity Hq0 Hq) as [Hp Hu]. set (f := sl_next s1). exists f. eexists.
    split; [reflexivity|]. split_and!.
    + exact Hp.
    + unfold frames_of at 1. cbn. by rewrite assoc_get_set, String.eqb_refl; cbn; rewrite assoc_get_set, String.eqb_refl.
    + cbn. rewrite !lookup_alter_is_Some, lookup_insert_eq. by eexists.
    + right. split.
      * unfold iframe_of. cbn. by rewrite lookup_alter_eq, lookup_alter_eq, lookup_insert_eq.
      * etrans; [by apply unready_alter|]. etrans; [by apply (unready_alter f _ (s1 <| sl_iframes ::= _ |>))|].
        intros i (x & Hx & Hr)%elem_of_unready. cbn in Hx.
        destruct (decide (i = f)) as [->|Hne]; [set_solver|]. apply elem_of_union_r, Hu, elem_of_unready.
        exists x. by rewrite lookup_insert_ne in Hx.
Qed.

(** ** Where the page is *)

Definition component_of (n : nat) (s : shell) : string := default "" (nv_component (nav_of n s)).

Definition chosen (c : string) : string :=
  match c, ordered cmp "dashboard" compiled with EmptyString, i :: _ => it_path i | _, _ => c end.

Lemma chosen_again c : chosen (chosen c) = chosen c.
Proof.
  unfold chosen. destruct c as [|a c]; [|done]. destruct (ordered _ _ _) as [|i l]; [done|].
  by destruct (it_path i).
Qed.

(** The object of the history, when it is of this version, and the URL. *)
Definition current_nav (s : shell) : option nat :=
  match sl_history s with Some h => if nv_v1 (nav_of h s) then Some h else None | None => None end.

Definition place_url (s : shell) : string := if embedded then "/" +:+ sl_hash s else sl_pathname s +:+ sl_hash s.

Definition place_component (s : shell) : option string :=
  match current_nav s with
  | Some h => Some (component_of h s)
  | None => s_component <$> decode_state root [] (place_url s)
  end.

(** The component that [navigate] shows when it is not given a state. *)
Definition target (s : shell) : option string := chosen <$> place_component s.

Lemma target_same s s' : same_place s s' -> target s' = target s.
Proof.
  intros (Hn & Hh & Hp & Hx & _). unfold target, place_component, current_nav, place_url, component_of, nav_of. by rewrite Hn, Hh, Hp, Hx.
Qed.

Lemma nav_of_insert n x m s :
  nav_of m (s <| sl_navs ::= <[n := x]> |> <| sl_next ::= S |>) = if decide (m = n) then x else nav_of m s.
Proof. unfold nav_of. cbn. case_decide; subst; by rewrite ?lookup_insert_eq, ?lookup_insert_ne. Qed.

Definition decoded (x : nav_state) : nav_object :=
  mk_nav true (Some (s_host x)) (Some (s_component x)) (JStr (s_hash x)) (s_sidebar x).

Lemma retrieve_cases s s0 n :
  retrieve_state root embedded s = (s0, Ok n) ->
  (current_nav s = Some n /\ s0 = s) \/
  (exists x, current_nav s = None /\ decode_state root [] (place_url s) = Some x /\ n = sl_next s /\
     s0 = s <| sl_navs ::= <[n := decoded x]> |> <| sl_next ::= S |>).
Proof.
  unfold retrieve_state, decode, current_nav. fold (place_url s).
  assert (forall (o : option nav_state), (match o with
    | Some x => alloc_nav (decoded x) s | None => (s, Thrown) end) = (s0, Ok n) ->
    exists x, o = Some x /\ n = sl_next s /\ s0 = s <| sl_navs ::= <[n := decoded x]> |> <| sl_next ::= S |>) as Hd.
  { intros [x|]; [|done]. unfold alloc_nav. intros [= <- <-]. by exists x. }
  destruct (sl_history s) as [h|]; [destruct (nv_v1 (nav_of h s))|].
  - intros [= <- <-]. by left.
  - intros H. right. destruct (Hd _ H) as (x & ? & ? & ?). by exists x.
  - intros H. right. destruct (Hd _ H) as (x & ? & ? & ?). by exists x.
Qed.

Lemma retrieve_place s s0 n :
  retrieve_state root embedded s = (s0, Ok n) ->
  is_Some (sl_navs s0 !! n) /\ place_component s = Some (component_of n s0) /\
  place_component s0 = Some (component_of n s0) /\ sl_iframes s0 = sl_iframes s /\ sl_lists s0 = sl_lists s.
Proof.
  intros [[Hn ->]|(x & Hn & Hx & -> & ->)]%retrieve_cases.
  - unfold place_component. rewrite Hn. split_and!; try done. unfold current_nav in Hn.
    destruct (sl_history s) as [h|]; [|done]. destruct (nv_v1 (nav_of h s)) eqn:Ev; simplify_eq.
    unfold nav_of in Ev. destruct (sl_navs s !! n); [by eexists|done].
  - assert (component_of (sl_next s) (s <| sl_navs ::= <[sl_next s := decoded x]> |> <| sl_next ::= S |>) =
      s_component x) as Ec by (unfold component_of; by rewrite nav_of_insert, decide_True).
    rewrite Ec. unfold place_component at 1. rewrite Hn, Hx.
    split_and!; [cbn; rewrite lookup_insert_eq; by eexists|done| |done|done].
    unfold place_component, current_nav in *. cbn [sl_history set_field].
    change (place_url (s <| sl_navs ::= _ |> <| sl_next ::= S |>)) with (place_url s). rewrite Hx.
    change (sl_history (s <| sl_navs ::= _ |> <| sl_next ::= S |>)) with (sl_history s).
    destruct (sl_history s) as [h|]; [|done]. rewrite nav_of_insert.
    destruct (decide (h = sl_next s)) as [->|Hne]; [cbn [nv_v1 decoded]; by rewrite Ec|].
    by destruct (nv_v1 (nav_of h s)).
Qed.

Lemma alter_nothing n s : s <| sl_navs ::= alter (fun x => x) n |> = s.
Proof.
  destruct s. unfold set_field. cbn. f_equal. apply map_eq. intros i. rewrite lookup_alter. case_decide; [|done].
  subst. by destruct (_ !! i).
Qed.

(** Choosing a component, and the bar: the object is changed. *)
Lemma choose_spec n s :
  exists g, bind (choose_dashboard cmp compiled n) (fun _ => update_navbar compiled n) s =
      (s <| sl_navs ::= alter g n |>, Ok tt) /\
    (is_Some (sl_navs s !! n) -> component_of n (s <| sl_navs ::= alter g n |>) = chosen (component_of n s)) /\
    forall x, nv_v1 (g x) = nv_v1 x.
Proof.
  assert (forall s, exists g, choose_dashboard cmp compiled n s = (s <| sl_navs ::= alter g n |>, Ok tt) /\
    (is_Some (sl_navs s !! n) -> component_of n (s <| sl_navs ::= alter g n |>) = chosen (component_of n s)) /\
    forall x, nv_v1 (g x) = nv_v1 x) as Hc.
  { intros s1. unfold choose_dashboard, chosen, bind, get. cbv beta iota zeta. fold (component_of n s1).
    pose proof (alter_nothing n s1) as Eid.
    destruct (component_of n s1) as [|a c] eqn:Ec; [destruct (ordered _ _ _) as [|i l]|].
    - exists (fun x => x). by rewrite Eid.
    - eexists. split; [reflexivity|]. split; [|done]. intros [x Hx]. unfold component_of, nav_of. cbn.
      by rewrite lookup_alter_eq, Hx.
    - exists (fun x => x). by rewrite Eid. }
  assert (forall s, exists g, update_navbar compiled n s = (s <| sl_navs ::= alter g n |>, Ok tt) /\
    forall x, nv_component (g x) = nv_component x /\ nv_v1 (g x) = nv_v1 x) as Hn.
  { intros s1. unfold update_navbar, bind, get. cbn.
    pose proof (alter_nothing n s1) as Eid.
    destruct (item_of compiled n s1) as [i|]; [|by exists (fun x => x); rewrite Eid].
    unfold when_. destruct (String.eqb _ _); [by eexists|by exists (fun x => x); rewrite Eid]. }
  destruct (Hc s) as (g & Eg & Cg & Vg). destruct (Hn (s <| sl_navs ::= alter g n |>)) as (k & Ek & Ck).
  exists (fun x => k (g x)). split_and!.
  - rewrite (bind_ok _ _ _ _ _ _ _ Eg), Ek. f_equal. destruct s. unfold set_field. cbn. f_equal.
    apply map_eq. intros i. rewrite !lookup_alter.
    repeat case_decide; try done. by rewrite <- option_fmap_compose.
  - intros Hx. rewrite <- Cg by done. destruct Hx as [x Hx]. unfold component_of, nav_of. cbn.
    rewrite !lookup_alter_eq, Hx. cbn. by rewrite (proj1 (Ck _)).
  - intros x. by rewrite (proj2 (Ck _)).
Qed.

(** ** The end *)

(** What a frame becomes when it gets ready. *)
Definition readied (f : nat) (s : shell) : shell :=
  s <| sl_iframes ::= alter (fun x => x <| f_timer := None |>) f |>
    <| sl_iframes ::= alter (fun x => x <| f_ready := true |>) f |>.

Lemma readied_spec f s :
  is_Some (sl_iframes s !! f) ->
  same_place s (readied f s) /\ sl_lists (readied f s) = sl_lists s /\ f_ready (iframe_of f (readied f s)) = true /\
  f_name (iframe_of f (readied f s)) = f_name (iframe_of f s) /\ unready (readied f s) ⊆ unready s ∖ {[f]}.
Proof.
  intros [x Hx]. split_and!; try done.
  - unfold iframe_of, readied. cbn. by rewrite !lookup_alter_eq, Hx.
  - unfold iframe_of, readied. cbn. by rewrite !lookup_alter_eq, Hx.
  - intros i (y & Hy & Hr)%elem_of_unready. unfold readied in Hy. cbn in Hy. rewrite !lookup_alter in Hy.
    destruct (decide (f = i)) as [<-|Hne].
    { rewrite Hx, decide_True in Hy by done. cbn in Hy. by injection Hy as <-. }
    apply elem_of_difference. split; [|set_solver]. apply elem_of_unready. by exists y.
Qed.

(** A frame navigates when it was not ready. *)
Lemma frame_ready_ends nav f s :
  (f_ready (iframe_of f s) = true \/ snd (nav None (readied f s)) <> OutOfFuel) ->
  snd (frame_ready nav f 0 s) <> OutOfFuel.
Proof.
  intros H. unfold frame_ready. cbv zeta.
  set (s1 := s <| sl_iframes ::= alter (fun x => x <| f_timer := None |>) f |>).
  rewrite (bind_ok _ _ (upd_iframe f (fun x => x <| f_timer := None |>)) _ s s1 tt eq_refl).
  rewrite (bind_ok _ _ get _ s1 s1 s1 eq_refl).
  destruct (_ || _); [|done].
  assert (f_ready (iframe_of f s1) = f_ready (iframe_of f s)) as ->.
  { unfold iframe_of, s1. cbn. rewrite lookup_alter_eq. by destruct (sl_iframes s !! f). }
  destruct (f_ready (iframe_of f s)); [done|].
  change (snd (nav None (readied f s)) <> OutOfFuel). by destruct H.
Qed.

(** Where [navigate] may run out: in the lookup of the component it shows. *)
Lemma navigate_ends_if k state s :
  (forall n s1 hash,
     (state = None -> target s = Some (component_of n s1) /\ target s1 = Some (component_of n s1)) ->
     sl_iframes s1 = sl_iframes s -> sl_lists s1 = sl_lists s ->
     snd (lookup visible (navigate k) MNone (component_of n s1) hash s1) <> OutOfFuel) ->
  snd (navigate (S k) state s) <> OutOfFuel.
Proof.
  intros Hlook. cbn [ShellSimple.navigate]. rewrite (bind_ok _ _ get _ s s s eq_refl).
  destruct (sl_problem s); [done|]. apply ends_bind_at; [destruct state; [done|apply ends_retrieve]|].
  intros s0 n Hn. destruct (choose_spec n s0) as (g & Eg & Cg & Vg).
  rewrite <- bind_assoc, (bind_ok _ _ _ _ _ _ _ Eg). set (s1 := s0 <| sl_navs ::= alter g n |>) in *.
  assert (sl_iframes s1 = sl_iframes s /\ sl_lists s1 = sl_lists s) as [Hi Hl].
  { destruct state; [by injection Hn as <- <-|]. by apply retrieve_place in Hn as (_ & _ & _ & H1 & H2). }
  assert (state = None -> target s = Some (component_of n s1) /\ target s1 = Some (component_of n s1)) as Ht.
  { intros ->. apply retrieve_place in Hn as (Hlive & Hp & Hp0 & _ & _). unfold target. rewrite Hp, Cg by done.
    split; [done|]. specialize (Cg Hlive). revert Hp0. unfold place_component.
    change (place_url s1) with (place_url s0).
    assert (forall h, nv_v1 (nav_of h s1) = nv_v1 (nav_of h s0) /\
      (component_of h s1 = component_of h s0 \/ component_of h s1 = chosen (component_of n s0))) as Hh.
    { intros h. destruct (decide (h = n)) as [->|Hne].
      - split; [|by right]. unfold nav_of, s1. cbn. rewrite lookup_alter_eq. destruct (sl_navs s0 !! n); [apply Vg|done].
      - assert (nav_of h s1 = nav_of h s0) as E by (unfold nav_of, s1; cbn; by rewrite lookup_alter_ne).
        unfold component_of. rewrite E. by split; [|left]. }
    unfold current_nav. change (sl_history s1) with (sl_history s0).
    destruct (sl_history s0) as [h|]; [|by intros ->]. rewrite (proj1 (Hh h)).
    destruct (nv_v1 (nav_of h s0)); [|by intros ->]. intros [= E]. destruct (proj2 (Hh h)) as [->| ->]; cbn.
    - by rewrite E.
    - by rewrite chosen_again. }
  apply ends_bind_at; [|intros s2 [] _; apply (ends_bind _ _ (jump _ _ _ _ _)); exact _].
  unfold update_frame. rewrite (bind_ok _ _ get _ s1 s1 s1 eq_refl). cbv zeta. fold (component_of n s1).
  apply ends_bind_at.
  - destruct (String.eqb_spec (component_of n s1) "") as [|_]; [done|].
    apply ends_bind_at; [|done]. by apply Hlook.
  - intros s2 fr _.
    match goal with |- snd (?m s2) <> _ => enough (Ends m) as K by apply K end. unfold update_title. end_.
Qed.

Lemma lookup_ends nav c hash s :
  (forall f s', same_place s s' -> assoc_get c (frames_of "localhost" s') = Some f ->
     f_ready (iframe_of f s') = true ->
     (unready s' ⊂ unready s \/ (f_name (iframe_of f s') = local_name c /\ unready s' ⊆ unready s)) ->
     snd (nav None s') <> OutOfFuel) ->
  snd (lookup visible nav MNone c hash s) <> OutOfFuel.
Proof.
  intros Hnav. destruct (lookup_shape nav c hash s) as [[s' ->]|(f & s' & -> & Hp & Hget & Hlive & Hu)]; [done|].
  apply ends_bind_at; [|done]. apply frame_ready_ends.
  destruct (f_ready (iframe_of f s')) eqn:Er; [by left|right].
  destruct (readied_spec f s' Hlive) as (Hp' & Hl & Hr & Hname & Hu').
  apply (Hnav f); [by etrans| |done|].
  - unfold frames_of. by rewrite Hl.
  - assert (f ∈ unready s') as Hf.
    { destruct Hlive as [x Hx]. apply elem_of_unready. exists x. split; [done|]. unfold iframe_of in Er. by rewrite Hx in Er. }
    destruct Hu as [Hu|[Hn Hu]]; [left; set_solver|right; split; [by rewrite Hname|set_solver]].
Qed.

(** A frame of the right name that is ready is where it ends. *)
Lemma navigate_ready k c f s :
  target s = Some c -> assoc_get c (frames_of "localhost" s) = Some f ->
  f_name (iframe_of f s) = local_name c -> f_ready (iframe_of f s) = true ->
  snd (navigate (S k) None s) <> OutOfFuel.
Proof.
  intros Ht Hget Hname Hr. apply navigate_ends_if. intros n s1 hash Hc Hi Hl. destruct (Hc eq_refl) as [Ec _].
  rewrite Ht in Ec. injection Ec as <-. unfold lookup. change (lookup_host MNone) with ("localhost", "localhost").
  cbv beta iota zeta. set (s2 := fst (set_list "localhost" id s1)).
  rewrite (bind_ok _ _ (set_list "localhost" id) _ s1 s2 tt eq_refl).
  assert (forall i, iframe_of i s2 = iframe_of i s) as Hf by (intros i; unfold iframe_of, s2; cbn; by rewrite Hi).
  assert (listed_frame "localhost" c (local_name c) s2 = (s2, Ok (Some f))) as E.
  { unfold listed_frame. rewrite (bind_ok _ _ get _ s2 s2 s2 eq_refl).
    assert (frames_of "localhost" s2 = frames_of "localhost" s) as ->
      by (unfold s2; rewrite frames_of_set; unfold frames_of; by rewrite Hl).
    by rewrite Hget, Hf, Hname, String.eqb_refl. }
  rewrite (bind_ok _ _ _ _ s2 s2 _ E). apply ends_bind_at; [done|]. intros s3 a [= <- <-].
  apply ends_bind_at; [done|]. intros s4 a [= <- <-]. cbv beta iota.
  apply ends_bind_at; [done|]. intros s5 [] [= <-]. apply ends_bind_at; [done|]. intros s6 [] [= <-].
  apply ends_bind_at; [|done]. apply frame_ready_ends. left. rewrite <- Hf in Hr. revert Hr.
  unfold iframe_of. cbn. rewrite lookup_alter_eq. by destruct (sl_iframes s1 !! f).
Qed.

(** The depth that is enough where no state is given. *)
Lemma navigate_none_ends k s : (size (unready s) + 2 <= k)%nat -> snd (navigate k None s) <> OutOfFuel.
Proof.
  revert s. induction k as [|k IH]; intros s Hk; [lia|]. apply navigate_ends_if.
  intros n s1 hash Hc Hi _. destruct (Hc eq_refl) as [_ Ht]. assert (unready s1 = unready s) as Eu by (unfold unready; by rewrite Hi).
  apply lookup_ends. intros f s' Hp Hget Hr [Hu|[Hname Hu]].
  - apply IH. apply subset_size in Hu. rewrite Eu in Hu. lia.
  - destruct k as [|k]; [lia|]. eapply navigate_ready; try done. by rewrite (target_same _ _ Hp).
Qed.

(** C33. Navigation ends.  Whatever state the shell is in, whatever state it is to
    show, whatever the browser answers and whatever names windows have, a call of
    [navigate] goes through within the depth that [simple_navigate] gives it: one
    level for every frame and three more. *)
Theorem navigation_ends state s :
  snd (simple_navigate st root embedded visible cmp compiled title state s) <> OutOfFuel.
Proof.
  unfold simple_navigate, depth. apply navigate_ends_if. intros n s1 hash _ Hi _. apply lookup_ends.
  intros f s' _ _ _ Hu. apply navigate_none_ends.
  assert (unready s' ⊆ unready s1) as Hs by (destruct Hu as [[Hu _]|[_ Hu]]; done).
  apply subseteq_size in Hs. assert (size (unready s1) <= size (sl_iframes s))%nat; [|lia].
  unfold unready. rewrite Hi, size_dom. apply map_subseteq_size, map_filter_subseteq.
Qed.

End Navigate.
