(* ===== verification/ShellPages.v ===== *)
(** * The dialog of active pages and the lock of the shell
    (src/pkg/shell/active-pages.js, privileges.js)

    The dialog lists the iframes of [Frames] and closes those that are selected;
    the lock shows what the transport's hints say about credentials.  The dialog
    itself and the elements of the lock are left out. *)

From S2P Require Import Prelude Uri Location Transport ShellState Shell ShellSimple ShellKeeps ShellSpec.
#[local] Open Scope shell_scope.

(** ** Active pages *)

Definition displayName (address component : string) : string :=
  if String.eqb address "localhost" then "/" +:+ component else address +:+ ":/" +:+ component.

(** An entry of the dialog; what it has no member for is undefined. *)
Record page := mk_page {
  pg_frame : nat; pg_component : string; pg_address : string; pg_name : string; pg_visible : bool;
  pg_displayName : string }.

Definition gatherIframes (s : shell) : list page :=
  concat (map (fun l : string * list (string * nat) =>
    map (fun p : string * nat =>
      let f := iframe_of (snd p) s in
      mk_page (snd p) (fst p) (fst l) (f_name f) (0 <=? index_of (bytes_of "block") (bytes_of (f_display f)))
        (displayName (fst l) (fst p))) (snd l)) (sl_lists s)).

(** The selection holds the entries themselves: their places in what was
    gathered.  Testing for one with [in] looks for its text, so all visible ones
    are pushed. *)
Definition initial_selection (pages : list page) : list nat :=
  map fst (filter (fun p => pg_visible (snd p) = true) (imap pair pages)).

Definition selectionChanged (i : nat) (selected : bool) (sel : list nat) : list nat :=
  if selected then if bool_decide (i ∈ sel) then sel else sel ++ [i]
  else filter (fun j => j <> i) sel.

(** The order of the entries: visible first, then by their names. *)
Definition compare_pages (a b : page) : Z :=
  (if pg_visible a then -2 else 0) + (if pg_visible b then 2 else 0) +
  (if String.ltb (pg_displayName a) (pg_displayName b) then -1 else 0) +
  (if String.ltb (pg_displayName b) (pg_displayName a) then 1 else 0).

Fixpoint insert_page (x : page) (l : list page) : list page :=
  match l with
  | [] => [x]
  | y :: l' => if compare_pages x y <=? 0 then x :: l else y :: insert_page x l'
  end.

Definition sort_pages (l : list page) : list page := foldr insert_page [] l.

(** [dataStore.closePage]: entries have no member [host], so that the first
    argument of [remove] is undefined. *)
Definition closePage (pages : list page) (sel : list nat) : M unit :=
  each (fun i => match pages !! i with
                 | Some p => remove MNone (Some (pg_component p))
                 | None => ret tt
                 end) sel.

(** What is closed is the page of the local machine. *)
Lemma close_is_local pages i p f s :
  pages !! i = Some p -> pg_component p <> "" ->
  assoc_get (pg_component p) (frames_of "localhost" s) = Some f ->
  closePage pages [i] s =
    (fst (set_list "localhost" (assoc_del (pg_component p)) (fst (remove_frame f s))), Ok tt).
Proof.
  intros Hp Hc Hf. unfold closePage. cbn [each]. rewrite Hp. unfold remove. cbn [machine_prop].
  change (text_or JUndef "") with "". cbv zeta. change (String.eqb "" "") with true. cbv iota.
  unfold bind at 1, bind at 1, gets. rewrite (proj2 (String.eqb_neq _ "")) by done. rewrite Hf.
  unfold bind at 1. unfold remove_frame at 1. cbn [fst]. reflexivity.
Qed.

(** ** The lock *)

(** [locked]: null, true or false. *)
Record lock := mk_lock { lk_locked : option bool; lk_blink : bool }.

Definition new_privileges : lock := mk_lock None false.

Definition update (hint : jobj) (l : lock) : lock :=
  let credential := prop hint "credential" in
  if is_str credential "password" then mk_lock (Some false) false
  else if is_str credential "request" then
    mk_lock (match lk_locked l with None => Some true | x => x end) true
  else if is_str credential "none" then mk_lock None false
  else mk_lock (lk_locked l) false.

(** The classes of a lock: locked, unlocked, and blinking for an entry of a menu. *)
Definition display (is_li : bool) (l : lock) : bool * bool * bool :=
  (match lk_locked l with Some true => true | _ => false end,
   match lk_locked l with Some false => true | _ => false end,
   is_li && lk_blink l).

(** A request does not lock what a password has unlocked. *)
Lemma request_keeps_unlocked l hint :
  lk_locked l = Some false -> is_str (prop hint "credential") "request" = true ->
  display true (update hint l) = (false, true, true).
Proof.
  intros Hl Hr. unfold update, is_str in *. destruct (prop hint "credential"); try done.
  apply String.eqb_eq in Hr as ->. cbn. by rewrite Hl.
Qed.

(** ** Examples *)

Module Pages.

(** A page of another machine is shown, with a page of the same component on this
    one: closing it removes the other, and it stays. *)
Definition two_machines : shell :=
  Sample.start <| sl_lists := [("localhost", [("system", 2%nat)]); ("server", [("system", 6%nat)])] |>
    <| sl_iframes ::= <[6%nat := mk_iframe "cockpit1:server/system" None "" true false None None "block" false]> |>.

Lemma remote_page_stays :
  let pages := gatherIframes two_machines in
  let s := fst (closePage pages (initial_selection pages) two_machines) in
  map (fun i => pg_name <$> pages !! i) (initial_selection pages) = [Some "cockpit1:server/system"] /\
  sl_lists s = [("localhost", []); ("server", [("system", 6%nat)])].
Proof. vm_compute. split; reflexivity. Qed.

(** An embedded shell keeps its URL, so that what is not in the history object is
    lost.  The object that tracks the hash of a frame has no version; it is not
    recognised when the state is retrieved, which then has no hash. *)
Definition shown : shell :=
  Sample.start <| sl_pathname := "/shell/index.html" |> <| sl_hash := "" |> <| sl_current := Some 2%nat |>
    <| sl_windows ::= alter (fun w => w <| wn_hash := Some "#/terminal" |>) 1%nat |>.

Definition hash_retrieved (embedded : bool) (s : shell) : option jval :=
  match retrieve_state "" embedded s with
  | (s, Ok n) => Some (nv_hash (nav_of n s))
  | _ => None
  end.

Lemma tracked_hash_lost :
  let s := fst (perform_track "" true Sample.stay 1 shown) in
  (nv_hash ∘ (fun h => nav_of h s)) <$> sl_history s = Some (JStr "/terminal") /\
  hash_retrieved true s = Some (JStr "").
Proof. vm_compute. split; reflexivity. Qed.

(** In a shell of its own the hash is in the URL. *)
Example tracked_hash_kept :
  let s := fst (perform_track "" false Sample.stay 1 (shown <| sl_pathname := "/system" |> <| sl_hash := "" |>)) in
  hash_retrieved false s = Some (JStr "/terminal").
Proof. vm_compute. reflexivity. Qed.

End Pages.
