(* ===== verification/Loader.v ===== *)
(** * The loader of machines (src/pkg/lib/machines.js, [Loader])

    The loader connects to the machines that are shown: it keeps an echo channel
    to each, reads its manifests and its host name, and records what it learns in
    the overlay of Machines.  Each change of the overlay tells of every machine
    while it is made, and the loader listens: its handlers change the overlay
    again.  That recursion is explicit here: the functions that change the overlay
    and disconnect from within a handler have fuel, and set [ld_stuck] when they
    run out; LoaderSpec shows that they do not.

    What channels, requests and proxies answer are inputs.  Objects that the
    source shares are numbers: a connection is that of an echo channel with the
    variables of the closure that made it. *)

From S2P Require Import Prelude Uri Location Machines.

(** ** Data *)

(** The variables of [connect], and its channel. *)
Record conn := mk_conn {
  k_host : string;
  k_url : option string;
  k_request : bool;
  k_open : bool;
  k_listening : bool;          (* until $(channel).off() *)
  k_closed : bool }.

#[export] Instance conn_settable : Settable conn := fun k =>
  mk_conn (k_host k) (k_url k) (k_request k) (k_open k) (k_listening k) (k_closed k).

(** A proxy of hostnamed; no properties while it is not valid. *)
Record proxy := mk_proxy { x_host : string; x_props : option jobj; x_listening : bool }.

#[export] Instance proxy_settable : Settable proxy := fun x => mk_proxy (x_host x) (x_props x) (x_listening x).

Inductive loader_effect :=
  | LOpen (id : nat) (options : jobj)
  | LSend (id : nat)
  | LClose (id : nat)
  | LKill (conn : string)
  | LRequest (id : nat) (url : string)
  | LWatch (host conn : string)             (* the bridge's packages *)
  | LHostname (proxy : nat) (conn : string)
  | LCloseProxy (proxy : nat)
  | LCloseWatch (host : string)
  | LRestart (host : string).               (* a timer that connects again *)

Record loader := mk_loader {
  ld_machines : machines;
  ld_conns : gmap nat conn;
  ld_channels : list (string * nat);
  ld_proxy : gmap nat proxy;
  ld_proxies : list (string * nat);
  ld_watches : list (string * unit);        (* bridge_dbus *)
  ld_next : nat;
  ld_session : bool;                        (* session_loaded *)
  ld_stuck : bool;
  ld_trace : list loader_effect }.

#[export] Instance loader_settable : Settable loader := fun l =>
  mk_loader (ld_machines l) (ld_conns l) (ld_channels l) (ld_proxy l) (ld_proxies l) (ld_watches l)
    (ld_next l) (ld_session l) (ld_stuck l) (ld_trace l).

Definition do (e : loader_effect) (l : loader) : loader := l <| ld_trace ::= (fun t => t ++ [e]) |>.

Definition upd_conn (id : nat) (f : conn -> conn) (l : loader) : loader := l <| ld_conns ::= alter f id |>.

Definition machine_at (host : string) (l : loader) : option jobj := assoc_get host (m_machines (ld_machines l)).

(** ** URLs *)

(** [encodeURI] leaves the reserved characters alone, too. *)
Definition encodeURI (s : string) : string :=
  of_bytes (render (map (fun b =>
    if uri_unreserved b || existsb (Z.eqb b) [59; 47; 63; 58; 64; 38; 61; 43; 36; 44; 35] then Raw b else Esc b)
    (bytes_of s))).

(** Where the manifests are, when they are not known. *)
Definition manifests_url (machine : jobj) : option string :=
  if truthy (prop machine "manifests") then None
  else if truthy (prop machine "checksum")
       then Some ("../../" +:+ js_String (prop machine "checksum") +:+ "/manifests.json")
       else Some ("../../@" +:+ encodeURI (js_String (prop machine "connection_string")) +:+ "/manifests.json").

(** The options of the echo channel. *)
Definition channel_options (machine : jobj) : jobj :=
  let o : jobj := {["host" := prop machine "connection_string"; "payload" := JStr "echo"]} in
  if negb (truthy (prop machine "on_disk")) && truthy (prop machine "host_key")
  then <["temp-session" := JBool false]> (<["session" := JStr "shared"]>
         (<["host-key" := prop machine "host_key"]> o))
  else o.

(** [state(host, value, problem)]: the values it sets. *)
Definition state_values (value problem : jval) : jobj :=
  let o : jobj := {["state" := value; "problem" := problem]} in
  if is_str value "connected" then <["restarting" := JBool false]> o
  else if truthy problem then <["manifests" := JNull]> (<["checksum" := JNull]> o)
  else o.

Section Loader.
Context (application hostname : string) (parse_color : jval -> string) (colors : list string).

#[local] Notation machines_overlay := (Machines.overlay application hostname).

(** What hostnamed says of a host. *)
Definition proxy_props (host : string) (l : loader) : jobj :=
  match assoc_get host (ld_proxies l) ≫= (fun x => ld_proxy l !! x) with
  | Some x => default ∅ (x_props x)
  | None => ∅
  end.

(** What [updated] finds missing in a machine. *)
Definition wanted_label (props : jobj) : jval :=
  if truthy (prop props "PrettyHostname") then prop props "PrettyHostname" else prop props "StaticHostname".

Definition missing (host : string) (machine : jobj) (l : loader) : jobj :=
  let props := proxy_props host l in
  let o : jobj := ∅ in
  let o := if truthy (prop machine "color") then o
           else <["color" := JStr (unused_color parse_color colors (ld_machines l))]> o in
  let label := wanted_label props in
  let o := if truthy label && negb (strict_eq label (prop machine "label")) then <["label" := label]> o else o in
  let os := prop props "OperatingSystemPrettyName" in
  if truthy os && negb (loose_eq os (prop machine "os")) then <["os" := os]> o else o.

(** ** Handlers

    [overlay] is [machines.overlay] with all that it sets off, [disconnect] the
    loader's own method; both as called from within a handler. *)

Section Handlers.
Context (overlay : string -> jobj -> loader -> loader) (disconnect : string -> loader -> loader).

Definition state (host : string) (value problem : jval) (l : loader) : loader :=
  overlay host (state_values value problem) l.

(** [whirl]; the problem of the closure is never set. *)
Definition whirl (id : nat) (l : loader) : loader :=
  match ld_conns l !! id with
  | None => l
  | Some k =>
      if negb (k_request k) && k_open k then state (k_host k) (JStr "connected") JNull l
      else state (k_host k) (JStr "connecting") JNull l
  end.

Definition request_manifest (id : nat) (l : loader) : loader :=
  match ld_conns l !! id with
  | Some k =>
      match k_url k with
      | Some url => do (LRequest id url) (upd_conn id (fun k => k <| k_request := true |>) l)
      | None => l
      end
  | None => l
  end.

Definition watch_manifests (host : string) (machine : jobj) (l : loader) : loader :=
  do (LWatch host (js_String (prop machine "connection_string"))) l <| ld_watches ::= assoc_set host tt |>.

Definition request_hostname (host : string) (machine : jobj) (l : loader) : loader :=
  if truthy (prop machine "static_hostname") then l
  else
    let x := ld_next l in
    do (LHostname x (js_String (prop machine "connection_string")))
      (l <| ld_proxy ::= <[x := mk_proxy host None false]> |> <| ld_proxies ::= assoc_set host x |>
         <| ld_next ::= S |>).

Definition connect (host : string) (l : loader) : loader :=
  match lookup host (ld_machines l), assoc_get host (ld_channels l) with
  | None, _ | _, Some _ => l
  | Some machine, None =>
      let id := ld_next l in
      let local := String.eqb host "localhost" in
      let l := do (LOpen id (channel_options machine))
        (l <| ld_conns ::= <[id := mk_conn host (manifests_url machine) false local (negb local) false]> |>
           <| ld_channels ::= assoc_set host id |> <| ld_next ::= S |>) in
      let l := if local then request_hostname host machine (watch_manifests host machine (request_manifest id l))
               else do (LSend id) l in
      whirl id l
  end.

(** The handler of "close"; [m] is looked up before the state is set. *)
Definition closed (id : nat) (problem : jval) (l : loader) : loader :=
  match ld_conns l !! id with
  | None => l
  | Some k =>
      let host := k_host k in
      let m := lookup host (ld_machines l) in
      let l := upd_conn id (fun k => k <| k_open := false |>) l in
      let shown := match m with Some m => truthy (prop m "visible") | None => true end in
      let l := if negb (truthy problem) && negb shown then state host JNull JNull l
               else state host (JStr "failed") (if truthy problem then problem else JStr "disconnected") l in
      (* the object of the machine is the same after the change *)
      let restarting := match m with
                        | Some m => truthy (prop (default m (lookup host (ld_machines l))) "restarting")
                        | None => false
                        end in
      let l := if restarting then do (LRestart host) l else l in
      disconnect host l
  end.

(** [channel.close()] dispatches its close event at once. *)
Definition close_channel (id : nat) (l : loader) : loader :=
  match ld_conns l !! id with
  | None => l
  | Some k =>
      let l := if k_closed k then l
               else
                 let l := do (LClose id) (upd_conn id (fun k => k <| k_closed := true |>) l) in
                 if k_listening k then closed id JUndef l else l in
      upd_conn id (fun k => k <| k_listening := false |>) l
  end.

(** [self.disconnect]. *)
Definition disconnect_body (host : string) (l : loader) : loader :=
  if String.eqb host "localhost" then l
  else
    let channel := assoc_get host (ld_channels l) in
    let l := l <| ld_channels ::= assoc_del host |> in
    let l := match channel with Some id => close_channel id l | None => l end in
    let proxy := assoc_get host (ld_proxies l) in
    let l := l <| ld_proxies ::= assoc_del host |> in
    let l := match proxy with
             | Some x => do (LCloseProxy x) (l <| ld_proxy ::= alter (fun x => x <| x_listening := false |>) x |>)
             | None => l
             end in
    match assoc_get host (ld_watches l) with
    | Some _ => do (LCloseWatch host) (l <| ld_watches ::= assoc_del host |>)
    | None => l
    end.

(** [updated(ev, machine, host, old_conns)].  The object of an event is that of
    the machine, which changes while the handler runs; without one it is looked
    up. *)
Definition current (given : option jobj) (host : string) (l : loader) : option jobj :=
  match given with
  | Some m => Some (default m (machine_at host l))
  | None => lookup host (ld_machines l)
  end.

Definition updated (given : option jobj) (host : string) (old_conns : jval) (l : loader) : loader :=
  match current given host l with
  | None => l
  | Some machine =>
      let o := missing host machine l in
      let l := if bool_decide (o = ∅) then l else overlay host o l in
      let machine := default machine (current given host l) in
      if truthy (prop machine "visible") then
        if truthy old_conns && negb (loose_eq (prop machine "connection_string") old_conns) then
          connect host (disconnect host (do (LKill (js_String old_conns)) l))
        else if truthy (prop machine "problem") then l
        else connect host l
      else disconnect host l
  end.

(** One event of [machines]. *)
Definition handle (e : machine_effect) (l : loader) : loader :=
  match e with
  | MEvent (MAdded host m old) | MEvent (MUpdated host m old) => updated (Some m) host old l
  | MEvent (MRemoved host m) => disconnect host l
  | _ => l
  end.

End Handlers.

(** ** Changes of the overlay and what they set off *)

(** The events of a change are fired one after the other. *)
Definition fire (overlay : string -> jobj -> loader -> loader) (disconnect : string -> loader -> loader)
    (m : machines) (l : loader) : loader :=
  foldl (fun l e => handle overlay disconnect e l) (l <| ld_machines := m |>)
    (drop (length (m_effects (ld_machines l))) (m_effects m)).

(** With fuel for the depth. *)
Fixpoint nested_overlay (fuel : nat) (host : string) (values : jobj) (l : loader) : loader :=
  match fuel with
  | O => l <| ld_stuck := true |>
  | S fuel => fire (nested_overlay fuel) (nested_disconnect fuel) (machines_overlay host values (ld_machines l)) l
  end
with nested_disconnect (fuel : nat) (host : string) (l : loader) : loader :=
  match fuel with
  | O => l <| ld_stuck := true |>
  | S fuel => disconnect_body (nested_overlay fuel) (nested_disconnect fuel) host l
  end.

(** Each machine can set off five more changes: its color, label and system are
    set, it is connected or disconnected; disconnecting is one level more.  An
    event can bring back one machine. *)
Definition depth (n : nat) : nat := (10 * n + 20)%nat.

(** A change from outside of the handlers. *)
Definition notify (change : machines -> machines) (l : loader) : loader :=
  let m := change (ld_machines l) in
  let d := depth (length (m_machines m) + length (drop (length (m_effects (ld_machines l))) (m_effects m))) in
  fire (nested_overlay d) (nested_disconnect d) m l.

Definition overlay (host : string) (values : jobj) : loader -> loader :=
  notify (machines_overlay host values).

Definition disconnect (host : string) (l : loader) : loader :=
  nested_disconnect (depth (length (m_machines (ld_machines l)))) host l.

(** ** What the loader receives *)

(** The reply of the echo channel. *)
Definition on_message (id : nat) (l : loader) : loader :=
  match ld_conns l !! id with
  | None => l
  | Some k =>
      if k_listening k then
        let machine := default ∅ (machine_at (k_host k) l) in
        let l := upd_conn id (fun k => k <| k_open := true |>) l in
        let l := request_hostname (k_host k) machine (watch_manifests (k_host k) machine (request_manifest id l)) in
        whirl overlay id l
      else l
  end.

(** The channel is closed from the other side. *)
Definition on_close (id : nat) (problem : jval) (l : loader) : loader :=
  match ld_conns l !! id with
  | None => l
  | Some k =>
      if k_closed k then l
      else
        let l := upd_conn id (fun k => k <| k_closed := true |>) l in
        if k_listening k then closed overlay disconnect id problem l else l
  end.

(** [etag.replace(/^"(.+)"$/, '$1')]. *)
Definition strip_quotes (etag : string) : string :=
  match etag with
  | String c rest =>
      let n := String.length rest in
      if Ascii.eqb c "034" && (2 <=? Z.of_nat n) && String.eqb (String.substring (n - 1) 1 rest) dquote
      then String.substring 0 (n - 1) rest else etag
  | EmptyString => ""
  end.

(** The answer to the request of manifests: none when it failed. *)
Definition manifests_answer (id : nat) (answer : option (jval * string)) (l : loader) : loader :=
  match ld_conns l !! id with
  | None => l
  | Some k =>
      if k_request k then
        let l := match answer with
                 | Some (manifests, etag) =>
                     let o : jobj := {["manifests" := manifests]} in
                     overlay (k_host k)
                       (if String.eqb etag "" then o else <["checksum" := JStr (strip_quotes etag)]> o) l
                 | None => l
                 end in
        whirl overlay id (upd_conn id (fun k => k <| k_request := false |>) l)
      else l
  end.

(** The bridge has new manifests. *)
Definition packages_changed (host : string) (manifests : jval) (l : loader) : loader :=
  match assoc_get host (ld_watches l) with
  | Some _ => overlay host {["manifests" := manifests]} l
  | None => l
  end.

(** The proxy is ready, or has changed. *)
Definition proxy_changed (ready : bool) (x : nat) (props : option jobj) (l : loader) : loader :=
  match ld_proxy l !! x with
  | None => l
  | Some p =>
      if ready || x_listening p then
        let l := l <| ld_proxy ::= alter (fun p => p <| x_props := props |> <| x_listening := true |>) x |> in
        updated overlay disconnect None (x_host p) JUndef l
      else l
  end.

Definition expect_restart (host : string) (l : loader) : loader :=
  overlay (c_address (split_connection_string host)) {["restarting" := JBool true; "problem" := JNull]} l.

(** [process_session_key], with the value parsed; null when it is removed. *)
Definition process_session_key (prefix key : string) (value : option jobj) (l : loader) : loader :=
  match str_split "/" key with
  | [p; host] =>
      match value with
      | Some values =>
          if String.eqb p prefix then
            let l := match lookup host (ld_machines l) with
                     | None => overlay host values l
                     | Some m =>
                         if negb (truthy (prop m "on_disk")) then overlay host values l
                         else if negb (truthy (prop m "visible"))
                         then notify (Machines.change application hostname host {["visible" := JBool true]}) l
                         else l
                     end in
            connect overlay host l
          else l
      | None => l
      end
  | _ => l
  end.

(** The machines on disk have changed; at the first time the session is read. *)
Definition disk_changed (prefix : string) (content : machine_map) (session : list (string * option jobj))
    (l : loader) : loader :=
  let l := notify (Machines.data application hostname content) l in
  if ld_session l then l
  else foldl (fun l kv => process_session_key prefix (fst kv) (snd kv) l) (l <| ld_session := true |>) session.

(** A loader that reads the disk. *)
Definition new_loader (m : machines) : loader := mk_loader m ∅ [] ∅ [] [] 0 false false [].

(** One that reads the session only. *)
Definition session_loader (prefix : string) (session : list (string * option jobj)) (m : machines) : loader :=
  notify (Machines.data application hostname [])
    (foldl (fun l kv => process_session_key prefix (fst kv) (snd kv) l) (new_loader m <| ld_session := true |>) session).

(** ** The end

    [self.close]: [machines] is null from then on, so that looking up throws. *)

Inductive outcome := Done (l : loader) | Throws (l : loader).

(** The channels that are left, in the order in which they are disconnected; a
    channel that is told of its closing looks up its machine. *)
Fixpoint close_all (hosts : list string) (l : loader) : outcome :=
  match hosts with
  | [] => Done l
  | host :: hosts =>
      if String.eqb host "localhost" then close_all hosts l
      else
        match assoc_get host (ld_channels l) with
        | None => close_all hosts l
        | Some id =>
            let l := l <| ld_channels ::= assoc_del host |> in
            match ld_conns l !! id with
            | Some k =>
                let l := do (LClose id) (upd_conn id (fun k => k <| k_closed := true |>) l) in
                if negb (k_closed k) && k_listening k then Throws l else close_all hosts l
            | None => close_all hosts l
            end
        end
  end.

Definition close (l : loader) : outcome := close_all (map fst (ld_channels l)) l.

End Loader.
