(* ===== verification/LoaderMachines.v ===== *)
(** * What a change of the overlay does to the machines

    The objects of the machines after a change, property by property, for the
    changes that the handlers of Loader make. *)

From S2P Require Import Prelude Machines MachinesSpec Loader.

Section Spec.
Context (application hostname : string).

#[local] Notation machines_overlay := (Machines.overlay application hostname).
#[local] Notation machine_of := (machine_of application hostname).
#[local] Notation refresh := (Machines.refresh application hostname).

(** ** The properties of a machine *)

(** What is on disk under what is overlaid. *)
Definition raw (content overlay : option jobj) (k : string) : jval :=
  match prop (default ∅ overlay) k with JUndef => prop (default ∅ content) k | v => v end.

Lemma prop_empty k : prop ∅ k = JUndef.
Proof. done. Qed.

Lemma desired_prop values ov k : prop (desired values ov) k = raw values ov k.
Proof.
  unfold desired, raw. rewrite !prop_extend, prop_empty.
  destruct (prop (default ∅ ov) k); try done. by destruct (prop (default ∅ values) k).
Qed.

(** The keys that have a default. *)
Definition defaulted (k : string) : Prop :=
  k = "key" \/ k = "address" \/ k = "connection_string" \/ k = "label" \/ k = "avatar".

Lemma fill_defaults_prop host m k : ~ defaulted k -> prop (fill_defaults application hostname host m) k = prop m k.
Proof.
  intros Hk. unfold defaulted in Hk. unfold fill_defaults. cbv zeta.
  repeat match goal with |- context [if ?b then _ else _] => destruct b end;
    rewrite ?prop_insert;
    repeat match goal with |- context [String.eqb ?a k] => rewrite (proj2 (String.eqb_neq a k)) by (intros <-; naive_solver) end;
    done.
Qed.

Ltac props :=
  rewrite ?prop_insert;
  repeat match goal with
  | |- context [String.eqb ?a ?b] =>
      let r := eval vm_compute in (String.eqb a b) in
      match r with true => idtac | false => idtac end;
      change (String.eqb a b) with r; cbv iota
  end.

Lemma fill_defaults_label host m :
  truthy (prop m "label") = true -> prop (fill_defaults application hostname host m) "label" = prop m "label".
Proof.
  intros H. unfold fill_defaults. cbv zeta.
  destruct (truthy (prop (<["key" := JStr host]> m) "address")); props; rewrite H; cbv iota;
    repeat match goal with |- context [if ?b then _ else _] => destruct b end; props; done.
Qed.

(** What the label and the connection string depend on. *)
Lemma fill_label_same host m m' :
  prop m "label" = prop m' "label" ->
  prop (fill_defaults application hostname host m) "label" = prop (fill_defaults application hostname host m') "label".
Proof.
  intros Hl. unfold fill_defaults. cbv zeta.
  destruct (truthy (prop (<["key" := JStr host]> m) "address")), (truthy (prop (<["key" := JStr host]> m') "address"));
    props; rewrite ?Hl; repeat match goal with |- context [if ?b then _ else _] => destruct b end; props; done.
Qed.

Lemma fill_connection_same host m m' :
  (forall k, k ∈ ["user"; "port"; "address"] -> prop m k = prop m' k) ->
  prop (fill_defaults application hostname host m) "connection_string" =
  prop (fill_defaults application hostname host m') "connection_string".
Proof.
  intros H. unfold fill_defaults. cbv zeta.
  assert (prop m "user" = prop m' "user") as Hu by (apply H; set_solver).
  assert (prop m "port" = prop m' "port") as Hp by (apply H; set_solver).
  assert (prop m "address" = prop m' "address") as Ha by (apply H; set_solver).
  props. rewrite Ha. destruct (truthy (prop m' "address")); props; rewrite ?Hu, ?Hp, ?Ha;
    repeat match goal with |- context [if ?b then _ else _] => destruct b end; props; done.
Qed.

Lemma fill_connection host m : exists s, prop (fill_defaults application hostname host m) "connection_string" = JStr s.
Proof.
  unfold fill_defaults. cbv zeta.
  repeat match goal with |- context [if ?b then _ else _] => destruct b end; props; by eexists.
Qed.

(** ** Refreshing *)

Definition content_of (m : machines) : machine_map := default [] (sh_content (m_last m)).
Definition overlay_map (m : machines) : machine_map := sh_overlay (m_last m).

(** The machines are those of the shared state, but for what [add] notes in them. *)
Record synced (m : machines) : Prop := {
  sy_content : NoDup (content_of m).*1;
  sy_overlay : NoDup (overlay_map m).*1;
  sy_machines : NoDup (m_machines m).*1;
  sy_hosts : forall h, h ∈ (m_machines m).*1 <-> h ∈ (content_of m).*1 \/ h ∈ (overlay_map m).*1;
  sy_machine : forall h x, assoc_get h (m_machines m) = Some x -> forall k, k <> "on_disk" ->
    prop x k = prop (machine_of (content_of m) (overlay_map m) h) k }.

Lemma overlay_color_keys content h ov : (overlay_color content h ov).*1 = ov.*1.
Proof.
  unfold overlay_color. destruct (assoc_get h content) as [c|], (assoc_get h ov) as [o|] eqn:E; try done.
  destruct (truthy _); [|done]. rewrite assoc_set_keys, bool_decide_eq_true_2; [done|].
  apply assoc_get_elem in E. apply list_elem_of_fmap. by exists (h, o).
Qed.

Lemma refresh_overlay_keys content hosts ms ov events :
  (foldl (fun s host => refresh_host application hostname content host s) (ms, ov, events) hosts).1.2.*1 = ov.*1.
Proof.
  revert ms ov events. induction hosts as [|h hosts IH]; intros ms ov events; [done|]. cbn [foldl].
  unfold refresh_host at 2. rewrite IH. apply overlay_color_keys.
Qed.

(** An overlay that has been applied stays as it is. *)
Lemma overlay_of_again content ov ov' h :
  assoc_get h ov' = overlay_of content ov h -> overlay_of content ov' h = overlay_of content ov h.
Proof.
  unfold overlay_of. intros ->. destruct (assoc_get h ov) as [o|], (assoc_get h content) as [c|]; try done.
  destruct (truthy _); [|done]. by rewrite delete_delete_eq.
Qed.

Record refreshed (sh : shared) (m m' : machines) : Prop := {
  re_synced : synced m';
  re_content : sh_content (m_last m') = sh_content sh;
  re_machine : forall h, assoc_get h (m_machines m') =
    if bool_decide (h ∈ (default [] (sh_content sh)).*1 \/ h ∈ (sh_overlay sh).*1)
    then Some (machine_of (default [] (sh_content sh)) (sh_overlay sh) h) else None;
  re_events : exists removed, m_effects m' = m_effects m ++ map MEvent
    (map (event_of application hostname (default [] (sh_content sh)) (sh_overlay sh) (m_machines m))
       (all_hosts (default [] (sh_content sh)) (sh_overlay sh)) ++ removed ++
     if m_ready m then [] else [MReady]) /\
    (forall e, e ∈ removed -> exists h x, e = MRemoved h x) /\
    forall h x, MRemoved h x ∈ removed <->
      assoc_get h (m_machines m) = Some x /\ h ∉ all_hosts (default [] (sh_content sh)) (sh_overlay sh) }.

Lemma refresh_spec sh push m :
  NoDup (default [] (sh_content sh)).*1 -> NoDup (sh_overlay sh).*1 -> NoDup (m_machines m).*1 ->
  refreshed sh m (refresh sh push m).
Proof.
  intros Hc Ho Hm. set (content := default [] (sh_content sh)) in *. set (hosts := all_hosts content (sh_overlay sh)).
  assert (refresh sh push m = let '(ms, ov, events) :=
      foldl (fun s host => refresh_host application hostname content host s) (m_machines m, sh_overlay sh, []) hosts in
    mk_machines true (filter (fun x => fst x ∈ hosts) ms) (mk_shared (sh_content sh) ov) (m_push m || push)
      (m_effects m ++ map MEvent (events ++ map (fun x => MRemoved (fst x) (snd x)) (filter (fun x => fst x ∉ hosts) ms) ++
         if m_ready m then [] else [MReady]))) as -> by done.
  pose proof (all_hosts_nodup _ _ Hc Ho) as Hn. fold hosts in Hn.
  pose proof (refresh_loop application hostname content (sh_overlay sh) (m_machines m) hosts Hn (m_machines m)
    (sh_overlay sh) [] ltac:(auto)) as Hl.
  pose proof (refresh_overlay_keys content hosts (m_machines m) (sh_overlay sh) []) as Hk.
  destruct (foldl _ _ hosts) as [[ms ov] events]. destruct Hl as (-> & E2 & E3 & E4). cbn in Hk. specialize (E4 Hm).
  assert (forall h, h ∈ hosts <-> h ∈ content.*1 \/ h ∈ (sh_overlay sh).*1) as Hh by apply all_hosts_elem.
  assert (forall h, assoc_get h (filter (fun x => fst x ∈ hosts) ms) =
    if bool_decide (h ∈ content.*1 \/ h ∈ (sh_overlay sh).*1)
    then Some (machine_of content (sh_overlay sh) h) else None) as Hget.
  { intros h. etransitivity; [exact (assoc_get_filter (fun h => h ∈ hosts) ms h E4)|]. rewrite E2.
    pose proof (Hh h). repeat case_bool_decide; case_decide; tauto || done. }
  assert (forall h, h ∈ hosts -> overlay_of content ov h = overlay_of content (sh_overlay sh) h) as Hov.
  { intros h Hin. apply overlay_of_again. by rewrite E3, bool_decide_eq_true_2. }
  split; cbn [m_last m_machines m_effects sh_content].
  - split; unfold content_of, overlay_map; cbn [m_last m_machines sh_content sh_overlay]; fold content.
    + done.
    + by rewrite Hk.
    + eapply sublist_NoDup; [exact E4|]. apply fmap_sublist, sublist_filter.
    + intros h. rewrite Hk. pose proof (Hget h) as Hg. rewrite <- Hh in *. case_bool_decide as Hin.
      * apply assoc_get_elem in Hg. split; intros _; [by apply Hh|]. apply list_elem_of_fmap. by eexists (h, _).
      * apply assoc_get_None in Hg. split; intros Hx; [by apply Hg in Hx|by apply Hh in Hx].
    + intros h x Hx k _. rewrite Hget in Hx. case_bool_decide as Hin; [|done]. injection Hx as <-.
      unfold MachinesSpec.machine_of. by rewrite Hov by by apply Hh.
  - done.
  - exact Hget.
  - eexists. split; [reflexivity|]. split.
    + intros e ([h x] & -> & _)%list_elem_of_fmap. by eexists _, _.
    + intros h x. specialize (E2 h). split.
      * intros ([h' x'] & [= <- <-] & Hin)%list_elem_of_fmap. apply list_elem_of_filter in Hin as [Hnot Hin].
        cbn in Hnot. rewrite bool_decide_eq_false_2 in E2 by done. rewrite <- E2. split; [by apply assoc_elem_get|done].
      * intros [Hg Hnot]. fold hosts in Hnot. rewrite bool_decide_eq_false_2 in E2 by done. rewrite Hg in E2.
        apply list_elem_of_fmap. exists (h, x). split; [done|]. apply list_elem_of_filter.
        split; [done|]. by apply assoc_get_elem.
Qed.

(** ** Changing the overlay *)

Lemma merge_prop item values k :
  prop (merge item values) k =
  match values !! k with Some v => if is_null v then JUndef else v | None => prop item k end.
Proof.
  unfold merge, prop. rewrite lookup_union, !map_lookup_filter.
  destruct (values !! k) as [v|] eqn:E, (item !! k) as [w|]; cbn; rewrite ?E;
    try (destruct (is_null v)); repeat case_guard; done.
Qed.

Definition object (h : string) (m : machines) : jobj := default ∅ (assoc_get h (m_machines m)).

(** What a property is given, and what is under it otherwise. *)
Definition given (values content old : jobj) (k : string) : jval :=
  match values !! k with
  | Some v => if is_null v then prop content k else match v with JUndef => prop content k | _ => v end
  | None => prop old k
  end.

Lemma overlay_of_prop content ov h k :
  k <> "color" -> prop (default ∅ (overlay_of content ov h)) k = prop (default ∅ (assoc_get h ov)) k.
Proof.
  intros Hk. unfold overlay_of. destruct (assoc_get h ov) as [o|], (assoc_get h content) as [c|]; try done.
  destruct (truthy _); [|done]. cbn. rewrite prop_delete. by rewrite (proj2 (String.eqb_neq "color" k)) by congruence.
Qed.

Lemma machine_prop content ov h k :
  ~ defaulted k -> k <> "color" ->
  prop (machine_of content ov h) k = raw (assoc_get h content) (assoc_get h ov) k.
Proof.
  intros Hd Hc. unfold MachinesSpec.machine_of. rewrite fill_defaults_prop by done.
  rewrite desired_prop. unfold raw. by rewrite overlay_of_prop.
Qed.

Lemma machine_color content ov h :
  truthy (prop (machine_of content ov h) "color") =
  truthy (prop (default ∅ (assoc_get h content)) "color") || truthy (raw (assoc_get h content) (assoc_get h ov) "color").
Proof.
  unfold MachinesSpec.machine_of. rewrite fill_defaults_prop by (unfold defaulted; naive_solver).
  rewrite desired_prop. unfold raw, overlay_of.
  destruct (assoc_get h ov) as [o|] eqn:Eo, (assoc_get h content) as [c|] eqn:Ec; cbn [default];
    rewrite ?prop_empty; unfold id; try done.
  - destruct (truthy (prop c "color")) eqn:Et; [|done]. cbn. by rewrite prop_delete.
  - by destruct (truthy (prop c "color")).
Qed.

Lemma extend_one ov h x : extend_hosts ov [(h, x)] = assoc_set h x ov.
Proof. done. Qed.

Lemma overlay_refreshed host v m :
  synced m ->
  refreshed (mk_shared (sh_content (m_last m))
    (assoc_set host (merge (default ∅ (assoc_get host (overlay_map m))) v) (overlay_map m))) m (machines_overlay host v m).
Proof.
  intros []. apply refresh_spec; [done| |done]. by apply assoc_set_nodup.
Qed.

(** The machines after a change of the overlay of a host. *)
Lemma overlay_machines host v m :
  synced m ->
  let m' := machines_overlay host v m in
  synced m' /\ (forall h, h ∈ (m_machines m').*1 <-> h = host \/ h ∈ (m_machines m).*1) /\
  (forall h k, h <> host -> k <> "on_disk" -> prop (object h m') k = prop (object h m) k) /\
  (forall k, ~ defaulted k -> k <> "color" -> k <> "on_disk" ->
     prop (object host m') k = given v (default ∅ (assoc_get host (content_of m))) (object host m) k) /\
  (forall w, v !! "color" = Some w -> truthy w = true -> truthy (prop (object host m') "color") = true) /\
  (v !! "color" = None -> truthy (prop (object host m') "color") = truthy (prop (object host m) "color")) /\
  (forall w, v !! "label" = Some w -> truthy w = true -> prop (object host m') "label" = w) /\
  (host ∈ (m_machines m).*1 -> (forall k, k ∈ ["user"; "port"; "address"] -> v !! k = None) ->
     prop (object host m') "connection_string" = prop (object host m) "connection_string" /\
     (v !! "label" = None -> prop (object host m') "label" = prop (object host m) "label")).
Proof.
  intros Hs m'. pose proof (overlay_refreshed host v m Hs) as [Hs' Hc' Hm' _]. fold m' in Hs', Hc', Hm'. cbn in Hm', Hc'.
  fold (content_of m) in Hm'. set (ov := overlay_map m) in *.
  set (o := merge (default ∅ (assoc_get host ov)) v) in *. set (ov2 := assoc_set host o ov) in *.
  assert (forall h, h ∈ ov2.*1 <-> h = host \/ h ∈ ov.*1) as Hkeys.
  { intros h. unfold ov2. rewrite assoc_set_keys. case_bool_decide; set_solver. }
  assert (forall h, h ∈ (m_machines m').*1 <-> h = host \/ h ∈ (m_machines m).*1) as Hhosts.
  { intros h. rewrite (sy_hosts m Hs). fold ov. specialize (Hm' h).
    destruct (decide (h ∈ (m_machines m').*1)) as [Hin|Hout].
    - split; [intros _|done]. case_bool_decide as Hd; [rewrite Hkeys in Hd; tauto|]. by apply assoc_get_None in Hm'.
    - split; [done|]. intros Hd. rewrite bool_decide_eq_true_2 in Hm' by (rewrite Hkeys; tauto).
      apply assoc_get_elem in Hm'. exfalso. apply Hout, list_elem_of_fmap. by eexists (h, _). }
  assert (assoc_get host ov2 = Some o) as Ho by (unfold ov2; by rewrite assoc_get_set, String.eqb_refl).
  assert (object host m' = machine_of (content_of m) ov2 host) as Enew.
  { unfold object. rewrite Hm', bool_decide_eq_true_2; [done|]. right. apply Hkeys. by left. }
  assert (host ∈ (m_machines m).*1 -> forall k, k <> "on_disk" ->
    prop (object host m) k = prop (machine_of (content_of m) ov host) k) as Eold.
  { intros Hin k Hk. unfold object. destruct (assoc_get host (m_machines m)) as [x|] eqn:Ex.
    - by apply (sy_machine m Hs).
    - by apply assoc_get_None in Ex. }
  assert (host ∉ (m_machines m).*1 -> assoc_get host (content_of m) = None /\ assoc_get host ov = None /\ object host m = ∅) as Enone.
  { intros Hout. rewrite (sy_hosts m Hs) in Hout. split_and!.
    - apply assoc_get_None. tauto.
    - apply assoc_get_None. tauto.
    - unfold object. assert (assoc_get host (m_machines m) = None) as ->; [|done].
      apply assoc_get_None. by rewrite (sy_hosts m Hs). }
  assert (forall k, ~ defaulted k -> k <> "color" -> k <> "on_disk" ->
    prop (object host m) k = raw (assoc_get host (content_of m)) (assoc_get host ov) k) as Eraw.
  { intros k Hd Hc Hk. destruct (decide (host ∈ (m_machines m).*1)) as [Hin|Hout].
    - by rewrite Eold, machine_prop.
    - destruct (Enone Hout) as (E1 & E2 & E3). by rewrite E1, E2, E3. }
  assert (forall k, raw (assoc_get host (content_of m)) (Some o) k =
    given v (default ∅ (assoc_get host (content_of m)))
      (desired (assoc_get host (content_of m)) (assoc_get host ov)) k) as Egiven.
  { intros k. unfold given. rewrite desired_prop. unfold raw. cbn [default]. unfold id at 1, o. rewrite merge_prop.
    destruct (v !! k) as [w|]; [|done]. destruct (is_null w) eqn:En; [done|]. by destruct w. }
  split; [done|]. split; [exact Hhosts|]. split; [|split; [|split; [|split; [|split]]]].
  - intros h k Hne Hk. unfold object. destruct (assoc_get h (m_machines m)) as [x|] eqn:Ex.
    + rewrite Hm', bool_decide_eq_true_2.
      * cbn [default]. unfold id. rewrite (sy_machine m Hs h x Ex k Hk). fold ov. unfold MachinesSpec.machine_of, overlay_of, ov2.
        by rewrite assoc_get_set, (proj2 (String.eqb_neq host h)).
      * rewrite Hkeys. apply assoc_get_elem in Ex. assert (h ∈ (m_machines m).*1) as Hin
          by (apply list_elem_of_fmap; by exists (h, x)). apply (sy_hosts m Hs) in Hin. fold ov in Hin. tauto.
    + rewrite Hm', bool_decide_eq_false_2; [done|]. rewrite Hkeys. apply assoc_get_None in Ex.
      rewrite (sy_hosts m Hs) in Ex. fold ov in Ex. tauto.
  - intros k Hd Hc Hk. rewrite Enew, machine_prop, Ho, Egiven by done. unfold given. rewrite desired_prop.
    destruct (v !! k); [done|]. by rewrite Eraw.
  - intros w Hw Ht. rewrite Enew, machine_color, Ho, Egiven. unfold given. rewrite Hw.
    destruct w; try done; cbn in *; rewrite ?Ht; by rewrite orb_true_r.
  - intros Hw. rewrite Enew, machine_color, Ho, Egiven. unfold given. rewrite Hw, desired_prop.
    destruct (decide (host ∈ (m_machines m).*1)) as [Hin|Hout].
    + by rewrite Eold, machine_color.
    + destruct (Enone Hout) as (E1 & E2 & E3). by rewrite E1, E2, E3.
  - intros w Hw Ht. rewrite Enew. unfold MachinesSpec.machine_of.
    assert (prop (desired (assoc_get host (content_of m)) (overlay_of (content_of m) ov2 host)) "label" = w) as El.
    { rewrite desired_prop. unfold raw. rewrite overlay_of_prop, Ho by done. cbn [default]. unfold id, o.
      rewrite merge_prop, Hw. destruct w; done. }
    rewrite fill_defaults_label; by rewrite El.
  - intros Hin Hv.
    assert (forall k, k ∈ ["user"; "port"; "address"] \/ (k = "label" /\ v !! "label" = None) ->
      prop (desired (assoc_get host (content_of m)) (overlay_of (content_of m) ov2 host)) k =
      prop (desired (assoc_get host (content_of m)) (overlay_of (content_of m) ov host)) k) as Hsame.
    { intros k Hk. assert (k <> "color") by set_solver. rewrite !desired_prop. unfold raw. rewrite !overlay_of_prop, Ho by done.
      cbn [default]. unfold id, o. rewrite merge_prop. assert (v !! k = None) as ->; [|done].
      destruct Hk as [Hk|[-> ?]]; [by apply Hv|done]. }
    rewrite !Enew, !Eold by done. unfold MachinesSpec.machine_of. split.
    + apply fill_connection_same. intros k Hk. apply Hsame. by left.
    + intros Hl. apply fill_label_same, Hsame. by right.
Qed.

End Spec.
