(* ===== verification/LoaderSpec.v ===== *)
(** * The loader settles

    A change of the overlay sets off handlers that change it again.  It ends: what
    is left to do for the machines is a number that every change from within a
    handler lowers.  When it has ended nothing is left to do: the machines that
    are shown and have no problem have a channel, those that are not shown have
    none, and all have a color and the names that hostnamed gave. *)

From stdpp Require Import list_numbers.
From S2P Require Import Prelude Machines MachinesSpec Loader LoaderMachines.

(** A host that its name leads to. *)
Definition plain (h : string) : Prop := c_address (split_connection_string h) = h /\ h <> "".

Definition keys (l : loader) : list string := (m_machines (ld_machines l)).*1.
Definition obj (h : string) (l : loader) : jobj := object h (ld_machines l).
Definition shown (h : string) (l : loader) : bool := truthy (prop (obj h l) "visible").
Definition troubled (h : string) (l : loader) : bool := truthy (prop (obj h l) "problem").
Definition connected (h : string) (l : loader) : bool := bool_decide (is_Some (assoc_get h (ld_channels l))).
Definition conn_string (h : string) (l : loader) : jval := prop (obj h l) "connection_string".

(** Properties of hostnamed are strings. *)
Definition text_props (ps : jobj) : Prop :=
  forall k, k ∈ ["PrettyHostname"; "StaticHostname"; "OperatingSystemPrettyName"] ->
    match prop ps k with JStr _ | JUndef => True | _ => False end.

Section Settle.
Context (application hostname : string) (parse_color : jval -> string) (colors : list string).

#[local] Notation machines_overlay := (Machines.overlay application hostname).
#[local] Notation missing := (missing parse_color colors).
#[local] Notation nested_overlay := (nested_overlay application hostname parse_color colors).
#[local] Notation nested_disconnect := (nested_disconnect application hostname parse_color colors).
#[local] Notation updated := (updated parse_color colors).
#[local] Notation handle := (handle parse_color colors).

(** What the loader has beside the machines belongs together. *)
Record sane (l : loader) : Prop := {
  sa_channel : forall h id, assoc_get h (ld_channels l) = Some id ->
    exists k, ld_conns l !! id = Some k /\ k_host k = h;
  sa_conn : forall id k, ld_conns l !! id = Some k -> plain (k_host k) /\ (id < ld_next l)%nat;
  sa_proxy : forall h x, assoc_get h (ld_proxies l) = Some x -> exists p, ld_proxy l !! x = Some p /\ x_host p = h;
  sa_props : forall x p, ld_proxy l !! x = Some p ->
    plain (x_host p) /\ (x < ld_next l)%nat /\ text_props (default ∅ (x_props p));
  sa_watch : forall h, is_Some (assoc_get h (ld_watches l)) -> plain h;
  sa_stuck : ld_stuck l = false }.

Record wf (l : loader) : Prop := {
  wf_synced : synced application hostname (ld_machines l);
  wf_plain : forall h, h ∈ keys l -> plain h;
  wf_sane : sane l }.

(** ** What is left to do for a machine *)

Definition no_color (h : string) (l : loader) : bool := negb (truthy (prop (obj h l) "color")).

Definition other_label (h : string) (l : loader) : bool :=
  let w := wanted_label (proxy_props h l) in truthy w && negb (strict_eq w (prop (obj h l) "label")).

Definition other_os (h : string) (l : loader) : bool :=
  let os := prop (proxy_props h l) "OperatingSystemPrettyName" in
  truthy os && negb (loose_eq os (prop (obj h l) "os")).

Definition to_connect (h : string) (l : loader) : bool := shown h l && negb (troubled h l) && negb (connected h l).

Definition to_disconnect (h : string) (l : loader) : bool :=
  negb (shown h l) && connected h l && negb (String.eqb h "localhost").

Definition cost (h : string) (l : loader) : nat :=
  Nat.b2n (no_color h l) + Nat.b2n (other_label h l) + Nat.b2n (other_os h l) +
  Nat.b2n (to_connect h l) + Nat.b2n (to_disconnect h l).

Definition total (l : loader) : nat := sum_list_with (fun h => cost h l) (keys l).

Lemma b2n_le b : (Nat.b2n b <= 1)%nat.
Proof. destruct b; cbn; lia. Qed.

Lemma cost_bound h l : (cost h l <= 5)%nat.
Proof.
  unfold cost. pose proof (b2n_le (no_color h l)). pose proof (b2n_le (other_label h l)).
  pose proof (b2n_le (other_os h l)). pose proof (b2n_le (to_connect h l)). pose proof (b2n_le (to_disconnect h l)). lia.
Qed.

Lemma total_bound l : (total l <= 5 * length (keys l))%nat.
Proof.
  unfold total. induction (keys l) as [|h k IH]; cbn; [lia|]. pose proof (cost_bound h l). lia.
Qed.

Lemma cost_total h l : h ∈ keys l -> (cost h l <= total l)%nat.
Proof. intros H. by apply (sum_list_with_in h (fun h => cost h l)). Qed.

Lemma total_zero l : total l = 0%nat -> forall h, h ∈ keys l -> cost h l = 0%nat.
Proof. intros H h Hin. pose proof (cost_total h l Hin). lia. Qed.

Lemma all_zero l : (forall h, h ∈ keys l -> cost h l = 0%nat) -> total l = 0%nat.
Proof.
  unfold total. induction (keys l) as [|h k IH]; [done|]. cbn. intros H. rewrite H by set_solver. apply IH. set_solver.
Qed.

(** Totals of states with the same machines. *)
Lemma sum_le (f g : string -> nat) k :
  (forall h, h ∈ k -> (f h <= g h)%nat) -> (sum_list_with f k <= sum_list_with g k)%nat.
Proof.
  induction k as [|h k IH]; cbn; intros H; [lia|]. pose proof (H h ltac:(set_solver)).
  assert (sum_list_with f k <= sum_list_with g k)%nat by (apply IH; set_solver). lia.
Qed.

Lemma sum_lt (f g : string -> nat) k h0 n :
  (forall h, h ∈ k -> (f h <= g h)%nat) -> h0 ∈ k -> (f h0 + n <= g h0)%nat ->
  (sum_list_with f k + n <= sum_list_with g k)%nat.
Proof.
  induction k as [|h k IH]; cbn; intros H Hin Hlt; [set_solver|].
  pose proof (H h ltac:(set_solver)). apply elem_of_cons in Hin as [->|Hin].
  - assert (sum_list_with f k <= sum_list_with g k)%nat by (apply sum_le; set_solver). lia.
  - assert (sum_list_with f k + n <= sum_list_with g k)%nat by (apply IH; set_solver). lia.
Qed.

Lemma sum_grow (f g : string -> nat) k h0 n :
  NoDup k -> (forall h, h ∈ k -> h <> h0 -> (f h <= g h)%nat) -> (f h0 <= g h0 + n)%nat ->
  (sum_list_with f k <= sum_list_with g k + n)%nat.
Proof.
  induction 1 as [|h k Hh Hn IH]; cbn; intros H H0; [lia|]. destruct (decide (h = h0)) as [-> |Hne].
  - assert (sum_list_with f k <= sum_list_with g k)%nat; [|lia].
    apply sum_le. intros h Hin. apply H; [set_solver|]. by intros ->.
  - pose proof (H h ltac:(set_solver) Hne). assert (sum_list_with f k <= sum_list_with g k + n)%nat; [|lia].
    apply IH; [|done]. set_solver.
Qed.

Lemma keys_perm l l' : wf l -> wf l' -> (forall h, h ∈ keys l' <-> h ∈ keys l) -> keys l' ≡ₚ keys l.
Proof.
  intros [[] _ _] [[] _ _] H. apply NoDup_Permutation; done.
Qed.

Lemma total_le l l' :
  wf l -> wf l' -> (forall h, h ∈ keys l' <-> h ∈ keys l) -> (forall h, h ∈ keys l -> (cost h l' <= cost h l)%nat) ->
  (total l' <= total l)%nat.
Proof. intros Hw Hw' Hk Hc. unfold total. rewrite (keys_perm l l') by done. by apply sum_le. Qed.

Lemma total_lt l l' h0 n :
  wf l -> wf l' -> (forall h, h ∈ keys l' <-> h ∈ keys l) -> (forall h, h ∈ keys l -> (cost h l' <= cost h l)%nat) ->
  h0 ∈ keys l -> (cost h0 l' + n <= cost h0 l)%nat -> (total l' + n <= total l)%nat.
Proof. intros Hw Hw' Hk Hc H0 Hlt. unfold total. rewrite (keys_perm l l') by done. by eapply sum_lt. Qed.

Lemma total_grow l l' h0 n :
  wf l -> wf l' -> (forall h, h ∈ keys l' <-> h ∈ keys l) ->
  (forall h, h ∈ keys l -> h <> h0 -> (cost h l' <= cost h l)%nat) ->
  (cost h0 l' <= cost h0 l + n)%nat -> (total l' <= total l + n)%nat.
Proof.
  intros Hw Hw' Hk Hc Hlt. unfold total. rewrite (keys_perm l l') by done. apply (sum_grow _ _ _ h0); try done.
  apply (sy_machines _ _ _ (wf_synced _ Hw)).
Qed.

(** *** What [updated] finds missing *)

Lemma strict_eq_text s v : strict_eq (JStr s) v = true -> v = JStr s.
Proof. destruct v; cbn; try done. by intros ->%String.eqb_eq. Qed.

Lemma proxy_props_text l h : sane l -> text_props (proxy_props h l).
Proof.
  intros Hw. unfold proxy_props. destruct (assoc_get h (ld_proxies l) ≫= _) as [p|] eqn:E; [|by intros k Hk].
  destruct (assoc_get h (ld_proxies l)) as [x|]; [|done]. cbn in E. by destruct (sa_props l Hw x p E) as (_ & _ & H).
Qed.

Lemma wanted_text l h : sane l -> truthy (wanted_label (proxy_props h l)) = true ->
  exists s, wanted_label (proxy_props h l) = JStr s.
Proof.
  intros Hw. pose proof (proxy_props_text l h Hw) as Ht. unfold wanted_label.
  pose proof (Ht "PrettyHostname" ltac:(set_solver)) as H1. pose proof (Ht "StaticHostname" ltac:(set_solver)) as H2.
  destruct (prop _ "PrettyHostname"); try done; destruct (prop _ "StaticHostname"); try done; cbn;
    repeat match goal with |- context [if ?b then _ else _] => destruct b end; eauto; done.
Qed.

Lemma os_text l h : sane l -> truthy (prop (proxy_props h l) "OperatingSystemPrettyName") = true ->
  exists s, prop (proxy_props h l) "OperatingSystemPrettyName" = JStr s.
Proof.
  intros Hw. pose proof (proxy_props_text l h Hw "OperatingSystemPrettyName" ltac:(set_solver)) as H1.
  destruct (prop _ "OperatingSystemPrettyName"); try done. by eexists.
Qed.

(** The members of what is missing. *)
Lemma missing_lookup h l k :
  missing h (obj h l) l !! k =
  if decide (k = "os") then if other_os h l then Some (prop (proxy_props h l) "OperatingSystemPrettyName") else None
  else if decide (k = "label") then if other_label h l then Some (wanted_label (proxy_props h l)) else None
  else if decide (k = "color") then
    if no_color h l then Some (JStr (unused_color parse_color colors (ld_machines l))) else None
  else None.
Proof.
  unfold missing, other_os, other_label, no_color. cbv zeta.
  destruct (truthy (prop (obj h l) "color")), (truthy (wanted_label _) && _), (truthy (prop (proxy_props h l) _) && _);
    cbn [negb]; rewrite ?lookup_insert, ?lookup_empty; repeat case_decide; subst; done.
Qed.

Lemma missing_nothing h l :
  missing h (obj h l) l = ∅ <-> no_color h l = false /\ other_label h l = false /\ other_os h l = false.
Proof.
  split.
  - intros E. pose proof (missing_lookup h l) as H. rewrite E in H.
    pose proof (H "os") as H1. pose proof (H "label") as H2. pose proof (H "color") as H3.
    rewrite lookup_empty in *. repeat (case_decide; try done).
    destruct (other_os h l), (other_label h l), (no_color h l); done.
  - intros (E1 & E2 & E3). apply map_eq. intros k. rewrite missing_lookup, E1, E2, E3, lookup_empty.
    by repeat case_decide.
Qed.

Context (colors_named : forall c, c ∈ colors -> c <> "").

Lemma unused_color_named m : unused_color parse_color colors m <> "".
Proof.
  unfold unused_color. destruct (head _) as [c|] eqn:E; [|done]. cbn. apply head_Some_elem_of in E.
  apply list_elem_of_filter in E as [_ Hc]. by apply colors_named.
Qed.

End Settle.
