(* ===== verification/LoaderSettle.v ===== *)
(** * The handlers of the loader come to an end

    A handler that changes the overlay lowers what is left to do (LoaderSpec);
    when the change and all that it sets off are over, nothing is left. *)

From stdpp Require Import list_numbers.
From S2P Require Import Prelude Machines MachinesSpec Loader LoaderMachines LoaderSpec.

Section Settle.
Context (application hostname : string).

#[local] Notation machines_overlay := (Machines.overlay application hostname).
#[local] Notation wf := (wf application hostname).

(** ** What handlers leave as it is

    [new] are the machines that may have been added. *)

Record calm (new : list string) (l l' : loader) : Prop := {
  ca_wf : wf l';
  ca_grow : forall h, h ∈ keys l -> h ∈ keys l';
  ca_new : forall h, h ∈ keys l' -> h ∈ keys l \/ h ∈ new;
  ca_shown : forall h, shown h l' = shown h l;
  ca_string : forall h, h ∈ keys l -> conn_string h l' = conn_string h l;
  ca_connected : forall h, connected h l' = true -> connected h l = true \/ h ∈ keys l' }.

(** A machine that is shown with a problem keeps it, and is not connected. *)
Definition firm (l l' : loader) : Prop :=
  forall h, shown h l = true -> troubled h l = true ->
    troubled h l' = true /\ (connected h l' = true -> connected h l = true).

(** No more is left to do. *)
Definition less (l l' : loader) : Prop := forall h, h ∈ keys l -> (cost h l' <= cost h l)%nat.

Lemma calm_refl l : wf l -> calm [] l l.
Proof. by split; intros; first [left|idtac]. Qed.

Lemma calm_trans a b l l' l'' : calm a l l' -> calm b l' l'' -> calm (a ++ b) l l''.
Proof.
  intros [_ G1 N1 S1 C1 O1] [W2 G2 N2 S2 C2 O2]. split; [done|..]; intros h.
  - intros Hh. by apply G2, G1.
  - rewrite elem_of_app. intros [[?|?]%N1|?]%N2; [by left|right; by left|right; by right].
  - by rewrite S2, S1.
  - intros Hh. rewrite C2, C1; [done|done|]. by apply G1.
  - intros [[?|?]%O1|?]%O2; [by left|right; by apply G2|by right].
Qed.

Lemma calm_known h l l' : h ∈ keys l -> calm [h] l l' -> calm [] l l'.
Proof.
  intros Hin [W G N S C O]. split; [done|done| |done..].
  intros g [Hg| ->%list_elem_of_singleton]%N; by left.
Qed.

Lemma calm_trans_nil a l l' l'' : calm a l l' -> calm [] l' l'' -> calm a l l''.
Proof. intros H1 H2. rewrite <- (app_nil_r a). by eapply calm_trans. Qed.

Lemma calm_keys l l' : calm [] l l' -> forall h, h ∈ keys l' <-> h ∈ keys l.
Proof. intros [W G N S C O] h. split; [intros [?|[]%not_elem_of_nil]%N; done|apply G]. Qed.

Lemma firm_refl l : firm l l.
Proof. by intros h. Qed.

Lemma firm_trans a l l' l'' : calm a l l' -> firm l l' -> firm l' l'' -> firm l l''.
Proof.
  intros Hc H1 H2 h Hs Ht. destruct (H1 h Hs Ht) as [Ht1 Hc1].
  destruct (H2 h ltac:(by rewrite (ca_shown _ _ _ Hc)) Ht1) as [Ht2 Hc2]. split; [done|]. intros H. by apply Hc1, Hc2.
Qed.

Lemma less_trans a l l' l'' : calm a l l' -> less l l' -> less l' l'' -> less l l''.
Proof. intros Hc H1 H2 h Hin. etransitivity; [apply H2, (ca_grow _ _ _ Hc), Hin|by apply H1]. Qed.

Lemma less_total l l' : wf l -> calm [] l l' -> less l l' -> (total l' <= total l)%nat.
Proof.
  intros Hw Hc Hl. apply (total_le application hostname); [done|apply (ca_wf _ _ _ Hc)|by apply calm_keys|done].
Qed.

Lemma less_zero l l' : calm [] l l' -> total l' = 0%nat -> less l l'.
Proof.
  intros Hc Hz h Hin. rewrite (total_zero l' Hz h); [lia|]. by apply (ca_grow _ _ _ Hc).
Qed.

(** ** Changes next to the machines *)

Lemma same_keys l l' : ld_machines l' = ld_machines l -> keys l' = keys l /\ forall h, obj h l' = obj h l.
Proof. intros E. split; [|intros h]; unfold keys, obj; by rewrite E. Qed.

Lemma calm_same l l' :
  wf l -> ld_machines l' = ld_machines l -> sane l' ->
  (forall h, connected h l' = true -> connected h l = true \/ h ∈ keys l) -> calm [] l l'.
Proof.
  intros [] E Hs Hc. destruct (same_keys l l' E) as [Ek Eo].
  split; unfold shown, conn_string; rewrite ?Ek; try done; try (intros h; by rewrite Eo); [|by left].
  split; [by rewrite E|by rewrite Ek|done].
Qed.

Lemma firm_same l l' : ld_machines l' = ld_machines l ->
  (forall h, shown h l = true -> troubled h l = true -> connected h l' = true -> connected h l = true) -> firm l l'.
Proof. intros E Hc h Hs Ht. split; [|by apply Hc]. unfold troubled in *. by rewrite (proj2 (same_keys l l' E)). Qed.

(** Objects that agree but for what [add] notes. *)
Definition alike (h : string) (l l' : loader) : Prop :=
  forall k, k <> "on_disk" -> prop (obj h l') k = prop (obj h l) k.

(** Proxies may have gone. *)
Definition leaner (h : string) (l l' : loader) : Prop :=
  proxy_props h l' = proxy_props h l \/ proxy_props h l' = ∅.

Lemma leaner_label h l l' : alike h l l' -> leaner h l l' ->
  (Nat.b2n (other_label h l') <= Nat.b2n (other_label h l))%nat /\
  (Nat.b2n (other_os h l') <= Nat.b2n (other_os h l))%nat.
Proof.
  intros Ha Hl. unfold other_label, other_os. rewrite (Ha "label"), (Ha "os") by done.
  destruct Hl as [-> | ->]; [done|].
  unfold wanted_label. rewrite !prop_empty. cbn. split; lia.
Qed.

Lemma cost_alike h l l' : alike h l l' -> leaner h l l' -> connected h l' = connected h l ->
  (cost h l' <= cost h l)%nat.
Proof.
  intros Ha Hl Hc. destruct (leaner_label h l l' Ha Hl). unfold cost, to_connect, to_disconnect, no_color, shown, troubled.
  rewrite Hc, (Ha "color"), (Ha "visible"), (Ha "problem") by done. lia.
Qed.

Lemma alike_same h l l' : ld_machines l' = ld_machines l -> alike h l l'.
Proof. intros E k _. unfold obj. by rewrite E. Qed.

(** *** The steps of the handlers *)

Lemma do_sane e l : sane l -> sane (do e l).
Proof. intros []. by split. Qed.

Lemma upd_conn_sane id f l : (forall k, k_host (f k) = k_host k) -> sane l -> sane (upd_conn id f l).
Proof.
  intros Hf [Hch Hco Hpr Hps Hw Hst]. split; cbn; auto.
  - intros h i (k & Hk & Hh)%Hch. destruct (decide (id = i)) as [<-|].
    + rewrite lookup_alter_eq, Hk. cbn. eexists. split; [done|]. by rewrite Hf.
    + rewrite lookup_alter_ne by done. eauto.
  - intros i k. destruct (decide (id = i)) as [<-|].
    + rewrite lookup_alter_eq. intros (k0 & Hk & ->)%fmap_Some. rewrite Hf. eauto.
    + rewrite lookup_alter_ne by done. eauto.
Qed.

Lemma drop_channel_sane h l : sane l -> sane (l <| ld_channels ::= assoc_del h |>).
Proof. intros []. split; cbn; auto. intros g id. rewrite assoc_get_del. case_match; [done|]. eauto. Qed.

Lemma machines_sane m l : sane l -> sane (l <| ld_machines := m |>).
Proof. intros []. by split. Qed.

Lemma request_manifest_sane id l : sane l -> sane (request_manifest id l).
Proof.
  intros H. unfold request_manifest. repeat case_match; try done. by apply do_sane, upd_conn_sane.
Qed.

Lemma watch_manifests_sane h m l : plain h -> sane l -> sane (watch_manifests h m l).
Proof.
  intros Hp []. split; cbn; auto. intros g. rewrite assoc_get_set.
  destruct (String.eqb_spec h g) as [<-|]; auto.
Qed.

Lemma request_hostname_sane h m l : plain h -> sane l -> sane (request_hostname h m l).
Proof.
  intros Hp [Hch Hco Hpr Hps Hw Hst]. unfold request_hostname. case_match; [by split|]. split; cbn; auto.
  - intros id k Hk. destruct (Hco id k Hk). split; [done|lia].
  - intros g x. rewrite assoc_get_set. destruct (String.eqb_spec h g) as [<-|Hne].
    + intros [= <-]. rewrite lookup_insert_eq. by eexists.
    + intros (p & Hx & Hg)%Hpr. rewrite lookup_insert_ne; [by eauto|].
      intros <-. destruct (Hps _ _ Hx) as (_ & ? & _). lia.
  - intros x p. destruct (decide (ld_next l = x)) as [<-|Hne].
    + rewrite lookup_insert_eq. intros [= <-]. cbn. split; [done|]. split; [lia|]. by intros k Hk.
    + rewrite lookup_insert_ne by done. intros Hx. destruct (Hps _ _ Hx) as (? & ? & ?). split; [done|]. split; [lia|done].
Qed.

Lemma request_hostname_props h m l g : sane l -> leaner g l (request_hostname h m l).
Proof.
  intros Hs. unfold request_hostname. case_match; [by left|]. unfold leaner, proxy_props. cbn. rewrite assoc_get_set.
  destruct (String.eqb_spec h g) as [<-|Hne].
  - right. cbn. by rewrite lookup_insert_eq.
  - left. destruct (assoc_get g (ld_proxies l)) as [x|] eqn:E; [|done]. cbn. rewrite lookup_insert_ne; [done|].
    intros <-. destruct (sa_proxy l Hs g _ E) as (p & Hp & _). destruct (sa_props l Hs _ _ Hp) as (_ & ? & _). lia.
Qed.

Lemma open_sane h k l : plain h -> k_host k = h -> sane l ->
  sane (l <| ld_conns ::= <[ld_next l := k]> |> <| ld_channels ::= assoc_set h (ld_next l) |> <| ld_next ::= S |>).
Proof.
  intros Hp Hk [Hch Hco Hpr Hps Hw Hst]. split; cbn; auto.
  - intros g id. rewrite assoc_get_set. destruct (String.eqb_spec h g) as [<-|Hne].
    + intros [= <-]. rewrite lookup_insert_eq. by eexists.
    + intros (k' & Hid & Hg)%Hch. rewrite lookup_insert_ne; [by eauto|]. intros <-. destruct (Hco _ _ Hid). lia.
  - intros id k'. destruct (decide (ld_next l = id)) as [<-|].
    + rewrite lookup_insert_eq. intros [= <-]. rewrite Hk. split; [done|lia].
    + rewrite lookup_insert_ne by done. intros Hid. destruct (Hco _ _ Hid). split; [done|lia].
  - intros x p Hx. destruct (Hps _ _ Hx) as (? & ? & ?). split; [done|]. split; [lia|done].
Qed.

(** ** Changing the overlay of a host *)

(** Values that do not show or address a machine. *)
Definition mild (v : jobj) : Prop := forall k, k ∈ ["visible"; "user"; "port"; "address"] -> v !! k = None.

Definition overlaid (host : string) (v : jobj) (l : loader) : loader :=
  l <| ld_machines := machines_overlay host v (ld_machines l) |>.

Lemma not_defaulted k : k ∈ ["visible"; "problem"; "os"; "restarting"; "color"] -> ~ defaulted k.
Proof.
  rewrite !elem_of_cons. unfold defaulted.
  intros [-> |[-> |[-> |[-> |[-> |[]%not_elem_of_nil]]]]] H; repeat destruct H as [H|H]; done.
Qed.

(** What the overlay of a mild value does to the machine. *)
Lemma overlaid_machine host v l : wf l -> plain host -> mild v ->
  let l' := overlaid host v l in
  wf l' /\ (forall h, h ∈ keys l' <-> h = host \/ h ∈ keys l) /\
  (forall h, h <> host -> alike h l l') /\
  (forall k, k ∈ ["visible"; "problem"; "os"; "restarting"] ->
     exists c, prop (obj host l') k = given v c (obj host l) k) /\
  (forall w, v !! "color" = Some w -> truthy w = true -> no_color host l' = false) /\
  (v !! "color" = None -> no_color host l' = no_color host l) /\
  (forall w, v !! "label" = Some w -> truthy w = true -> prop (obj host l') "label" = w) /\
  (host ∈ keys l -> conn_string host l' = conn_string host l /\
     (v !! "label" = None -> prop (obj host l') "label" = prop (obj host l) "label")).
Proof.
  intros [Hs Hp Hsa] Hh Hv l'. destruct (overlay_machines application hostname host v (ld_machines l) Hs)
    as (Hs' & Hk & Ho & Hg & Hc1 & Hc2 & Hl1 & Hl2).
  split; [split; [done| |by apply machines_sane]|split; [|split; [|split; [|split; [|split; [|split]]]]]].
  - intros h [-> |Hin]%Hk; [done|by apply Hp].
  - exact Hk.
  - intros h Hne k Hkk. by apply Ho.
  - intros k Hkk. eexists. apply Hg; [apply not_defaulted; set_solver|set_solver..].
  - intros w Hw Ht. apply negb_false_iff. exact (Hc1 w Hw Ht).
  - intros Hw. exact (f_equal negb (Hc2 Hw)).
  - exact Hl1.
  - intros Hin. apply Hl2; [done|]. intros k Hkk. apply Hv. set_solver.
Qed.

Lemma overlaid_shown host v l h : wf l -> plain host -> mild v -> shown h (overlaid host v l) = shown h l.
Proof.
  intros Hw Hh Hv. destruct (overlaid_machine host v l Hw Hh Hv) as (_ & _ & Ho & Hg & _). unfold shown.
  destruct (decide (h = host)) as [-> |Hne]; [|by rewrite (Ho h Hne)].
  destruct (Hg "visible" ltac:(set_solver)) as [c ->]. unfold given. by rewrite Hv by set_solver.
Qed.

Lemma overlaid_calm host v l : wf l -> plain host -> mild v -> calm [host] l (overlaid host v l).
Proof.
  intros Hw Hh Hv. destruct (overlaid_machine host v l Hw Hh Hv) as (Hw' & Hk & Ho & _ & _ & _ & _ & Hl).
  split; [done| | | |  |]; intros h.
  - intros Hin. apply Hk. by right.
  - intros [-> |Hin]%Hk; [right; by apply list_elem_of_singleton|by left].
  - by apply overlaid_shown.
  - intros Hin. destruct (decide (h = host)) as [-> |Hne]; [by apply Hl|]. exact (Ho h Hne "connection_string" ltac:(done)).
  - intros Hc. by left.
Qed.

Lemma overlaid_firm host v l : wf l -> plain host -> mild v ->
  (shown host l && troubled host l = false \/ v !! "problem" = None \/ exists w, v !! "problem" = Some w /\ truthy w = true) ->
  firm l (overlaid host v l).
Proof.
  intros Hw Hh Hv Hp h Hs Ht. split; [|done]. destruct (overlaid_machine host v l Hw Hh Hv) as (_ & _ & Ho & Hg & _). unfold troubled.
  destruct (decide (h = host)) as [-> |Hne]; [|by rewrite (Ho h Hne "problem")].
  destruct (Hg "problem" ltac:(set_solver)) as [c ->]. unfold given.
  destruct Hp as [Hp|[Hp|(w & Hp & Hpw)]]; [by rewrite Hs, Ht in Hp|by rewrite Hp|].
  rewrite Hp. by destruct w.
Qed.

Lemma overlaid_other host v l h : wf l -> plain host -> mild v -> h <> host ->
  (cost h (overlaid host v l) <= cost h l)%nat.
Proof.
  intros Hw Hh Hv Hne. destruct (overlaid_machine host v l Hw Hh Hv) as (_ & _ & Ho & _).
  apply cost_alike; [by apply Ho|by left|done].
Qed.

(** The total of a state in which the cost of one machine has changed. *)
Lemma overlaid_total host v l n : wf l -> plain host -> mild v -> host ∈ keys l ->
  (cost host (overlaid host v l) + n <= cost host l)%nat -> (total (overlaid host v l) + n <= total l)%nat.
Proof.
  intros Hw Hh Hv Hin Hc. destruct (overlaid_machine host v l Hw Hh Hv) as (Hw' & Hk & _).
  apply (total_lt application hostname l _ host n); try done.
  - intros h. rewrite Hk. split; [intros [-> |?]; done|by right].
  - intros h _. destruct (decide (h = host)) as [-> |Hne]; [lia|by apply overlaid_other].
Qed.

Lemma overlaid_bound host v l : wf l -> plain host -> mild v -> (total (overlaid host v l) <= total l + 5)%nat.
Proof.
  intros Hw Hh Hv. destruct (overlaid_machine host v l Hw Hh Hv) as (Hw' & Hk & _).
  pose proof (cost_bound host (overlaid host v l)) as Hb. destruct (decide (host ∈ keys l)) as [Hin|Hout].
  - apply (total_grow application hostname l _ host 5); [done|done| | |lia].
    + intros h. rewrite Hk. split; [intros [-> |?]; done|by right].
    + intros h _ Hne. by apply overlaid_other.
  - assert (keys (overlaid host v l) ≡ₚ host :: keys l) as Hp.
    { apply NoDup_Permutation.
      - apply (sy_machines _ _ _ (wf_synced _ _ _ Hw')).
      - apply NoDup_cons. split; [done|]. apply (sy_machines _ _ _ (wf_synced _ _ _ Hw)).
      - intros h. by rewrite Hk, elem_of_cons. }
    unfold total. rewrite Hp. cbn.
    assert (sum_list_with (fun h => cost h (overlaid host v l)) (keys l) <= sum_list_with (fun h => cost h l) (keys l))%nat; [|lia].
    apply sum_le. intros h Hin. apply overlaid_other; try done. by intros ->.
Qed.

(** *** The state of a machine *)

Lemma state_get value problem k : k <> "state" -> k <> "manifests" -> k <> "checksum" -> k <> "restarting" ->
  state_values value problem !! k = if decide (k = "problem") then Some problem else None.
Proof.
  intros H1 H2 H3 H4. unfold state_values. destruct (is_str value "connected"), (truthy problem);
    repeat (rewrite lookup_insert || rewrite lookup_empty || rewrite lookup_singleton || rewrite lookup_union ||
      rewrite insert_empty); repeat case_decide; subst; done.
Qed.

Lemma state_mild value problem : mild (state_values value problem).
Proof. intros k Hk. rewrite state_get; [rewrite decide_False; [done|set_solver]|set_solver..]. Qed.

(** Values without what [updated] looks for. *)
Definition silent (v : jobj) : Prop := forall k, k ∈ ["color"; "label"; "os"] -> v !! k = None.

Lemma state_silent value problem : silent (state_values value problem).
Proof. intros k Hk. rewrite state_get; [rewrite decide_False; [done|set_solver]|set_solver..]. Qed.

Lemma silent_costs host v l : wf l -> host ∈ keys l -> mild v -> silent v ->
  let l' := overlaid host v l in
  (cost host l' <= Nat.b2n (no_color host l) + Nat.b2n (other_label host l) + Nat.b2n (other_os host l) +
    Nat.b2n (to_connect host l') + Nat.b2n (to_disconnect host l))%nat.
Proof.
  intros Hw Hin Hv Hm l'. pose proof (wf_plain _ _ _ Hw host Hin) as Hp.
  destruct (overlaid_machine host v l Hw Hp Hv) as (_ & _ & _ & Hg & _ & Hc & _ & Hl).
  fold l' in Hg, Hc, Hl. specialize (Hl Hin) as [_ Hl]. unfold cost.
  rewrite Hc by (apply Hm; set_solver).
  assert (other_label host l' = other_label host l) as ->.
  { unfold other_label. by rewrite Hl by (apply Hm; set_solver). }
  assert (other_os host l' = other_os host l) as ->.
  { unfold other_os. destruct (Hg "os" ltac:(set_solver)) as [c ->]. unfold given. by rewrite Hm by set_solver. }
  assert (to_disconnect host l' = to_disconnect host l) as ->; [|lia].
  unfold to_disconnect. unfold l'. by rewrite (overlaid_shown host v l host Hw Hp Hv).
Qed.

(** *** What is missing *)

Context (parse_color : jval -> string) (colors : list string).

#[local] Notation missing := (missing parse_color colors).

Lemma missing_get h l k :
  missing h (obj h l) l !! k =
  if decide (k = "os") then if other_os h l then Some (prop (proxy_props h l) "OperatingSystemPrettyName") else None
  else if decide (k = "label") then if other_label h l then Some (wanted_label (proxy_props h l)) else None
  else if decide (k = "color") then
    if no_color h l then Some (JStr (unused_color parse_color colors (ld_machines l))) else None
  else None.
Proof. apply missing_lookup. Qed.

Lemma missing_mild h l : mild (missing h (obj h l) l).
Proof.
  intros k Hk. rewrite missing_get. rewrite !decide_False; [done|set_solver..].
Qed.

Context (colors_named : forall c, c ∈ colors -> c <> "").

Lemma missing_named host l : wf l -> host ∈ keys l ->
  let l' := overlaid host (missing host (obj host l) l) l in
  no_color host l' = false /\ other_label host l' = false /\ other_os host l' = false /\
  to_connect host l' = to_connect host l /\ to_disconnect host l' = to_disconnect host l.
Proof.
  intros Hw Hin l'. pose proof (wf_sane _ _ _ Hw) as Hsa. pose proof (wf_plain _ _ _ Hw host Hin) as Hp.
  pose proof (missing_get host l) as Hm. set (v := missing host (obj host l) l) in *.
  destruct (overlaid_machine host v l Hw Hp (missing_mild host l)) as (_ & _ & _ & Hg & Hc1 & Hc2 & Hl1 & Hl2).
  fold l' in Hg, Hc1, Hc2, Hl1, Hl2. specialize (Hl2 Hin) as [_ Hl2].
  assert (v !! "os" = if other_os host l then Some (prop (proxy_props host l) "OperatingSystemPrettyName") else None) as Ho
    by (by rewrite Hm).
  assert (v !! "label" = if other_label host l then Some (wanted_label (proxy_props host l)) else None) as Hl
    by (by rewrite Hm).
  assert (v !! "color" = if no_color host l then Some (JStr (unused_color parse_color colors (ld_machines l))) else None)
    as Hc by (by rewrite Hm).
  assert (forall k, k ∈ ["visible"; "problem"] -> prop (obj host l') k = prop (obj host l) k) as Hsame.
  { intros k Hk. destruct (Hg k ltac:(set_solver)) as [c ->]. unfold given. rewrite Hm, !decide_False; [done|set_solver..]. }
  split; [|split; [|split; [|split]]].
  - destruct (no_color host l) eqn:E; [|by apply Hc2]. apply (Hc1 _ Hc).
    pose proof (unused_color_named parse_color colors colors_named (ld_machines l)) as Hn. by destruct (unused_color _ _ _).
  - unfold other_label at 1. replace (proxy_props host l') with (proxy_props host l) by done.
    destruct (other_label host l) eqn:E.
    + unfold other_label in E. cbv zeta in E. apply andb_true_iff in E as [E _].
      rewrite (Hl1 _ Hl E). destruct (wanted_text l host Hsa E) as [w ->]. cbn. by rewrite String.eqb_refl, andb_false_r.
    + rewrite (Hl2 Hl). exact E.
  - unfold other_os at 1. replace (proxy_props host l') with (proxy_props host l) by done.
    destruct (Hg "os" ltac:(set_solver)) as [c ->]. unfold given. rewrite Ho. destruct (other_os host l) eqn:E; [|exact E].
    unfold other_os in E. cbv zeta in E. apply andb_true_iff in E as [E _].
    destruct (os_text l host Hsa E) as [w ->]. assert (loose_eq (JStr w) (JStr w) = true) as Hr by apply String.eqb_refl.
    cbn [is_null]. cbv iota. by rewrite Hr, andb_false_r.
  - unfold to_connect, shown, troubled. rewrite !Hsame by set_solver. done.
  - unfold to_disconnect, shown. rewrite !Hsame by set_solver. done.
Qed.

Lemma missing_lowers host l : wf l -> host ∈ keys l -> missing host (obj host l) l <> ∅ ->
  (cost host (overlaid host (missing host (obj host l) l) l) + 1 <= cost host l)%nat.
Proof.
  intros Hw Hin Hne. destruct (missing_named host l Hw Hin) as (E1 & E2 & E3 & E4 & E5).
  unfold cost. rewrite E1, E2, E3, E4, E5. cbn.
  destruct (no_color host l) eqn:F1; [cbn; lia|]. destruct (other_label host l) eqn:F2; [cbn; lia|].
  destruct (other_os host l) eqn:F3; [cbn; lia|]. exfalso. apply Hne. by apply missing_nothing.
Qed.

End Settle.
