(* ===== verification/LoaderNested.v ===== *)
(** * The handlers of the loader settle what they find

    With enough fuel, a change of the overlay from within a handler leaves nothing
    to do; disconnecting a machine leaves no more to do than there was. *)

From stdpp Require Import list_numbers.
From S2P Require Import Prelude Machines MachinesSpec Loader LoaderMachines LoaderSpec LoaderSettle.

Section Nested.
Context (application hostname : string).

#[local] Notation machines_overlay := (Machines.overlay application hostname).
#[local] Notation wf := (wf application hostname).
#[local] Notation calm := (calm application hostname).
#[local] Notation overlaid := (overlaid application hostname).

(** ** What is assumed of the calls from within *)

(** A change ends when less than [n] is to do after it, and nothing is left then. *)
Definition overlay_ends (n : nat) (ov : string -> jobj -> loader -> loader) : Prop :=
  forall host v l, wf l -> plain host -> mild v -> (total (overlaid host v l) < n)%nat ->
    calm [] (overlaid host v l) (ov host v l) /\ firm (overlaid host v l) (ov host v l) /\
    total (ov host v l) = 0%nat.

(** What disconnecting does when there is no channel. *)
Definition let_go (h : string) (l : loader) : loader := disconnect_body (fun _ _ l => l) (fun _ l => l) h l.

(** What a machine has still to be given. *)
Definition nameless (h : string) (l : loader) : nat :=
  Nat.b2n (no_color h l) + Nat.b2n (other_label h l) + Nat.b2n (other_os h l).

(** What is left of the machines when one is disconnected. *)
Record gone (h : string) (l l' : loader) : Prop := {
  go_calm : calm [h] l l';
  go_firm : firm l l';
  go_connected : connected h l' = false;
  go_cost : forall g, g ∈ keys l -> g <> h \/ shown h l = false \/ troubled h l = true -> (cost g l' <= cost g l)%nat;
  go_nameless : h ∈ keys l -> (nameless h l' <= nameless h l)%nat;
  go_added : forall g, g ∈ keys l' -> g ∉ keys l -> cost g l' = 0%nat }.

Definition disconnect_ends (n : nat) (dc : string -> loader -> loader) : Prop :=
  (forall h l, h = "localhost" \/ assoc_get h (ld_channels l) = None -> dc h l = let_go h l) /\
  forall h l, wf l -> plain h -> h <> "localhost" ->
    (total l + 7 <= n)%nat \/ (h ∈ keys l /\ shown h l = false /\ (total l <= n)%nat) -> gone h l (dc h l).

(** ** Connecting *)

Lemma lookup_plain h m : plain h -> Machines.lookup h m = assoc_get h (m_machines m).
Proof. intros [E Hne]. unfold Machines.lookup. rewrite E. by rewrite (proj2 (String.eqb_neq h "")). Qed.

Lemma keys_get h l : h ∈ keys l -> assoc_get h (m_machines (ld_machines l)) = Some (obj h l).
Proof.
  intros Hin. unfold obj, object. destruct (assoc_get _ _) as [m|] eqn:E; [done|]. by apply assoc_get_None in E.
Qed.

Lemma get_keys h l m : assoc_get h (m_machines (ld_machines l)) = Some m -> h ∈ keys l.
Proof. intros E%assoc_get_elem. apply list_elem_of_fmap. by exists (h, m). Qed.

Lemma connected_false h l : connected h l = false <-> assoc_get h (ld_channels l) = None.
Proof.
  unfold connected. case_bool_decide as E; destruct (assoc_get h (ld_channels l)); try done; by destruct E.
Qed.

(** Everything up to the first change of the overlay. *)
Record opened (h : string) (l l1 : loader) : Prop := {
  op_machines : ld_machines l1 = ld_machines l;
  op_sane : sane l1;
  op_connected : forall g, connected g l1 = connected g l || String.eqb h g;
  op_leaner : forall g, leaner g l l1 }.

Lemma connect_opened ov h l : wf l -> h ∈ keys l -> connected h l = false ->
  exists l1 value, opened h l l1 /\ connect ov h l = ov h (state_values value JNull) l1.
Proof.
  intros Hw Hin Hc. pose proof (wf_plain _ _ _ Hw h Hin) as Hp. pose proof (wf_sane _ _ _ Hw) as Hs.
  unfold connect. rewrite (lookup_plain h _ Hp), (keys_get h l Hin). apply connected_false in Hc as Hn. rewrite Hn. cbv zeta.
  set (k := mk_conn _ _ _ _ _ _). set (l0 := do _ _).
  assert (sane l0) as Hs0 by by apply do_sane, open_sane.
  assert (ld_conns l0 !! ld_next l = Some k) as Hk by apply lookup_insert_eq.
  assert (forall g, connected g l0 = connected g l || String.eqb h g) as Hc0.
  { intros g. unfold connected. cbn. rewrite assoc_get_set. destruct (String.eqb h g); [by rewrite orb_true_r|by rewrite orb_false_r]. }
  assert (forall g, proxy_props g l0 = proxy_props g l) as Hl0 by done.
  assert (ld_machines l0 = ld_machines l) as Hm0 by done. clearbody l0. cbn in Hk.
  set (l1 := if String.eqb h "localhost" then _ else _).
  assert (opened h l l1 /\ exists k1, ld_conns l1 !! ld_next l = Some k1 /\ k_host k1 = h) as [Ho (k1 & Hk1 & Hh)].
  { unfold l1. destruct (String.eqb h "localhost").
    - set (l2 := request_manifest _ l0).
      assert (sane l2) as Hs2 by by apply request_manifest_sane.
      assert (ld_machines l2 = ld_machines l0 /\ ld_channels l2 = ld_channels l0 /\ (forall g, proxy_props g l2 = proxy_props g l0) /\
        exists k1, ld_conns l2 !! ld_next l = Some k1 /\ k_host k1 = h) as (E1 & E2 & E3 & Ek).
      { unfold l2, request_manifest. rewrite Hk. destruct (k_url k); [|by eauto 6]. split; [done|]. split; [done|]. split; [done|].
        cbn. rewrite lookup_alter_eq, Hk. by eexists. }
      clearbody l2. split.
      + split.
        * unfold request_hostname. case_match; cbn; congruence.
        * apply request_hostname_sane; [done|]. by apply watch_manifests_sane.
        * intros g. rewrite <- Hc0. unfold request_hostname. case_match; unfold connected; cbn; by rewrite E2.
        * intros g. destruct (request_hostname_props h (obj h l) (watch_manifests h (obj h l) l2) g) as [H|H];
            [by apply watch_manifests_sane|left|by right]. rewrite H. change (proxy_props g l2 = proxy_props g l). by rewrite E3.
      + unfold request_hostname. case_match; exact Ek.
    - split; [|by exists k]. split; [done|by apply do_sane|exact Hc0|intros g; left; exact (Hl0 g)]. }
  exists l1. unfold whirl. rewrite Hk1, Hh. destruct (negb _ && _); eexists; split; done.
Qed.

Lemma opened_calm h l l1 : wf l -> h ∈ keys l -> opened h l l1 -> calm [] l l1.
Proof.
  intros Hw Hin []. apply calm_same; try done. intros g. rewrite op_connected0, orb_true_iff.
  intros [?|<-%String.eqb_eq]; [by left|by right].
Qed.

Lemma opened_cost h l l1 : wf l -> h ∈ keys l -> opened h l l1 -> connected h l = false ->
  (forall g, g <> h -> (cost g l1 <= cost g l)%nat) /\ (cost h l1 <= cost h l + 1)%nat /\
  (to_connect h l = true -> (cost h l1 + 1 <= cost h l)%nat) /\
  (cost h l1 = Nat.b2n (no_color h l1) + Nat.b2n (other_label h l1) + Nat.b2n (other_os h l1) + Nat.b2n (to_disconnect h l1))%nat.
Proof.
  intros Hw Hin [Hm Hs Hc Hl] Hn. pose proof (alike_same h l l1 Hm) as Ha.
  destruct (leaner_label h l l1 Ha (Hl h)) as [E1 E2]. assert (connected h l1 = true) as Hc1 by (rewrite Hc, String.eqb_refl; apply orb_true_r).
  assert (no_color h l1 = no_color h l) as E3 by (unfold no_color; by rewrite (Ha "color")).
  assert (shown h l1 = shown h l) as E4 by (unfold shown; by rewrite (Ha "visible")).
  assert (to_connect h l1 = false) as E5 by (unfold to_connect; by rewrite Hc1, andb_false_r).
  split; [|split; [|split]].
  - intros g Hne. apply cost_alike; [by apply alike_same|done|]. rewrite Hc, (proj2 (String.eqb_neq h g)) by done. apply orb_false_r.
  - unfold cost. rewrite E3, E5. pose proof (b2n_le (to_disconnect h l1)). cbn. lia.
  - intros Ht. unfold cost. rewrite E3, E5, Ht. unfold to_disconnect. rewrite E4. unfold to_connect in Ht.
    destruct (shown h l); [cbn; lia|done].
  - unfold cost. rewrite E5. cbn. lia.
Qed.

Lemma connect_ends n ov h l : overlay_ends n ov -> wf l -> h ∈ keys l -> connected h l = false ->
  (total l + 2 <= n)%nat \/ (to_connect h l = true /\ (total l <= n)%nat) ->
  calm [] l (connect ov h l) /\ (to_connect h l = true -> firm l (connect ov h l)) /\ total (connect ov h l) = 0%nat.
Proof.
  intros Hov Hw Hin Hn Hb. destruct (connect_opened ov h l Hw Hin Hn) as (l1 & value & Ho & ->).
  pose proof (opened_calm h l l1 Hw Hin Ho) as Hc1. destruct (opened_cost h l l1 Hw Hin Ho Hn) as (Hot & Hh & Hto & Heq).
  pose proof (ca_wf _ _ _ _ _ Hc1) as Hw1. pose proof (wf_plain _ _ _ Hw h Hin) as Hp.
  assert (h ∈ keys l1) as Hin1 by by apply (ca_grow _ _ _ _ _ Hc1).
  set (v := state_values value JNull). pose proof (state_mild value JNull) as Hv. fold v in Hv.
  assert (connected h l1 = true) as Hcon by (rewrite (op_connected _ _ _ Ho), String.eqb_refl; apply orb_true_r).
  assert (cost h (overlaid h v l1) <= cost h l1)%nat as Hle.
  { pose proof (silent_costs application hostname h v l1 Hw1 Hin1 Hv (state_silent _ _)) as H. cbv zeta in H.
    assert (to_connect h (overlaid h v l1) = false) as E
      by (unfold to_connect; replace (connected h (overlaid h v l1)) with true; by rewrite andb_false_r). rewrite E in H. cbn in H. lia. }
  pose proof (overlaid_total application hostname h v l1 0 Hw1 Hp Hv Hin1 ltac:(lia)) as Ht.
  assert (total l1 + (if to_connect h l then 1 else 0) <= total l + (if to_connect h l then 0 else 1))%nat as Ht1.
  { destruct (to_connect h l) eqn:Et.
    - rewrite Nat.add_0_r. apply (total_lt application hostname l l1 h); try done; [by eapply calm_keys| |by apply Hto].
      intros g _. destruct (decide (g = h)) as [-> |]; [specialize (Hto eq_refl); lia|by apply Hot].
    - rewrite Nat.add_0_r. apply (total_grow application hostname l l1 h); try done; [by eapply calm_keys|].
      intros g _ Hne. by apply Hot. }
  assert (total (overlaid h v l1) < n)%nat as Hlt.
  { destruct Hb as [Hb|[Hb1 Hb2]]; [destruct (to_connect h l); lia|rewrite Hb1 in Ht1; lia]. }
  destruct (Hov h v l1 Hw1 Hp Hv Hlt) as (Hc2 & Hf2 & Hz).
  assert (calm [] l1 (overlaid h v l1)) as Hc3 by by eapply calm_known, overlaid_calm.
  split; [|split; [|done]].
  - eapply calm_trans_nil; [|exact Hc2]. by eapply calm_trans_nil.
  - intros Hcon1. unfold to_connect in Hcon1. apply andb_true_iff in Hcon1 as [[Hsh Htr]%andb_true_iff _].
    apply negb_true_iff in Htr. pose proof (firm_same l l1 (op_machines _ _ _ Ho)) as Hf1.
    apply (firm_trans application hostname [] l l1); [exact Hc1| |].
    + apply Hf1. intros g Hsg Htg. rewrite (op_connected _ _ _ Ho), orb_true_iff. intros [?|<-%String.eqb_eq]; [done|].
      by rewrite Htr in Htg.
    + apply (firm_trans application hostname [] l1 (overlaid h v l1)); [exact Hc3| |exact Hf2]. apply overlaid_firm; try done. left.
      assert (troubled h l1 = troubled h l) as ->; [|by rewrite Htr, andb_false_r].
      unfold troubled. by rewrite (proj2 (same_keys l l1 (op_machines _ _ _ Ho))).
Qed.

(** ** Disconnecting *)

(** States that differ next to the machines, where no channel has come. *)
Record beside (l l' : loader) : Prop := {
  be_machines : ld_machines l' = ld_machines l;
  be_sane : sane l';
  be_connected : forall g, connected g l' = true -> connected g l = true;
  be_leaner : forall g, leaner g l l' }.

Lemma beside_refl l : sane l -> beside l l.
Proof. split; [done..| |]; intros g; [done|by left]. Qed.

Lemma beside_trans l l' l'' : beside l l' -> beside l' l'' -> beside l l''.
Proof.
  intros [M1 S1 C1 L1] [M2 S2 C2 L2]. split; [congruence|done| |]; intros g.
  - intros H. by apply C1, C2.
  - destruct (L2 g) as [H2|H2], (L1 g) as [H1|H1]; unfold leaner; rewrite H2, ?H1; auto.
Qed.

Lemma beside_calm l l' : wf l -> beside l l' -> calm [] l l' /\ firm l l'.
Proof.
  intros Hw [M S C L]. split; [apply calm_same; [done..|]|apply firm_same; [done|]].
  - intros g Hg. left. by apply C.
  - intros g _ _ Hg. by apply C.
Qed.

(** What the channel of a machine that need not have one adds is taken away. *)
Lemma beside_cost l l' g : beside l l' ->
  connected g l' = connected g l \/ shown g l = false \/ troubled g l = true -> (cost g l' <= cost g l)%nat.
Proof.
  intros [M S C L] H. pose proof (alike_same g l l' M) as Ha. destruct (leaner_label g l l' Ha (L g)).
  unfold cost, to_connect, to_disconnect, no_color. rewrite (Ha "color") by done.
  replace (shown g l') with (shown g l) by (unfold shown; by rewrite (Ha "visible")).
  replace (troubled g l') with (troubled g l) by (unfold troubled; by rewrite (Ha "problem")).
  specialize (C g). destruct H as [-> |[-> | ->]]; [lia|cbn..].
  - destruct (connected g l'); [rewrite C by done; lia|]. cbn. destruct (connected g l), (String.eqb g "localhost"); cbn; lia.
  - rewrite andb_false_r. cbn.
    destruct (connected g l'); [rewrite C by done; lia|]. rewrite andb_false_r. cbn. lia.
Qed.

(** The proxy and the watch of a machine. *)
Definition let_rest (host : string) (l : loader) : loader :=
  let proxy := assoc_get host (ld_proxies l) in
  let l := l <| ld_proxies ::= assoc_del host |> in
  let l := match proxy with
           | Some x => do (LCloseProxy x) (l <| ld_proxy ::= alter (fun x => x <| x_listening := false |>) x |>)
           | None => l
           end in
  match assoc_get host (ld_watches l) with
  | Some _ => do (LCloseWatch host) (l <| ld_watches ::= assoc_del host |>)
  | None => l
  end.

Lemma disconnect_unfold ov dc h l : h <> "localhost" ->
  disconnect_body ov dc h l =
  let_rest h (match assoc_get h (ld_channels l) with
              | Some id => close_channel ov dc id (l <| ld_channels ::= assoc_del h |>)
              | None => l <| ld_channels ::= assoc_del h |>
              end).
Proof. intros Hne. unfold disconnect_body. by rewrite (proj2 (String.eqb_neq h "localhost")). Qed.

Lemma let_rest_beside h l : sane l -> beside l (let_rest h l).
Proof.
  intros [Hch Hco Hpr Hps Hw Hst]. unfold let_rest. set (l1 := match assoc_get h (ld_proxies l) with Some _ => _ | None => _ end).
  assert (beside l l1) as [M S C L].
  { assert (forall g, (assoc_get g (assoc_del h (ld_proxies l)) ≫= fun x => ld_proxy l !! x) =
      if String.eqb h g then None else assoc_get g (ld_proxies l) ≫= fun x => ld_proxy l !! x) as Hg.
    { intros g. rewrite assoc_get_del. by destruct (String.eqb h g). }
    unfold l1. destruct (assoc_get h (ld_proxies l)) as [x|] eqn:Ex.
    - split; [done| |done|].
      + split; cbn; try done.
        * intros g y. rewrite assoc_get_del. case_match; [done|]. intros (p & Hp & Hh)%Hpr.
          destruct (decide (x = y)) as [<-|Hxy].
          -- rewrite lookup_alter_eq, Hp. by eexists.
          -- rewrite lookup_alter_ne by done. by exists p.
        * intros y p. destruct (decide (x = y)) as [<-|Hxy]; [rewrite lookup_alter_eq|rewrite lookup_alter_ne by done; apply Hps].
          intros (q & Hq & ->)%fmap_Some. exact (Hps _ _ Hq).
      + intros g. unfold leaner, proxy_props. cbn. destruct (String.eqb_spec h g) as [<-|Hne].
        * right. rewrite assoc_get_del, String.eqb_refl. done.
        * left. rewrite assoc_get_del, (proj2 (String.eqb_neq h g)) by done.
          destruct (assoc_get g (ld_proxies l)) as [y|]; [|done]. cbn.
          destruct (decide (x = y)) as [<-|]; [rewrite lookup_alter_eq|by rewrite lookup_alter_ne].
          by destruct (ld_proxy l !! x).
    - split; [done| |done|].
      + split; cbn; try done. intros g y. rewrite assoc_get_del. case_match; [done|]. eauto.
      + intros g. unfold leaner, proxy_props. cbn. rewrite Hg. destruct (String.eqb h g); [by right|by left]. }
  clearbody l1. apply (beside_trans l l1); [by split|]. destruct (assoc_get h (ld_watches l1)); [|by apply beside_refl].
  split; [done| |done|by left]. destruct S. split; cbn; try done.
  intros g. rewrite assoc_get_del. case_match; [by intros []|auto].
Qed.

Lemma let_rest_channels h l : ld_channels (let_rest h l) = ld_channels l.
Proof. unfold let_rest. by repeat case_match. Qed.

Lemma drop_channel_beside h l : sane l -> beside l (l <| ld_channels ::= assoc_del h |>).
Proof.
  intros Hs. split; [done|by apply drop_channel_sane| |by left]. intros g. unfold connected. cbn.
  rewrite assoc_get_del. by destruct (String.eqb h g).
Qed.

Lemma drop_channel_connected h l g :
  connected g (l <| ld_channels ::= assoc_del h |>) = connected g l && negb (String.eqb h g).
Proof.
  unfold connected. cbn. rewrite assoc_get_del.
  destruct (String.eqb h g); [by rewrite andb_false_r|by rewrite andb_true_r].
Qed.

Lemma let_go_beside h l : h <> "localhost" -> assoc_get h (ld_channels l) = None -> sane l ->
  beside l (let_go h l) /\ forall g, connected g (let_go h l) = connected g l.
Proof.
  intros Hne Hn Hs. unfold let_go. rewrite disconnect_unfold, Hn by done.
  pose proof (drop_channel_beside h l Hs) as Hb. split.
  - eapply beside_trans; [exact Hb|]. apply let_rest_beside, (be_sane _ _ Hb).
  - intros g. unfold connected at 1. rewrite let_rest_channels.
    change (connected g (l <| ld_channels ::= assoc_del h |>) = connected g l). rewrite drop_channel_connected.
    destruct (String.eqb_spec h g) as [<-|]; [|by rewrite andb_true_r]. by rewrite (proj2 (connected_false h l)).
Qed.

(** Noting the state of a machine that is not shown, or that has failed. *)
Lemma failing_ends n ov h value problem l : overlay_ends n ov -> wf l -> plain h -> h <> "localhost" ->
  shown h l = false \/ truthy problem = true ->
  (total (overlaid h (state_values value problem) l) < n)%nat ->
  let l' := ov h (state_values value problem) l in
  calm [h] l l' /\ firm l l' /\ total l' = 0%nat /\ (shown h l = true -> troubled h l' = true) /\
  (connected h l' = true -> connected h l = true).
Proof.
  intros Hov Hw Hp Hne Hf Hlt l'. pose proof (state_mild value problem) as Hv. pose proof (state_get value problem "problem") as Hg.
  cbn in Hg. set (v := state_values value problem) in *. destruct (Hov h v l Hw Hp Hv Hlt) as (Hc & Hfi & Hz).
  fold l' in Hc, Hfi, Hz. pose proof (overlaid_calm application hostname h v l Hw Hp Hv) as Hc0.
  assert (v !! "problem" = Some problem) as Hvp by by apply Hg.
  split; [by eapply calm_trans_nil|]. split; [|split; [done|]].
  - apply (firm_trans application hostname [h] l (overlaid h v l)); [done| |done]. apply overlaid_firm; try done.
    destruct Hf as [-> |Hf]; [by left|]. right. right. by eexists.
  - assert (shown h l = true -> shown h (overlaid h v l) = true /\ troubled h (overlaid h v l) = true) as Hsh.
    { intros Hsh. split; [by rewrite (ca_shown _ _ _ _ _ Hc0)|]. destruct Hf as [Hf|Hf]; [by rewrite Hf in Hsh|].
      destruct (overlaid_machine application hostname h v l Hw Hp Hv) as (_ & _ & _ & Hgv & _). unfold troubled.
      destruct (Hgv "problem" ltac:(set_solver)) as [c ->]. unfold given. rewrite Hvp. by destruct problem. }
    split; [intros H; by apply Hfi; apply Hsh|]. intros Hcon. destruct (shown h l) eqn:Es.
    + by apply (Hfi h); [apply Hsh..|].
    + assert (h ∈ keys l') as Hin.
      { apply (ca_grow _ _ _ _ _ Hc). destruct (overlaid_machine application hostname h v l Hw Hp Hv) as (_ & Hk & _). apply Hk. by left. }
      pose proof (total_zero l' Hz h Hin) as H0. unfold cost in H0.
      assert (to_disconnect h l' = true) as Ht.
      { unfold to_disconnect. rewrite (ca_shown _ _ _ _ _ Hc), (ca_shown _ _ _ _ _ Hc0), Es, Hcon.
        by rewrite (proj2 (String.eqb_neq h "localhost")). }
      rewrite Ht in H0. cbn in H0. lia.
Qed.

Lemma upd_conn_beside id f l : (forall k, k_host (f k) = k_host k) -> sane l -> beside l (upd_conn id f l).
Proof. intros Hf Hs. split; [done|by apply upd_conn_sane|done|by left]. Qed.

Lemma do_beside e l : sane l -> beside l (do e l).
Proof. intros Hs. split; [done|by apply do_sane|done|by left]. Qed.

(** Handlers do not leave [firm] behind when machines are added. *)
Lemma beside_total l l' : wf l -> beside l l' ->
  (forall g, connected g l' = connected g l) -> (total l' <= total l)%nat.
Proof.
  intros Hw Hb Hc. destruct (beside_calm l l' Hw Hb) as [Hcalm _]. eapply less_total; [exact Hw|exact Hcalm|].
  intros g _. apply beside_cost; auto.
Qed.

(** A channel that is told of its closing, when it has been forgotten. *)
Lemma closed_ends n ov dc id k problem l :
  overlay_ends n ov -> (forall l, assoc_get (k_host k) (ld_channels l) = None -> dc (k_host k) l = let_go (k_host k) l) ->
  wf l -> ld_conns l !! id = Some k -> plain (k_host k) -> k_host k <> "localhost" -> connected (k_host k) l = false ->
  (forall v, mild v -> silent v -> (total (overlaid (k_host k) v l) < n)%nat) ->
  calm [k_host k] l (closed ov dc id problem l) /\ firm l (closed ov dc id problem l) /\
  total (closed ov dc id problem l) = 0%nat /\ connected (k_host k) (closed ov dc id problem l) = false.
Proof.
  intros Hov Hdc Hw Hid Hp Hne Hn Hlt. unfold closed. rewrite Hid. cbv zeta. set (h := k_host k) in *.
  set (l1 := upd_conn id _ l). set (m := Machines.lookup h (ld_machines l)).
  assert (beside l l1) as Hb1 by by (apply upd_conn_beside; [done|]; apply Hw).
  destruct (beside_calm l l1 Hw Hb1) as [Hc1 Hf1]. pose proof (ca_wf _ _ _ _ _ Hc1) as Hw1.
  set (vis := match m with Some m => truthy (prop m "visible") | None => true end).
  assert (vis = false -> shown h l1 = false) as Hvis.
  { unfold vis, m. rewrite (lookup_plain h _ Hp). unfold shown, obj, object.
    change (ld_machines l1) with (ld_machines l). by destruct (assoc_get h (m_machines (ld_machines l))). }
  set (l2 := if negb (truthy problem) && negb vis then _ else _).
  assert (calm [h] l1 l2 /\ firm l1 l2 /\ total l2 = 0%nat /\ (connected h l2 = true -> connected h l1 = true)) as (Hc2 & Hf2 & Hz & Hcon).
  { assert (forall value p, (total (overlaid h (state_values value p) l1) < n)%nat) as Hlt1.
    { intros value p. apply (Hlt (state_values value p)); [apply state_mild|apply state_silent]. }
    unfold l2, state. destruct (truthy problem) eqn:Et; cbn [negb andb].
    - edestruct (failing_ends n ov h) as (? & ? & ? & _ & ?); try done; by eauto.
    - destruct vis; cbn [negb].
      + edestruct (failing_ends n ov h (JStr "failed") (JStr "disconnected") l1) as (? & ? & ? & _ & ?); try done; by eauto.
      + edestruct (failing_ends n ov h JNull JNull l1) as (? & ? & ? & _ & ?); try done; by eauto. }
  assert (connected h l2 = false) as Hn2.
  { apply not_true_is_false. intros H%Hcon. change (connected h l = true) in H. by rewrite Hn in H. }
  clearbody l2. pose proof (ca_wf _ _ _ _ _ Hc2) as Hw2.
  set (l3 := if match m with Some m => _ | None => false end then do (LRestart h) l2 else l2).
  assert (beside l2 l3 /\ forall g, connected g l3 = connected g l2) as [Hb3 Hc3].
  { unfold l3. destruct (match m with Some _ => _ | None => false end).
    - split; [apply do_beside, Hw2|done].
    - split; [apply beside_refl, Hw2|done]. }
  clearbody l3. rewrite Hdc by (apply connected_false; by rewrite Hc3).
  destruct (let_go_beside h l3 Hne) as [Hb4 Hc4]; [apply connected_false; by rewrite Hc3|apply Hb3|].
  pose proof (beside_trans _ _ _ Hb3 Hb4) as Hb. destruct (beside_calm l2 _ Hw2 Hb) as [Hc Hf].
  split; [|split; [|split]].
  - eapply calm_trans_nil; [|exact Hc]. change [h] with ([] ++ [h]). by eapply calm_trans.
  - apply (firm_trans application hostname [] l l1); [done|done|]. by apply (firm_trans application hostname [h] l1 l2).
  - pose proof (beside_total l2 _ Hw2 Hb) as H. rewrite Hz in H. cut (total (let_go h l3) <= 0)%nat; [lia|].
    apply H. intros g. by rewrite Hc4, Hc3.
  - by rewrite Hc4, Hc3.
Qed.

Lemma calm_weaken new l l' : calm [] l l' -> calm new l l'.
Proof. intros [W G N S C O]. split; try done. intros h [?|[]%not_elem_of_nil]%N. by left. Qed.

Lemma beside_gone h l l' : wf l -> beside l l' -> connected h l' = false ->
  (forall g, g <> h -> connected g l' = connected g l) -> gone h l l'.
Proof.
  intros Hw Hb Hn Hc. destruct (beside_calm l l' Hw Hb) as [Hcalm Hf]. split; [by apply calm_weaken|done|done| | |].
  2: { intros _. pose proof (alike_same h l l' (be_machines _ _ Hb)) as Ha.
       destruct (leaner_label h l l' Ha (be_leaner _ _ Hb h)). unfold nameless, no_color. rewrite (Ha "color") by done. lia. }
  - intros g _ [Hne|Hg]; (apply beside_cost; [done|]); [left; by apply Hc|]. destruct (decide (g = h)) as [-> |]; [by right|].
    left. by apply Hc.
  - intros g Hin Hout. by apply (calm_keys _ _ _ _ Hcalm) in Hin.
Qed.

(** What is left when the channel of a machine has been forgotten and noted. *)
Lemma forgotten_total n h v l l1 : wf l -> plain h -> h <> "localhost" -> beside l l1 ->
  connected h l = true -> (forall g, connected g l1 = connected g l && negb (String.eqb h g)) ->
  (total l + 7 <= n)%nat \/ (h ∈ keys l /\ shown h l = false /\ (total l <= n)%nat) ->
  mild v -> silent v -> (total (overlaid h v l1) < n)%nat.
Proof.
  intros Hw Hp Hne Hb Hcon Hc Hn Hv Hs.
  destruct (beside_calm l l1 Hw Hb) as [Hcalm _].
  pose proof (ca_wf _ _ _ _ _ Hcalm) as Hw1. pose proof (calm_keys _ _ _ _ Hcalm) as Hk.
  assert (connected h l1 = false) as Hc1 by by rewrite Hc, String.eqb_refl, andb_false_r.
  assert (forall g, g <> h -> (cost g l1 <= cost g l)%nat) as Hot.
  { intros g Hg. apply beside_cost; [done|]. left. by rewrite Hc, (proj2 (String.eqb_neq h g)), andb_true_r by done. }
  destruct Hn as [Hn|(Hin & Hsh & Hn)].
  - pose proof (overlaid_bound application hostname h v l1 Hw1 Hp Hv).
    assert (total l1 <= total l + 1)%nat; [|lia].
    apply (total_grow application hostname l l1 h); try done; [auto|].
    destruct (leaner_label h l l1 (alike_same h l l1 (be_machines _ _ Hb)) (be_leaner _ _ Hb h)).
    unfold cost, to_disconnect. rewrite Hc1, andb_false_r. cbn.
    replace (no_color h l1) with (no_color h l) by (unfold no_color; by rewrite (proj2 (same_keys l l1 (be_machines _ _ Hb)))).
    pose proof (b2n_le (to_connect h l1)). lia.
  - assert (h ∈ keys l1) as Hin1 by by apply Hk.
    assert (shown h l1 = false) as Hsh1 by by rewrite (ca_shown _ _ _ _ _ Hcalm).
    assert (cost h l1 + 1 <= cost h l)%nat as Hl1.
    { destruct (leaner_label h l l1 (alike_same h l l1 (be_machines _ _ Hb)) (be_leaner _ _ Hb h)).
      unfold cost, to_connect, to_disconnect. rewrite Hc1, Hsh, Hsh1, Hcon, (proj2 (String.eqb_neq h "localhost")) by done. cbn.
      replace (no_color h l1) with (no_color h l) by (unfold no_color; by rewrite (proj2 (same_keys l l1 (be_machines _ _ Hb)))). lia. }
    assert (total l1 + 1 <= total l)%nat as Hl1t.
    { apply (total_lt application hostname l l1 h); try done. intros g _.
      destruct (decide (g = h)) as [-> |]; [lia|by apply Hot]. }
    assert (total (overlaid h v l1) + 0 <= total l1)%nat as Hov; [|lia].
    apply overlaid_total; try done. rewrite Nat.add_0_r.
    pose proof (silent_costs application hostname h v l1 Hw1 Hin1 Hv Hs) as Hq. cbv zeta in Hq.
    assert (to_connect h (overlaid h v l1) = false) as E.
    { unfold to_connect. by rewrite (overlaid_shown application hostname h v l1 h Hw1 Hp Hv), Hsh1. }
    rewrite E in Hq. unfold cost at 2. cbn in Hq. lia.
Qed.

Lemma close_channel_ends n ov dc id k l :
  overlay_ends n ov -> (forall l, assoc_get (k_host k) (ld_channels l) = None -> dc (k_host k) l = let_go (k_host k) l) ->
  wf l -> ld_conns l !! id = Some k -> k_host k <> "localhost" -> connected (k_host k) l = false ->
  (forall l1 v, beside l l1 -> (forall g, connected g l1 = connected g l) -> mild v -> silent v ->
     (total (overlaid (k_host k) v l1) < n)%nat) ->
  (beside l (close_channel ov dc id l) /\ forall g, connected g (close_channel ov dc id l) = connected g l) \/
  (calm [k_host k] l (close_channel ov dc id l) /\ firm l (close_channel ov dc id l) /\
   total (close_channel ov dc id l) = 0%nat /\ connected (k_host k) (close_channel ov dc id l) = false).
Proof.
  intros Hov Hdc Hw Hid Hne Hn Hlt. pose proof (wf_sane _ _ _ Hw) as Hs. unfold close_channel. rewrite Hid. cbv zeta.
  destruct (k_closed k) eqn:Ecl; [left; split; [by apply upd_conn_beside|done]|].
  set (l1 := do (LClose id) _).
  assert (beside l l1) as Hb1.
  { eapply beside_trans; [apply (upd_conn_beside id (fun k => k <| k_closed := true |>)); done|].
    apply do_beside. by apply upd_conn_sane. }
  destruct (beside_calm l l1 Hw Hb1) as [Hc1 Hf1]. pose proof (ca_wf _ _ _ _ _ Hc1) as Hw1.
  destruct (k_listening k) eqn:Eli.
  2: { left. split; [|done]. eapply beside_trans; [exact Hb1|]. apply upd_conn_beside; [done|]. apply Hw1. }
  right. assert (ld_conns l1 !! id = Some (k <| k_closed := true |>)) as Hid1.
  { cbn. by rewrite lookup_alter_eq, Hid. }
  destruct (closed_ends n ov dc id (k <| k_closed := true |>) JUndef l1) as (Hc2 & Hf2 & Hz & Hn2); try done.
  - exact (proj1 (sa_conn l Hs id k Hid)).
  - intros v Hv Hm. by apply (Hlt l1).
  - set (l2 := closed ov dc id JUndef l1) in *. cbn in Hc2, Hn2. pose proof (ca_wf _ _ _ _ _ Hc2) as Hw2.
    assert (beside l2 (upd_conn id (fun k => k <| k_listening := false |>) l2)) as Hb3.
    { apply upd_conn_beside; [done|]. apply Hw2. }
    destruct (beside_calm _ _ Hw2 Hb3) as [Hc3 Hf3]. split; [|split; [|split]].
    + eapply calm_trans_nil; [|exact Hc3]. change [k_host k] with ([] ++ [k_host k]). by eapply calm_trans.
    + apply (firm_trans application hostname [] l l1); [done|done|]. by apply (firm_trans application hostname [k_host k] l1 l2).
    + pose proof (beside_total l2 _ Hw2 Hb3 ltac:(done)). lia.
    + exact Hn2.
Qed.

Lemma disconnect_body_ends n ov dc h l :
  overlay_ends n ov -> (forall l, assoc_get h (ld_channels l) = None -> dc h l = let_go h l) ->
  wf l -> plain h -> h <> "localhost" ->
  (total l + 7 <= n)%nat \/ (h ∈ keys l /\ shown h l = false /\ (total l <= n)%nat) ->
  gone h l (disconnect_body ov dc h l).
Proof.
  intros Hov Hdc Hw Hp Hne Hb. pose proof (wf_sane _ _ _ Hw) as Hs. rewrite disconnect_unfold by done.
  set (l0 := l <| ld_channels ::= assoc_del h |>).
  assert (beside l l0) as Hb0 by by apply drop_channel_beside.
  assert (forall g, connected g l0 = connected g l && negb (String.eqb h g)) as Hc0 by apply drop_channel_connected.
  assert (connected h l0 = false) as Hn0 by by rewrite Hc0, String.eqb_refl, andb_false_r.
  destruct (beside_calm l l0 Hw Hb0) as [Hcalm0 Hf0]. pose proof (ca_wf _ _ _ _ _ Hcalm0) as Hw0.
  assert (forall l1, beside l0 l1 -> (forall g, connected g l1 = connected g l0) -> gone h l (let_rest h l1)) as Hquiet.
  { intros l1 Hb1 Hc1. pose proof (let_rest_beside h l1 (be_sane _ _ Hb1)) as Hb2.
    assert (forall g, connected g (let_rest h l1) = connected g l0) as Hc2.
    { intros g. rewrite <- Hc1. unfold connected. by rewrite let_rest_channels. }
    pose proof (beside_trans _ _ _ (beside_trans _ _ _ Hb0 Hb1) Hb2) as Hb012.
    apply beside_gone; [done|done|by rewrite Hc2|].
    intros g Hg. by rewrite Hc2, Hc0, (proj2 (String.eqb_neq h g)), andb_true_r by done. }
  destruct (assoc_get h (ld_channels l)) as [id|] eqn:Ech; [|apply Hquiet; [apply beside_refl, Hw0|done]].
  destruct (sa_channel l Hs h id Ech) as (k & Hid & <-).
  assert (connected (k_host k) l = true) as Hcon by (unfold connected; rewrite Ech; done).
  destruct (close_channel_ends n ov dc id k l0) as [[Hb1 Hc1]|(Hc1 & Hf1 & Hz & Hn1)]; try done.
  - intros l1 v Hb1 Hc1 Hv Hm. apply (forgotten_total n (k_host k) v l l1); try done; [by eapply beside_trans|].
    intros g. by rewrite Hc1.
  - by apply Hquiet.
  - set (l1 := close_channel ov dc id l0) in *. pose proof (ca_wf _ _ _ _ _ Hc1) as Hw1.
    pose proof (let_rest_beside (k_host k) l1 (wf_sane _ _ _ Hw1)) as Hb2.
    assert (forall g, connected g (let_rest (k_host k) l1) = connected g l1) as Hc2
      by (intros g; unfold connected; by rewrite let_rest_channels).
    destruct (beside_calm _ _ Hw1 Hb2) as [Hcalm2 Hf2].
    pose proof (beside_total _ _ Hw1 Hb2 Hc2) as Hz2. rewrite Hz in Hz2.
    assert (calm [k_host k] l (let_rest (k_host k) l1)) as Hcalm.
    { eapply calm_trans_nil; [|exact Hcalm2]. change [k_host k] with ([] ++ [k_host k]). by eapply calm_trans. }
    split; [done| |by rewrite Hc2| | |].
    + apply (firm_trans application hostname [] l l0); [done|done|]. by apply (firm_trans application hostname [k_host k] l0 l1).
    + intros g Hg _. pose proof (cost_total g _ (ca_grow _ _ _ _ _ Hcalm g Hg)). lia.
    + intros Hg. pose proof (cost_total (k_host k) _ (ca_grow _ _ _ _ _ Hcalm _ Hg)) as H0. unfold cost in H0. unfold nameless. lia.
    + intros g Hg _. pose proof (cost_total g _ Hg). lia.
Qed.

End Nested.
