(* ===== verification/LoaderEvents.v ===== *)
(** * The events of a change are handled to the end

    One event, the events of a change made by a handler, those of a change from
    outside, and the fuel that is enough for all of them. *)

From stdpp Require Import list_numbers.
From S2P Require Import Prelude Machines MachinesSpec Loader LoaderMachines LoaderSpec LoaderSettle LoaderNested.

Section Events.
Context (application hostname : string) (parse_color : jval -> string) (colors : list string).
Context (colors_named : forall c, c ∈ colors -> c <> "").

#[local] Notation machines_overlay := (Machines.overlay application hostname).
#[local] Notation missing := (missing parse_color colors).
#[local] Notation updated := (updated parse_color colors).
#[local] Notation handle := (handle parse_color colors).
#[local] Notation nested_overlay := (nested_overlay application hostname parse_color colors).
#[local] Notation nested_disconnect := (nested_disconnect application hostname parse_color colors).
#[local] Notation wf := (wf application hostname).
#[local] Notation calm := (calm application hostname).
#[local] Notation overlaid := (overlaid application hostname).
#[local] Notation overlay_ends := (overlay_ends application hostname).
#[local] Notation disconnect_ends := (disconnect_ends application hostname).
#[local] Notation gone := (gone application hostname).

(** ** One machine *)

Lemma current_obj given h l : plain h -> h ∈ keys l -> current given h l = Some (obj h l).
Proof.
  intros Hp Hin. unfold current, machine_at. rewrite (lookup_plain h _ Hp), (keys_get h l Hin). by destruct given.
Qed.

(** A state that has come about, with nothing left for [h]. *)
Record handled (h : string) (l l' : loader) : Prop := {
  ha_calm : calm [] l l';
  ha_less : less l l';
  ha_cost : cost h l' = 0%nat }.

Lemma zero_handled h l l' : h ∈ keys l -> calm [] l l' -> total l' = 0%nat -> handled h l l'.
Proof.
  intros Hin Hc Hz. split; [done|by eapply less_zero|]. apply (total_zero l' Hz). by apply (ca_grow _ _ _ _ _ Hc).
Qed.

Lemma cost_named h l : cost h l = 0%nat <->
  (no_color h l = false /\ other_label h l = false /\ other_os h l = false) /\ to_connect h l = false /\ to_disconnect h l = false.
Proof.
  unfold cost. split; [|by intros ((-> & -> & ->) & -> & ->)].
  destruct (no_color h l), (other_label h l), (other_os h l), (to_connect h l), (to_disconnect h l); cbn; done.
Qed.

(** What is missing is recorded. *)
Lemma record_missing n ov h l : overlay_ends n ov -> wf l -> h ∈ keys l -> (total l <= n)%nat ->
  let o := missing h (obj h l) l in
  let l1 := if bool_decide (o = ∅) then l else ov h o l in
  calm [] l l1 /\ firm l l1 /\ less l l1 /\ (o = ∅ /\ l1 = l \/ total l1 = 0%nat) /\
  no_color h l1 = false /\ other_label h l1 = false /\ other_os h l1 = false.
Proof.
  intros Hov Hw Hin Hn o l1. pose proof (wf_plain _ _ _ Hw h Hin) as Hp. unfold l1. case_bool_decide as Eo.
  - split; [by apply calm_refl|]. split; [by apply firm_refl|]. split; [by intros g|]. split; [by left|]. by apply missing_nothing in Eo.
  - pose proof (missing_mild parse_color colors h l) as Hv.
    pose proof (missing_lowers application hostname parse_color colors colors_named h l Hw Hin Eo) as Hl. fold o in Hv, Hl.
    pose proof (overlaid_total application hostname h o l 1 Hw Hp Hv Hin Hl) as Ht.
    destruct (Hov h o l Hw Hp Hv ltac:(lia)) as (Hc & Hf & Hz).
    pose proof (overlaid_calm application hostname h o l Hw Hp Hv) as Hc0. apply (calm_known _ _ _ _ _ Hin) in Hc0.
    assert (calm [] l (ov h o l)) as Hc1 by by eapply calm_trans_nil.
    split; [done|]. split; [|split; [by eapply less_zero|split; [by right|]]].
    + apply (firm_trans application hostname [] l (overlaid h o l)); [done| |done]. apply overlaid_firm; try done.
      right. left. unfold o. by rewrite (missing_get parse_color colors).
    + assert (h ∈ keys (ov h o l)) as Hin1 by by apply (ca_grow _ _ _ _ _ Hc1).
      pose proof (total_zero _ Hz h Hin1) as H0.
      exact (proj1 (proj1 (cost_named h _) H0)).
Qed.

(** The string of an event: a machine that is shown is where it was. *)
Definition same_place (h : string) (old : jval) (l : loader) : Prop :=
  shown h l = true -> truthy old && negb (loose_eq (conn_string h l) old) = false.

Lemma updated_ends n ov dc given h old l :
  overlay_ends n ov -> disconnect_ends n dc -> wf l -> h ∈ keys l -> (total l <= n)%nat -> same_place h old l ->
  let l' := updated ov dc given h old l in handled h l l' /\ firm l l'.
Proof.
  intros Hov [Hq Hdc] Hw Hin Hn Hs. unfold Loader.updated. pose proof (wf_plain _ _ _ Hw h Hin) as Hp.
  rewrite current_obj by done. cbv zeta. set (o := missing h (obj h l) l). set (l1 := if bool_decide (o = ∅) then l else ov h o l).
  destruct (record_missing n ov h l Hov Hw Hin Hn) as (Hc1 & Hf1 & Hl1 & Ho & Hnamed). fold o l1 in Hc1, Hf1, Hl1, Ho, Hnamed.
  pose proof (ca_wf _ _ _ _ _ Hc1) as Hw1. assert (h ∈ keys l1) as Hin1 by by apply (ca_grow _ _ _ _ _ Hc1).
  pose proof (less_total _ _ _ _ Hw Hc1 Hl1) as Hn1.
  assert (total l1 <= n)%nat as Hn1' by lia. clear Hn1.
  rewrite current_obj by done. cbn [default]. unfold id.
  assert (shown h l1 = true -> truthy old && negb (loose_eq (prop (obj h l1) "connection_string") old) = false) as Hsame.
  { intros Hsh. rewrite (ca_shown _ _ _ _ _ Hc1) in Hsh. specialize (Hs Hsh).
    change (prop (obj h l1) "connection_string") with (conn_string h l1). by rewrite (ca_string _ _ _ _ _ Hc1). }
  change (truthy (prop (obj h l1) "visible")) with (shown h l1). change (truthy (prop (obj h l1) "problem")) with (troubled h l1).
  clearbody l1. destruct (shown h l1) eqn:Esh.
  - rewrite Hsame by done. assert (to_disconnect h l1 = false) as Etd by (unfold to_disconnect; by rewrite Esh).
    destruct (troubled h l1) eqn:Etr.
    + split; [|done]. split; [done|done|]. apply cost_named. split; [done|]. split; [|done]. unfold to_connect. by rewrite Etr, andb_false_r.
    + destruct (connected h l1) eqn:Ec.
      * assert (connect ov h l1 = l1) as ->.
        { unfold connect. rewrite (lookup_plain h _ Hp), (keys_get h l1 Hin1).
          destruct (assoc_get h (ld_channels l1)) eqn:E; [done|]. apply connected_false in E. by rewrite E in Ec. }
        split; [|done]. split; [done|done|]. apply cost_named. split; [done|]. split; [|done]. unfold to_connect. by rewrite Ec, andb_false_r.
      * assert (to_connect h l1 = true) as Etc by (unfold to_connect; by rewrite Esh, Etr, Ec).
        destruct (connect_ends application hostname n ov h l1 Hov Hw1 Hin1 Ec) as (Hc2 & Hf2 & Hz); [by right|].
        split; [apply zero_handled; [done| |done]; by eapply calm_trans_nil|]. eapply (firm_trans application hostname [] l l1); auto.
  - assert (to_connect h l1 = false) as Etc by (unfold to_connect; by rewrite Esh).
    destruct (decide (h = "localhost")) as [-> |Hne].
    + rewrite Hq by by left. change (handled "localhost" l l1 /\ firm l l1). split; [|done]. split; [done|done|].
      apply cost_named. split; [done|]. split; [done|]. unfold to_disconnect. by rewrite andb_false_r.
    + destruct (Hdc h l1 Hw1 Hp Hne) as [Gc Gf Gn Gl Gm Ga]; [by right|]. apply (calm_known _ _ _ _ _ Hin1) in Gc.
      assert (less l1 (dc h l1)) as Hl2 by (intros g Hg; apply Gl; [done|]; destruct (decide (g = h)) as [-> |]; auto).
      split; [|by eapply (firm_trans application hostname [] l l1)]. split; [by eapply calm_trans_nil|by eapply less_trans|].
      assert (shown h (dc h l1) = false) as Esh2 by by rewrite (ca_shown _ _ _ _ _ Gc).
      pose proof (Gm Hin1) as Hle. unfold nameless in Hle. destruct Hnamed as (E1 & E2 & E3). rewrite E1, E2, E3 in Hle.
      unfold cost, to_connect, to_disconnect. rewrite Esh2, Gn. cbn in *. lia.
Qed.

(** ** The events of a change made by a handler *)

Definition quiet_event (l : loader) (e : machine_effect) : Prop :=
  match e with
  | MEvent (MAdded h _ old) | MEvent (MUpdated h _ old) => h ∈ keys l /\ same_place h old l
  | MEvent (MRemoved _ _) => False
  | _ => True
  end.

Definition tells (h : string) (e : machine_effect) : Prop :=
  match e with MEvent (MAdded g _ _) | MEvent (MUpdated g _ _) => g = h | _ => False end.

Lemma quiet_calm new l l' e : calm new l l' -> quiet_event l e -> quiet_event l' e.
Proof.
  intros Hc. destruct e as [[h m old|h m old|h m|]| | |]; cbn; try done; unfold same_place;
    intros [Hin Hs]; (split; [by apply (ca_grow _ _ _ _ _ Hc)|]); by rewrite (ca_shown _ _ _ _ _ Hc), (ca_string _ _ _ _ _ Hc).
Qed.

Lemma event_ends n ov dc e l : overlay_ends n ov -> disconnect_ends n dc -> wf l -> (total l <= n)%nat ->
  quiet_event l e ->
  calm [] l (handle ov dc e l) /\ firm l (handle ov dc e l) /\ less l (handle ov dc e l) /\
  forall h, tells h e -> cost h (handle ov dc e l) = 0%nat.
Proof.
  intros Hov Hdc Hw Hn He.
  assert (calm [] l l /\ firm l l /\ less l l) as (H1 & H2 & H3) by (split; [by apply calm_refl|split; [apply firm_refl|by intros h]]).
  destruct e as [[h m old|h m old|h m|]| | |]; cbn in *; try done; destruct He as [Hin Hs];
    destruct (updated_ends n ov dc (Some m) h old l Hov Hdc Hw Hin Hn Hs) as [[] ?]; (split; [done|]); (split; [done|]);
    (split; [done|]); by intros g <-.
Qed.

Lemma events_end n ov dc evs : overlay_ends n ov -> disconnect_ends n dc -> forall l, wf l -> (total l <= n)%nat ->
  Forall (quiet_event l) evs ->
  let l' := foldl (fun l e => handle ov dc e l) l evs in
  calm [] l l' /\ firm l l' /\ less l l' /\ forall h e, e ∈ evs -> tells h e -> h ∈ keys l -> cost h l' = 0%nat.
Proof.
  intros Hov Hdc. induction evs as [|e evs IH]; intros l Hw Hn He; cbn.
  - split; [by apply calm_refl|]. split; [apply firm_refl|]. split; [by intros h|]. by intros h e []%not_elem_of_nil.
  - apply Forall_cons in He as [He Hes]. destruct (event_ends n ov dc e l Hov Hdc Hw Hn He) as (Hc & Hf & Hl & Hz).
    set (l1 := handle ov dc e l) in *. pose proof (less_total _ _ _ _ Hw Hc Hl).
    destruct (IH l1) as (Hc' & Hf' & Hl' & Hz'); [apply (ca_wf _ _ _ _ _ Hc)|lia| |].
    { eapply Forall_impl; [exact Hes|]. intros e'. by eapply quiet_calm. }
    split; [by eapply calm_trans_nil|]. split; [by eapply (firm_trans application hostname [] l l1)|].
    split; [by eapply less_trans|]. intros h e' [-> |Hin]%elem_of_cons Ht Hh.
    + pose proof (Hl' h (ca_grow _ _ _ _ _ Hc h Hh)) as Hle. rewrite (Hz h Ht) in Hle. lia.
    + apply (Hz' h e'); [done|done|]. by apply (ca_grow _ _ _ _ _ Hc).
Qed.

Lemma loose_eq_text s : loose_eq (JStr s) (JStr s) = true.
Proof. apply String.eqb_refl. Qed.

(** A machine has a connection string. *)
Lemma has_string h l : wf l -> h ∈ keys l -> exists s, conn_string h l = JStr s.
Proof.
  intros Hw Hin. unfold conn_string. pose proof (keys_get h l Hin) as E.
  rewrite (sy_machine _ _ _ (wf_synced _ _ _ Hw) h _ E "connection_string" ltac:(done)). apply fill_connection.
Qed.

(** The events of a change. *)
Definition news (m m' : machines) : list machine_effect := drop (length (m_effects m)) (m_effects m').

Lemma overlaid_events host v l : wf l -> plain host -> mild v ->
  let evs := news (ld_machines l) (machines_overlay host v (ld_machines l)) in
  Forall (quiet_event (overlaid host v l)) evs /\
  forall h, h ∈ keys (overlaid host v l) -> exists e, e ∈ evs /\ tells h e.
Proof.
  intros Hw Hp Hv evs. pose proof (wf_synced _ _ _ Hw) as Hs.
  destruct (overlay_refreshed application hostname host v (ld_machines l) Hs) as [_ _ Hm (removed & He & Hr1 & Hr2)].
  pose proof (overlaid_calm application hostname host v l Hw Hp Hv) as Hc.
  cbn in Hm, He, Hr2. set (content := default [] (sh_content (m_last (ld_machines l)))) in *.
  set (ov := assoc_set host _ _) in *. unfold evs, news. rewrite He, drop_app_length. clear evs He.
  assert (forall h, h ∈ keys (overlaid host v l) <-> h ∈ all_hosts content ov) as Hk.
  { intros h. rewrite all_hosts_elem. specialize (Hm h). unfold keys, LoaderSettle.overlaid; cbn. case_bool_decide as Hd.
    - split; [done|]. intros _. by eapply (get_keys h (overlaid host v l)).
    - apply assoc_get_None in Hm. done. }
  split.
  - rewrite (map_app MEvent (map _ _) _), (map_app MEvent removed _). apply Forall_app. split; [|apply Forall_app; split].
    + apply Forall_forall. intros e (ev & -> & (h & -> & Hh)%list_elem_of_fmap)%list_elem_of_fmap.
      apply Hk in Hh. unfold event_of. destruct (assoc_get h (m_machines (ld_machines l))) as [x|] eqn:Ex; cbn; (split; [done|]).
      * intros _. assert (h ∈ keys l) as Hin by by eapply get_keys. rewrite (ca_string _ _ _ _ _ Hc h Hin).
        assert (obj h l = x) as <- by (unfold obj, object; by rewrite Ex).
        destruct (has_string h l Hw Hin) as [s Es]. unfold conn_string in Es |- *. rewrite Es, loose_eq_text. apply andb_false_r.
      * by intros _.
    + apply Forall_forall. intros e (ev & -> & Hin)%list_elem_of_fmap. destruct (Hr1 ev Hin) as (h & x & ->). cbn.
      apply Hr2 in Hin as [Hx Hout]. apply Hout, Hk, (ca_grow _ _ _ _ _ Hc). by eapply get_keys.
    + destruct (m_ready _); cbn; [by apply Forall_nil|by apply Forall_singleton].
  - intros h Hh%Hk. exists (MEvent (event_of application hostname content ov (m_machines (ld_machines l)) h)). split.
    + rewrite (map_app MEvent (map _ _) _). apply elem_of_app. left. apply list_elem_of_fmap. eexists. split; [done|]. apply list_elem_of_fmap. by eexists.
    + unfold event_of. by destruct (assoc_get h (m_machines (ld_machines l))).
Qed.

(** ** Enough fuel *)

Lemma let_go_none ov dc h l : h = "localhost" \/ assoc_get h (ld_channels l) = None -> disconnect_body ov dc h l = let_go h l.
Proof.
  intros H. unfold let_go. destruct (decide (h = "localhost")) as [-> |Hne]; [done|]. destruct H as [H|H]; [done|].
  by rewrite !disconnect_unfold, H.
Qed.

Lemma fuel_ends f :
  (forall n, (2 * n <= f)%nat -> overlay_ends n (nested_overlay f)) /\
  (forall n, (2 * n + 1 <= f)%nat -> disconnect_ends n (nested_disconnect f)).
Proof.
  induction f as [|f [IHo IHd]]; [split; intros n Hn; [|lia]; intros host v l _ _ _ Hlt; lia|]. split; intros n Hn.
  - intros host v l Hw Hp Hv Hlt. destruct (overlaid_events host v l Hw Hp Hv) as [He Ht].
    destruct (overlaid_machine application hostname host v l Hw Hp Hv) as (Hw1 & _).
    destruct (events_end (n - 1) (nested_overlay f) (nested_disconnect f)
      (news (ld_machines l) (machines_overlay host v (ld_machines l))) (IHo (n - 1)%nat ltac:(lia)) (IHd (n - 1)%nat ltac:(lia))
      (overlaid host v l) Hw1 ltac:(lia) He) as (Hc & Hf & _ & Hz).
    split; [exact Hc|]. split; [exact Hf|]. apply all_zero. intros h Hh%(calm_keys _ _ _ _ Hc).
    destruct (Ht h Hh) as (e & Hin & Hte). by apply (Hz h e).
  - split; [intros h l H; by apply let_go_none|]. intros h l Hw Hp Hne Hb. cbn.
    destruct (assoc_get h (ld_channels l)) as [id|] eqn:Ec.
    + destruct (decide (n = 0)%nat) as [-> |Hn0].
      * exfalso. destruct Hb as [Hb|(Hin & Hsh & Hb)]; [lia|]. pose proof (cost_total h l Hin) as Hz.
        assert (to_disconnect h l = true) as E.
        { unfold to_disconnect, connected. rewrite Hsh, Ec, (proj2 (String.eqb_neq h "localhost")) by done. by rewrite bool_decide_eq_true_2. }
        unfold cost in Hz. rewrite E in Hz. cbn in Hz. lia.
      * apply (disconnect_body_ends application hostname n); [apply IHo; lia| |done..].
        intros l1 Hl1. destruct (IHd 0%nat ltac:(lia)) as [H _]. apply H. by right.
    + rewrite let_go_none by by right. destruct (let_go_beside h l Hne Ec (wf_sane _ _ _ Hw)) as [Hbe Hc].
      apply beside_gone; [done|done| |done]. rewrite Hc. by apply connected_false.
Qed.

End Events.
