(* ===== verification/LoaderLive.v ===== *)
(** * The loader leaves nothing to do

    Whatever the machines, the session and the channels bring, the loader has
    settled when it has handled it: each machine that is shown and has no problem
    has a channel, none that is not shown has one. *)

From stdpp Require Import list_numbers.
From S2P Require Import Prelude Machines MachinesSpec Loader LoaderMachines LoaderSpec LoaderSettle LoaderNested LoaderEvents.

Section Live.
Context (application hostname : string) (parse_color : jval -> string) (colors : list string).
Context (colors_named : forall c, c ∈ colors -> c <> "").

#[local] Notation machines_overlay := (Machines.overlay application hostname).
#[local] Notation missing := (missing parse_color colors).
#[local] Notation updated := (updated parse_color colors).
#[local] Notation handle := (handle parse_color colors).
#[local] Notation nested_overlay := (nested_overlay application hostname parse_color colors).
#[local] Notation nested_disconnect := (nested_disconnect application hostname parse_color colors).
#[local] Notation notify := (notify application hostname parse_color colors).
#[local] Notation overlay := (Loader.overlay application hostname parse_color colors).
#[local] Notation disconnect := (Loader.disconnect application hostname parse_color colors).
#[local] Notation wf := (wf application hostname).
#[local] Notation calm := (calm application hostname).
#[local] Notation overlaid := (overlaid application hostname).
#[local] Notation overlay_ends := (overlay_ends application hostname).
#[local] Notation disconnect_ends := (disconnect_ends application hostname).
#[local] Notation gone := (gone application hostname).

(** ** The events of a change from outside

    Machines may be elsewhere, and may have gone; a machine that has gone can come
    back with the state that the end of its channel sets.  All are in [K]. *)

Definition event_in (K : list string) (l : loader) (e : machine_effect) : Prop :=
  match e with
  | MEvent (MAdded h _ _) | MEvent (MUpdated h _ _) => h ∈ keys l
  | MEvent (MRemoved h _) => plain h /\ h ∈ K /\ shown h l = false
  | _ => True
  end.

Lemma calm_sub a b l l' : a ⊆ b -> calm a l l' -> calm b l l'.
Proof. intros Hs [W G N S C O]. split; try done. intros h [?|?]%N; [by left|right; by apply Hs]. Qed.

Lemma calm_both K l l' l'' : calm K l l' -> calm K l' l'' -> calm K l l''.
Proof. intros H1 H2. apply (calm_sub (K ++ K)); [set_solver|]. by eapply calm_trans. Qed.

Lemma event_in_calm K l l' e : calm K l l' -> event_in K l e -> event_in K l' e.
Proof.
  intros Hc. destruct e as [[h m old|h m old|h m|]| | |]; cbn; try done; [by apply (ca_grow _ _ _ _ _ Hc)..|].
  by rewrite (ca_shown _ _ _ _ _ Hc).
Qed.

Lemma room K l : wf l -> keys l ⊆ K -> (total l <= 5 * length K)%nat.
Proof.
  intros Hw Hk. pose proof (total_bound l). assert (length (keys l) <= length K)%nat; [|lia].
  apply submseteq_length, NoDup_submseteq; [apply (sy_machines _ _ _ (wf_synced _ _ _ Hw))|exact Hk].
Qed.

Section Outside.
Context (n : nat) (ov : string -> jobj -> loader -> loader) (dc : string -> loader -> loader) (K : list string).
Context (Hov : overlay_ends n ov) (Hdc : disconnect_ends n dc) (Hroom : (5 * length K + 7 <= n)%nat).

(** A machine that is elsewhere is disconnected and connected. *)
Lemma reconnect_ends h old l : wf l -> h ∈ keys l -> keys l ⊆ K -> shown h l = true -> nameless h l = 0%nat ->
  handled application hostname h l (connect ov h (dc h (do (LKill old) l))).
Proof.
  intros Hw Hin HK Hsh Hnm. set (l1 := do (LKill old) l). pose proof (wf_plain _ _ _ Hw h Hin) as Hp.
  assert (beside l l1) as Hb by apply do_beside, Hw. destruct (beside_calm _ _ l l1 Hw Hb) as [Hc1 _].
  pose proof (ca_wf _ _ _ _ _ Hc1) as Hw1. assert (h ∈ keys l1) as Hin1 by done.
  pose proof (room K l1 Hw1 HK) as Hr.
  assert (forall l2, calm [] l1 l2 -> connected h l2 = false -> handled application hostname h l (connect ov h l2)) as Hend.
  { intros l2 Hc2 Hn. assert (keys l2 ⊆ K) as HK2 by (intros g Hg%(calm_keys _ _ _ _ Hc2); by apply HK).
    pose proof (ca_wf _ _ _ _ _ Hc2) as Hw2. pose proof (room K l2 Hw2 HK2).
    assert (h ∈ keys l2) as Hin2 by by apply (ca_grow _ _ _ _ _ Hc2).
    destruct (connect_ends application hostname n ov h l2 Hov Hw2 Hin2 Hn) as (Hc3 & _ & Hz); [left; lia|].
    apply zero_handled; [done| |done]. eapply calm_trans_nil; [|exact Hc3]. by eapply calm_trans_nil. }
  destruct Hdc as [Hq Hd]. destruct (decide (h = "localhost")) as [-> |Hne].
  - rewrite Hq by by left. change (let_go "localhost" l1) with l1. destruct (connected "localhost" l1) eqn:Ec.
    + assert (connect ov "localhost" l1 = l1) as ->.
      { unfold connect. rewrite (lookup_plain "localhost" _ Hp), (keys_get _ l1 Hin1).
        destruct (assoc_get "localhost" (ld_channels l1)) eqn:E; [done|]. apply connected_false in E. by rewrite E in Ec. }
      split; [done|by intros g|]. unfold nameless in Hnm. unfold cost, to_connect, to_disconnect.
      change (shown "localhost" l1) with (shown "localhost" l). rewrite Ec, Hsh, andb_false_r. cbn.
      change (no_color "localhost" l1) with (no_color "localhost" l).
      change (other_label "localhost" l1) with (other_label "localhost" l).
      change (other_os "localhost" l1) with (other_os "localhost" l). lia.
    + apply Hend; [by apply calm_refl|done].
  - destruct (Hd h l1 Hw1 Hp Hne) as [Gc Gf Gn Gl Gm Ga]; [left; lia|]. apply Hend; [by eapply calm_known|done].
Qed.

Lemma updated_any given h old l : wf l -> h ∈ keys l -> keys l ⊆ K ->
  handled application hostname h l (updated ov dc given h old l).
Proof.
  intros Hw Hin HK. pose proof (room K l Hw HK) as Hr. pose proof (wf_plain _ _ _ Hw h Hin) as Hp.
  destruct (shown h l && (truthy old && negb (loose_eq (conn_string h l) old))) eqn:E.
  2: { apply (updated_ends _ _ parse_color colors colors_named n); try done; [lia|]. intros Hs. by rewrite Hs in E. }
  apply andb_true_iff in E as [Hsh E]. unfold Loader.updated. rewrite current_obj by done. cbv zeta.
  set (o := missing h (obj h l) l). set (l1 := if bool_decide (o = ∅) then l else ov h o l).
  destruct (record_missing _ _ parse_color colors colors_named n ov h l Hov Hw Hin ltac:(lia)) as (Hc1 & _ & Hl1 & _ & E1 & E2 & E3).
  fold o l1 in Hc1, Hl1, E1, E2, E3. pose proof (ca_wf _ _ _ _ _ Hc1) as Hw1.
  assert (h ∈ keys l1) as Hin1 by by apply (ca_grow _ _ _ _ _ Hc1).
  rewrite current_obj by done. cbn [default]. unfold id.
  change (truthy (prop (obj h l1) "visible")) with (shown h l1). rewrite (ca_shown _ _ _ _ _ Hc1), Hsh.
  change (prop (obj h l1) "connection_string") with (conn_string h l1). rewrite (ca_string _ _ _ _ _ Hc1), E by done.
  destruct (reconnect_ends h (js_String old) l1) as [Hc2 Hl2 Hz]; try done.
  - intros g Hg%(calm_keys _ _ _ _ Hc1). by apply HK.
  - by rewrite (ca_shown _ _ _ _ _ Hc1).
  - unfold nameless. by rewrite E1, E2, E3.
  - split; [by eapply calm_trans_nil|by eapply less_trans|done].
Qed.

(** What an event leaves. *)
Record after (l l' : loader) : Prop := {
  af_calm : calm K l l';
  af_less : less l l';
  af_added : forall h, h ∈ keys l' -> h ∉ keys l -> cost h l' = 0%nat }.

Lemma after_refl l : wf l -> after l l.
Proof. intros Hw. split; [apply (calm_sub []); [set_solver|by apply calm_refl]|by intros h|done]. Qed.

Lemma after_trans l l' l'' : after l l' -> after l' l'' -> after l l''.
Proof.
  intros [C1 L1 A1] [C2 L2 A2]. split; [by eapply calm_both|by eapply less_trans|]. intros h Hin Hout.
  destruct (decide (h ∈ keys l')) as [Hin'|Hout']; [|by apply A2]. pose proof (L2 h Hin'). rewrite A1 in H by done. lia.
Qed.

Lemma handle_any e l : wf l -> keys l ⊆ K -> event_in K l e ->
  after l (handle ov dc e l) /\
  (forall h, tells h e -> cost h (handle ov dc e l) = 0%nat) /\
  (forall h m, e = MEvent (MRemoved h m) -> h <> "localhost" -> connected h (handle ov dc e l) = false).
Proof.
  intros Hw HK He. pose proof (after_refl l Hw) as Hr. pose proof (room K l Hw HK) as Hrm.
  assert (forall given h old, h ∈ keys l -> after l (updated ov dc given h old l) /\ cost h (updated ov dc given h old l) = 0%nat) as Hup.
  { intros given h old Hin. destruct (updated_any given h old l Hw Hin HK) as [Hc Hl Hz]. split; [|done].
    split; [apply (calm_sub []); [set_solver|done]|done|]. intros g Hg Hout. by apply (calm_keys _ _ _ _ Hc) in Hg. }
  destruct e as [[h m old|h m old|h m|]| | |]; cbn in *; try done; try (by split; [|split]).
  - destruct (Hup (Some m) h old He). split; [done|]. split; [by intros g <-|done].
  - destruct (Hup (Some m) h old He). split; [done|]. split; [by intros g <-|done].
  - destruct He as (Hp & HhK & Hsh), Hdc as [Hq Hd]. destruct (decide (h = "localhost")) as [-> |Hne].
    + rewrite Hq by by left. change (let_go "localhost" l) with l. split; [done|]. split; [done|]. by intros h m' [= <- <-].
    + destruct (Hd h l Hw Hp Hne) as [Gc Gf Gn Gl Gm Ga]; [left; lia|]. split; [split|split].
      * apply (calm_sub [h]); [set_solver|done].
      * intros g Hg. apply Gl; [done|]. destruct (decide (g = h)) as [-> |]; auto.
      * done.
      * done.
      * by intros g m' [= <- <-].
Qed.

Lemma events_any evs : forall l, wf l -> keys l ⊆ K -> Forall (event_in K l) evs ->
  let l' := foldl (fun l e => handle ov dc e l) l evs in
  after l l' /\ (forall h e, e ∈ evs -> tells h e -> h ∈ keys l -> cost h l' = 0%nat) /\
  (forall h m, MEvent (MRemoved h m) ∈ evs -> h <> "localhost" -> connected h l' = true -> h ∈ keys l').
Proof.
  induction evs as [|e evs IH]; intros l Hw HK He; cbn.
  - split; [by apply after_refl|]. split; [by intros h e []%not_elem_of_nil|by intros h m []%not_elem_of_nil].
  - apply Forall_cons in He as [He Hes]. destruct (handle_any e l Hw HK He) as ([Hc Hl Ha] & Ht & Hr).
    set (l1 := handle ov dc e l) in *.
    destruct (IH l1) as ([Hc' Hl' Ha'] & Ht' & Hr'); [apply (ca_wf _ _ _ _ _ Hc)| | |].
    { intros h [Hh|Hh]%(ca_new _ _ _ _ _ Hc); [by apply HK|done]. }
    { eapply Forall_impl; [exact Hes|]. intros e'. by apply event_in_calm. }
    split; [by apply (after_trans l l1)|]. split.
    + intros h e' [-> |Hin]%elem_of_cons Hte Hh.
      * pose proof (Hl' h (ca_grow _ _ _ _ _ Hc h Hh)) as Hle. rewrite (Ht h Hte) in Hle. lia.
      * apply (Ht' h e'); [done|done|]. by apply (ca_grow _ _ _ _ _ Hc).
    + intros h m [<-|Hin]%elem_of_cons Hne Hcon; [|by eapply Hr'].
      destruct (ca_connected _ _ _ _ _ Hc' h Hcon) as [H|H]; [|done]. by rewrite (Hr h m eq_refl Hne) in H.
Qed.

End Outside.

(** ** A change from outside *)

(** What any change of the machines can start from. *)
Record fit (l : loader) : Prop := {
  fi_sane : sane l;
  fi_machines : NoDup (keys l);
  fi_content : NoDup (content_of (ld_machines l)).*1;
  fi_overlay : NoDup (overlay_map (ld_machines l)).*1;
  fi_plain : forall h, h ∈ keys l \/ h ∈ (content_of (ld_machines l)).*1 \/ h ∈ (overlay_map (ld_machines l)).*1 -> plain h;
  fi_connected : forall h, connected h l = true -> h ∈ keys l \/ h = "localhost" }.

(** Nothing is left to do. *)
Record settled (l : loader) : Prop := {
  se_fit : fit l;
  se_synced : synced application hostname (ld_machines l);
  se_cost : forall h, h ∈ keys l -> cost h l = 0%nat }.

Lemma settled_wf l : settled l -> wf l.
Proof. intros [[] Hs _]. split; [done| |done]. intros h Hh. by apply fi_plain0; left. Qed.

Lemma settled_total l : settled l -> total l = 0%nat.
Proof. intros [_ _ Hc]. by apply all_zero. Qed.

Lemma wf_settled l : wf l -> (forall h, connected h l = true -> h ∈ keys l \/ h = "localhost") ->
  (forall h, h ∈ keys l -> cost h l = 0%nat) -> settled l.
Proof.
  intros [Hs Hp Hsa] Hc Hz. pose proof Hs as []. split; [|done|done]. split; try done.
  intros h [Hh|Hh]; apply Hp; [done|]. by apply sy_hosts.
Qed.

(** Machines that have been refreshed, after calls that leave the frame. *)
Definition no_event (e : machine_effect) : Prop := match e with MEvent _ => False | _ => True end.

Record refresh_of (m m' : machines) : Prop := mk_refresh_of {
  ro_from : machines;
  ro_shared : shared;
  ro_push : bool;
  ro_calls : list machine_effect;
  ro_is : m' = Machines.refresh application hostname ro_shared ro_push ro_from;
  ro_same : m_machines ro_from = m_machines m;
  ro_effects : m_effects ro_from = m_effects m ++ ro_calls;
  ro_quiet : Forall no_event ro_calls;
  ro_content : NoDup (default [] (sh_content ro_shared)).*1;
  ro_overlay : NoDup (sh_overlay ro_shared).*1;
  ro_plain : forall h, h ∈ (default [] (sh_content ro_shared)).*1 \/ h ∈ (sh_overlay ro_shared).*1 -> plain h }.

Definition removed_host (e : machine_effect) : option string :=
  match e with MEvent (MRemoved h _) => Some h | _ => None end.

Lemma omap_length {A B} (f : A -> option B) l : (length (omap f l) <= length l)%nat.
Proof. induction l as [|x l IH]; cbn; [lia|]. destruct (f x); cbn; lia. Qed.

(** The events of a refresh. *)
Lemma refresh_events l m' : fit l -> refresh_of (ld_machines l) m' ->
  let l1 := l <| ld_machines := m' |> in
  let evs := news (ld_machines l) m' in
  wf l1 /\ Forall (event_in (keys l1 ++ omap removed_host evs) l1) evs /\
  (forall h, h ∈ keys l1 -> exists e, e ∈ evs /\ tells h e) /\
  (forall h, h ∈ keys l -> h ∉ keys l1 -> exists m, MEvent (MRemoved h m) ∈ evs).
Proof.
  intros [Hsa Hn Hnc Hno Hpl Hco] [m1 sh push calls -> Hsame Heff Hquiet Hc Ho Hp] l1 evs.
  assert (NoDup (m_machines m1).*1) as Hn1 by by rewrite Hsame.
  destruct (refresh_spec application hostname sh push m1 Hc Ho Hn1) as [Hs _ Hm (removed & He & Hr1 & Hr2)].
  set (content := default [] (sh_content sh)) in *. set (ov := sh_overlay sh) in *.
  assert (forall h, h ∈ keys l1 <-> h ∈ all_hosts content ov) as Hk.
  { intros h. rewrite all_hosts_elem. specialize (Hm h). case_bool_decide as Hd.
    - split; [done|]. intros _. by eapply (get_keys h l1).
    - apply assoc_get_None in Hm. done. }
  assert (evs = calls ++ map MEvent (map (event_of application hostname content ov (m_machines m1)) (all_hosts content ov) ++
    removed ++ if m_ready m1 then [] else [MReady])) as Eevs.
  { unfold evs, news. rewrite He, Heff, <- app_assoc. by rewrite drop_app_length. }
  split; [|split; [|split]].
  - split; [done| |by apply machines_sane]. intros h Hh%Hk. by apply Hp, all_hosts_elem.
  - apply Forall_forall. intros e Hin. pose proof Hin as Hin'. rewrite Eevs in Hin'.
    apply elem_of_app in Hin' as [Hq|Hin'].
    + pose proof (proj1 (Forall_forall _ _) Hquiet e Hq) as Hne. by destruct e.
    + apply list_elem_of_fmap in Hin' as (ev & -> & Hev).
      apply elem_of_app in Hev as [(h & -> & Hh)%list_elem_of_fmap|[Hev|Hev]%elem_of_app].
      * apply Hk in Hh. unfold event_of. by destruct (assoc_get h (m_machines m1)).
      * destruct (Hr1 ev Hev) as (h & x & ->). cbn. apply Hr2 in Hev as [Hx Hout].
        assert (h ∈ keys l) as Hhl by (rewrite Hsame in Hx; by eapply get_keys). split; [by apply Hpl; left|]. split.
        -- apply elem_of_app. right. apply list_elem_of_omap. eexists. split; [exact Hin|done].
        -- unfold shown, obj, object. pose proof (Hm h) as Hmh. rewrite bool_decide_eq_false_2 in Hmh by (by rewrite <- all_hosts_elem).
           change (m_machines (ld_machines l1)) with (m_machines (Machines.refresh application hostname sh push m1)). by rewrite Hmh.
      * destruct (m_ready m1); [by apply not_elem_of_nil in Hev|]. by apply list_elem_of_singleton in Hev as ->.
  - intros h Hh%Hk. exists (MEvent (event_of application hostname content ov (m_machines m1) h)). rewrite Eevs. split.
    + apply elem_of_app. right. rewrite (map_app MEvent (map _ _) _). apply elem_of_app. left. apply list_elem_of_fmap.
      eexists. split; [done|]. apply list_elem_of_fmap. by eexists.
    + unfold event_of. by destruct (assoc_get h (m_machines m1)).
  - intros h Hin Hout. rewrite Hk in Hout. pose proof (keys_get h l Hin) as Hx. rewrite <- Hsame in Hx. exists (obj h l).
    rewrite Eevs. apply elem_of_app. right. apply list_elem_of_fmap. eexists. split; [done|].
    apply elem_of_app. right. apply elem_of_app. left. by apply Hr2.
Qed.

Lemma notify_settles l change : fit l -> refresh_of (ld_machines l) (change (ld_machines l)) -> settled (notify change l).
Proof.
  intros Hf Hro. set (m' := change (ld_machines l)) in *. set (l1 := l <| ld_machines := m' |>).
  set (evs := news (ld_machines l) m'). set (K := keys l1 ++ omap removed_host evs).
  destruct (refresh_events l m' Hf Hro) as (Hw & He & Ht & Hr). fold l1 evs K in Hw, He, Ht, Hr.
  set (d := depth (length (m_machines m') + length evs)). set (n := (5 * length K + 7)%nat).
  assert (2 * n + 1 <= d)%nat as Hd.
  { unfold d, depth, n, K. rewrite length_app. pose proof (omap_length removed_host evs).
    change (length (keys l1)) with (length (m_machines m').*1). rewrite length_fmap. lia. }
  assert (notify change l = foldl (fun l e => handle (nested_overlay d) (nested_disconnect d) e l) l1 evs) as -> by done.
  destruct (fuel_ends application hostname parse_color colors colors_named d) as [Hfo Hfd].
  destruct (events_any n (nested_overlay d) (nested_disconnect d) K (Hfo n ltac:(lia)) (Hfd n Hd) ltac:(lia) evs l1 Hw)
    as ([Hc Hl Ha] & Hz & Hg); [unfold K; set_solver|done|].
  set (l2 := foldl _ l1 evs) in *. apply wf_settled; [apply (ca_wf _ _ _ _ _ Hc)| |].
  - intros h Hcon. destruct (ca_connected _ _ _ _ _ Hc h Hcon) as [Hcl|Hin]; [|by left].
    destruct (fi_connected _ Hf h Hcl) as [Hin| ->]; [|by right]. destruct (decide (h ∈ keys l1)) as [Hin1|Hout].
    + left. by apply (ca_grow _ _ _ _ _ Hc).
    + destruct (decide (h = "localhost")) as [-> |Hne]; [by right|]. left. destruct (Hr h Hin Hout) as [m Hm]. by eapply Hg.
  - intros h Hin. destruct (decide (h ∈ keys l1)) as [Hin1|Hout]; [|by apply Ha].
    destruct (Ht h Hin1) as (e & Hin' & Hte). by apply (Hz h e).
Qed.

End Live.
