(* ===== verification/LoaderRuns.v ===== *)
(** * Any run of the loader

    The loader is told of channels that open and close, of manifests, host names
    and session keys, and others change the machines.  After each of these it has
    settled. *)

From stdpp Require Import list_numbers.
From S2P Require Import Prelude Location Machines MachinesSpec Loader LoaderMachines LoaderSpec LoaderSettle LoaderNested.
From S2P Require Import LoaderEvents LoaderLive.

Section Runs.
Context (application hostname : string) (parse_color : jval -> string) (colors : list string).
Context (prefix : string) (colors_named : forall c, c ∈ colors -> c <> "").

#[local] Notation notify := (notify application hostname parse_color colors).
#[local] Notation overlay := (Loader.overlay application hostname parse_color colors).
#[local] Notation disconnect := (Loader.disconnect application hostname parse_color colors).
#[local] Notation wf := (wf application hostname).
#[local] Notation overlaid := (overlaid application hostname).
#[local] Notation overlay_ends := (overlay_ends application hostname).
#[local] Notation disconnect_ends := (disconnect_ends application hostname).
#[local] Notation settled := (settled application hostname).
#[local] Notation refresh_of := (refresh_of application hostname).
#[local] Notation notify_settles := (notify_settles application hostname parse_color colors colors_named).

(** ** What a loader is told *)

Inductive input :=
  | IOverlay (host : string) (values : jobj)
  | IChange (host : string) (values : jobj)
  | IAdd (connection_string color : string)
  | IStorage (value : option shared)
  | IDisk (content : machine_map) (session : list (string * option jobj))
  | ISession (key : string) (value : option jobj)
  | IConnect (host : string)
  | IRestart (host : string)
  | IMessage (id : nat)
  | IClosed (id : nat) (problem : jval)
  | IManifests (id : nat) (answer : option (jval * string))
  | IPackages (host : string) (manifests : jval)
  | IProxy (ready : bool) (x : nat) (props : option jobj).

Definition run (i : input) (l : loader) : loader :=
  match i with
  | IOverlay host values => overlay host values l
  | IChange host values => notify (Machines.change application hostname host values) l
  | IAdd connection_string color => notify (Machines.add application hostname parse_color colors connection_string color) l
  | IStorage value => notify (Machines.storage application hostname value) l
  | IDisk content session => disk_changed application hostname parse_color colors prefix content session l
  | ISession key value => process_session_key application hostname parse_color colors prefix key value l
  | IConnect host => connect overlay host l
  | IRestart host => expect_restart application hostname parse_color colors host l
  | IMessage id => on_message application hostname parse_color colors id l
  | IClosed id problem => on_close application hostname parse_color colors id problem l
  | IManifests id answer => manifests_answer application hostname parse_color colors id answer l
  | IPackages host manifests => packages_changed application hostname parse_color colors host manifests l
  | IProxy ready x props => proxy_changed application hostname parse_color colors ready x props l
  end.

(** Machines are named by hosts, and each once. *)
Definition named (m : machine_map) : Prop := NoDup m.*1 /\ forall h, h ∈ m.*1 -> plain h.

Definition valid_key (key : string) : Prop := forall p host, str_split "/" key = [p; host] -> plain host.

Definition valid (i : input) : Prop :=
  match i with
  | IOverlay host _ | IChange host _ | IConnect host => plain host
  | IRestart host => plain (c_address (split_connection_string host))
  | IStorage (Some sh) => named (default [] (sh_content sh)) /\ named (sh_overlay sh)
  | IDisk content session => named content /\ forall kv, kv ∈ session -> valid_key (fst kv)
  | ISession key _ => valid_key key
  | IProxy _ _ props => text_props (default ∅ props)
  | _ => True
  end.

(** ** Between the inputs *)

Record rest (l : loader) : Prop := {
  rs_fit : fit l;
  rs_cost : forall h, h ∈ keys l -> cost h l = 0%nat;
  rs_synced : synced application hostname (ld_machines l) \/ (keys l = [] /\ ld_conns l = ∅) }.

Lemma settled_rest l : settled l -> rest l.
Proof. intros [Hf Hs Hc]. split; [done|done|by left]. Qed.

Lemma rest_settled l h : rest l -> h ∈ keys l -> settled l.
Proof. intros [Hf Hc [Hs|[Hk _]]] Hin; [done|]. rewrite Hk in Hin. by apply not_elem_of_nil in Hin. Qed.

Lemma rest_conn l id k : rest l -> ld_conns l !! id = Some k -> settled l.
Proof. intros [Hf Hc [Hs|[_ Hk]]] Hid; [done|]. by rewrite Hk in Hid. Qed.

(** *** Changes of the machines *)

Lemma overlay_refresh host values m :
  (forall h, h ∈ (content_of m).*1 \/ h ∈ (overlay_map m).*1 -> plain h) -> NoDup (content_of m).*1 ->
  NoDup (overlay_map m).*1 -> plain host -> forall m0 calls, m_machines m = m_machines m0 -> m_effects m = m_effects m0 ++ calls ->
  Forall no_event calls -> refresh_of m0 (Machines.overlay application hostname host values m).
Proof.
  intros Hp Hc Ho Hh m0 calls E1 E2 Hq. eapply (mk_refresh_of application hostname m0 _ m); [reflexivity|done|exact E2|done|done| |].
  - cbn. by apply assoc_set_nodup.
  - intros h. cbn. rewrite assoc_set_keys. case_bool_decide; [by apply Hp|].
    rewrite elem_of_app, list_elem_of_singleton. intros [?|[?| ->]]; [apply Hp; by left|apply Hp; by right|done].
Qed.

Lemma overlay_settles host values l : fit l -> plain host -> settled (overlay host values l).
Proof.
  intros Hf Hh. apply notify_settles; [done|]. pose proof Hf as []. eapply overlay_refresh with (calls := []); try done.
  - intros h Hin. apply fi_plain. by right.
  - by rewrite app_nil_r.
Qed.

Lemma data_refresh content l : fit l -> named content -> refresh_of (ld_machines l) (Machines.data application hostname content (ld_machines l)).
Proof.
  intros [Hsa Hn Hnc Hno Hp Hco] [Hc Hcp]. set (m := ld_machines l).
  eapply (mk_refresh_of application hostname m _ m) with (ro_calls := []); [reflexivity|done|by rewrite app_nil_r|done|done| |].
  - cbn. set (cs := _ ++ _). clearbody cs. fold (overlay_map m). revert Hno. fold m. generalize (overlay_map m).
    induction cs as [|c cs IH]; intros o Ho; [done|]. cbn. apply IH. by apply assoc_set_nodup.
  - cbn. set (cs := _ ++ _). assert (forall h, h ∈ cs.*1 -> plain h) as Hcs.
    { intros h (c & -> & [Hin|Hin]%elem_of_app)%list_elem_of_fmap.
      - apply list_elem_of_fmap in Hin as (x & -> & Hin). apply Hcp. apply list_elem_of_fmap. by exists x.
      - apply list_elem_of_fmap in Hin as (x & -> & [_ Hin]%list_elem_of_filter). apply Hp. left. apply list_elem_of_fmap. by exists x. }
    intros h [Hin|Hin]; [by apply Hcp|].
    assert (forall h, h ∈ (sh_overlay (m_last m)).*1 -> plain h) as Ho by (intros g Hg; apply Hp; by right; right).
    clearbody cs. revert Hcs Ho Hin. clear. generalize (sh_overlay (m_last m)). induction cs as [|c cs IH]; intros o Hcs Ho; cbn; [by apply Ho|].
    apply IH; [intros g Hg; apply Hcs; cbn; by right|]. intros g. rewrite assoc_set_keys. case_bool_decide; [by apply Ho|].
    rewrite elem_of_app, list_elem_of_singleton. intros [?| ->]; [by apply Ho|]. apply Hcs. cbn. by left.
Qed.

(** *** Changes that only leave the frame *)

Lemma notify_calls change l calls : m_effects (change (ld_machines l)) = m_effects (ld_machines l) ++ calls ->
  Forall no_event calls -> notify change l = l <| ld_machines := change (ld_machines l) |>.
Proof.
  intros E Hq. unfold Loader.notify, fire. rewrite E, drop_app_length. clear E. set (l1 := l <| ld_machines := _ |>).
  set (d := depth _). clearbody d l1. revert l1. induction Hq as [|e calls He Hq IH]; intros l1; cbn; [done|].
  destruct e; [done|apply IH..].
Qed.

(** Machines that differ in what [add] notes. *)
Lemma marked_rest l m' : rest l -> m_last m' = m_last (ld_machines l) ->
  (m_machines m').*1 = keys l -> (forall h k, k <> "on_disk" -> prop (object h m') k = prop (obj h l) k) ->
  rest (l <| ld_machines := m' |>).
Proof.
  intros [[Hsa Hn Hnc Hno Hp Hco] Hc Hs] El Ek Eo. set (l1 := l <| ld_machines := m' |>).
  assert (forall h, alike h l l1) as Ha by (intros h k Hk; by apply Eo). split.
  - split; unfold content_of, overlay_map, keys; cbn; rewrite ?El, ?Ek; try done. by apply machines_sane.
  - intros h Hin. unfold keys in Hin. cbn in Hin. rewrite Ek in Hin. specialize (Hc h Hin).
    assert (cost h l1 <= cost h l)%nat; [|lia]. apply cost_alike; [done|by left|done].
  - destruct Hs as [[S1 S2 S3 S4 S5]|[H1 H2]]; [left|right].
    + split; cbn; unfold content_of, overlay_map; rewrite ?El, ?Ek; try done.
      intros h x Hx k Hk. specialize (Eo h k Hk). unfold object in Eo. rewrite Hx in Eo. cbn in Eo. unfold id in Eo. rewrite Eo.
      assert (h ∈ keys l) as Hin by (rewrite <- Ek; apply assoc_get_elem in Hx; apply list_elem_of_fmap; by exists (h, x)).
      by apply S5; [apply keys_get|].
    + split; [|done]. unfold keys. cbn. by rewrite Ek.
Qed.

(** [change] refreshes the machines, or only saves what is changed. *)
Lemma change_cases host values m :
  (exists calls, Machines.change application hostname host values m = m <| m_effects ::= (fun l => l ++ calls) |> /\
     Forall no_event calls) \/
  (exists calls m1, Machines.change application hostname host values m = Machines.overlay application hostname host values m1 /\
     m1 = m <| m_effects ::= (fun l => l ++ calls) |> /\ Forall no_event calls /\
     exists x, Machines.lookup host m = Some x /\ truthy (prop x "on_disk") = false).
Proof.
  unfold Machines.change. cbv zeta. set (m1 := if truthy (prop values "label") then _ else m).
  assert (exists calls, m1 = m <| m_effects ::= (fun l => l ++ calls) |> /\ Forall no_event calls) as (calls & -> & Hq).
  { assert (m = m <| m_effects ::= (fun l => l ++ []) |>) as Em by (destruct m; unfold set_field; cbn; by rewrite app_nil_r).
    unfold m1. destruct (truthy _); [|by exists []].
    destruct (Machines.lookup host m) as [x|]; [case_bool_decide; [by exists []|]|]; eexists; (split; [reflexivity|]); by apply Forall_singleton. }
  assert (forall e, Forall no_event [e] -> Forall no_event (calls ++ [e])) as Hone by (intros e He; by apply Forall_app).
  assert (forall e, do_effect e (m <| m_effects ::= (fun l => l ++ calls) |>) = m <| m_effects ::= (fun l => l ++ (calls ++ [e])) |>) as Edo.
  { intros e. unfold do_effect, set_field. destruct m; cbn. by rewrite app_assoc. }
  destruct (Machines.lookup host m) as [x|]; [destruct (truthy _) eqn:Et|].
  - left. unfold update_saved_machine. rewrite Edo. eexists. split; [reflexivity|]. apply Hone. by apply Forall_singleton.
  - right. unfold update_session_machine. rewrite Edo. eexists _, _. split; [reflexivity|]. split; [reflexivity|]. split; [apply Hone; by apply Forall_singleton|by exists x].
  - left. unfold update_saved_machine. rewrite Edo. eexists. split; [reflexivity|]. apply Hone. by apply Forall_singleton.
Qed.

Lemma change_rest host values l : rest l -> plain host -> rest (notify (Machines.change application hostname host values) l).
Proof.
  intros Hr Hh. destruct (change_cases host values (ld_machines l)) as [(calls & E & Hq)|(calls & m1 & E & -> & Hq & _)].
  - rewrite (notify_calls _ l calls); [rewrite E; by apply marked_rest|by rewrite E|done].
  - apply settled_rest, notify_settles; [apply Hr|]. rewrite E. destruct (rs_fit _ Hr) as [Hsa Hn Hnc Hno Hp Hco].
    eapply overlay_refresh; try done. intros h Hin. apply Hp. by right.
Qed.

Lemma prop_marked (x : jobj) v k : k <> "on_disk" -> prop (<["on_disk" := v]> x) k = prop x k.
Proof. intros Hk. rewrite prop_insert. by rewrite (proj2 (String.eqb_neq "on_disk" k)) by congruence. Qed.

(** [add] saves the machine; what is on disk comes back later. *)
Lemma add_rest cs color l : rest l -> rest (notify (Machines.add application hostname parse_color colors cs color) l).
Proof.
  intros Hr. set (m := ld_machines l). set (host := c_address (split_connection_string cs)).
  set (key := let a := c_address (split_connection_string host) in if String.eqb a "" then "localhost" else a).
  set (m1 := match Machines.lookup host m with
             | Some x => m <| m_machines ::= assoc_set key (<["on_disk" := JBool true]> x) |>
             | None => m
             end).
  assert (Machines.lookup host m1 = None \/ exists x, Machines.lookup host m1 = Some x /\ truthy (prop x "on_disk") = true) as Hl.
  { unfold m1. destruct (Machines.lookup host m) as [x|] eqn:E; [|by left]. right. exists (<["on_disk" := JBool true]> x).
    split; [|by rewrite prop_insert]. unfold Machines.lookup. cbn. fold key. by rewrite assoc_get_set, String.eqb_refl. }
  assert (m_last m1 = m_last m /\ (m_machines m1).*1 = keys l /\ m_effects m1 = m_effects m /\
    forall h k, k <> "on_disk" -> prop (object h m1) k = prop (obj h l) k) as (E1 & E2 & E3 & E4).
  { unfold m1. destruct (Machines.lookup host m) as [x|] eqn:E; [|done]. unfold Machines.lookup in E. fold key in E.
    split; [done|]. split; [|split; [done|]].
    - cbn. rewrite assoc_set_keys, bool_decide_eq_true_2; [done|]. apply assoc_get_elem in E.
      apply list_elem_of_fmap. by exists (key, x).
    - intros h k Hk. unfold object. cbn. rewrite assoc_get_set. destruct (String.eqb_spec key h) as [<-|Hne]; [|done].
      cbn. unfold id. rewrite prop_marked by done. unfold obj, object. fold m. by rewrite E. }
  assert (exists values, Machines.add application hostname parse_color colors cs color m =
    Machines.change application hostname host values m1) as [values Ea] by (eexists; reflexivity).
  destruct (change_cases host values m1) as [(calls & E & Hq)|(calls & m2 & _ & _ & _ & x & Hx & Hd)].
  - rewrite (notify_calls _ l calls); [|fold m; rewrite Ea, E; cbn; by rewrite E3|done]. fold m. rewrite Ea, E. by apply marked_rest.
  - destruct Hl as [Hl|(x' & Hl & Ht)]; rewrite Hx in Hl; [done|]. injection Hl as <-. by rewrite Ht in Hd.
Qed.

(** *** Channels *)

Lemma connect_rest host l : rest l -> plain host -> rest (connect overlay host l).
Proof.
  intros Hr Hp. destruct (decide (host ∈ keys l)) as [Hin|Hout].
  - pose proof (rest_settled l host Hr Hin) as Hs. pose proof (settled_wf _ _ _ Hs) as Hw. destruct (connected host l) eqn:Ec.
    + assert (connect overlay host l = l) as ->; [|done]. unfold connect. rewrite (lookup_plain host _ Hp), (keys_get host l Hin).
      destruct (assoc_get host (ld_channels l)) eqn:E; [done|]. apply connected_false in E. by rewrite E in Ec.
    + destruct (connect_opened application hostname overlay host l Hw Hin Ec) as (l1 & value & [Om Os Oc Ol] & ->).
      apply settled_rest, overlay_settles; [|done]. destruct (same_keys l l1 Om) as [Ek _]. destruct (rs_fit _ Hr) as [Hsa Hn Hnc Hno Hpl Hco].
      split; rewrite ?Ek, ?Om; try done. intros h. rewrite Oc, orb_true_iff.
      intros [Hh|<-%String.eqb_eq]; [by apply Hco|by left].
  - assert (connect overlay host l = l) as ->; [|done]. unfold connect. rewrite (lookup_plain host _ Hp).
    by apply assoc_get_None in Hout as ->.
Qed.

Lemma beside_fit l l' : fit l -> beside l l' -> fit l'.
Proof.
  intros [Hsa Hn Hnc Hno Hpl Hco] [M S C L]. destruct (same_keys l l' M) as [Ek _]. split; rewrite ?Ek, ?M; try done.
  intros h Hh. by apply Hco, C.
Qed.

Lemma beside_settled l l' : settled l -> beside l l' -> (forall h, connected h l' = connected h l) -> settled l'.
Proof.
  intros Hs Hb Hc. pose proof Hs as [Hf Hsy Hz]. destruct (same_keys l l' (be_machines _ _ Hb)) as [Ek _].
  split; [by eapply beside_fit|by rewrite (be_machines _ _ Hb)|]. intros h. rewrite Ek. intros Hin. specialize (Hz h Hin).
  assert (cost h l' <= cost h l)%nat; [|lia]. apply beside_cost; [done|]. by left.
Qed.

Lemma steps_beside id host machine l : plain host -> sane l ->
  beside l (request_hostname host machine (watch_manifests host machine (request_manifest id l))).
Proof.
  intros Hp Hs. set (l1 := request_manifest id l). set (l2 := watch_manifests host machine l1).
  assert (sane l1) as Hs1 by by apply request_manifest_sane. assert (sane l2) as Hs2 by by apply watch_manifests_sane.
  assert (ld_machines l1 = ld_machines l /\ ld_channels l1 = ld_channels l /\ ld_proxies l1 = ld_proxies l /\ ld_proxy l1 = ld_proxy l) as (E1 & E2 & E3 & E4).
  { unfold l1, request_manifest. by repeat case_match. }
  apply (beside_trans l l2).
  - split; [done|done| |]; intros g; [unfold connected; cbn; by rewrite E2|left]. unfold proxy_props. cbn. by rewrite E3, E4.
  - split; [unfold request_hostname; by case_match|by apply request_hostname_sane| |intros g; by apply request_hostname_props].
    intros g. unfold request_hostname, connected. by case_match.
Qed.

Lemma message_rest id l : rest l -> rest (on_message application hostname parse_color colors id l).
Proof.
  intros Hr. unfold on_message. destruct (ld_conns l !! id) as [k|] eqn:Ek; [|done]. destruct (k_listening k); [|done]. cbv zeta.
  set (machine := default ∅ _). set (l1 := upd_conn id _ l). set (l2 := request_hostname _ _ _).
  pose proof (rs_fit _ Hr) as Hf. destruct (sa_conn l (fi_sane _ Hf) id k Ek) as [Hp _].
  assert (beside l l1) as Hb1 by (apply upd_conn_beside; [done|apply Hf]).
  pose proof (steps_beside id (k_host k) machine l1 Hp (be_sane _ _ Hb1)) as Hb2. fold l2 in Hb2.
  pose proof (beside_trans _ _ _ Hb1 Hb2) as Hb. pose proof (beside_fit _ _ Hf Hb) as Hf2.
  assert (exists k2, ld_conns l2 !! id = Some k2 /\ k_host k2 = k_host k) as (k2 & Hk2 & Hh).
  { assert (ld_conns l1 !! id = Some (k <| k_open := true |>)) as H1 by (cbn; by rewrite lookup_alter_eq, Ek).
    assert (ld_conns l2 = ld_conns (request_manifest id l1)) as -> by (unfold l2, request_hostname; by case_match).
    unfold request_manifest. rewrite H1. destruct (k_url _); [|by eexists].
    exists (k <| k_open := true |> <| k_request := true |>). split; [|done].
    unfold do, upd_conn, set_field at 1 2. cbn. by rewrite lookup_alter_eq, lookup_alter_eq, Ek. }
  unfold whirl. rewrite Hk2, Hh. clearbody l2. apply settled_rest. destruct (negb _ && _); by apply overlay_settles.
Qed.

Lemma top_overlay_ends n : overlay_ends n overlay.
Proof.
  intros host v l Hw Hp Hv _. unfold Loader.overlay, Loader.notify. cbv zeta. set (m := Machines.overlay application hostname host v (ld_machines l)).
  set (d := depth _). destruct (fuel_ends application hostname parse_color colors colors_named (S d)) as [Ho _].
  destruct (overlaid_machine application hostname host v l Hw Hp Hv) as (Hw1 & _).
  apply (Ho (total (overlaid host v l) + 1)%nat); [|done|done|done|lia].
  pose proof (total_bound (overlaid host v l)) as Hb. change (length (keys (overlaid host v l))) with (length (m_machines m).*1) in Hb.
  rewrite length_fmap in Hb. unfold d, depth. lia.
Qed.

Lemma top_disconnect_ends n : disconnect_ends n disconnect.
Proof.
  split.
  - intros h l H. unfold Loader.disconnect. destruct (depth _) as [|d] eqn:E; [unfold depth in E; lia|]. by apply let_go_none.
  - intros h l Hw Hp Hne _. unfold Loader.disconnect. set (d := depth _).
    destruct (fuel_ends application hostname parse_color colors colors_named d) as [_ Hd].
    apply (Hd (total l + 7)%nat); [|done|done|done|by left].
    pose proof (total_bound l) as Hb. unfold keys in Hb. rewrite length_fmap in Hb. unfold d, depth. lia.
Qed.

(** Disconnecting what need not be connected. *)
Lemma disconnect_settles h l : settled l -> plain h -> (shown h l = true -> h <> "localhost" -> troubled h l = true) ->
  settled (disconnect h l).
Proof.
  intros Hs Hp Ht. pose proof (settled_wf _ _ _ Hs) as Hw. destruct (decide (h = "localhost")) as [-> |Hne].
  - rewrite (proj1 (top_disconnect_ends 0)) by by left. exact Hs.
  - destruct (proj2 (top_disconnect_ends (total l + 7)) h l Hw Hp Hne ltac:(by left)) as [Gc Gf Gn Gl Gm Ga].
    apply wf_settled; [apply (ca_wf _ _ _ _ _ Gc)| |].
    + intros g Hg. destruct (ca_connected _ _ _ _ _ Gc g Hg) as [Hc|Hc]; [|by left].
      destruct (fi_connected _ (se_fit _ _ _ Hs) g Hc) as [Hin| ->]; [left; by apply (ca_grow _ _ _ _ _ Gc)|by right].
    + intros g Hg. destruct (decide (g ∈ keys l)) as [Hin|Hout]; [|by apply Ga]. pose proof (se_cost _ _ _ Hs g Hin) as Hz.
      assert (cost g (disconnect h l) <= cost g l)%nat; [|lia]. apply Gl; [done|]. destruct (decide (g = h)) as [-> |]; [|by left].
      right. destruct (shown h l); auto.
Qed.

Lemma closed_rest id problem l : rest l -> rest (on_close application hostname parse_color colors id problem l).
Proof.
  intros Hr. unfold on_close. destruct (ld_conns l !! id) as [k|] eqn:Ek; [|done]. destruct (k_closed k); [done|]. cbv zeta.
  pose proof (rest_conn l id k Hr Ek) as Hs. set (l1 := upd_conn id _ l).
  assert (beside l l1) as Hb1 by (apply upd_conn_beside; [done|apply Hr]).
  pose proof (beside_settled _ _ Hs Hb1 ltac:(done)) as Hs1. apply settled_rest. destruct (k_listening k); [|done].
  assert (ld_conns l1 !! id = Some (k <| k_closed := true |>)) as Hk1 by (cbn; by rewrite lookup_alter_eq, Ek).
  unfold closed. rewrite Hk1. cbv zeta. change (k_host (k <| k_closed := true |>)) with (k_host k). set (h := k_host k).
  destruct (sa_conn l (fi_sane _ (rs_fit _ Hr)) id k Ek) as [Hp _]. fold h in Hp.
  set (l2 := upd_conn id _ l1).
  assert (beside l1 l2) as Hb2 by (apply upd_conn_beside; [done|apply Hs1]).
  pose proof (beside_settled _ _ Hs1 Hb2 ltac:(done)) as Hs2. pose proof (settled_wf _ _ _ Hs2) as Hw2.
  set (m := Machines.lookup h (ld_machines l1)). set (vis := match m with Some m => truthy (prop m "visible") | None => true end).
  assert (vis = false -> shown h l2 = false) as Hvis.
  { unfold vis, m. rewrite (lookup_plain h _ Hp). unfold shown, obj, object. change (ld_machines l2) with (ld_machines l1).
    by destruct (assoc_get h (m_machines (ld_machines l1))). }
  assert (exists value p, (shown h l2 = false \/ truthy p = true) /\
    (if negb (truthy problem) && negb vis then state overlay h JNull JNull l2
     else state overlay h (JStr "failed") (if truthy problem then problem else JStr "disconnected") l2) =
    overlay h (state_values value p) l2) as (value & p & Hvp & ->).
  { unfold state. destruct (truthy problem) eqn:Et; [|destruct vis]; cbn [negb andb]; eexists _, _; (split; [|reflexivity]); eauto. }
  set (l3 := overlay h (state_values value p) l2).
  assert (settled l3) as Hs3 by (apply overlay_settles; [apply Hs2|done]).
  assert (shown h l3 = true -> h <> "localhost" -> troubled h l3 = true) as Ht3.
  { intros Hsh Hne. destruct (failing_ends application hostname (total (overlaid h (state_values value p) l2) + 1) overlay h value p l2)
      as (Hc & _ & _ & Ht & _); [apply top_overlay_ends|done..|lia|]. apply Ht. by rewrite <- (ca_shown _ _ _ _ _ Hc). }
  clearbody l3. apply disconnect_settles; [|done|].
  - destruct (match m with Some _ => _ | None => false end); [|done]. apply (beside_settled l3); [done|apply do_beside, Hs3|done].
  - destruct (match m with Some _ => _ | None => false end); exact Ht3.
Qed.

Lemma whirl_settles id k l : fit l -> ld_conns l !! id = Some k -> settled (whirl overlay id l).
Proof.
  intros Hf Hk. destruct (sa_conn l (fi_sane _ Hf) id k Hk) as [Hp _]. unfold whirl. rewrite Hk.
  destruct (negb _ && _); by apply overlay_settles.
Qed.

Lemma manifests_rest id answer l : rest l -> rest (manifests_answer application hostname parse_color colors id answer l).
Proof.
  intros Hr. unfold manifests_answer. destruct (ld_conns l !! id) as [k|] eqn:Ek; [|done]. destruct (k_request k); [|done]. cbv zeta.
  destruct (sa_conn l (fi_sane _ (rs_fit _ Hr)) id k Ek) as [Hp _]. apply settled_rest.
  set (l1 := match answer with Some _ => _ | None => l end).
  assert (settled l1) as Hs1.
  { unfold l1. destruct answer as [[manifests etag]|]; [|by eapply rest_conn]. apply overlay_settles; [apply Hr|done]. }
  assert (beside l1 (upd_conn id (fun k => k <| k_request := false |>) l1)) as Hb by (apply upd_conn_beside; [done|apply Hs1]).
  pose proof (beside_settled _ _ Hs1 Hb ltac:(done)) as Hs2. set (l2 := upd_conn id _ l1) in *.
  destruct (ld_conns l2 !! id) as [k2|] eqn:E2; [eapply whirl_settles; [apply Hs2|exact E2]|]. unfold whirl. by rewrite E2.
Qed.

(** *** Proxies and keys of the session *)

Lemma proxy_rest ready x props l : rest l -> text_props (default ∅ props) ->
  rest (proxy_changed application hostname parse_color colors ready x props l).
Proof.
  intros Hr Ht. unfold proxy_changed. destruct (ld_proxy l !! x) as [p|] eqn:Ex; [|done]. destruct (ready || _); [|done]. cbv zeta.
  set (l1 := l <| ld_proxy ::= _ |>). pose proof (rs_fit _ Hr) as [Hsa Hn Hnc Hno Hpl Hco].
  destruct (sa_props l Hsa x p Ex) as (Hp & Hlt & _).
  assert (sane l1) as Hsa1.
  { destruct Hsa as [Hch Hcn Hpr Hps Hw Hst]. split; cbn; try done.
    - intros h y (q & Hq & Hh)%Hpr. destruct (decide (x = y)) as [<-|Hne].
      + rewrite lookup_alter_eq, Hq. by eexists.
      + rewrite lookup_alter_ne by done. by exists q.
    - intros y q. destruct (decide (x = y)) as [<-|Hne]; [|rewrite lookup_alter_ne by done; apply Hps].
      rewrite lookup_alter_eq, Ex. intros [= <-]. done. }
  assert (fit l1) as Hf1 by by split.
  assert (forall h, h <> x_host p -> cost h l1 = cost h l) as Hsame.
  { intros h Hne. unfold cost, other_label, other_os, to_connect, to_disconnect.
    assert (proxy_props h l1 = proxy_props h l) as ->; [|done]. unfold proxy_props. cbn.
    destruct (assoc_get h (ld_proxies l)) as [y|] eqn:Ey; [|done]. cbn. destruct (decide (x = y)) as [<-|]; [|by rewrite lookup_alter_ne].
    destruct (sa_proxy l Hsa h x Ey) as (q & Hq & Hh). rewrite Ex in Hq. by injection Hq as <-. }
  destruct (decide (x_host p ∈ keys l)) as [Hin|Hout].
  - pose proof (rest_settled l _ Hr Hin) as Hs. assert (wf l1) as Hw1.
    { destruct (settled_wf _ _ _ Hs) as [Hsy Hkp _]. split; [exact Hsy|exact Hkp|done]. }
    destruct (updated_ends application hostname parse_color colors colors_named (total l1) overlay disconnect None (x_host p) JUndef l1)
      as [[Hc Hl Hz] _]; [apply top_overlay_ends|apply top_disconnect_ends|done|done|lia|done|].
    apply settled_rest, wf_settled; [apply (ca_wf _ _ _ _ _ Hc)| |].
    + intros h Hcon. destruct (ca_connected _ _ _ _ _ Hc h Hcon) as [H|H]; [|by left].
      destruct (Hco h H) as [H1| ->]; [left; by apply (ca_grow _ _ _ _ _ Hc)|by right].
    + intros h Hh%(calm_keys _ _ _ _ Hc). destruct (decide (h = x_host p)) as [-> |Hne]; [done|].
      specialize (Hl h Hh). rewrite Hsame, (rs_cost _ Hr) in Hl by done. lia.
  - assert (updated parse_color colors overlay disconnect None (x_host p) JUndef l1 = l1) as ->.
    { unfold updated, current. rewrite (lookup_plain _ _ Hp).
      assert (assoc_get (x_host p) (m_machines (ld_machines l1)) = None) as -> by by apply assoc_get_None. done. }
    destruct Hr as [_ Hc Hsy]. split; [done| |by destruct Hsy; [left|right]].
    intros h Hh. rewrite Hsame; [by apply Hc|]. by intros ->.
Qed.

Lemma key_rest key value l : rest l -> valid_key key ->
  rest (process_session_key application hostname parse_color colors prefix key value l).
Proof.
  intros Hr Hv. unfold process_session_key. destruct (str_split "/" key) as [|p [|host [|]]] eqn:E; try done.
  specialize (Hv p host E). destruct value as [values|]; [|done]. destruct (String.eqb p prefix); [|done]. cbv zeta.
  apply connect_rest; [|done]. destruct (Machines.lookup host (ld_machines l)) as [m|]; [destruct (negb _)|].
  - apply settled_rest, overlay_settles; [apply Hr|done].
  - destruct (negb _); [by apply change_rest|done].
  - apply settled_rest, overlay_settles; [apply Hr|done].
Qed.

Lemma keys_rest session : (forall kv, kv ∈ session -> valid_key (fst kv)) -> forall l, rest l ->
  rest (foldl (fun l kv => process_session_key application hostname parse_color colors prefix (fst kv) (snd kv) l) l session).
Proof.
  induction session as [|kv session IH]; intros Hv l Hr; cbn; [done|].
  apply IH; [intros kv' Hin; apply Hv; by right|]. apply key_rest; [done|]. apply Hv. by left.
Qed.

Lemma session_fit l b : rest l -> rest (l <| ld_session := b |>).
Proof. intros [[[] ?] Hc Hs]. by split. Qed.

Lemma disk_rest content session l : rest l -> named content -> (forall kv, kv ∈ session -> valid_key (fst kv)) ->
  rest (disk_changed application hostname parse_color colors prefix content session l).
Proof.
  intros Hr Hc Hv. unfold disk_changed. cbv zeta.
  assert (rest (notify (Machines.data application hostname content) l)) as Hr1.
  { apply settled_rest, notify_settles; [apply Hr|]. by apply data_refresh; [apply Hr|]. }
  destruct (ld_session _); [done|]. apply keys_rest; [done|]. by apply session_fit.
Qed.

(** Each input leaves the loader settled. *)
Lemma run_rest i l : rest l -> valid i -> rest (run i l).
Proof.
  intros Hr Hv. destruct i as [host values|host values|cs color|value|content session|key value|host|host|id|id problem|id answer|host manifests|ready x props]; cbn in Hv |- *.
  - apply settled_rest, overlay_settles; [apply Hr|done].
  - by apply change_rest.
  - by apply add_rest.
  - destruct value as [sh|].
    + apply settled_rest, notify_settles; [apply Hr|]. destruct Hv as [[Hc Hcp] [Ho Hop]].
      eapply (mk_refresh_of application hostname _ _ (ld_machines l)) with (ro_calls := []); [reflexivity|done|by rewrite app_nil_r|done|done|done|].
      intros h [Hh|Hh]; [by apply Hcp|by apply Hop].
    + rewrite (notify_calls _ l []); [by apply marked_rest|by rewrite app_nil_r|done].
  - destruct Hv as [Hc Hs]. by apply disk_rest.
  - by apply key_rest.
  - by apply connect_rest.
  - apply settled_rest, overlay_settles; [apply Hr|done].
  - by apply message_rest.
  - by apply closed_rest.
  - by apply manifests_rest.
  - unfold packages_changed. destruct (assoc_get host (ld_watches l)) eqn:E; [|done].
    apply settled_rest, overlay_settles; [apply Hr|]. apply (sa_watch l (fi_sane _ (rs_fit _ Hr))). by eexists.
  - by apply proxy_rest.
Qed.

Lemma runs_rest inputs : Forall valid inputs -> forall l, rest l -> rest (foldl (fun l i => run i l) l inputs).
Proof. induction 1 as [|i inputs Hi Hv IH]; intros l Hr; cbn; [done|]. by apply IH, run_rest. Qed.

Lemma plain_localhost : plain "localhost".
Proof. by split. Qed.

(** How a loader starts: with the disk, or with the session only. *)
Definition starts (manifests : jval) (l : loader) : Prop :=
  l = new_loader (new_machines manifests) \/
  exists session, (forall kv, kv ∈ session -> valid_key (fst kv)) /\
    l = session_loader application hostname parse_color colors prefix session (new_machines manifests).

Lemma new_rest manifests : rest (new_loader (new_machines manifests)).
Proof.
  split; [|by intros h []%not_elem_of_nil|by right]. split; cbn; try done.
  - split; cbn; try done.
  - constructor.
  - constructor.
  - apply NoDup_singleton.
  - intros h [[]%not_elem_of_nil|[[]%not_elem_of_nil| ->%list_elem_of_singleton]]. apply plain_localhost.
Qed.

Lemma starts_rest manifests l : starts manifests l -> rest l.
Proof.
  intros [-> |(session & Hs & ->)]; [apply new_rest|].
  assert (rest (foldl (fun l kv => process_session_key application hostname parse_color colors prefix (fst kv) (snd kv) l)
    (new_loader (new_machines manifests) <| ld_session := true |>) session)) as Hr
    by (apply keys_rest; [done|]; apply session_fit, new_rest).
  unfold session_loader. apply settled_rest, notify_settles; [apply Hr|]. apply data_refresh; [apply Hr|].
  split; [constructor|]. by intros h []%not_elem_of_nil.
Qed.

(** What is known of a machine when nothing is left to do. *)
Lemma settled_machine l h x : settled l -> assoc_get h (m_machines (ld_machines l)) = Some x ->
  truthy (prop x "color") = true /\
  (truthy (prop x "visible") = true -> truthy (prop x "problem") = false -> is_Some (assoc_get h (ld_channels l))) /\
  (truthy (prop x "visible") = false -> h <> "localhost" -> assoc_get h (ld_channels l) = None) /\
  (truthy (wanted_label (proxy_props h l)) = true -> prop x "label" = wanted_label (proxy_props h l)).
Proof.
  intros Hs Hx. assert (h ∈ keys l) as Hin by by eapply get_keys. pose proof (se_cost _ _ _ Hs h Hin) as Hz.
  apply cost_named in Hz as ((Ec & El & _) & Eto & Etd).
  assert (obj h l = x) as Eo by (unfold obj, object; by rewrite Hx).
  unfold no_color, other_label, to_connect, to_disconnect, shown, troubled in *. rewrite Eo in *.
  split; [by apply negb_false_iff|]. split; [|split].
  - intros Hv Hp. rewrite Hv, Hp in Eto. cbn in Eto. apply negb_false_iff in Eto. by apply bool_decide_eq_true_1 in Eto.
  - intros Hv Hne. rewrite Hv, (proj2 (String.eqb_neq h "localhost")), andb_true_r in Etd by done. by apply connected_false.
  - intros Hw. cbv zeta in El. rewrite Hw in El. cbn in El. apply negb_false_iff, strict_eq_eq in El. done.
Qed.

(** C34. Whatever the loader has been told (changes of the machines by this and
    other frames, keys of the session, channels that answer and close, manifests
    that arrive or not, host names), the changes that its handlers set off have come
    to an end, and then every machine has a color and the host name that is known
    of it, a machine that is shown and has no problem has a channel, and one that
    is not shown or is gone has none. *)
Theorem loader_settles manifests start inputs :
  starts manifests start -> Forall valid inputs ->
  let l := foldl (fun l i => run i l) start inputs in
  ld_stuck l = false /\
  (forall h x, assoc_get h (m_machines (ld_machines l)) = Some x ->
     truthy (prop x "color") = true /\
     (truthy (prop x "visible") = true -> truthy (prop x "problem") = false -> is_Some (assoc_get h (ld_channels l))) /\
     (truthy (prop x "visible") = false -> h <> "localhost" -> assoc_get h (ld_channels l) = None) /\
     (truthy (wanted_label (proxy_props h l)) = true -> prop x "label" = wanted_label (proxy_props h l))) /\
  (forall h, h <> "localhost" -> assoc_get h (m_machines (ld_machines l)) = None -> assoc_get h (ld_channels l) = None).
Proof.
  intros Hst Hv l. pose proof (runs_rest inputs Hv start (starts_rest manifests start Hst)) as Hr. fold l in Hr.
  split; [apply (sa_stuck _ (fi_sane _ (rs_fit _ Hr)))|]. split.
  - intros h x Hx. apply settled_machine; [|done]. eapply rest_settled; [exact Hr|]. by eapply get_keys.
  - intros h Hne Hout. apply connected_false, not_true_is_false. intros Hc.
    destruct (fi_connected _ (rs_fit _ Hr) h Hc) as [Hin| ->]; [|done]. by apply assoc_get_None in Hout.
Qed.

End Runs.

(** ** A run *)

Definition a_color (v : jval) : string := js_String v.

Definition a_run : list input :=
  [IDisk [("web", {["visible" := JBool true]}); ("db", {["visible" := JBool false]})] [];
   IMessage 0; IManifests 0 (Some (JObj [], "")); IProxy true 3 (Some {["StaticHostname" := JStr "www"]})].

Lemma a_run_valid : Forall valid a_run.
Proof.
  repeat apply Forall_cons_2; try done; [|intros k Hk; set_unfold in Hk; by destruct_or?; subst k].
  split; [split|].
  - cbn. repeat constructor; set_solver.
  - intros h Hh. apply elem_of_cons in Hh as [-> | ->%list_elem_of_singleton]; by split.
  - by intros kv []%not_elem_of_nil.
Qed.

Definition a_start : loader := new_loader (new_machines (JObj [])).
#[local] Notation a_end := (foldl (fun l i => run "cockpit" "here" a_color ["#0099d3"; "#67d300"] "v1" i l) a_start a_run).

Lemma some_where (o : option jobj) (f : jobj -> bool) : default false (f <$> o) = true -> exists x, o = Some x /\ f x = true.
Proof. destruct o as [x|]; [|done]. by exists x. Qed.

Lemma loader_settles_witness :
  starts "cockpit" "here" a_color ["#0099d3"; "#67d300"] "v1" (JObj []) a_start /\ Forall valid a_run /\
  ld_stuck a_end = false /\ is_Some (assoc_get "web" (ld_channels a_end)) /\ assoc_get "db" (ld_channels a_end) = None /\
  assoc_get "gone" (ld_channels a_end) = None.
Proof.
  assert (forall c, c ∈ ["#0099d3"; "#67d300"] -> c <> "") as Hc by (intros c H; set_unfold in H; by destruct_or?; subst c).
  assert (starts "cockpit" "here" a_color ["#0099d3"; "#67d300"] "v1" (JObj []) a_start) as Hs by by left.
  split; [exact Hs|]. split; [exact a_run_valid|].
  destruct (loader_settles "cockpit" "here" a_color ["#0099d3"; "#67d300"] "v1" Hc (JObj []) a_start a_run Hs a_run_valid)
    as (H1 & H2 & H3). split; [exact H1|]. split; [|split].
  - destruct (some_where (assoc_get "web" (m_machines (ld_machines a_end)))
      (fun x => truthy (prop x "visible") && negb (truthy (prop x "problem"))) ltac:(vm_compute; reflexivity)) as (x & E & Hx).
    apply andb_true_iff in Hx as [Hv Hp]. exact (proj1 (proj2 (H2 "web" x E)) Hv (proj1 (negb_true_iff _) Hp)).
  - destruct (some_where (assoc_get "db" (m_machines (ld_machines a_end))) (fun x => negb (truthy (prop x "visible")))
      ltac:(vm_compute; reflexivity)) as (x & E & Hx).
    exact (proj1 (proj2 (proj2 (H2 "db" x E))) (proj1 (negb_true_iff _) Hx) ltac:(done)).
  - apply H3; [done|vm_compute; reflexivity].
Defined.

(** ** What some runs show *)

#[local] Notation after_run inputs :=
  (foldl (fun l i => run "cockpit" "here" a_color ["#0099d3"; "#67d300"] "v1" i l) a_start inputs).

Definition one_disk : input := IDisk [("web", {["visible" := JBool true]})] [].

(** A machine fails while its manifests are requested; the answer, even that there
    are none, clears the problem and connects to it again. *)
Example late_manifests_reconnect :
  let failed := after_run [one_disk; IMessage 0; IClosed 0 (JStr "terminated")] in
  let answered := run "cockpit" "here" a_color ["#0099d3"; "#67d300"] "v1" (IManifests 0 None) failed in
  prop (obj "web" failed) "problem" = JStr "terminated" /\ assoc_get "web" (ld_channels failed) = None /\
  prop (obj "web" answered) "problem" = JUndef /\ is_Some (assoc_get "web" (ld_channels answered)).
Proof. vm_compute. repeat split; try reflexivity. by eexists. Qed.

(** Another frame forgets a machine; the end of its channel brings it back, as one
    that has failed. *)
Example removed_comes_back :
  let known := after_run [IStorage (Some (mk_shared (Some []) [("localhost", ∅); ("web", {["visible" := JBool true]})])); IMessage 1] in
  let l := run "cockpit" "here" a_color ["#0099d3"; "#67d300"] "v1" (IStorage (Some (mk_shared (Some []) [("localhost", ∅)]))) known in
  prop (obj "web" l) "state" = JStr "failed" /\ "web" ∈ keys l /\ assoc_get "web" (ld_channels l) = None.
Proof. vm_compute. split; [reflexivity|]. split; [by right; left|reflexivity]. Qed.

(** Closing the loader ends at the first channel to another machine. *)
Example close_throws :
  let l := after_run [IDisk [("web", {["visible" := JBool true]}); ("db", {["visible" := JBool true]})] []] in
  match close l with Throws l' => map fst (ld_channels l') | Done _ => [] end = ["db"; "localhost"].
Proof. vm_compute. reflexivity. Qed.
