(* ===== verification/Docker.v ===== *)
(** * Text and streams of Docker (src/pkg/docker/docker.js)

    Command lines that a user edits as text, JSON values that come one after the
    other, the frames of logs, and the consoles that are attached to containers.
    [bytes_from_format] works with fractions and is left out, as is the terminal
    itself. *)

From S2P Require Import Prelude Location Utf8 Buffer.

(** ** Command lines *)

Definition backslash : ascii := "\".
Definition squote : ascii := "'".
Definition quote_mark : ascii := "034".

Definition is_whitespace (c : ascii) : bool := Ascii.eqb c " ".

(** The quotes that a character needs. *)
Definition choose_quote (c : ascii) : option ascii :=
  if Ascii.eqb c squote || is_whitespace c then Some quote_mark
  else if Ascii.eqb c quote_mark then Some squote else None.

(** The loop of [quote]: the quotes that turn out to be needed, and the text
    between them. *)
Fixpoint quote_loop (quote_char : option ascii) (word : string) : option ascii * string :=
  match word with
  | EmptyString => (quote_char, "")
  | String c word =>
      if Ascii.eqb c backslash || bool_decide (quote_char = Some c) then
        let '(q, text) := quote_loop quote_char word in (q, String backslash (String c text))
      else
        let quote_char := match quote_char with None => choose_quote c | Some q => Some q end in
        let '(q, text) := quote_loop quote_char word in (q, String c text)
  end.

Definition quote (word : string) : string :=
  let '(q, text) := quote_loop None word in
  let q := match q with Some c => String c "" | None => "" end in
  q +:+ text +:+ q.

Definition quote_cmdline (words : list string) : string := str_join " " (map quote words).

Fixpoint skip_whitespace (text : string) : string :=
  match text with
  | String c rest => if is_whitespace c then skip_whitespace rest else text
  | EmptyString => ""
  end.

(** The word, and the text after it. *)
Fixpoint parse_word (quote_char : option ascii) (text : string) : string * string :=
  match text with
  | EmptyString => ("", "")
  | String c rest =>
      if Ascii.eqb c backslash then
        match rest with
        | EmptyString => ("", "")
        | String d rest => let '(w, r) := parse_word quote_char rest in (String d w, r)
        end
      else if bool_decide (quote_char = Some c) then parse_word None rest
      else match quote_char with
           | Some _ => let '(w, r) := parse_word quote_char rest in (String c w, r)
           | None =>
               if Ascii.eqb c quote_mark || Ascii.eqb c squote then parse_word (Some c) rest
               else if is_whitespace c then ("", text)
               else let '(w, r) := parse_word None rest in (String c w, r)
           end
  end.

Fixpoint unquote_loop (fuel : nat) (text : string) : list string :=
  match fuel, text with
  | O, _ | _, EmptyString => []
  | S fuel, _ => let '(w, rest) := parse_word None text in w :: unquote_loop fuel (skip_whitespace rest)
  end.

Definition unquote_cmdline (text : string) : list string :=
  unquote_loop (String.length text) (skip_whitespace text).

Definition truncate_id (id : string) : string :=
  let id := match String.index 0 ":" id with
            | Some c => String.substring (c + 1) (String.length id) id
            | None => id
            end in
  String.substring 0 12 id.

(** ** JSON values that follow each other *)

Record skip_state := mk_skip { sk_any : bool; sk_depth : Z; sk_inword : bool; sk_instr : bool }.

#[export] Instance skip_settable : Settable skip_state := fun s =>
  mk_skip (sk_any s) (sk_depth s) (sk_inword s) (sk_instr s).

Definition vtab : ascii := "011".

Definition is_space (c : ascii) : bool :=
  Ascii.eqb c " " || Ascii.eqb c "009" || Ascii.eqb c "010" || Ascii.eqb c "013" || Ascii.eqb c vtab.

Definition ends_word (c : ascii) : bool :=
  is_space c || Ascii.eqb c "[" || Ascii.eqb c "{" || Ascii.eqb c "]" || Ascii.eqb c "}" || Ascii.eqb c quote_mark.

(** What the body of the loop does with a character: go on, go on after the next
    one, or look at it again. *)
Inductive move := Next (s : skip_state) | Over (s : skip_state) | Again (s : skip_state).

Definition skip_char (ch : ascii) (s : skip_state) : move :=
  if sk_inword s then
    if ends_word ch then Again (s <| sk_inword := false |> <| sk_depth ::= (fun d => d - 1) |>) else Next s
  else if is_space ch then Next s
  else if sk_instr s then
    if Ascii.eqb ch backslash then Over s
    else if Ascii.eqb ch quote_mark then Next (s <| sk_instr := false |> <| sk_depth ::= (fun d => d - 1) |>)
    else Next s
  else
    let s := s <| sk_any := true |> in
    if Ascii.eqb ch "[" || Ascii.eqb ch "{" then Next (s <| sk_depth ::= (fun d => d + 1) |>)
    else if Ascii.eqb ch "]" || Ascii.eqb ch "}" then Next (s <| sk_depth ::= (fun d => d - 1) |>)
    else if Ascii.eqb ch quote_mark then Next (s <| sk_instr := true |> <| sk_depth ::= (fun d => d + 1) |>)
    else Next (s <| sk_inword := true |> <| sk_depth ::= (fun d => d + 1) |>).

(** [any && depth <= 0] *)
Definition skipped (s : skip_state) : bool := sk_any s && (sk_depth s <=? 0).

Fixpoint skip_loop (string : string) (pos : nat) (s : skip_state) : nat * skip_state :=
  match string with
  | EmptyString => (pos, s)
  | String ch rest =>
      let over s :=
        match rest with
        | EmptyString => (S pos, s)
        | String _ rest => skip_loop rest (S (S pos)) s
        end in
      if skipped s then (pos, s)
      else match skip_char ch s with
           | Next s => skip_loop rest (S pos) s
           | Over s => over s
           | Again s =>
               if skipped s then (pos, s)
               else match skip_char ch s with
                    | Next s => skip_loop rest (S pos) s
                    | Over s => over s
                    | Again s => (pos, s)  (* it is not in a word any more *)
                    end
           end
  end.

(** [json_skip(string, pos)], of the rest of the string at [pos]. *)
Definition json_skip (string : string) (pos : nat) : nat :=
  let '(pos, s) := skip_loop (String.substring pos (String.length string) string) pos (mk_skip false 0 false false) in
  let s := if sk_inword s && (sk_depth s =? 1) then s <| sk_depth := 0 |> else s in
  if negb (sk_any s) || (0 <? sk_depth s) then 0%nat else pos.

(** ** Pulling an image

    The progress comes as JSON values; [JSON.parse] is a parameter, [None] where
    it throws. *)

Section Pull.
Context (JSON_parse : string -> option jval).

Record pull := mk_pull {
  pl_buffer : string;
  pl_error : option jval;
  pl_notified : list (jval * jval);
  pl_result : option (option jval) }.     (* rejected with, or resolved *)

#[export] Instance pull_settable : Settable pull := fun p =>
  mk_pull (pl_buffer p) (pl_error p) (pl_notified p) (pl_result p).

Definition new_pull : pull := mk_pull "" None [] None.

(** The parameters of the request. *)
Definition pull_params (repo tag registry : option string) : string * string :=
  let text o := match o with Some s => s | None => "" end in
  let tag := if String.eqb (text tag) "" then "latest" else text tag in
  let repo := text repo in
  (if String.eqb (text registry) "" then repo else text registry +:+ "/" +:+ repo, tag).

(** One block of data; [None] throws. *)
Definition pull_stream (data : string) (p : pull) : option pull :=
  let buffer := pl_buffer p +:+ data in
  let p := p <| pl_buffer := buffer |> in
  match json_skip buffer 0 with
  | O => Some p
  | next =>
      progress ← JSON_parse (String.substring 0 next buffer);
      if strict_eq progress JNull then None else
      let p := p <| pl_buffer := String.substring next (String.length buffer) buffer |> in
      Some (if truthy (jget progress "error") then p <| pl_error := Some (jget progress "error") |>
            else if truthy (jget progress "status")
                 then p <| pl_notified ::= (fun l => l ++ [(jget progress "status", progress)]) |> else p)
  end.

(** The request has ended. *)
Definition pull_fail (ex : jval) (p : pull) : pull := p <| pl_result := Some (Some ex) |>.
Definition pull_done (p : pull) : pull := p <| pl_result := Some (pl_error p) |>.

End Pull.

(** ** Consoles

    A console is the terminal of a container or shows its logs.  Both speak a
    protocol of Docker over a raw channel, after the head of an HTTP response. *)

(** *** The frames of logs *)

(** A byte of an array, as the bitwise operators see it. *)
Definition byte_at (buffer : list Z) (i : Z) : Z :=
  if i <? 0 then 0 else js_and (nth (Z.to_nat i) buffer 0) 255.

(** [buffer.subarray(first, last)] *)
Definition subarray (buffer : list Z) (first last : Z) : list Z :=
  let n := zlen buffer in
  let bound i := if i <? 0 then Z.max 0 (n + i) else Z.min i n in
  take (Z.to_nat (bound last - bound first)) (drop (Z.to_nat (bound first)) buffer).

Definition frame_size (buffer : list Z) (at_ : Z) : Z :=
  js_or (js_or (js_or (js_shl (byte_at buffer (at_ + 4)) 24) (js_shl (byte_at buffer (at_ + 5)) 16))
    (js_shl (byte_at buffer (at_ + 6)) 8)) (byte_at buffer (at_ + 7)).

(** What is shown: a terminal or logs, with what has been written to it.  The
    channel is that of its closure: none for a view of a failure or when it has
    been closed. *)
Record view := mk_view {
  v_term : bool;
  v_decoder : decoder;
  v_text : list string;
  v_input : bool;
  v_failed : bool;                          (* made with a message *)
  v_channel : option nat }.

#[export] Instance view_settable : Settable view := fun v =>
  mk_view (v_term v) (v_decoder v) (v_text v) (v_input v) (v_failed v) (v_channel v).

Definition write (text : string) (v : view) : view := v <| v_text ::= (fun l => l ++ [text]) |>.

(** [write(decoder.decode(block, { stream: ... }))]; without [fatal] it does not
    throw. *)
Definition write_decoded (stream : bool) (block : list Z) (v : view) : view :=
  let '(d, text) := decode stream block (v_decoder v) in
  write (default "" text) (v <| v_decoder := d |>).

(** The loop of [process]: what is left of the block starts at the position.  A
    size with its highest bit set is negative, so that the loop may go back; fuel
    for it. *)
Fixpoint logs_loop (fuel : nat) (buffer : list Z) (at_ : Z) (v : view) : option (view * Z) :=
  match fuel with
  | O => None
  | S fuel =>
      if zlen buffer <? at_ + 8 then Some (v, at_)
      else
        let size := frame_size buffer at_ in
        if zlen buffer <? at_ + 8 + size then Some (v, at_)
        else logs_loop fuel buffer (at_ + 8 + size)
               (write_decoded true (subarray buffer (at_ + 8) (at_ + 8 + size)) v)
  end.

Definition process (buffer : list Z) (v : view) : option (view * Z) :=
  if v_term v then Some (write_decoded false buffer v, zlen buffer)
  else logs_loop (S (length buffer)) buffer 0 v.

(** *** Attaching *)

(** The position of [find], -1 when there is none. *)
Fixpoint starts_with (seq find : list Z) : bool :=
  match find, seq with
  | [], _ => true
  | f :: find, s :: seq => (s =? f) && starts_with seq find
  | _, [] => false
  end.

Fixpoint sequence_find (seq find : list Z) : option nat :=
  if starts_with seq find then Some 0%nat
  else match seq with
       | [] => None
       | _ :: seq => S <$> sequence_find seq find
       end.

Inductive console_effect :=
  | COpen (id : nat) (request : string)
  | CControl (id : nat)
  | CSend (id : nat) (data : list Z)
  | CClose (id : nat) (problem : jval)
  | CExec (path : string) (body : jobj)
  | CTimer.

(** What the callback of the buffer is. *)
Inductive reader := RHead | RView | RNone.

Record console := mk_console {
  c_connected : bool;
  c_want : bool;
  c_focused : bool;
  c_tty : option bool;
  c_view : option view;
  c_channel : option nat;
  c_next : nat;
  c_request : string;
  c_headers : option string;
  c_reader : reader;
  c_buffer : buffer;
  c_hung : bool;                            (* in the loop of [process] *)
  c_effects : list console_effect }.

#[export] Instance console_settable : Settable console := fun c =>
  mk_console (c_connected c) (c_want c) (c_focused c) (c_tty c) (c_view c) (c_channel c) (c_next c) (c_request c)
    (c_headers c) (c_reader c) (c_buffer c) (c_hung c) (c_effects c).

Definition console_do (e : console_effect) (c : console) : console := c <| c_effects ::= (fun l => l ++ [e]) |>.

Definition empty_buffer : buffer := mk_buffer true true [] true.

Definition new_console (tty : option bool) : console :=
  mk_console false false false tty None None 0 "" None RHead empty_buffer false [].

Definition red (text : string) : string :=
  String "027" "[31m" +:+ text +:+ String "027" "[m" +:+ String "013" (String "010" "").

(** [new DockerTerminal(self, message)], [new DockerLogs(self, message)]: what is
    shown is emptied first. *)
Definition failure (message : string) (c : console) : console :=
  let tty := default false (c_tty c) in
  c <| c_view := Some (mk_view tty (mk_decoder false None) [if tty then red message else message] false true None) |>.

(** With a channel. *)
Definition new_view (tty : bool) (id : nat) (c : console) : console :=
  let c := if tty then c else console_do (CControl id) c in
  c <| c_view := Some (mk_view tty (mk_decoder false None) [] true false (Some id)) |>.

Definition update_typeable (c : console) : console :=
  match c_view c with
  | Some v => if v_term v then c <| c_view := Some (v <| v_input := c_want c && c_focused c |>) |> else c
  | None => c
  end.

Definition typeable (yes : bool) (c : console) : console := update_typeable (c <| c_want := yes |>).

(** [attach(request)] *)
Definition attach (request : string) (c : console) : console :=
  let id := c_next c in
  console_do (COpen id request)
    (c <| c_view := None |> <| c_channel := Some id |> <| c_next ::= S |> <| c_request := request |>
       <| c_headers := None |> <| c_reader := RHead |> <| c_buffer := empty_buffer |>).

(** The parts of the first line of the head. *)
Fixpoint upto_crlf (s : string) : string :=
  match s with
  | String "013" (String "010" _) => ""
  | String c s => String c (upto_crlf s)
  | EmptyString => ""
  end.

Definition status_parts (headers : string) : list string := str_split " " (upto_crlf headers).

Definition detect_tty (data : list Z) : option bool :=
  match data with
  | a :: b :: _ => Some (negb (((a =? 0) || (a =? 1) || (a =? 2)) && (b =? 0)))
  | _ => None
  end.

(** The end of [buffer.callback]: the view is there and reads the rest. *)
Definition show_view (tty : bool) (ret : Z) (data : list Z) (c : console) : console * option Z :=
  let c := new_view tty (default 0%nat (c_channel c)) (c <| c_tty := Some tty |>) in
  let c := typeable (c_want c) c <| c_connected := true |> <| c_reader := RView |> in
  match c_view c ≫= process data with
  | Some (v, consumed) => (c <| c_view := Some v |>, Some (ret + consumed))
  | None => (c <| c_hung := true |>, None)
  end.

Definition read_body (ret : Z) (data : list Z) (c : console) : console * option Z :=
  match c_tty c with
  | Some tty => show_view tty ret data c
  | None =>
      match detect_tty data with
      | Some tty => show_view tty ret data c
      | None => (c, Some ret)
      end
  end.

(** The callback of the buffer. *)
Definition read_head (data : list Z) (c : console) : console * option Z :=
  match c_headers c with
  | Some _ => read_body 0 data c
  | None =>
      match sequence_find data [13; 10; 13; 10] with
      | None => (c, Some 0)
      | Some pos =>
          let headers := default "" (snd (decode false (take pos data) (mk_decoder false None))) in
          let parts := status_parts headers in
          let c := c <| c_headers := Some headers |> in
          if bool_decide (parts !! 1%nat = Some "200")
          then read_body (Z.of_nat (pos + 4)) (drop (pos + 4) data) c
          else (failure (str_join " " (drop 2 parts)) c <| c_reader := RNone |>, None)
      end
  end.

Definition read (c : console) (data : list Z) : console * option Z :=
  match c_reader c with
  | RHead => read_head data c
  | RView =>
      match c_view c with
      | Some v =>
          match process data v with
          | Some (v, consumed) => (c <| c_view := Some v |>, Some consumed)
          | None => (c <| c_hung := true |>, None)
          end
      | None => (c, None)
      end
  | RNone => (c, None)
  end.

(** A message of the channel; one that was replaced by another is not followed. *)
Definition on_data (data : list Z) (c : console) : console :=
  let '(b, c) := deliver true read (c_buffer c) c data in
  c <| c_buffer := b <| b_callback := match c_reader c with RNone => false | _ => true end |> |>.

(** The channel has closed: the handler of [attach], then that of the view. *)
Definition view_closed (problem reason : string) (c : console) : console :=
  match c_view c with
  | Some v =>
      match v_channel v with
      | Some _ =>
          if v_term v
          then c <| c_view := Some (write (red (if String.eqb problem "" then "disconnected" else problem)) v
                                      <| v_input := false |> <| v_channel := None |>) |>
          else c <| c_view := Some (write (if String.eqb reason "" then "disconnected" else reason) v <| v_channel := None |>) |>
      | None => c
      end
  | None => c
  end.

Definition on_close (problem reason : string) (c : console) : console :=
  match c_channel c with
  | None => c
  | Some _ =>
      let c := c <| c_channel := None |> in
      let c := if c_connected c && String.eqb problem "" then console_do CTimer c else c in
      view_closed problem reason c <| c_buffer ::= (fun b => b <| b_open := false |>) |>
  end.

(** The timer of a channel that closed without a problem. *)
Definition on_timer (c : console) : console :=
  if c_connected c && bool_decide (c_channel c = None) then attach (c_request c) c else c.

(** [self.close(problem)]: the event of closing comes at once.  The request that
    is being prepared is not known here, since [prepare] has its own variable. *)
Definition close (problem : string) (c : console) : console :=
  let c := c <| c_connected := false |> in
  let c := match c_channel c with
           | Some id => on_close problem "" (console_do (CClose id (JStr problem)) c)
           | None => c
           end in
  c <| c_view := None |>.

Section Prepare.

(** The container, and the command to run in it if there is one. *)
Context (container : string) (command : option (list string)).

Definition crlf : string := String "013" (String "010" "").

Definition exec_path : string := "/v1.15/containers/" +:+ Uri.encodeURIComponent container +:+ "/exec".

Definition exec_body (tty : bool) (words : list string) : jobj :=
  {["AttachStdin" := JBool tty; "AttachStdout" := JBool true; "AttachStderr" := JBool true; "Tty" := JBool tty;
    "Cmd" := JArr (map JStr words)]}.

Definition logs_request : string :=
  "GET /v1.15/containers/" +:+ Uri.encodeURIComponent container +:+
  "/logs?follow=1&stdout=1&stderr=1&tail=1000&timestamps=0 HTTP/1.0" +:+ crlf +:+ "Content-Length: 0" +:+ crlf +:+ crlf.

Definition attach_request : string :=
  "POST /v1.15/containers/" +:+ Uri.encodeURIComponent container +:+
  "/attach?logs=1&stream=1&stdin=1&stdout=1&stderr=1 HTTP/1.0" +:+ crlf +:+ "Content-Length: 0" +:+ crlf +:+ crlf.

Definition start_request (exec : string) (tty : bool) : string :=
  let q := String quote_mark "" in
  let body := "{" +:+ q +:+ "Detach" +:+ q +:+ ":false," +:+ q +:+ "Tty" +:+ q +:+ ":" +:+ (if tty then "true" else "false") +:+ "}" in
  "POST /v1.15/exec/" +:+ Uri.encodeURIComponent exec +:+ "/start HTTP/1.0" +:+ crlf +:+
  "Content-Length: " +:+ pretty (Z.of_nat (String.length body)) +:+ crlf +:+ crlf +:+ body.

(** The console of a container; with a command it has a terminal unless told
    otherwise. *)
Definition make_console (tty : option bool) : console :=
  match command with
  | Some _ => new_console (Some (default true tty))
  | None => new_console tty
  end.

Definition prepare (c : console) : console :=
  let c := c <| c_connected := false |> in
  match command with
  | Some words => console_do (CExec exec_path (exec_body (default false (c_tty c)) words)) c
  | None => attach (if bool_decide (c_tty c = Some false) then logs_request else attach_request) c
  end.

(** The command has been accepted, with the name of its execution, or not. *)
Definition prepared (answer : string + string) (c : console) : console :=
  match answer with
  | inl exec => attach (start_request exec (default false (c_tty c))) c
  | inr message => failure message c
  end.

Definition connect (c : console) : console := prepare (close "disconnected" c).

End Prepare.

(** Focus; [None] throws: there is no view, or logs that failed, which have no
    method for it. *)
Definition focusin (c : console) : option console :=
  let c := update_typeable (c <| c_focused := true |>) in
  match c_view c with
  | Some v => if v_failed v && negb (v_term v) then None else Some c
  | None => None
  end.

Definition focusout (c : console) : console := update_typeable (c <| c_focused := false |>).

(** What is typed into the terminal. *)
Definition on_input (data : string) (c : console) : console :=
  match c_view c with
  | Some v =>
      if v_term v && v_input v
      then match v_channel v with Some id => console_do (CSend id (utf8_encode data)) c | None => c end
      else c
  | None => c
  end.
