(* ===== verification/DockerText.v ===== *)
(** * Command lines and JSON values of Docker

    What is quoted is read back as it was, but for words that are empty; a value
    is skipped exactly, whatever follows it, and not before it is complete. *)

From S2P Require Import Prelude Location Utf8 Buffer Docker.

(** ** Command lines *)

Lemma is_whitespace_eq c : is_whitespace c = true <-> c = " "%char.
Proof. apply Ascii.eqb_eq. Qed.

(** Where a word ends. *)
Definition ends (s : string) : Prop := match s with EmptyString => True | String c _ => is_whitespace c = true end.

Lemma parse_word_end s : ends s -> parse_word None s = ("", s).
Proof. destruct s as [|c s]; [done|]. cbn. by intros ->%is_whitespace_eq. Qed.

Lemma quote_loop_cons q c w :
  quote_loop q (String c w) =
  if Ascii.eqb c backslash || bool_decide (q = Some c)
  then ((quote_loop q w).1, String backslash (String c (quote_loop q w).2))
  else let q := match q with None => choose_quote c | Some q => Some q end in
       ((quote_loop q w).1, String c (quote_loop q w).2).
Proof. cbn. destruct (_ || _); cbn; by destruct (quote_loop _ w). Qed.

Lemma quote_loop_keeps w c : (quote_loop (Some c) w).1 = Some c.
Proof. induction w as [|d w IH]; [done|]. rewrite quote_loop_cons. by destruct (_ || _). Qed.

Lemma choose_quote_some c d : choose_quote c = Some d -> (d = quote_mark \/ d = squote) /\ d <> c.
Proof.
  unfold choose_quote. destruct (Ascii.eqb_spec c squote) as [->|H1]; cbn; [by intros [= <-]; split; [left|]|].
  destruct (is_whitespace c) eqn:E; [apply is_whitespace_eq in E as ->; by intros [= <-]; split; [left|]|].
  destruct (Ascii.eqb_spec c quote_mark) as [->|H2]; [|done]. by intros [= <-]; split; [right|].
Qed.

Lemma choose_quote_none c : choose_quote c = None -> c <> squote /\ c <> quote_mark /\ is_whitespace c = false.
Proof.
  unfold choose_quote. destruct (Ascii.eqb_spec c squote), (is_whitespace c), (Ascii.eqb_spec c quote_mark); done.
Qed.

(** One step of reading, by what the character is. *)
Lemma parse_backslash q d s :
  parse_word q (String backslash (String d s)) = (String d (parse_word q s).1, (parse_word q s).2).
Proof. cbn. by destruct (parse_word q s). Qed.

Lemma parse_close c s : c <> backslash -> parse_word (Some c) (String c s) = parse_word None s.
Proof. intros H. cbn. by rewrite (proj2 (Ascii.eqb_neq c backslash)), bool_decide_eq_true_2. Qed.

Lemma parse_inside q c s : c <> backslash -> c <> q ->
  parse_word (Some q) (String c s) = (String c (parse_word (Some q) s).1, (parse_word (Some q) s).2).
Proof.
  intros H1 H2. cbn. rewrite (proj2 (Ascii.eqb_neq c backslash)), bool_decide_eq_false_2 by congruence.
  by destruct (parse_word (Some q) s).
Qed.

Lemma parse_plain c s : c <> backslash -> choose_quote c = None ->
  parse_word None (String c s) = (String c (parse_word None s).1, (parse_word None s).2).
Proof.
  intros H (H1 & H2 & H3)%choose_quote_none. cbn. rewrite (proj2 (Ascii.eqb_neq c backslash)) by done.
  rewrite bool_decide_eq_false_2 by done.
  rewrite (proj2 (Ascii.eqb_neq c quote_mark)), (proj2 (Ascii.eqb_neq c squote)), H3 by done. by destruct (parse_word None s).
Qed.

(** Inside of its quotes a word is read as it was. *)
Lemma parse_quoted c rest : c = quote_mark \/ c = squote -> forall w q, q = None \/ q = Some c ->
  (quote_loop q w).1 = Some c ->
  parse_word (Some c) ((quote_loop q w).2 +:+ String c rest) =
  (w +:+ (parse_word None rest).1, (parse_word None rest).2).
Proof.
  intros Hc. assert (c <> backslash) as Hcb by by destruct Hc as [-> | ->].
  induction w as [|d w IH]; intros q Hq Hw.
  - cbn [quote_loop fst snd String.app] in Hw |- *. rewrite parse_close by done. by destruct (parse_word None rest).
  - rewrite quote_loop_cons in Hw |- *. destruct (Ascii.eqb d backslash || bool_decide (q = Some d)) eqn:E; cbn [fst snd] in Hw |- *.
    + cbn [String.app]. rewrite parse_backslash, IH by done. done.
    + apply orb_false_iff in E as [E1%Ascii.eqb_neq E2%bool_decide_eq_false_1]. cbv zeta in Hw |- *.
      assert (d <> c /\ (match q with None => choose_quote d | Some q => Some q end = None \/
        match q with None => choose_quote d | Some q => Some q end = Some c)) as [Hd Hq1].
      { destruct Hq as [-> | ->]; [|split; [congruence|by right]].
        destruct (choose_quote d) as [e|] eqn:Ee.
        - cbn in Hw. rewrite quote_loop_keeps in Hw. injection Hw as ->. apply choose_quote_some in Ee as [_ Hne].
          split; [congruence|by right].
        - apply choose_quote_none in Ee as (H1 & H2 & _). split; [|by left]. by destruct Hc as [-> | ->]. }
      cbn [String.app]. rewrite parse_inside, IH by done. done.
Qed.

(** A word without quotes ends before a space. *)
Lemma parse_unquoted rest : ends rest -> forall w, (quote_loop None w).1 = None ->
  parse_word None ((quote_loop None w).2 +:+ rest) = (w, rest).
Proof.
  intros Hr. induction w as [|d w IH]; intros Hw; [by apply parse_word_end|].
  rewrite quote_loop_cons in Hw |- *. rewrite bool_decide_eq_false_2, orb_false_r in Hw |- * by done.
  destruct (Ascii.eqb_spec d backslash) as [->|Hne]; cbn [fst snd] in Hw |- *; cbn [String.app].
  - by rewrite parse_backslash, IH.
  - cbv zeta in Hw |- *. destruct (choose_quote d) as [e|] eqn:Ee; [by rewrite quote_loop_keeps in Hw|].
    by rewrite parse_plain, IH.
Qed.

Lemma parse_open c s : c = quote_mark \/ c = squote -> parse_word None (String c s) = parse_word (Some c) s.
Proof. by intros [-> | ->]. Qed.

Lemma quote_loop_quote w c : (quote_loop None w).1 = Some c -> c = quote_mark \/ c = squote.
Proof.
  induction w as [|d w IH]; [done|]. rewrite quote_loop_cons. rewrite bool_decide_eq_false_2, orb_false_r by done.
  destruct (Ascii.eqb d backslash); cbn [fst]; [done|]. destruct (choose_quote d) as [e|] eqn:Ee; [|done].
  rewrite quote_loop_keeps. intros [= ->]. by apply choose_quote_some in Ee as [? _].
Qed.

Lemma parse_quote w rest : ends rest -> parse_word None (quote w +:+ rest) = (w, rest).
Proof.
  intros Hr. unfold quote. destruct (quote_loop None w) as [q t] eqn:E. destruct q as [c|].
  - assert (c = quote_mark \/ c = squote) as Hc.
    { apply (quote_loop_quote w). by rewrite E. }
    pose proof (parse_quoted c rest Hc w None ltac:(by left)) as H. rewrite E in H. specialize (H eq_refl). cbn [snd] in H.
    rewrite parse_word_end, str_app_nil_r in H by done. rewrite !str_app_assoc. cbn [String.app]. by rewrite parse_open.
  - pose proof (parse_unquoted rest Hr w) as H. rewrite E in H. cbn [String.app]. rewrite str_app_nil_r. by apply H.
Qed.

(** *** All the words *)

Lemma quote_empty w : quote w = "" <-> w = "".
Proof.
  split; [|by intros ->]. unfold quote. destruct w as [|c w]; [done|]. rewrite quote_loop_cons.
  destruct (_ || _); cbv zeta.
  - destruct (quote_loop None w) as [[a|] t]; done.
  - destruct (quote_loop (choose_quote c) w) as [[a|] t]; done.
Qed.

#[local] Ltac first_char := cbn [String.app]; let H := fresh in intros H; injection H as <- _; reflexivity.

(** A word that is read does not start with a space. *)
Lemma quote_start w c s : quote w = String c s -> is_whitespace c = false.
Proof.
  destruct w as [|d w]; [done|]. unfold quote. rewrite quote_loop_cons. rewrite bool_decide_eq_false_2, orb_false_r by done.
  destruct (Ascii.eqb_spec d backslash) as [->|Hne]; cbv zeta.
  - destruct (quote_loop None w) as [q t] eqn:E. cbn [fst snd]. destruct q as [e|].
    + assert (e = quote_mark \/ e = squote) as [-> | ->] by (apply (quote_loop_quote w); by rewrite E); first_char.
    + first_char.
  - destruct (choose_quote d) as [e|] eqn:Ee.
    + rewrite quote_loop_keeps. apply choose_quote_some in Ee as [[-> | ->] _]; first_char.
    + destruct (quote_loop None w) as [q t] eqn:E. cbn [fst snd]. destruct q as [e|].
      * assert (e = quote_mark \/ e = squote) as [-> | ->] by (apply (quote_loop_quote w); by rewrite E); first_char.
      * cbn [String.app]. intros H. injection H as <- _. by apply choose_quote_none in Ee as (_ & _ & Ee).
Qed.

Lemma skip_whitespace_start s : (forall c r, s = String c r -> is_whitespace c = false) -> skip_whitespace s = s.
Proof. destruct s as [|c s]; [done|]. intros H. cbn. by rewrite (H c s eq_refl). Qed.

(** The text of some words, with the space between two of them. *)
Lemma quote_cmdline_cons w ws :
  quote_cmdline (w :: ws) = quote w +:+ match ws with [] => "" | _ => " " +:+ quote_cmdline ws end.
Proof. unfold quote_cmdline. cbn [map]. destruct ws as [|v ws]; [cbn; by rewrite str_app_nil_r|done]. Qed.

Lemma unquote_quoted ws : forall fuel, (String.length (quote_cmdline ws) <= fuel)%nat ->
  unquote_loop fuel (skip_whitespace (quote_cmdline ws)) = filter (fun w => w <> "") ws.
Proof.
  induction ws as [|w ws IH]; intros fuel Hf; [by destruct fuel|]. rewrite quote_cmdline_cons in Hf |- *.
  set (rest := match ws with [] => "" | _ => " " +:+ quote_cmdline ws end) in *.
  assert (skip_whitespace rest = skip_whitespace (quote_cmdline ws)) as Hrest by by destruct ws.
  assert (ends rest) as He by by destruct ws. rewrite str_app_length in Hf.
  assert (String.length (quote_cmdline ws) <= String.length rest)%nat as Hlen.
  { destruct ws as [|v ws]; [done|]. unfold rest. cbn [String.app].
    generalize (quote_cmdline (v :: ws)). intros q. cbn. lia. }
  destruct (decide (w = "")) as [-> |Hne].
  - rewrite filter_cons_False by naive_solver. cbn [quote quote_loop String.app]. rewrite Hrest. apply IH.
    change (String.length (quote "")) with 0%nat in Hf. lia.
  - rewrite filter_cons_True by done. destruct (quote w) as [|c t] eqn:Eq; [exfalso; by apply Hne, quote_empty|].
    rewrite skip_whitespace_start.
    2: { intros d r E. injection E as <- _. by eapply quote_start. }
    change (String.length (String c t)) with (S (String.length t)) in Hf.
    destruct fuel as [|fuel]; [lia|]. pose proof (parse_quote w rest He) as Hp. rewrite Eq in Hp.
    cbn [unquote_loop String.app] in Hp |- *. rewrite Hp, Hrest. f_equal. apply IH. lia.
Qed.

(** A command line that is shown to be edited is read back as the words it
    was made of, whatever quotes, spaces and backslashes are in them; only empty
    words are lost. *)
Theorem cmdline_roundtrip words : unquote_cmdline (quote_cmdline words) = filter (fun w => w <> "") words.
Proof. by apply unquote_quoted. Qed.

(** ** JSON values

    The skipper looks at brackets, strings and words only; of a value it needs
    that its brackets and quotes match in number, as those of JSON do. *)

Inductive str_body : string -> Prop :=
  | sb_nil : str_body ""
  | sb_char c s : c <> quote_mark -> c <> backslash -> str_body s -> str_body (String c s)
  | sb_escape c s : str_body s -> str_body (String backslash (String c s)).

Definition opens (c : ascii) : Prop := c = "["%char \/ c = "{"%char.
Definition closes (c : ascii) : Prop := c = "]"%char \/ c = "}"%char.

(** A character of a word, or between words. *)
Definition inner (c : ascii) : Prop := ~ opens c /\ ~ closes c /\ c <> quote_mark.

Inductive inside : string -> Prop :=
  | in_nil : inside ""
  | in_char c s : inner c -> inside s -> inside (String c s)
  | in_string b s : str_body b -> inside s -> inside (String quote_mark (b +:+ String quote_mark s))
  | in_group o b c s : opens o -> closes c -> inside b -> inside s -> inside (String o (b +:+ String c s)).

Inductive item : string -> Prop :=
  | item_space c s : is_space c = true -> item s -> item (String c s)
  | item_string b : str_body b -> item (String quote_mark (b +:+ String quote_mark ""))
  | item_group o b c : opens o -> closes c -> inside b -> item (String o (b +:+ String c "")).

(** *** States of the skipper *)

(** At a depth, in a word or not, and in a string. *)
Definition at_depth (d : Z) (word : bool) : skip_state := mk_skip true (if word then d + 1 else d) word false.
Definition in_str (d : Z) : skip_state := mk_skip true d false true.

Lemma skipped_depth d w : 1 <= d -> skipped (at_depth d w) = false.
Proof. intros Hd. unfold skipped, at_depth. cbn. apply Z.leb_gt. destruct w; lia. Qed.

Lemma skipped_str d : 1 <= d -> skipped (in_str d) = false.
Proof. intros Hd. unfold skipped, in_str. cbn. apply Z.leb_gt. lia. Qed.

(** The kinds of characters. *)
Lemma space_not c : is_space c = true -> c <> "["%char /\ c <> "{"%char /\ c <> "]"%char /\ c <> "}"%char /\ c <> quote_mark.
Proof. intros H. repeat split; intros ->; done. Qed.

(** A character that ends words is looked at outside of them. *)
Lemma skip_word_end c s pos d : 1 <= d -> ends_word c = true ->
  skip_loop (String c s) pos (at_depth d true) = skip_loop (String c s) pos (at_depth d false).
Proof.
  intros Hd Hc. cbn [skip_loop]. rewrite !skipped_depth by done.
  assert (skip_char c (at_depth d true) = Again (at_depth d false)) as ->.
  { unfold skip_char, at_depth. cbn. rewrite Hc. unfold set_field. cbn. do 2 f_equal. lia. }
  rewrite skipped_depth by done. destruct (skip_char c (at_depth d false)) eqn:E; try done.
  exfalso. revert E. unfold skip_char. cbn. repeat (case_match; try done).
Qed.

(** From outside of a word, with a bound on what comes. *)
Lemma skip_out c s pos d w : 1 <= d -> (w = true -> ends_word c = true) ->
  skip_loop (String c s) pos (at_depth d w) = skip_loop (String c s) pos (at_depth d false).
Proof. intros Hd Hc. destruct w; [|done]. apply skip_word_end; auto. Qed.

Lemma skip_next c s pos st st' : skipped st = false -> skip_char c st = Next st' ->
  skip_loop (String c s) pos st = skip_loop s (S pos) st'.
Proof. intros H1 H2. cbn [skip_loop]. by rewrite H1, H2. Qed.

Lemma skip_body b rest d : str_body b -> 1 <= d -> forall pos,
  skip_loop (b +:+ String quote_mark rest) pos (in_str d) = skip_loop rest (pos + String.length b + 1) (at_depth (d - 1) false).
Proof.
  intros Hb Hd. induction Hb as [|c s H1 H2 Hb IH|c s Hb IH]; intros pos; cbn [String.app].
  - rewrite (skip_next _ _ _ _ (at_depth (d - 1) false)); [|by apply skipped_str|done]. f_equal. cbn. lia.
  - rewrite (skip_next _ _ _ _ (in_str d)); [|by apply skipped_str|].
    + rewrite IH. f_equal. cbn. lia.
    + unfold skip_char. cbn. destruct (is_space c); [done|].
      by rewrite (proj2 (Ascii.eqb_neq c backslash)), (proj2 (Ascii.eqb_neq c quote_mark)).
  - cbn [skip_loop]. rewrite skipped_str by done. change (skip_char backslash (in_str d)) with (Over (in_str d)). cbv iota zeta.
    rewrite IH. f_equal. cbn. lia.
Qed.

(** What is inside of brackets leaves the depth as it is. *)
Lemma skip_inside t : inside t -> forall rest d w pos, 1 <= d -> exists w',
  skip_loop (t +:+ rest) pos (at_depth d w) = skip_loop rest (pos + String.length t) (at_depth d w').
Proof.
  induction 1 as [|c s Hc Hs IH|b s Hb Hs IH|o b c s Ho Hc Hb IHb Hs IHs]; intros rest d w pos Hd; cbn [String.app].
  - exists w. f_equal. cbn. lia.
  - destruct (is_space c) eqn:Esp.
    + rewrite skip_out; [|done|by intros _; unfold ends_word; rewrite Esp].
      rewrite (skip_next _ _ _ _ (at_depth d false)); [|by apply skipped_depth|unfold skip_char; cbn; by rewrite Esp].
      destruct (IH rest d false (S pos) Hd) as [w' E]. exists w'. rewrite E. f_equal. cbn. lia.
    + destruct Hc as (Ho & Hcl & Hq). assert (ends_word c = false) as Hew.
      { unfold ends_word. rewrite Esp. cbn. unfold opens, closes in *.
        rewrite !(proj2 (Ascii.eqb_neq c _)) by naive_solver. done. }
      rewrite (skip_next _ _ _ _ (at_depth d true)); [|by apply skipped_depth|].
      * destruct (IH rest d true (S pos) Hd) as [w' E]. exists w'. rewrite E. f_equal. cbn. lia.
      * unfold skip_char. destruct w; cbn; [by rewrite Hew|]. rewrite Esp. unfold opens, closes in *.
        by rewrite !(proj2 (Ascii.eqb_neq c _)) by naive_solver.
  - rewrite skip_out; [|done|done]. rewrite (skip_next _ _ _ _ (in_str (d + 1))); [|by apply skipped_depth|done].
    rewrite str_app_assoc. cbn [String.app]. rewrite skip_body by (done || lia).
    replace (d + 1 - 1) with d by lia.
    destruct (IH rest d false (S pos + String.length b + 1)%nat Hd) as [w' E]. exists w'. rewrite E. f_equal.
    cbn. rewrite str_app_length. cbn. lia.
  - rewrite skip_out; [|done|by destruct Ho as [-> | ->]].
    rewrite (skip_next _ _ _ _ (at_depth (d + 1) false)); [|by apply skipped_depth|by destruct Ho as [-> | ->]].
    rewrite str_app_assoc. cbn [String.app]. destruct (IHb (String c (s +:+ rest)) (d + 1) false (S pos) ltac:(lia)) as [w1 ->].
    rewrite skip_out; [|lia|by destruct Hc as [-> | ->]].
    rewrite (skip_next _ _ _ _ (at_depth d false)); [|apply skipped_depth; lia|].
    2: { destruct Hc as [-> | ->]; unfold skip_char, at_depth, set_field; cbn; do 2 f_equal; lia. }
    destruct (IHs rest d false (S (S pos + String.length b))%nat Hd) as [w' E]. exists w'. rewrite E. f_equal.
    cbn. rewrite str_app_length. cbn. lia.
Qed.

(** *** A whole value *)

Definition skip_start : skip_state := mk_skip false 0 false false.

Lemma skip_stop s pos st : skipped st = true -> skip_loop s pos st = (pos, st).
Proof. intros H. destruct s as [|c s]; [done|]. cbn [skip_loop]. by rewrite H. Qed.

Lemma skip_item t : item t -> forall rest pos,
  skip_loop (t +:+ rest) pos skip_start = ((pos + String.length t)%nat, at_depth 0 false).
Proof.
  induction 1 as [c s Hc Hs IH|b Hb|o b c Ho Hc Hb]; intros rest pos; cbn [String.app].
  - rewrite (skip_next _ _ _ _ skip_start); [|done|unfold skip_char; cbn; by rewrite Hc]. rewrite IH. f_equal. cbn. lia.
  - rewrite (skip_next _ _ _ _ (in_str 1)); [|done|done]. rewrite str_app_assoc. cbn [String.app].
    rewrite skip_body by (done || lia). rewrite skip_stop by done. f_equal. cbn. rewrite str_app_length. cbn. lia.
  - rewrite (skip_next _ _ _ _ (at_depth 1 false)); [|done|by destruct Ho as [-> | ->]]. rewrite str_app_assoc. cbn [String.app].
    destruct (skip_inside b Hb (String c rest) 1 false (S pos) ltac:(lia)) as [w ->].
    rewrite skip_out; [|lia|by destruct Hc as [-> | ->]].
    rewrite (skip_next _ _ _ _ (at_depth 0 false)); [|done|by destruct Hc as [-> | ->]].
    rewrite skip_stop by done. f_equal. cbn. rewrite str_app_length. cbn. lia.
Qed.

Lemma substring_all s : String.substring 0 (String.length s) s = s.
Proof. induction s as [|c s IH]; cbn; [done|]. by rewrite IH. Qed.

Lemma substring_after s t : String.substring (String.length s) (String.length (s +:+ t)) (s +:+ t) = t.
Proof.
  assert (forall n, (String.length t <= n)%nat -> String.substring (String.length s) n (s +:+ t) = t) as H.
  { intros n Hn. induction s as [|c s IH]; [|exact IH]. cbn [String.app String.length]. revert n Hn. clear.
    induction t as [|c t IH]; intros n Hn; [by destruct n|]. destruct n as [|n]; [cbn in Hn; lia|]. cbn. f_equal. apply IH. cbn in Hn. lia. }
  apply H. rewrite str_app_length. lia.
Qed.

(** *** What is not complete *)

Lemma skip_over c st st' : skip_char c st = Over st' -> st' = st.
Proof. unfold skip_char. repeat (case_match; try done). by intros [= <-]. Qed.

(** A skipper that has stopped stays where it is when more comes. *)
Lemma skip_more q : forall n p, (String.length p <= n)%nat -> forall pos st pos' st',
  skip_loop p pos st = (pos', st') -> skipped st' = true -> skip_loop (p +:+ q) pos st = (pos', st').
Proof.
  induction n as [|n IH]; intros p Hn pos st pos' st' Hp Hs.
  - destruct p as [|c p]; [|cbn in Hn; lia]. cbn in Hp |- *. injection Hp as -> ->. by apply skip_stop.
  - destruct p as [|c p]; [cbn in Hp |- *; injection Hp as -> ->; by apply skip_stop|]. cbn in Hn.
    cbn [skip_loop String.app] in Hp |- *. destruct (skipped st) eqn:E; [done|].
    assert (forall s, skipped s = false ->
      match p with "" => (S pos, s) | String _ rest => skip_loop rest (S (S pos)) s end = (pos', st') ->
      match p +:+ q with "" => (S pos, s) | String _ rest => skip_loop rest (S (S pos)) s end = (pos', st')) as Hover.
    { intros s Hns Hq. destruct p as [|d p]; cbn [String.app]; [injection Hq as <- <-; by rewrite Hs in Hns|].
      apply IH; [cbn in Hn; lia|done|done]. }
    destruct (skip_char c st) as [s|s|s] eqn:Ec; [apply IH; [lia|done|done]| |].
    + apply skip_over in Ec as ->. by apply Hover.
    + destruct (skipped s) eqn:Es; [done|]. destruct (skip_char c s) as [s'|s'|s'] eqn:Ec'; [apply IH; [lia|done|done]| |done].
      apply skip_over in Ec' as ->. by apply Hover.
Qed.

(** Words are only met inside of something. *)
Definition started (st : skip_state) : Prop := sk_any st = true -> sk_inword st = true -> 2 <= sk_depth st.

Lemma started_char c st : sk_any st = true -> skipped st = false -> started st ->
  match skip_char c st with Next s | Over s | Again s => sk_any s = true /\ started s end.
Proof.
  intros Ha Hn Hs. unfold skipped in Hn. rewrite Ha in Hn. cbn in Hn. apply Z.leb_gt in Hn.
  unfold skip_char, started in *. destruct st as [a d w i]. cbn in *. subst a.
  repeat (case_match; simplify_eq; cbn in *; try done); split; try done; intros; try lia; auto.
Qed.

Lemma started_loop : forall n p, (String.length p <= n)%nat -> forall pos st, sk_any st = true -> started st ->
  sk_any (skip_loop p pos st).2 = true /\ started (skip_loop p pos st).2.
Proof.
  induction n as [|n IH]; intros p Hn pos st Ha Hs; destruct p as [|c p]; try (by split); [cbn in Hn; lia|]. cbn in Hn.
  cbn [skip_loop]. destruct (skipped st) eqn:E; [by split|].
  assert (forall s, sk_any s = true -> started s ->
    sk_any (match p with "" => (S pos, s) | String _ rest => skip_loop rest (S (S pos)) s end).2 = true /\
    started (match p with "" => (S pos, s) | String _ rest => skip_loop rest (S (S pos)) s end).2) as Hover.
  { intros s H1 H2. destruct p as [|d p]; [by split|]. apply IH; [cbn in Hn; lia|done|done]. }
  pose proof (started_char c st Ha E Hs) as Hc. destruct (skip_char c st) as [s|s|s]; destruct Hc as [H1 H2].
  - apply IH; [lia|done|done].
  - by apply Hover.
  - destruct (skipped s) eqn:Es; [by split|]. pose proof (started_char c s H1 Es H2) as Hc.
    destruct (skip_char c s) as [s'|s'|s']; destruct Hc as [H3 H4]; [apply IH; [lia|done|done]|by apply Hover|by split].
Qed.

(** The part of a value that has come so far: nothing, or something that started
    with a bracket or a quote. *)
Lemma skip_part t : item t -> forall p q pos, t = p +:+ q ->
  sk_any (skip_loop p pos skip_start).2 = false \/ started (skip_loop p pos skip_start).2.
Proof.
  induction 1 as [c s Hc Hs IH|b Hb|o b c Ho Hc Hb]; intros p q pos E; (destruct p as [|d p]; [by left|]);
    cbn [String.app] in E; injection E as <- E.
  - rewrite (skip_next _ _ _ _ skip_start); [|done|unfold skip_char; cbn; by rewrite Hc]. by eapply IH.
  - right. rewrite (skip_next _ _ _ _ (in_str 1)); [|done|done]. by apply (started_loop (String.length p)).
  - right. rewrite (skip_next _ _ _ _ (at_depth 1 false)); [|done|by destruct Ho as [-> | ->]].
    by apply (started_loop (String.length p)).
Qed.

Lemma json_skip_start s : json_skip s 0 =
  let '(pos, st) := skip_loop s 0 skip_start in
  let st := if sk_inword st && (sk_depth st =? 1) then st <| sk_depth := 0 |> else st in
  if negb (sk_any st) || (0 <? sk_depth st) then 0%nat else pos.
Proof. unfold json_skip. by rewrite substring_all. Qed.

Lemma skip_le : forall n p pos st, (String.length p <= n)%nat -> ((skip_loop p pos st).1 <= pos + String.length p)%nat.
Proof.
  induction n as [|n IH]; intros p pos st Hn; destruct p as [|c p]; try (cbn in *; lia). cbn in Hn.
      assert (forall s, ((match p with "" => (S pos, s) | String _ rest => skip_loop rest (S (S pos)) s end).1 <=
        pos + String.length (String c p))%nat) as Hover.
      { intros s. destruct p as [|d p]; [cbn; lia|]. cbn in Hn. specialize (IH p (S (S pos)) s ltac:(lia)). cbn in *. lia. }
      assert (forall s, ((skip_loop p (S pos) s).1 <= pos + String.length (String c p))%nat) as Hnext.
      { intros s. specialize (IH p (S pos) s ltac:(lia)). cbn. lia. }
      cbn [skip_loop]. destruct (skipped st); [cbn; lia|].
      destruct (skip_char c st) as [s|s|s]; [apply Hnext|apply Hover|]. destruct (skipped s); [cbn; lia|].
      destruct (skip_char c s) as [s'|s'|s']; [apply Hnext|apply Hover|cbn; lia].
Qed.

(** C36. A value of the stream (an object, an array or a string, with spaces before
    it, whatever brackets and quotes its strings have in them) is skipped exactly,
    whatever comes after it; and as long as its end has not come, the skipper says
    that it is not complete. *)
Theorem json_skip_exact t : item t ->
  (forall rest, json_skip (t +:+ rest) 0 = String.length t) /\
  (forall p q, t = p +:+ q -> q <> "" -> json_skip p 0 = 0%nat).
Proof.
  intros Ht. split.
  - intros rest. rewrite json_skip_start, (skip_item t Ht). cbn. done.
  - intros p q -> Hq. rewrite json_skip_start. pose proof (skip_part _ Ht p q 0 eq_refl) as Hp.
    pose proof (skip_item _ Ht "" 0) as Hw. rewrite str_app_nil_r in Hw.
    destruct (skip_loop p 0 skip_start) as [pos st] eqn:E. cbn in Hp.
    destruct Hp as [Hp|Hp].
    + destruct (sk_inword st && _); cbn; by rewrite Hp.
    + destruct (sk_any st) eqn:Ea; [|destruct (sk_inword st && _); cbn; by rewrite ?Ea].
      assert (sk_inword st && (sk_depth st =? 1) = false) as ->.
      { destruct (sk_inword st) eqn:Ei; [|done]. specialize (Hp Ea Ei). apply Z.eqb_neq. lia. }
      cbv zeta. rewrite Ea. cbn. destruct (Z.ltb_spec 0 (sk_depth st)) as [|Hd]; [done|]. exfalso.
      rewrite (skip_more q (String.length p) p ltac:(lia) 0 skip_start pos st E) in Hw
        by (unfold skipped; rewrite Ea; by apply Z.leb_le).
      injection Hw as Hpos _.
      pose proof (skip_le (String.length p) p 0%nat skip_start ltac:(lia)) as Hle. rewrite E in Hle. cbn in Hle. rewrite str_app_length in Hpos.
      destruct q as [|c q]; [done|]. cbn in Hpos. lia.
Qed.

Lemma json_skip_exact_witness :
  let q := String quote_mark "" in
  let t := " {" +:+ q +:+ "a]" +:+ q +:+ ": 1}" in
  item t /\ json_skip (t +:+ "{") 0 = String.length t /\ json_skip " {" 0 = 0%nat.
Proof.
  intros q t. assert (item t) as Ht.
  { apply item_space; [done|]. apply (item_group "{" (q +:+ "a]" +:+ q +:+ ": 1") "}"); [by right|by right|].
    apply (in_string "a]" ": 1"); [do 2 (apply sb_char; [done..|]); apply sb_nil|].
    do 3 (apply in_char; [unfold inner, opens, closes; naive_solver|]). apply in_nil. }
  destruct (json_skip_exact t Ht) as [H1 H2]. split; [done|]. split; [apply H1|].
  apply (H2 " {" (q +:+ "a]" +:+ q +:+ ": 1}")); done.
Defined.

(** ** What the code does not do *)

(** A word that is empty is lost, as no quotes are put around it. *)
Example empty_word_lost : unquote_cmdline (quote_cmdline ["sh"; "-c"; ""; "x y"]) = ["sh"; "-c"; "x y"].
Proof. reflexivity. Qed.

(** One value is taken from the buffer for each block of data: the error that
    comes in the last block after another value is never looked at, and the pull
    has succeeded. *)
Definition sample_status : string := let q := String quote_mark "" in "{" +:+ q +:+ "status" +:+ q +:+ ":1}".
Definition sample_error : string := let q := String quote_mark "" in "{" +:+ q +:+ "error" +:+ q +:+ ":2}".
Definition sample_parse (s : string) : option jval :=
  if String.eqb s sample_status then Some (JObj [("status", JStr "x")])
  else if String.eqb s sample_error then Some (JObj [("error", JStr "no such image")]) else None.

Example pull_error_in_its_block :
  pl_result <$> (pull_done <$> (pull_stream sample_parse sample_status new_pull ≫= pull_stream sample_parse sample_error)) =
  Some (Some (Some (JStr "no such image"))).
Proof. vm_compute. reflexivity. Qed.

Example pull_error_lost :
  pl_result <$> (pull_done <$> pull_stream sample_parse (sample_status +:+ sample_error) new_pull) = Some (Some None).
Proof. vm_compute. reflexivity. Qed.
