(* ===== verification/DockerSpec.v ===== *)
(** * What a console shows does not depend on how its bytes arrive

    The response of Docker comes in blocks of any size: the head of an HTTP
    response, then frames.  The logs show the text of the frames, whatever the
    blocks. *)

From S2P Require Import Prelude Uri Location Utf8 Buffer Docker DockerText.

(** ** Frames *)

(** The kind of output with three bytes that are not used, and the data. *)
Abbreviation frame := (list Z * list Z)%type.

Definition be32 (n : Z) : list Z := [n / 2 ^ 24; n / 2 ^ 16 mod 256; n / 2 ^ 8 mod 256; n mod 256].
Definition encode_frame (f : frame) : list Z := f.1 ++ be32 (zlen f.2) ++ f.2.
Definition encode_frames (fs : list frame) : list Z := concat (map encode_frame fs).
Definition ok_frame (f : frame) : Prop := length f.1 = 4%nat /\ zlen f.2 < 2 ^ 31.

Lemma be32_bytes n : 0 <= n < 2 ^ 31 ->
  js_or (js_or (js_or (js_shl (js_and (n / 2 ^ 24) 255) 24) (js_shl (js_and (n / 2 ^ 16 mod 256) 255) 16))
    (js_shl (js_and (n / 2 ^ 8 mod 256) 255) 8)) (js_and (n mod 256) 255) = n.
Proof.
  intros Hn. change 255 with (Z.ones 8). rewrite !js_and_ones by lia. change (2 ^ 8) with 256.
  rewrite !Z.mod_mod by lia.
  pose proof (Z.div_mod n 256 ltac:(lia)) as E1.
  assert (n / 2 ^ 16 = n / 256 / 256) as -> by (rewrite Z.div_div by lia; done).
  assert (n / 2 ^ 24 = n / 256 / 256 / 256) as -> by (rewrite !Z.div_div by lia; done).
  pose proof (Z.div_mod (n / 256) 256 ltac:(lia)) as E2. pose proof (Z.div_mod (n / 256 / 256) 256 ltac:(lia)) as E3.
  set (b3 := n mod 256) in *. set (b2 := n / 256 mod 256) in *. set (b1 := n / 256 / 256 mod 256) in *.
  set (b0 := n / 256 / 256 / 256) in *. assert (0 <= b3 < 256) by (apply Z.mod_pos_bound; lia).
  assert (0 <= b2 < 256) by (apply Z.mod_pos_bound; lia). assert (0 <= b1 < 256) by (apply Z.mod_pos_bound; lia).
  assert (0 <= b0 < 128) by lia. rewrite (Z.mod_small b0 256) by lia.
  rewrite !js_shl_small by lia. change (2 ^ 24) with (256 * 2 ^ 16). change (2 ^ 16) with (256 * 2 ^ 8).
  assert (js_or (b0 * (256 * (256 * 2 ^ 8))) (b1 * (256 * 2 ^ 8)) = (b0 * 256 + b1) * 2 ^ 16) as ->.
  { replace (b0 * (256 * (256 * 2 ^ 8))) with (b0 * 2 ^ 24) by lia. rewrite js_or_add by lia. lia. }
  assert (js_or ((b0 * 256 + b1) * 2 ^ 16) (b2 * 2 ^ 8) = ((b0 * 256 + b1) * 256 + b2) * 2 ^ 8) as ->
    by (rewrite js_or_add by lia; lia).
  rewrite js_or_add by lia. lia.
Qed.

Lemma byte_at_app pre l i : 0 <= i -> byte_at (pre ++ l) (zlen pre + i) = js_and (nth (Z.to_nat i) l 0) 255.
Proof.
  intros Hi. unfold byte_at, zlen. rewrite (proj2 (Z.ltb_ge _ 0)) by lia.
  replace (Z.to_nat (Z.of_nat (length pre) + i)) with (length pre + Z.to_nat i)%nat by lia.
  by rewrite app_nth2_plus.
Qed.

Lemma frame_size_at pre f rest : ok_frame f -> frame_size (pre ++ encode_frame f ++ rest) (zlen pre) = zlen f.2.
Proof.
  intros [Hk Hd]. destruct f as [k d]. cbn [fst snd] in *. destruct k as [|k0 [|k1 [|k2 [|k3 [|? ?]]]]]; try done.
  unfold frame_size, encode_frame. rewrite !byte_at_app by lia. cbn [fst snd app].
  rewrite <- (be32_bytes (zlen d)) at 5 by (unfold zlen in *; lia). reflexivity.
Qed.

(** What has come of a frame that has not come as a whole. *)
Definition begun (q : list Z) : Prop := q = [] \/ exists f r, ok_frame f /\ r <> [] /\ encode_frame f = q ++ r.

Lemma begun_short pre q : begun q ->
  zlen (pre ++ q) <? zlen pre + 8 = true \/
  (zlen (pre ++ q) <? zlen pre + 8 = false /\ zlen (pre ++ q) <? zlen pre + 8 + frame_size (pre ++ q) (zlen pre) = true).
Proof.
  intros Hq. destruct (zlen (pre ++ q) <? zlen pre + 8) eqn:E; [by left|right; split; [done|]].
  apply Z.ltb_ge in E. unfold zlen in E. rewrite length_app in E.
  destruct Hq as [-> |(f & r & Hf & Hr & Ef)]; [cbn in E; lia|].
  pose proof (frame_size_at pre f [] Hf) as Hs. rewrite app_nil_r, Ef in Hs.
  assert (frame_size (pre ++ q) (zlen pre) = zlen f.2) as ->.
  { rewrite <- Hs, app_assoc. unfold frame_size.
    assert (forall i, 0 <= i < 8 -> byte_at ((pre ++ q) ++ r) (zlen pre + i) = byte_at (pre ++ q) (zlen pre + i)) as Hb.
    { intros i Hi. rewrite <- app_assoc, !byte_at_app by lia. by rewrite app_nth1 by lia. }
    by rewrite !Hb by lia. }
  apply Z.ltb_lt. unfold zlen. rewrite length_app.
  assert (length (encode_frame f) = (8 + length f.2)%nat) as Hl.
  { unfold encode_frame. rewrite !length_app. destruct Hf as [-> _]. cbn. lia. }
  rewrite Ef, length_app in Hl. destruct r; [done|]. cbn in Hl. lia.
Qed.

(** The text of frames, added to a view. *)
Definition write_frames (fs : list frame) (v : view) : view := foldl (fun v f => write_decoded true f.2 v) v fs.

Lemma subarray_frame pre f rest : ok_frame f ->
  subarray (pre ++ encode_frame f ++ rest) (zlen pre + 8) (zlen pre + 8 + zlen f.2) = f.2.
Proof.
  intros [Hk _]. unfold subarray, encode_frame, zlen. rewrite !length_app. cbn [be32 length].
  rewrite !(proj2 (Z.ltb_ge _ 0)) by lia. rewrite !Z.min_l by lia.
  replace (pre ++ (f.1 ++ be32 (Z.of_nat (length f.2)) ++ f.2) ++ rest)
    with ((pre ++ f.1 ++ be32 (Z.of_nat (length f.2))) ++ f.2 ++ rest) by (by rewrite <- !app_assoc).
  rewrite drop_app_length' by (rewrite !length_app; cbn [be32 length]; lia).
  by rewrite take_app_length' by lia.
Qed.

Lemma logs_loop_frames fs q : Forall ok_frame fs -> begun q -> forall fuel pre v, (length fs < fuel)%nat ->
  logs_loop fuel (pre ++ encode_frames fs ++ q) (zlen pre) v = Some (write_frames fs v, zlen pre + zlen (encode_frames fs)).
Proof.
  intros Hfs Hq. induction Hfs as [|f fs Hf Hfs IH]; intros fuel pre v Hl; (destruct fuel as [|fuel]; [cbn in Hl; lia|]).
  - cbn [encode_frames map concat app logs_loop]. destruct (begun_short pre q Hq) as [-> |[-> ->]]; cbn; by rewrite Z.add_0_r.
  - cbn [encode_frames map concat]. rewrite <- app_assoc. cbn [logs_loop].
    rewrite frame_size_at, subarray_frame by done.
    assert (zlen (pre ++ encode_frame f ++ concat (map encode_frame fs) ++ q) =
      zlen pre + 8 + zlen f.2 + zlen (concat (map encode_frame fs) ++ q)) as Hlen.
    { unfold zlen, encode_frame. rewrite !length_app. destruct Hf as [-> _]. cbn [be32 length]. lia. }
    rewrite Hlen. rewrite !(proj2 (Z.ltb_ge _ _)) by (unfold zlen; lia).
    replace (zlen pre + 8 + zlen f.2) with (zlen (pre ++ encode_frame f)).
    2: { unfold zlen, encode_frame. rewrite !length_app. destruct Hf as [-> _]. cbn [be32 length]. lia. }
    rewrite app_assoc. fold (encode_frames fs). rewrite IH by (cbn in Hl; lia). f_equal. f_equal.
    unfold zlen. rewrite !length_app. lia.
Qed.

Lemma encode_frames_length fs : Forall ok_frame fs -> (length fs <= length (encode_frames fs))%nat.
Proof.
  induction 1 as [|f fs [Hk _] _ IH]; [done|]. cbn [encode_frames map concat]. fold (encode_frames fs). rewrite length_app.
  unfold encode_frame. rewrite !length_app, Hk. cbn [length be32]. lia.
Qed.

(** One call of [process] on whole frames and the beginning of another. *)
Lemma process_frames fs q v : Forall ok_frame fs -> begun q -> v_term v = false ->
  process (encode_frames fs ++ q) v = Some (write_frames fs v, zlen (encode_frames fs)).
Proof.
  intros Hfs Hq Hv. unfold process. rewrite Hv.
  pose proof (logs_loop_frames fs q Hfs Hq (S (length (encode_frames fs ++ q))) [] v) as H. cbn [app] in H.
  apply H. pose proof (encode_frames_length fs Hfs). rewrite length_app. lia.
Qed.

(** A part of a stream of frames: whole ones, and the beginning of the next. *)
Lemma split_frames fs : Forall ok_frame fs -> forall p r, encode_frames fs = p ++ r ->
  exists fs1 fs2 q, fs = fs1 ++ fs2 /\ p = encode_frames fs1 ++ q /\ begun q /\ (r = [] -> fs2 = [] /\ q = []).
Proof.
  induction 1 as [|f fs Hf Hfs IH]; intros p r E.
  - symmetry in E. apply app_eq_nil in E as [-> ->]. exists [], [], []. repeat split; by left.
  - cbn [encode_frames map concat] in E. apply app_eq_inv in E as [(k & Ef & Er)|(k & -> & Ek)].
    + destruct (decide (k = [])) as [-> |Hk].
      * rewrite app_nil_r in Ef. subst p. cbn [app] in Er. destruct (IH [] r (eq_sym Er)) as (fs1 & fs2 & q & -> & Eq & Hq & Hr).
        exists (f :: fs1), fs2, q. split; [done|]. split; [|by split].
        cbn [encode_frames map concat]. rewrite <- app_assoc. fold (encode_frames fs1). by rewrite <- Eq, app_nil_r.
      * exists [], (f :: fs), p. split; [done|]. split; [done|]. split; [right; by exists f, k|].
        intros ->. symmetry in Er. by apply app_eq_nil in Er as [-> _].
    + destruct (IH k r Ek) as (fs1 & fs2 & q & -> & -> & Hq & Hr). exists (f :: fs1), fs2, q. split; [done|].
      split; [|by split]. cbn [encode_frames map concat]. by rewrite <- app_assoc.
Qed.

(** *** Their text *)

Definition shown_text (v : view) : string := foldr String.app "" (v_text v).

Lemma shown_write t v : shown_text (write t v) = shown_text v +:+ t.
Proof.
  unfold shown_text, write. cbn. induction (v_text v) as [|x l IH]; cbn; [by rewrite str_app_nil_r|]. by rewrite IH, str_app_assoc.
Qed.

Lemma partial_valid p : partial p -> p <> [] -> utf8_valid p -> False.
Proof.
  intros (q & Hq & Hok) Hp Hv. destruct Hv as [|c l Hc Hl]; [done|].
  destruct (seq_scan _ Hok) as (b & t & E & Hx & _). destruct (seq_scan _ Hc) as (b' & t' & -> & Hx' & _).
  cbn in E. injection E as <- _. rewrite Hx' in Hx. rewrite !length_app in Hx. destruct q; [done|]. cbn in Hx. lia.
Qed.

(** The decoder with the beginning of a character in it. *)
Definition with_partial (p : list Z) : decoder := mk_decoder false (match p with [] => None | _ => Some p end).

Lemma write_frames_text fs : forall p v, p = [] \/ p <> [] /\ partial p -> v_decoder v = with_partial p ->
  utf8_valid (p ++ concat (map snd fs)) ->
  shown_text (write_frames fs v) = shown_text v +:+ of_bytes (p ++ concat (map snd fs)).
Proof.
  induction fs as [|f fs IH]; intros p v Hp Hd Hv; cbn [write_frames foldl map concat] in *.
  - rewrite app_nil_r in *. destruct Hp as [-> |[Hne Hp]]; [by rewrite str_app_nil_r|]. by destruct (partial_valid p).
  - rewrite app_assoc in Hv. destruct (split_valid _ Hv (p ++ f.2) (concat (map snd fs))) as (w & q & E & Hw & Hq & Hvr); [done|].
    assert (decode true f.2 (v_decoder v) = (with_partial q, Some (of_bytes w))) as Hdec.
    { rewrite Hd. unfold decode, with_partial. cbn [d_buffer d_fatal].
      assert (match match p with [] => None | _ => Some p end with Some b => b ++ f.2 | None => f.2 end = p ++ f.2) as -> by by destruct p.
      rewrite E, decode_prefix by (done || naive_solver). done. }
    fold (write_frames fs (write_decoded true f.2 v)). rewrite (IH q); [|naive_solver| |done].
    + unfold write_decoded. rewrite Hdec. cbn [default]. rewrite shown_write, str_app_assoc. f_equal. unfold id.
      rewrite <- of_bytes_app. f_equal. rewrite (app_assoc p), E. by rewrite <- app_assoc.
    + unfold write_decoded. rewrite Hdec. done.
Qed.

(** ** The head *)

Definition blank_line : list Z := [13; 10; 13; 10].

Lemma starts_with_app s find t : starts_with s find = true -> starts_with (s ++ t) find = true.
Proof.
  revert s. induction find as [|f find IH]; intros [|x s]; cbn; try done; [by destruct t|].
  intros [-> H]%andb_true_iff. by rewrite IH.
Qed.

Lemma starts_with_cut s find t : (length find <= length s)%nat -> starts_with (s ++ t) find = true -> starts_with s find = true.
Proof.
  revert s. induction find as [|f find IH]; intros [|x s]; cbn; try done; [lia|].
  intros Hl [-> H]%andb_true_iff. rewrite IH; [done|lia|done].
Qed.

Lemma starts_with_length s find : starts_with s find = true -> (length find <= length s)%nat.
Proof.
  revert s. induction find as [|f find IH]; intros s H; [cbn; lia|]. destruct s as [|x s]; [done|].
  cbn in H |- *. apply andb_true_iff in H as [_ H]. specialize (IH s H). lia.
Qed.

Lemma sequence_find_spec s find n : sequence_find s find = Some n ->
  starts_with (drop n s) find = true /\ (n <= length s)%nat /\ forall m, (m < n)%nat -> starts_with (drop m s) find = false.
Proof.
  revert n. induction s as [|x s IH]; intros n.
  - cbn [sequence_find]. destruct (starts_with [] find) eqn:E; [|done]. intros [= <-]. split; [exact E|]. split; [lia|]. lia.
  - cbn [sequence_find]. destruct (starts_with (x :: s) find) eqn:E.
    + intros [= <-]. split; [exact E|]. split; [lia|]. lia.
    + destruct (sequence_find s find) as [k|] eqn:Ek; [|done]. intros [= <-]. destruct (IH k eq_refl) as (H1 & H2 & H3).
      split; [done|]. split; [cbn; lia|]. intros [|m] Hm; [done|]. apply H3. lia.
Qed.

Lemma sequence_find_first s find n : starts_with (drop n s) find = true ->
  (forall m, (m < n)%nat -> starts_with (drop m s) find = false) -> (n <= length s)%nat -> sequence_find s find = Some n.
Proof.
  revert n. induction s as [|x s IH]; intros n H1 H2 Hn.
  - assert (n = 0%nat) as -> by (cbn in Hn; lia). change (starts_with [] find = true) in H1. cbn [sequence_find]. by rewrite H1.
  - cbn [sequence_find]. destruct n as [|n]; [change (starts_with (x :: s) find = true) in H1; by rewrite H1|].
    pose proof (H2 0%nat ltac:(lia)) as H0. change (starts_with (x :: s) find = false) in H0. rewrite H0.
    rewrite (IH n); [done|exact H1| |cbn in Hn; lia]. intros m Hm. apply (H2 (S m)). lia.
Qed.

(** The head of a response, which ends where it should. *)
Definition head_ends (head : list Z) : Prop := sequence_find (head ++ blank_line) blank_line = Some (length head).

Lemma find_head head rest : head_ends head ->
  sequence_find (head ++ blank_line ++ rest) blank_line = Some (length head).
Proof.
  intros (H1 & _ & H3)%sequence_find_spec. rewrite app_assoc. apply sequence_find_first.
  - rewrite drop_app_le by (rewrite length_app; lia). by apply starts_with_app.
  - intros m Hm. specialize (H3 m Hm). apply not_true_is_false. intros Hc. rewrite drop_app_le in Hc by (rewrite length_app; lia).
    apply starts_with_cut in Hc; [by rewrite Hc in H3|]. rewrite length_drop, length_app. cbn. lia.
  - rewrite !length_app. lia.
Qed.

Lemma find_part head p r : head_ends head -> r <> [] -> head ++ blank_line = p ++ r -> sequence_find p blank_line = None.
Proof.
  intros (_ & _ & H3)%sequence_find_spec Hr E. destruct (sequence_find p blank_line) as [m|] eqn:Em; [|done]. exfalso.
  apply sequence_find_spec in Em as (Hm & Hl & _). assert (length blank_line <= length (drop m p))%nat as Hlen by by apply starts_with_length.
  rewrite length_drop in Hlen. cbn in Hlen. pose proof (f_equal length E) as El. rewrite !length_app in El. cbn in El.
  assert (m < length head)%nat as Hlt by (destruct r; [done|cbn in El; lia]). specialize (H3 m Hlt).
  rewrite E, drop_app_le in H3 by lia. by rewrite starts_with_app in H3.
Qed.

(** ** Reading a response in blocks *)

(** A buffer that waits, with what it holds. *)
Record waits (b : buffer) (held : list Z) : Prop := {
  wa_binary : b_binary b = true; wa_callback : b_callback b = true; wa_open : b_open b = true;
  wa_held : concat (b_blocks b) = held }.

(** What reading a block does to a console that goes on. *)
Lemma on_data_read d c c' held n : waits (c_buffer c) held -> held ++ d <> [] ->
  read c (held ++ d) = (c', Some (Z.of_nat n)) -> (n <= length (held ++ d))%nat ->
  c_reader c' <> RNone ->
  exists b, on_data d c = c' <| c_buffer := b |> /\ waits b (drop n (held ++ d)).
Proof.
  intros [Hb Hc Ho Hh] Hne Hr Hn Hrd. unfold on_data, deliver. rewrite Ho. unfold on_message. cbn. rewrite Hc.
  rewrite (join_data_concat true) by (by left).
  rewrite concat_app. cbn. rewrite app_nil_r, Hh. destruct (held ++ d) as [|x l] eqn:E; [done|].
  rewrite Hr. rewrite <- E in *. clear x l E Hne.
  assert (forall c1 b1, c_reader c1 <> RNone ->
    c1 <| c_buffer := b1 <| b_callback := match c_reader c1 with RNone => false | _ => true end |> |> =
    c1 <| c_buffer := b1 <| b_callback := true |> |>) as Hset by (intros c1 b1 H1; by destruct (c_reader c1)).
  destruct (Z.eqb_spec (Z.of_nat n) (zlen (held ++ d))) as [En|En].
  - rewrite Hset by done. eexists. split; [reflexivity|]. split; cbn; try done.
    rewrite drop_ge; [done|]. unfold zlen in En. lia.
  - destruct (Z.eqb_spec (Z.of_nat n) 0) as [E0|E0].
    + rewrite Hset by done. eexists. split; [reflexivity|]. split; cbn; try done. rewrite app_nil_r.
      by replace n with 0%nat by lia.
    + rewrite Hset by done. eexists. split; [reflexivity|]. split; cbn; try done.
      unfold rest_from. rewrite (proj2 (Z.ltb_ge _ 0)) by lia. by rewrite Nat2Z.id, app_nil_r.
Qed.

Lemma on_data_empty c held : waits (c_buffer c) held -> held = [] -> c_reader c <> RNone ->
  exists b, on_data [] c = c <| c_buffer := b |> /\ waits b [].
Proof.
  intros [Hb Hc Ho Hh] -> Hrd. unfold on_data, deliver. rewrite Ho. unfold on_message. cbn. rewrite Hc.
  rewrite (join_data_concat true) by (by left).
  rewrite concat_app, Hh. cbn. eexists. split; [reflexivity|]. split; cbn; try done.
  - by destruct (c_reader c).
  - by rewrite concat_app, Hh.
Qed.

Section Response.
Context (head : list Z) (fs : list frame) (tty : option bool).

(** The status of the head. *)
Definition accepted : Prop :=
  status_parts (default "" (snd (decode false head (mk_decoder false None)))) !! 1%nat = Some "200".

(** Logs were asked for, or the first bytes tell. *)
Definition logs_follow : Prop :=
  tty = Some false \/
  (tty = None /\ exists k kind d fs', fs = (k :: 0 :: kind, d) :: fs' /\ (k = 0 \/ k = 1 \/ k = 2)).

Context (head_ok : head_ends head) (head_accepted : accepted) (fs_ok : Forall ok_frame fs) (fs_logs : logs_follow).

Definition fresh_view (id : nat) : view := mk_view false (mk_decoder false None) [] true false (Some id).

(** Where the reading of the response is. *)
Inductive phase (c : console) : list Z -> Prop :=
  | ph_head p r : c_reader c = RHead -> c_headers c = None -> c_tty c = tty -> waits (c_buffer c) p ->
      head ++ blank_line = p ++ r -> r <> [] -> phase c p
  | ph_tty w : c_reader c = RHead -> is_Some (c_headers c) -> c_tty c = tty -> tty = None -> waits (c_buffer c) w ->
      (length w < 2)%nat -> phase c (head ++ blank_line ++ w)
  | ph_view id fs1 fs2 q : c_reader c = RView -> c_connected c = true -> c_tty c = Some false -> c_hung c = false ->
      c_view c = Some (write_frames fs1 (fresh_view id)) -> fs = fs1 ++ fs2 -> waits (c_buffer c) q -> begun q ->
      phase c (head ++ blank_line ++ encode_frames fs1 ++ q).

Lemma write_frames_term l v : v_term (write_frames l v) = v_term v.
Proof.
  revert v. induction l as [|f l IH]; intros v; [done|]. cbn [write_frames foldl]. fold (write_frames l (write_decoded true f.2 v)).
  rewrite IH. unfold write_decoded. by destruct (decode true f.2 (v_decoder v)).
Qed.

Lemma show_view_logs ret w c :
  show_view false ret w c =
  let c1 := typeable (c_want c) (new_view false (default 0%nat (c_channel c)) (c <| c_tty := Some false |>))
              <| c_connected := true |> <| c_reader := RView |> in
  match process w (fresh_view (default 0%nat (c_channel c))) with
  | Some (v, consumed) => (c1 <| c_view := Some v |>, Some (ret + consumed))
  | None => (c1 <| c_hung := true |>, None)
  end.
Proof. reflexivity. Qed.

(** The view is made, and reads what there is of the frames. *)
Lemma show_view_reads ret w r c : encode_frames fs = w ++ r -> exists id fs1 fs2 q c',
  show_view false ret w c = (c', Some (ret + zlen (encode_frames fs1))) /\ w = encode_frames fs1 ++ q /\ fs = fs1 ++ fs2 /\
  begun q /\ c_reader c' = RView /\ c_connected c' = true /\ c_tty c' = Some false /\ c_hung c' = c_hung c /\
  c_view c' = Some (write_frames fs1 (fresh_view id)).
Proof.
  intros E. destruct (split_frames fs fs_ok w r E) as (fs1 & fs2 & q & Efs & -> & Hq & _).
  assert (Forall ok_frame fs1) as Hf1 by (rewrite Efs in fs_ok; by apply Forall_app in fs_ok as [? _]).
  set (id := default 0%nat (c_channel c)).
  pose proof (process_frames fs1 q (fresh_view id) Hf1 Hq eq_refl) as Hpr. exists id, fs1, fs2, q.
  eexists. split; [|split; [reflexivity|split; [exact Efs|split; [exact Hq|]]]].
  - rewrite show_view_logs. fold id. rewrite Hpr. reflexivity.
  - by repeat split.
Qed.

(** What is read after the head. *)
Lemma read_body_phase ret w r c : encode_frames fs = w ++ r -> c_tty c = tty -> c_hung c = false -> c_reader c = RHead ->
  (exists id fs1 fs2 q c', read_body ret w c = (c', Some (ret + zlen (encode_frames fs1))) /\ w = encode_frames fs1 ++ q /\
    fs = fs1 ++ fs2 /\ begun q /\ c_reader c' = RView /\ c_connected c' = true /\ c_tty c' = Some false /\ c_hung c' = false /\
    c_view c' = Some (write_frames fs1 (fresh_view id))) \/
  (read_body ret w c = (c, Some ret) /\ tty = None /\ (length w < 2)%nat).
Proof.
  intros E Ht Hh Hr. unfold read_body. rewrite Ht. destruct fs_logs as [Hl|(Hl & k & kind & d & fs' & Efs & Hk)]; rewrite Hl.
  - left. destruct (show_view_reads ret w r c E) as (id & fs1 & fs2 & q & c' & H). exists id, fs1, fs2, q, c'. by rewrite Hh in H.
  - destruct w as [|a [|b w]]; [right; cbn; split; [done|split; [done|lia]]..|].
    assert (a = k /\ b = 0) as [-> ->] by (rewrite Efs in E; by injection E as <- <- _). left.
    assert (detect_tty (k :: 0 :: w) = Some false) as -> by (destruct Hk as [-> |[-> | ->]]; done).
    destruct (show_view_reads ret (k :: 0 :: w) r c E) as (id & fs1 & fs2 & q & c' & H). exists id, fs1, fs2, q, c'. by rewrite Hh in H.
Qed.

(** Each block leads to the next phase. *)
Lemma phase_step c p d r : phase c p -> c_hung c = false -> head ++ blank_line ++ encode_frames fs = p ++ d ++ r ->
  phase (on_data d c) (p ++ d) /\ c_hung (on_data d c) = false.
Proof.
  intros Hp Hh E. destruct Hp as [p r0 Hr Hhd Ht Hw E0 Hr0|w Hr [h Hhd] Ht Htn Hw Hlw|id fs1 fs2 q Hr Hcon Ht _ Hv Efs Hw Hq].
  - destruct (decide (p ++ d = [])) as [Hpd|Hpd].
    { apply app_eq_nil in Hpd as [-> ->]. destruct (on_data_empty c [] Hw eq_refl ltac:(by rewrite Hr)) as (b & -> & Hb).
      split; [|done]. eapply ph_head; [exact Hr|exact Hhd|exact Ht|exact Hb|exact E0|exact Hr0]. }
    destruct (decide (length (p ++ d) < length (head ++ blank_line))%nat) as [Hlt|Hge].
    + assert (exists r1, r1 <> [] /\ head ++ blank_line = (p ++ d) ++ r1) as (r1 & Hr1 & E1).
      { rewrite !app_assoc in E. apply app_eq_inv in E as [(k & E1 & E2)|(k & E1 & E2)].
        - exists k. split; [|done]. intros ->. rewrite app_nil_r in E1. rewrite E1 in Hlt. lia.
        - exfalso. rewrite E1, !length_app in Hlt. lia. }
      destruct (on_data_read d c c p 0 Hw Hpd) as (b & -> & Hb); [|lia|by rewrite Hr|].
      { unfold read. rewrite Hr. unfold read_head. rewrite Hhd. change [13; 10; 13; 10] with blank_line. by rewrite (find_part head (p ++ d) r1). }
      split; [|done]. eapply ph_head; [exact Hr|exact Hhd|exact Ht|exact Hb|exact E1|exact Hr1].
    + assert (exists w, p ++ d = head ++ blank_line ++ w /\ encode_frames fs = w ++ r) as (w & E1 & E2).
      { rewrite !app_assoc in E. apply app_eq_inv in E as [(k & E1 & E2)|(k & E1 & E2)].
        - exists []. rewrite E1, !length_app in Hge. assert (k = []) as -> by (destruct k; [done|cbn in Hge; lia]).
          rewrite !app_nil_r in *. split; [by rewrite E1|]. cbn in *. by rewrite E2.
        - exists k. split; [by rewrite E1, <- app_assoc|done]. }
      set (c1 := c <| c_headers := Some (default "" (snd (decode false head (mk_decoder false None)))) |>).
      assert (read c (p ++ d) = read_body (Z.of_nat (length head + 4)) w c1) as Hread.
      { unfold read. rewrite Hr. unfold read_head. rewrite Hhd, E1. change [13; 10; 13; 10] with blank_line. rewrite find_head by done. rewrite take_app_length.
        rewrite bool_decide_eq_true_2 by exact head_accepted.
        replace (drop (length head + 4) (head ++ blank_line ++ w)) with w; [done|].
        rewrite app_assoc, drop_app_length'; [done|]. by rewrite length_app. }
      destruct (read_body_phase (Z.of_nat (length head + 4)) w r c1 E2 Ht Hh Hr)
        as [(id & fs1 & fs2 & q & c' & Hb & -> & Efs & Hq & Hr' & Hcon & Ht' & Hh' & Hv)|(Hb & Htn & Hlw)].
      * destruct (on_data_read d c c' p (length head + 4 + length (encode_frames fs1)) Hw Hpd) as (b & -> & Hwb).
        { rewrite Hread, Hb. f_equal. f_equal. unfold zlen. lia. }
        { rewrite E1, !length_app. cbn. lia. }
        { by rewrite Hr'. }
        rewrite E1. split; [|done]. eapply ph_view; [exact Hr'|exact Hcon|exact Ht'|exact Hh'|exact Hv|exact Efs| |exact Hq].
        rewrite E1 in Hwb. rewrite !app_assoc in Hwb. rewrite drop_app_length' in Hwb; [exact Hwb|]. rewrite !length_app. done.
      * destruct (on_data_read d c c1 p (length head + 4) Hw Hpd) as (b & -> & Hwb).
        { by rewrite Hread, Hb. }
        { rewrite E1, !length_app. cbn. lia. }
        { change (c_reader c1) with (c_reader c). by rewrite Hr. }
        rewrite E1. split; [|done]. eapply ph_tty; [exact Hr|by eexists|exact Ht|exact Htn| |exact Hlw].
        rewrite E1, app_assoc in Hwb. rewrite drop_app_length' in Hwb; [exact Hwb|]. by rewrite length_app.
  - rewrite <- !app_assoc in E. do 2 apply app_inv_head in E. rewrite app_assoc in E.
    destruct (decide (w ++ d = [])) as [Hwd|Hwd].
    { apply app_eq_nil in Hwd as [-> ->]. destruct (on_data_empty c [] Hw eq_refl ltac:(by rewrite Hr)) as (b & -> & Hb).
      rewrite app_nil_r. split; [|done]. eapply ph_tty; [exact Hr|by eexists|exact Ht|exact Htn|exact Hb|exact Hlw]. }
    rewrite <- !app_assoc. assert (read c (w ++ d) = read_body 0 (w ++ d) c) as Hread by (unfold read; rewrite Hr; unfold read_head; by rewrite Hhd).
    destruct (read_body_phase 0 (w ++ d) r c E Ht Hh Hr)
      as [(id & fs1 & fs2 & q & c' & Hb & E1 & Efs & Hq & Hr' & Hcon & Ht' & Hh' & Hv)|(Hb & _ & Hlwd)].
    + destruct (on_data_read d c c' w (length (encode_frames fs1)) Hw Hwd) as (b & -> & Hwb).
      { rewrite Hread, Hb. done. }
      { rewrite E1, length_app. lia. }
      { by rewrite Hr'. }
      rewrite E1. split; [|done]. eapply ph_view; [exact Hr'|exact Hcon|exact Ht'|exact Hh'|exact Hv|exact Efs| |exact Hq].
      by rewrite E1, drop_app_length in Hwb.
    + destruct (on_data_read d c c w 0 Hw Hwd) as (b & -> & Hwb); [by rewrite Hread, Hb|lia|by rewrite Hr|].
      split; [|done]. eapply ph_tty; [exact Hr|by eexists|exact Ht|exact Htn|exact Hwb|exact Hlwd].
  - rewrite <- !app_assoc in E. do 2 apply app_inv_head in E. rewrite Efs in E. unfold encode_frames in E. rewrite map_app, concat_app in E.
    apply app_inv_head in E. rewrite app_assoc in E. fold (encode_frames fs2) in E.
    assert (Forall ok_frame fs2) as Hf2 by (rewrite Efs in fs_ok; by apply Forall_app in fs_ok as [_ ?]).
    destruct (split_frames fs2 Hf2 (q ++ d) r E) as (fs3 & fs4 & q' & Efs2 & E1 & Hq' & _).
    assert (Forall ok_frame fs3) as Hf3 by (rewrite Efs2 in Hf2; by apply Forall_app in Hf2 as [? _]).
    destruct (decide (q ++ d = [])) as [Hqd|Hqd].
    { apply app_eq_nil in Hqd as [-> ->]. destruct (on_data_empty c [] Hw eq_refl ltac:(by rewrite Hr)) as (b & -> & Hb).
      rewrite !app_nil_r. split; [|done]. rewrite <- (app_nil_r (encode_frames fs1)).
      eapply ph_view; [exact Hr|exact Hcon|exact Ht|exact Hh|exact Hv|exact Efs|exact Hb|by left]. }
    set (v1 := write_frames fs3 (write_frames fs1 (fresh_view id))).
    destruct (on_data_read d c (c <| c_view := Some v1 |>) q (length (encode_frames fs3)) Hw Hqd) as (b & -> & Hwb).
    { unfold read. rewrite Hr, Hv, E1, process_frames by (done || by rewrite write_frames_term). done. }
    { rewrite E1, length_app. lia. }
    { cbn. by rewrite Hr. }
    replace ((head ++ blank_line ++ encode_frames fs1 ++ q) ++ d) with (head ++ blank_line ++ encode_frames (fs1 ++ fs3) ++ q').
    2: { rewrite <- !app_assoc. do 2 f_equal. unfold encode_frames. rewrite map_app, concat_app, <- app_assoc. f_equal. by rewrite E1. }
    split; [|done]. eapply ph_view; [exact Hr|exact Hcon|exact Ht|exact Hh| |by rewrite Efs, Efs2, app_assoc| |exact Hq'].
    + cbn. unfold v1, write_frames. by rewrite foldl_app.
    + by rewrite E1, drop_app_length in Hwb.
Qed.

Lemma phase_run chunks : forall c p r, phase c p -> c_hung c = false ->
  head ++ blank_line ++ encode_frames fs = p ++ concat chunks ++ r ->
  let c' := foldl (fun c d => on_data d c) c chunks in phase c' (p ++ concat chunks) /\ c_hung c' = false.
Proof.
  induction chunks as [|d chunks IH]; intros c p r Hp Hh E; cbn [foldl concat] in *; [by rewrite app_nil_r|].
  destruct (phase_step c p d (concat chunks ++ r) Hp Hh) as [Hp1 Hh1]; [by rewrite E, <- app_assoc|].
  rewrite app_assoc. eapply IH; [exact Hp1|exact Hh1|]. rewrite E. by rewrite <- !app_assoc.
Qed.

(** A whole frame is not only the beginning of one. *)
Lemma begun_whole f rest : ok_frame f -> ~ begun (encode_frame f ++ rest).
Proof.
  intros Hf Hb. pose proof (frame_size_at [] f rest Hf) as Hs. pose proof (begun_short [] _ Hb) as Hshort.
  cbn [app] in Hs, Hshort. change (zlen []) with 0 in Hs, Hshort. rewrite Hs in Hshort.
  assert (zlen (encode_frame f ++ rest) = 8 + zlen f.2 + zlen rest) as El.
  { unfold zlen, encode_frame. rewrite !length_app. destruct Hf as [-> _]. cbn [be32 length]. lia. }
  rewrite El in Hshort. unfold zlen in *. destruct Hshort as [?%Z.ltb_lt|[_ ?%Z.ltb_lt]]; lia.
Qed.

Lemma phase_end c : phase c (head ++ blank_line ++ encode_frames fs) ->
  exists id, c_view c = Some (write_frames fs (fresh_view id)) /\ c_connected c = true /\ c_tty c = Some false /\
    waits (c_buffer c) [].
Proof.
  intros Hp. remember (head ++ blank_line ++ encode_frames fs) as p0 eqn:Ep.
  destruct Hp as [p r Hr Hhd Ht Hw E0 Hr0|w Hr Hhd Ht Htn Hw Hlw|id fs1 fs2 q Hr Hcon Ht Hh Hv Efs Hw Hq].
  - exfalso. subst p. apply (f_equal length) in E0. rewrite !length_app in E0. destruct r; [done|cbn in E0; lia].
  - exfalso. do 2 apply app_inv_head in Ep. subst w. destruct fs_logs as [Hl|(_ & k & kind & d & fs' & Efs & _)]; [congruence|].
    rewrite Efs in Hlw. cbn [encode_frames map concat] in Hlw. unfold encode_frame in Hlw. cbn in Hlw. lia.
  - do 2 apply app_inv_head in Ep. rewrite Efs in Ep. unfold encode_frames in Ep. rewrite map_app, concat_app in Ep.
    apply app_inv_head in Ep. destruct fs2 as [|f fs2]; cbn in Ep.
    + subst q. exists id. by rewrite Efs, app_nil_r.
    + exfalso. rewrite Ep in Hq. eapply begun_whole; [|exact Hq]. rewrite Efs in fs_ok. apply Forall_app in fs_ok as [_ H].
      by inversion H.
Qed.

End Response.

(** C35. Logs show the whole text of a response, and the same text whatever the
    blocks it comes in: once a console has attached, for a response that has been
    accepted and frames of less than 2 GiB with text in UTF-8, however head,
    frames and characters are split over the messages of the channel, after the
    last of them the console is connected, its logs hold the text of all frames
    and nothing is left to read. *)
Theorem console_logs request head fs chunks c0 :
  c_hung c0 = false -> head_ends head -> accepted head -> Forall ok_frame fs -> logs_follow fs (c_tty c0) ->
  utf8_valid (concat (map snd fs)) -> concat chunks = head ++ blank_line ++ encode_frames fs ->
  let c := foldl (fun c d => on_data d c) (attach request c0) chunks in
  c_connected c = true /\ c_tty c = Some false /\ c_hung c = false /\ concat (b_blocks (c_buffer c)) = [] /\
  exists v, c_view c = Some v /\ v_term v = false /\ shown_text v = of_bytes (concat (map snd fs)).
Proof.
  intros Hh Hhead Hacc Hfs Hlogs Hu Hc c. assert (blank_line <> []) as Hbl by done.
  assert (phase head fs (c_tty c0) (attach request c0) []) as Hp.
  { eapply (ph_head _ _ _ _ [] (head ++ blank_line)); [done..|by destruct head]. }
  destruct (phase_run head fs (c_tty c0) Hhead Hacc Hfs Hlogs chunks (attach request c0) [] [] Hp Hh) as [Hp' Hh'].
  { by rewrite app_nil_r, Hc. }
  cbn [app] in Hp'. rewrite Hc in Hp'. destruct (phase_end head fs (c_tty c0) Hfs Hlogs _ Hp') as (id & Hv & Hcon & Ht & Hw).
  split; [exact Hcon|]. split; [exact Ht|]. split; [exact Hh'|]. split; [exact (wa_held _ _ Hw)|].
  eexists. split; [exact Hv|]. split; [apply write_frames_term|].
  rewrite (write_frames_text fs [] (fresh_view id) (or_introl eq_refl) eq_refl Hu). reflexivity.
Qed.

(** The logs of a container that writes a line to each of its outputs, with a
    character that is split over two frames and two messages. *)
Definition sample_head : list Z := utf8_encode ("HTTP/1.1 200 OK" +:+ crlf +:+ "Content-Type: text/plain").
Definition sample_frames : list frame := [([1; 0; 0; 0], [104; 105; 32; 226; 130]); ([2; 0; 0; 0], [172; 10])].
Definition sample_chunks : list (list Z) :=
  [take 20 sample_head; drop 20 sample_head ++ [13; 10]; [13; 10; 1]; drop 1 (take 9 (encode_frames sample_frames)); [];
   drop 9 (encode_frames sample_frames)].

Lemma console_logs_witness :
  let c := foldl (fun c d => on_data d c) (attach (logs_request "c1") (new_console None)) sample_chunks in
  c_connected c = true /\ c_tty c = Some false /\ c_hung c = false /\ concat (b_blocks (c_buffer c)) = [] /\
  exists v, c_view c = Some v /\ v_term v = false /\ shown_text v = of_bytes [104; 105; 32; 226; 130; 172; 10].
Proof.
  apply (console_logs (logs_request "c1") sample_head sample_frames sample_chunks (new_console None)).
  - reflexivity.
  - vm_compute. reflexivity.
  - vm_compute. reflexivity.
  - repeat constructor.
  - right. split; [reflexivity|]. exists 1, [0; 0], [104; 105; 32; 226; 130], [([2; 0; 0; 0], [172; 10])]. auto.
  - do 3 (apply (utf8_seq [_]); [reflexivity|]). apply (utf8_seq [226; 130; 172]); [reflexivity|].
    apply (utf8_seq [10]); [reflexivity|constructor].
  - vm_compute. reflexivity.
Defined.

(** ** What the code does not do *)

(** A frame whose size has its highest bit set: the size is negative, and the loop
    goes back over it for ever. *)
Example large_frame_hangs fuel v : logs_loop fuel [1; 0; 0; 0; 255; 255; 255; 248] 0 v = None.
Proof. revert v. induction fuel as [|fuel IH]; intros v; [done|]. apply IH. Qed.

(** A terminal decodes each block by itself: a character that is split over two of
    them becomes characters of replacement, which in logs is whole. *)
Definition typed_view : view := mk_view true (mk_decoder false None) [] true false (Some 0%nat).

Example terminal_splits_characters :
  (shown_text ∘ fst) <$> (process [226; 130; 172] typed_view) = Some (of_bytes [226; 130; 172]) /\
  (shown_text ∘ fst) <$> ('(v, _) ← process [226; 130] typed_view; process [172] v) <> Some (of_bytes [226; 130; 172]).
Proof. split; [vm_compute; reflexivity|]. vm_compute. discriminate. Qed.

(** A console that is closed while its command is being prepared attaches all the
    same: the request that [close] would cancel is kept in a variable of [prepare]. *)
Definition closed_early : console :=
  close "cancelled" (prepare "c1" (Some ["sh"]) (make_console (Some ["sh"]) None)).

Example attaches_after_close :
  c_effects closed_early = [CExec (exec_path "c1") (exec_body true ["sh"])] /\
  c_channel (prepared (inl "e1") closed_early) = Some 0%nat.
Proof. split; reflexivity. Qed.

(** The focus of a console that has not shown anything throws. *)
Example focus_throws : focusin (attach "GET" (new_console None)) = None.
Proof. reflexivity. Qed.
