(* ===== verification/DockerClient.v ===== *)
(** * The client of Docker (src/pkg/docker/client.js)

    The tables of containers and images, the requests that fill them, the counts
    of actions, the samples of usage, and the jobs that pull images, which run
    the pulls of [Docker].

    A request is a number with what it is for; its answer is an input that may
    come at any time, in any order.  The channels of the client and its timers
    are inputs too.  [JSON.parse] is a parameter; what docker sends is taken to be
    objects, and lists of them. *)

From stdpp Require Import sorting.
From S2P Require Import Prelude Uri Docker.

(** ** Data *)

Inductive action := AStart | AStop | ARestart | ACommit | ARm | ARmi.

(** What a request is for. *)
Inductive request :=
  | RqEvents
  | RqContainers
  | RqContainer (id : string)
  | RqImages
  | RqImage (id : string)
  | RqInfo
  | RqAction (a : action) (id : string)
  | RqPlain.                                (* [create] and [search] *)

(** The properties of a container that the samples set; the load is a number of
    tenths, [None] for NaN. *)
Record usage := mk_usage {
  us_memory : jval; us_limit : jval; us_cpu : option (option Z); us_priority : jval }.

Definition no_usage : usage := mk_usage JUndef JUndef None JUndef.

Record container := mk_container { ct_info : jobj; ct_cgroup : option string; ct_usage : usage }.

#[export] Instance container_settable : Settable container := fun c =>
  mk_container (ct_info c) (ct_cgroup c) (ct_usage c).

(** An image that is being pulled. *)
Record job := mk_job { jb_name : jval; jb_status : jval; jb_progress : jval; jb_pull : pull }.

#[export] Instance job_settable : Settable job := fun j =>
  mk_job (jb_name j) (jb_status j) (jb_progress j) (jb_pull j).

(** A value for a file of a control group. *)
Record step := mk_step { sp_directory : string; sp_cgroup : string; sp_filename : string; sp_value : Z }.

Inductive effect :=
  | EHttp (n : nat) (method path : string) (params : list (string * jval)) (body : option jval)
  | EHttpOpen
  | EHttpClose
  | EContainer (id : string) (c : option container)
  | EImage (id : string) (i : option jobj)
  | EInfo
  | EPulling
  | EFailure (ex : jval)
  | EResolve (promise : nat)
  | EReject (promise : nat) (ex : jval)
  | EMetrics (grid : nat)
  | EMetricsClose (grid : nat)
  | EWatch (n : nat) (path : jval)
  | EWatchClose (n : nat)
  | ESpawn (n : nat) (command : string).

(** The deferred of a connection. *)
Inductive promise_state := Pending | Resolved | Rejected.

(** The rows of the grid for a container: memory, load, limit, priority. *)
Record samples := mk_samples { sm_grid : nat; sm_memory : nat; sm_cpu : nat; sm_limit : nat; sm_priority : nat }.

Record dclient := mk_dclient {
  d_containers : list (string * container);
  d_images : list (string * jobj);
  d_waiting : gmap string (option Z);       (* NaN is [None] *)
  d_pulling : list nat;
  d_jobs : list job;                        (* all there have been *)
  d_meta : gmap string jobj;                (* of containers *)
  d_by_name : gmap string string;
  d_images_meta : gmap string jobj;
  d_info : jval;
  d_connected : option (nat * promise_state);
  d_got_failure : bool;
  d_alive : bool;
  d_later : bool;                           (* the timer of events *)
  d_retries : nat;                          (* the timers of [connect_events] *)
  d_got_info : nat;                         (* handlers of the first information *)
  d_watch : option nat;
  d_watches : list nat;                     (* those that are open *)
  d_grid : option nat;                      (* none when closed *)
  d_instances : list (list string);         (* of the metrics of the channel *)
  d_samples : list (string * samples);
  d_requests : gmap nat request;            (* without an answer *)
  d_spawned : gmap nat (list step);         (* what to do after a program *)
  d_next : nat;                             (* all numbers so far are below *)
  d_effects : list effect }.

#[export] Instance dclient_settable : Settable dclient := fun d =>
  mk_dclient (d_containers d) (d_images d) (d_waiting d) (d_pulling d) (d_jobs d) (d_meta d) (d_by_name d)
    (d_images_meta d) (d_info d) (d_connected d) (d_got_failure d) (d_alive d) (d_later d) (d_retries d)
    (d_got_info d) (d_watch d) (d_watches d) (d_grid d) (d_instances d) (d_samples d) (d_requests d) (d_spawned d)
    (d_next d) (d_effects d).

Definition emit (e : effect) (d : dclient) : dclient := d <| d_effects ::= (fun l => l ++ [e]) |>.

(** A new number. *)
Definition fresh (d : dclient) : nat * dclient := (d_next d, d <| d_next ::= S |>).

(** [http.request], [http.get] *)
Definition http_request (what : request) (method path : string) (params : list (string * jval)) (body : option jval)
    (d : dclient) : dclient :=
  let '(n, d) := fresh d in
  emit (EHttp n method path params body) (d <| d_requests ::= <[n := what]> |>).

Definition http_get (what : request) (path : string) (params : list (string * jval)) : dclient -> dclient :=
  http_request what "GET" path params None.

(** ** Events *)

Definition trigger_event (d : dclient) : dclient := d <| d_later := true |>.

Definition connect_events (d : dclient) : dclient :=
  match d_connected d with
  | None => d
  | Some _ => http_get RqEvents "/v1.12/events" [] d
  end.

(** The timer, a second after the stream of events has ended. *)
Definition retry (d : dclient) : dclient :=
  match d_retries d with
  | O => d
  | S n =>
      let d := d <| d_retries := n |> in
      if d_alive d then connect_events d <| d_alive := false |> else d
  end.

Definition ignoreException (ex : jval) : bool :=
  strict_eq (jget ex "status") (JNum 500) &&
  match jget ex "message" with JStr m => String.prefix "layer does not exist" m | _ => false end.

Definition fetch_failed (ex : jval) (d : dclient) : dclient :=
  match d_connected d with
  | Some _ => if ignoreException ex then d else emit (EFailure ex) (d <| d_got_failure := true |>)
  | None => d
  end.

(** ** Containers *)

Definition container_to_name (info : jobj) : option string :=
  match prop info "Name" with
  | JStr (String c rest) => Some (if Ascii.eqb c "/" then rest else String c rest)
  | v => if truthy v then Some (js_String v) else None
  end.

Definition default_prop (k : string) (v : jval) (o : jobj) : jobj :=
  match prop o k with JUndef => <[k := v]> o | _ => o end.

(** The description of a container with what the list said of it, and what the
    list said, with the identifier of the image. *)
Definition describe (meta : option jobj) (info : jobj) : option jobj * jobj :=
  let info := default_prop "Config" (JObj []) (default_prop "State" (JObj []) info) in
  match meta with
  | None => (None, info)
  | Some meta =>
      let meta := if truthy (prop meta "ImageID") then meta else <["ImageID" := prop info "Image"]> meta in
      let info := if truthy (prop meta "Image") then <["Image" := prop meta "Image"]> info else info in
      (Some meta, extend meta info)
  end.

Definition populate_container (id : string) (info : jobj) (d : dclient) : jobj * dclient :=
  let '(meta, info) := describe (d_meta d !! id) info in
  let d := match meta with Some meta => d <| d_meta ::= <[id := meta]> |> | None => d end in
  match container_to_name info with
  | Some name => (info, if String.eqb name "" then d else d <| d_by_name ::= <[name := id]> |>)
  | None => (info, d)
  end.

Definition remove_container (id : string) (d : dclient) : dclient :=
  match assoc_get id (d_containers d) with
  | None => d
  | Some c =>
      let d := match container_to_name (ct_info c) with
               | Some name =>
                   if negb (String.eqb name "") && bool_decide (d_by_name d !! name = Some id)
                   then d <| d_by_name ::= delete name |> else d
               | None => d
               end in
      emit (EContainer id None) (d <| d_containers ::= assoc_del id |>)
  end.

(** ** Usage *)

Definition cgroup_prefixes : list string :=
  ["init.scope/system.slice/docker-"; "system.slice/docker/"; "system.slice/docker-"; "docker/"].

(** The container of a group, if it has none yet. *)
Definition add_cgroup (grid : nat) (prefix cgroup : string) (d : dclient) : dclient :=
  if String.prefix prefix cgroup then
    let id := String.substring (String.length prefix) 64 cgroup in
    match assoc_get id (d_containers d), assoc_get id (d_samples d) with
    | Some c, None =>
        let n := d_next d in
        d <| d_containers ::= assoc_set id (c <| ct_cgroup := Some cgroup |>) |>
          <| d_samples ::= assoc_set id (mk_samples grid n (n + 1) (n + 2) (n + 3)) |>
          <| d_next := (n + 4)%nat |>
    | _, _ => d
    end
  else d.

Definition add_prefix (grid : nat) (instances : list string) (d : dclient) (prefix : string) : dclient :=
  foldl (fun d cgroup => add_cgroup grid prefix cgroup d) d instances.

(** [None] throws: the channel has been closed. *)
Definition update_usage_grid (d : dclient) : option dclient :=
  grid ← d_grid d;
  Some (foldl (fun d instances => foldl (add_prefix grid instances) d cgroup_prefixes) d (d_instances d)).

(** 1.115e18 *)
Definition unlimited : Z := 1115 * 10 ^ 15.

Definition cpu_of (v : jval) : option Z := match v with JNum n => Some n | _ => None end.

(** What the rows show now, as properties. *)
Definition sampled (value : nat -> jval) (s : samples) : usage :=
  let limit := match value (sm_limit s) with
               | JNum n => if unlimited <? n then JUndef else JNum n
               | v => v
               end in
  mk_usage (value (sm_memory s)) limit (Some (cpu_of (value (sm_cpu s)))) (value (sm_priority s)).

(** [!=] of all four: NaN is not even the same as itself. *)
Definition cpu_same (a b : option (option Z)) : bool :=
  match a, b with
  | Some (Some x), Some (Some y) => x =? y
  | _, _ => false
  end.

Definition usage_same (a b : usage) : bool :=
  loose_eq (us_memory a) (us_memory b) && loose_eq (us_limit a) (us_limit b) &&
  cpu_same (us_cpu a) (us_cpu b) && loose_eq (us_priority a) (us_priority b).

Definition sample_container (value : nat -> jval) (d : dclient) (entry : string * samples) : dclient :=
  match assoc_get (fst entry) (d_containers d) with
  | None => d
  | Some c =>
      let u := sampled value (snd entry) in
      if usage_same u (ct_usage c) then d
      else
        let c := c <| ct_usage := u |> in
        emit (EContainer (fst entry) (Some c)) (d <| d_containers ::= assoc_set (fst entry) c |>)
  end.

Definition handle_usage_samples (value : nat -> jval) (d : dclient) : dclient :=
  foldl (sample_container value) d (d_samples d).

(** ** The lists *)

Definition fields_of (v : jval) : jobj := match v with JObj fields => list_to_map fields | _ => ∅ end.

(** The items of a list that have an identifier. *)
Definition items_of (v : jval) : list (string * jobj) :=
  let elements := match v with JArr l => l | JObj _ => [v] | _ => [] end in
  omap (fun item => let id := jget item "Id" in
                    if truthy id then Some (js_String id, fields_of item) else None) elements.

Definition ask_container (d : dclient) (item : string * jobj) : dclient :=
  http_get (RqContainer (fst item)) ("/v1.12/containers/" +:+ encodeURIComponent (fst item) +:+ "/json") []
    (d <| d_meta ::= <[fst item := snd item]> |>).

(** The entries that the list does not have. *)
Definition unseen {A} (items : list (string * jobj)) (table : list (string * A)) : list string :=
  filter (fun id => ~ id ∈ items.*1) table.*1.

Definition fetch_containers : dclient -> dclient := http_get RqContainers "/v1.12/containers/json" [("all", JNum 1)].

Definition containers_done (items : list (string * jobj)) (d : dclient) : dclient :=
  let d := foldl ask_container (d <| d_alive := true |>) items in
  foldl (fun d id => remove_container id d) d (unseen items (d_containers d)).

(** A container is described; without the channel of usage this throws before the
    event. *)
Definition container_done (id : string) (info : jobj) (d : dclient) : dclient :=
  let '(info, d) := populate_container id info d in
  let cgroup := match assoc_get id (d_containers d) with Some old => ct_cgroup old | None => None end in
  let d := d <| d_containers ::= assoc_set id (mk_container info cgroup no_usage) |> in
  match update_usage_grid d with
  | None => d
  | Some d => emit (EContainer id (assoc_get id (d_containers d))) d
  end.

(** The tags in their order as text. *)
Definition sort_tags (v : jval) : jval :=
  match v with
  | JArr l => JArr (merge_sort (fun a b => Is_true (String.leb (js_String a) (js_String b))) l)
  | v => v
  end.

(** An image with what the list said of it; the sorted array is the one of the list
    if that has one, or else the one of the image, which goes by two names. *)
Definition describe_image (meta : option jobj) (image : jobj) : option jobj * jobj :=
  let image :=
    match prop image "Config" with
    | JUndef => <["Config" := if truthy (prop image "ContainerConfig") then prop image "ContainerConfig" else JObj []]> image
    | _ => image
    end in
  let image := <["ActualRepoDigests" := prop image "RepoDigests"]> (<["ActualRepoTags" := prop image "RepoTags"]> image) in
  let of_list := match meta with Some m => prop m "RepoTags" | None => JUndef end in
  let image := extend image (default ∅ meta) in
  if truthy (prop image "RepoTags") then
    let tags := sort_tags (prop image "RepoTags") in
    let image := <["RepoTags" := tags]> image in
    match of_list with
    | JUndef => (meta, <["ActualRepoTags" := tags]> image)
    | _ => (<["RepoTags" := tags]> <$> meta, image)
    end
  else (meta, image).

Definition remove_image (id : string) (d : dclient) : dclient :=
  match assoc_get id (d_images d) with
  | None => d
  | Some _ => emit (EImage id None) (d <| d_images ::= assoc_del id |>)
  end.

Definition ask_image (d : dclient) (item : string * jobj) : dclient :=
  http_get (RqImage (fst item)) ("/v1.12/images/" +:+ encodeURIComponent (fst item) +:+ "/json") []
    (d <| d_images_meta ::= <[fst item := snd item]> |>).

Definition fetch_images : dclient -> dclient := http_get RqImages "/v1.12/images/json" [].

Definition images_done (items : list (string * jobj)) (d : dclient) : dclient :=
  let d := foldl ask_image (d <| d_alive := true |>) items in
  foldl (fun d id => remove_image id d) d (unseen items (d_images d)).

Definition image_done (id : string) (image : jobj) (d : dclient) : dclient :=
  let '(meta, image) := describe_image (d_images_meta d !! id) image in
  let d := match meta with Some meta => d <| d_images_meta ::= <[id := meta]> |> | None => d end in
  emit (EImage id (Some image)) (d <| d_images ::= assoc_set id image |>).

(** ** Connecting *)

Definition fetch_info : dclient -> dclient := http_get RqInfo "/v1.12/info" [].

Definition settle_connected (s : promise_state) (e : nat -> effect) (d : dclient) : dclient :=
  match d_connected d with
  | Some (n, Pending) => emit (e n) (d <| d_connected := Some (n, s) |>)
  | _ => d
  end.

(** One handler of the first information: the directory of docker is watched. *)
Definition got_info (d : dclient) : dclient :=
  let '(n, d) := fresh d in
  emit (EWatch n (jget (d_info d) "DockerRootDir")) (d <| d_watch := Some n |> <| d_watches ::= cons n |>).

Definition info_done (info : jval) (d : dclient) : dclient :=
  let d := emit EInfo (d <| d_info := info |>) in
  let d := Nat.iter (d_got_info d) got_info (d <| d_got_info := 0%nat |>) in
  settle_connected Resolved EResolve d.

Definition info_failed (ex : jval) : dclient -> dclient := settle_connected Rejected (fun n => EReject n ex).

(** The handler of the event. *)
Definition on_event (d : dclient) : dclient :=
  match d_connected d with
  | Some _ => fetch_info (fetch_images (fetch_containers d))
  | None => d
  end.

(** The timer of [trigger_event]. *)
Definition on_later (d : dclient) : dclient :=
  if d_later d then on_event (d <| d_later := false |>) else d.

Definition unwatch (d : dclient) : dclient :=
  match d_watch d with
  | Some w =>
      if bool_decide (w ∈ d_watches d) then emit (EWatchClose w) (d <| d_watches ::= filter (fun w' => w' <> w) |>) else d
  | None => d
  end.

Definition perform_connect (d : dclient) : dclient :=
  let '(n, d) := fresh (d <| d_got_failure := false |>) in
  let d := connect_events (emit EHttpOpen (d <| d_connected := Some (n, Pending) |>)) in
  let d := on_event (unwatch d <| d_got_info ::= S |>) in
  let '(g, d) := fresh d in
  emit (EMetrics g) (d <| d_grid := Some g |> <| d_instances := [] |>).

Definition close (d : dclient) : dclient :=
  let d := match d_grid d with Some g => emit (EMetricsClose g) (d <| d_grid := None |>) | None => d end in
  emit EHttpClose d <| d_connected := None |>.

(** With the promise that is returned. *)
Definition connect (d : dclient) : dclient * option nat :=
  let d := match d_connected d with None => perform_connect d | Some _ => d end in
  (d, fst <$> d_connected d).

(** No promise: it throws. *)
Definition maybe_reconnect (d : dclient) : dclient * option nat :=
  let d := if d_got_failure d then perform_connect (close d) else d in
  (d, fst <$> d_connected d).

Definition new_dclient : dclient :=
  perform_connect (mk_dclient [] [] ∅ [] [] ∅ ∅ ∅ (JObj []) None false true false 0 0 None [] None [] [] ∅ ∅ 0 []).

(** ** Actions *)

Definition trigger_id (id : string) (d : dclient) : dclient :=
  match assoc_get id (d_containers d) with
  | Some c => emit (EContainer id (Some c)) d
  | None => match assoc_get id (d_images d) with
            | Some i => emit (EImage id (Some i)) d
            | None => d
            end
  end.

Definition waiting (id : string) (d : dclient) : dclient :=
  match d_waiting d !! id with
  | Some n => d <| d_waiting ::= <[id := (fun n => n + 1) <$> n]> |>
  | None => trigger_id id (d <| d_waiting ::= <[id := Some 1]> |>)
  end.

Definition not_waiting (id : string) (d : dclient) : dclient :=
  let n := n ← default None (d_waiting d !! id); Some (n - 1) in
  if bool_decide (n = Some 0) then trigger_id id (d <| d_waiting ::= delete id |>)
  else d <| d_waiting ::= <[id := n]> |>.

Definition container_path (id : string) : string := "/v1.12/containers/" +:+ encodeURIComponent id.

Definition start (id : string) (options : jval) (d : dclient) : dclient :=
  http_request (RqAction AStart id) "POST" (container_path id +:+ "/start") []
    (Some (if truthy options then options else JObj [])) (waiting id d).

Definition with_timeout (timeout : jval) : list (string * jval) :=
  [("t", match timeout with JUndef => JNum 10 | t => t end)].

Definition stop (id : string) (timeout : jval) (d : dclient) : dclient :=
  http_request (RqAction AStop id) "POST" (container_path id +:+ "/stop") (with_timeout timeout) None (waiting id d).

Definition restart (id : string) (timeout : jval) (d : dclient) : dclient :=
  http_request (RqAction ARestart id) "POST" (container_path id +:+ "/restart") (with_timeout timeout) None (waiting id d).

Definition create (name : string) (options : jval) : dclient -> dclient :=
  http_request RqPlain "POST" "/v1.12/containers/create" [("name", JStr name)]
    (Some (if truthy options then options else JObj [])).

Definition search (term : string) : dclient -> dclient :=
  http_get RqPlain "/v1.12/images/search" [("term", JStr term)].

Definition commit (id repotag : string) (options : list (string * jval)) (run_config : jval) (d : dclient) : dclient :=
  http_request (RqAction ACommit id) "POST" "/v1.12/commit"
    (foldl (fun l kv => match snd kv with JUndef => l | v => assoc_set (fst kv) v l end)
       [("container", JStr id); ("repo", JStr repotag)] options)
    (Some (if truthy run_config then run_config else JObj [])) (waiting id d).

Definition rm (id : string) (forced : jval) (d : dclient) : dclient :=
  http_request (RqAction ARm id) "DELETE" (container_path id)
    [("force", match forced with JUndef => JBool false | f => f end)] None (waiting id d).

Definition rmi (id : string) (d : dclient) : dclient :=
  http_request (RqAction ARmi id) "DELETE" ("/v1.12/images/" +:+ encodeURIComponent id) [] None (waiting id d).

(** An action has succeeded or failed. *)
Definition action_done (a : action) (id : string) (ok : bool) (d : dclient) : dclient :=
  let d := if ok then match a with ARm => remove_container id d | ARmi => remove_image id d | _ => d end else d in
  not_waiting id d.

Section Json.
Context (JSON_parse : string -> option jval).

(** *** Pulling *)

Definition pull (repo : jval) (d : dclient) : dclient :=
  d <| d_jobs ::= (fun l => l ++ [mk_job repo JUndef JUndef new_pull]) |> <| d_pulling ::= (fun l => l ++ [length (d_jobs d)]) |>.

Definition set_job (n : nat) (j : job) (d : dclient) : dclient := d <| d_jobs ::= <[n := j]> |>.

(** The progress of a pull. *)
Definition job_progress (progress : jval) (j : job) : job :=
  let detail := jget progress "progressDetail" in
  let has k := match detail with JObj fields => bool_decide (is_Some (assoc_get k fields)) | _ => false end in
  j <| jb_status := jget progress "status" |>
    <| jb_progress := if truthy detail && has "current" && has "total" then detail else JUndef |>.

(** A block of data of the pull; when it throws only the buffer has changed. *)
Definition pull_data (n : nat) (data : string) (d : dclient) : dclient :=
  match d_jobs d !! n with
  | None => d
  | Some j =>
      match pull_stream JSON_parse data (jb_pull j) with
      | None => set_job n (j <| jb_pull ::= (fun p => p <| pl_buffer ::= (fun b => b +:+ data) |>) |>) d
      | Some p =>
          let news := drop (length (pl_notified (jb_pull j))) (pl_notified p) in
          let d := set_job n (foldl (fun j np => job_progress (snd np) j) (j <| jb_pull := p |>) news) d in
          foldl (fun d _ => emit EPulling d) d news
      end
  end.

(** The pull has ended, with a failure of the request or not. *)
Definition pull_ended (n : nat) (failed : option jval) (d : dclient) : dclient :=
  match d_jobs d !! n with
  | None => d
  | Some j =>
      let p := match failed with Some ex => pull_fail ex (jb_pull j) | None => pull_done (jb_pull j) end in
      let j := j <| jb_pull := p |> in
      match pl_result p with
      | Some None => emit EPulling (set_job n j d <| d_pulling ::= filter (fun m => m <> n) |>)
      | Some (Some error) =>
          (* the request fails with an error, the pull with the text of one *)
          let message := match failed with Some ex => jget ex "message" | None => JStr (js_String error) end in
          emit EPulling (set_job n (j <| jb_status := JStr ("Error getting image: " +:+ js_String message) |>
                                      <| jb_progress := JUndef |>) d)
      | None => d
      end
  end.

(** *** Limits *)

Definition step_command (s : step) : string :=
  let path := "/sys/fs/cgroup/" +:+ sp_directory s +:+ "/" +:+ sp_cgroup s +:+ "/" +:+ sp_filename s in
  "if test -f " +:+ path +:+ "; then echo '" +:+ pretty (sp_value s) +:+ "' > " +:+ path +:+ "; fi".

(** [change_cgroup], then the steps that are chained to it. *)
Definition change_cgroup (steps : list step) (d : dclient) : dclient :=
  match steps with
  | [] => d
  | s :: rest => let '(n, d) := fresh d in emit (ESpawn n (step_command s)) (d <| d_spawned ::= <[n := rest]> |>)
  end.

(** A program has ended. *)
Definition spawned (n : nat) (ok : bool) (d : dclient) : dclient :=
  match d_spawned d !! n with
  | None => d
  | Some rest =>
      let d := d <| d_spawned ::= delete n |> in
      if ok then change_cgroup rest d else d
  end.

(** The order of the two files matters.  [None] throws. *)
Definition memory_steps (cgroup : string) (value : option Z) : list step :=
  match value with
  | Some v =>
      if v <=? 0 then [mk_step "memory" cgroup "memory.memsw.limit_in_bytes" (-1); mk_step "memory" cgroup "memory.limit_in_bytes" (-1)]
      else [mk_step "memory" cgroup "memory.limit_in_bytes" v; mk_step "memory" cgroup "memory.memsw.limit_in_bytes" (v * 2)]
  | None => [mk_step "memory" cgroup "memory.memsw.limit_in_bytes" (-1); mk_step "memory" cgroup "memory.limit_in_bytes" (-1)]
  end.

Definition change_memory_limit (id : string) (value : option Z) (d : dclient) : option dclient :=
  c ← assoc_get id (d_containers d);
  Some (change_cgroup (memory_steps (default "undefined" (ct_cgroup c)) value) d).

Definition change_cpu_priority (id : string) (value : option Z) (d : dclient) : option dclient :=
  c ← assoc_get id (d_containers d);
  let value := match value with Some v => if v <=? 0 then 1024 else v | None => 1024 end in
  Some (change_cgroup [mk_step "cpuacct" (default "undefined" (ct_cgroup c)) "cpu.shares" value] d).

(** ** Answers and inputs *)

(** An answer has come; without JSON in it the handler throws at once. *)
Definition answered (what : request) (data : string) (d : dclient) : dclient :=
  match what with
  | RqEvents => d <| d_retries ::= S |>
  | RqContainers => match JSON_parse data with Some v => containers_done (items_of v) d | None => d end
  | RqContainer id =>
      match JSON_parse data with Some (JObj fields) => container_done id (fields_of (JObj fields)) d | _ => d end
  | RqImages => match JSON_parse data with Some v => images_done (items_of v) d | None => d end
  | RqImage id =>
      match JSON_parse data with Some (JObj fields) => image_done id (fields_of (JObj fields)) d | _ => d end
  | RqInfo =>
      if String.eqb data "" then info_done (JStr "") d
      else match JSON_parse data with Some v => info_done v d | None => d end
  | RqAction a id => action_done a id true d
  | RqPlain => d
  end.

Definition failed (what : request) (ex : jval) (d : dclient) : dclient :=
  match what with
  | RqEvents => d <| d_retries ::= S |>
  | RqContainers | RqImages => fetch_failed ex d
  | RqInfo => info_failed ex d
  | RqAction a id => action_done a id false d
  | RqContainer _ | RqImage _ | RqPlain => d
  end.

Inductive input :=
  | IAnswer (n : nat) (answer : string + jval)
  | IStream                                 (* a block of the stream of events *)
  | IWatchMessage
  | IWatchClosed (n : nat)
  | ILater
  | IRetry
  | IChanged (instances : list (list string))
  | INotify (value : nat -> jval)
  | IConnect
  | IMaybeReconnect
  | IClose
  | IStart (id : string) (options : jval)
  | IStop (id : string) (timeout : jval)
  | IRestart (id : string) (timeout : jval)
  | ICreate (name : string) (options : jval)
  | ISearch (term : string)
  | ICommit (id repotag : string) (options : list (string * jval)) (run_config : jval)
  | IRm (id : string) (forced : jval)
  | IRmi (id : string)
  | IPull (repo : jval)
  | IPullData (n : nat) (data : string)
  | IPullEnded (n : nat) (failed : option jval)
  | IMemoryLimit (id : string) (value : option Z)
  | ICpuPriority (id : string) (value : option Z)
  | ISpawned (n : nat) (ok : bool).

Definition step_input (i : input) (d : dclient) : dclient :=
  match i with
  | IAnswer n answer =>
      match d_requests d !! n with
      | None => d
      | Some what =>
          let d := d <| d_requests ::= delete n |> in
          match answer with inl data => answered what data d | inr ex => failed what ex d end
      end
  | IStream | IWatchMessage => trigger_event d
  | IWatchClosed n => d <| d_watches ::= filter (fun w => w <> n) |>
  | ILater => on_later d
  | IRetry => retry d
  | IChanged instances =>
      match d_grid d with
      | None => d
      | Some _ => let d := d <| d_instances := instances |> in default d (update_usage_grid d)
      end
  | INotify value => match d_grid d with Some _ => handle_usage_samples value d | None => d end
  | IConnect => fst (connect d)
  | IMaybeReconnect => fst (maybe_reconnect d)
  | IClose => close d
  | IStart id options => start id options d
  | IStop id timeout => stop id timeout d
  | IRestart id timeout => restart id timeout d
  | ICreate name options => create name options d
  | ISearch term => search term d
  | ICommit id repotag options run_config => commit id repotag options run_config d
  | IRm id forced => rm id forced d
  | IRmi id => rmi id d
  | IPull repo => pull repo d
  | IPullData n data => pull_data n data d
  | IPullEnded n failed => pull_ended n failed d
  | IMemoryLimit id value => default d (change_memory_limit id value d)
  | ICpuPriority id value => default d (change_cpu_priority id value d)
  | ISpawned n ok => spawned n ok d
  end.

Definition run (l : list input) (d : dclient) : dclient := foldl (fun d i => step_input i d) d l.

End Json.
