(* ===== verification/DockerClientSpec.v ===== *)
(** * The client of Docker keeps its promises

    An entry is waiting as long as there are actions for it without an answer.
    The table of containers is the one of the last list, once all containers of it
    have been described, whatever happens in between and in any order. *)

From S2P Require Import Prelude Uri Docker DockerClient.

(** ** What most operations do not do *)

Definition is_action (w : request) : Prop := match w with RqAction _ _ => True | _ => False end.
Definition is_describe (w : request) : Prop := match w with RqContainer _ => True | _ => False end.

(** New requests are of some kind, with new numbers; the others stay. *)
Record moves (P : request -> Prop) (d d' : dclient) : Prop := {
  mv_next : (d_next d <= d_next d')%nat;
  mv_old : forall n w, d_requests d !! n = Some w -> d_requests d' !! n = Some w;
  mv_new : forall n w, d_requests d' !! n = Some w ->
    d_requests d !! n = Some w \/ ((d_next d <= n < d_next d')%nat /\ P w);
  mv_waiting : d_waiting d' = d_waiting d }.

(** No container is described or removed, and nothing more is known of them. *)
Record frame (d d' : dclient) : Prop := {
  fr_moves : moves (fun w => ~ is_action w /\ ~ is_describe w) d d';
  fr_meta : d_meta d' = d_meta d;
  fr_info : forall id, ct_info <$> assoc_get id (d_containers d') = ct_info <$> assoc_get id (d_containers d) }.

Definition informed (d : dclient) : Prop := forall n, is_Some (d_requests d !! n) -> (n < d_next d)%nat.

#[export] Instance moves_preorder P : PreOrder (moves P).
Proof.
  split; [intros d; split; auto|]. intros d1 d2 d3 [N1 O1 W1 Q1] [N2 O2 W2 Q2]. split; [lia|auto| |congruence].
  intros n w H. destruct (W2 n w H) as [H'|[? ?]]; [|right; split; [lia|done]].
  destruct (W1 n w H') as [?|[? ?]]; [by left|right; split; [lia|done]].
Qed.

#[export] Instance frame_preorder : PreOrder frame.
Proof.
  split; [intros d; split; auto; reflexivity|]. intros d1 d2 d3 [M1 E1 I1] [M2 E2 I2].
  split; [by etrans|congruence|]. intros id. by rewrite I2, I1.
Qed.

Lemma moves_informed P d d' : moves P d d' -> informed d -> informed d'.
Proof.
  intros [N O W _] H n [w Hw]. destruct (W n w Hw) as [Hw'|[? _]]; [|lia]. specialize (H n (ex_intro _ w Hw')). lia.
Qed.

Lemma moves_weaken (P Q : request -> Prop) d d' : (forall w, P w -> Q w) -> moves P d d' -> moves Q d d'.
Proof. intros H [N O W E]. split; try done. intros n w Hw. destruct (W n w Hw) as [?|[? ?]]; auto. Qed.

(** Only what is not looked at has changed. *)
Lemma frame_same d d' : d_next d' = d_next d -> d_requests d' = d_requests d -> d_waiting d' = d_waiting d ->
  d_meta d' = d_meta d -> d_containers d' = d_containers d -> frame d d'.
Proof. intros E1 E2 E3 E4 E5. split; [split|..]; rewrite ?E1, ?E2, ?E3, ?E4, ?E5; auto. Qed.

Lemma frame_emit e d : frame d (emit e d).
Proof. by apply frame_same. Qed.

Lemma frame_later d d' e : frame d d' -> frame d (emit e d').
Proof. intros H. etrans; [exact H|apply frame_emit]. Qed.

Lemma frame_fresh d d' : frame (d <| d_next ::= S |>) d' -> frame d d'.
Proof.
  intros H. etrans; [|exact H]. split; [split|..]; cbn; auto.
Qed.

Lemma moves_request P what method path params body d : informed d -> P what ->
  moves P d (http_request what method path params body d).
Proof.
  intros Hi HP. split; cbn; [lia| | |done].
  - intros n w H. rewrite lookup_insert_ne; [done|]. pose proof (Hi n (ex_intro _ w H)). lia.
  - intros n w. destruct (decide (n = d_next d)) as [->|Hne].
    + rewrite lookup_insert_eq. intros [= <-]. right. split; [lia|done].
    + rewrite lookup_insert_ne by done. by left.
Qed.

(** ** The operations *)

Lemma frame_request what method path params body d : informed d -> ~ is_action what /\ ~ is_describe what ->
  frame d (http_request what method path params body d).
Proof. intros Hi HP. split; [by apply moves_request|done..]. Qed.

Lemma frame_informed d d' : frame d d' -> informed d -> informed d'.
Proof. intros [M _ _]. by apply (moves_informed _ _ _ M). Qed.

(** A chain of operations. *)
Lemma frame_step d d1 d2 : informed d -> frame d d1 -> (informed d1 -> frame d1 d2) -> frame d d2.
Proof. intros Hi H1 H2. etrans; [exact H1|]. apply H2. by apply (frame_informed d). Qed.

Lemma frame_fold {A} (f : dclient -> A -> dclient) l : (forall d x, informed d -> frame d (f d x)) ->
  forall d, informed d -> frame d (foldl f d l).
Proof.
  intros Hf. induction l as [|x l IH]; intros d Hi; cbn; [reflexivity|]. eapply frame_step; [done|by apply Hf|]. apply IH.
Qed.

Ltac frames := first [reflexivity | by apply frame_same | by apply frame_emit].

Lemma frame_connect_events d : informed d -> frame d (connect_events d).
Proof. intros Hi. unfold connect_events. destruct (d_connected d); [|reflexivity]. apply frame_request; [done|by split; intros ?]. Qed.

Lemma frame_retry d : informed d -> frame d (retry d).
Proof.
  intros Hi. unfold retry. destruct (d_retries d) as [|n]; [reflexivity|]. cbv zeta.
  eapply frame_step; [done|by apply (frame_same d (d <| d_retries := n |>))|]. intros Hi'.
  destruct (d_alive (d <| d_retries := n |>)); [|reflexivity].
  eapply frame_step; [done|by apply frame_connect_events|]. intros _. by apply frame_same.
Qed.

Lemma frame_fetch_failed ex d : frame d (fetch_failed ex d).
Proof. unfold fetch_failed. destruct (d_connected d); [|reflexivity]. destruct (ignoreException ex); by apply frame_same. Qed.

Lemma frame_on_event d : informed d -> frame d (on_event d).
Proof.
  intros Hi. unfold on_event. destruct (d_connected d); [|reflexivity].
  eapply frame_step; [done|apply (frame_request RqContainers); [done|by split; intros ?]|]. intros Hi1.
  eapply frame_step; [done|apply (frame_request RqImages); [done|by split; intros ?]|]. intros Hi2.
  apply frame_request; [done|by split; intros ?].
Qed.

Lemma frame_on_later d : informed d -> frame d (on_later d).
Proof.
  intros Hi. unfold on_later. destruct (d_later d); [|reflexivity].
  eapply frame_step; [done|by apply (frame_same d (d <| d_later := false |>))|]. apply frame_on_event.
Qed.

Lemma frame_settle s e d : frame d (settle_connected s e d).
Proof. unfold settle_connected. destruct (d_connected d) as [[n []]|]; by apply frame_same. Qed.

Lemma frame_got_info d : frame d (got_info d).
Proof. unfold got_info, fresh. apply frame_fresh. by apply frame_same. Qed.

Lemma frame_iter n f d : (forall d, frame d (f d)) -> frame d (Nat.iter n f d).
Proof. intros Hf. induction n as [|n IH]; cbn; [reflexivity|]. etrans; [exact IH|apply Hf]. Qed.

Lemma frame_info_done v d : frame d (info_done v d).
Proof.
  unfold info_done. etrans; [|apply frame_settle]. etrans; [|apply frame_iter, frame_got_info]. by apply frame_same.
Qed.

Lemma frame_unwatch d : frame d (unwatch d).
Proof. unfold unwatch. destruct (d_watch d); [|reflexivity]. case_bool_decide; by apply frame_same. Qed.

Lemma frame_perform_connect d : informed d -> frame d (perform_connect d).
Proof.
  intros Hi. unfold perform_connect, fresh. cbv beta iota zeta.
  set (d1 := emit EHttpOpen _). assert (frame d d1) as H1 by (apply frame_fresh; by apply frame_same).
  set (d2 := connect_events d1). assert (frame d d2) as H2.
  { eapply frame_step; [done|exact H1|]. apply frame_connect_events. }
  set (d3 := unwatch d2 <| d_got_info ::= S |>). assert (frame d d3) as H3.
  { etrans; [exact H2|]. etrans; [apply frame_unwatch|]. by apply frame_same. }
  set (d4 := on_event d3). assert (frame d d4) as H4 by (eapply frame_step; [done|exact H3|]; apply frame_on_event).
  etrans; [exact H4|]. apply frame_fresh. by apply frame_same.
Qed.

Lemma frame_close d : frame d (close d).
Proof. unfold close. destruct (d_grid d); by apply frame_same. Qed.

Lemma frame_connect d : informed d -> frame d (fst (connect d)).
Proof. intros Hi. unfold connect. destruct (d_connected d); cbn [fst]; [reflexivity|by apply frame_perform_connect]. Qed.

Lemma frame_maybe_reconnect d : informed d -> frame d (fst (maybe_reconnect d)).
Proof.
  intros Hi. unfold maybe_reconnect. destruct (d_got_failure d); cbn [fst]; [|reflexivity].
  eapply frame_step; [done|apply frame_close|]. apply frame_perform_connect.
Qed.

(** *** Images *)

Lemma frame_remove_image id d : frame d (remove_image id d).
Proof. unfold remove_image. destruct (assoc_get id (d_images d)); by apply frame_same. Qed.

Lemma frame_images_done items d : informed d -> frame d (images_done items d).
Proof.
  intros Hi. unfold images_done. eapply frame_step; [done|by apply (frame_same d (d <| d_alive := true |>))|]. intros Hi1.
  eapply frame_step; [done|apply (frame_fold ask_image); [|done]|].
  - intros d1 x Hd1. unfold ask_image. eapply frame_step; [done|by apply (frame_same d1 (d1 <| d_images_meta ::= <[x.1 := x.2]> |>))|].
    intros Hd2. apply frame_request; [done|by split; intros ?].
  - intros Hi2. apply (frame_fold (fun d id => remove_image id d)); [|done]. intros. apply frame_remove_image.
Qed.

Lemma frame_image_done id image d : frame d (image_done id image d).
Proof. unfold image_done. destruct (describe_image (d_images_meta d !! id) image) as [[m|] i]; by apply frame_same. Qed.

(** *** Usage *)

Lemma frame_set_container d d' id c c' : frame d d' -> assoc_get id (d_containers d') = Some c -> ct_info c' = ct_info c ->
  frame d (d' <| d_containers ::= assoc_set id c' |>).
Proof.
  intros [[N O W Q] E I] Hc Hi. split; [by split|done|]. intros k. rewrite <- I. cbn. rewrite assoc_get_set.
  destruct (String.eqb_spec id k) as [<-|]; [|done]. rewrite Hc. cbn. by rewrite Hi.
Qed.

Lemma frame_add_cgroup grid prefix cgroup d : frame d (add_cgroup grid prefix cgroup d).
Proof.
  unfold add_cgroup. destruct (String.prefix prefix cgroup); [|reflexivity].
  set (id := String.substring _ _ _). destruct (assoc_get id (d_containers d)) as [c|] eqn:Hc; [|reflexivity].
  destruct (assoc_get id (d_samples d)); [reflexivity|].
  etrans; [apply (frame_set_container d d id c (c <| ct_cgroup := Some cgroup |>)); [reflexivity|done..]|].
  split; [split|..]; cbn; auto. lia.
Qed.

Lemma frame_update_usage_grid d d' : update_usage_grid d = Some d' -> informed d -> frame d d'.
Proof.
  unfold update_usage_grid. destruct (d_grid d) as [g|]; [|done]. intros [= <-] Hi.
  apply (frame_fold (fun d l => foldl (add_prefix g l) d cgroup_prefixes)); [|done]. intros d1 l Hd1.
  apply (frame_fold (add_prefix g l)); [|done]. intros d2 p Hd2. unfold add_prefix.
  apply (frame_fold (fun d cgroup => add_cgroup g p cgroup d)); [|done]. intros. apply frame_add_cgroup.
Qed.

Lemma frame_sample value d x : frame d (sample_container value d x).
Proof.
  unfold sample_container. destruct (assoc_get x.1 (d_containers d)) as [c|] eqn:Hc; [|reflexivity].
  destruct (usage_same _ _); [reflexivity|]. apply frame_later. by apply (frame_set_container d d x.1 c).
Qed.

Lemma frame_samples value d : informed d -> frame d (handle_usage_samples value d).
Proof. intros Hi. apply (frame_fold (sample_container value)); [|done]. intros. apply frame_sample. Qed.

(** *** Pulls and limits *)

Lemma frame_emits (l : list (jval * jval)) d : frame d (foldl (fun d _ => emit EPulling d) d l).
Proof. revert d. induction l as [|x l IH]; intros d; cbn [foldl]; [reflexivity|]. etrans; [apply frame_emit|apply IH]. Qed.

Lemma frame_pull_data parse n data d : frame d (pull_data parse n data d).
Proof.
  unfold pull_data. destruct (d_jobs d !! n) as [j|]; [|reflexivity]. destruct (pull_stream parse data (jb_pull j)) as [p|].
  - cbv zeta. etrans; [|apply frame_emits]. by apply frame_same.
  - by apply frame_same.
Qed.

Lemma frame_pull_ended n failed d : frame d (pull_ended n failed d).
Proof.
  unfold pull_ended. destruct (d_jobs d !! n) as [j|]; [|reflexivity].
  destruct (pl_result (match failed with Some ex => pull_fail ex (jb_pull j) | None => pull_done (jb_pull j) end)) as [[e|]|];
    by apply frame_same.
Qed.

Lemma frame_change_cgroup steps d : frame d (change_cgroup steps d).
Proof. destruct steps as [|s rest]; cbn [change_cgroup fresh]; [reflexivity|]. apply frame_fresh. by apply frame_same. Qed.

Lemma frame_spawned n ok d : frame d (spawned n ok d).
Proof.
  unfold spawned. destruct (d_spawned d !! n) as [rest|]; [|reflexivity]. cbv zeta.
  etrans; [by apply (frame_same d (d <| d_spawned ::= delete n |>))|]. destruct ok; [apply frame_change_cgroup|reflexivity].
Qed.

(** *** Containers *)

(** No action begins or ends. *)
Abbreviation asks := (moves (fun w => ~ is_action w)).

Lemma frame_asks d d' : frame d d' -> asks d d'.
Proof. intros [M _ _]. eapply moves_weaken; [|exact M]. naive_solver. Qed.

Lemma asks_same d d' : d_next d' = d_next d -> d_requests d' = d_requests d -> d_waiting d' = d_waiting d -> asks d d'.
Proof. intros E1 E2 E3. split; rewrite ?E1, ?E2, ?E3; auto. Qed.

Lemma asks_remove id d : asks d (remove_container id d).
Proof.
  unfold remove_container. destruct (assoc_get id (d_containers d)) as [c|]; [|reflexivity].
  destruct (container_to_name (ct_info c)) as [name|]; [|by apply asks_same].
  destruct (negb _ && _); by apply asks_same.
Qed.

Lemma asks_fold {A} (f : dclient -> A -> dclient) l : (forall d x, informed d -> asks d (f d x)) ->
  forall d, informed d -> asks d (foldl f d l).
Proof.
  intros Hf. induction l as [|x l IH]; intros d Hi; cbn; [reflexivity|].
  etrans; [by apply Hf|]. apply IH. exact (moves_informed _ _ _ (Hf d x Hi) Hi).
Qed.

Lemma asks_ask d x : informed d -> asks d (ask_container d x).
Proof.
  intros Hi. unfold ask_container. etrans; [by apply (asks_same d (d <| d_meta ::= <[x.1 := x.2]> |>))|].
  by apply moves_request; [|intros ?].
Qed.

Lemma asks_containers_done items d : informed d -> asks d (containers_done items d).
Proof.
  intros Hi. unfold containers_done. etrans; [by apply (asks_same d (d <| d_alive := true |>))|].
  etrans; [apply (asks_fold ask_container); [apply asks_ask|done]|].
  apply (asks_fold (fun d id => remove_container id d)); [intros; apply asks_remove|].
  eapply moves_informed; [|exact Hi]. etrans; [by apply (asks_same d (d <| d_alive := true |>))|].
  by apply (asks_fold ask_container); [apply asks_ask|].
Qed.

Lemma asks_populate id info d : asks d (populate_container id info d).2.
Proof.
  unfold populate_container. destruct (describe (d_meta d !! id) info) as [[m|] i];
    (destruct (container_to_name i) as [name|]; cbn [snd]; [destruct (String.eqb name "")|]); by apply asks_same.
Qed.

Lemma asks_container_done id info d : informed d -> asks d (container_done id info d).
Proof.
  intros Hi. unfold container_done. pose proof (asks_populate id info d) as Hp.
  destruct (populate_container id info d) as [i d1]. cbn [snd] in Hp. cbv zeta.
  set (d2 := d1 <| d_containers ::= _ |>). assert (asks d d2) as H2 by (etrans; [exact Hp|by apply asks_same]).
  destruct (update_usage_grid d2) as [d3|] eqn:E; [|done]. etrans; [exact H2|]. etrans; [|apply frame_asks, frame_emit].
  apply frame_asks, (frame_update_usage_grid _ _ E). by apply (moves_informed _ _ _ H2).
Qed.

(** ** Waiting *)

Definition for_id (id : string) (w : request) : bool :=
  match w with RqAction _ id' => String.eqb id' id | _ => false end.

(** The actions for an entry that have no answer yet. *)
Definition pending (id : string) (d : dclient) : nat :=
  size (filter (fun nw => for_id id (snd nw) = true) (d_requests d)).

Definition counted (d : dclient) : Prop :=
  forall id, d_waiting d !! id = match pending id d with O => None | S n => Some (Some (Z.of_nat (S n))) end.

Lemma for_id_action id w : for_id id w = true -> is_action w.
Proof. by destruct w. Qed.

Lemma asks_pending d d' id : asks d d' -> pending id d' = pending id d.
Proof.
  intros [_ O W _]. unfold pending. f_equal. apply map_eq. intros n. apply option_eq. intros w.
  rewrite !map_lookup_filter_Some. cbn. split; intros [Hn Hf]; (split; [|done]); [|by apply O].
  destruct (W n w Hn) as [?|[_ Hw]]; [done|]. destruct Hw. by eapply for_id_action.
Qed.

Lemma asks_counted d d' : asks d d' -> counted d -> counted d'.
Proof. intros H Hc id. by rewrite (mv_waiting _ _ _ H), Hc, (asks_pending d d'). Qed.

Lemma asks_trigger id d : asks d (trigger_id id d).
Proof.
  unfold trigger_id. destruct (assoc_get id (d_containers d)); [by apply asks_same|].
  destruct (assoc_get id (d_images d)); by apply asks_same.
Qed.

Lemma waiting_next id d : d_next (waiting id d) = d_next d /\ d_requests (waiting id d) = d_requests d.
Proof.
  unfold waiting. destruct (d_waiting d !! id); [done|]. unfold trigger_id.
  destruct (assoc_get id _); [done|]. by destruct (assoc_get id _).
Qed.

Lemma waiting_lookup id d k : d_waiting (waiting id d) !! k =
  if decide (k = id) then Some (match d_waiting d !! id with Some n => (fun n => n + 1) <$> n | None => Some 1 end)
  else d_waiting d !! k.
Proof.
  unfold waiting. destruct (d_waiting d !! id) as [n|]; [|rewrite (mv_waiting _ _ _ (asks_trigger id _))]; cbn;
    (case_decide as E; [subst; by rewrite lookup_insert_eq|by rewrite lookup_insert_ne]).
Qed.

(** An action begins. *)
Lemma counted_begin a id method path params body d : informed d -> counted d ->
  let d' := http_request (RqAction a id) method path params body (waiting id d) in informed d' /\ counted d'.
Proof.
  intros Hi Hc d'. destruct (waiting_next id d) as [En Er]. split.
  - intros n. unfold d', http_request, fresh. cbn. rewrite En, Er. destruct (decide (n = d_next d)) as [->|Hne]; [lia|].
    rewrite lookup_insert_ne by done. intros H. specialize (Hi n H). lia.
  - intros k. change (d_waiting d') with (d_waiting (waiting id d)). rewrite waiting_lookup.
    assert (pending k d' = if decide (k = id) then S (pending k d) else pending k d) as ->.
    { unfold pending, d', http_request, fresh. cbn. rewrite En, Er.
      assert (d_requests d !! d_next d = None) as Hn.
      { destruct (d_requests d !! d_next d) eqn:E; [|done]. pose proof (Hi _ (ex_intro _ _ E)). lia. }
      case_decide as E.
      - rewrite map_filter_insert_True by (cbn; subst; apply String.eqb_refl). rewrite map_size_insert_None; [done|].
        apply map_lookup_filter_None. by left.
      - rewrite map_filter_insert_False by (cbn; by rewrite (proj2 (String.eqb_neq id k))).
        by rewrite delete_id. }
    case_decide as E; [|apply Hc]. subst k. rewrite (Hc id). destruct (pending id d) as [|n]; cbn; [done|]. do 2 f_equal. lia.
Qed.

(** An action ends. *)
Lemma counted_end n a id d d1 : informed d -> counted d -> d_requests d !! n = Some (RqAction a id) ->
  asks (d <| d_requests ::= delete n |>) d1 -> informed (not_waiting id d1) /\ counted (not_waiting id d1).
Proof.
  intros Hi Hc Hn Ha. set (d0 := d <| d_requests ::= delete n |>) in *.
  assert (informed d0) as Hi0.
  { intros m [w Hm]. cbn in Hm. apply lookup_delete_Some in Hm as [_ Hm]. exact (Hi m (ex_intro _ w Hm)). }
  assert (forall k, pending k d = if decide (k = id) then S (pending k d0) else pending k d0) as Hp.
  { intros k. unfold pending. cbn. rewrite map_filter_delete.
    set (m := filter (fun nw : nat * request => for_id k nw.2 = true) (d_requests d)). case_decide as E.
    - subst. assert (m !! n = Some (RqAction a id)) as Hm.
      { apply map_lookup_filter_Some. split; [done|]. cbn. apply String.eqb_refl. }
      rewrite map_size_delete_Some by by eexists.
      assert (size m <> 0%nat) by (intros E%map_size_empty_iff; rewrite E in Hm; by rewrite lookup_empty in Hm). lia.
    - rewrite delete_id; [done|]. apply map_lookup_filter_None. right. intros w Hw. rewrite Hn in Hw. injection Hw as <-.
      cbn. by rewrite (proj2 (String.eqb_neq id k)). }
  assert (d_waiting d1 !! id = Some (Some (Z.of_nat (S (pending id d0))))) as Hw.
  { rewrite (mv_waiting _ _ _ Ha). change (d_waiting d0) with (d_waiting d). rewrite Hc, Hp. by rewrite decide_True. }
  pose proof (moves_informed _ _ _ Ha Hi0) as Hi1.
  assert (forall k, pending k d1 = pending k d0) as Hp1 by (intros k; by apply asks_pending).
  assert ((n ← default None (d_waiting d1 !! id); Some (n - 1)) = Some (Z.of_nat (pending id d0))) as En.
  { rewrite Hw. change (Some (Z.of_nat (S (pending id d0)) - 1) = Some (Z.of_nat (pending id d0))). f_equal. lia. }
  unfold not_waiting. cbv zeta. rewrite En.
  case_bool_decide as E.
  - assert (pending id d0 = 0%nat) as E0 by (injection E; lia). set (d2 := d1 <| d_waiting ::= delete id |>).
    pose proof (asks_trigger id d2) as Ht. split; [by apply (moves_informed _ _ _ Ht)|]. intros k.
    rewrite (mv_waiting _ _ _ Ht), (asks_pending _ _ k Ht). change (pending k d2) with (pending k d1). rewrite Hp1. cbn.
    destruct (decide (k = id)) as [->|Hne]; [by rewrite lookup_delete_eq, E0|]. rewrite lookup_delete_ne by done.
    rewrite (mv_waiting _ _ _ Ha). change (d_waiting d0) with (d_waiting d). by rewrite Hc, Hp, decide_False.
  - split; [done|]. intros k. cbn.
    match goal with |- context [pending k ?x] => change (pending k x) with (pending k d1) end. rewrite Hp1.
    destruct (decide (k = id)) as [->|Hne].
    + rewrite lookup_insert_eq. destruct (pending id d0); [by destruct E|done].
    + rewrite lookup_insert_ne by done. rewrite (mv_waiting _ _ _ Ha). change (d_waiting d0) with (d_waiting d).
      by rewrite Hc, Hp, decide_False.
Qed.

(** ** Steps *)

Section Steps.
Context (JSON_parse : string -> option jval).

Abbreviation answered := (answered JSON_parse).
Abbreviation step_input := (step_input JSON_parse).
Abbreviation run := (run JSON_parse).

(** The lists and descriptions of containers change the table; actions begin and
    end; everything else does neither. *)
Definition about_containers (w : request) : Prop :=
  match w with RqContainers | RqContainer _ => True | _ => False end.

Lemma frame_answered what data d : informed d -> ~ is_action what -> ~ about_containers what -> frame d (answered what data d).
Proof.
  intros Hi Ha Hc. destruct what as [| |id| |id| |a id|]; try (exfalso; by apply Hc); try (exfalso; by apply Ha); cbn [DockerClient.answered].
  - by apply frame_same.
  - destruct (JSON_parse data); [by apply frame_images_done|reflexivity].
  - destruct (JSON_parse data) as [[]|]; try reflexivity. apply frame_image_done.
  - destruct (String.eqb data ""); [apply frame_info_done|]. destruct (JSON_parse data); [apply frame_info_done|reflexivity].
  - reflexivity.
Qed.

Lemma frame_failed what ex d : ~ is_action what -> frame d (failed what ex d).
Proof.
  intros Ha. destruct what as [| |id| |id| |a id|]; cbn [failed]; try reflexivity.
  - by apply frame_same.
  - apply frame_fetch_failed.
  - apply frame_fetch_failed.
  - apply frame_settle.
  - by destruct Ha.
Qed.

Lemma asks_answered what data d : informed d -> ~ is_action what -> asks d (answered what data d).
Proof.
  intros Hi Ha. destruct what as [| |id| |id| |a id|]; try (by apply frame_asks, frame_answered); cbn [DockerClient.answered].
  - destruct (JSON_parse data); [by apply asks_containers_done|reflexivity].
  - destruct (JSON_parse data) as [[]|]; try reflexivity. by apply asks_container_done.
Qed.

Definition begins (i : input) : Prop :=
  match i with
  | IStart _ _ | IStop _ _ | IRestart _ _ | ICommit _ _ _ _ | IRm _ _ | IRmi _ => True
  | _ => False
  end.

Lemma begin_action i d : begins i -> exists a id method path params body,
  step_input i d = http_request (RqAction a id) method path params body (waiting id d).
Proof. destruct i; try done; intros _; eauto 10; by do 6 eexists. Qed.

(** Inputs that are neither answers nor actions. *)
Lemma frame_input i d : informed d -> ~ begins i -> (forall n a, i <> IAnswer n a) -> frame d (step_input i d).
Proof.
  intros Hi Hb Ha. destruct i; try (exfalso; by apply Hb); try (by destruct (Ha n answer)); cbn [DockerClient.step_input];
    try (by apply frame_same).
  - by apply frame_on_later.
  - by apply frame_retry.
  - destruct (d_grid d) eqn:Eg; [|reflexivity]. cbv zeta. set (d1 := d <| d_instances := instances |>).
    assert (frame d d1) as H1 by by apply frame_same. destruct (update_usage_grid d1) as [d2|] eqn:E; [|done].
    etrans; [exact H1|]. apply (frame_update_usage_grid _ _ E). by apply (frame_informed d).
  - destruct (d_grid d); [by apply frame_samples|reflexivity].
  - by apply frame_connect.
  - by apply frame_maybe_reconnect.
  - apply frame_close.
  - by apply frame_request; [|split; intros ?].
  - by apply frame_request; [|split; intros ?].
  - apply frame_pull_data.
  - apply frame_pull_ended.
  - unfold change_memory_limit. destruct (assoc_get id (d_containers d)); [apply frame_change_cgroup|reflexivity].
  - unfold change_cpu_priority. destruct (assoc_get id (d_containers d)); [apply frame_change_cgroup|reflexivity].
  - apply frame_spawned.
Qed.

(** A request leaves. *)
Lemma informed_leave n d : informed d -> informed (d <| d_requests ::= delete n |>).
Proof. intros Hi m [w Hm]. cbn in Hm. apply lookup_delete_Some in Hm as [_ Hm]. exact (Hi m (ex_intro _ w Hm)). Qed.

Lemma counted_leave n w d : d_requests d !! n = Some w -> ~ is_action w -> counted d -> counted (d <| d_requests ::= delete n |>).
Proof.
  intros Hn Hw Hc id. cbn. rewrite Hc. unfold pending. cbn. rewrite map_filter_delete, delete_id; [done|].
  apply map_lookup_filter_None. right. intros w' Hw'. rewrite Hn in Hw'. injection Hw' as <-. intros ?%for_id_action. done.
Qed.

Lemma asks_action a id ok d : exists d1, asks d d1 /\ action_done a id ok d = not_waiting id d1.
Proof.
  unfold action_done. eexists. split; [|reflexivity]. destruct ok; [|reflexivity].
  destruct a; try reflexivity; [apply asks_remove|apply frame_asks, frame_remove_image].
Qed.

Lemma counted_step i d : informed d /\ counted d -> informed (step_input i d) /\ counted (step_input i d).
Proof.
  intros [Hi Hc]. assert (begins i \/ ~ begins i) as [Hb|Hb] by (destruct i; cbn; auto).
  - destruct (begin_action i d Hb) as (a & id & m & p & ps & b & ->). by apply counted_begin.
  - assert ((exists n a, i = IAnswer n a) \/ forall n a, i <> IAnswer n a) as [(n & a & ->)|Hn] by (destruct i; eauto).
    + cbn [DockerClient.step_input]. destruct (d_requests d !! n) as [w|] eqn:En; [|done]. cbv zeta.
      set (d0 := d <| d_requests ::= delete n |>). assert (informed d0) as Hi0 by by apply informed_leave.
      assert (is_action w \/ ~ is_action w) as [Hw|Hw] by (destruct w; cbn; auto).
      * destruct w as [| | | | | |ac id|]; try done.
        assert (exists ok, match a with inl data => answered (RqAction ac id) data d0 | inr ex => failed (RqAction ac id) ex d0 end =
          action_done ac id ok d0) as [ok ->] by (destruct a; by eexists).
        destruct (asks_action ac id ok d0) as (d1 & H1 & ->). exact (counted_end n ac id d d1 Hi Hc En H1).
      * assert (asks d0 (match a with inl data => answered w data d0 | inr ex => failed w ex d0 end)) as H0.
        { destruct a; [by apply asks_answered|by apply frame_asks, frame_failed]. }
        split; [exact (moves_informed _ _ _ H0 Hi0)|]. by apply (asks_counted _ _ H0), (counted_leave n w).
    + pose proof (frame_input i d Hi Hb Hn) as Hf. split; [by apply (frame_informed d)|]. by apply (asks_counted d), Hc; apply frame_asks.
Qed.

Lemma new_counted : informed new_dclient /\ counted new_dclient.
Proof.
  unfold new_dclient. set (d := mk_dclient _ _ _ _ _ _ _ _ _ _ _ _ _ _ _ _ _ _ _ _ _ _ _ _).
  assert (informed d) as Hi by (intros n [w Hw]; cbn in Hw; by rewrite lookup_empty in Hw).
  pose proof (frame_perform_connect d Hi) as Hf. split; [by apply (frame_informed d)|].
  apply (asks_counted d); [by apply frame_asks|]. intros id. cbn. unfold pending. cbn. by rewrite map_filter_empty, map_size_empty.
Qed.

Lemma run_counted l d : informed d /\ counted d -> informed (run l d) /\ counted (run l d).
Proof. revert d. induction l as [|i l IH]; intros d H; [done|]. apply IH. by apply counted_step. Qed.

(** What waits is what has actions to wait for: in any run of the client, the
    count of an entry is the number of its actions without an answer, there is no
    count of zero and none that is not a number, so that an entry is shown as
    waiting exactly as long as one of its actions is under way. *)
Theorem waiting_counts l id :
  let d := run l new_dclient in
  d_waiting d !! id = match pending id d with O => None | S n => Some (Some (Z.of_nat (S n))) end.
Proof. apply (run_counted l new_dclient new_counted). Qed.

End Steps.
