(* ===== verification/DockerClientTable.v ===== *)
(** * The table of containers follows the lists of docker

    Between two lists, the answers may come in any order and with anything else
    between them. *)

From S2P Require Import Prelude Uri Docker DockerClient DockerClientSpec.

(** ** Steps that leave the table *)

(** As [frame], but actions may begin and end. *)
Record keeps (d d' : dclient) : Prop := {
  kp_next : (d_next d <= d_next d')%nat;
  kp_old : forall n w, d_requests d !! n = Some w -> d_requests d' !! n = Some w;
  kp_new : forall n w, d_requests d' !! n = Some w ->
    d_requests d !! n = Some w \/ ((d_next d <= n < d_next d')%nat /\ ~ is_describe w);
  kp_meta : d_meta d' = d_meta d;
  kp_info : forall id, ct_info <$> assoc_get id (d_containers d') = ct_info <$> assoc_get id (d_containers d) }.

#[export] Instance keeps_preorder : PreOrder keeps.
Proof.
  split; [by intros d; split; auto|]. intros d1 d2 d3 [N1 O1 W1 E1 I1] [N2 O2 W2 E2 I2].
  split; [lia|auto| |congruence|intros id; by rewrite I2, I1].
  intros n w H. destruct (W2 n w H) as [H'|[? ?]]; [|right; split; [lia|done]].
  destruct (W1 n w H') as [?|[? ?]]; [by left|right; split; [lia|done]].
Qed.

Lemma frame_keeps d d' : frame d d' -> keeps d d'.
Proof. intros [[N O W _] E I]. split; try done. intros n w Hw. destruct (W n w Hw) as [?|[? [_ ?]]]; auto. Qed.

Lemma keeps_same d d' : d_next d' = d_next d -> d_requests d' = d_requests d -> d_meta d' = d_meta d ->
  d_containers d' = d_containers d -> keeps d d'.
Proof. intros E1 E2 E3 E4. split; rewrite ?E1, ?E2, ?E3, ?E4; auto. Qed.

Lemma keeps_trigger id d : keeps d (trigger_id id d).
Proof.
  unfold trigger_id. destruct (assoc_get id (d_containers d)); [by apply keeps_same|].
  destruct (assoc_get id (d_images d)); by apply keeps_same.
Qed.

Lemma keeps_waiting id d : keeps d (waiting id d).
Proof.
  unfold waiting. destruct (d_waiting d !! id); [by apply keeps_same|]. etrans; [|apply keeps_trigger]. by apply keeps_same.
Qed.

Lemma keeps_not_waiting id d : keeps d (not_waiting id d).
Proof.
  unfold not_waiting. cbv zeta. case_bool_decide; [|by apply keeps_same]. etrans; [|apply keeps_trigger]. by apply keeps_same.
Qed.

Lemma keeps_new_request what method path params body d : informed d -> ~ is_describe what ->
  keeps d (http_request what method path params body d).
Proof.
  intros Hi Hw. destruct (moves_request (fun w => ~ is_describe w) what method path params body d Hi Hw) as [N O W _].
  by split.
Qed.

Lemma keeps_informed d d' : keeps d d' -> informed d -> informed d'.
Proof.
  intros [N O W _ _] H n [w Hw]. destruct (W n w Hw) as [Hw'|[? _]]; [|lia]. specialize (H n (ex_intro _ w Hw')). lia.
Qed.

(** ** A round *)

Section Round.
Context (JSON_parse : string -> option jval).
Context (items : list (string * jobj)) (inspect : string -> list (string * jval)).

Abbreviation step_input := (step_input JSON_parse).
Abbreviation run := (run JSON_parse).

(** What is shown of a container: its description, with what the list says. *)
Definition described (id : string) (item : jobj) : jobj :=
  snd (describe (Some item) (fields_of (JObj (inspect id)))).

(** Since the list has come: each of its containers has one request under way or is
    shown, and no other is. *)
Record round (d : dclient) : Prop := {
  ro_informed : informed d;
  ro_asked : forall n id, d_requests d !! n = Some (RqContainer id) ->
    exists item, (id, item) ∈ items /\ d_meta d !! id = Some item;
  ro_once : forall n m id, d_requests d !! n = Some (RqContainer id) -> d_requests d !! m = Some (RqContainer id) -> n = m;
  ro_gone : forall id, ~ id ∈ items.*1 -> assoc_get id (d_containers d) = None;
  ro_done : forall id item, (id, item) ∈ items ->
    (exists n, d_requests d !! n = Some (RqContainer id)) \/
    ct_info <$> assoc_get id (d_containers d) = Some (described id item) }.

(** An input that is not a new list, does not remove a container, and describes
    one as [inspect] says. *)
Definition calm (i : input) (d : dclient) : Prop :=
  match i with
  | IAnswer n a =>
      match d_requests d !! n, a with
      | Some RqContainers, inl _ => False
      | Some (RqAction ARm _), inl _ => False
      | Some (RqContainer id), inl data => JSON_parse data = Some (JObj (inspect id))
      | Some (RqContainer _), inr _ => False
      | _, _ => True
      end
  | _ => True
  end.

Fixpoint calm_run (l : list input) (d : dclient) : Prop :=
  match l with
  | [] => True
  | i :: l => calm i d /\ calm_run l (step_input i d)
  end.

Lemma keeps_round d d' : keeps d d' -> round d -> round d'.
Proof.
  intros K [Hi Ha Ho Hg Hd]. assert (forall n id, d_requests d' !! n = Some (RqContainer id) -> d_requests d !! n = Some (RqContainer id)) as Hold.
  { intros n id H. destruct (kp_new _ _ K n _ H) as [?|[_ []]]; done. }
  split; [by apply (keeps_informed d)| | | |].
  - intros n id H. rewrite (kp_meta _ _ K). by apply (Ha n), Hold.
  - intros n m id H1 H2. by apply (Ho n m id); apply Hold.
  - intros id H. pose proof (kp_info _ _ K id) as E. rewrite (Hg id H) in E. by destruct (assoc_get id (d_containers d')).
  - intros id item H. rewrite (kp_info _ _ K). destruct (Hd id item H) as [[n Hn]|?]; [left; exists n; by apply (kp_old _ _ K)|by right].
Qed.

Lemma round_leave n w d : d_requests d !! n = Some w -> ~ is_describe w -> round d -> round (d <| d_requests ::= delete n |>).
Proof.
  intros Hn Hw [Hi Ha Ho Hg Hd]. split; cbn; [by apply informed_leave| | |done|].
  - intros m id [_ H]%lookup_delete_Some. by apply (Ha m).
  - intros m k id [_ H1]%lookup_delete_Some [_ H2]%lookup_delete_Some. by apply (Ho m k id).
  - intros id item H. destruct (Hd id item H) as [[m Hm]|?]; [left; exists m|by right].
    rewrite lookup_delete_ne; [done|]. intros ->. rewrite Hn in Hm. injection Hm as ->. by apply Hw.
Qed.

(** *** A description *)

Lemma populate_spec id info d item : d_meta d !! id = Some item -> exists meta by_name,
  populate_container id info d = (snd (describe (Some item) info), d <| d_meta := meta |> <| d_by_name := by_name |>) /\
  forall k, k <> id -> meta !! k = d_meta d !! k.
Proof.
  intros Hm. unfold populate_container. rewrite Hm. destruct (describe (Some item) info) as [m i] eqn:E.
  assert (exists m', m = Some m') as [m' ->] by (unfold describe in E; injection E as <- _; eauto). cbn [snd].
  destruct (container_to_name i) as [name|]; [destruct (String.eqb name "")|]; (exists (<[id := m']> (d_meta d)); eexists; split; [reflexivity|];
    intros k Hk; by rewrite lookup_insert_ne).
Qed.

Lemma container_done_spec id info d item : d_meta d !! id = Some item -> exists d1,
  d_next d1 = d_next d /\ d_requests d1 = d_requests d /\ (forall k, k <> id -> d_meta d1 !! k = d_meta d !! k) /\
  (exists c, ct_info c = snd (describe (Some item) info) /\ d_containers d1 = assoc_set id c (d_containers d)) /\
  (informed d -> keeps d1 (container_done id info d)).
Proof.
  intros Hm. destruct (populate_spec id info d item Hm) as (meta & by_name & E & Hk). unfold container_done. rewrite E. cbv zeta.
  set (d1 := _ <| d_containers ::= _ |>). exists d1. split; [done|]. split; [done|]. split; [exact Hk|].
  split; [eexists; split; [|reflexivity]; reflexivity|]. intros Hi. destruct (update_usage_grid d1) as [d2|] eqn:Eu; [|reflexivity].
  apply frame_keeps. etrans; [|apply frame_emit]. by apply (frame_update_usage_grid _ _ Eu).
Qed.

Lemma round_describe n id d : d_requests d !! n = Some (RqContainer id) -> NoDup items.*1 -> round d ->
  round (container_done id (fields_of (JObj (inspect id))) (d <| d_requests ::= delete n |>)).
Proof.
  intros Hn Hnd [Hi Ha Ho Hg Hd]. set (d0 := d <| d_requests ::= delete n |>).
  destruct (Ha n id Hn) as (item & Hitem & Hmeta).
  destruct (container_done_spec id (fields_of (JObj (inspect id))) d0 item Hmeta) as (d1 & N & Q & M & (c & Hc & Ec) & K).
  pose proof (informed_leave n d Hi) as Hi0. apply (keeps_round d1); [by apply K|].
  assert (forall m k, d_requests d1 !! m = Some (RqContainer k) -> d_requests d !! m = Some (RqContainer k) /\ k <> id) as Hr.
  { intros m k H. rewrite Q in H. cbn in H. apply lookup_delete_Some in H as [Hne H]. split; [done|]. intros ->.
    by apply Hne, (Ho n m id). }
  split.
  - intros m. rewrite Q, N. apply Hi0.
  - intros m k [H Hk]%Hr. rewrite (M k Hk). by apply (Ha m).
  - intros m m' k [H1 _]%Hr [H2 _]%Hr. by apply (Ho m m' k).
  - intros k Hk. rewrite Ec, assoc_get_set. destruct (String.eqb_spec id k) as [<-|_]; [|by apply Hg].
    destruct Hk. apply list_elem_of_fmap. by exists (id, item).
  - intros k item' Hk. rewrite Ec, assoc_get_set. destruct (String.eqb_spec id k) as [<-|Hne].
    + right. cbn. rewrite Hc. f_equal. unfold described.
      assert (item = item') as <-; [|done].
      pose proof (assoc_elem_get id item items Hnd Hitem) as E1. pose proof (assoc_elem_get id item' items Hnd Hk) as E2. congruence.
    + destruct (Hd k item' Hk) as [[m Hm]|?]; [left; exists m|by right]. rewrite Q. cbn.
      rewrite lookup_delete_ne; [done|]. intros ->. rewrite Hn in Hm. congruence.
Qed.

(** *** The list *)

(** What has been asked so far. *)
Record asked (l : list (string * jobj)) (d : dclient) : Prop := {
  as_informed : informed d;
  as_only : forall n id, d_requests d !! n = Some (RqContainer id) -> id ∈ l.*1;
  as_once : forall n m id, d_requests d !! n = Some (RqContainer id) -> d_requests d !! m = Some (RqContainer id) -> n = m;
  as_all : forall id item, (id, item) ∈ l ->
    d_meta d !! id = Some item /\ exists n, d_requests d !! n = Some (RqContainer id) }.

Lemma ask_asked l x d : ~ x.1 ∈ l.*1 -> asked l d -> asked (l ++ [x]) (ask_container d x).
Proof.
  intros Hx [Hi Hon Ho Ha]. assert (asks d (ask_container d x)) as Hasks by by apply asks_ask.
  assert (forall n id, d_requests (ask_container d x) !! n = Some (RqContainer id) ->
    (n = d_next d /\ id = x.1) \/ (n <> d_next d /\ d_requests d !! n = Some (RqContainer id))) as Hr.
  { intros n id. unfold ask_container, http_get, http_request, fresh. cbn. destruct (decide (n = d_next d)) as [->|Hne].
    - rewrite lookup_insert_eq. intros [= <-]. by left.
    - rewrite lookup_insert_ne by done. by right. }
  split.
  - by apply (moves_informed _ _ _ Hasks).
  - intros n id H. rewrite fmap_app, elem_of_app. destruct (Hr n id H) as [[_ ->]|[_ H']]; [right; by apply list_elem_of_singleton|].
    left. by apply (Hon n).
  - intros n m id H1 H2. destruct (Hr n id H1) as [[E1 E1']|[_ H1']], (Hr m id H2) as [[E2 E2']|[_ H2']]; subst; try done.
    + destruct Hx. exact (Hon m _ H2').
    + destruct Hx. exact (Hon n _ H1').
    + by apply (Ho n m id).
  - intros id item. rewrite elem_of_app, list_elem_of_singleton. unfold ask_container, http_get, http_request, fresh. cbn.
    intros [H|<-].
    + destruct (Ha id item H) as [Hm [n Hn]]. assert (id <> x.1) as Hne.
      { intros ->. destruct Hx. apply list_elem_of_fmap. by exists (x.1, item). }
      split; [by rewrite lookup_insert_ne|]. exists n. rewrite lookup_insert_ne; [done|].
      pose proof (Hi n (ex_intro _ _ Hn)). lia.
    + cbn. split; [by rewrite lookup_insert_eq|]. exists (d_next d). by rewrite lookup_insert_eq.
Qed.

Lemma asks_asked l2 : forall l1 d, NoDup (l1 ++ l2).*1 -> asked l1 d -> asked (l1 ++ l2) (foldl ask_container d l2).
Proof.
  induction l2 as [|x l2 IH]; intros l1 d Hnd Ha; cbn; [by rewrite app_nil_r|].
  replace (l1 ++ x :: l2) with ((l1 ++ [x]) ++ l2) by by rewrite <- app_assoc. apply IH; [by rewrite <- app_assoc|].
  apply ask_asked; [|done]. rewrite fmap_app, NoDup_app in Hnd. destruct Hnd as (_ & H & _). intros Hx.
  apply (H _ Hx). cbn. by left.
Qed.

Lemma asks_containers l d : d_containers (foldl ask_container d l) = d_containers d.
Proof. revert d. induction l as [|x l IH]; intros d; cbn [foldl]; [done|]. by rewrite IH. Qed.

Lemma remove_spec id d : d_next (remove_container id d) = d_next d /\ d_requests (remove_container id d) = d_requests d /\
  d_meta (remove_container id d) = d_meta d /\
  forall k, assoc_get k (d_containers (remove_container id d)) = if String.eqb id k then None else assoc_get k (d_containers d).
Proof.
  unfold remove_container. destruct (assoc_get id (d_containers d)) as [c|] eqn:Ec.
  - destruct (container_to_name (ct_info c)) as [name|]; [destruct (negb _ && _)|]; repeat split; intros k; apply assoc_get_del.
  - repeat split. intros k. by destruct (String.eqb_spec id k) as [<-|].
Qed.

Lemma removes_spec l : forall d, let d' := foldl (fun d id => remove_container id d) d l in
  d_next d' = d_next d /\ d_requests d' = d_requests d /\ d_meta d' = d_meta d /\
  forall k, assoc_get k (d_containers d') = if decide (k ∈ l) then None else assoc_get k (d_containers d).
Proof.
  induction l as [|id l IH]; intros d; cbn [foldl]; [by repeat split|].
  destruct (IH (remove_container id d)) as (N & R & M & C). destruct (remove_spec id d) as (N' & R' & M' & C').
  split; [by rewrite N|]. split; [by rewrite R|]. split; [by rewrite M|]. intros k. rewrite C, C'.
  destruct (String.eqb_spec id k) as [<-|Hne]; repeat case_decide; try done; set_solver.
Qed.

Lemma round_begin d : NoDup items.*1 -> informed d -> (forall n id, d_requests d !! n <> Some (RqContainer id)) ->
  round (containers_done items d).
Proof.
  intros Hnd Hi Hno. unfold containers_done. set (d0 := d <| d_alive := true |>).
  assert (asked [] d0) as H0 by (split; [exact Hi|intros n id H|intros n m id H|intros ? ? []%not_elem_of_nil]; by destruct (Hno n id)).
  pose proof (asks_asked items [] d0 Hnd H0) as Ha. cbn [app] in Ha. set (d1 := foldl ask_container d0 items) in *.
  destruct (removes_spec (unseen items (d_containers d1)) d1) as (N & R & M & C). cbv zeta.
  set (d2 := foldl _ d1 _) in *. destruct Ha as [Hi1 Hon Ho Hall]. split.
  - intros n. rewrite N, R. apply Hi1.
  - intros n id H. rewrite R in H. rewrite M. destruct (proj1 (list_elem_of_fmap _ _ _) (Hon n id H)) as ([k item] & -> & Hk).
    exists item. split; [done|]. by apply Hall.
  - intros n m id. rewrite R. apply Ho.
  - intros id Hid. rewrite C. case_decide as E; [done|]. apply assoc_get_None. intros Hin. apply E.
    unfold unseen. apply list_elem_of_filter. by split.
  - intros id item H. left. rewrite R. by destruct (Hall id item H) as [_ ?].
Qed.

(** *** All calm inputs *)

Lemma round_step i d : NoDup items.*1 -> calm i d -> round d -> round (step_input i d).
Proof.
  intros Hnd Hc Hr. pose proof (ro_informed d Hr) as Hi. assert (begins i \/ ~ begins i) as [Hb|Hb] by (destruct i; cbn; auto).
  - destruct (begin_action JSON_parse i d Hb) as (a & id & m & p & ps & b & ->). apply (keeps_round d); [|done].
    etrans; [apply keeps_waiting|]. apply keeps_new_request; [|by intros ?]. by apply (keeps_informed d), Hi; apply keeps_waiting.
  - assert ((exists n a, i = IAnswer n a) \/ forall n a, i <> IAnswer n a) as [(n & a & ->)|Hn] by (destruct i; eauto).
    2: { apply (keeps_round d); [|done]. apply frame_keeps. by apply frame_input. }
    cbn [DockerClient.step_input calm] in *. destruct (d_requests d !! n) as [w|] eqn:En; [|done]. cbv zeta.
    set (d0 := d <| d_requests ::= delete n |>). assert (informed d0) as Hi0 by by apply informed_leave.
    assert (forall d', ~ is_describe w -> keeps d0 d' -> round d') as Hk.
    { intros d' Hw K. apply (keeps_round d0); [done|]. by apply (round_leave n w). }
    assert (forall e, ~ is_action w -> ~ is_describe w -> round (failed w e d0)) as Hf.
    { intros e Hw Hd. apply Hk; [done|]. by apply frame_keeps, frame_failed. }
    assert (forall data, ~ is_action w -> ~ about_containers w -> round (answered JSON_parse w data d0)) as Hans.
    { intros data Hw Hd. apply Hk; [by destruct w|]. by apply frame_keeps, frame_answered. }
    destruct w as [| |id| |id| |ac id|]; destruct a as [data|ex]; try done; try (by apply Hf); try (by apply Hans; intros ?).
    + unfold answered. rewrite Hc. by apply round_describe.
    + apply Hk; [by intros ?|]. unfold answered, action_done. cbv zeta. etrans; [|apply keeps_not_waiting].
      destruct ac; try reflexivity; [done|]. apply frame_keeps, frame_remove_image.
    + apply Hk; [by intros ?|]. apply keeps_not_waiting.
Qed.

Lemma round_run l : NoDup items.*1 -> forall d, calm_run l d -> round d -> round (run l d).
Proof. intros Hnd. induction l as [|i l IH]; intros d Hc Hr; [done|]. destruct Hc as [Hi Hl]. apply IH; [done|]. by apply round_step. Qed.

Lemma round_end d : round d -> (forall n id, d_requests d !! n <> Some (RqContainer id)) -> forall id,
  ct_info <$> assoc_get id (d_containers d) = described id <$> assoc_get id items.
Proof.
  intros [_ _ _ Hg Hd] Hno id. destruct (assoc_get id items) as [item|] eqn:E.
  - destruct (Hd id item (assoc_get_elem _ _ _ E)) as [[n Hn]|H]; [by destruct (Hno n id)|exact H].
  - apply assoc_get_None in E. by rewrite (Hg id E).
Qed.

End Round.

(** C37. The table of containers is what docker says: in any run of the client, a
    list of containers has come while none of them was being described; then come
    the descriptions of the containers of that list, in any order, and anything else
    except another list and the removal of a container.  Once all descriptions are
    there, the table has exactly the containers of the list, each as it has been
    described and listed. *)
Theorem table_follows JSON_parse l0 n data v inspect l :
  let d0 := run JSON_parse l0 new_dclient in
  d_requests d0 !! n = Some RqContainers -> JSON_parse data = Some v -> NoDup (items_of v).*1 ->
  (forall m id, d_requests d0 !! m <> Some (RqContainer id)) ->
  let d1 := step_input JSON_parse (IAnswer n (inl data)) d0 in
  calm_run JSON_parse inspect l d1 ->
  let d2 := run JSON_parse l d1 in
  (forall m id, d_requests d2 !! m <> Some (RqContainer id)) ->
  forall id, ct_info <$> assoc_get id (d_containers d2) = described inspect id <$> assoc_get id (items_of v).
Proof.
  intros d0 Hn Hp Hnd Hno d1 Hc d2 Hno2. apply round_end; [|exact Hno2]. apply round_run; [done|exact Hc|].
  destruct (run_counted JSON_parse l0 new_dclient new_counted) as [Hi _]. fold d0 in Hi.
  unfold d1. cbn [step_input]. rewrite Hn. unfold answered. rewrite Hp. apply (round_begin JSON_parse); try exact Hnd.
  - by apply informed_leave.
  - intros m id. cbn. intros [_ H]%lookup_delete_Some. by apply (Hno m id).
Qed.

(** ** Runs *)

(** Texts that stand for JSON: a list of two containers and their descriptions. *)
Definition sample_item (id : string) : jval := JObj [("Id", JStr id); ("Image", JStr "fedora")].
Definition sample_info (id : string) : list (string * jval) := [("Name", JStr ("/" +:+ id)); ("Image", JStr "sha256")].

Definition sample_json (s : string) : option jval :=
  if String.eqb s "[a,b]" then Some (JArr [sample_item "a"; sample_item "b"])
  else if String.eqb s "[b]" then Some (JArr [sample_item "b"])
  else if String.eqb s "info" then Some (JObj [("DockerRootDir", JStr "/var/lib/docker")])
  else if String.eqb s "-" then None
  else Some (JObj (sample_info s)).

(** The requests of a new client: events 1, containers 2, images 3, information 4;
    5 is the grid of samples; those for the containers of the list are 6 and 7. *)
Definition sample_inputs : list input :=
  [IAnswer 7 (inl "b"); IStart "a" JUndef; IAnswer 4 (inl "info"); IAnswer 6 (inl "a"); IAnswer 8 (inl "")].

Lemma unasked_where d : forallb (fun nw => match snd nw with RqContainer _ => false | _ => true end) (map_to_list (d_requests d)) = true ->
  forall m id, d_requests d !! m <> Some (RqContainer id).
Proof.
  intros H m id Hm. rewrite forallb_forall in H. specialize (H (m, RqContainer id)).
  cbn in H. discriminate H. apply list_elem_of_In. by apply elem_of_map_to_list.
Qed.

Lemma table_follows_witness :
  let d2 := run sample_json sample_inputs (step_input sample_json (IAnswer 2 (inl "[a,b]")) new_dclient) in
  ct_info <$> assoc_get "a" (d_containers d2) = Some (described sample_info "a" (fields_of (sample_item "a"))).
Proof.
  apply (table_follows sample_json [] 2 "[a,b]" (JArr [sample_item "a"; sample_item "b"]) sample_info sample_inputs) with (id := "a").
  - reflexivity.
  - reflexivity.
  - apply (bool_decide_unpack _). vm_compute. exact I.
  - apply unasked_where. vm_compute. reflexivity.
  - vm_compute. repeat split.
  - apply unasked_where. vm_compute. reflexivity.
Defined.

(** ** What the code does not do *)

(** A description that comes late, after a list without its container, brings the
    container back; nothing removes it until something happens. *)
Definition late_inputs : list input :=
  [IAnswer 2 (inl "[a,b]"); IAnswer 7 (inl "b"); IStream; ILater; IAnswer 8 (inl "[b]"); IAnswer 11 (inl "b"); IAnswer 6 (inl "a")].

Example late_description_comes_back : (d_containers (run sample_json late_inputs new_dclient)).*1 = ["b"; "a"].
Proof. vm_compute. reflexivity. Qed.

(** After a failure the client connects again.  A request of the old connection that
    fails when that is closed rejects the new promise, and is a new failure. *)
Definition refused : jval := JObj [("problem", JStr "not-found")].
Definition reconnected : dclient := run sample_json [IAnswer 2 (inr refused); IMaybeReconnect] new_dclient.

Example old_request_rejects :
  d_connected reconnected = Some (6%nat, Pending) /\ d_got_failure reconnected = false /\
  d_connected (step_input sample_json (IAnswer 4 (inr refused)) reconnected) = Some (6%nat, Rejected) /\
  d_got_failure (step_input sample_json (IAnswer 3 (inr refused)) reconnected) = true.
Proof. vm_compute. repeat split. Qed.

(** The old stream of events ends too, and a second one is opened a second later. *)
Definition streams (d : dclient) : nat :=
  length (filter (fun nw => (match snd nw with RqEvents => true | _ => false end) = true) (map_to_list (d_requests d))).

Example two_streams :
  streams (run sample_json [IAnswer 1 (inr refused); IRetry] reconnected) = 2%nat.
Proof. vm_compute. reflexivity. Qed.

(** The samples of a container belong to the first grid: once the client has
    connected again none is added to the new one, and its usage stays as it was. *)
Definition long_id : string := "0123456789abcdef0123456789abcdef0123456789abcdef0123456789abcdef".
Definition long_json (s : string) : option jval :=
  if String.eqb s "list" then Some (JArr [sample_item long_id]) else Some (JObj (sample_info "web")).
Definition usage_inputs : list input :=
  [IAnswer 2 (inl "list"); IAnswer 6 (inl "a"); IChanged [["docker/" +:+ long_id]]].
Definition again_inputs : list input := [IClose; IConnect; IChanged [["docker/" +:+ long_id]]].

Example samples_of_closed_grid :
  (map (fun ks => sm_grid (snd ks)) (d_samples (run long_json usage_inputs new_dclient)), d_grid (run long_json usage_inputs new_dclient)) =
    ([5%nat], Some 5%nat) /\
  (let d := run long_json (usage_inputs ++ again_inputs) new_dclient in
   map (fun ks => sm_grid (snd ks)) (d_samples d) = [5%nat] /\ d_grid d <> Some 5%nat).
Proof. vm_compute. split; [reflexivity|]. split; [reflexivity|discriminate]. Qed.
