(* ===== verification/Storage.v ===== *)
(** * Storage: what the pages know and look up (src/pkg/storaged/client.js, utils.js)

    The objects of storaged are proxies of D-Bus; here they are records of the
    properties that the code reads.  A table of proxies is a list by path, in the
    order in which it is enumerated; a block of the page is the same object as
    another when the paths are equal.  [update_indices] computes everything that the
    pages look up: where a block belongs to, the partitions of a table with the free
    space between them, the space that can be used for something new, what uses a
    block, and how that is torn down.  Names of files come as base64, which decodes.
    [gettext] is the translation.

    The texts of [lvol_name] and [format_delay] come from libraries and are left
    out, as are [format_temperature], which is about fractions, and the programs
    that the overlays run. *)

From Stdlib Require Import QArith.
From stdpp Require Import sorting.
From S2P Require Import Prelude Uri Location Numbers Base64 Text Utf8.

#[local] Open Scope Z_scope.

(** ** Small things *)

(** Numbers of a version; [None] is NaN. *)
Definition version_ints (version : string) : list (option Z) :=
  map (fun s => if String.eqb s "" then Some 0 else parseInt (JStr s)) (str_split "." version).

Fixpoint compare_ints (a b : list (option Z)) : option (option Z) :=
  match a, b with
  | x :: a, y :: b =>
      match x, y with
      | Some x, Some y => if x =? y then compare_ints a b else Some (Some (x - y))
      | _, _ => Some None
      end
  | _, _ => None
  end.

(** A number, or NaN, to compare with zero. *)
Definition compare_versions (a b : string) : option Z :=
  let a := version_ints a in
  let b := version_ints b in
  match compare_ints a b with
  | Some r => r
  | None => Some (zlen a - zlen b)
  end.

Definition decode_filename (encoded : string) : string :=
  match base64_decode (bytes_of encoded) with
  | Some data => default "" (snd (decode false (removelast data) (mk_decoder false None)))
  | None => ""
  end.

Definition encode_filename (decoded : string) : string := of_bytes (base64_encode (utf8_encode decoded ++ [0])).

Definition fmt_size (point : string) (bytes : Q) : string :=
  units_text (format_bytes point (Some bytes) (Some (FNum 1024))).

Definition fmt_rate (point : string) (bytes_per_sec : Q) : string :=
  units_text (format_bytes_per_sec point (Some bytes_per_sec) (Some (FNum 1024))).

(** The unit of the total is the one of what is used; without a unit it is the
    default. *)
Definition format_fsys_usage (point : string) (used total : Q) : string :=
  let parts := format_bytes point (Some total) (Some (FNum 1024)) in
  let units := FSuffix <$> parts !! 1%nat in
  default "" (format_bytes point (Some used) units !! 0%nat) +:+ " / " +:+ str_join " " parts.

(** *** Names of logical volumes, in code units *)

Inductive name_error := NameEmpty | NameLong | NameWhitespace | NameCharacter (c : Z).

Definition lvm2_char (c : Z) : bool :=
  ((97 <=? c) && (c <=? 122)) || ((65 <=? c) && (c <=? 90)) || ((48 <=? c) && (c <=? 57)) ||
  (c =? 43) || (c =? 46) || (c =? 95) || (c =? 45).

(** The class [\s] of regular expressions. *)
Definition js_space (c : Z) : bool :=
  ((9 <=? c) && (c <=? 13)) || (c =? 32) || (c =? 160) || (c =? 5760) || ((8192 <=? c) && (c <=? 8202)) ||
  (c =? 8232) || (c =? 8233) || (c =? 8239) || (c =? 8287) || (c =? 12288) || (c =? 65279).

Definition validate_lvm2_name (name : list Z) : option name_error :=
  if bool_decide (name = []) then Some NameEmpty
  else if 127 <? zlen name then Some NameLong
  else match list_find (fun c => lvm2_char c = false) name with
       | Some (_, c) => Some (if js_space c then NameWhitespace else NameCharacter c)
       | None => None
       end.

(** ** The objects *)

Record block := mk_block {
  bl_path : string;
  bl_device : string;
  bl_preferred : string;
  bl_symlinks : list string;
  bl_drive : string;
  bl_mdraid : string;
  bl_mdraid_member : string;
  bl_crypto : string;                       (* CryptoBackingDevice *)
  bl_number : Z;                            (* DeviceNumber *)
  bl_size : Z;
  bl_ignore : bool;                         (* HintIgnore *)
  bl_usage : string;                        (* IdUsage *)
  bl_type : string }.                       (* IdType *)

Record part := mk_part {
  pt_path : string; pt_table : string; pt_offset : Z; pt_size : Z; pt_container : bool; pt_contained : bool }.

#[export] Instance part_eq : EqDecision part.
Proof. solve_decision. Defined.

Record drive := mk_drive { dr_vendor : string; dr_model : string; dr_serial : string; dr_wwn : string }.

Record mdraid := mk_mdraid { md_path : string; md_uuid : string; md_name : string; md_active : list (string * Z) }.

Record vgroup := mk_vgroup { vg_path : string; vg_name : string }.

Record lvol := mk_lvol {
  lv_path : string; lv_name : string; lv_type : string; lv_pool : string; lv_origin : string; lv_vgroup : string }.

Record pvol := mk_pvol { pv_path : string; pv_vgroup : string; pv_free : Z; pv_size : Z }.

Record fsys := mk_fsys { fs_path : string; fs_mounts : list string }.

Record job := mk_job { jb_path : string; jb_objects : list string }.

Record vdo := mk_vdo { vd_name : string; vd_dev : string; vd_backing : string }.

Abbreviation tab X := (list (string * X)).

Record client := mk_client {
  cl_drives : tab drive;
  cl_blocks : tab block;
  cl_ptable : list string;                  (* the paths with a table *)
  cl_part : tab part;
  cl_lvm2 : tab string;                     (* their logical volume *)
  cl_pvol : tab pvol;
  cl_fsys : tab fsys;
  cl_mdraids : tab mdraid;
  cl_vgroups : tab vgroup;
  cl_lvols : tab lvol;
  cl_jobs : tab job;
  cl_vdos : list vdo }.

(** What [update_indices] computes. *)
Record indices := mk_indices {
  ix_broken : bool;                         (* broken_multipath_present *)
  ix_multipath : gmap string (list block);
  ix_drive_block : gmap string block;
  ix_mdraid_block : gmap string block;
  ix_members : gmap string (list block);    (* of mdraids *)
  ix_slashdevs : gmap string block;
  ix_uuids : gmap string mdraid;
  ix_vgnames : gmap string vgroup;
  ix_pvols : gmap string (list pvol);       (* of vgroups *)
  ix_lvols : gmap string (list lvol);       (* of vgroups *)
  ix_lvol_block : gmap string (option block);
  ix_pool_members : gmap string (list lvol);
  ix_cleartext : gmap string block;
  ix_partitions : gmap string (list part);
  ix_path_jobs : gmap string job }.

Definition get_block (c : client) (path : string) : option block := assoc_get path (cl_blocks c).

(** ** Comparing *)

(** Sorting by a function that compares; this sort is stable. *)
Section Sort.
Context {A : Type} (cmp : A -> A -> Z).

Definition before (a b : A) : Prop := cmp a b <= 0.

#[export] Instance before_dec a b : Decision (before a b).
Proof. unfold before. apply _. Defined.

Definition js_sort (l : list A) : list A := merge_sort before l.

End Sort.

Definition block_cmp (a b : block) : Z := bl_number a - bl_number b.

Definition block_number (c : client) (path : string) : Z := match get_block c path with Some b => bl_number b | None => 0 end.

Definition make_block_path_cmp (c : client) (a b : string) : Z := block_number c a - block_number c b.

(** ** Parents *)

Definition or_else {A} (a b : option A) : option A := match a with Some _ => a | None => b end.

Definition get_parent (c : client) (path : string) : option string :=
  let via {X} (key : option string) (table : tab X) : option string :=
    k ← key; match assoc_get k table with Some _ => Some k | None => None end in
  let block := get_block c path in
  or_else (via (pt_table <$> assoc_get path (cl_part c)) (cl_blocks c))
  (or_else (via (bl_crypto <$> block) (cl_blocks c))
  (or_else (via (bl_drive <$> block) (cl_drives c))
  (or_else (via (bl_mdraid <$> block) (cl_mdraids c))
  (or_else (via (assoc_get path (cl_lvm2 c)) (cl_lvols c))
           (via (lv_vgroup <$> assoc_get path (cl_lvols c)) (cl_vgroups c)))))).

(** The topmost object over a path; [None] when the fuel is used up. *)
Fixpoint top_parent (fuel : nat) (c : client) (path : string) : option string :=
  match fuel with
  | O => None
  | S fuel => match get_parent c path with Some parent => top_parent fuel c parent | None => Some path end
  end.

(** ** Indices *)

(** The pattern of most of them: an empty list for each key, then each entry is
    added to the list of its key if there is one. *)
Definition group {X} (keys : list string) (key : X -> string) (entries : list X) : gmap string (list X) :=
  foldl (fun m x => match m !! key x with Some l => <[key x := l ++ [x]]> m | None => m end)
    (foldl (fun m k => <[k := []]> m) ∅ keys) entries.

(** The other pattern: the last entry wins. *)
Definition last_of {X Y} (key : X -> string) (value : X -> Y) (entries : list X) : gmap string Y :=
  foldl (fun m x => <[key x := value x]> m) ∅ entries.

Definition is_multipath_master (b : block) : bool :=
  existsb (fun s => String.prefix "/dev/disk/by-id/dm-uuid-mpath-" (decode_filename s)) (bl_symlinks b).

(** The blocks of drives: the masters, and the members. *)
Definition enter_drive (c : client) (mb : gmap string (list block) * gmap string block) (pb : string * block) :
    gmap string (list block) * gmap string block :=
  let '(members, blocks) := mb in
  let '(path, b) := pb in
  match assoc_get path (cl_part c), members !! bl_drive b with
  | None, Some l =>
      if is_multipath_master b then (members, <[bl_drive b := b]> blocks) else (<[bl_drive b := l ++ [b]]> members, blocks)
  | _, _ => mb
  end.

(** A drive with one member and no master is a normal device. *)
Definition settle_drive (s : bool * gmap string (list block) * gmap string block) (path : string) :
    bool * gmap string (list block) * gmap string block :=
  let '(broken, members, blocks) := s in
  match blocks !! path, members !! path with
  | None, Some [b] => (broken, <[path := []]> members, <[path := b]> blocks)
  | master, Some l =>
      (match master with None => true | Some _ => broken end, <[path := js_sort block_cmp l]> members, blocks)
  | _, None => s
  end.

Definition drive_indices (c : client) : bool * gmap string (list block) * gmap string block :=
  let paths := (cl_drives c).*1 in
  let '(members, blocks) := foldl (enter_drive c) (foldl (fun m k => <[k := []]> m) ∅ paths, ∅) (cl_blocks c) in
  foldl settle_drive (false, members, blocks) paths.

Definition slashdevs_of (b : block) : list string := map decode_filename (bl_device b :: bl_preferred b :: bl_symlinks b).

Definition enter_slashdevs (m : gmap string block) (b : block) : gmap string block :=
  foldl (fun m name => <[name := b]> m) m (slashdevs_of b).

(** The jobs of paths, and of the topmost objects over them. *)
Definition enter_job (fuel : nat) (c : client) (m : gmap string job) (j : job) : gmap string job :=
  foldl (fun m path =>
    let m := <[path := j]> m in
    match top_parent fuel c path with Some top => <[top := j]> m | None => m end) m (jb_objects j).

Section Indices.

(** The order of names, and how deep objects are nested at most. *)
Context (localeCompare : string -> string -> Z) (fuel : nat).

Definition lvol_cmp (a b : lvol) : Z := localeCompare (lv_name a) (lv_name b).
Definition pvol_cmp (c : client) (a b : pvol) : Z := block_number c (pv_path a) - block_number c (pv_path b).
Definition part_cmp (a b : part) : Z := pt_offset a - pt_offset b.

Definition update_indices (c : client) : indices :=
  let '(broken, multipath, drive_block) := drive_indices c in
  let blocks := (cl_blocks c).*2 in
  mk_indices broken multipath drive_block
    (last_of bl_mdraid id (filter (fun b => bl_mdraid b <> "/") blocks))
    (js_sort block_cmp <$> group (cl_mdraids c).*1 bl_mdraid_member blocks)
    (foldl enter_slashdevs ∅ blocks)
    (last_of md_uuid id (cl_mdraids c).*2)
    (last_of vg_name id (cl_vgroups c).*2)
    (js_sort (pvol_cmp c) <$> group (cl_vgroups c).*1 pv_vgroup (cl_pvol c).*2)
    (js_sort lvol_cmp <$> group (cl_vgroups c).*1 lv_vgroup (cl_lvols c).*2)
    (last_of snd (fun pl => get_block c (fst pl)) (cl_lvm2 c))
    (js_sort lvol_cmp <$>
      group (filter (fun pl => lv_type (snd pl) = "pool") (cl_lvols c)).*1 lv_pool (cl_lvols c).*2)
    (last_of bl_crypto id (filter (fun b => bl_crypto b <> "/") blocks))
    (js_sort part_cmp <$> group (cl_ptable c) pt_table (cl_part c).*2)
    (foldl (enter_job fuel c) ∅ (cl_jobs c).*2).

End Indices.

(** ** Overlays

    They are told of changes by lines of JSON; only the last line that is complete
    counts. *)

(** A block of output: what is left in the buffer, and the line. *)
Definition monitor_output (buf output : string) : string * option string :=
  let lines := str_split "010" (buf +:+ output) in
  (default "" (last lines), if (2 <=? length lines)%nat then lines !! (length lines - 2)%nat else None).

Definition vdo_of (name device : string) : vdo := mk_vdo name ("/dev/mapper/" +:+ name) device.

Definition by_dev (l : list vdo) : gmap string vdo := last_of vd_dev id l.
Definition by_backing_dev (l : list vdo) : gmap string vdo := last_of vd_backing id l.

(** The first of the names of a block that is known. *)
Definition find_by {X} (known : gmap string X) (b : block) : option X :=
  let check encoded := known !! decode_filename encoded in
  or_else (check (bl_device b)) (foldr (fun s r => or_else (check s) r) None (bl_symlinks b)).

Definition find_by_block (c : client) (b : block) : option vdo := find_by (by_dev (cl_vdos c)) b.
Definition find_by_backing_block (c : client) (b : block) : option vdo := find_by (by_backing_dev (cl_vdos c)) b.

(** *** Samplers *)

Record sampler := mk_sampler { sa_instances : list (list string); sa_data : gmap string (gmap nat Z) }.

Definition handle_meta (instances : list (list string)) : sampler :=
  mk_sampler instances (foldl (fun m i => <[i := ∅]> m) ∅ (concat instances)).

(** One value: [None] is null.  [None] as the result throws: there is no such
    instance. *)
Definition handle_value (m i : nat) (v : option Z) (s : sampler * bool) : option (sampler * bool) :=
  match v with
  | None => Some s
  | Some v =>
      instances ← sa_instances (fst s) !! m;
      name ← instances !! i;
      row ← sa_data (fst s) !! name;
      Some (mk_sampler (sa_instances (fst s)) (<[name := <[m := v]> row]> (sa_data (fst s))), true)
  end.

(** With whether anything has changed. *)
Definition handle_data (msg : list (list (list (option Z)))) (s : sampler) : option (sampler * bool) :=
  foldl (fun s metrics =>
    foldl (fun s mi => foldl (fun s iv => s ← s; handle_value (fst mi) (fst iv) (snd iv) s) s (imap pair (snd mi))) s (imap pair metrics))
    (Some (s, false)) msg.

(** ** Names that are shown *)

Definition block_name (b : block) : string := decode_filename (bl_preferred b).

Definition drive_name (d : drive) : string :=
  let name := str_join " " (filter (fun s => s <> "") [dr_vendor d; dr_model d]) in
  if negb (String.eqb (dr_serial d) "") then name +:+ " (" +:+ dr_serial d +:+ ")"
  else if negb (String.eqb (dr_wwn d) "") then name +:+ " (" +:+ dr_wwn d +:+ ")"
  else name.

Section Names.
Context (gettext : string -> string) (format : string -> list string -> string) (hostname : option string).

(** With the host that has made it, unless that is this one or not known. *)
Definition mdraid_name (m : mdraid) : string :=
  match str_split ":" (md_name m) with
  | [host; name] =>
      if bool_decide (hostname = None) || bool_decide (hostname = Some host) then name
      else format (gettext "$name (from $host)") [name; host]
  | _ => md_name m
  end.

(** ** Where a block belongs to *)

Record link := mk_link { li_location : list string; li_format : string; li_link : string }.

(** To the table of a partition, or to the device under an encrypted one. *)
Inductive hop := HopTable (path : string) | HopCrypto (path : string).

Definition next_hop (c : client) (path : string) : option hop :=
  let table := pt_table <$> assoc_get path (cl_part c) in
  match table with
  | Some t =>
      if bool_decide (t ∈ cl_ptable c) then Some (HopTable t)
      else b ← get_block c path; _ ← get_block c (bl_crypto b); Some (HopCrypto (bl_crypto b))
  | None => b ← get_block c path; _ ← get_block c (bl_crypto b); Some (HopCrypto (bl_crypto b))
  end.

(** Is it a partition, is it encrypted, and where it ends. *)
Fixpoint base_block (fuel : nat) (c : client) (path : string) (is_part is_crypt : bool) : option (bool * bool * string) :=
  match fuel with
  | O => None
  | S fuel =>
      match next_hop c path with
      | Some (HopTable path) => base_block fuel c path true is_crypt
      | Some (HopCrypto path) => base_block fuel c path is_part true
      | None => Some (is_part, is_crypt, path)
      end
  end.

Definition lvol_of (c : client) (path : string) : option lvol :=
  l ← assoc_get path (cl_lvm2 c); assoc_get l (cl_lvols c).

(** [replace(/^\/dev\//, "")] *)
Definition without_dev (name : string) : string :=
  if String.prefix "/dev/" name then String.substring 5 (String.length name) name else name.

Definition link_format (is_lvol is_part is_crypt : bool) : string :=
  if is_lvol && is_crypt then gettext "Encrypted Logical Volume of $0"
  else if is_part && is_crypt then gettext "Encrypted Partition of $0"
  else if is_lvol then gettext "Logical Volume of $0"
  else if is_part then gettext "Partition of $0"
  else if is_crypt then gettext "Encrypted $0"
  else "$0".

(** Nothing when there is no such block. *)
Definition get_block_link_parts (fuel : nat) (c : client) (path : string) : option link :=
  '(is_part, is_crypt, path) ← base_block fuel c path false false;
  b ← get_block c path;
  let form := link_format (bool_decide (is_Some (lvol_of c path))) is_part is_crypt in
  Some (match assoc_get (bl_mdraid b) (cl_mdraids c) with
        | Some m => mk_link ["mdraid"; md_uuid m] form (format (gettext "RAID Device $0") [mdraid_name m])
        | None =>
            match l ← lvol_of c path; assoc_get (lv_vgroup l) (cl_vgroups c) with
            | Some vg => mk_link ["vg"; vg_name vg] form (format (gettext "Volume Group $0") [vg_name vg])
            | None =>
                match find_by_block c b with
                | Some v => mk_link ["vdo"; vd_name v] form (format (gettext "VDO Device $0") [vd_name v])
                | None =>
                    mk_link [without_dev (block_name b)] form
                      (match assoc_get (bl_drive b) (cl_drives c) with Some d => drive_name d | None => block_name b end)
                end
            end
        end).

End Names.

(** ** Partitions *)

(** An entry of the list: a block may be missing. *)
Inductive entry :=
  | Free (start size : Z)
  | Block (p : part) (b : option block)
  | Container (p : part) (b : option block) (entries : list entry).

(** 3 MiB *)
Definition small : Z := 3 * 1024 * 1024.

Definition append_free_space (start size : Z) (l : list entry) : list entry :=
  if small <=? size then l ++ [Free start size] else l.

(** The partitions of a level: those of the first are not contained, those of the
    second are. *)
Definition of_level (level : nat) (p : part) : bool :=
  match level with
  | O => negb (pt_contained p)
  | 1%nat => pt_contained p
  | _ => true
  end.

Definition fits (first size : Z) (p : part) : bool :=
  negb ((pt_offset p <? first) || (first + size <? pt_offset p + pt_size p)).

(** The loop: [None] when the levels are used up, as they are for a container that
    is contained in itself.  [blocks[path] === null] never holds. *)
Fixpoint process_level (fuel : nat) (c : client) (partitions : list part) (level : nat) (first size : Z) : option (list entry) :=
  match fuel with
  | O => None
  | S fuel =>
      let body s p :=
        '(l, last_end) ← s;
        if of_level level p && fits first size p then
          let l := append_free_space last_end (pt_offset p - last_end) l in
          let b := get_block c (pt_path p) in
          if pt_container p then
            entries ← process_level fuel c partitions (S level) (pt_offset p) (pt_size p);
            Some (l ++ [Container p b entries], pt_offset p + pt_size p)
          else Some (l ++ [Block p b], pt_offset p + pt_size p)
        else Some (l, last_end) in
      '(l, last_end) ← foldl body (Some ([], first)) partitions;
      Some (append_free_space last_end (first + size - last_end) l)
  end.

(** A container in a container is looked into like the outer one, for ever, unless it
    is the last; [None] throws when the block has no table. *)
Definition get_partitions (fuel : nat) (c : client) (ix : indices) (b : block) : option (list entry) :=
  partitions ← ix_partitions ix !! bl_path b;
  process_level fuel c partitions 0 0 (bl_size b).

(** ** Space for something new *)

Definition has_fs_label (c : client) (b : block) (pv : option pvol) : bool :=
  if String.eqb (bl_usage b) "" then false
  else negb (String.eqb (bl_type b) "LVM2_member" &&
             match pv with Some pv => bool_decide (assoc_get (pv_vgroup pv) (cl_vgroups c) = None) | None => true end).

Definition is_mpath_member (c : client) (ix : indices) (b : block) : bool :=
  match assoc_get (bl_drive b) (cl_drives c) with
  | None => false
  | Some _ =>
      match ix_drive_block ix !! bl_drive b with
      | None => true                          (* a broken multipath drive *)
      | Some _ => existsb (fun m => String.eqb (bl_path m) (bl_path b)) (default [] (ix_multipath ix !! bl_drive b))
      end
  end.

Definition is_free (c : client) (ix : indices) (path : string) : bool :=
  match get_block c path with
  | None => false
  | Some b =>
      negb (bl_ignore b) && (0 <? bl_size b) && negb (has_fs_label c b (assoc_get path (cl_pvol c))) &&
      negb (is_mpath_member c ix b) && negb (bool_decide (is_Some (find_by_backing_block c b))) &&
      negb (bool_decide (path ∈ cl_ptable c)) &&
      negb (match assoc_get path (cl_part c) with Some p => pt_container p | None => false end)
  end.

Inductive space :=
  | SpaceBlock (b : block)
  | SpaceFree (b : block) (start size : Z).

(** The free space of a table, between the partitions of the first level. *)
Definition free_spaces (b : block) (l : list entry) : list space :=
  omap (fun e => match e with Free start size => Some (SpaceFree b start size) | _ => None end) l.

(** Without the descriptions; [None] throws. *)
Definition get_available_spaces (fuel : nat) (c : client) (ix : indices) : option (list space) :=
  let blocks := js_sort (make_block_path_cmp c) (filter (fun path => is_free c ix path = true) (cl_blocks c).*1) in
  frees ← foldr (fun path r =>
            r ← r;
            b ← get_block c path;
            l ← get_partitions fuel c ix b;
            Some (free_spaces b l ++ r)) (Some []) (cl_ptable c);
  Some (omap (fun path => SpaceBlock <$> get_block c path) blocks ++ frees).

Inductive space_effect := UseBlock (path : string) | CreatePartition (table : string) (start size : Z).

Definition prepare_available_spaces (spaces : list space) : list space_effect :=
  map (fun s => match s with
                | SpaceBlock b => UseBlock (bl_path b)
                | SpaceFree b start size => CreatePartition (bl_path b) start size
                end) spaces.

(** ** Uses *)

Definition get_children (c : client) (ix : indices) (path : string) : list string :=
  match ix_cleartext ix !! path with Some b => [bl_path b] | None => [] end ++
  (if bool_decide (path ∈ cl_ptable c)
   then omap (fun p => if pt_container p then None else Some (pt_path p)) (default [] (ix_partitions ix !! path)) else []) ++
  match assoc_get path (cl_part c) with
  | Some p =>
      if pt_container p
      then omap (fun p => if pt_contained p then Some (pt_path p) else None) (default [] (ix_partitions ix !! pt_table p))
      else []
  | None => []
  end ++
  match assoc_get path (cl_vgroups c) with
  | Some _ =>
      omap (fun l => match ix_lvol_block ix !! lv_path l with Some (Some b) => Some (bl_path b) | _ => None end)
        (default [] (ix_lvols ix !! path))
  | None => []
  end.

Inductive use :=
  | Mounted (b : option block) (f : fsys)
  | RaidMember (b : block) (m : mdraid)
  | PhysicalVolume (b : option block) (p : pvol) (vg : vgroup)
  | VdoBacking (b : block) (v : vdo).

(** The uses of an object itself. *)
Definition own_usage (c : client) (path : string) : list use :=
  let b := get_block c path in
  match assoc_get path (cl_fsys c) with
  | Some f => if bool_decide (fs_mounts f = []) then [] else [Mounted b f]
  | None => []
  end ++
  match b with
  | Some b => match assoc_get (bl_mdraid_member b) (cl_mdraids c) with Some m => [RaidMember b m] | None => [] end
  | None => []
  end ++
  match assoc_get path (cl_pvol c) with
  | Some p => match assoc_get (pv_vgroup p) (cl_vgroups c) with Some vg => [PhysicalVolume b p vg] | None => [] end
  | None => []
  end ++
  match b with
  | Some b => match find_by_backing_block c b with Some v => [VdoBacking b v] | None => [] end
  | None => []
  end.

(** The uses of all that is on it come first. *)
Fixpoint get_usage (fuel : nat) (c : client) (ix : indices) (path : string) : option (list use) :=
  match fuel with
  | O => None
  | S fuel =>
      below ← foldr (fun child r => r ← r; u ← get_usage fuel c ix child; Some (u ++ r)) (Some []) (get_children c ix path);
      Some (below ++ own_usage c path)
  end.

(** What can be torn down, and what cannot. *)
Inductive verdict := Teardown | Blocking.

#[export] Instance verdict_eq : EqDecision verdict.
Proof. solve_decision. Defined.

Definition judge (u : use) : verdict :=
  match u with
  | Mounted _ _ => Teardown
  | RaidMember b m =>
      match list_find (fun a => fst a = bl_path b) (md_active m) with
      | Some (_, (_, slot)) => if slot <? 0 then Teardown else Blocking
      | None => Blocking
      end
  | PhysicalVolume _ p _ => if pv_free p =? pv_size p then Teardown else Blocking
  | VdoBacking _ _ => Blocking
  end.

(** The names that are shown: of the block, and of what uses it. *)
Definition use_names (hostname_name : mdraid -> string) (u : use) : string * string :=
  let name b := match b with Some b => block_name b | None => "" end in
  match u with
  | Mounted b f => (name b, decode_filename (default "" (head (fs_mounts f))))
  | RaidMember b m => (block_name b, hostname_name m)
  | PhysicalVolume b p vg => (name b, vg_name vg)
  | VdoBacking b v => (block_name b, vd_name v)
  end.

Record active_usage := mk_active { au_raw : list use; au_teardown : option (list use); au_blocking : option (list use) }.

Definition not_empty {A} (l : list A) : option (list A) := match l with [] => None | _ => Some l end.

Definition judged (v : verdict) (l : list use) : list use :=
  filter (fun u => judge u = v) l.

Definition get_active_usage (fuel : nat) (c : client) (ix : indices) (path : string) : option active_usage :=
  usage ← get_usage fuel c ix path;
  Some (mk_active usage (not_empty (judged Teardown usage)) (not_empty (judged Blocking usage))).

(** ** Tearing down *)

Inductive teardown_effect :=
  | Unmount (path : string)
  | RemoveMember (raid path : string)
  | RemoveVolume (vg path : string)
  | DeleteGroup (vg : string).

Definition block_path (b : option block) : string := match b with Some b => bl_path b | None => "" end.

(** The volumes that are to be removed, by their group. *)
Definition by_vgroup (l : list use) : list (string * list string) :=
  foldl (fun m u => match u with
                    | PhysicalVolume b _ vg =>
                        assoc_set (vg_path vg) (default [] (assoc_get (vg_path vg) m) ++ [block_path b]) m
                    | _ => m
                    end) [] l.

(** A group of which all volumes are removed is deleted. *)
Definition handle_vg (ix : indices) (e : string * list string) : list teardown_effect :=
  if bool_decide (length e.2 = length (default [] (ix_pvols ix !! e.1))) then [DeleteGroup e.1]
  else map (RemoveVolume e.1) e.2.

Definition teardown_active_usage (ix : indices) (usage : active_usage) : list teardown_effect :=
  omap (fun u => match u with
                 | Mounted _ f => if bool_decide (fs_mounts f = []) then None else Some (Unmount (fs_path f))
                 | _ => None
                 end) (au_raw usage) ++
  omap (fun u => match u with RaidMember b m => Some (RemoveMember (md_path m) (bl_path b)) | _ => None end) (au_raw usage) ++
  concat (map (handle_vg ix) (by_vgroup (au_raw usage))).

(** [get_config] *)
Definition get_config (config : option jval) (name : string) (def : jval) : jval :=
  match config with
  | Some config => match jget config name with JUndef => def | v => v end
  | None => def
  end.
