(* ===== verification/StorageSpec.v ===== *)
(** * Free space is what no partition has

    Names of files survive, the output of monitors can come in any blocks, and
    indices are what a scan finds.  The list of partitions of a block offers a range
    of at least 3 MiB exactly when it lies on the disk and meets no partition. *)

From stdpp Require Import sorting.
From S2P Require Import Prelude Location Base64 Uri Utf8 Storage.

(** ** Names of files *)

Lemma b64char_is_byte n : 0 <= n < 64 -> is_byte (b64char n).
Proof.
  intros Hn. unfold b64char, uint6_to_b64, is_byte.
  repeat match goal with |- context [if ?b then _ else _] => destruct b eqn:? end; lia.
Qed.

Lemma rfc_bytes n : forall l, (length l <= n)%nat -> Forall Base64.is_byte l -> Forall is_byte (rfc_encode l).
Proof.
  induction n as [|n IH]; intros l Hn Hl; [destruct l; [constructor|cbn in Hn; lia]|].
  destruct l as [|a [|b [|d l]]]; cbn [rfc_encode]; [constructor|..].
  - apply Forall_cons in Hl as [Ha _]. unfold Base64.is_byte in Ha.
    repeat apply Forall_cons_2; try (apply b64char_is_byte; euclid); try constructor; unfold is_byte; lia.
  - apply Forall_cons in Hl as [Ha [Hb _]%Forall_cons]. unfold Base64.is_byte in *.
    repeat apply Forall_cons_2; try (apply b64char_is_byte; euclid); try constructor; unfold is_byte; lia.
  - apply Forall_cons in Hl as [Ha [Hb [Hd Hl]%Forall_cons]%Forall_cons]. unfold Base64.is_byte in *.
    apply Forall_app. split; [|apply IH; [cbn in Hn; lia|done]]. unfold group3.
    repeat apply Forall_cons_2; try (apply b64char_is_byte; euclid); constructor.
Qed.

(** The name of a file survives the way to storaged and back: encoding appends the
    zero byte that decoding takes away, for all names in UTF-8 that base64 has room
    for. *)
Lemma filename_roundtrip name :
  utf8_valid (bytes_of name) -> zlen (base64_encode (bytes_of name ++ [0])) * 3 + 1 < 2 ^ 31 ->
  decode_filename (encode_filename name) = name.
Proof.
  intros Hv Hl. unfold decode_filename, encode_filename. rewrite utf8_encode_bytes.
  assert (Forall Base64.is_byte (bytes_of name ++ [0])) as Hb.
  { apply Forall_app. split; [apply bytes_of_byte|]. repeat constructor; lia. }
  assert (Forall is_byte (base64_encode (bytes_of name ++ [0]))) as He by (rewrite encode_is_rfc by done; by apply (rfc_bytes (length (bytes_of name ++ [0])))).
  rewrite bytes_of_of by done. rewrite decode_encode by done. rewrite removelast_last.
  pose proof (decode_prefix false false (bytes_of name) [] Hv (or_introl eq_refl)) as Hd. rewrite app_nil_r in Hd.
  unfold decode. cbn [d_buffer d_fatal]. rewrite Hd. cbn. apply of_bytes_of.
Qed.

Example filename_sample : decode_filename (encode_filename "/dev/mapper/vg-home") = "/dev/mapper/vg-home".
Proof. vm_compute. reflexivity. Qed.

(** ** Monitors *)

(** The last piece of a text is split on with what comes after it. *)
Lemma split_last c a : exists ps p, split_on c a = ps ++ [p] /\ forall b, split_on c (a ++ b) = ps ++ split_on c (p ++ b).
Proof.
  induction a as [|x a (ps & p & Ea & Hb)]; [by exists [], []|]. cbn [split_on app]. destruct (x =? c) eqn:Ex.
  - exists ([] :: ps), p. rewrite Ea. split; [done|]. intros b. by rewrite Hb.
  - rewrite Ea. destruct ps as [|q ps].
    + exists [], (x :: p). split; [done|]. intros b. cbn [app]. rewrite Hb. cbn [app split_on]. by rewrite Ex.
    + exists ((x :: q) :: ps), p. split; [done|]. intros b. rewrite Hb. done.
Qed.

Lemma str_split_last (c : ascii) a : exists ps p, str_split c a = ps ++ [p] /\
  forall b, str_split c (a +:+ b) = ps ++ str_split c (p +:+ b).
Proof.
  unfold str_split. destruct (split_last (ord c) (bytes_of a)) as (ps & p & Ea & Hb).
  assert (Forall is_byte p) as Hp.
  { assert (forall l, Forall is_byte l -> Forall (Forall is_byte) (split_on (ord c) l)) as H.
    { induction 1 as [|x l Hx Hl IH]; cbn; [by apply Forall_singleton, Forall_nil|].
      destruct (x =? ord c); [by apply Forall_cons|].
      destruct (split_on (ord c) l); [by apply Forall_singleton, Forall_singleton|].
      apply Forall_cons in IH as [? ?]. apply Forall_cons. split; [by apply Forall_cons|done]. }
    specialize (H _ (bytes_of_byte a)). rewrite Ea in H. apply Forall_app in H as [_ H]. by apply Forall_cons in H as [H _]. }
  exists (map of_bytes ps), (of_bytes p). rewrite Ea, map_app. split; [done|]. intros b.
  by rewrite bytes_of_app, Hb, map_app, bytes_of_app, (bytes_of_of p).
Qed.

(** A monitor that is told its output block by block, with the last line so far. *)
Definition monitor_run (outputs : list string) : string * option string :=
  foldl (fun s output => let '(buf, line) := monitor_output (fst s) output in (buf, or_else line (snd s))) ("", None) outputs.

(** The last complete line, and what comes after it. *)
Definition last_line (text : string) : string * option string := monitor_output "" text.

Lemma last_two {A} (l : list A) x y : last (l ++ [x; y]) = Some y /\ (l ++ [x; y]) !! (length (l ++ [x; y]) - 2)%nat = Some x.
Proof.
  split; [by replace (l ++ [x; y]) with ((l ++ [x]) ++ [y]) by (by rewrite <- app_assoc); rewrite last_snoc|].
  rewrite length_app. cbn. replace (length l + 2 - 2)%nat with (length l) by lia. by rewrite lookup_app_r, Nat.sub_diag.
Qed.

(** Blocks do not matter: after any output a monitor has seen the last complete line of
    all of it. *)
Lemma monitor_blocks outputs : monitor_run outputs = last_line (foldr String.app "" outputs).
Proof.
  assert (forall outputs s text, s = last_line text ->
    foldl (fun s output => let '(buf, line) := monitor_output (fst s) output in (buf, or_else line (snd s))) s outputs =
    last_line (text +:+ foldr String.app "" outputs)) as H.
  { clear. induction outputs as [|o outputs IH]; intros s text ->; cbn [foldl foldr]; [by rewrite str_app_nil_r|].
    rewrite <- str_app_assoc. apply IH. unfold last_line, monitor_output. cbn [String.app].
    destruct (str_split_last "010" text) as (ps & p & Et & Hb). rewrite Et, last_snoc. cbn [default from_option fst snd].
    rewrite (Hb o). destruct (str_split_last "010" (p +:+ o)) as (qs & q & Eo & _). unfold id. rewrite Eo, last_snoc.
    rewrite (app_assoc ps), last_snoc. f_equal. rewrite !length_app. cbn [length].
    destruct qs as [|r qs] using rev_ind.
    - cbn [app length Nat.add]. rewrite app_nil_r. change (2 <=? 1)%nat with false. cbn [or_else]. rewrite Nat.add_0_r.
      destruct (Nat.leb_spec 2 (length ps + 1)); [|done]. by rewrite !lookup_app_l by lia.
    - clear IHqs. rewrite !(proj2 (Nat.leb_le _ _)) by (rewrite ?length_app; cbn; lia).
      rewrite <- !app_assoc. cbn [app]. destruct (last_two qs r q) as [_ E1]. rewrite length_app in E1. cbn [length] in E1.
      rewrite length_app. cbn [length]. replace (length qs + 1 + 1 - 2)%nat with (length qs + 2 - 2)%nat by lia. rewrite E1. cbn [or_else].
      rewrite (app_assoc ps). destruct (last_two (ps ++ qs) r q) as [_ E2]. rewrite !length_app in E2. cbn [length] in E2.
      rewrite <- E2. destruct (Nat.leb_spec 2 (length ps + (length qs + 1) + 1)); [f_equal; lia|lia]. }
  unfold monitor_run. rewrite (H outputs ("", None) ""); [done|reflexivity].
Qed.

(** ** Groups *)

Lemma init_lookup {X} (keys : list string) (m : gmap string (list X)) k :
  foldl (fun m k => <[k := []]> m) m keys !! k = if decide (k ∈ keys) then Some [] else m !! k.
Proof.
  revert m. induction keys as [|k' keys IH]; intros m; cbn [foldl]; [done|]. rewrite IH.
  destruct (decide (k ∈ keys)) as [Hk|Hk]; [by rewrite decide_True by (by right)|]. destruct (decide (k = k')) as [->|Hne].
  - by rewrite lookup_insert_eq, decide_True by (by left).
  - rewrite lookup_insert_ne, decide_False; [done| |done]. by intros [?|?]%elem_of_cons.
Qed.

(** A group is what a scan of the entries finds. *)
Lemma group_lookup {X} keys (key : X -> string) entries k :
  group keys key entries !! k = if decide (k ∈ keys) then Some (filter (fun x => key x = k) entries) else None.
Proof.
  unfold group. assert (forall m : gmap string (list X), foldl (fun m x => match m !! key x with Some l => <[key x := l ++ [x]]> m | None => m end) m entries !! k =
    (fun l => l ++ filter (fun x => key x = k) entries) <$> (m !! k)) as H.
  { induction entries as [|x entries IH]; intros m; cbn [foldl].
    - rewrite filter_nil. destruct (m !! k); cbn; [by rewrite app_nil_r|done].
    - rewrite IH, filter_cons. destruct (decide (key x = k)) as [<-|Hne].
      + destruct (m !! key x) as [l|] eqn:E; [|by rewrite E]. rewrite lookup_insert_eq. cbn. by rewrite <- app_assoc.
      + destruct (m !! key x); [by rewrite lookup_insert_ne|done]. }
  rewrite H, init_lookup. case_decide; [done|by rewrite lookup_empty].
Qed.

(** The sort by a comparison that is the difference of numbers. *)
Section SortBy.
Context {A : Type} (num : A -> Z).

#[local] Instance by_total : Total (before (fun a b => num a - num b)).
Proof. intros a b. unfold before. destruct (Z.le_ge_cases (num a) (num b)); [left|right]; lia. Qed.

#[local] Instance by_trans : Transitive (before (fun a b => num a - num b)).
Proof. intros a b d. unfold before. lia. Qed.

Lemma sort_by l : StronglySorted (before (fun a b => num a - num b)) (js_sort (fun a b => num a - num b) l) /\
  js_sort (fun a b => num a - num b) l ≡ₚ l.
Proof. split; [apply (StronglySorted_merge_sort _)|apply merge_sort_Permutation]. Qed.

End SortBy.

(** ** Levels *)

(** The partitions of a level. *)
Definition visible (level : nat) (first size : Z) (ps : list part) : list part :=
  filter (fun p => of_level level p && fits first size p = true) ps.

(** What is between partitions. *)
Fixpoint gaps (last : Z) (ps : list part) (stop : Z) : list (Z * Z) :=
  match ps with
  | [] => [(last, stop - last)]
  | p :: ps => (last, pt_offset p - last) :: gaps (pt_offset p + pt_size p) ps stop
  end.

Definition frees (l : list entry) : list (Z * Z) :=
  omap (fun e => match e with Free start size => Some (start, size) | _ => None end) l.

Definition shown (l : list entry) : list part :=
  omap (fun e => match e with Free _ _ => None | Block p _ | Container p _ _ => Some p end) l.

Definition big (g : Z * Z) : Prop := small <= snd g.

#[export] Instance big_dec g : Decision (big g).
Proof. unfold big. apply _. Defined.

Lemma frees_append start size l :
  frees (append_free_space start size l) = frees l ++ filter big [(start, size)] /\
  shown (append_free_space start size l) = shown l /\
  forall p b es, Container p b es ∈ append_free_space start size l <-> Container p b es ∈ l.
Proof.
  unfold append_free_space. rewrite filter_cons, filter_nil. unfold big. cbn [snd]. destruct (Z.leb_spec small size).
  - rewrite decide_True by done. unfold frees, shown. rewrite !omap_app. cbn. rewrite app_nil_r.
    split; [done|]. split; [done|]. intros. rewrite elem_of_app, list_elem_of_singleton. naive_solver.
  - rewrite decide_False by lia. by rewrite app_nil_r.
Qed.

Section Level.
Context (c : client) (partitions : list part).

(** One round of the loop. *)
Definition round (fuel level : nat) (first size : Z) (s : option (list entry * Z)) (p : part) : option (list entry * Z) :=
  '(l, last_end) ← s;
  if of_level level p && fits first size p then
    let l := append_free_space last_end (pt_offset p - last_end) l in
    let b := get_block c (pt_path p) in
    if pt_container p then
      entries ← process_level fuel c partitions (S level) (pt_offset p) (pt_size p);
      Some (l ++ [Container p b entries], pt_offset p + pt_size p)
    else Some (l ++ [Block p b], pt_offset p + pt_size p)
  else Some (l, last_end).

Lemma process_level_eq fuel level first size :
  process_level (S fuel) c partitions level first size =
  ('(l, last_end) ← foldl (round fuel level first size) (Some ([], first)) partitions;
   Some (append_free_space last_end (first + size - last_end) l)).
Proof. reflexivity. Qed.

Lemma rounds_fail fuel level first size ps : foldl (round fuel level first size) None ps = None.
Proof. by induction ps. Qed.

(** The list of a level: its gaps and its partitions; what containers contain is the
    next level. *)
Record level_list (fuel level : nat) (first size : Z) (l : list entry) (stop : Z) (done_ : list part) (upto : Z) : Prop := {
  ll_frees : forall ps, frees l ++ filter big (gaps upto ps stop) = filter big (gaps first (done_ ++ ps) stop);
  ll_shown : shown l = done_;
  ll_containers : forall p b es, Container p b es ∈ l ->
    p ∈ done_ /\ pt_container p = true /\ process_level fuel c partitions (S level) (pt_offset p) (pt_size p) = Some es }.

Lemma rounds_list fuel level first size stop ps : forall l upto done_ l' upto',
  level_list fuel level first size l stop done_ upto ->
  foldl (round fuel level first size) (Some (l, upto)) ps = Some (l', upto') ->
  level_list fuel level first size l' stop (done_ ++ visible level first size ps) upto'.
Proof.
  induction ps as [|p ps IH]; intros l upto done_ l' upto' Hl Hf; cbn [foldl] in Hf.
  - injection Hf as <- <-. unfold visible. by rewrite filter_nil, app_nil_r.
  - unfold visible. rewrite filter_cons. cbn [round mbind option_bind] in Hf.
    destruct (of_level level p && fits first size p) eqn:Ev; [|rewrite decide_False by done; by apply (IH l upto)].
    rewrite decide_True by done. cbv zeta in Hf.
    destruct (frees_append upto (pt_offset p - upto) l) as (Ef & Es & Ec). destruct Hl as [Hfr Hsh Hco].
    set (l1 := append_free_space upto (pt_offset p - upto) l) in *.
    assert (forall e, (exists b, e = Block p b) \/ (exists b es, e = Container p b es /\ pt_container p = true /\
        process_level fuel c partitions (S level) (pt_offset p) (pt_size p) = Some es) ->
      level_list fuel level first size (l1 ++ [e]) stop (done_ ++ [p]) (pt_offset p + pt_size p)) as Hstep.
    { intros e He. assert (frees [e] = [] /\ shown [e] = [p]) as [E1 E2] by (destruct He as [[b ->]|(b & es & -> & _)]; done).
      split.
      - intros qs. unfold frees in *. rewrite omap_app. rewrite E1, app_nil_r, Ef, <- app_assoc. cbn [app].
        rewrite <- (app_assoc done_). cbn [app]. rewrite <- (Hfr (p :: qs)). cbn [gaps]. f_equal.
        rewrite (filter_cons _ _ (gaps _ _ _)), filter_cons, filter_nil. by case_decide.
      - unfold shown in *. rewrite omap_app. by rewrite E2, Es, Hsh.
      - intros q b es. rewrite elem_of_app, list_elem_of_singleton, Ec. intros [H|H].
        + destruct (Hco q b es H) as (? & ? & ?). split; [set_solver|done].
        + destruct He as [[b' ->]|(b' & es' & -> & ? & ?)]; [done|]. injection H as -> -> ->. split; [set_solver|done]. }
    destruct (pt_container p) eqn:Ep.
    + destruct (process_level fuel c partitions (S level) (pt_offset p) (pt_size p)) as [es|] eqn:Epl; [|by rewrite rounds_fail in Hf].
      cbn [mbind option_bind] in Hf. replace (done_ ++ p :: filter _ ps) with ((done_ ++ [p]) ++ visible level first size ps)
        by (rewrite <- app_assoc; done).
      eapply IH; [|exact Hf]. apply Hstep. right. by exists (get_block c (pt_path p)), es.
    + replace (done_ ++ p :: filter _ ps) with ((done_ ++ [p]) ++ visible level first size ps) by (rewrite <- app_assoc; done).
      eapply IH; [|exact Hf]. apply Hstep. left. by exists (get_block c (pt_path p)).
Qed.

Lemma process_level_list fuel level first size l : process_level (S fuel) c partitions level first size = Some l ->
  let vs := visible level first size partitions in
  frees l = filter big (gaps first vs (first + size)) /\ shown l = vs /\
  forall p b es, Container p b es ∈ l ->
    p ∈ vs /\ pt_container p = true /\ process_level fuel c partitions (S level) (pt_offset p) (pt_size p) = Some es.
Proof.
  rewrite process_level_eq. destruct (foldl _ _ partitions) as [[l0 upto]|] eqn:E; [|done]. cbn [mbind option_bind]. intros [= <-].
  assert (level_list fuel level first size [] (first + size) [] first) as H0 by (split; [done|done|intros ? ? ? []%not_elem_of_nil]).
  destruct (rounds_list _ _ _ _ _ partitions _ _ _ _ _ H0 E) as [Hf Hs Hc]. cbn [app] in *.
  destruct (frees_append upto (first + size - upto) l0) as (Ef & Es & Ec). split; [|split].
  - rewrite Ef. specialize (Hf []). cbn [gaps] in Hf. by rewrite app_nil_r in Hf.
  - by rewrite Es.
  - intros p b es. rewrite Ec. apply Hc.
Qed.

(** The loop comes to its end when all containers do. *)
Lemma process_level_total fuel level first size :
  (forall p, p ∈ partitions -> of_level level p = true -> pt_container p = true ->
     is_Some (process_level fuel c partitions (S level) (pt_offset p) (pt_size p))) ->
  is_Some (process_level (S fuel) c partitions level first size).
Proof.
  intros H. rewrite process_level_eq. assert (forall ps l upto, (forall p, p ∈ ps -> p ∈ partitions) ->
    is_Some (foldl (round fuel level first size) (Some (l, upto)) ps)) as Hr.
  { induction ps as [|p ps IH]; intros l upto Hps; cbn [foldl]; [by eexists|]. cbn [round mbind option_bind].
    destruct (of_level level p && fits first size p) eqn:Ev; [|apply IH; set_solver]. apply andb_true_iff in Ev as [Ev _]. cbv zeta.
    destruct (pt_container p) eqn:Ep; [|apply IH; set_solver].
    destruct (H p ltac:(set_solver) Ev Ep) as [es ->]. apply IH. set_solver. }
  destruct (Hr partitions [] first (fun p H => H)) as [[l upto] ->]. by eexists.
Qed.

End Level.

(** ** Gaps *)

(** One after the other, with something in each. *)
Fixpoint chained (from : Z) (ps : list part) : Prop :=
  match ps with
  | [] => True
  | p :: ps => from <= pt_offset p /\ 0 < pt_size p /\ chained (pt_offset p + pt_size p) ps
  end.

(** The range has nothing of the partition. *)
Definition apart (s n : Z) (p : part) : Prop := pt_offset p + pt_size p <= s \/ s + n <= pt_offset p.

Lemma chained_later from from' ps : from' <= from -> chained from ps -> chained from' ps.
Proof. destruct ps; cbn; [done|]. intros ? (? & ? & ?). split; [lia|done]. Qed.

Lemma chained_from from ps p : chained from ps -> p ∈ ps -> from <= pt_offset p.
Proof.
  revert from. induction ps as [|q ps IH]; intros from Hc; [by intros ?%not_elem_of_nil|]. cbn in Hc. destruct Hc as (? & ? & Hc).
  rewrite elem_of_cons. intros [->|Hp]; [done|]. specialize (IH _ Hc Hp). lia.
Qed.

(** A range lies in a gap exactly when it is apart from all partitions. *)
Lemma gaps_exact s n ps : 0 < n -> forall from stop, chained from ps -> (forall p, p ∈ ps -> pt_offset p + pt_size p <= stop) ->
  (exists g, g ∈ gaps from ps stop /\ fst g <= s /\ s + n <= fst g + snd g) <->
  (from <= s /\ s + n <= stop /\ forall p, p ∈ ps -> apart s n p).
Proof.
  intros Hn. induction ps as [|p ps IH]; intros from stop Hc Hs; cbn [gaps].
  - split.
    + intros (g & ->%list_elem_of_singleton & H1 & H2). cbn in *. split; [lia|]. split; [lia|]. by intros ? ?%not_elem_of_nil.
    + intros (H1 & H2 & _). exists (from, stop - from). split; [by apply list_elem_of_singleton|]. cbn. lia.
  - cbn in Hc. destruct Hc as (Hf & Hp & Hc). pose proof (Hs p ltac:(by left)) as Hps.
    assert (forall q, q ∈ ps -> pt_offset q + pt_size q <= stop) as Hs' by (intros q ?; apply Hs; by right).
    specialize (IH _ stop Hc Hs'). split.
    + intros (g & Hg & H1 & H2). apply elem_of_cons in Hg as [->|Hg].
      * cbn in *. split; [lia|]. split; [lia|]. intros q [->|Hq]%elem_of_cons; [right; lia|]. right.
        pose proof (chained_from _ _ q Hc Hq). lia.
      * destruct (proj1 IH (ex_intro _ g (conj Hg (conj H1 H2)))) as (H3 & H4 & H5). split; [lia|]. split; [lia|].
        intros q [->|Hq]%elem_of_cons; [left; lia|by apply H5].
    + intros (H1 & H2 & H3). destruct (H3 p ltac:(by left)) as [H4|H4].
      * destruct (proj2 IH) as (g & Hg & H5); [split; [lia|split; [lia|intros q ?; apply H3; by right]]|].
        exists g. split; [by right|done].
      * exists (from, pt_offset p - from). split; [by left|]. cbn. lia.
Qed.

(** ** Tables *)

Definition meet_not (p q : part) : Prop := pt_offset p + pt_size p <= pt_offset q \/ pt_offset q + pt_size q <= pt_offset p.

(** What tables of partitions are like: partitions have a size, the first ones are on
    the disk, no container is contained, partitions of a level do not meet, and those
    that are contained are inside of a container or do not meet it. *)
Record table_ok (disk : Z) (ps : list part) : Prop := {
  to_nodup : NoDup ps;
  to_size : forall p, p ∈ ps -> 0 < pt_size p;
  to_disk : forall p, p ∈ ps -> pt_contained p = false -> 0 <= pt_offset p /\ pt_offset p + pt_size p <= disk;
  to_flags : forall p, p ∈ ps -> pt_container p = true -> pt_contained p = false;
  to_apart : forall p q, p ∈ ps -> q ∈ ps -> p <> q -> pt_contained p = pt_contained q -> meet_not p q;
  to_inside : forall p q, p ∈ ps -> q ∈ ps -> pt_container p = true -> pt_contained q = true ->
    (pt_offset p <= pt_offset q /\ pt_offset q + pt_size q <= pt_offset p + pt_size p) \/ meet_not p q }.

(** The list offers the ranges of at least 3 MiB that meet no partition. *)
Definition offers_exactly (l : list entry) (first size : Z) (ps : list part) : Prop :=
  forall s n, small <= n ->
    ((exists start len, Free start len ∈ l /\ start <= s /\ s + n <= start + len) <->
     (first <= s /\ s + n <= first + size /\ forall p, p ∈ ps -> apart s n p)).

Lemma chained_sorted from ps : StronglySorted (before part_cmp) ps -> NoDup ps -> (forall p, p ∈ ps -> from <= pt_offset p) ->
  (forall p, p ∈ ps -> 0 < pt_size p) -> (forall p q, p ∈ ps -> q ∈ ps -> p <> q -> meet_not p q) -> chained from ps.
Proof.
  revert from. induction ps as [|p ps IH]; intros from Hs Hn Hf Hp Hm; [done|]. apply StronglySorted_cons in Hs as [Hall Hs].
  apply NoDup_cons in Hn as [Hnin Hn]. cbn. split; [apply Hf; by left|]. split; [apply Hp; by left|]. apply IH; try done.
  - intros q Hq. rewrite Forall_forall in Hall. specialize (Hall q Hq). unfold before, part_cmp in Hall.
    pose proof (Hp q ltac:(by right)). destruct (Hm p q) as [?|?]; [by left|by right|by intros ->|done|lia].
  - intros q Hq. apply Hp. by right.
  - intros q r Hq Hr. by apply Hm; right.
Qed.

Lemma strongly_sorted_filter {A} (R : A -> A -> Prop) (P : A -> Prop) `{!forall x, Decision (P x)} l :
  StronglySorted R l -> StronglySorted R (filter P l).
Proof.
  induction 1 as [|x l Hs IH Hall]; [constructor|]. rewrite filter_cons. case_decide; [|done].
  apply StronglySorted_cons. split; [|done]. rewrite Forall_forall in *. intros y [_ Hy]%list_elem_of_filter. by apply Hall.
Qed.

(** A level of a sorted table offers what it should. *)
Lemma level_offers c fuel ps level first size l : StronglySorted (before part_cmp) ps -> NoDup ps ->
  (forall p, p ∈ ps -> 0 < pt_size p) ->
  (forall p q, p ∈ ps -> q ∈ ps -> p <> q -> of_level level p = true -> of_level level q = true -> meet_not p q) ->
  process_level (S fuel) c ps level first size = Some l -> offers_exactly l first size (visible level first size ps).
Proof.
  intros Hs Hn Hp Hm Hl s n Hbig. destruct (process_level_list _ _ _ _ _ _ _ Hl) as (Hf & _ & _).
  set (vs := visible level first size ps) in *.
  assert (forall p, p ∈ vs -> p ∈ ps /\ of_level level p = true /\ first <= pt_offset p /\ pt_offset p + pt_size p <= first + size) as Hv.
  { intros p [Hb Hin]%list_elem_of_filter. apply andb_true_iff in Hb as [Hb Hfit]. unfold fits in Hfit.
    apply negb_true_iff, orb_false_iff in Hfit as [H1%Z.ltb_ge H2%Z.ltb_ge]. done. }
  assert (chained first vs) as Hch.
  { apply chained_sorted; [by apply strongly_sorted_filter|by apply NoDup_filter|..].
    - intros p H. by apply Hv.
    - intros p H. by apply Hp, Hv.
    - intros p q H1 H2 Hne. destruct (Hv p H1) as (? & ? & _), (Hv q H2) as (? & ? & _). by apply Hm. }
  assert (0 < n) as Hn0 by (unfold small in Hbig; lia).
  rewrite <- (gaps_exact s n vs Hn0 first (first + size) Hch) by (intros p H; by apply Hv). split.
  - intros (start & len & Hin & H1 & H2). assert ((start, len) ∈ frees l) as Hg.
    { apply list_elem_of_omap. by exists (Free start len). }
    rewrite Hf in Hg. apply list_elem_of_filter in Hg as [_ Hg]. by exists (start, len).
  - intros ([start len] & Hg & H1 & H2). cbn [fst snd] in *. exists start, len. split; [|done].
    assert ((start, len) ∈ frees l) as Hin.
    { rewrite Hf. apply list_elem_of_filter. split; [unfold big; cbn; lia|done]. }
    apply list_elem_of_omap in Hin as ([| |] & Hin & E); try done. by injection E as -> ->.
Qed.

Lemma offers_ext l first size ps qs : (forall s n, small <= n -> first <= s -> s + n <= first + size ->
    (forall p, p ∈ ps -> apart s n p) <-> (forall p, p ∈ qs -> apart s n p)) ->
  offers_exactly l first size ps -> offers_exactly l first size qs.
Proof.
  intros H Ho s n Hn. rewrite (Ho s n Hn). split; intros (H1 & H2 & H3); (split; [done|split; [done|]]); by apply (H s n Hn).
Qed.

Lemma partitions_index localeCompare fuel c path : path ∈ cl_ptable c ->
  ix_partitions (update_indices localeCompare fuel c) !! path =
  Some (js_sort part_cmp (filter (fun p => pt_table p = path) (cl_part c).*2)).
Proof.
  intros H. unfold update_indices. destruct (drive_indices c) as [[broken multi] drv]. cbn [ix_partitions].
  rewrite lookup_fmap, group_lookup. by rewrite decide_True.
Qed.

Lemma visible_first disk ps : (forall p, p ∈ ps -> pt_contained p = false -> 0 <= pt_offset p /\ pt_offset p + pt_size p <= disk) ->
  visible 0 0 disk ps = filter (fun p => pt_contained p = false) ps.
Proof.
  intros H. apply filter_agree. intros p Hp. cbn [of_level]. rewrite andb_true_iff, negb_true_iff. split; [by intros [? _]|].
  intros E. split; [done|]. unfold fits. destruct (H p Hp E). apply negb_true_iff, orb_false_iff. split; apply Z.ltb_ge; lia.
Qed.

(** C38. The free space that is offered is what no partition has.  For a block with a
    table as tables are, the list is made, it shows the partitions of the first level
    in their order, each once, and a range of at least 3 MiB lies in one of its
    free spaces exactly when it is on the disk and meets no partition of that level;
    the same is true in each container for the partitions that are contained. *)
Theorem free_space_exact localeCompare fuel c b :
  let ix := update_indices localeCompare fuel c in
  let ps := filter (fun p => pt_table p = bl_path b) (cl_part c).*2 in
  bl_path b ∈ cl_ptable c -> table_ok (bl_size b) ps ->
  exists l, get_partitions 2 c ix b = Some l /\
    StronglySorted (before part_cmp) (shown l) /\ shown l ≡ₚ filter (fun p => pt_contained p = false) ps /\
    offers_exactly l 0 (bl_size b) (filter (fun p => pt_contained p = false) ps) /\
    forall p bo es, Container p bo es ∈ l ->
      offers_exactly es (pt_offset p) (pt_size p) (filter (fun q => pt_contained q = true) ps).
Proof.
  intros ix ps Ht [Hnd Hsz Hdisk Hflags Hap Hin]. unfold get_partitions, ix. rewrite partitions_index by done. cbn [mbind option_bind].
  fold ps. set (qs := js_sort part_cmp ps). destruct (sort_by pt_offset ps) as [Hsort Hperm].
  change (js_sort _ ps) with qs in Hsort, Hperm. assert (forall p, p ∈ qs <-> p ∈ ps) as Hq by (intros p; by rewrite Hperm).
  assert (NoDup qs) as Hndq by by rewrite Hperm.
  assert (is_Some (process_level 2 c qs 0 0 (bl_size b))) as [l Hl].
  { apply process_level_total. intros p Hp _ Hc. apply process_level_total. intros q Hq1 Hlq Hcq.
    apply Hq in Hq1. cbn [of_level] in Hlq. by rewrite (Hflags q Hq1 Hcq) in Hlq. }
  exists l. split; [exact Hl|]. destruct (process_level_list _ _ _ _ _ _ _ Hl) as (_ & Hsh & Hco).
  assert (visible 0 0 (bl_size b) qs = filter (fun p => pt_contained p = false) qs) as Ev.
  { apply visible_first. intros p Hp. by apply Hdisk, Hq. }
  assert (forall level first size l, (forall p, of_level level p = true -> forall q, of_level level q = true -> pt_contained p = pt_contained q) ->
    process_level 1 c qs level first size = Some l \/ process_level 2 c qs level first size = Some l ->
    offers_exactly l first size (visible level first size qs)) as Hoff.
  { intros level first size l' Hlev Hpl.
    assert (exists f, process_level (S f) c qs level first size = Some l') as [f Hf] by (destruct Hpl; eauto).
    eapply level_offers; [exact Hsort|exact Hndq|intros p Hp; by apply Hsz, Hq| |exact Hf].
    intros p q H1 H2 Hne L1 L2. apply Hap; [by apply Hq|by apply Hq|done|by apply Hlev]. }
  split; [rewrite Hsh; by apply strongly_sorted_filter|]. split; [by rewrite Hsh, Ev, Hperm|]. split.
  - eapply offers_ext; [|apply Hoff; [|by right; exact Hl]].
    + intros s n _ _ _. rewrite Ev. split; intros H p Hp; apply H; revert Hp; by rewrite !list_elem_of_filter, Hq.
    + intros p Hp q Hq'. cbn in *. apply negb_true_iff in Hp, Hq'. congruence.
  - intros p bo es Hp. destruct (Hco p bo es Hp) as (Hpv & Hpc & Hes).
    assert (p ∈ ps) as Hpps by (apply list_elem_of_filter in Hpv as [_ Hpv]; by apply Hq).
    eapply offers_ext; [|apply Hoff; [|left; exact Hes]].
    + intros s n Hn H1 H2. split; intros H q Hqin.
      * apply list_elem_of_filter in Hqin as [Hqc Hqps]. destruct (Hin p q Hpps Hqps Hpc Hqc) as [Hi|Hi].
        -- apply H, list_elem_of_filter. split; [|by apply Hq]. cbn [of_level]. rewrite Hqc. unfold fits.
           apply negb_true_iff, orb_false_iff. split; apply Z.ltb_ge; lia.
        -- unfold apart, meet_not, small in *. lia.
      * apply list_elem_of_filter in Hqin as [Hv Hqq]. apply H, list_elem_of_filter. apply andb_true_iff in Hv as [Hv _].
        split; [exact Hv|by apply Hq].
    + intros q1 L1 q2 L2. cbn in *. congruence.
Qed.

(** A disk with a partition, a free range, and a container with one partition. *)
Definition sample_block : block :=
  mk_block "/b/sda" "" "" [] "/" "/" "/" "/" 2048 (2 ^ 30) false "" "".
Definition sample_parts : list part :=
  [mk_part "/b/sda5" "/b/sda" (603 * 2 ^ 20) (100 * 2 ^ 20) false true;
   mk_part "/b/sda1" "/b/sda" (2 ^ 20) (499 * 2 ^ 20) false false;
   mk_part "/b/sda2" "/b/sda" (600 * 2 ^ 20) (400 * 2 ^ 20) true false].
Definition sample_client : client :=
  mk_client [] [("/b/sda", sample_block)] ["/b/sda"] (map (fun p => (pt_path p, p)) sample_parts) [] [] [] [] [] [] [] [].

Ltac each_part H :=
  unfold sample_parts in H; repeat (apply elem_of_cons in H as [->|H]); [..|by apply not_elem_of_nil in H].

Lemma sample_table : table_ok (2 ^ 30) sample_parts.
Proof.
  split.
  - apply (bool_decide_unpack _). vm_compute. exact I.
  - intros p Hp. each_part Hp; cbn; lia.
  - intros p Hp. each_part Hp; cbn; lia.
  - intros p Hp. each_part Hp; cbn; done.
  - intros p q Hp Hq Hne Hc. unfold meet_not. each_part Hp; each_part Hq; first [done|cbn; lia].
  - intros p q Hp Hq Hne Hc. unfold meet_not. each_part Hp; each_part Hq; first [done|cbn; lia].
Qed.

Lemma free_space_exact_witness :
  table_ok (2 ^ 30) sample_parts /\
  exists l, get_partitions 2 sample_client (update_indices (fun _ _ => 0) 5 sample_client) sample_block = Some l /\
    offers_exactly l 0 (2 ^ 30) (filter (fun p => pt_contained p = false) sample_parts).
Proof.
  split; [exact sample_table|].
  destruct (free_space_exact (fun _ _ => 0) 5 sample_client sample_block) as (l & H1 & _ & _ & H2 & _).
  - apply (bool_decide_unpack _). vm_compute. exact I.
  - exact sample_table.
  - exists l. split; [exact H1|exact H2].
Defined.

(** What the list is for it. *)
Definition mib (e : entry) : string * Z * Z :=
  match e with
  | Free start size => ("free", start / 2 ^ 20, size / 2 ^ 20)
  | Block p _ => (pt_path p, pt_offset p / 2 ^ 20, pt_size p / 2 ^ 20)
  | Container p _ _ => ("container", pt_offset p / 2 ^ 20, pt_size p / 2 ^ 20)
  end.

Example sample_list :
  option_map (map mib) (get_partitions 2 sample_client (update_indices (fun _ _ => 0) 5 sample_client) sample_block) =
  Some [("/b/sda1", 1, 499); ("free", 500, 100); ("container", 600, 400); ("free", 1000, 24)].
Proof. vm_compute. reflexivity. Qed.

(** ** What the code does not do *)

Definition client_of (ps : list part) : client :=
  mk_client [] [("/b/sda", sample_block)] ["/b/sda"] (map (fun p => (pt_path p, p)) ps) [] [] [] [] [] [] [] [].

(** A partition that reaches over the end of its disk is left out of the list, and its
    space is offered as free. *)
Example too_large_is_free :
  option_map (map mib)
    (let c := client_of [mk_part "/b/sda1" "/b/sda" (2 ^ 20) (2 ^ 30) false false] in
     get_partitions 2 c (update_indices (fun _ _ => 0) 5 c) sample_block) = Some [("free", 0, 1024)].
Proof. vm_compute. reflexivity. Qed.

(** A container that is contained itself is looked into for ever. *)
Definition endless : part := mk_part "/b/sda1" "/b/sda" 0 (2 ^ 30) true true.

Lemma endless_level fuel c level : process_level fuel c [endless] (S level) 0 (2 ^ 30) = None.
Proof.
  revert level. induction fuel as [|fuel IH]; intros level; [done|]. cbn [process_level foldl mbind option_bind].
  assert (of_level (S level) endless && fits 0 (2 ^ 30) endless = true) as -> by by destruct level.
  cbn [pt_container endless pt_offset pt_size mbind option_bind]. by rewrite IH.
Qed.
