(* ===== verification/StorageUsage.v ===== *)
(** * What uses a block is found, and torn down as it should be *)

From stdpp Require Import relations sorting.
From S2P Require Import Prelude Storage StorageSpec.

(** ** All that is on an object *)

Section Usage.
Context (c : client) (ix : indices).

Definition child (p q : string) : Prop := q ∈ get_children c ix p.

(** Going up: the uses of the children, one after the other. *)
Definition usages (fuel : nat) (l : list string) : option (list use) :=
  foldr (fun q r => r ← r; u ← get_usage fuel c ix q; Some (u ++ r)) (Some []) l.

Lemma get_usage_eq fuel p : get_usage (S fuel) c ix p = (below ← usages fuel (get_children c ix p); Some (below ++ own_usage c p)).
Proof. reflexivity. Qed.

Lemma usages_all fuel l : (forall q, q ∈ l -> exists u, get_usage fuel c ix q = Some u) ->
  exists us, usages fuel l = Some us /\
    forall x, x ∈ us <-> exists q u, q ∈ l /\ get_usage fuel c ix q = Some u /\ x ∈ u.
Proof.
  induction l as [|q l IH]; intros H; cbn.
  - exists []. split; [done|]. intros x. split; [by intros ?%not_elem_of_nil|]. by intros (q & u & ?%not_elem_of_nil & _).
  - destruct IH as (us & Eus & Hus); [intros q' ?; apply H; by right|]. destruct (H q ltac:(by left)) as [u Eu].
    unfold usages in Eus. rewrite Eus. cbn. rewrite Eu. cbn. eexists. split; [reflexivity|]. intros x. rewrite elem_of_app, Hus. split.
    + intros [Hx|(q' & u' & Hq & Eq & Hx)]; [exists q, u; split; [by left|done]|exists q', u'; split; [by right|done]].
    + intros (q' & u' & [->|Hq]%elem_of_cons & Eq & Hx); [left; congruence|right; by exists q', u'].
Qed.

(** The objects on an object have a smaller rank, and the fuel is more than it. *)
Lemma get_usage_all (rank : string -> nat) : (forall p q, child p q -> (rank q < rank p)%nat) ->
  forall fuel p, (rank p < fuel)%nat -> exists u, get_usage fuel c ix p = Some u /\
    forall x, x ∈ u <-> exists q, rtc child p q /\ x ∈ own_usage c q.
Proof.
  intros Hrank fuel. induction fuel as [|fuel IH]; intros p Hp; [lia|]. rewrite get_usage_eq.
  assert (forall q, child p q -> exists u, get_usage fuel c ix q = Some u /\
    forall x, x ∈ u <-> exists q', rtc child q q' /\ x ∈ own_usage c q') as Hq.
  { intros q H. apply IH. specialize (Hrank p q H). lia. }
  destruct (usages_all fuel (get_children c ix p)) as (us & -> & Hus).
  { intros q H. destruct (Hq q H) as (u & ? & _). by exists u. }
  cbn. eexists. split; [reflexivity|]. intros x. rewrite elem_of_app, Hus. split.
  - intros [(q & u & H & Eu & Hx)|Hx]; [|exists p; split; [done|done]].
    destruct (Hq q H) as (u' & Eu' & Hu'). assert (u' = u) as -> by congruence. apply Hu' in Hx as (q' & Hr & Hx).
    exists q'. split; [by eapply rtc_l|done].
  - intros (q & Hr & Hx). inversion Hr as [|? q1 ? H1 Hr']; subst; [by right|]. left.
    destruct (Hq q1 H1) as (u & Eu & Hu). exists q1, u. split; [exact H1|]. split; [done|]. apply Hu. by exists q.
Qed.

End Usage.

(** ** The children, without indices *)

(** What lies directly on an object: its cleartext device, its partitions, the
    partitions that a container contains, and the blocks of the volumes of a group. *)
Inductive lies_on (c : client) : string -> string -> Prop :=
  | on_crypto p q b : (q, b) ∈ cl_blocks c -> bl_crypto b = p -> p <> "/" -> lies_on c p (bl_path b)
  | on_table p q d : p ∈ cl_ptable c -> (q, d) ∈ cl_part c -> pt_table d = p -> pt_container d = false -> lies_on c p (pt_path d)
  | on_container p e q d : assoc_get p (cl_part c) = Some e -> pt_container e = true -> pt_table e ∈ cl_ptable c ->
      (q, d) ∈ cl_part c -> pt_table d = pt_table e -> pt_contained d = true -> lies_on c p (pt_path d)
  | on_group p q l k b : is_Some (assoc_get p (cl_vgroups c)) -> (q, l) ∈ cl_lvols c -> lv_vgroup l = p ->
      (k, lv_path l) ∈ cl_lvm2 c -> get_block c k = Some b -> lies_on c p (bl_path b).

(** No two devices are on the same encrypted one, and no two blocks are the same
    volume. *)
Record unshared (c : client) : Prop := {
  un_crypto : forall q q' b b', (q, b) ∈ cl_blocks c -> (q', b') ∈ cl_blocks c -> bl_crypto b = bl_crypto b' ->
    bl_crypto b <> "/" -> b = b';
  un_lvm2 : forall k k' l, (k, l) ∈ cl_lvm2 c -> (k', l) ∈ cl_lvm2 c -> k = k' }.

Lemma last_of_lookup {X Y} (key : X -> string) (value : X -> Y) entries k v :
  (forall x y, x ∈ entries -> y ∈ entries -> key x = key y -> value x = value y) ->
  last_of key value entries !! k = Some v <-> exists x, x ∈ entries /\ key x = k /\ value x = v.
Proof.
  intros Hu. unfold last_of. assert (forall es (m : gmap string Y), (forall x, x ∈ es -> x ∈ entries) ->
    (foldl (fun m x => <[key x := value x]> m) m es !! k = Some v <->
     (exists x, x ∈ es /\ key x = k /\ value x = v) \/ (m !! k = Some v /\ forall x, x ∈ es -> key x <> k))) as H.
  { induction es as [|x es IH]; intros m Hes; cbn [foldl].
    - split; [intros ->; right; split; [done|by intros ? ?%not_elem_of_nil]|].
      intros [(x & ?%not_elem_of_nil & _)|[? _]]; done.
    - rewrite IH by (intros y Hy; apply Hes; by right). split.
      + intros [(y & Hy & E)|[Hm Hno]]; [left; exists y; split; [by right|done]|].
        destruct (decide (key x = k)) as [<-|Hne].
        * rewrite lookup_insert_eq in Hm. injection Hm as <-. left. exists x. split; [by left|done].
        * rewrite lookup_insert_ne in Hm by done. right. split; [done|]. intros y [->|Hy]%elem_of_cons; [done|by apply Hno].
      + intros [(y & [->|Hy]%elem_of_cons & Ek & Ev)|[Hm Hno]].
        * destruct (decide (Exists (fun z => key z = k) es)) as [He|He].
          -- apply Exists_exists in He as (z & Hz & Ez). left. exists z. split; [done|]. split; [done|].
             rewrite <- Ev. apply Hu; [apply Hes; by right|apply Hes; by left|congruence].
          -- right. rewrite <- Ek, lookup_insert_eq, Ev. split; [done|]. intros z Hz Ez. apply He, Exists_exists. exists z.
             by rewrite Ez.
        * left. by exists y.
        * right. rewrite lookup_insert_ne by (apply Hno; by left). split; [done|]. intros y Hy. apply Hno. by right. }
  rewrite H by done. split; [|by left]. intros [?|[Hm _]]; [done|]. by rewrite lookup_empty in Hm.
Qed.

Section Children.
Context (localeCompare : string -> string -> Z) (fuel : nat) (c : client).
Context (c_unshared : unshared c).

Abbreviation ix := (update_indices localeCompare fuel c).

Lemma cleartext_lookup p b : ix_cleartext ix !! p = Some b <-> exists q, (q, b) ∈ cl_blocks c /\ bl_crypto b = p /\ p <> "/".
Proof.
  unfold update_indices. destruct (drive_indices c) as [[broken multi] drv]. cbn [ix_cleartext].
  rewrite last_of_lookup.
  - split.
    + intros (x & [Hne Hx]%list_elem_of_filter & Ek & <-). apply list_elem_of_fmap in Hx as ([q b'] & -> & Hx). exists q.
      cbn in *. subst p. done.
    + intros (q & Hq & Ek & Hne). exists b. split; [|done]. apply list_elem_of_filter. split; [congruence|].
      apply list_elem_of_fmap. by exists (q, b).
  - intros x y [Hne Hx]%list_elem_of_filter [_ Hy]%list_elem_of_filter E.
    apply list_elem_of_fmap in Hx as ([q b1] & -> & Hx), Hy as ([q' b2] & -> & Hy). by apply (un_crypto c c_unshared q q').
Qed.

Lemma partitions_lookup p : default [] (ix_partitions ix !! p) ≡ₚ
  if decide (p ∈ cl_ptable c) then filter (fun d => pt_table d = p) (cl_part c).*2 else [].
Proof.
  unfold update_indices. destruct (drive_indices c) as [[broken multi] drv]. cbn [ix_partitions].
  rewrite lookup_fmap, group_lookup. case_decide; [|done]. cbn. apply merge_sort_Permutation.
Qed.

Lemma lvols_lookup p : default [] (ix_lvols ix !! p) ≡ₚ
  if decide (p ∈ (cl_vgroups c).*1) then filter (fun l => lv_vgroup l = p) (cl_lvols c).*2 else [].
Proof.
  unfold update_indices. destruct (drive_indices c) as [[broken multi] drv]. cbn [ix_lvols].
  rewrite lookup_fmap, group_lookup. case_decide; [|done]. cbn. apply merge_sort_Permutation.
Qed.

Lemma lvol_block_lookup l ob : ix_lvol_block ix !! l = Some ob <-> exists k, (k, l) ∈ cl_lvm2 c /\ get_block c k = ob.
Proof.
  unfold update_indices. destruct (drive_indices c) as [[broken multi] drv]. cbn [ix_lvol_block].
  rewrite last_of_lookup.
  - split; [intros ([k l'] & Hx & <- & E); by exists k|]. intros (k & Hk & E). by exists (k, l).
  - intros [k l1] [k' l2] Hx Hy E. cbn in *. subst l2. by rewrite (un_lvm2 c c_unshared k k' l1 Hx Hy).
Qed.

Lemma in_snd {X} (t : tab X) x : x ∈ t.*2 <-> exists k, (k, x) ∈ t.
Proof. rewrite list_elem_of_fmap. split; [intros ([k y] & -> & H); by exists k|]. intros [k H]. by exists (k, x). Qed.

(** The indices have no other children than the data, and all of them. *)
Lemma children_exact p q : child c ix p q <-> lies_on c p q.
Proof.
  unfold child, get_children. rewrite !elem_of_app. split.
  - intros [H|[H|[H|H]]].
    + destruct (ix_cleartext ix !! p) as [b|] eqn:E; [|by apply not_elem_of_nil in H]. apply list_elem_of_singleton in H as ->.
      apply cleartext_lookup in E as (k & Hk & E & Hne). by apply (on_crypto c p k b).
    + case_bool_decide as Hp; [|by apply not_elem_of_nil in H]. apply list_elem_of_omap in H as (d & Hd & E).
      rewrite partitions_lookup, decide_True in Hd by done. apply list_elem_of_filter in Hd as [Ht [k Hk]%in_snd].
      destruct (pt_container d) eqn:Ec; [done|]. injection E as <-. by apply (on_table c p k d).
    + destruct (assoc_get p (cl_part c)) as [e|] eqn:Ee; [|by apply not_elem_of_nil in H].
      destruct (pt_container e) eqn:Ec; [|by apply not_elem_of_nil in H]. apply list_elem_of_omap in H as (d & Hd & E).
      rewrite partitions_lookup in Hd. case_decide as Hp; [|by apply not_elem_of_nil in Hd].
      apply list_elem_of_filter in Hd as [Ht [k Hk]%in_snd]. destruct (pt_contained d) eqn:Econ; [|done]. injection E as <-.
      by apply (on_container c p e k d).
    + destruct (assoc_get p (cl_vgroups c)) as [vg|] eqn:Ev; [|by apply not_elem_of_nil in H].
      apply list_elem_of_omap in H as (l & Hl & E). rewrite lvols_lookup in Hl. case_decide as Hp; [|by apply not_elem_of_nil in Hl].
      apply list_elem_of_filter in Hl as [Ht [k Hk]%in_snd]. destruct (ix_lvol_block ix !! lv_path l) as [[b|]|] eqn:Eb; try done.
      injection E as <-. apply lvol_block_lookup in Eb as (k' & Hk' & Eb). apply (on_group c p k l k' b); eauto.
  - intros H. destruct H as [p k b Hk E Hne|p k d Hp Hk Ht Ec|p e k d Ee Ec Hp Hk Ht Econ|p k l k' b [vg Ev] Hk Hl Hk' Eb].
    + left. assert (ix_cleartext ix !! p = Some b) as -> by (apply cleartext_lookup; eauto). by apply list_elem_of_singleton.
    + right. left. rewrite bool_decide_eq_true_2 by done. apply list_elem_of_omap. exists d. rewrite Ec. split; [|done].
      rewrite partitions_lookup, decide_True by done. apply list_elem_of_filter. split; [done|]. apply in_snd. by exists k.
    + right. right. left. rewrite Ee, Ec. apply list_elem_of_omap. exists d. rewrite Econ. split; [|done].
      rewrite partitions_lookup, decide_True by done. apply list_elem_of_filter. split; [done|]. apply in_snd. by exists k.
    + right. right. right. rewrite Ev. apply list_elem_of_omap. exists l.
      assert (ix_lvol_block ix !! lv_path l = Some (Some b)) as -> by (apply lvol_block_lookup; eauto). split; [|done].
      rewrite lvols_lookup, decide_True; [apply list_elem_of_filter; split; [done|]; apply in_snd; by exists k|].
      apply assoc_get_elem in Ev. apply list_elem_of_fmap. by exists (p, vg).
Qed.

End Children.

Lemma rtc_agree {A} (R S : A -> A -> Prop) : (forall x y, R x y <-> S x y) -> forall x y, rtc R x y <-> rtc S x y.
Proof. intros H x y. split; intros Hr; induction Hr as [|x y z Hxy _ IH]; [done| |done|]; (eapply rtc_l; [by apply H|exact IH]). Qed.

Lemma judged_in v l x : x ∈ default [] (not_empty (judged v l)) <-> x ∈ l /\ judge x = v.
Proof.
  assert (default [] (not_empty (judged v l)) = judged v l) as -> by by destruct (judged v l).
  unfold judged. rewrite list_elem_of_filter. tauto.
Qed.

(** C39. Nothing that uses a block is missed.  When what lies on what has an end and
    devices are not shared, the uses that are found for an object are those of all
    that lies on it, directly or not: mounted file systems, members of RAID devices,
    volumes of groups, and devices under VDO.  Each of them can be torn down or is
    in the way; when there is neither, nothing on the object is in use. *)
Theorem active_usage_complete localeCompare fuel c rank n path :
  let ix := update_indices localeCompare fuel c in
  unshared c -> (forall p q, lies_on c p q -> (rank q < rank p)%nat) -> (rank path < n)%nat ->
  exists u, get_active_usage n c ix path = Some u /\
    (forall x, x ∈ au_raw u <-> exists q, rtc (lies_on c) path q /\ x ∈ own_usage c q) /\
    (forall x, x ∈ au_raw u <-> x ∈ default [] (au_teardown u) \/ x ∈ default [] (au_blocking u)) /\
    (au_teardown u = None -> au_blocking u = None -> forall q, rtc (lies_on c) path q -> own_usage c q = []).
Proof.
  intros ix Hu Hrank Hn. assert (forall p q, child c ix p q <-> lies_on c p q) as Hc by (intros p q; by apply children_exact).
  destruct (get_usage_all c ix rank) with (fuel := n) (p := path) as (us & E & Hus); [intros p q H; by apply Hrank, Hc|done|].
  unfold get_active_usage. rewrite E. cbn [mbind option_bind]. eexists. split; [reflexivity|]. cbn [au_raw au_teardown au_blocking].
  assert (forall x, x ∈ us <-> x ∈ default [] (not_empty (judged Teardown us)) \/ x ∈ default [] (not_empty (judged Blocking us))) as Hj.
  { intros x. rewrite !judged_in. destruct (judge x); naive_solver. }
  split; [|split; [exact Hj|]].
  - intros x. rewrite Hus. split; intros (q & Hr & Hx); exists q; (split; [|done]); by apply (rtc_agree _ _ Hc).
  - intros Ht Hb q Hr. destruct (own_usage c q) as [|x l] eqn:Eq; [done|]. exfalso.
    assert (x ∈ us) as Hx by (apply Hus; exists q; split; [by apply (rtc_agree _ _ Hc)|rewrite Eq; by left]).
    apply Hj in Hx. rewrite Ht, Hb in Hx. cbn in Hx. by destruct Hx as [?%not_elem_of_nil|?%not_elem_of_nil].
Qed.

(** ** Tearing down volume groups *)

(** The volumes of a group that are to be removed. *)
Definition volumes_of (g : string) (l : list use) : list pvol :=
  omap (fun u => match u with PhysicalVolume _ p vg => if String.eqb (vg_path vg) g then Some p else None | _ => None end) l.

Definition paths_of (g : string) (l : list use) : list string :=
  omap (fun u => match u with PhysicalVolume b _ vg => if String.eqb (vg_path vg) g then Some (block_path b) else None | _ => None end) l.

Lemma by_vgroup_get g l : forall m, NoDup m.*1 ->
  let m' := foldl (fun m u => match u with
                    | PhysicalVolume b _ vg => assoc_set (vg_path vg) (default [] (assoc_get (vg_path vg) m) ++ [block_path b]) m
                    | _ => m end) m l in
  NoDup m'.*1 /\ default [] (assoc_get g m') = default [] (assoc_get g m) ++ paths_of g l /\
  (is_Some (assoc_get g m') <-> is_Some (assoc_get g m) \/ paths_of g l <> []).
Proof.
  induction l as [|u l IH]; intros m Hm; cbn [foldl paths_of omap list_omap]; [rewrite app_nil_r; naive_solver|].
  destruct u as [b f|b r|b p vg|b v]; try (by apply IH). cbv zeta.
  destruct (IH (assoc_set (vg_path vg) (default [] (assoc_get (vg_path vg) m) ++ [block_path b]) m)) as (H1 & H2 & H3);
    [by apply assoc_set_nodup|]. split; [exact H1|]. rewrite H2, H3, assoc_get_set.
  destruct (String.eqb_spec (vg_path vg) g) as [<-|Hne]; cbn [default from_option]; [|by fold (paths_of g l)].
  unfold id. rewrite <- app_assoc. split; [done|]. split; [by right|]. intros _. left. by eexists.
Qed.

Lemma volumes_paths g l : length (volumes_of g l) = length (paths_of g l).
Proof.
  induction l as [|u l IH]; [done|]. cbn. destruct u as [b f|b r|b p vg|b v]; try exact IH.
  destruct (String.eqb (vg_path vg) g); [cbn; f_equal; exact IH|exact IH].
Qed.

(** C40. A volume group is deleted exactly when all its volumes are to be removed, and
    otherwise just these are removed from it: for uses without repetition, all of
    them volumes of their groups, deletion of a group is ordered if and only if
    there is a volume of it among the uses and every volume of the group is; and a
    volume whose group is not deleted is removed. *)
Theorem group_deleted_iff ix usage g :
  let raw := au_raw usage in
  (forall p, p ∈ volumes_of g raw -> p ∈ default [] (ix_pvols ix !! g)) -> NoDup (volumes_of g raw) ->
  NoDup (default [] (ix_pvols ix !! g)) ->
  (DeleteGroup g ∈ teardown_active_usage ix usage <->
     volumes_of g raw <> [] /\ forall p, p ∈ default [] (ix_pvols ix !! g) -> p ∈ volumes_of g raw) /\
  (~ DeleteGroup g ∈ teardown_active_usage ix usage -> forall b p vg, PhysicalVolume b p vg ∈ raw -> vg_path vg = g ->
     RemoveVolume g (block_path b) ∈ teardown_active_usage ix usage).
Proof.
  intros raw Hsub Hnd Hndp. destruct (by_vgroup_get g raw [] (NoDup_nil_2)) as (Hk & Hg & Hs). cbv zeta in Hk, Hg, Hs.
  fold (by_vgroup raw) in Hk, Hg, Hs. cbn [assoc_get default from_option app] in Hg.
  assert (forall x, x ∈ teardown_active_usage ix usage <->
     x ∈ omap (fun u => match u with Mounted _ f => if bool_decide (fs_mounts f = []) then None else Some (Unmount (fs_path f)) | _ => None end) raw \/
     x ∈ omap (fun u => match u with RaidMember b m => Some (RemoveMember (md_path m) (bl_path b)) | _ => None end) raw \/
     exists e, e ∈ by_vgroup raw /\ x ∈ handle_vg ix e) as Hx.
  { intros x. unfold teardown_active_usage. rewrite !elem_of_app. fold raw.
    assert (x ∈ concat (map (handle_vg ix) (by_vgroup raw)) <-> exists e, e ∈ by_vgroup raw /\ x ∈ handle_vg ix e) as ->; [|done].
    rewrite list_elem_of_In, in_concat. split.
    - intros (l & Hl & Hin). apply in_map_iff in Hl as (e & <- & He). exists e. by rewrite !list_elem_of_In.
    - intros (e & He & Hin). exists (handle_vg ix e). rewrite <- !list_elem_of_In. split; [|done].
      rewrite list_elem_of_In. apply in_map_iff. exists e. split; [done|]. by rewrite <- list_elem_of_In. }
  assert (DeleteGroup g ∈ teardown_active_usage ix usage <->
    paths_of g raw <> [] /\ length (paths_of g raw) = length (default [] (ix_pvols ix !! g))) as Hd.
  { rewrite Hx. split.
    - intros [H|[H|(e & He & H)]].
      + apply list_elem_of_omap in H as ([] & _ & H); try done. by case_bool_decide.
      + by apply list_elem_of_omap in H as ([] & _ & H).
      + unfold handle_vg in H. case_bool_decide as El.
        * apply list_elem_of_singleton in H. injection H as ->. destruct e as [k ps]. cbn [fst snd] in *.
          pose proof (assoc_elem_get k ps _ Hk He) as E. rewrite E in Hg. cbn in Hg. unfold id in Hg. subst ps. split; [|done].
          destruct (proj1 Hs) as [[? H]|H]; [by eexists|done|done].
        * apply list_elem_of_fmap in H as (? & H & _). done.
    - intros [Hne El]. right. right. destruct (proj2 Hs (or_intror Hne)) as [ps E]. exists (g, ps).
      split; [by apply assoc_get_elem|]. rewrite E in Hg. cbn in Hg. unfold id in Hg. subst ps. unfold handle_vg. cbn [fst snd].
      rewrite bool_decide_eq_true_2 by done. by apply list_elem_of_singleton. }
  split.
  - rewrite Hd, <- volumes_paths. assert (paths_of g raw <> [] <-> volumes_of g raw <> []) as ->.
    { pose proof (volumes_paths g raw) as E. destruct (volumes_of g raw), (paths_of g raw); cbn in E; try done; lia. }
    split; intros [Hne H]; (split; [done|]).
    + intros p Hp. assert (volumes_of g raw ≡ₚ default [] (ix_pvols ix !! g)) as ->; [|done].
      apply submseteq_length_Permutation; [by apply NoDup_submseteq|lia].
    + apply Permutation_length, NoDup_Permutation; [done..|]. intros p. split; [apply Hsub|apply H].
  - intros Hno b p vg Hin Hvg. rewrite Hx. right. right.
    assert (block_path b ∈ paths_of g raw) as Hp.
    { apply list_elem_of_omap. exists (PhysicalVolume b p vg). split; [done|]. by rewrite Hvg, String.eqb_refl. }
    assert (paths_of g raw <> []) as Hne by (intros E; rewrite E in Hp; by apply not_elem_of_nil in Hp).
    destruct (proj2 Hs (or_intror Hne)) as [ps E]. exists (g, ps). split; [by apply assoc_get_elem|].
    rewrite E in Hg. cbn in Hg. unfold id in Hg. subst ps. unfold handle_vg. cbn [fst snd].
    rewrite bool_decide_eq_false_2.
    + apply list_elem_of_fmap. by exists (block_path b).
    + intros El. apply Hno, Hd. done.
Qed.

(** ** A disk

    With a partition that is encrypted and mounted, and one that is the only volume
    of a group. *)

Definition blk (path crypto : string) : block := mk_block path "" "" [] "/" "/" "/" crypto 0 1 false "" "".

Definition disk : client :=
  mk_client [] [("sda", blk "sda" "/"); ("sda1", blk "sda1" "/"); ("sda2", blk "sda2" "/"); ("dm0", blk "dm0" "sda1")] ["sda"]
    [("sda1", mk_part "sda1" "sda" 0 10 false false); ("sda2", mk_part "sda2" "sda" 10 10 false false)]
    [] [("sda2", mk_pvol "sda2" "vg" 10 10)] [("dm0", mk_fsys "dm0" [encode_filename "/home"])] []
    [("vg", mk_vgroup "vg" "vg0")] [] [] [].

Definition disk_rank (p : string) : nat := if String.eqb p "sda" then 2%nat else if String.eqb p "dm0" then 0%nat else 1%nat.

Lemma disk_unshared : unshared disk.
Proof.
  split.
  - intros q q' b b' H H' E Hne. cbn in H, H'.
    repeat (apply elem_of_cons in H as [[= -> ->]|H]; [try by destruct Hne|]); [|by apply not_elem_of_nil in H].
    repeat (apply elem_of_cons in H' as [[= -> ->]|H']; [try done|]). by apply not_elem_of_nil in H'.
  - intros k k' l H. by apply not_elem_of_nil in H.
Qed.

Lemma disk_ranked p q : lies_on disk p q -> (disk_rank q < disk_rank p)%nat.
Proof.
  intros H. destruct H as [p k b H E Hne|p k d Hp H Ht Hc|p e k d He Hc Hp H Ht Hcon|p k l k' b Hv H _ _ _]; cbn in H.
  - repeat (apply elem_of_cons in H as [[= -> ->]|H]; [subst; cbn in *; try by destruct Hne|]); [vm_compute; lia|].
    by apply not_elem_of_nil in H.
  - repeat (apply elem_of_cons in H as [[= -> ->]|H]; [subst; vm_compute; lia|]). by apply not_elem_of_nil in H.
  - repeat (apply elem_of_cons in H as [[= -> ->]|H]; [done|]). by apply not_elem_of_nil in H.
  - by apply not_elem_of_nil in H.
Qed.

Definition disk_uses (u : active_usage) : list string * list string :=
  let name x := match x with Mounted _ f => fs_path f | RaidMember b _ => bl_path b | PhysicalVolume _ p _ => pv_path p | VdoBacking b _ => bl_path b end in
  (map name (default [] (au_teardown u)), map name (default [] (au_blocking u))).

Lemma active_usage_complete_witness :
  unshared disk /\ exists u, get_active_usage 3 disk (update_indices (fun _ _ => 0) 3 disk) "sda" = Some u /\
    (forall x, x ∈ au_raw u <-> exists q, rtc (lies_on disk) "sda" q /\ x ∈ own_usage disk q).
Proof.
  split; [exact disk_unshared|].
  destruct (active_usage_complete (fun _ _ => 0) 3 disk disk_rank 3 "sda") as (u & H1 & H2 & _).
  - exact disk_unshared.
  - exact disk_ranked.
  - vm_compute. lia.
  - exists u. split; [exact H1|exact H2].
Defined.

Example disk_usage :
  disk_uses <$> get_active_usage 3 disk (update_indices (fun _ _ => 0) 3 disk) "sda" = Some (["dm0"; "sda2"], []).
Proof. vm_compute. reflexivity. Qed.

(** Tearing it down: the group has no other volume. *)
Example disk_teardown :
  teardown_active_usage (update_indices (fun _ _ => 0) 3 disk) <$> get_active_usage 3 disk (update_indices (fun _ _ => 0) 3 disk) "sda" =
  Some [Unmount "dm0"; DeleteGroup "vg"].
Proof. vm_compute. reflexivity. Qed.

Definition disk_active : active_usage :=
  mk_active [PhysicalVolume (Some (blk "sda2" "/")) (mk_pvol "sda2" "vg" 10 10) (mk_vgroup "vg" "vg0")] None None.

Lemma group_deleted_iff_witness :
  DeleteGroup "vg" ∈ teardown_active_usage (update_indices (fun _ _ => 0) 3 disk) disk_active.
Proof.
  assert (default [] (ix_pvols (update_indices (fun _ _ => 0) 3 disk) !! "vg") = [mk_pvol "sda2" "vg" 10 10]) as E
    by (vm_compute; reflexivity).
  apply (group_deleted_iff (update_indices (fun _ _ => 0) 3 disk) disk_active "vg").
  - intros p Hp. rewrite E. exact Hp.
  - apply NoDup_singleton.
  - rewrite E. apply NoDup_singleton.
  - split; [discriminate|]. intros p Hp. rewrite E in Hp. exact Hp.
Defined.

